(* ===== verification/_CoqProject ===== *)
-Q . S2P
Prelude.v
Core.v
Footer.v
Avro.v
IvfPq.v
FileFormat.v
FileTheorems.v
FileExamples.v
Store.v
Effects.v
IndexLoader.v
Resilience.v
Cache.v
CacheTheorems.v
Lease.v
LeaseTheorems.v
Manifest.v
ManifestTheorems.v
ManifestExamples.v
Json.v
Puffin.v
Floats.v
ColumnStats.v
Ranking.v
Bloom.v
Bm25.v
Context.v
ContextTheorems.v
Catalog.v
ArrowSchema.v
ColumnStatsTheorems.v
Arrow.v
Arrays.v
Deletes.v
Search.v
Cdc.v
CatalogTheorems.v
HadoopTheorems.v
HadoopExamples.v
DeletesTheorems.v
SearchTheorems.v
Compaction.v
Jobs.v
Writer.v
MemTable.v
Decay.v
Migration.v
Deferred.v
CompactionTheorems.v
CompactionRows.v
CdcRows.v
CdcTheorems.v
CdcUpdates.v
CompactionSafety.v
LocalWp.v
WriterTheorems.v
WriterSafety.v
MemTableTheorems.v
DecayDates.v
DecayTheorems.v
MigrationTheorems.v
JobTheorems.v
QueryExamples.v
Frames.v
CompactionExamples.v
WriterExamples.v
MemTableExamples.v
CdcExamples.v
DecayExamples.v
MigrationExamples.v
