(* ===== verification/Prelude.v ===== *)
(** * AI-Lake: a verification library

    AI-Lake stores tables of documents with vector embeddings: Parquet files that
    carry their own vector indexes, an Iceberg catalog on an object store, and a query
    engine that searches the files.  This library models the core of the Rust
    implementation and proves what makes it correct.

    ** The program and its model

    The files are listed in dependency order.  Every operation is a definition with
    the source's name where the name is free; a mapping from definitions to lines of
    the sources accompanies the library.

    - File format ([ailake-file], [ailake-core]): [Core] has the shared types,
      [Footer] the headers and trailers, [FileFormat] the writer and the reader of a
      file over the IVF-PQ configuration and serializer of [IvfPq], [FileTheorems] what
      is read back, [FileExamples] a concrete Parquet and index library.  A file is a list of bytes; the reader's arithmetic is 64-bit
      with the checks of the source, and slicing out of range is the outcome [Panic].
    - Avro ([avro_raw.rs]): [Avro], with a decoder written from the specification.
    - Stores ([ailake-store]): [Store] has the store interface as a class, the
      in-memory store and the fault-injecting store; [Effects] has [IO], programs over
      a store that return, fail or panic, and the rules [wp] for what they do to its
      contents; [Lease] and [LeaseTheorems] have the fenced locks, request by request
      and interleaved.
    - Cache ([ailake-cache]): [Resilience] has the circuit breaker and the rate
      limiter, [Cache] and [CacheTheorems] the cache and the caching store.
    - Catalog ([ailake-catalog]): [Manifest] has the Avro manifests, [Json] and
      [Puffin] the statistics files, [Catalog] the table metadata, commits and the
      Hadoop catalog; [ManifestTheorems], [CatalogTheorems] and [HadoopTheorems] their
      properties; [ManifestExamples] and [HadoopExamples] concrete tables and runs
      with faults.  [ColumnStats] gathers the bounds of a file's columns
      ([column_stats.rs]), [ColumnStatsTheorems] shows what they cover.
    - Compaction ([compaction.rs]): [Compaction] has the planner, the merges and the
      whole pass; [CompactionTheorems] the planner, repeated passes and idempotency
      keys; [CompactionRows] the rows of files and of tables and what a merge writes,
      [CompactionSafety] the whole pass, [CompactionExamples] a table that is compacted.
    - Writing ([writer.rs], [index_jobs.rs]): [ArrowSchema] has the schema a commit
      declares, [Writer] the writing session (every kind of write, and the commit),
      [Jobs] the durable index jobs and their claims, [Deferred] the background builds,
      the worker's loop, the resumption after a restart and [create_or_open], with the
      deferred compaction.  [LocalWp] has the rules for programs with local state;
      [WriterTheorems] names, partition values and single writes, [WriterSafety] whole
      sessions, [JobTheorems] the workers, [WriterExamples] sessions that run.
    - Query engine ([ailake-query], [ailake-vec]): [Floats] has IEEE single precision,
      distances and the geometric pruner; [Ranking] the top-k routines and the
      brute-force scan; [Bloom] and [Bm25] the filters and statistics of text;
      [IndexLoader] the range-read loader; [Arrow] record batches and the schema
      filler; [Deletes] deletion by position and by value; [Search] vector, hybrid,
      text and multi-column search and sessions.  [DeletesTheorems] and
      [SearchTheorems] have the properties, [QueryExamples] a table on which they run.
    - Changes ([cdc.rs]): [Arrays] has Arrow arrays and batches built from them, [Cdc]
      the four passes of [read_changes] over two snapshots, the batch of changes and
      the pairing into updates; [CdcRows] and [CdcTheorems] the balance of a change
      batch, [CdcUpdates] the pairing, [CdcExamples] tables and changes.
    - Agents ([context_assembler.rs], [mem_table.rs], [memory_decay.rs]): [Context] has
      the assembly of a prompt's context, [MemTable] the write buffer and the working
      memory, [Decay] the job that rewrites recency weights; [ContextTheorems],
      [MemTableTheorems], [DecayDates] and [DecayTheorems] have the properties,
      [MemTableExamples] and [DecayExamples] runs of them on the frame library of
      [Frames] (tables of typed columns that are really stored in bytes and read back).
    - Jobs over whole tables ([migration.rs], [backfill.rs]): [Migration] has the
      re-embedding of a table under both strategies and the backfill of a new vector
      column, [MigrationTheorems] the rows of a table wherever they stop,
      [MigrationExamples] runs of them.

    Components meet at classes: a store is [Store] with [StoreLaws] (and
    [ReliableReads], [ReliableRanges] where a result depends on what a read returns), a
    catalog is [CatalogProvider], which [Deletes] and [Search] use and [HadoopCatalog]
    implements, and libraries outside the repository (Parquet, Arrow, Roaring bitmaps,
    serde, bincode, Avro reading, Redis) are classes with laws where a theorem needs
    them.  Each such class has an instance that meets its laws, with which the theorems
    are applied to concrete inputs.

    ** What is assumed of stores

    Where a theorem says that something happens however a run ends, the assumptions are
    these.  Reads return what is stored ([ReliableReads]; [ReliableRanges] for ranges,
    which [LocalStore] serves up to 256 MiB): a failed read is a real hazard, and the
    examples show what it does ([HadoopExamples.append_read_fault_drops_files]).  A write
    or a delete that fails leaves its object as it was ([StoreLaws]): true of object
    stores, not of [LocalStore], which writes in place.  Writes, deletes and lock
    requests may otherwise fail at any point.  Rows are counted as the deletion vectors
    leave them ([rows_left_by_dvs]); what becomes of equality deletes is stated apart,
    for a rewrite of files forgets them.

    ** What the theorems show

    - Files: every column of a written file is found and read back; the file is still
      the Parquet file of its batch, whose metadata gets the offset entries; readers of
      arbitrary bytes panic only on an IVF-PQ snapshot of dimension zero and on the
      full-text offset; the range-read loader agrees with the reader of the whole
      file where the offset is stored in the metadata.
    - Manifests and statistics files are read back as written.
    - Commits: a commit makes exactly its files visible; one that is not granted the
      lock or whose write fails returns an error and changes no listing; a committed
      snapshot lists the same files forever; row ids are disjoint and column ids stable.
    - Locks: at most one holder passes the fence check, and tokens increase, in every
      interleaving with faults and arbitrary clocks.
    - Cache: through any run the byte counter is exact and bounded, and without a Redis
      tier whole-object reads are those of a map.
    - Deletes and search, composed with the Hadoop catalog: rows deleted by value or by
      position are not returned by a strict search.  The ranking of a search equals
      sorting everything, however the work is split.  Pruning by Bloom filters never
      panics and has no false negatives, and the recorded radius covers the finite
      vectors given to a file's writer, which alone decide it.
    - Compaction: whichever write fails in a pass, the rows that deletion vectors leave
      stay the same up to order; repeated passes end; merged files keep the idempotency
      keys of their sources, but lose equality deletes and partition values.
    - Writing: a session of writes (indexed, or deferred to background jobs) and a commit
      adds exactly the rows of its batches or, where it fails, none; an idempotent write
      that is retried is there once; the declared schema numbers its columns without a
      clash; an index worker ends within three rounds, fewer when attempts are counted
      already; the bounds stored for a column cover its values in the order of its type,
      unsigned integers and decimals in bytes excepted.
    - Changes: the rows of the start with the reported inserts are those of the end with
      the reported deletes, without pairing and for steps the reader can tell apart;
      pairing keeps the rows when the pairs come in order.
    - Context, buffer, decay: an assembled context reads back as the documents it was
      made of, whatever text they contain; selection keeps the nearest and drops only
      near duplicates; a buffer's rows and its table's add up through every operation;
      decay changes nothing but the weights and forgets the equality deletes, and an ISO
      date is its number of days.
    - Migration and backfill: wherever they stop, the files already replaced hold the
      rows their deletion vectors left, with their new vectors, and the others what they
      held; equality deletes are forgotten.
    - The behaviours that contradict the intent of the code are theorems too: a dropped
      probe that wedges the breaker, stale reads from Redis and of cached ranges, files
      lost by an append whose read failed, a table reset by a failed read, reused
      column ids, equality deletes lost by [delete_rows], deletion vectors ignored by
      text search, deletes and missing columns of unexpected types, centroids of extra
      columns taken from the first, a lost payload whose job cannot be resumed, rows
      reported deleted twice, updates lost by pairing, a buffer lost to one bad vector,
      a context whose document is never closed, bounds of decimals and unsigned integers
      that are swapped, files lost at the cutover of a migration.

    ** Bounds and fuel

    Integers are [Z], wrapped or checked at the width of the source.  Recursion is
    structural or by [Equations], except for text replacement and splitting, where the
    fuel is the length of the text.  Bytes are integers from 0 to 255; [f32] values are
    their 32 bits.  Clocks, random owners, snapshot ids and thread-pool splits are
    arguments.  The loop of an index worker takes fuel; [MAX_ATTEMPTS] rounds are
    enough ([JobTheorems]).  Splitting into chunks takes the length of the list.  Concurrency is interleaving of requests where it matters (locks,
    breaker); the concurrent file searches of one query only read and are run in order.

    ** Not modelled

    Approximate search (HNSW, and IVF-PQ but for its serializer) and SIMD kernels,
    Parquet encoding, Tantivy, GPU
    code, the server-backed catalogs, cloud back ends, secrets, the command line, the
    HTTP server and the language bindings: they wrap libraries and services, or are
    numerical code whose quality is statistical.  [fetch_rows] and [search_batch] of the
    query engine, which runs several searches on the GPU, are not covered either. *)

From stdpp Require Export base gmap sets list list_numbers strings pretty sorting.
From Stdlib Require Export ZArith Lia.

Declare Scope ailake_scope.
Delimit Scope ailake_scope with ailake.
Open Scope Z_scope.

(* stdpp declares [List.length] with argument scopes; numbers written in
   statements about lengths of files are converted with [Zlen]. *)
Abbreviation Zlen l := (Z.of_nat (length l)).

(* ------------------------------------------------------------------ *)
(** ** Errors as values                                                *)
(* ------------------------------------------------------------------ *)

(** Rust's [Result<A, E>]. *)
Inductive result (E A : Type) : Type :=
| Ok (a : A)
| Err (e : E).
Arguments Ok {_ _} _.
Arguments Err {_ _} _.

#[global] Instance result_ret E : MRet (result E) := λ _ a, Ok a.
#[global] Instance result_bind E : MBind (result E) := λ _ _ k m,
  match m with Ok a => k a | Err e => Err e end.
#[global] Instance result_fmap E : FMap (result E) := λ _ _ f m,
  match m with Ok a => Ok (f a) | Err e => Err e end.

(** [Option::ok_or]. *)
Definition ok_or {E A} (o : option A) (e : E) : result E A :=
  match o with Some a => Ok a | None => Err e end.

(** [Result::is_ok], [Result::ok]. *)
Definition is_ok {E A} (r : result E A) : bool :=
  match r with Ok _ => true | Err _ => false end.
Definition to_option {E A} (r : result E A) : option A :=
  match r with Ok a => Some a | Err _ => None end.

(** The loop [for x in xs { acc = f(acc, x)?; }]. *)
Fixpoint try_fold {E A B} (f : A → B → result E A) (acc : A) (xs : list B)
    : result E A :=
  match xs with
  | [] => Ok acc
  | x :: xs => match f acc x with Ok acc' => try_fold f acc' xs | Err e => Err e end
  end.

(** [xs.iter().map(f).collect::<Result<Vec<_>, _>>()]. *)
Fixpoint try_map {E A B} (f : A → result E B) (xs : list A) : result E (list B) :=
  match xs with
  | [] => Ok []
  | x :: xs =>
      match f x with
      | Ok y => match try_map f xs with Ok ys => Ok (y :: ys) | Err e => Err e end
      | Err e => Err e
      end
  end.

(** A call that may also panic (slice out of range, [unwrap] of a failure). *)
Inductive outcome (E A : Type) : Type :=
| Ret (r : result E A)
| Panic.
Arguments Ret {_ _} _.
Arguments Panic {_ _}.

#[global] Instance outcome_ret E : MRet (outcome E) := λ _ a, Ret (Ok a).
#[global] Instance outcome_bind E : MBind (outcome E) := λ _ _ k m,
  match m with Ret (Ok a) => k a | Ret (Err e) => Ret (Err e) | Panic => Panic end.

(** An index expression: a panic when it is out of range. *)
Definition or_panic {E A} (o : option A) : outcome E A :=
  match o with Some a => Ret (Ok a) | None => Panic end.

Section ResultLemmas.
Context {E A B : Type}.

Lemma bind_Ok (m : result E A) (k : A → result E B) b :
  (m ≫= k) = Ok b ↔ ∃ a, m = Ok a ∧ k a = Ok b.
Proof. destruct m as [a|e]; cbn; naive_solver. Qed.

Lemma try_map_Ok (f : A → result E B) xs ys :
  try_map f xs = Ok ys ↔ Forall2 (λ x y, f x = Ok y) xs ys.
Proof.
  revert ys. induction xs as [|x xs IH]; intros ys; cbn.
  - split; [intros [=<-]; constructor | by inversion 1].
  - split.
    + destruct (f x) eqn:Ef; [|done]. destruct (try_map f xs) eqn:Et; [|done].
      intros [=<-]. constructor; [done|by apply IH].
    + inversion 1 as [|?? ? ys' Hx Hxs]; subst. rewrite Hx.
      apply IH in Hxs. by rewrite Hxs.
Qed.

Lemma try_map_length (f : A → result E B) xs ys :
  try_map f xs = Ok ys → length ys = length xs.
Proof. intros ?%try_map_Ok. symmetry. by eapply Forall2_length. Qed.
End ResultLemmas.

Lemma try_fold_app {E A B} (f : A → B → result E A) acc xs ys :
  try_fold f acc (xs ++ ys) =
  match try_fold f acc xs with Ok acc' => try_fold f acc' ys | Err e => Err e end.
Proof. revert acc. induction xs as [|x xs IH]; intros acc; cbn; [done|]. by destruct (f acc x). Qed.

(* ------------------------------------------------------------------ *)
(** ** Machine integers                                                *)
(* ------------------------------------------------------------------ *)

Definition U8_MAX : Z := 2 ^ 8 - 1.
Definition U32_MAX : Z := 2 ^ 32 - 1.
Definition U64_MAX : Z := 2 ^ 64 - 1.
Definition I64_MAX : Z := 2 ^ 63 - 1.

(** The value fits an unsigned integer of [w] bits. *)
Definition fits (w z : Z) : Prop := 0 ≤ z < 2 ^ w.
#[global] Instance fits_dec w z : Decision (fits w z).
Proof. unfold fits. apply _. Defined.

(** [x as uW]: keep the low [w] bits. *)
Definition wrap (w z : Z) : Z := z `mod` 2 ^ w.

(** [u64::checked_add] and friends for a [w]-bit [usize]. *)
Definition checked_add (w a b : Z) : option Z :=
  if decide (a + b < 2 ^ w) then Some (a + b) else None.
Definition checked_mul (w a b : Z) : option Z :=
  if decide (a * b < 2 ^ w) then Some (a * b) else None.
Definition checked_sub (a b : Z) : option Z :=
  if decide (b ≤ a) then Some (a - b) else None.
Definition saturating_sub (a b : Z) : Z := Z.max 0 (a - b).
Definition saturating_add (w a b : Z) : Z := Z.min (2 ^ w - 1) (a + b).

Lemma wrap_fits w z : 0 ≤ w → fits w (wrap w z).
Proof. intros. unfold fits, wrap. apply Z.mod_pos_bound. lia. Qed.

Lemma wrap_id w z : fits w z → wrap w z = z.
Proof. intros. unfold wrap. by apply Z.mod_small. Qed.

(* ------------------------------------------------------------------ *)
(** ** Bytes                                                           *)
(* ------------------------------------------------------------------ *)

(** A byte buffer is a list of integers below 256. *)
Abbreviation bytes := (list Z).
Definition bytes_ok (bs : bytes) : Prop := Forall (fits 8) bs.
#[global] Instance bytes_ok_dec bs : Decision (bytes_ok bs).
Proof. unfold bytes_ok. apply _. Defined.

(** [uN::to_le_bytes] for an integer of [n] bytes, and [uN::from_le_bytes]. *)
Definition to_le (n : nat) (z : Z) : bytes := Z_to_little_endian (Z.of_nat n) 8 z.
Definition from_le (bs : bytes) : Z := little_endian_to_Z 8 bs.

(** [&buf[a..b]] as the source indexes it: [None] stands for the panic of an
    out-of-range slice. *)
Definition slice {A} (buf : list A) (a b : Z) : option (list A) :=
  if decide (0 ≤ a ≤ b ∧ b ≤ Zlen buf)
  then Some (take (Z.to_nat (b - a)) (drop (Z.to_nat a) buf))
  else None.

Lemma to_le_length n z : length (to_le n z) = n.
Proof.
  apply Nat2Z.inj. unfold to_le. apply length_Z_to_little_endian. lia.
Qed.

Lemma to_le_ok n z : bytes_ok (to_le n z).
Proof. unfold bytes_ok, fits, to_le. apply Z_to_little_endian_bound; lia. Qed.

Lemma from_to_le n z : fits (8 * Z.of_nat n) z → from_le (to_le n z) = z.
Proof.
  intros Hz. unfold from_le, to_le.
  rewrite little_endian_to_Z_to_little_endian by lia.
  apply Z.mod_small. unfold fits in Hz. by rewrite Z.mul_comm.
Qed.

Lemma to_from_le n bs : length bs = n → bytes_ok bs → to_le n (from_le bs) = bs.
Proof. intros Hl Hb. apply Z_to_little_endian_to_Z; [lia|lia|done]. Qed.

Lemma from_le_fits bs : bytes_ok bs → fits (8 * Zlen bs) (from_le bs).
Proof.
  intros Hb. unfold fits, from_le. rewrite Z.mul_comm.
  apply little_endian_to_Z_bound; [lia|done].
Qed.

Lemma to_le_inj n a b :
  fits (8 * Z.of_nat n) a → fits (8 * Z.of_nat n) b → to_le n a = to_le n b → a = b.
Proof. intros Ha Hb Heq. by rewrite <- (from_to_le n a), <- (from_to_le n b), Heq. Qed.

Lemma bytes_ok_app a b : bytes_ok (a ++ b) ↔ bytes_ok a ∧ bytes_ok b.
Proof. apply Forall_app. Qed.

Create HintDb ailake.
Create HintDb lens.
#[export] Hint Resolve to_le_ok wrap_fits from_le_fits : ailake.
#[export] Hint Rewrite @length_app @to_le_length @length_take @length_drop
  @length_replicate : lens.

(** Solve a goal on list lengths: push [length] inwards, then arithmetic. *)
Ltac len := autorewrite with lens in *; cbn [length] in *; try lia.

(* ------------------------------------------------------------------ *)
(** ** Slices of concatenations                                        *)
(* ------------------------------------------------------------------ *)

Section Slices.
Context {A : Type}.
Implicit Types pre mid post buf : list A.

(** The slice that lies exactly on the middle block of a buffer. *)
Lemma slice_mid pre mid post a b :
  a = Zlen pre → b = Zlen pre + Zlen mid →
  slice (pre ++ mid ++ post) a b = Some mid.
Proof.
  intros -> ->. unfold slice. rewrite decide_True by (len).
  f_equal. rewrite Nat2Z.id, drop_app_length.
  replace (Z.to_nat _) with (length mid) by lia. apply take_app_length.
Qed.

Lemma slice_Some buf a b s :
  slice buf a b = Some s → 0 ≤ a ≤ b ∧ b ≤ Zlen buf ∧ Zlen s = b - a.
Proof. unfold slice. case_decide; [|done]. intros [=<-]. len. Qed.

Lemma slice_in_range buf a b :
  0 ≤ a ≤ b → b ≤ Zlen buf → is_Some (slice buf a b).
Proof. intros. unfold slice. rewrite decide_True by lia. eauto. Qed.

(** A slice of a block that sits inside a larger buffer. *)
Lemma slice_inner pre mid post a b s :
  slice mid a b = Some s →
  slice (pre ++ mid ++ post) (Zlen pre + a) (Zlen pre + b) = Some s.
Proof.
  intros Hs. pose proof (slice_Some _ _ _ _ Hs) as (H1 & H2 & H3).
  unfold slice in *. rewrite decide_True in Hs by lia. injection Hs as <-.
  rewrite decide_True by len. f_equal.
  replace (Z.to_nat (Zlen pre + b - (Zlen pre + a))) with (Z.to_nat (b - a)) by lia.
  replace (Z.to_nat (Zlen pre + a)) with (length pre + Z.to_nat a)%nat by lia.
  rewrite <- drop_drop, drop_app_length, drop_app_le by lia.
  by rewrite take_app_le by len.
Qed.
End Slices.

(* ------------------------------------------------------------------ *)
(** ** Strings                                                         *)
(* ------------------------------------------------------------------ *)

(** [s.as_bytes()]. *)
Fixpoint as_bytes (s : string) : bytes :=
  match s with
  | EmptyString => []
  | String c s => Z.of_N (Ascii.N_of_ascii c) :: as_bytes s
  end.

(** [str::from_utf8] restricted to the one-byte alphabet of [string]. *)
Fixpoint of_bytes (bs : bytes) : string :=
  match bs with
  | [] => EmptyString
  | b :: bs => String (Ascii.ascii_of_N (Z.to_N b)) (of_bytes bs)
  end.

Lemma of_as_bytes s : of_bytes (as_bytes s) = s.
Proof.
  induction s as [|c s IH]; cbn; [done|].
  by rewrite N2Z.id, Ascii.ascii_N_embedding, IH.
Qed.

Lemma as_bytes_inj s t : as_bytes s = as_bytes t → s = t.
Proof. intros H. by rewrite <- (of_as_bytes s), <- (of_as_bytes t), H. Qed.

Lemma as_bytes_length s : length (as_bytes s) = String.length s.
Proof. induction s; cbn; congruence. Qed.

Lemma as_bytes_app s t : as_bytes (s +:+ t) = as_bytes s ++ as_bytes t.
Proof. induction s as [|c s IH]; [done|]. simpl. f_equal. apply IH. Qed.

Lemma as_bytes_ok s : bytes_ok (as_bytes s).
Proof.
  induction s as [|c s IH]; cbn; constructor; [|done].
  unfold fits. pose proof (Ascii.N_ascii_bounded c). lia.
Qed.
#[export] Hint Resolve as_bytes_ok : ailake.

(** [str::starts_with], [str::ends_with], [str::contains] for string needles
    (case-sensitive, byte for byte), and [strip_prefix]. *)
Fixpoint strip_prefix (p s : string) : option string :=
  match p, s with
  | EmptyString, _ => Some s
  | String a p, String b s => if Ascii.eqb a b then strip_prefix p s else None
  | _, _ => None
  end.
Definition starts_with (p s : string) : bool := bool_decide (is_Some (strip_prefix p s)).
Fixpoint contains (p s : string) : bool :=
  starts_with p s || match s with EmptyString => false | String _ s => contains p s end.
Fixpoint ends_with (p s : string) : bool :=
  String.eqb p s || match s with EmptyString => false | String _ s => ends_with p s end.

Lemma strip_prefix_spec p s t : strip_prefix p s = Some t ↔ s = p +:+ t.
Proof.
  revert s. induction p as [|a p IH]; intros s; simpl.
  - split; [by intros [= ->]|by intros ->].
  - destruct s as [|b s]; [done|]. destruct (Ascii.eqb_spec a b) as [->|Hne].
    + rewrite IH. split; [by intros ->|by intros [= ->]].
    + split; [done|]. by intros [= -> ->].
Qed.

Lemma starts_with_spec p s : starts_with p s = true ↔ ∃ t, s = p +:+ t.
Proof.
  unfold starts_with. rewrite bool_decide_eq_true.
  unfold is_Some. by setoid_rewrite strip_prefix_spec.
Qed.

Lemma contains_spec p s : contains p s = true ↔ ∃ u v, s = u +:+ p +:+ v.
Proof.
  induction s as [|c s IH]; simpl; rewrite orb_true_iff, starts_with_spec.
  - split.
    + intros [[t Ht]|?]; [|done]. by exists "", t.
    + intros (u & v & H). left. exists v. by destruct u.
  - rewrite IH. split.
    + intros [[t Ht]|(u & v & ->)]; [by exists "", t|by exists (String c u), v].
    + intros (u & v & H). destruct u as [|c' u]; [left; by exists v|].
      right. exists u, v. by injection H.
Qed.

Lemma ends_with_spec p s : ends_with p s = true ↔ ∃ u, s = u +:+ p.
Proof.
  induction s as [|c s IH]; simpl; rewrite orb_true_iff, String.eqb_eq.
  - split; [intros [->|?]; [by exists ""|done]|].
    intros [[|c u] H]; [left; by symmetry|done].
  - rewrite IH. split.
    + intros [->|[u ->]]; [by exists ""|by exists (String c u)].
    + intros [[|c' u] H]; [left; by symmetry|]. right. exists u. by injection H.
Qed.

Lemma string_app_assoc (a b c : string) : (a +:+ b) +:+ c = a +:+ (b +:+ c).
Proof.
  induction a as [|x a IH]; [done|].
  change (String x ((a +:+ b) +:+ c) = String x (a +:+ (b +:+ c))). by rewrite IH.
Qed.

Lemma string_app_nil_r (a : string) : a +:+ "" = a.
Proof.
  induction a as [|x a IH]; [done|]. change (String x (a +:+ "") = String x a). by rewrite IH.
Qed.

(** Decimal rendering of a number, [format!("{}", n)]. *)
Definition to_string (z : Z) : string := pretty z.

(** The value of a decimal digit. *)
Definition digit_value (c : Ascii.ascii) : option Z :=
  let n := Z.of_N (Ascii.N_of_ascii c) in
  if decide (48 ≤ n ≤ 57) then Some (n - 48) else None.

(** Accumulate decimal digits, refusing anything above [max]. *)
Fixpoint digits_from (max acc : Z) (s : string) : option Z :=
  match s with
  | EmptyString => Some acc
  | String c s =>
      match digit_value c with
      | Some d =>
          if decide (acc * 10 + d ≤ max) then digits_from max (acc * 10 + d) s else None
      | None => None
      end
  end.

(** [str::parse] at an unsigned type with maximum [max]: one optional plus
    sign, at least one digit, digits only, no overflow. *)
Definition parse_unsigned (max : Z) (s : string) : option Z :=
  match s with
  | EmptyString => None
  | String c rest =>
      if decide (Ascii.N_of_ascii c = 43%N)
      then match rest with EmptyString => None | _ => digits_from max 0 rest end
      else digits_from max 0 s
  end.
Definition parse_u64 : string → option Z := parse_unsigned U64_MAX.
Definition parse_u32 : string → option Z := parse_unsigned U32_MAX.

Lemma pretty_N_char_value d :
  (d < 10)%N → digit_value (pretty_N_char d) = Some (Z.of_N d).
Proof.
  intros. assert (d = 0 ∨ d = 1 ∨ d = 2 ∨ d = 3 ∨ d = 4 ∨ d = 5 ∨ d = 6 ∨ d = 7 ∨
    d = 8 ∨ d = 9)%N as Hd by lia. destruct_or! Hd; subst; reflexivity.
Qed.

Lemma pretty_N_go_digits max n s :
  Z.of_N n ≤ max → digits_from max 0 (pretty_N_go n s) = digits_from max (Z.of_N n) s.
Proof.
  revert s. induction (N.lt_wf_0 n) as [n _ IH]; intros s Hn.
  destruct (decide (n = 0)%N) as [->|Hne]; [done|].
  rewrite pretty_N_go_step by lia.
  pose proof (N.div_mod n 10 ltac:(lia)). pose proof (N.mod_lt n 10 ltac:(lia)).
  rewrite IH; [|apply N.div_lt; lia|rewrite N2Z.inj_div; apply Z.div_le_upper_bound; lia].
  cbn [digits_from]. rewrite pretty_N_char_value by done.
  rewrite decide_True by lia. f_equal. lia.
Qed.

Lemma pretty_N_go_head n s :
  (∃ d s', (d < 10)%N ∧ s = String (pretty_N_char d) s') ∨ (0 < n)%N →
  ∃ d s', (d < 10)%N ∧ pretty_N_go n s = String (pretty_N_char d) s'.
Proof.
  revert s. induction (N.lt_wf_0 n) as [n _ IH]; intros s Hs.
  destruct (decide (n = 0)%N) as [->|Hne].
  - rewrite pretty_N_go_0. destruct Hs as [?|?]; [done|lia].
  - rewrite pretty_N_go_step by lia. apply IH; [apply N.div_lt; lia|].
    left. eexists _, _. split; [|reflexivity]. apply N.mod_lt. lia.
Qed.

(** Printing a number and parsing it gives it back. *)
Lemma parse_to_string max z : 0 ≤ z ≤ max → parse_unsigned max (to_string z) = Some z.
Proof.
  intros Hz. unfold to_string.
  assert (E : pretty z = pretty (Z.to_N z)) by (destruct z; [done|done|lia]).
  rewrite E. clear E. unfold pretty, pretty_N. case_decide as H0.
  { replace z with 0 by lia. unfold parse_unsigned. rewrite decide_False by done.
    cbn [digits_from]. change (digit_value _) with (Some 0). cbv beta iota.
    rewrite decide_True by lia. done. }
  destruct (pretty_N_go_head (Z.to_N z) "" ltac:(right; lia)) as (d & s' & Hd & E).
  assert (Hp : Ascii.N_of_ascii (pretty_N_char d) ≠ 43%N).
  { pose proof (pretty_N_char_value d Hd) as Hv. unfold digit_value in Hv.
    intros Heq. rewrite Heq in Hv. by vm_compute in Hv. }
  pose proof (pretty_N_go_digits max (Z.to_N z) "" ltac:(lia)) as Hg.
  rewrite E in Hg |- *. unfold parse_unsigned. rewrite decide_False by done.
  rewrite Hg. cbn. f_equal. lia.
Qed.

Lemma parse_u64_to_string z : fits 64 z → parse_u64 (to_string z) = Some z.
Proof. intros [??]. apply parse_to_string. unfold U64_MAX. lia. Qed.

(* ------------------------------------------------------------------ *)
(** ** Lists                                                           *)
(* ------------------------------------------------------------------ *)

(** The sum of a projection. *)
Fixpoint sum_by {A} (f : A → Z) (l : list A) : Z :=
  match l with [] => 0 | a :: l => f a + sum_by f l end.

Lemma sum_by_app {A} (f : A → Z) l k : sum_by f (l ++ k) = sum_by f l + sum_by f k.
Proof. induction l as [|a l IH]; cbn; [done|]. rewrite IH. lia. Qed.

Lemma sum_by_nonneg {A} (f : A → Z) l : (∀ a, a ∈ l → 0 ≤ f a) → 0 ≤ sum_by f l.
Proof.
  induction l as [|a l IH]; cbn; intros H; [done|].
  pose proof (H a ltac:(set_solver)). pose proof (IH ltac:(set_solver)). lia.
Qed.

Lemma sum_by_Permutation {A} (f : A → Z) l k : l ≡ₚ k → sum_by f l = sum_by f k.
Proof. induction 1; cbn; lia. Qed.

Lemma mjoin_cons {A} (l : list A) (ls : list (list A)) : mjoin (l :: ls) = l ++ mjoin ls.
Proof. done. Qed.

(** The length of a concatenation of buffers. *)
Lemma length_concat_sum {A} (ls : list (list A)) :
  Zlen (mjoin ls) = sum_by (λ l, Zlen l) ls.
Proof.
  induction ls as [|l ls IH]; [done|].
  rewrite mjoin_cons. cbn [sum_by]. len.
Qed.

(* ------------------------------------------------------------------ *)
(** ** Filters that keep nothing or everything                         *)
(* ------------------------------------------------------------------ *)

Lemma filter_none {A} (P : A → Prop) `{∀ x, Decision (P x)} (l : list A) : (∀ x, x ∈ l → ¬ P x) → filter P l = [].
Proof.
  induction l as [|x l IH]; intros Hl; [done|]. rewrite filter_cons, decide_False by (apply Hl; by left).
  apply IH. intros y Hy. apply Hl. by right.
Qed.

Lemma filter_all {A} (P : A → Prop) `{∀ x, Decision (P x)} (l : list A) : (∀ x, x ∈ l → P x) → filter P l = l.
Proof.
  induction l as [|x l IH]; intros Hl; [done|]. rewrite filter_cons, decide_True by (apply Hl; by left).
  f_equal. apply IH. intros y Hy. apply Hl. by right.
Qed.
