(* ===== verification/Core.v ===== *)
(** * The shared vocabulary of the crates

    Models [ailake-core/src/types.rs], [ailake-core/src/error.rs] and
    [ailake-core/src/filter.rs]: vector precisions and metrics, centroids, the
    error enum that every fallible operation returns, and the embedding-model
    property string.  A [f32] is kept as its 32-bit pattern, which is what the
    file format stores; error payloads that are human-readable text are
    dropped, error payloads that carry data are kept. *)

From S2P Require Import Prelude.

(* ------------------------------------------------------------------ *)
(** ** Errors                                                          *)
(* ------------------------------------------------------------------ *)

Inductive AilakeError : Type :=
| UnsupportedFormatVersion (v : Z)
| InvalidAilakeMagic (b : bytes)
| InvalidParquetMagic (b : bytes)
| RowCountMismatch (parquet hnsw : Z)
| DimensionMismatch (expected actual : Z)
| ModelMismatch (table_model : string) (table_dim : Z) (batch_model : string) (batch_dim : Z)
| InvalidCentroidLength (expected_dim actual : Z)
| NotAnAilakeFile
| InvalidArgument
| CatalogError
| StoreError
| IoError
| ParquetError
| BincodeError
| ArrowError
| JsonError
| FtsError.

Abbreviation AilakeResult := (result AilakeError).

(* ------------------------------------------------------------------ *)
(** ** Precisions, metrics, centroids                                  *)
(* ------------------------------------------------------------------ *)

Inductive VectorPrecision : Type := F32 | F16 | I8.
Inductive VectorMetric : Type := Cosine | Euclidean | DotProduct | NormalizedCosine.

#[global] Instance VectorPrecision_eq_dec : EqDecision VectorPrecision.
Proof. solve_decision. Defined.
#[global] Instance VectorMetric_eq_dec : EqDecision VectorMetric.
Proof. solve_decision. Defined.

Definition bytes_per_element (p : VectorPrecision) : Z :=
  match p with F32 => 4 | F16 => 2 | I8 => 1 end.

(** A [f32] as stored: its bit pattern. *)
Abbreviation f32bits := Z (only parsing).

Record Centroid : Type := mk_Centroid {
  centroid_values : list f32bits;
  centroid_radius : f32bits;
  centroid_metric : VectorMetric;
}.

Inductive VectorModality : Type := Text | Image | Audio | Video.

Definition modality_as_str (m : VectorModality) : string :=
  match m with
  | Text => "text" | Image => "image" | Audio => "audio" | Video => "video"
  end.

Definition modality_from_str (s : string) : option VectorModality :=
  if String.eqb s "text" then Some Text
  else if String.eqb s "image" then Some Image
  else if String.eqb s "audio" then Some Audio
  else if String.eqb s "video" then Some Video
  else None.

(* ------------------------------------------------------------------ *)
(** ** The embedding-model property string                             *)
(* ------------------------------------------------------------------ *)

Record EmbeddingModelInfo : Type := mk_EmbeddingModelInfo {
  model_name : string;
  model_version : option string;
  model_dim : option Z;
  model_metric : option VectorMetric;
}.

(** Product-quantization settings and partition columns ([ailake-core/src/schema.rs]). *)
Record PQConfig : Type := mk_pq {
  num_subvectors : Z;
  bits_per_code : Z;
  train_sample_size : Z;
}.

Record PartitionDef : Type := mk_pdef {
  pd_column : string;
  pd_transform : string;
  pd_column_type : string;
}.

Record VectorStoragePolicy : Type := mk_policy {
  column_name : string;
  policy_dim : Z;
  policy_metric : VectorMetric;
  policy_precision : VectorPrecision;
  pq : option PQConfig;
  keep_raw_for_reranking : bool;
  pre_normalize : bool;
  hnsw_m : option Z;
  hnsw_ef_construction : option Z;
  ivf_residual : bool;
  embedding_model : option EmbeddingModelInfo;
  modality : option VectorModality;
  partition_by : option string;
  partition_value : option string;
  partition_column_type : option string;
  partition_fields : list PartitionDef;
}.

(** [str::split_once] at a character: the text before its first occurrence and
    the text after it. *)
Fixpoint split_once (c : Ascii.ascii) (s : string) : option (string * string) :=
  match s with
  | EmptyString => None
  | String a s =>
      if Ascii.eqb a c then Some (EmptyString, s)
      else match split_once c s with
           | Some (l, r) => Some (String a l, r)
           | None => None
           end
  end.

(** The separator, ['@']. *)
Definition at_sign : Ascii.ascii :=
  Ascii.Ascii false false false false false false true false.

Definition to_property_value (m : EmbeddingModelInfo) : string :=
  match model_version m with
  | Some v => model_name m +:+ "@" +:+ v
  | None => model_name m
  end.

Definition from_property_value (s : string) : EmbeddingModelInfo :=
  match split_once at_sign s with
  | Some (name, version) => mk_EmbeddingModelInfo name (Some version) None None
  | None => mk_EmbeddingModelInfo s None None None
  end.

(** The separator does not occur in the string. *)
Fixpoint no_char (c : Ascii.ascii) (s : string) : bool :=
  match s with
  | EmptyString => true
  | String a s => negb (Ascii.eqb a c) && no_char c s
  end.

Lemma split_once_app c l r :
  no_char c l = true → split_once c (l +:+ String c r) = Some (l, r).
Proof.
  induction l as [|a l IH]; simpl; intros H.
  - by rewrite Ascii.eqb_refl.
  - apply andb_true_iff in H as [Ha Hl]. destruct (Ascii.eqb a c); [done|].
    by rewrite IH.
Qed.

Lemma no_char_app c s t : no_char c (s +:+ t) = no_char c s && no_char c t.
Proof.
  induction s as [|a s IH]; [done|]. change (String a s +:+ t) with (String a (s +:+ t)).
  cbn [no_char]. by rewrite IH, andb_assoc.
Qed.

Lemma split_once_None c s : split_once c s = None ↔ no_char c s = true.
Proof.
  induction s as [|a s IH]; simpl; [done|].
  destruct (Ascii.eqb a c); simpl; [done|]. rewrite <- IH.
  destruct (split_once c s) as [[??]|]; naive_solver.
Qed.

Lemma split_once_Some c s l r :
  split_once c s = Some (l, r) → s = l +:+ String c r ∧ no_char c l = true.
Proof.
  revert l. induction s as [|a s IH]; simpl; intros l; [done|].
  destruct (Ascii.eqb_spec a c) as [->|Hne].
  - intros [=<- <-]. done.
  - destruct (split_once c s) as [[l' r']|]; [|done].
    intros [=<- <-]. destruct (IH l' eq_refl) as [-> Hn]. simpl.
    split; [done|]. apply Ascii.eqb_neq in Hne. by rewrite Hne.
Qed.

(** Decimal text holds digits and a sign only. *)
Lemma pretty_N_go_no_char c n s :
  digit_value c = None → no_char c s = true → no_char c (pretty_N_go n s) = true.
Proof.
  intros Hc. revert s. induction (N.lt_wf_0 n) as [n _ IH]; intros s Hs.
  destruct (decide (n = 0)%N) as [->|Hne]; [by rewrite pretty_N_go_0|].
  rewrite pretty_N_go_step by lia. apply IH; [apply N.div_lt; lia|].
  cbn [no_char]. rewrite Hs. destruct (Ascii.eqb_spec (pretty_N_char (n `mod` 10)) c) as [<-|]; [|done].
  rewrite pretty_N_char_value in Hc by (apply N.mod_lt; lia). done.
Qed.

Lemma to_string_no_char c z :
  digit_value c = None → Ascii.N_of_ascii c ≠ 45%N → no_char c (to_string z) = true.
Proof.
  intros Hc Hm. unfold to_string.
  assert (HN : ∀ n : N, no_char c (pretty n) = true).
  { intros n. unfold pretty, pretty_N. case_decide as H0; [|by apply pretty_N_go_no_char].
    change (no_char c (String (Ascii.Ascii false false false false true true false false) "") = true).
    cbn [no_char]. match goal with |- context [Ascii.eqb ?a c] => destruct (Ascii.eqb_spec a c) as [<-|] end;
      [by vm_compute in Hc|done]. }
  destruct z as [|p|p]; [apply (HN 0%N)|apply (HN (N.pos p))|].
  change (no_char c (String (Ascii.Ascii true false true true false true false false)
            (pretty (N.pos p))) = true).
  cbn [no_char]. rewrite HN.
  match goal with |- context [Ascii.eqb ?a c] => destruct (Ascii.eqb_spec a c) as [<-|] end;
    [by destruct Hm|done].
Qed.

(** Writing a model identity and parsing it back restores its name and
    version exactly when the name is free of the separator. *)
Lemma property_value_roundtrip m :
  no_char at_sign (model_name m) = true →
  from_property_value (to_property_value m) =
    mk_EmbeddingModelInfo (model_name m) (model_version m) None None.
Proof.
  intros Hn. unfold from_property_value, to_property_value.
  destruct (model_version m) as [v|].
  - change ("@" +:+ v) with (String at_sign v). by rewrite split_once_app.
  - apply split_once_None in Hn. by rewrite Hn.
Qed.

(** Parsing never loses text: printing a parsed property gives it back. *)
Lemma property_value_parse_print s : to_property_value (from_property_value s) = s.
Proof.
  unfold from_property_value. destruct (split_once at_sign s) as [[l r]|] eqn:E; [|done].
  by apply split_once_Some in E as [-> _].
Qed.

Lemma modality_roundtrip m : modality_from_str (modality_as_str m) = Some m.
Proof. by destruct m. Qed.
