(* ===== verification/Footer.v ===== *)
(** * The binary footer structures

    Models [ailake-file/src/footer.rs]: the 64-byte AILK section header, the
    24-byte trailer, and the function that finds where the Parquet footer
    starts.  Both structures are written by copying little-endian fields into
    a zeroed array, as the source does. *)

From S2P Require Import Prelude Core.

(** ["AILK"], ["PAR1"] and ["AFTS"]. *)
Definition AILAKE_MAGIC : bytes := [65; 73; 76; 75].
Definition PARQUET_MAGIC : bytes := [80; 65; 82; 49].
Definition AILK_FTS_MAGIC : bytes := [65; 70; 84; 83].
Definition AILAKE_FORMAT_VERSION : Z := 1.
Definition TRAILER_SIZE : Z := 24.
Definition HEADER_SIZE : Z := 64.
Definition FLAG_INDEX_IVF_PQ : Z := 1.
Definition AILK_FTS_HEADER_SIZE : Z := 16.

(** [b[off..off+src.len()].copy_from_slice(src)] on an array. *)
Definition copy_at (off : nat) (src b : bytes) : bytes :=
  take off b ++ src ++ drop (off + length src) b.

(** [b[i]] on an array whose length is known. *)
Definition at_ (b : bytes) (i : nat) : Z := nth i b 0.

(** The discriminants of the two [repr(u8)] enums and their [TryFrom<u8>]. *)
Definition precision_as_u8 (p : VectorPrecision) : Z :=
  match p with F32 => 0 | F16 => 1 | I8 => 2 end.
Definition metric_as_u8 (m : VectorMetric) : Z :=
  match m with Cosine => 0 | Euclidean => 1 | DotProduct => 2 | NormalizedCosine => 3 end.
Definition precision_try_from (v : Z) : AilakeResult VectorPrecision :=
  match v with 0 => Ok F32 | 1 => Ok F16 | 2 => Ok I8 | _ => Err InvalidArgument end.
Definition metric_try_from (v : Z) : AilakeResult VectorMetric :=
  match v with
  | 0 => Ok Cosine | 1 => Ok Euclidean | 2 => Ok DotProduct | 3 => Ok NormalizedCosine
  | _ => Err InvalidArgument
  end.

Module Header.

Record AilakeHeader : Type := mk {
  format_version : Z;   (* u16 *)
  flags : Z;            (* u16 *)
  dim : Z;              (* u32 *)
  precision : VectorPrecision;
  distance_metric : VectorMetric;
  record_count : Z;     (* u64, as every field below *)
  centroid_offset : Z;
  centroid_len : Z;
  hnsw_offset : Z;
  hnsw_len : Z;
}.

(** Every field fits its machine type. *)
Definition wf (h : AilakeHeader) : Prop :=
  fits 16 (format_version h) ∧ fits 16 (flags h) ∧ fits 32 (dim h) ∧
  fits 64 (record_count h) ∧ fits 64 (centroid_offset h) ∧ fits 64 (centroid_len h) ∧
  fits 64 (hnsw_offset h) ∧ fits 64 (hnsw_len h).
#[global] Instance wf_dec h : Decision (wf h).
Proof. unfold wf. apply _. Defined.

Definition to_bytes (h : AilakeHeader) : bytes :=
  let b := replicate 64 0 in
  let b := copy_at 0 AILAKE_MAGIC b in
  let b := copy_at 4 (to_le 2 (format_version h)) b in
  let b := copy_at 6 (to_le 2 (flags h)) b in
  let b := copy_at 8 (to_le 4 (dim h)) b in
  let b := copy_at 12 [precision_as_u8 (precision h)] b in
  let b := copy_at 13 [metric_as_u8 (distance_metric h)] b in
  let b := copy_at 16 (to_le 8 (record_count h)) b in
  let b := copy_at 24 (to_le 8 (centroid_offset h)) b in
  let b := copy_at 32 (to_le 8 (centroid_len h)) b in
  let b := copy_at 40 (to_le 8 (hnsw_offset h)) b in
  copy_at 48 (to_le 8 (hnsw_len h)) b.

Definition u64_at (b : bytes) (i : nat) : Z :=
  from_le [at_ b i; at_ b (i + 1); at_ b (i + 2); at_ b (i + 3);
           at_ b (i + 4); at_ b (i + 5); at_ b (i + 6); at_ b (i + 7)].

Definition from_bytes (b : bytes) : AilakeResult AilakeHeader :=
  if negb (bool_decide (take 4 b = AILAKE_MAGIC)) then
    Err (InvalidAilakeMagic [at_ b 0; at_ b 1; at_ b 2; at_ b 3])
  else
    let format_version := from_le [at_ b 4; at_ b 5] in
    if negb (format_version =? AILAKE_FORMAT_VERSION) then
      Err (UnsupportedFormatVersion format_version)
    else
      precision ← precision_try_from (at_ b 12);
      distance_metric ← metric_try_from (at_ b 13);
      Ok {| format_version := format_version;
            flags := from_le [at_ b 6; at_ b 7];
            dim := from_le [at_ b 8; at_ b 9; at_ b 10; at_ b 11];
            precision := precision;
            distance_metric := distance_metric;
            record_count := u64_at b 16;
            centroid_offset := u64_at b 24;
            centroid_len := u64_at b 32;
            hnsw_offset := u64_at b 40;
            hnsw_len := u64_at b 48 |}.

End Header.

Module Trailer.

Record AilakeTrailer : Type := mk {
  footer_offset : Z;
  footer_len : Z;
  format_version : Z;
  flags : Z;
}.

Definition wf (t : AilakeTrailer) : Prop :=
  fits 64 (footer_offset t) ∧ fits 64 (footer_len t) ∧
  fits 16 (format_version t) ∧ fits 16 (flags t).
#[global] Instance wf_dec t : Decision (wf t).
Proof. unfold wf. apply _. Defined.

Definition to_bytes (t : AilakeTrailer) : bytes :=
  let b := replicate 24 0 in
  let b := copy_at 0 (to_le 8 (footer_offset t)) b in
  let b := copy_at 8 (to_le 8 (footer_len t)) b in
  let b := copy_at 16 (to_le 2 (format_version t)) b in
  let b := copy_at 18 (to_le 2 (flags t)) b in
  copy_at 20 AILAKE_MAGIC b.

Definition from_bytes (b : bytes) : AilakeResult AilakeTrailer :=
  if negb (bool_decide (drop 20 b = AILAKE_MAGIC)) then
    Err (InvalidAilakeMagic [at_ b 20; at_ b 21; at_ b 22; at_ b 23])
  else
    Ok {| footer_offset := Header.u64_at b 0;
          footer_len := Header.u64_at b 8;
          format_version := from_le [at_ b 16; at_ b 17];
          flags := from_le [at_ b 18; at_ b 19] |}.

End Trailer.

(** Where the Parquet footer thrift starts:
    [...footer_thrift...][footer_len: u32 LE][PAR1]. *)
Definition parquet_footer_start (buf : bytes) : AilakeResult Z :=
  let len := Zlen buf in
  if decide (len < 8) then Err ParquetError
  else if negb (bool_decide (drop (Z.to_nat (len - 4)) buf = PARQUET_MAGIC)) then Err ParquetError
  else
    let footer_thrift_len :=
      from_le (take 4 (drop (Z.to_nat (len - 8)) buf)) in
    match checked_sub len (8 + footer_thrift_len) with
    | Some start => Ok start
    | None => Err ParquetError
    end.

(* ------------------------------------------------------------------ *)
(** ** Round trips                                                     *)
(* ------------------------------------------------------------------ *)

(** Name the bytes of every little-endian field, so that array writes and
    reads compute. *)
Lemma list_destruct_2 (l : bytes) : length l = 2%nat → ∃ a b, l = [a; b].
Proof. destruct l as [|? [|? [|??]]]; try done. eauto. Qed.
Lemma list_destruct_4 (l : bytes) : length l = 4%nat → ∃ a b c d, l = [a; b; c; d].
Proof. destruct l as [|?[|?[|?[|?[|??]]]]]; try done. eauto 10. Qed.
Lemma list_destruct_8 (l : bytes) :
  length l = 8%nat → ∃ a b c d e f g h, l = [a; b; c; d; e; f; g; h].
Proof. destruct l as [|?[|?[|?[|?[|?[|?[|?[|?[|??]]]]]]]]]; try done. eauto 12. Qed.

Ltac name_le_bytes :=
  repeat match goal with
  | |- context [to_le 2 ?z] =>
      let H := fresh "Hle" in
      destruct (list_destruct_2 (to_le 2 z) (to_le_length 2 z)) as (?&?&H); rewrite H
  | |- context [to_le 4 ?z] =>
      let H := fresh "Hle" in
      destruct (list_destruct_4 (to_le 4 z) (to_le_length 4 z)) as (?&?&?&?&H); rewrite H
  | |- context [to_le 8 ?z] =>
      let H := fresh "Hle" in
      destruct (list_destruct_8 (to_le 8 z) (to_le_length 8 z))
        as (?&?&?&?&?&?&?&?&H); rewrite H
  end.

Lemma precision_roundtrip p : precision_try_from (precision_as_u8 p) = Ok p.
Proof. by destruct p. Qed.
Lemma metric_roundtrip m : metric_try_from (metric_as_u8 m) = Ok m.
Proof. by destruct m. Qed.

Lemma precision_try_from_Ok v p : precision_try_from v = Ok p → v = precision_as_u8 p.
Proof. unfold precision_try_from. repeat case_match; by intros [=<-]. Qed.
Lemma metric_try_from_Ok v m : metric_try_from v = Ok m → v = metric_as_u8 m.
Proof. unfold metric_try_from. repeat case_match; by intros [=<-]. Qed.

Lemma header_length h : Zlen (Header.to_bytes h) = HEADER_SIZE.
Proof. unfold Header.to_bytes, copy_at. name_le_bytes. reflexivity. Qed.
Lemma trailer_length t : Zlen (Trailer.to_bytes t) = TRAILER_SIZE.
Proof. unfold Trailer.to_bytes, copy_at. name_le_bytes. reflexivity. Qed.

(** The header's bytes as one concatenation of fields. *)
Definition header_layout (h : Header.AilakeHeader) : bytes :=
  AILAKE_MAGIC ++ to_le 2 (Header.format_version h) ++ to_le 2 (Header.flags h) ++
  to_le 4 (Header.dim h) ++ [precision_as_u8 (Header.precision h)] ++
  [metric_as_u8 (Header.distance_metric h)] ++ [0; 0] ++
  to_le 8 (Header.record_count h) ++ to_le 8 (Header.centroid_offset h) ++
  to_le 8 (Header.centroid_len h) ++ to_le 8 (Header.hnsw_offset h) ++
  to_le 8 (Header.hnsw_len h) ++ replicate 8 0.

Lemma header_to_bytes_layout h : Header.to_bytes h = header_layout h.
Proof. unfold Header.to_bytes, header_layout, copy_at. name_le_bytes. reflexivity. Qed.

Lemma header_from_layout h :
  Header.wf h →
  Header.from_bytes (header_layout h) =
    if Header.format_version h =? AILAKE_FORMAT_VERSION then Ok h
    else Err (UnsupportedFormatVersion (Header.format_version h)).
Proof.
  intros (Hv & Hf & Hd & Hr & Hco & Hcl & Hho & Hhl).
  pose proof (from_to_le 2 _ Hv) as Ev. pose proof (from_to_le 2 _ Hf) as Ef.
  pose proof (from_to_le 4 _ Hd) as Ed. pose proof (from_to_le 8 _ Hr) as Er.
  pose proof (from_to_le 8 _ Hco) as Eco. pose proof (from_to_le 8 _ Hcl) as Ecl.
  pose proof (from_to_le 8 _ Hho) as Eho. pose proof (from_to_le 8 _ Hhl) as Ehl.
  revert Ev Ef Ed Er Eco Ecl Eho Ehl.
  unfold header_layout. name_le_bytes. intros Ev Ef Ed Er Eco Ecl Eho Ehl.
  unfold Header.from_bytes, Header.u64_at, at_, AILAKE_MAGIC. cbn [app take nth Nat.add replicate].
  rewrite bool_decide_eq_true_2 by reflexivity. cbn [negb].
  rewrite Ev, Ef, Ed, Er, Eco, Ecl, Eho, Ehl.
  rewrite precision_roundtrip, metric_roundtrip.
  destruct (_ =? _) eqn:E; cbn; [|done]. by destruct h.
Qed.

(** Every well-formed header is read back as written; a header of another
    format version is refused with that version. *)
Lemma header_bytes_roundtrip h :
  Header.wf h →
  Header.from_bytes (Header.to_bytes h) =
    if Header.format_version h =? AILAKE_FORMAT_VERSION then Ok h
    else Err (UnsupportedFormatVersion (Header.format_version h)).
Proof. rewrite header_to_bytes_layout. apply header_from_layout. Qed.

Lemma trailer_bytes_roundtrip t :
  Trailer.wf t → Trailer.from_bytes (Trailer.to_bytes t) = Ok t.
Proof.
  intros (Ho & Hl & Hv & Hf).
  pose proof (from_to_le 8 _ Ho) as Eo. pose proof (from_to_le 8 _ Hl) as El.
  pose proof (from_to_le 2 _ Hv) as Ev. pose proof (from_to_le 2 _ Hf) as Ef.
  revert Eo El Ev Ef. unfold Trailer.to_bytes, copy_at. name_le_bytes. intros Eo El Ev Ef.
  unfold Trailer.from_bytes, Header.u64_at, at_, AILAKE_MAGIC.
  cbn [app take drop nth Nat.add replicate length].
  rewrite bool_decide_eq_true_2 by reflexivity. cbn [negb].
  rewrite Eo, El, Ev, Ef. by destruct t.
Qed.

(** Naming the 64 bytes of an array. *)
Lemma header_bytes_destruct (b : bytes) :
  Zlen b = HEADER_SIZE →
  ∃ m v f d p dm r1 n co cl ho hl r2,
    b = m ++ v ++ f ++ d ++ [p] ++ [dm] ++ r1 ++ n ++ co ++ cl ++ ho ++ hl ++ r2 ∧
    length m = 4%nat ∧ length v = 2%nat ∧ length f = 2%nat ∧ length d = 4%nat ∧
    length r1 = 2%nat ∧ length n = 8%nat ∧ length co = 8%nat ∧ length cl = 8%nat ∧
    length ho = 8%nat ∧ length hl = 8%nat ∧ length r2 = 8%nat.
Proof.
  unfold HEADER_SIZE. intros Hl.
  exists (take 4 b), (take 2 (drop 4 b)), (take 2 (drop 6 b)), (take 4 (drop 8 b)),
    (nth 12 b 0), (nth 13 b 0), (take 2 (drop 14 b)), (take 8 (drop 16 b)),
    (take 8 (drop 24 b)), (take 8 (drop 32 b)), (take 8 (drop 40 b)), (take 8 (drop 48 b)),
    (drop 56 b).
  split; [|repeat split; rewrite ?length_take, ?length_drop; lia].
  do 64 (destruct b as [|? b]; [cbn in Hl; lia|]). destruct b; [reflexivity|cbn in Hl; lia].
Qed.

(** Whatever the reader accepts is a well-formed header of the supported
    version, and printing it gives back the bytes it came from whenever the
    ten reserved bytes are zero: no accepted byte is misread. *)
Lemma header_from_bytes_canonical b h :
  Zlen b = HEADER_SIZE → bytes_ok b → Header.from_bytes b = Ok h →
  Header.wf h ∧ Header.format_version h = AILAKE_FORMAT_VERSION ∧
  (take 2 (drop 14 b) = [0; 0] → drop 56 b = replicate 8 0 → Header.to_bytes h = b).
Proof.
  intros Hl Hb Hok.
  destruct (header_bytes_destruct b Hl) as
    (m&v&f&d&p&dm&r1&n&co&cl&ho&hl&r2&->&Lm&Lv&Lf&Ld&Lr1&Ln&Lco&Lcl&Lho&Lhl&Lr2).
  destruct (list_destruct_4 m Lm) as (?&?&?&?&->).
  destruct (list_destruct_2 v Lv) as (?&?&->). destruct (list_destruct_2 f Lf) as (?&?&->).
  destruct (list_destruct_4 d Ld) as (?&?&?&?&->). destruct (list_destruct_2 r1 Lr1) as (?&?&->).
  destruct (list_destruct_8 n Ln) as (?&?&?&?&?&?&?&?&->).
  destruct (list_destruct_8 co Lco) as (?&?&?&?&?&?&?&?&->).
  destruct (list_destruct_8 cl Lcl) as (?&?&?&?&?&?&?&?&->).
  destruct (list_destruct_8 ho Lho) as (?&?&?&?&?&?&?&?&->).
  destruct (list_destruct_8 hl Lhl) as (?&?&?&?&?&?&?&?&->).
  destruct (list_destruct_8 r2 Lr2) as (?&?&?&?&?&?&?&?&->).
  clear Hl Lm Lv Lf Ld Lr1 Ln Lco Lcl Lho Lhl Lr2.
  rewrite !bytes_ok_app in Hb.
  destruct Hb as (Bm&Bv&Bf&Bd&Bp&Bdm&Br1&Bn&Bco&Bcl&Bho&Bhl&Br2).
  unfold Header.from_bytes, Header.u64_at, at_ in Hok. cbn [app take nth Nat.add] in Hok.
  destruct (bool_decide _) eqn:Em; [|done]. apply bool_decide_eq_true in Em. cbn [negb] in Hok.
  destruct (_ =? _) eqn:Ev; [|done]. apply Z.eqb_eq in Ev. cbn [negb] in Hok.
  apply bind_Ok in Hok as (p' & Hp & Hok). apply bind_Ok in Hok as (dm' & Hdm & Hok).
  apply precision_try_from_Ok in Hp as ->. apply metric_try_from_Ok in Hdm as ->.
  injection Hok as <-. split; [|split].
  - unfold Header.wf. split_and!;
      [apply (from_le_fits _ Bv)|apply (from_le_fits _ Bf)|apply (from_le_fits _ Bd)
      |apply (from_le_fits _ Bn)|apply (from_le_fits _ Bco)|apply (from_le_fits _ Bcl)
      |apply (from_le_fits _ Bho)|apply (from_le_fits _ Bhl)].
  - done.
  - intros R1 R2. rewrite header_to_bytes_layout. unfold header_layout.
    cbn -[to_le from_le AILAKE_MAGIC]. rewrite <- Em, !to_from_le by done.
    cbn in R1, R2. simplify_list_eq. reflexivity.
Qed.

(** Reading the footer start of a Parquet tail. *)
Lemma parquet_footer_start_tail pre thrift :
  fits 32 (Zlen thrift) →
  parquet_footer_start (pre ++ thrift ++ to_le 4 (Zlen thrift) ++ PARQUET_MAGIC)
  = Ok (Zlen pre).
Proof.
  intros Ht. unfold parquet_footer_start.
  set (buf := pre ++ _).
  assert (Hb : Zlen buf = Zlen pre + Zlen thrift + 8)
    by (subst buf; unfold PARQUET_MAGIC; len).
  rewrite decide_False by lia.
  assert (E1 : drop (Z.to_nat (Zlen buf - 4)) buf = PARQUET_MAGIC).
  { subst buf. rewrite !app_assoc.
    apply drop_app_length'. rewrite <- !app_assoc, !length_app, to_le_length. cbn.
    rewrite !length_app, to_le_length in Hb. cbn in Hb. lia. }
  assert (E2 : take 4 (drop (Z.to_nat (Zlen buf - 8)) buf) = to_le 4 (Zlen thrift)).
  { subst buf. rewrite app_assoc.
    rewrite drop_app_length'.
    - apply take_app_length'. by rewrite to_le_length.
    - rewrite <- !app_assoc, !length_app, to_le_length. cbn. lia. }
  rewrite E1, bool_decide_eq_true_2 by done. cbn [negb].
  rewrite E2, from_to_le by done. unfold checked_sub.
  rewrite decide_True by lia. f_equal. lia.
Qed.

(** A successful answer always leaves room for the eight tail bytes, so the
    slice bounds the writer and the reader take from it are in range. *)
Lemma parquet_footer_start_bound buf start :
  bytes_ok buf → parquet_footer_start buf = Ok start →
  0 ≤ start ∧ start + 8 ≤ Zlen buf.
Proof.
  intros Hb. unfold parquet_footer_start. case_decide; [done|].
  destruct (bool_decide _); [|done]. cbn [negb]. unfold checked_sub.
  case_decide; [|done]. intros [=<-].
  assert (0 ≤ from_le (take 4 (drop (Z.to_nat (Zlen buf - 8)) buf))); [|lia].
  eapply from_le_fits. by apply Forall_take, Forall_drop.
Qed.
