(* ===== verification/Avro.v ===== *)
(** * The Avro object-container writer

    Models [ailake-catalog/src/avro_raw.rs]: zig-zag variable-length integers,
    length-prefixed strings and bytes, unions, and the container file that
    embeds the schema text verbatim.  The source appends to a [Vec<u8>]; each
    operation here maps the buffer it is given to the buffer it leaves.

    The reader of these files is a third-party crate, so the writer is checked
    against the Avro specification instead: [decode_long], [decode_bytes] and
    [decode_container] are the specification's decoding rules, and the
    theorems show they recover what was written. *)

From S2P Require Import Prelude.
From Equations Require Import Equations.

(* ------------------------------------------------------------------ *)
(** ** Encoding primitives                                             *)
(* ------------------------------------------------------------------ *)

(** Reading a [w]-bit pattern as a signed integer. *)
Definition signed (w z : Z) : Z := if decide (z < 2 ^ (w - 1)) then z else z - 2 ^ w.
Definition fits_i64 (n : Z) : Prop := - 2 ^ 63 ≤ n < 2 ^ 63.

(** [((n << 1) ^ (n >> 63)) as u64]: the shift drops the top bit, the
    arithmetic right shift spreads the sign. *)
Definition zigzag (n : Z) : Z :=
  wrap 64 (Z.lxor (signed 64 (wrap 64 (Z.shiftl n 1))) (Z.shiftr n 63)).

(** The [loop]: seven bits at a time, low bits first, the high bit marking
    that more bytes follow. *)
Equations? varint (v : Z) : bytes by wf (Z.to_nat v) lt :=
  varint v :=
    let b := Z.land v 127 in
    let v' := Z.shiftr v 7 in
    match decide (0 < v') with
    | left H => Z.lor b 128 :: varint v'
    | right _ => [b]
    end.
Proof.
  subst v'. clear varint b. revert H. rewrite Z.shiftr_div_pow2 by lia. intros H.
  assert (v / 2 ^ 7 < v); [|lia]. apply Z.div_lt; [|lia].
  destruct (decide (0 < v)); [done|].
  pose proof (Z.div_le_upper_bound v (2 ^ 7) 0). lia.
Qed.

Definition encode_long (n : Z) (buf : bytes) : bytes := buf ++ varint (zigzag n).
Definition encode_int (n : Z) (buf : bytes) : bytes := encode_long n buf.
Definition encode_string (s : string) (buf : bytes) : bytes :=
  encode_long (Zlen (as_bytes s)) buf ++ as_bytes s.
Definition encode_bytes_field (b buf : bytes) : bytes := encode_long (Zlen b) buf ++ b.
Definition encode_union_null (buf : bytes) : bytes := encode_long 0 buf.
Definition encode_union_long (index val : Z) (buf : bytes) : bytes :=
  encode_long val (encode_long index buf).
Definition encode_union_bytes (index : Z) (val buf : bytes) : bytes :=
  encode_bytes_field val (encode_long index buf).
Definition encode_empty_array (buf : bytes) : bytes := encode_long 0 buf.

(* ------------------------------------------------------------------ *)
(** ** The object container file                                       *)
(* ------------------------------------------------------------------ *)

Definition AVRO_MAGIC : bytes := [79; 98; 106; 1].
Definition SYNC_MARKER : bytes :=
  [222; 173; 190; 239; 202; 254; 186; 190; 222; 173; 190; 239; 202; 254; 186; 190].

(** One entry of the file-metadata map. *)
Definition encode_meta_entry (buf : bytes) (kv : string * bytes) : bytes :=
  encode_bytes_field kv.2 (encode_string kv.1 buf).

Definition write_avro_container
    (schema_json : string) (extra_meta : list (string * bytes)) (records : list bytes) : bytes :=
  let buf := AVRO_MAGIC in
  let buf := encode_long (2 + Zlen extra_meta) buf in
  let buf := encode_string "avro.schema" buf in
  let buf := encode_bytes_field (as_bytes schema_json) buf in
  let buf := encode_string "avro.codec" buf in
  let buf := encode_bytes_field (as_bytes "null") buf in
  let buf := foldl encode_meta_entry buf extra_meta in
  let buf := encode_long 0 buf in
  let buf := buf ++ SYNC_MARKER in
  match records with
  | [] => buf
  | _ =>
      let block := mjoin records in
      let buf := encode_long (Zlen records) buf in
      let buf := encode_long (Zlen block) buf in
      let buf := buf ++ block in
      buf ++ SYNC_MARKER
  end.

(* ------------------------------------------------------------------ *)
(** ** The specification's decoder                                     *)
(* ------------------------------------------------------------------ *)

(** A variable-length unsigned integer: the value and the bytes after it. *)
Fixpoint decode_varint (bs : bytes) : option (Z * bytes) :=
  match bs with
  | [] => None
  | b :: bs =>
      if decide (b < 128) then Some (b, bs)
      else match decode_varint bs with
           | Some (v, rest) => Some (Z.land b 127 + 128 * v, rest)
           | None => None
           end
  end.

Definition unzigzag (v : Z) : Z := if Z.odd v then - (v / 2) - 1 else v / 2.

Definition decode_long (bs : bytes) : option (Z * bytes) :=
  '(v, rest) ← decode_varint bs; Some (unzigzag v, rest).

(** A length-prefixed byte string. *)
Definition decode_bytes (bs : bytes) : option (bytes * bytes) :=
  '(n, rest) ← decode_long bs;
  if decide (0 ≤ n ≤ Zlen rest)
  then Some (take (Z.to_nat n) rest, drop (Z.to_nat n) rest) else None.

Definition expect (lit bs : bytes) : option bytes :=
  if decide (take (length lit) bs = lit) then Some (drop (length lit) bs) else None.

(** [n] key/value entries of one map block. *)
Fixpoint decode_entries (n : nat) (bs : bytes) : option (list (bytes * bytes) * bytes) :=
  match n with
  | O => Some ([], bs)
  | S n =>
      '(k, bs) ← decode_bytes bs;
      '(v, bs) ← decode_bytes bs;
      '(es, bs) ← decode_entries n bs;
      Some ((k, v) :: es, bs)
  end.

(** A container with one metadata block and at most one data block: the
    metadata entries, and the record count with the block's bytes. *)
Definition decode_container (bs : bytes)
    : option (list (bytes * bytes) * option (Z * bytes)) :=
  bs ← expect AVRO_MAGIC bs;
  '(n, bs) ← decode_long bs;
  '(es, bs) ← decode_entries (Z.to_nat n) bs;
  '(z, bs) ← decode_long bs;
  if negb (z =? 0) then None else
  bs ← expect SYNC_MARKER bs;
  match bs with
  | [] => Some (es, None)
  | _ =>
      '(count, bs) ← decode_long bs;
      '(block, bs) ← decode_bytes bs;
      bs ← expect SYNC_MARKER bs;
      match bs with [] => Some (es, Some (count, block)) | _ => None end
  end.

(* ------------------------------------------------------------------ *)
(** ** Integers                                                        *)
(* ------------------------------------------------------------------ *)

(** Reading the low 64 bits as signed changes a number by a multiple of [2^64]. *)
Lemma signed_wrap_cong z : ∃ k, signed 64 (wrap 64 z) = z + k * 2 ^ 64.
Proof.
  unfold signed, wrap. pose proof (Z.div_mod z (2 ^ 64)).
  case_decide; [exists (- (z / 2 ^ 64))|exists (- (z / 2 ^ 64) - 1)]; lia.
Qed.

Lemma zigzag_spec n :
  fits_i64 n → zigzag n = if decide (0 ≤ n) then 2 * n else - 2 * n - 1.
Proof.
  unfold fits_i64. intros Hn. unfold zigzag.
  destruct (signed_wrap_cong (Z.shiftl n 1)) as [k ->].
  rewrite Z.shiftl_mul_pow2, Z.shiftr_div_pow2 by lia. case_decide.
  - rewrite (Z.div_small n), Z.lxor_0_r by lia.
    unfold wrap. rewrite Z.mod_add, Z.mod_small by lia. lia.
  - replace (n / 2 ^ 63) with (-1) by (apply (Z.div_unique _ _ _ (n + 2 ^ 63)); lia).
    rewrite Z.lxor_m1_r. unfold wrap, Z.lnot.
    replace (Z.pred (- (n * 2 ^ 1 + k * 2 ^ 64)))
      with (-2 * n - 1 + (- k) * 2 ^ 64) by lia.
    rewrite Z.mod_add, Z.mod_small by lia. done.
Qed.

Lemma zigzag_fits n : fits_i64 n → fits 64 (zigzag n).
Proof. intros _. apply wrap_fits. lia. Qed.

Lemma unzigzag_zigzag n : fits_i64 n → unzigzag (zigzag n) = n.
Proof.
  intros Hn. rewrite zigzag_spec by done. unfold unzigzag. case_decide.
  - replace (Z.odd (2 * n)) with false by (by rewrite Z.odd_mul).
    symmetry. apply (Z.div_unique _ _ _ 0); lia.
  - replace (-2 * n - 1) with (1 + 2 * (- n - 1)) by lia.
    rewrite Z.odd_add_mul_2. cbn [Z.odd].
    rewrite <- (Z.div_unique (1 + 2 * (- n - 1)) 2 (- n - 1) 1) by lia. lia.
Qed.

Lemma low7_high v :
  0 ≤ v → Z.land v 127 + 128 * Z.shiftr v 7 = v ∧ 0 ≤ Z.land v 127 < 128.
Proof.
  intros. rewrite Z.shiftr_div_pow2 by lia. change 127 with (Z.ones 7).
  rewrite Z.land_ones by lia. change (2 ^ 7) with 128.
  pose proof (Z.div_mod v 128). pose proof (Z.mod_pos_bound v 128). lia.
Qed.

Lemma cont_byte b : 0 ≤ b < 128 → Z.lor b 128 = b + 128 ∧ Z.land (Z.lor b 128) 127 = b.
Proof.
  intros Hb. assert (Hd : Z.land b 128 = 0).
  { apply Z.bits_inj'. intros i Hi. rewrite Z.land_spec, Z.bits_0.
    change 128 with (2 ^ 7). rewrite Z.pow2_bits_eqb by lia.
    destruct (Z.eqb_spec 7 i) as [<-|]; [|by rewrite andb_false_r].
    rewrite (Z.bits_above_log2 b); [done|lia|].
    destruct (decide (b = 0)) as [->|]; [cbn; lia|]. apply Z.log2_lt_pow2; lia. }
  assert (E : Z.lor b 128 = b + 128) by (by rewrite Z.add_nocarry_lxor, Z.lxor_lor).
  split; [done|]. rewrite E. change 127 with (Z.ones 7). rewrite Z.land_ones by lia.
  change (2 ^ 7) with 128. rewrite <- (Z.mul_1_l 128) at 1.
  rewrite Z.mod_add by lia. by apply Z.mod_small.
Qed.

Lemma decode_varint_correct v rest :
  0 ≤ v → decode_varint (varint v ++ rest) = Some (v, rest).
Proof.
  revert rest. funelim (varint v). intros rest Hv. clear Heqcall.
  destruct (low7_high v Hv) as [Heq Hlt].
  destruct (decide (0 < Z.shiftr v 7)) as [Hpos|Hnpos].
  - destruct (cont_byte _ Hlt) as [E1 E2]. cbn [app decode_varint].
    rewrite decide_False by lia. rewrite H by lia || done. rewrite E2. do 2 f_equal. lia.
  - cbn [app decode_varint]. rewrite decide_True by lia.
    assert (0 ≤ Z.shiftr v 7) by (apply Z.shiftr_nonneg; lia). do 2 f_equal. lia.
Qed.

(** ** Composite values *)

(** The bytes a value adds to the buffer. *)
Definition long_bytes (n : Z) : bytes := varint (zigzag n).
Definition field_bytes (b : bytes) : bytes := long_bytes (Zlen b) ++ b.
Definition entry_bytes (kv : string * bytes) : bytes :=
  field_bytes (as_bytes kv.1) ++ field_bytes kv.2.

Lemma varint_not_nil v : varint v ≠ [].
Proof. simp varint. cbn. by case_match. Qed.

Lemma long_bytes_not_nil n : long_bytes n ≠ [].
Proof. apply varint_not_nil. Qed.

Lemma decode_long_bytes n rest :
  fits_i64 n → decode_long (long_bytes n ++ rest) = Some (n, rest).
Proof.
  intros Hn. unfold decode_long, long_bytes.
  rewrite decode_varint_correct by apply zigzag_fits, Hn. cbn.
  by rewrite unzigzag_zigzag.
Qed.

Lemma decode_field_bytes b rest :
  Zlen b < 2 ^ 63 → decode_bytes (field_bytes b ++ rest) = Some (b, rest).
Proof.
  intros Hb. unfold decode_bytes, field_bytes. rewrite <- app_assoc.
  rewrite decode_long_bytes by (unfold fits_i64; lia). cbn -[Z.of_nat].
  rewrite decide_True by len. rewrite Nat2Z.id.
  by rewrite take_app_length, drop_app_length.
Qed.

Lemma encode_entries_spec es buf :
  foldl encode_meta_entry buf es = buf ++ mjoin (entry_bytes <$> es).
Proof.
  revert buf. induction es as [|e es IH]; intros buf; cbn [foldl].
  - by rewrite app_nil_r.
  - rewrite IH. unfold encode_meta_entry, encode_bytes_field, encode_string, encode_long.
    cbn. unfold entry_bytes, field_bytes, long_bytes. by rewrite <- !app_assoc.
Qed.

(** Every key and value of a metadata list is short enough to be counted. *)
Definition meta_fits (es : list (string * bytes)) : Prop :=
  Forall (λ kv, Zlen (as_bytes kv.1) < 2 ^ 63 ∧ Zlen kv.2 < 2 ^ 63) es.

Lemma decode_entries_spec es rest :
  meta_fits es →
  decode_entries (length es) (mjoin (entry_bytes <$> es) ++ rest)
  = Some ((λ kv, (as_bytes kv.1, kv.2)) <$> es, rest).
Proof.
  induction 1 as [|[k v] es [Hk Hv] _ IH]; [done|].
  rewrite !fmap_cons, mjoin_cons. cbn [length decode_entries].
  unfold entry_bytes at 1. cbn [fst snd] in *. rewrite <- !app_assoc.
  rewrite decode_field_bytes by done. cbn [mbind option_bind].
  rewrite decode_field_bytes by done. cbn [mbind option_bind].
  by rewrite IH.
Qed.

Lemma expect_app lit rest : expect lit (lit ++ rest) = Some rest.
Proof.
  unfold expect. rewrite take_app_length, drop_app_length. by rewrite decide_True.
Qed.

(** The file as a concatenation of its parts. *)
Lemma write_avro_container_layout schema extra records :
  write_avro_container schema extra records =
    AVRO_MAGIC ++ long_bytes (2 + Zlen extra) ++
    mjoin (entry_bytes <$>
      (("avro.schema", as_bytes schema) :: ("avro.codec", as_bytes "null") :: extra)) ++
    long_bytes 0 ++ SYNC_MARKER ++
    match records with
    | [] => []
    | _ => long_bytes (Zlen records) ++ field_bytes (mjoin records) ++ SYNC_MARKER
    end.
Proof.
  unfold write_avro_container. rewrite encode_entries_spec.
  unfold encode_string, encode_bytes_field, encode_long.
  rewrite !fmap_cons, !mjoin_cons. unfold entry_bytes at 2 3. cbn [fst snd].
  unfold field_bytes, long_bytes.
  destruct records; rewrite <- ?app_assoc; [by rewrite app_nil_r|]. done.
Qed.

Lemma varint_bytes_ok v : 0 ≤ v → bytes_ok (varint v).
Proof.
  funelim (varint v). intros Hv. clear Heqcall. destruct (low7_high v Hv) as [_ Hlt].
  destruct (decide (0 < Z.shiftr v 7)) as [Hpos|Hnpos].
  - destruct (cont_byte _ Hlt) as [E _]. constructor; [unfold fits; lia|]. apply H; lia || done.
  - repeat constructor; lia.
Qed.

Lemma varint_length (k : nat) v :
  0 ≤ v < 2 ^ (7 * Z.of_nat (S k)) → (length (varint v) ≤ S k)%nat.
Proof.
  revert v. induction k as [|k IH]; intros v Hv; simp varint; cbn zeta;
    destruct (low7_high v ltac:(lia)) as [Heq Hlt]; case_match; cbn; try lia.
  apply le_n_S, IH. split; [lia|].
    rewrite Z.shiftr_div_pow2 in * by lia. apply Z.div_lt_upper_bound; [lia|].
    rewrite <- Z.pow_add_r by lia. replace (7 + _) with (7 * Z.of_nat (S (S k))) by lia. lia.
Qed.

(** An encoded [long] is at most ten bytes appended to the buffer, and the
    Avro decoding rules read back exactly the number written, leaving the bytes
    that follow untouched.  This holds for every [i64], the extremes included. *)
Theorem encode_long_roundtrip (n : Z) (buf rest : bytes) :
  fits_i64 n →
  ∃ e, encode_long n buf = buf ++ e ∧
       decode_long (e ++ rest) = Some (n, rest) ∧
       (1 ≤ length e ≤ 10)%nat ∧ bytes_ok e.
Proof.
  intros Hn. exists (long_bytes n). pose proof (zigzag_fits n Hn) as [Hz1 Hz2].
  split_and!; [done|by apply decode_long_bytes| | |by apply varint_bytes_ok].
  - pose proof (long_bytes_not_nil n). destruct (long_bytes n); [done|cbn; lia].
  - apply (varint_length 9). lia.
Qed.

Lemma encode_long_roundtrip_witness :
  fits_i64 (- 2 ^ 63) ∧
  ∃ e, encode_long (- 2 ^ 63) [7] = [7] ++ e ∧
       decode_long (e ++ [1]) = Some (- 2 ^ 63, [1]) ∧
       (1 ≤ length e ≤ 10)%nat ∧ bytes_ok e.
Proof. split; [by vm_compute|]. apply (encode_long_roundtrip (- 2 ^ 63) [7] [1]). by vm_compute. Defined.

(** Decoding what the writer produced. *)
Lemma decode_written_container
    (schema : string) (extra : list (string * bytes)) (records : list bytes) :
  meta_fits (("avro.schema", as_bytes schema) :: extra) →
  Zlen extra < 2 ^ 62 → Zlen records < 2 ^ 63 → Zlen (mjoin records) < 2 ^ 63 →
  decode_container (write_avro_container schema extra records) =
    Some ((as_bytes "avro.schema", as_bytes schema) ::
          (as_bytes "avro.codec", as_bytes "null") ::
          ((λ kv, (as_bytes kv.1, kv.2)) <$> extra),
          match records with [] => None | _ => Some (Zlen records, mjoin records) end).
Proof.
  intros Hm Hx Hr Hb. rewrite write_avro_container_layout.
  set (es := ("avro.schema", _) :: _ :: extra).
  assert (Hes : meta_fits es).
  { inversion Hm; subst. constructor; [done|]. constructor; [cbn; lia|done]. }
  unfold decode_container. rewrite expect_app. cbn [mbind option_bind].
  rewrite decode_long_bytes by (unfold fits_i64; lia). cbn [mbind option_bind].
  replace (Z.to_nat (2 + Zlen extra)) with (length es) by (subst es; cbn; lia).
  rewrite decode_entries_spec by done. cbn [mbind option_bind].
  rewrite decode_long_bytes by (unfold fits_i64; lia). cbn [mbind option_bind negb Z.eqb].
  rewrite expect_app. cbn [mbind option_bind].
  destruct records as [|r rs]; [done|].
  destruct (long_bytes _ ++ _) as [|b0 bs0] eqn:E.
  { apply app_nil in E as [E _]. by apply long_bytes_not_nil in E. }
  rewrite <- E. rewrite decode_long_bytes by (unfold fits_i64; lia). cbn [mbind option_bind].
  rewrite decode_field_bytes by done. cbn [mbind option_bind].
  rewrite <- (app_nil_r SYNC_MARKER), expect_app. done.
Qed.

(** Decoding a container by the Avro rules gives back the schema text
    verbatim, the codec, every extra metadata entry in order, and the record
    count with the concatenated records; an empty record list leaves no data
    block at all. *)
Theorem avro_container_roundtrip
    (schema : string) (extra : list (string * bytes)) (records : list bytes) :
  meta_fits (("avro.schema", as_bytes schema) :: extra) →
  Zlen extra < 2 ^ 62 → Zlen records < 2 ^ 63 → Zlen (mjoin records) < 2 ^ 63 →
  decode_container (write_avro_container schema extra records) =
    Some ((as_bytes "avro.schema", as_bytes schema) ::
          (as_bytes "avro.codec", as_bytes "null") ::
          ((λ kv, (as_bytes kv.1, kv.2)) <$> extra),
          match records with [] => None | _ => Some (Zlen records, mjoin records) end).
Proof. apply decode_written_container. Qed.

Lemma avro_container_roundtrip_witness :
  decode_container (write_avro_container "{}" [("k", [1; 2])] [[5]; [6; 7]]) =
    Some ([(as_bytes "avro.schema", as_bytes "{}"); (as_bytes "avro.codec", as_bytes "null");
           (as_bytes "k", [1; 2])], Some (2, [5; 6; 7])).
Proof.
  apply (avro_container_roundtrip "{}" [("k", [1; 2])] [[5]; [6; 7]]);
    repeat constructor; vm_compute; (done || by intros).
Defined.
