(* ===== verification/IvfPq.v ===== *)
(** * The IVF-PQ index: configuration and serialization

    Models the parts of [ailake-index/src/ivf_pq.rs] that the file format and the
    writers use: the configuration derived from a dataset, the snapshot that bincode
    stores, and [IvfPqSerializer].  The coarse centroids are stored as one flat list
    and split again by [chunks_exact], which panics when the stored dimension is zero.
    The codebook of the product quantizer is a type parameter, bincode an argument. *)

From S2P Require Import Prelude Core Footer.

(* ------------------------------------------------------------------ *)
(** ** Configuration                                                   *)
(* ------------------------------------------------------------------ *)

Record IvfPqConfig : Type := mk_ivf_config {
  nlist : Z;
  nprobe : Z;
  pq_m : Z;
  pq_k : Z;
  max_iter : Z;
  residual : bool;
}.

(** The largest divisor of [dim] that is at most [requested], found from above. *)
Fixpoint find_valid_pq_m (requested : nat) (dim : Z) : Z :=
  match requested with
  | O => 1
  | S m => if dim mod Z.of_nat (S m) =? 0 then Z.of_nat (S m) else find_valid_pq_m m dim
  end.

Definition clamp (lo hi x : Z) : Z := Z.min hi (Z.max lo x).

(** [IvfPqConfig::for_dataset].  The square root is taken in [f64] there: below [2^20]
    vectors its integer part is that of the exact root, above both are clamped. *)
Definition ivf_for_dataset (dim n_vectors : Z) : IvfPqConfig :=
  let nlist := clamp 16 1024 (Z.sqrt n_vectors) in
  let pq_m_hint := clamp 4 96 (dim / 8) in
  {| nlist := nlist;
     nprobe := Z.max (nlist / 4) 1;
     pq_m := find_valid_pq_m (Z.to_nat pq_m_hint) dim;
     pq_k := 256;
     max_iter := 25;
     residual := false |}.

Definition with_residual (c : IvfPqConfig) : IvfPqConfig :=
  {| nlist := nlist c; nprobe := nprobe c; pq_m := pq_m c; pq_k := pq_k c;
     max_iter := max_iter c; residual := true |}.

(** The code length of the product quantizer divides the dimension. *)
Lemma find_valid_pq_m_divides requested dim :
  Z.divide (find_valid_pq_m requested dim) dim ∧ 1 ≤ find_valid_pq_m requested dim ≤ Z.max 1 (Z.of_nat requested).
Proof.
  induction requested as [|m IH]; cbn [find_valid_pq_m]; [split; [apply Z.divide_1_l|lia]|].
  destruct (Z.eqb_spec (dim mod Z.of_nat (S m)) 0) as [E|_].
  - split; [apply Z.mod_divide; [lia|done]|lia].
  - destruct IH. split; [done|lia].
Qed.

(* ------------------------------------------------------------------ *)
(** ** The index and its snapshot                                      *)
(* ------------------------------------------------------------------ *)

Record IvfPqIndex {PQCodebook : Type} : Type := mk_ivf {
  ivf_config : IvfPqConfig;
  ivf_metric : VectorMetric;
  ivf_dim : Z;
  ivf_coarse_centroids : list (list f32bits);
  ivf_pq : PQCodebook;
  ivf_inv_row_ids : list (list Z);
  ivf_inv_codes : list bytes;
  ivf_residual_codes : bool;
}.
Arguments IvfPqIndex : clear implicits.
Arguments mk_ivf {_}.

Record IvfPqSnapshotCore {PQCodebook : Type} : Type := mk_ivf_core {
  sc_nlist : Z;
  sc_nprobe : Z;
  sc_pq_m : Z;
  sc_pq_k : Z;
  sc_max_iter : Z;
  sc_dim : Z;
  sc_metric : Z;
  sc_coarse_flat : list f32bits;
  sc_pq : PQCodebook;
  sc_inv_row_ids : list (list Z);
  sc_inv_codes : list bytes;
}.
Arguments IvfPqSnapshotCore : clear implicits.
Arguments mk_ivf_core {_}.

Definition ivf_metric_to_u8 (m : VectorMetric) : Z :=
  match m with Cosine => 0 | Euclidean => 1 | DotProduct => 2 | NormalizedCosine => 3 end.

Definition ivf_u8_to_metric (v : Z) : AilakeResult VectorMetric :=
  if v =? 0 then Ok Cosine
  else if v =? 1 then Ok Euclidean
  else if v =? 2 then Ok DotProduct
  else if v =? 3 then Ok NormalizedCosine
  else Err CatalogError.

(** [node_count]: the lengths of the inverted lists, added up. *)
Definition ivf_node_count {PQ} (i : IvfPqIndex PQ) : Z :=
  foldr (λ l n, Zlen l + n) 0 (ivf_inv_row_ids i).

(** [slice::chunks_exact]: the full chunks in order; a chunk size of zero panics. *)
Fixpoint full_chunks {A} (fuel : nat) (n : Z) (l : list A) : list (list A) :=
  match fuel with
  | O => []
  | S fuel =>
      if n <=? Zlen l then take (Z.to_nat n) l :: full_chunks fuel n (drop (Z.to_nat n) l) else []
  end.

Definition chunks_exact {A} (n : Z) (l : list A) : outcome AilakeError (list (list A)) :=
  if n =? 0 then Panic else Ret (Ok (full_chunks (length l) n l)).

(** Chunks of the right size, whose concatenation is the list but for a remainder
    shorter than a chunk: the fuel is enough. *)
Lemma full_chunks_spec {A} fuel n (l : list A) :
  0 < n → (length l ≤ fuel)%nat →
  Forall (λ c, Zlen c = n) (full_chunks fuel n l) ∧
  ∃ rest, l = mjoin (full_chunks fuel n l) ++ rest ∧ Zlen rest < n.
Proof.
  intros Hn. revert l. induction fuel as [|fuel IH]; intros l Hl; cbn [full_chunks].
  - destruct l; cbn in Hl; [|lia]. split; [done|]. exists []. split; [done|]. cbn. lia.
  - destruct (Z.leb_spec n (Zlen l)) as [Hle|Hgt].
    + destruct (IH (drop (Z.to_nat n) l)) as [Hf (rest & E & Hr)]; [rewrite length_drop; lia|].
      split.
      * constructor; [rewrite length_take; lia|done].
      * exists rest. split; [|done]. rewrite mjoin_cons, <- app_assoc, <- E. by rewrite take_drop.
    + split; [done|]. exists l. split; [done|lia].
Qed.

(* ------------------------------------------------------------------ *)
(** ** [IvfPqSerializer]                                               *)
(* ------------------------------------------------------------------ *)

Module IvfPqSerializer.
Section Serializer.
Context {PQCodebook : Type}.

(** The snapshot of an index. *)
Definition core_of (index : IvfPqIndex PQCodebook) : IvfPqSnapshotCore PQCodebook :=
  {| sc_nlist := nlist (ivf_config index); sc_nprobe := nprobe (ivf_config index);
     sc_pq_m := pq_m (ivf_config index); sc_pq_k := pq_k (ivf_config index);
     sc_max_iter := max_iter (ivf_config index); sc_dim := ivf_dim index;
     sc_metric := ivf_metric_to_u8 (ivf_metric index);
     sc_coarse_flat := mjoin (ivf_coarse_centroids index); sc_pq := ivf_pq index;
     sc_inv_row_ids := ivf_inv_row_ids index; sc_inv_codes := ivf_inv_codes index |}.

(** [serialize]: bincode's encoding of the snapshot. *)
Definition to_bytes (serialize : IvfPqSnapshotCore PQCodebook → AilakeResult bytes)
    (index : IvfPqIndex PQCodebook) : AilakeResult bytes :=
  bytes ← serialize (core_of index);
  Ok (bytes ++ [if ivf_residual_codes index then 1 else 0]).

(** [deserialize_from]: the snapshot bincode reads at the front of the bytes, and the
    position its cursor stops at. *)
Definition from_bytes (deserialize_from : bytes → AilakeResult (IvfPqSnapshotCore PQCodebook * Z))
    (b : bytes) : outcome AilakeError (IvfPqIndex PQCodebook) :=
  '(core, position) ← Ret (deserialize_from b);
  let residual :=
    if decide (position < Zlen b) then negb (at_ b (Z.to_nat position) =? 0) else false in
  metric ← Ret (ivf_u8_to_metric (sc_metric core));
  coarse_centroids ← chunks_exact (sc_dim core) (sc_coarse_flat core);
  Ret (Ok {| ivf_config := mk_ivf_config (sc_nlist core) (sc_nprobe core) (sc_pq_m core)
                             (sc_pq_k core) (sc_max_iter core) residual;
             ivf_metric := metric;
             ivf_dim := sc_dim core;
             ivf_coarse_centroids := coarse_centroids;
             ivf_pq := sc_pq core;
             ivf_inv_row_ids := sc_inv_row_ids core;
             ivf_inv_codes := sc_inv_codes core;
             ivf_residual_codes := residual |}).

(** Loading panics exactly on a snapshot bincode accepts, of a known metric, whose
    dimension is zero. *)
Lemma from_bytes_panics deserialize_from b :
  from_bytes deserialize_from b = Panic ↔
  ∃ core position metric, deserialize_from b = Ok (core, position) ∧
    ivf_u8_to_metric (sc_metric core) = Ok metric ∧ sc_dim core = 0.
Proof.
  unfold from_bytes. destruct (deserialize_from b) as [[core position]|e]; cbn [mbind outcome_bind];
    [|by split; [|intros (?&?&?&?&?)]].
  destruct (ivf_u8_to_metric (sc_metric core)) as [metric|e] eqn:Hm; cbn [mbind outcome_bind];
    [|split; [done|intros (?&?&?&[= <- <-]&?&?); congruence]].
  unfold chunks_exact. destruct (Z.eqb_spec (sc_dim core) 0) as [E|E]; cbn [mbind outcome_bind].
  - split; [|done]. intros _. by exists core, position, metric.
  - split; [done|]. by intros (?&?&?&[= <- <-]&?&?).
Qed.

End Serializer.
End IvfPqSerializer.
