(* ===== verification/FileFormat.v ===== *)
(** * The AI-Lake file: writer and reader

    Models [ailake-file/src/writer.rs] and [ailake-file/src/reader.rs], with the
    footer assembly of [ailake-parquet/src/writer.rs].  An AI-Lake file is a
    Parquet file with one AILK section per vector column (header, centroid,
    index bytes, trailer) and an optional full-text section spliced between the
    row groups and the Parquet footer.

    Two interfaces are assumed.  [ParquetLib] is the third-party Parquet crate:
    an encoder and a reader of the footer's key-value metadata; [ParquetLaws]
    states the Parquet layout the splice relies on (data pages first and
    independent of the key-value metadata, the footer located from the last
    eight bytes only; the encoder adds the Arrow schema to the metadata).
    [IndexLib] is what the writer calls in [ailake-index], [ailake-vec] and
    [ailake-fts]; the IVF-PQ serializer and its configuration are those of [IvfPq],
    over bincode.  [usize] is 64 bits wide; a panic is the outcome [Panic]. *)

From S2P Require Import Prelude Core Footer IvfPq.

Abbreviation vec32 := (list f32bits) (only parsing).

(* ------------------------------------------------------------------ *)
(** ** Interfaces                                                      *)
(* ------------------------------------------------------------------ *)

Record HnswConfig : Type := mk_HnswConfig {
  cfg_m : Z; cfg_ef_construction : Z; cfg_max_elements : Z;
}.

(** [ailake_fts::FtsConfig]. *)
Record FtsConfig : Type := mk_fts {
  fts_text_columns : list string;
  fts_tokenizer : string;
  fts_writer_heap_bytes : Z;
}.

Class ParquetLib : Type := {
  RecordBatch : Type;
  num_rows : RecordBatch → Z;
  (** [ArrowWriter]: the batch extended with the encoded vector column, written
      with the given key-value metadata. *)
  arrow_write : VectorStoragePolicy → RecordBatch → list vec32 →
                list (string * string) → AilakeResult bytes;
  (** [ParquetRecordBatchReaderBuilder::try_new(..).metadata()]. *)
  parquet_kvs : bytes → AilakeResult (list (string * string));
  parquet_num_rows : bytes → AilakeResult Z;
}.

Class IndexLib {PL : ParquetLib} : Type := {
  IvfPqCodebook : Type;
  HnswIndex : Type;
  (** The product quantizer of [ailake-vec]. *)
  PQCodebook : Type;
  normalize_l2 : vec32 → vec32;
  compute_centroid_and_radius : list vec32 → VectorMetric → Centroid;
  HnswConfig_default : HnswConfig;
  (** [HardwareProfile::detect().recommend_ivf_pq(n)]. *)
  recommend_ivf_pq : Z → bool;
  (** Build from numbered vectors, then serialize. *)
  hnsw_build_bytes : Z → VectorMetric → HnswConfig → list (Z * vec32) → AilakeResult bytes;
  hnsw_to_bytes : HnswIndex → AilakeResult bytes;
  ivf_train_bytes : list Z → list vec32 → VectorMetric → IvfPqConfig → AilakeResult bytes;
  ivf_codebook_bytes : list Z → list vec32 → IvfPqCodebook → AilakeResult bytes;
  (** [MmapLoader::from_bytes], [quantize_to_f16]. *)
  hnsw_from_bytes : bytes → AilakeResult HnswIndex;
  quantize_to_f16 : HnswIndex → HnswIndex;
  hnsw_node_count : HnswIndex → Z;
  (** [bincode::deserialize_from] at the snapshot of an IVF-PQ index: what it reads at
      the front of the bytes and the position its cursor stops at. *)
  ivf_deserialize_from : bytes → AilakeResult (IvfPqSnapshotCore PQCodebook * Z);
  build_fts_blob_from_batch : FtsConfig → RecordBatch → AilakeResult bytes;
}.

(** The key under which [ArrowWriter] adds the encoded Arrow schema to the metadata. *)
Definition ARROW_SCHEMA_META_KEY : string := "ARROW:schema".
Definition without_arrow_schema (kvs : list (string * string)) : list (string * string) :=
  filter (λ kv, kv.1 ≠ ARROW_SCHEMA_META_KEY) kvs.

(** The Parquet file layout. *)
Class ParquetLaws (PL : ParquetLib) : Type := {
  row_groups : VectorStoragePolicy → RecordBatch → list vec32 → bytes;
  footer_thrift : VectorStoragePolicy → RecordBatch → list vec32 →
                  list (string * string) → bytes;
  parquet_tail p b e kv :=
    footer_thrift p b e kv ++ to_le 4 (Zlen (footer_thrift p b e kv)) ++ PARQUET_MAGIC;
  arrow_write_layout p b e kv f :
    arrow_write p b e kv = Ok f →
    f = row_groups p b e ++ parquet_tail p b e kv ∧ fits 32 (Zlen (footer_thrift p b e kv));
  (** The footer is found from the end of the file, whatever precedes it; it holds the
      given metadata, in order, and the Arrow schema the encoder adds. *)
  parquet_kvs_tail body p b e kv :
    fits 32 (Zlen (footer_thrift p b e kv)) →
    ∃ kvs, parquet_kvs (body ++ parquet_tail p b e kv) = Ok kvs ∧
           without_arrow_schema kvs = without_arrow_schema kv;
  parquet_num_rows_tail body p b e kv :
    fits 32 (Zlen (footer_thrift p b e kv)) →
    parquet_num_rows (body ++ parquet_tail p b e kv) = Ok (num_rows b);
}.

(* ------------------------------------------------------------------ *)
(** ** The Parquet writer's metadata                                   *)
(* ------------------------------------------------------------------ *)

Definition metric_str (m : VectorMetric) : string :=
  match m with
  | Cosine => "cosine" | Euclidean => "euclidean" | DotProduct => "dotproduct"
  | NormalizedCosine => "normalized_cosine"
  end.
Definition precision_str (p : VectorPrecision) : string :=
  match p with F32 => "f32" | F16 => "f16" | I8 => "i8" end.

Definition FOOTER_OFFSET_KEY : string := "ailake.footer_offset".
Definition KV_FTS_OFFSET : string := "ailake.fts_offset".
(** [format!("ailake.{column}.footer_offset")]. *)
Definition column_key (column : string) : string := "ailake." +:+ column +:+ ".footer_offset".

Section Writer.
Context `{PL : ParquetLib} `{IL : !IndexLib}.

Definition base_kv (p : VectorStoragePolicy) (n : Z) : list (string * string) :=
  [("ailake.format_version", "1");
   ("ailake.precision", precision_str (policy_precision p));
   ("ailake.metric", metric_str (policy_metric p));
   ("ailake.record_count", to_string n);
   ("ailake.vector_column", column_name p);
   ("ailake.dim", to_string (policy_dim p))] ++
  (if negb (keep_raw_for_reranking p) then [("ailake.pq_only", "true")] else []).

(** [ParquetVectorWriter::write_batch_with_kv]. *)
Definition write_batch_with_kv (p : VectorStoragePolicy) (b : RecordBatch)
    (embeddings : list vec32) (extra_kv : list (string * string)) : AilakeResult (bytes * Z) :=
  let n := num_rows b in
  if negb (Zlen embeddings =? n) then
    Err (DimensionMismatch (wrap 32 n) (wrap 32 (Zlen embeddings)))
  else
    buf ← arrow_write p b embeddings (base_kv p n ++ extra_kv);
    Ok (buf, n).

Definition write_batch (p : VectorStoragePolicy) (b : RecordBatch) (embeddings : list vec32) :=
  write_batch_with_kv p b embeddings [].

(* ------------------------------------------------------------------ *)
(** ** AILK sections                                                   *)
(* ------------------------------------------------------------------ *)

Inductive IndexType : Type :=
| IHnsw (c : HnswConfig)
| IIvfPq (c : IvfPqConfig)
| IAuto.

Record AilakeFileWriter : Type := mk_writer {
  w_policy : VectorStoragePolicy;
  w_index_type : IndexType;
  w_shared_codebook : option IvfPqCodebook;
  w_fts_config : option FtsConfig;
  w_prebuilt_fts_blob : option bytes;
}.

Record VectorColumnBatch : Type := mk_column {
  col_policy : VectorStoragePolicy;
  col_embeddings : list vec32;
}.

(** Every value little-endian, then the radius. *)
Definition encode_centroid (c : Centroid) : bytes :=
  mjoin (to_le 4 <$> centroid_values c) ++ to_le 4 (centroid_radius c).

(** The header of a section. *)
Definition section_header (p : VectorStoragePolicy) (record_count : Z)
    (centroid_bytes index_bytes : bytes) (flags : Z) : Header.AilakeHeader :=
  let centroid_offset := HEADER_SIZE in
  let centroid_len := Zlen centroid_bytes in
  {| Header.format_version := AILAKE_FORMAT_VERSION;
     Header.flags := flags;
     Header.dim := policy_dim p;
     Header.precision := policy_precision p;
     Header.distance_metric := policy_metric p;
     Header.record_count := record_count;
     Header.centroid_offset := centroid_offset;
     Header.centroid_len := centroid_len;
     Header.hnsw_offset := centroid_offset + centroid_len;
     Header.hnsw_len := Zlen index_bytes |}.

(** Header + centroid + index + trailer at absolute offset [ailk_abs_offset]. *)
Definition assemble_section (p : VectorStoragePolicy) (record_count ailk_abs_offset : Z)
    (centroid_bytes index_bytes : bytes) (flags : Z) : bytes :=
  let centroid_len := Zlen centroid_bytes in
  let index_len := Zlen index_bytes in
  let ailk_total_len := HEADER_SIZE + centroid_len + index_len + TRAILER_SIZE in
  let header := section_header p record_count centroid_bytes index_bytes flags in
  let trailer := {| Trailer.footer_offset := ailk_abs_offset;
                    Trailer.footer_len := ailk_total_len;
                    Trailer.format_version := AILAKE_FORMAT_VERSION;
                    Trailer.flags := flags |} in
  Header.to_bytes header ++ centroid_bytes ++ index_bytes ++ Trailer.to_bytes trailer.

(** The vectors the centroid and the index are computed from, and the metric
    used for them: unit-normalized under [NormalizedCosine] when asked for. *)
Definition effective_vectors (p : VectorStoragePolicy) (embeddings : list vec32)
    : list vec32 * VectorMetric :=
  if pre_normalize p && bool_decide (policy_metric p = Cosine)
  then (normalize_l2 <$> embeddings, NormalizedCosine)
  else (embeddings, policy_metric p).

(** [IndexType::Auto] resolved against the hardware. *)
Definition resolve_index_type (p : VectorStoragePolicy) (n : Z) (t : IndexType) : IndexType :=
  match t with
  | IAuto => if recommend_ivf_pq n then IIvfPq (ivf_for_dataset (policy_dim p) n)
             else IHnsw HnswConfig_default
  | t => t
  end.

(** Number the vectors [0..n). *)
Definition row_ids (n : nat) : list Z := Z.of_nat <$> seq 0 n.

(** The index bytes and the header flags. *)
Definition build_index (p : VectorStoragePolicy) (embeddings : list vec32)
    (hnsw_metric : VectorMetric) (t : IndexType) (shared_codebook : option IvfPqCodebook)
    : AilakeResult (bytes * Z) :=
  match t with
  | IHnsw hnsw_config =>
      let config := {| cfg_m := default (cfg_m hnsw_config) (hnsw_m p);
                       cfg_ef_construction :=
                         default (cfg_ef_construction hnsw_config) (hnsw_ef_construction p);
                       cfg_max_elements := cfg_max_elements hnsw_config |} in
      b ← hnsw_build_bytes (policy_dim p) hnsw_metric config
            (zip (row_ids (length embeddings)) embeddings);
      Ok (b, 0)
  | IIvfPq ivf_config =>
      let ids := row_ids (length embeddings) in
      b ← match shared_codebook with
          | Some cb => ivf_codebook_bytes ids embeddings cb
          | None => ivf_train_bytes ids embeddings (policy_metric p) ivf_config
          end;
      Ok (b, FLAG_INDEX_IVF_PQ)
  | IAuto => Err InvalidArgument (* unreachable: resolved by the caller *)
  end.

(** What one column contributes: centroid, index bytes, flags. *)
Definition section_payload (p : VectorStoragePolicy) (embeddings : list vec32)
    (t : IndexType) (shared_codebook : option IvfPqCodebook)
    : AilakeResult (Centroid * bytes * Z) :=
  let '(embeddings, hnsw_metric) := effective_vectors p embeddings in
  let centroid := compute_centroid_and_radius embeddings hnsw_metric in
  let t := resolve_index_type p (Zlen embeddings) t in
  '(index_bytes, flags) ← build_index p embeddings hnsw_metric t shared_codebook;
  Ok (centroid, index_bytes, flags).

Definition build_ailk_section (p : VectorStoragePolicy) (embeddings : list vec32)
    (record_count ailk_abs_offset : Z) (t : IndexType)
    (shared_codebook : option IvfPqCodebook) : AilakeResult bytes :=
  '(centroid, index_bytes, flags) ← section_payload p embeddings t shared_codebook;
  Ok (assemble_section p record_count ailk_abs_offset (encode_centroid centroid)
        index_bytes flags).

Definition build_ailk_section_from_index_bytes (p : VectorStoragePolicy)
    (embeddings : list vec32) (record_count ailk_abs_offset : Z)
    (index_bytes : bytes) (flags : Z) : AilakeResult bytes :=
  let '(embeddings, centroid_metric) := effective_vectors p embeddings in
  let centroid := compute_centroid_and_radius embeddings centroid_metric in
  Ok (assemble_section p record_count ailk_abs_offset (encode_centroid centroid)
        index_bytes flags).

(** The optional full-text section: a prebuilt blob wins over a configuration;
    a blob that fails to build is silently left out. *)
Definition fts_section (w : AilakeFileWriter) (b : RecordBatch) : option bytes :=
  let blob :=
    match w_prebuilt_fts_blob w with
    | Some blob => Some blob
    | None => cfg ← w_fts_config w; to_option (build_fts_blob_from_batch cfg b)
    end in
  blob ← blob;
  Some (AILK_FTS_MAGIC ++ to_le 2 1 ++ to_le 2 0 ++ to_le 8 (Zlen blob) ++ blob).

(* ------------------------------------------------------------------ *)
(** ** Writing files                                                   *)
(* ------------------------------------------------------------------ *)

Definition write_parquet_only (w : AilakeFileWriter) (b : RecordBatch)
    (embeddings : list vec32) : AilakeResult bytes :=
  '(f, _) ← write_batch (w_policy w) b embeddings; Ok f.

(** The running state of the column loop: sections, key-value pairs, and the
    absolute offset of the next section. *)
Definition loop_state : Type := list bytes * list (string * string) * Z.

Definition write_multi_step (w : AilakeFileWriter) (record_count : Z)
    (st : loop_state) (col : VectorColumnBatch) : AilakeResult loop_state :=
  let '(sections, kv_owned, current_offset) := st in
  section ← build_ailk_section (col_policy col) (col_embeddings col) record_count
              current_offset (w_index_type w) (w_shared_codebook w);
  let kv_key :=
    match kv_owned with
    | [] => FOOTER_OFFSET_KEY
    | _ => column_key (column_name (col_policy col))
    end in
  Ok (sections ++ [section], kv_owned ++ [(kv_key, to_string current_offset)],
      current_offset + Zlen section).

Definition write_multi (w : AilakeFileWriter) (b : RecordBatch)
    (columns : list VectorColumnBatch) : AilakeResult bytes :=
  match columns with
  | [] => Err InvalidArgument
  | primary :: _ =>
      '(parquet_v1, record_count) ← write_batch (col_policy primary) b (col_embeddings primary);
      footer_start ← parquet_footer_start parquet_v1;
      '(ailk_sections, kv_owned, current_offset) ←
        try_fold (write_multi_step w record_count) ([], [], footer_start) columns;
      let fts := fts_section w b in
      let kv_owned :=
        match fts with
        | Some _ => kv_owned ++ [(KV_FTS_OFFSET, to_string current_offset)]
        | None => kv_owned
        end in
      '(parquet_v2, _) ←
        write_batch_with_kv (col_policy primary) b (col_embeddings primary) kv_owned;
      footer_start_v2 ← parquet_footer_start parquet_v2;
      Ok (take (Z.to_nat footer_start) parquet_v1 ++ mjoin ailk_sections ++
          default [] fts ++ drop (Z.to_nat footer_start_v2) parquet_v2)
  end.

Definition write (w : AilakeFileWriter) (b : RecordBatch) (embeddings : list vec32)
    : AilakeResult bytes :=
  write_multi w b [{| col_policy := w_policy w; col_embeddings := embeddings |}].

Definition single_pass_step (w : AilakeFileWriter) (record_count : Z)
    (st : list bytes * Z) (col : VectorColumnBatch) : AilakeResult (list bytes * Z) :=
  let '(sections, current_offset) := st in
  section ← build_ailk_section (col_policy col) (col_embeddings col) record_count
              current_offset (w_index_type w) (w_shared_codebook w);
  Ok (sections ++ [section], current_offset + Zlen section).

Definition write_multi_single_pass (w : AilakeFileWriter) (b : RecordBatch)
    (columns : list VectorColumnBatch) : AilakeResult bytes :=
  match columns with
  | [] => Err InvalidArgument
  | primary :: _ =>
      '(parquet_bytes, record_count) ←
        write_batch (col_policy primary) b (col_embeddings primary);
      footer_start ← parquet_footer_start parquet_bytes;
      '(ailk_sections, _) ←
        try_fold (single_pass_step w record_count) ([], footer_start) columns;
      Ok (take (Z.to_nat footer_start) parquet_bytes ++ mjoin ailk_sections ++
          drop (Z.to_nat footer_start) parquet_bytes)
  end.

Definition write_single_pass (w : AilakeFileWriter) (b : RecordBatch) (embeddings : list vec32)
    : AilakeResult bytes :=
  write_multi_single_pass w b [{| col_policy := w_policy w; col_embeddings := embeddings |}].

Definition write_with_prebuilt_hnsw (w : AilakeFileWriter) (b : RecordBatch)
    (embeddings : list vec32) (hnsw : HnswIndex) : AilakeResult bytes :=
  '(parquet_v1, record_count) ← write_batch (w_policy w) b embeddings;
  footer_start ← parquet_footer_start parquet_v1;
  index_bytes ← hnsw_to_bytes hnsw;
  ailk_section ← build_ailk_section_from_index_bytes (w_policy w) embeddings record_count
                   footer_start index_bytes 0;
  let fts := fts_section w b in
  let kv_owned :=
    (FOOTER_OFFSET_KEY, to_string footer_start) ::
    match fts with
    | Some _ => [(KV_FTS_OFFSET, to_string (footer_start + Zlen ailk_section))]
    | None => []
    end in
  '(parquet_v2, _) ← write_batch_with_kv (w_policy w) b embeddings kv_owned;
  footer_start_v2 ← parquet_footer_start parquet_v2;
  Ok (take (Z.to_nat footer_start) parquet_v1 ++ ailk_section ++ default [] fts ++
      drop (Z.to_nat footer_start_v2) parquet_v2).

(* ------------------------------------------------------------------ *)
(** ** Reading files                                                   *)
(* ------------------------------------------------------------------ *)

Record AilakeFileReader : Type := mk_reader {
  r_bytes : bytes;
  r_vector_column : string;
}.

(** The first pair with this key. *)
Definition kv_find (key : string) (kvs : list (string * string)) : option string :=
  snd <$> (list_find (λ kv, kv.1 = key) kvs ≫= λ '(_, kv), Some kv).

Definition kv_metadata (file : bytes) (key : string) : AilakeResult (option string) :=
  kvs ← parquet_kvs file; Ok (kv_find key kvs).

Definition parse_offset (val : string) : AilakeResult Z :=
  ok_or (parse_u64 val) NotAnAilakeFile.

Definition ailk_offset_from_trailer (r : AilakeFileReader) : outcome AilakeError Z :=
  let buf := r_bytes r in
  footer_start ← Ret (parquet_footer_start buf);
  if decide (footer_start < TRAILER_SIZE) then Ret (Err NotAnAilakeFile)
  else
    let trailer_start := footer_start - TRAILER_SIZE in
    trailer_bytes ← or_panic (slice buf trailer_start footer_start);
    trailer ← Ret (Trailer.from_bytes trailer_bytes);
    Ret (Ok (Trailer.footer_offset trailer)).

Definition ailk_offset (r : AilakeFileReader) : outcome AilakeError Z :=
  kv ← Ret (kv_metadata (r_bytes r) FOOTER_OFFSET_KEY);
  match kv with
  | Some val => Ret (parse_offset val)
  | None => ailk_offset_from_trailer r
  end.

Definition ailk_offset_for_column (r : AilakeFileReader) (column : string)
    : outcome AilakeError Z :=
  kv ← Ret (kv_metadata (r_bytes r) (column_key column));
  match kv with
  | Some val => Ret (parse_offset val)
  | None =>
      kv ← Ret (kv_metadata (r_bytes r) FOOTER_OFFSET_KEY);
      match kv with
      | Some val => Ret (parse_offset val)
      | None => ailk_offset_from_trailer r
      end
  end.

Definition has_column_footer (r : AilakeFileReader) (column : string) : bool :=
  match kv_metadata (r_bytes r) (column_key column) with Ok (Some _) => true | _ => false end.

Definition is_ailake_file (r : AilakeFileReader) : bool :=
  match ailk_offset r with Ret (Ok _) => true | _ => false end.

Definition read_header_at_offset (r : AilakeFileReader) (offset : Z)
    : outcome AilakeError Header.AilakeHeader :=
  header_end ← Ret (ok_or (checked_add 64 offset HEADER_SIZE) NotAnAilakeFile);
  if decide (Zlen (r_bytes r) < header_end) then Ret (Err NotAnAilakeFile)
  else
    header_bytes ← or_panic (slice (r_bytes r) offset header_end);
    Ret (Header.from_bytes header_bytes).

Definition read_header (r : AilakeFileReader) : outcome AilakeError Header.AilakeHeader :=
  offset ← ailk_offset r; read_header_at_offset r offset.

Definition read_header_for_column (r : AilakeFileReader) (column : string)
    : outcome AilakeError Header.AilakeHeader :=
  offset ← ailk_offset_for_column r column; read_header_at_offset r offset.

(** [start + off .. + len] with both additions checked, bounds checked, sliced. *)
Definition checked_slice (r : AilakeFileReader) (start off len : Z)
    : outcome AilakeError bytes :=
  s ← Ret (ok_or (checked_add 64 start off) NotAnAilakeFile);
  e ← Ret (ok_or (checked_add 64 s len) NotAnAilakeFile);
  if decide (Zlen (r_bytes r) < e) then Ret (Err NotAnAilakeFile)
  else or_panic (slice (r_bytes r) s e).

(** [as_chunks::<4>] mapped through [f32::from_le_bytes]. *)
Fixpoint decode_f32s (n : nat) (bs : bytes) : vec32 :=
  match n with
  | O => []
  | S n => from_le (take 4 bs) :: decode_f32s n (drop 4 bs)
  end.

(** Decode the centroid block of a section whose header was read. *)
Definition decode_centroid_block (header : Header.AilakeHeader) (centroid_data : bytes)
    : AilakeResult Centroid :=
  let dim := Header.dim header in
  let bad := InvalidCentroidLength dim (Zlen centroid_data) in
  expected_len ← ok_or (v ← checked_mul 64 dim 4; checked_add 64 v 4) bad;
  if negb (Zlen centroid_data =? expected_len) then Err bad
  else
    Ok {| centroid_values := decode_f32s (Z.to_nat dim) centroid_data;
          centroid_radius := from_le (drop (Z.to_nat (dim * 4)) centroid_data);
          centroid_metric := Header.distance_metric header |}.

Definition get_centroid (r : AilakeFileReader) : outcome AilakeError Centroid :=
  ailk_start ← ailk_offset r;
  header ← read_header r;
  centroid_data ←
    checked_slice r ailk_start (Header.centroid_offset header) (Header.centroid_len header);
  Ret (decode_centroid_block header centroid_data).

Inductive AnyIndex : Type := AnyHnsw (i : HnswIndex) | AnyIvfPq (i : IvfPqIndex PQCodebook).
Definition any_node_count (i : AnyIndex) : Z :=
  match i with AnyHnsw i => hnsw_node_count i | AnyIvfPq i => ivf_node_count i end.

(** The header and the index bytes of a column's section. *)
Definition index_bytes_for_column (r : AilakeFileReader) (column : string)
    : outcome AilakeError (Header.AilakeHeader * bytes) :=
  ailk_start ← ailk_offset_for_column r column;
  header ← read_header_at_offset r ailk_start;
  b ← checked_slice r ailk_start (Header.hnsw_offset header) (Header.hnsw_len header);
  Ret (Ok (header, b)).

Definition finish_hnsw (header : Header.AilakeHeader) (idx : HnswIndex) : HnswIndex :=
  if decide (Header.precision header = F16) then quantize_to_f16 idx else idx.

(** [AilakeFileReader::load_index_for_column]. *)
Definition load_index_for_column (r : AilakeFileReader) (column : string)
    : outcome AilakeError HnswIndex :=
  '(header, b) ← index_bytes_for_column r column;
  idx ← Ret (hnsw_from_bytes b);
  Ret (Ok (finish_hnsw header idx)).

Definition load_index (r : AilakeFileReader) : outcome AilakeError HnswIndex :=
  load_index_for_column r (r_vector_column r).

Definition load_any_index_for_column (r : AilakeFileReader) (column : string)
    : outcome AilakeError AnyIndex :=
  '(header, b) ← index_bytes_for_column r column;
  if negb (Z.land (Header.flags header) FLAG_INDEX_IVF_PQ =? 0) then
    idx ← IvfPqSerializer.from_bytes ivf_deserialize_from b; Ret (Ok (AnyIvfPq idx))
  else
    idx ← Ret (hnsw_from_bytes b); Ret (Ok (AnyHnsw (finish_hnsw header idx))).

Definition load_any_index (r : AilakeFileReader) : outcome AilakeError AnyIndex :=
  load_any_index_for_column r (r_vector_column r).

(** The sums on [usize] are unchecked here: a release build wraps them. *)
Definition load_fts_blob (r : AilakeFileReader) : outcome AilakeError (option bytes) :=
  kv ← Ret (kv_metadata (r_bytes r) KV_FTS_OFFSET);
  match kv with
  | None => Ret (Ok None)
  | Some s =>
      fts_abs ← Ret (ok_or (parse_u64 s) FtsError);
      let header_end := wrap 64 (fts_abs + AILK_FTS_HEADER_SIZE) in
      if decide (Zlen (r_bytes r) < header_end) then Ret (Err FtsError)
      else
        hdr ← or_panic (slice (r_bytes r) fts_abs header_end);
        if negb (bool_decide (take 4 hdr = AILK_FTS_MAGIC)) then Ret (Err FtsError)
        else
          let blob_len := from_le (drop 8 hdr) in
          let blob_start := header_end in
          let blob_end := wrap 64 (blob_start + blob_len) in
          if decide (Zlen (r_bytes r) < blob_end) then Ret (Err FtsError)
          else
            blob ← or_panic (slice (r_bytes r) blob_start blob_end);
            Ret (Ok (Some blob))
  end.

Definition verify_integrity (r : AilakeFileReader) : outcome AilakeError unit :=
  header ← read_header r;
  index ← load_any_index r;
  parquet_count ← Ret (parquet_num_rows (r_bytes r));
  if negb (parquet_count =? any_node_count index) then
    Ret (Err (RowCountMismatch parquet_count (any_node_count index)))
  else if negb (parquet_count =? Header.record_count header) then
    Ret (Err (RowCountMismatch parquet_count (Header.record_count header)))
  else Ret (Ok tt).

End Writer.
