(* ===== verification/FileTheorems.v ===== *)
(** * Correctness of the AI-Lake file format

    What a file written by [ailake-file/src/writer.rs] contains, and what
    [ailake-file/src/reader.rs] finds in it: the layout of every writer, reading
    back every vector column of a multi-column file, the full-text section, the
    plain-Parquet view, the trailer bootstrap of single-pass files, and the one
    corrupted input on which a reader panics. *)

From S2P Require Import Prelude Core Footer IvfPq FileFormat.

(* ------------------------------------------------------------------ *)
(** ** Key-value metadata                                              *)
(* ------------------------------------------------------------------ *)

Lemma kv_find_cons key k v kvs :
  kv_find key ((k, v) :: kvs) = if decide (k = key) then Some v else kv_find key kvs.
Proof.
  unfold kv_find. cbn. case_decide; [done|].
  by destruct (list_find _ kvs) as [[? []]|].
Qed.

Lemma kv_find_skip key kvs kvs' :
  key ∉ kvs.*1 → kv_find key (kvs ++ kvs') = kv_find key kvs'.
Proof.
  induction kvs as [|[k v] kvs IH]; intros Hk; [done|].
  cbn in Hk. apply not_elem_of_cons in Hk as [? ?].
  cbn [app]. rewrite kv_find_cons, decide_False by done. auto.
Qed.

(** The entry the encoder adds is none of the format's own. *)
Lemma kv_find_without key kvs :
  key ≠ ARROW_SCHEMA_META_KEY → kv_find key (without_arrow_schema kvs) = kv_find key kvs.
Proof.
  intros Hne. unfold without_arrow_schema. induction kvs as [|[k v] kvs IH]; [done|].
  rewrite filter_cons, (kv_find_cons key k v kvs). cbn [fst]. case_decide as Hk.
  - rewrite kv_find_cons. by case_decide.
  - rewrite decide_False by congruence. exact IH.
Qed.

Lemma without_schema_id kvs :
  Forall (λ k, k ≠ ARROW_SCHEMA_META_KEY) kvs.*1 → without_arrow_schema kvs = kvs.
Proof.
  unfold without_arrow_schema. induction kvs as [|kv kvs IH]; [done|].
  cbn [fmap list_fmap]. intros [Hk Hks]%Forall_cons. rewrite filter_cons, decide_True by done.
  by rewrite IH.
Qed.

Lemma column_key_not_schema c : column_key c ≠ ARROW_SCHEMA_META_KEY.
Proof. done. Qed.
Lemma footer_key_not_schema : FOOTER_OFFSET_KEY ≠ ARROW_SCHEMA_META_KEY.
Proof. done. Qed.
Lemma fts_key_not_schema : KV_FTS_OFFSET ≠ ARROW_SCHEMA_META_KEY.
Proof. done. Qed.
#[export] Hint Resolve column_key_not_schema footer_key_not_schema fts_key_not_schema : core.

Lemma kv_find_None key kvs : key ∉ kvs.*1 → kv_find key kvs = None.
Proof. intros. rewrite <- (app_nil_r kvs), kv_find_skip by done. done. Qed.

Lemma string_length_app (s t : string) :
  String.length (s +:+ t) = (String.length s + String.length t)%nat.
Proof. rewrite <- !as_bytes_length, as_bytes_app. apply length_app. Qed.

Lemma column_key_length x : String.length (column_key x) = (21 + String.length x)%nat.
Proof. unfold column_key. rewrite !string_length_app. cbn. lia. Qed.

Lemma column_key_inj x y : column_key x = column_key y → x = y.
Proof.
  unfold column_key. intros H. apply (f_equal as_bytes) in H.
  rewrite !as_bytes_app in H. apply app_inv_head, app_inv_tail in H. by apply as_bytes_inj.
Qed.

Lemma column_key_not_footer x : column_key x ≠ FOOTER_OFFSET_KEY.
Proof. intros H%(f_equal String.length). rewrite column_key_length in H. cbn in H. lia. Qed.

Lemma column_key_not_fts x : column_key x ≠ KV_FTS_OFFSET.
Proof. intros H%(f_equal String.length). rewrite column_key_length in H. cbn in H. lia. Qed.

Lemma column_key_not_version x : column_key x ≠ "ailake.format_version".
Proof.
  intros H. pose proof (f_equal String.length H) as Hl. rewrite column_key_length in Hl.
  cbn in Hl. destruct x; [by vm_compute in H|cbn in Hl; lia].
Qed.

(** Each of the writer's own keys is distinct from every key the readers look up. *)
Lemma base_kv_keys p n key :
  (∃ x, key = column_key x) ∨ key = FOOTER_OFFSET_KEY ∨ key = KV_FTS_OFFSET →
  key ∉ (base_kv p n).*1.
Proof.
  intros Hk Hin.
  assert (Hs : key = "ailake.format_version" ∨
               (String.length key < 21)%nat ∧ key ≠ FOOTER_OFFSET_KEY ∧ key ≠ KV_FTS_OFFSET).
  { unfold base_kv in Hin. destruct (keep_raw_for_reranking p); cbn in Hin; set_unfold in Hin;
      destruct_or! Hin; subst; auto; right; cbn; split_and!; (lia || done). }
  destruct Hk as [[x ->]|[->| ->]], Hs as [Hs|(Hs & ? & ?)]; try done.
  - by apply column_key_not_version in Hs.
  - rewrite column_key_length in Hs. lia.
Qed.

(* ------------------------------------------------------------------ *)
(** ** Layout of a section                                             *)
(* ------------------------------------------------------------------ *)

Section Layout.
Context `{PL : ParquetLib} `{IL : !IndexLib}.

(** What the writer computed for a column: centroid, index bytes, flags. *)
Abbreviation payload := (Centroid * bytes * Z)%type.

Definition section_of (n off : Z) (cp : VectorColumnBatch * payload) : bytes :=
  let '(col, (c, idx, flags)) := cp in
  assemble_section (col_policy col) n off (encode_centroid c) idx flags.

Definition section_len (cp : VectorColumnBatch * payload) : Z :=
  let '(_, (c, idx, _)) := cp in
  HEADER_SIZE + Zlen (encode_centroid c) + Zlen idx + TRAILER_SIZE.

Definition header_of (n : Z) (cp : VectorColumnBatch * payload) : Header.AilakeHeader :=
  let '(col, (c, idx, flags)) := cp in
  section_header (col_policy col) n (encode_centroid c) idx flags.

Lemma section_of_length n off cp : Zlen (section_of n off cp) = section_len cp.
Proof.
  destruct cp as [col [[c idx] flags]]. unfold section_of, section_len, assemble_section.
  rewrite !length_app, !Nat2Z.inj_add, header_length, trailer_length. lia.
Qed.

(** The sections one after the other, and the offsets they start at. *)
Fixpoint sections_from (n off : Z) (cps : list (VectorColumnBatch * payload)) : list bytes :=
  match cps with
  | [] => []
  | cp :: cps => section_of n off cp :: sections_from n (off + section_len cp) cps
  end.

Lemma sections_from_app n off cps cps' :
  sections_from n off (cps ++ cps') =
  sections_from n off cps ++ sections_from n (off + sum_by section_len cps) cps'.
Proof.
  revert off. induction cps as [|cp cps IH]; intros off; cbn.
  - f_equal. lia.
  - rewrite IH. do 3 f_equal. lia.
Qed.

Lemma sections_from_length n off cps :
  Zlen (mjoin (sections_from n off cps)) = sum_by section_len cps.
Proof.
  revert off. induction cps as [|cp cps IH]; intros off; [done|].
  cbn [sections_from sum_by]. rewrite mjoin_cons, length_app, Nat2Z.inj_add, IH.
  by rewrite section_of_length.
Qed.

(** The key-value pairs the column loop records. *)
Definition kv_key_of (i : nat) (col : VectorColumnBatch) : string :=
  match i with O => FOOTER_OFFSET_KEY | S _ => column_key (column_name (col_policy col)) end.

Fixpoint kvs_from (i : nat) (off : Z) (cps : list (VectorColumnBatch * payload))
    : list (string * string) :=
  match cps with
  | [] => []
  | cp :: cps => (kv_key_of i cp.1, to_string off) :: kvs_from (S i) (off + section_len cp) cps
  end.

Lemma kvs_from_app i off cps cps' :
  kvs_from i off (cps ++ cps') =
  kvs_from i off cps ++ kvs_from (i + length cps) (off + sum_by section_len cps) cps'.
Proof.
  revert i off. induction cps as [|cp cps IH]; intros i off; cbn.
  - f_equal; lia.
  - rewrite IH. do 3 f_equal; lia.
Qed.

Lemma kvs_from_keys i off cps key :
  key ∈ (kvs_from i off cps).*1 →
  (i = 0%nat ∧ key = FOOTER_OFFSET_KEY) ∨
  ∃ j cp, cps !! j = Some cp ∧ (i + j ≠ 0)%nat ∧
          key = column_key (column_name (col_policy cp.1)).
Proof.
  revert i off. induction cps as [|cp cps IH]; intros i off; cbn.
  - by intros ?%elem_of_nil.
  - intros [Hk|Hk]%elem_of_cons.
    + destruct i as [|i]; [by left|]. right. exists 0%nat, cp. split_and!; [done|lia|done].
    + right. apply IH in Hk as [[? _]|(j & cp' & ? & ? & ?)]; [done|].
      exists (S j), cp'. split_and!; [done|lia|done].
Qed.

Lemma kvs_from_later_keys i off (cols : list VectorColumnBatch) (pls : list payload) :
  length pls = length cols →
  (kvs_from (S i) off (zip cols pls)).*1 = column_key ∘ column_name ∘ col_policy <$> cols.
Proof.
  revert i off pls. induction cols as [|c cols IH]; intros i off [|pl pls] Hl; try done.
  cbn in *. f_equal. apply IH. lia.
Qed.

(** The payload of a column exists. *)
Definition has_payload (w : AilakeFileWriter) (col : VectorColumnBatch) (pl : payload) : Prop :=
  section_payload (col_policy col) (col_embeddings col) (w_index_type w) (w_shared_codebook w)
  = Ok pl.

Lemma build_ailk_section_spec w n off col s :
  build_ailk_section (col_policy col) (col_embeddings col) n off
    (w_index_type w) (w_shared_codebook w) = Ok s ↔
  ∃ pl, has_payload w col pl ∧ s = section_of n off (col, pl).
Proof.
  unfold build_ailk_section, has_payload. rewrite bind_Ok. split.
  - intros ([[c idx] fl] & ? & [=<-]). by exists (c, idx, fl).
  - intros ([[c idx] fl] & ? & ->). by exists (c, idx, fl).
Qed.

(** The loop of [write_multi] lays the sections out in column order. *)
Lemma write_multi_loop w n cols ss kvs off st :
  try_fold (write_multi_step w n) (ss, kvs, off) cols = Ok st →
  ∃ pls, Forall2 (has_payload w) cols pls ∧
    st = (ss ++ sections_from n off (zip cols pls),
          kvs ++ kvs_from (length kvs) off (zip cols pls),
          off + sum_by section_len (zip cols pls)).
Proof.
  revert ss kvs off. induction cols as [|col cols IH]; intros ss kvs off; cbn [try_fold].
  - intros [=<-]. exists []. split; [constructor|]. cbn. by rewrite !app_nil_r, Z.add_0_r.
  - unfold write_multi_step at 1.
    destruct (build_ailk_section _ _ _ _ _ _) as [s|e] eqn:Hs; [|done]. cbn [mbind result_bind].
    apply build_ailk_section_spec in Hs as (pl & Hpl & ->). intros Hst.
    apply IH in Hst as (pls & Hpls & ->). exists (pl :: pls). split; [by constructor|].
    cbn [zip zip_with sections_from kvs_from sum_by]. rewrite section_of_length, length_app.
    cbn [length app]. rewrite <- !app_assoc. cbn [app]. rewrite Nat.add_1_r, Z.add_assoc.
    by destruct kvs.
Qed.

Lemma single_pass_loop w n cols ss off st :
  try_fold (single_pass_step w n) (ss, off) cols = Ok st →
  ∃ pls, Forall2 (has_payload w) cols pls ∧
    st = (ss ++ sections_from n off (zip cols pls), off + sum_by section_len (zip cols pls)).
Proof.
  revert ss off. induction cols as [|col cols IH]; intros ss off; cbn [try_fold].
  - intros [=<-]. exists []. split; [constructor|]. cbn. by rewrite app_nil_r, Z.add_0_r.
  - unfold single_pass_step at 1.
    destruct (build_ailk_section _ _ _ _ _ _) as [s|e] eqn:Hs; [|done]. cbn [mbind result_bind].
    apply build_ailk_section_spec in Hs as (pl & Hpl & ->). intros Hst.
    apply IH in Hst as (pls & Hpls & ->). exists (pl :: pls). split; [by constructor|].
    cbn [zip zip_with sections_from sum_by]. rewrite section_of_length.
    rewrite <- !app_assoc. cbn [app]. by rewrite Z.add_assoc.
Qed.

End Layout.

(* ------------------------------------------------------------------ *)
(** ** Reading one section back                                        *)
(* ------------------------------------------------------------------ *)

Section ReadSection.
Context `{PL : ParquetLib} `{IL : !IndexLib}.

Lemma ok_or_checked_add a b (e : AilakeError) :
  a + b < 2 ^ 64 → ok_or (checked_add 64 a b) e = Ok (a + b).
Proof. intros. unfold checked_add. by rewrite decide_True. Qed.

(** A checked slice that falls exactly on a block of the file. *)
Lemma checked_slice_block r pre mid post start off len :
  r_bytes r = pre ++ mid ++ post → Zlen (r_bytes r) < 2 ^ 64 →
  start + off = Zlen pre → len = Zlen mid →
  checked_slice r start off len = Ret (Ok mid).
Proof.
  intros Hr Hlt Hs ->. unfold checked_slice. rewrite Hr in *.
  rewrite !length_app, !Nat2Z.inj_add in Hlt.
  rewrite ok_or_checked_add by lia. cbn [mbind outcome_bind].
  rewrite ok_or_checked_add by lia. cbn [mbind outcome_bind].
  rewrite decide_False by (rewrite !length_app; lia).
  by rewrite slice_mid by lia.
Qed.

Lemma read_header_block r pre h post off :
  r_bytes r = pre ++ Header.to_bytes h ++ post → Zlen (r_bytes r) < 2 ^ 64 →
  Header.wf h → Header.format_version h = AILAKE_FORMAT_VERSION → off = Zlen pre →
  read_header_at_offset r off = Ret (Ok h).
Proof.
  intros Hr Hlt Hwf Hv ->. unfold read_header_at_offset. rewrite Hr in *.
  pose proof (header_length h) as Hh.
  rewrite !length_app, !Nat2Z.inj_add in Hlt.
  rewrite ok_or_checked_add by lia. cbn [mbind outcome_bind].
  rewrite decide_False by (rewrite !length_app; lia).
  rewrite slice_mid by lia. cbn [or_panic mbind outcome_bind].
  rewrite header_bytes_roundtrip, Hv by done. done.
Qed.

(** The header written for a column fits its machine types. *)
Definition column_ok (n : Z) (cp : VectorColumnBatch * (Centroid * bytes * Z)) : Prop :=
  fits 32 (policy_dim (col_policy cp.1)) ∧ fits 64 n ∧ fits 16 (cp.2.2).

Lemma header_of_wf n cp : column_ok n cp → section_len cp < 2 ^ 64 → Header.wf (header_of n cp).
Proof.
  destruct cp as [col [[c idx] fl]]. unfold column_ok, section_len, HEADER_SIZE, TRAILER_SIZE.
  cbn. intros (Hd & Hn & Hf) Hl. unfold Header.wf, section_header, HEADER_SIZE; cbn.
  split_and!; try done; unfold fits; lia.
Qed.

(** Header, centroid block and index bytes of a section at [off] are read back
    as they were written. *)
Lemma read_section_back r pre post n off col c idx fl :
  r_bytes r = pre ++ section_of n off (col, (c, idx, fl)) ++ post →
  Zlen (r_bytes r) < 2 ^ 64 → column_ok n (col, (c, idx, fl)) → off = Zlen pre →
  let h := header_of n (col, (c, idx, fl)) in
  read_header_at_offset r off = Ret (Ok h) ∧
  checked_slice r off (Header.centroid_offset h) (Header.centroid_len h)
    = Ret (Ok (encode_centroid c)) ∧
  checked_slice r off (Header.hnsw_offset h) (Header.hnsw_len h) = Ret (Ok idx).
Proof.
  intros Hr Hlt Hok ->. cbv zeta.
  assert (Hwf : Header.wf (header_of n (col, (c, idx, fl)))).
  { apply header_of_wf; [done|]. rewrite <- (section_of_length n (Zlen pre)).
    rewrite Hr, !length_app in Hlt. lia. }
  cbn [section_of] in Hr. unfold assemble_section in Hr. cbv zeta in Hr.
  rewrite <- !app_assoc in Hr. cbn [header_of] in *.
  set (h := section_header _ _ _ _ _) in *. pose proof (header_length h) as Hh.
  split_and!.
  - by eapply read_header_block.
  - rewrite app_assoc in Hr. eapply checked_slice_block; [exact Hr|done| |done].
    rewrite length_app. subst h. cbn in *. lia.
  - rewrite app_assoc in Hr. rewrite (app_assoc _ (encode_centroid c)) in Hr.
    eapply checked_slice_block; [exact Hr|done| |done].
    rewrite !length_app. subst h. cbn in *. lia.
Qed.

Lemma decode_encode_f32s vs rest :
  Forall (fits 32) vs → decode_f32s (length vs) (mjoin (to_le 4 <$> vs) ++ rest) = vs.
Proof.
  induction 1 as [|v vs Hv Hvs IH]; [done|].
  rewrite fmap_cons, mjoin_cons. cbn [length decode_f32s]. rewrite <- app_assoc.
  rewrite take_app_length' by (by rewrite to_le_length).
  rewrite drop_app_length' by (by rewrite to_le_length).
  by rewrite IH, from_to_le.
Qed.

Lemma encode_f32s_length vs : Zlen (mjoin (to_le 4 <$> vs)) = 4 * Zlen vs.
Proof.
  induction vs as [|v vs IH]; [done|]. rewrite fmap_cons, mjoin_cons, length_app, to_le_length.
  cbn [length]. lia.
Qed.

(** The centroid of a section: its values and radius come back bit for bit, with
    the header's metric; a centroid whose length is not the policy's dimension is
    refused with [InvalidCentroidLength]. *)
Lemma decode_centroid_back n col c idx fl :
  fits 32 (policy_dim (col_policy col)) →
  Forall (fits 32) (centroid_values c) → fits 32 (centroid_radius c) →
  decode_centroid_block (header_of n (col, (c, idx, fl))) (encode_centroid c) =
  if Zlen (centroid_values c) =? policy_dim (col_policy col) then
    Ok {| centroid_values := centroid_values c; centroid_radius := centroid_radius c;
          centroid_metric := policy_metric (col_policy col) |}
  else Err (InvalidCentroidLength (policy_dim (col_policy col)) (Zlen (encode_centroid c))).
Proof.
  intros Hd Hv Hrad. unfold decode_centroid_block, header_of.
  cbn [Header.dim Header.distance_metric section_header].
  set (d := policy_dim _) in *. unfold fits in Hd.
  unfold checked_mul. rewrite decide_True by lia. cbn [mbind option_bind].
  unfold checked_add. rewrite decide_True by lia. cbn [ok_or mbind result_bind].
  assert (Hl : Zlen (encode_centroid c) = 4 * Zlen (centroid_values c) + 4).
  { unfold encode_centroid. rewrite length_app, Nat2Z.inj_add, encode_f32s_length, to_le_length. lia. }
  destruct (Z.eqb_spec (Zlen (centroid_values c)) d) as [Hcd|Hcd].
  - replace (Zlen (encode_centroid c) =? d * 4 + 4) with true by lia. cbn [negb].
    do 2 f_equal; unfold encode_centroid.
    + rewrite <- Hcd, Nat2Z.id. by apply decode_encode_f32s.
    + rewrite drop_app_length' by (pose proof (encode_f32s_length (centroid_values c)); lia).
      by apply from_to_le.
  - by replace (Zlen (encode_centroid c) =? d * 4 + 4) with false by lia.
Qed.

End ReadSection.

(* ------------------------------------------------------------------ *)
(** ** Whole files                                                     *)
(* ------------------------------------------------------------------ *)

Section Files.
Context `{PL : ParquetLib} `{IL : !IndexLib} `{LW : !ParquetLaws PL}.

(** The footer length fits the four bytes Parquet has for it. *)
Definition footer_fits p b e kv : Prop := fits 32 (Zlen (footer_thrift p b e kv)).

Lemma write_batch_layout p b e kv f n :
  write_batch_with_kv p b e kv = Ok (f, n) →
  n = num_rows b ∧ f = row_groups p b e ++ parquet_tail p b e (base_kv p (num_rows b) ++ kv) ∧
  footer_fits p b e (base_kv p (num_rows b) ++ kv).
Proof.
  unfold write_batch_with_kv. destruct (negb _); [done|].
  rewrite bind_Ok. intros (buf & Hbuf & [= <- <-]). by apply arrow_write_layout in Hbuf.
Qed.

Lemma footer_start_of_tail pre p b e kv :
  footer_fits p b e kv → parquet_footer_start (pre ++ parquet_tail p b e kv) = Ok (Zlen pre).
Proof. apply parquet_footer_start_tail. Qed.

(** The shape of every AI-Lake file: row groups, sections, full-text section,
    Parquet footer. *)
Definition file_layout p b e cps (fts : bytes) kv : bytes :=
  row_groups p b e ++
  mjoin (sections_from (num_rows b) (Zlen (row_groups p b e)) cps) ++
  fts ++ parquet_tail p b e kv.

(** The key-value pairs of the second pass. *)
Definition file_kvs p b e cps (fts : option bytes) : list (string * string) :=
  let start := Zlen (row_groups p b e) in
  base_kv p (num_rows b) ++ kvs_from 0 start cps ++
  match fts with
  | Some _ => [(KV_FTS_OFFSET, to_string (start + sum_by section_len cps))]
  | None => []
  end.

Lemma write_multi_layout w b primary rest f :
  write_multi w b (primary :: rest) = Ok f →
  ∃ pls, Forall2 (has_payload w) (primary :: rest) pls ∧
    let p := col_policy primary in let e := col_embeddings primary in
    let cps := zip (primary :: rest) pls in
    let kvs := file_kvs p b e cps (fts_section w b) in
    f = file_layout p b e cps (default [] (fts_section w b)) kvs ∧ footer_fits p b e kvs.
Proof.
  unfold write_multi. rewrite bind_Ok. intros ([v1 n] & H1 & Hf).
  apply write_batch_layout in H1 as (-> & -> & Hfit).
  rewrite footer_start_of_tail in Hf by done. cbn [mbind result_bind] in Hf.
  apply bind_Ok in Hf as ([[ss kvs] off] & Hloop & Hf).
  apply write_multi_loop in Hloop as (pls & Hpls & [= -> -> ->]).
  apply bind_Ok in Hf as ([v2 n2] & H2 & Hf). apply write_batch_layout in H2 as (-> & -> & Hfit2).
  rewrite footer_start_of_tail in Hf by done. cbn [mbind result_bind] in Hf. injection Hf as <-.
  exists pls. split; [done|]. cbv zeta. unfold file_layout.
  rewrite !Nat2Z.id, take_app_length, drop_app_length.
  clear Hfit. set (kvs := base_kv _ _ ++ _) in *. assert (kvs = file_kvs (col_policy primary) b
    (col_embeddings primary) (zip (primary :: rest) pls) (fts_section w b)) as <-; [|done].
  subst kvs. unfold file_kvs. f_equal. cbn [app length].
  destruct (fts_section w b); [done|]. by rewrite app_nil_r.
Qed.

Lemma write_multi_single_pass_layout w b primary rest f :
  write_multi_single_pass w b (primary :: rest) = Ok f →
  ∃ pls, Forall2 (has_payload w) (primary :: rest) pls ∧
    let p := col_policy primary in let e := col_embeddings primary in
    f = file_layout p b e (zip (primary :: rest) pls) [] (base_kv p (num_rows b)) ∧
    footer_fits p b e (base_kv p (num_rows b)).
Proof.
  unfold write_multi_single_pass. rewrite bind_Ok. intros ([v1 n] & H1 & Hf).
  apply write_batch_layout in H1 as (-> & -> & Hfit). rewrite app_nil_r in *.
  rewrite footer_start_of_tail in Hf by done. cbn [mbind result_bind] in Hf.
  apply bind_Ok in Hf as ([ss off] & Hloop & Hf).
  apply single_pass_loop in Hloop as (pls & Hpls & [= -> ->]). injection Hf as <-.
  exists pls. split; [done|]. cbv zeta. unfold file_layout.
  by rewrite !Nat2Z.id, take_app_length, drop_app_length.
Qed.

(** What a Parquet reader finds under a key of the format, whatever precedes the
    footer. *)
Lemma kv_metadata_tail body p b e kv key :
  footer_fits p b e kv → key ≠ ARROW_SCHEMA_META_KEY →
  kv_metadata (body ++ parquet_tail p b e kv) key = Ok (kv_find key kv).
Proof.
  intros Hfit Hne. destruct (parquet_kvs_tail body p b e kv Hfit) as (kvs & Hkvs & Hsame).
  unfold kv_metadata. rewrite Hkvs. cbn [mbind result_bind].
  by rewrite <- (kv_find_without key kvs), Hsame, kv_find_without.
Qed.

Lemma file_layout_kv r p b e cps fts kv key :
  r_bytes r = file_layout p b e cps fts kv → footer_fits p b e kv → key ≠ ARROW_SCHEMA_META_KEY →
  kv_metadata (r_bytes r) key = Ok (kv_find key kv).
Proof. intros ->. unfold file_layout. rewrite !app_assoc. apply kv_metadata_tail. Qed.

(** A section of a file, isolated. *)
Lemma file_layout_section p b e before cp after fts kv :
  let off := Zlen (row_groups p b e) + sum_by section_len before in
  ∃ pre post, file_layout p b e (before ++ cp :: after) fts kv
              = pre ++ section_of (num_rows b) off cp ++ post ∧ Zlen pre = off.
Proof.
  cbv zeta. unfold file_layout. rewrite sections_from_app. cbn [sections_from].
  set (off := Zlen _ + sum_by _ _).
  exists (row_groups p b e ++ mjoin (sections_from (num_rows b) (Zlen (row_groups p b e)) before)),
    (mjoin (sections_from (num_rows b) (off + section_len cp) after) ++ fts ++ parquet_tail p b e kv).
  rewrite join_app, mjoin_cons, <- !app_assoc. split; [done|].
  rewrite length_app, Nat2Z.inj_add, sections_from_length. done.
Qed.

Lemma parse_to_string_offset z : fits 64 z → parse_offset (to_string z) = Ok z.
Proof. intros Hz. unfold parse_offset. by rewrite parse_u64_to_string. Qed.

(** The name of a written column. *)
Definition name_of (cp : VectorColumnBatch * (Centroid * bytes * Z)) : string :=
  column_name (col_policy cp.1).

(** The lookups a reader does for the [i]-th column. *)
Lemma file_kvs_column p b e before cp after fts :
  NoDup (name_of <$> (before ++ cp :: after)) →
  let kvs := file_kvs p b e (before ++ cp :: after) fts in
  let off := to_string (Zlen (row_groups p b e) + sum_by section_len before) in
  match before with
  | [] => kv_find (column_key (column_name (col_policy cp.1))) kvs = None ∧
          kv_find FOOTER_OFFSET_KEY kvs = Some off
  | _ => kv_find (column_key (column_name (col_policy cp.1))) kvs = Some off
  end.
Proof.
  intros Hnd. cbv zeta. unfold file_kvs. set (k := column_key _).
  rewrite fmap_app, fmap_cons in Hnd. apply NoDup_app in Hnd as (_ & Hb & Ha).
  apply NoDup_cons in Ha as [Ha _].
  rewrite (kv_find_skip k) by (apply base_kv_keys; eauto). rewrite kvs_from_app.
  set (start := Zlen _). destruct before as [|cp0 before].
  - split.
    + rewrite kv_find_None; [done|]. rewrite fmap_app. intros [Hk|Hk]%elem_of_app.
      * apply kvs_from_keys in Hk as [[_ Hk]|(j & cp' & Hj & Hne & Hk)];
          [by apply column_key_not_footer in Hk|].
        apply column_key_inj in Hk. destruct j as [|j]; [cbn in Hne; lia|]. apply Ha.
        change (name_of cp = name_of cp') in Hk. rewrite Hk.
        by eapply list_elem_of_fmap_2, list_elem_of_lookup_2.
      * destruct fts; cbn in Hk; set_unfold in Hk; [|done].
        destruct Hk as [Hk|]; [by apply column_key_not_fts in Hk|done].
    + rewrite kv_find_skip by (apply base_kv_keys; auto). cbn [kvs_from app length sum_by kv_key_of].
      by rewrite kv_find_cons, decide_True.
  - rewrite <- app_assoc, kv_find_skip.
    + cbn [kvs_from app kv_key_of length Nat.add].
      by rewrite kv_find_cons, decide_True.
    + intros Hk. apply kvs_from_keys in Hk as [[_ Hk]|(j & cp' & Hj & Hne & Hk)];
        [by apply column_key_not_footer in Hk|].
      apply column_key_inj in Hk. change (name_of cp = name_of cp') in Hk.
      eapply Hb; [|by left]. rewrite Hk. by eapply list_elem_of_fmap_2, list_elem_of_lookup_2.
Qed.

Lemma payload_flags w col c idx fl : has_payload w col (c, idx, fl) → fl = 0 ∨ fl = FLAG_INDEX_IVF_PQ.
Proof.
  unfold has_payload, section_payload. destruct (effective_vectors _ _) as [es m].
  rewrite bind_Ok. intros ([idx' fl'] & Hb & [= _ _ <-]). revert Hb. unfold build_index.
  destruct (resolve_index_type _ _ _); [| |done]; rewrite bind_Ok; intros (? & _ & [= _ <-]); auto.
Qed.

(** The offset found for the [i]-th column is where its section starts. *)
Lemma column_offset_found r p b e before cp after fts :
  r_bytes r = file_layout p b e (before ++ cp :: after) (default [] fts)
                (file_kvs p b e (before ++ cp :: after) fts) →
  footer_fits p b e (file_kvs p b e (before ++ cp :: after) fts) →
  Zlen (r_bytes r) < 2 ^ 64 →
  NoDup (name_of <$> (before ++ cp :: after)) →
  let off := Zlen (row_groups p b e) + sum_by section_len before in
  ailk_offset_for_column r (column_name (col_policy cp.1)) = Ret (Ok off) ∧
  (before = [] → ailk_offset r = Ret (Ok off)).
Proof.
  intros Hr Hfit Hlt Hnd. cbv zeta. set (off := Zlen _ + _).
  destruct (file_layout_section p b e before cp after (default [] fts)
              (file_kvs p b e (before ++ cp :: after) fts)) as (pre & post & Hpre & Hoff).
  assert (Ho : parse_offset (to_string off) = Ok off).
  { apply parse_to_string_offset. rewrite Hr, Hpre, length_app in Hlt. unfold fits. lia. }
  pose proof (file_kvs_column p b e before cp after fts Hnd) as Hk.
  cbv zeta in Hk. fold off in Hk. clearbody off.
  unfold ailk_offset_for_column, ailk_offset.
  rewrite !(file_layout_kv r _ _ _ _ _ _ _ Hr Hfit) by auto. cbn [mbind outcome_bind].
  destruct before as [|cp0 before].
  - destruct Hk as [Hk1 Hk2]. rewrite Hk1, Hk2. by rewrite Ho.
  - rewrite Hk. split; [by rewrite Ho|done].
Qed.

End Files.

(* ------------------------------------------------------------------ *)
(** ** Full-text section and trailer                                   *)
(* ------------------------------------------------------------------ *)

Section FtsAndTrailer.
Context `{PL : ParquetLib} `{IL : !IndexLib} `{LW : !ParquetLaws PL}.

Lemma file_kvs_fts p b e cps fts :
  kv_find KV_FTS_OFFSET (file_kvs p b e cps fts) =
  match fts with
  | Some _ => Some (to_string (Zlen (row_groups p b e) + sum_by section_len cps))
  | None => None
  end.
Proof.
  unfold file_kvs. rewrite kv_find_skip by (apply base_kv_keys; auto).
  rewrite kv_find_skip.
  - destruct fts; [|done]. by rewrite kv_find_cons, decide_True.
  - intros Hk. apply kvs_from_keys in Hk as [[_ Hk]|(j & cp & _ & _ & Hk)]; [done|].
    by apply (eq_sym (x:=_)) in Hk; apply column_key_not_fts in Hk.
Qed.

Lemma fts_section_Some w b sec :
  fts_section w b = Some sec →
  ∃ blob, sec = AILK_FTS_MAGIC ++ to_le 2 1 ++ to_le 2 0 ++ to_le 8 (Zlen blob) ++ blob ∧
    match w_prebuilt_fts_blob w with
    | Some pre => blob = pre
    | None => ∃ cfg, w_fts_config w = Some cfg ∧ build_fts_blob_from_batch cfg b = Ok blob
    end.
Proof.
  unfold fts_section. destruct (w_prebuilt_fts_blob w) as [pre|].
  - intros [= <-]. by exists pre.
  - destruct (w_fts_config w) as [cfg|]; [|done]. cbn.
    destruct (build_fts_blob_from_batch cfg b) as [blob|] eqn:Hb; [|done].
    cbn. intros [= <-]. eauto 10.
Qed.

(** A full-text section lying at its recorded offset is read back. *)
Lemma load_fts_blob_block r pre blob post off :
  r_bytes r = pre ++ (AILK_FTS_MAGIC ++ to_le 2 1 ++ to_le 2 0 ++ to_le 8 (Zlen blob) ++ blob) ++ post →
  Zlen (r_bytes r) < 2 ^ 64 → off = Zlen pre →
  kv_metadata (r_bytes r) KV_FTS_OFFSET = Ok (Some (to_string off)) →
  load_fts_blob r = Ret (Ok (Some blob)).
Proof.
  intros Hr Hlt -> Hkv. unfold load_fts_blob. rewrite Hkv. cbn [mbind outcome_bind].
  set (hdr := AILK_FTS_MAGIC ++ to_le 2 1 ++ to_le 2 0 ++ to_le 8 (Zlen blob)).
  assert (Hh : Zlen hdr = AILK_FTS_HEADER_SIZE) by (subst hdr; unfold AILK_FTS_MAGIC, AILK_FTS_HEADER_SIZE; len).
  assert (Hr1 : r_bytes r = pre ++ hdr ++ blob ++ post) by (rewrite Hr; subst hdr; by rewrite <- !app_assoc).
  assert (Hl : Zlen (r_bytes r) = Zlen pre + 16 + Zlen blob + Zlen post).
  { rewrite Hr1, !length_app, !Nat2Z.inj_add, Hh. unfold AILK_FTS_HEADER_SIZE. lia. }
  rewrite parse_u64_to_string by (unfold fits; lia). cbn [ok_or mbind outcome_bind].
  unfold AILK_FTS_HEADER_SIZE in *. rewrite (wrap_id 64 (_ + 16)) by (unfold fits; lia).
  rewrite decide_False by lia. rewrite Hr1, slice_mid by lia.
  cbn [or_panic mbind outcome_bind].
  rewrite bool_decide_eq_true_2 by done. cbn [negb].
  assert (Hd : from_le (drop 8 hdr) = Zlen blob).
  { subst hdr. rewrite !app_assoc, drop_app_length' by (rewrite !length_app, !to_le_length; done).
    apply from_to_le. unfold fits. lia. }
  rewrite Hd, (wrap_id 64 (_ + _ + _)) by (unfold fits; lia).
  rewrite <- Hr1, decide_False by lia. rewrite Hr1, app_assoc.
  by rewrite slice_mid by (rewrite length_app; lia).
Qed.

(** The trailer just before the Parquet footer is the last section's. *)
Lemma trailer_bootstrap r p b e before cp kv :
  r_bytes r = file_layout p b e (before ++ [cp]) [] kv → footer_fits p b e kv →
  Zlen (r_bytes r) < 2 ^ 64 → fits 16 (cp.2.2) →
  ailk_offset_from_trailer r = Ret (Ok (Zlen (row_groups p b e) + sum_by section_len before)).
Proof.
  intros Hr Hfit Hlt Hfl. unfold ailk_offset_from_trailer.
  destruct (file_layout_section p b e before cp [] [] kv) as (pre & post & Hpre & Hoff).
  assert (Hfs : parquet_footer_start (r_bytes r) = Ok (Zlen pre + section_len cp)).
  { rewrite Hr. unfold file_layout. rewrite !app_assoc, footer_start_of_tail by done.
    rewrite !length_app, !Nat2Z.inj_add, sections_from_length, sum_by_app, Hoff.
    cbn [sum_by length]. f_equal. lia. }
  rewrite Hfs. cbn [mbind outcome_bind].
  rewrite Hpre in Hr. destruct cp as [col [[c idx] fl]].
  pose proof (section_of_length (num_rows b) (Zlen (row_groups p b e) + sum_by section_len before)
    (col, (c, idx, fl))) as Hsl.
  rewrite decide_False by (unfold section_len, HEADER_SIZE, TRAILER_SIZE; lia).
  cbn [section_of] in Hr. unfold assemble_section in Hr. cbv zeta in Hr.
  rewrite <- !app_assoc in Hr. rewrite (app_assoc _ idx), (app_assoc _ _ (Trailer.to_bytes _ ++ _)) in Hr.
  set (t := {| Trailer.footer_offset := _ |}) in Hr. rewrite app_assoc in Hr.
  pose proof (trailer_length t) as Ht.
  rewrite Hr, slice_mid.
  - cbn [or_panic mbind outcome_bind]. rewrite trailer_bytes_roundtrip; [done|].
    rewrite Hr, !length_app, !Nat2Z.inj_add, header_length, Ht in Hlt.
    clear Hr Hfs Hsl Hpre. unfold Trailer.wf, t. cbn [Trailer.footer_offset Trailer.footer_len
      Trailer.format_version Trailer.flags]. unfold fits, HEADER_SIZE, TRAILER_SIZE,
      AILAKE_FORMAT_VERSION in *. cbn [snd] in Hfl. split_and!; lia.
  - rewrite !length_app, !Nat2Z.inj_add, header_length. unfold section_len. lia.
  - rewrite !length_app, !Nat2Z.inj_add, header_length, Ht. unfold section_len. lia.
Qed.

End FtsAndTrailer.

(* ------------------------------------------------------------------ *)
(** ** No panic on corrupted input                                     *)
(* ------------------------------------------------------------------ *)

Section NoPanic.
Context `{PL : ParquetLib} `{IL : !IndexLib}.
Implicit Types r : AilakeFileReader.

Lemma bind_no_panic {A B} (m : outcome AilakeError A) (k : A → outcome AilakeError B) :
  m ≠ Panic → (∀ a, m = Ret (Ok a) → k a ≠ Panic) → (m ≫= k) ≠ Panic.
Proof. destruct m as [[a|e]|]; cbn; auto. Qed.

Lemma digits_from_nonneg max acc s z : 0 ≤ acc → digits_from max acc s = Some z → 0 ≤ z.
Proof.
  revert acc. induction s as [|c s IH]; cbn; intros acc Ha; [by intros [=<-]|].
  destruct (digit_value c) as [d|] eqn:Hd; [|done]. case_decide; [|done].
  apply IH. unfold digit_value in Hd. case_decide; [|done]. injection Hd as <-. lia.
Qed.

Lemma parse_u64_nonneg s z : parse_u64 s = Some z → 0 ≤ z.
Proof.
  unfold parse_u64, parse_unsigned. destruct s as [|c rest]; [done|].
  case_decide; [destruct rest; [done|]|]; apply digits_from_nonneg; lia.
Qed.

(** An offset that comes out of a lookup. *)
Definition nonneg_or_err (o : outcome AilakeError Z) : Prop :=
  o ≠ Panic ∧ ∀ z, o = Ret (Ok z) → 0 ≤ z.

Lemma parse_offset_nonneg s : nonneg_or_err (Ret (parse_offset s)).
Proof.
  split; [done|]. unfold parse_offset. intros z. destruct (parse_u64 s) eqn:E; [|done].
  cbn. intros [= <-]. by eapply parse_u64_nonneg.
Qed.

Lemma trailer_offset_nonneg r :
  bytes_ok (r_bytes r) → nonneg_or_err (ailk_offset_from_trailer r).
Proof.
  intros Hb. unfold ailk_offset_from_trailer, nonneg_or_err.
  destruct (parquet_footer_start (r_bytes r)) as [fs|e] eqn:Hfs; [|done]. cbn [mbind outcome_bind].
  apply parquet_footer_start_bound in Hfs as [H0 H8]; [|done]. case_decide; [done|].
  unfold TRAILER_SIZE in *.
  destruct (slice_in_range (r_bytes r) (fs - 24) fs) as [t Ht]; [lia|lia|].
  rewrite Ht. cbn [or_panic mbind outcome_bind].
  assert (Htb : bytes_ok t).
  { unfold slice in Ht. case_decide; [|done]. injection Ht as <-. by apply Forall_take, Forall_drop. }
  destruct (Trailer.from_bytes t) as [tr|e] eqn:Hp; [|done]. cbn. split; [done|].
  intros z [= <-]. revert Hp. unfold Trailer.from_bytes. destruct (negb _); [done|].
  intros [= <-]. cbn [Trailer.footer_offset]. unfold Header.u64_at. apply from_le_fits.
  assert (Hat : ∀ i, fits 8 (at_ t i)).
  { intros i. unfold at_. rewrite nth_lookup. destruct (t !! i) eqn:Hi; cbn; [|done].
    by eapply Forall_lookup_1 in Hi. }
  repeat constructor; apply Hat.
Qed.

Lemma ailk_offset_for_column_nonneg r column :
  bytes_ok (r_bytes r) → nonneg_or_err (ailk_offset_for_column r column).
Proof.
  intros Hb. unfold ailk_offset_for_column.
  destruct (kv_metadata (r_bytes r) (column_key column)) as [[v|]|]; cbn;
    [apply parse_offset_nonneg| |done].
  destruct (kv_metadata (r_bytes r) FOOTER_OFFSET_KEY) as [[v|]|]; cbn;
    [apply parse_offset_nonneg|by apply trailer_offset_nonneg|done].
Qed.

Lemma ailk_offset_nonneg r : bytes_ok (r_bytes r) → nonneg_or_err (ailk_offset r).
Proof.
  intros Hb. unfold ailk_offset.
  destruct (kv_metadata (r_bytes r) FOOTER_OFFSET_KEY) as [[v|]|]; cbn;
    [apply parse_offset_nonneg|by apply trailer_offset_nonneg|done].
Qed.

Lemma read_header_no_panic r off : 0 ≤ off → read_header_at_offset r off ≠ Panic.
Proof.
  intros H0. unfold read_header_at_offset, checked_add, HEADER_SIZE. case_decide; [|done].
  cbn [ok_or mbind outcome_bind]. case_decide; [done|].
  destruct (slice_in_range (r_bytes r) off (off + 64)) as [h ->]; [lia|lia|done].
Qed.

(** A header read from a file of bytes has non-negative fields. *)
Lemma read_header_wf r off h :
  bytes_ok (r_bytes r) → 0 ≤ off → read_header_at_offset r off = Ret (Ok h) → Header.wf h.
Proof.
  intros Hb H0. unfold read_header_at_offset, checked_add, HEADER_SIZE. case_decide; [|done].
  cbn [ok_or mbind outcome_bind]. case_decide; [done|].
  destruct (slice_in_range (r_bytes r) off (off + 64)) as [s Hs]; [lia|lia|]. rewrite Hs.
  cbn [or_panic mbind outcome_bind]. intros [= Hh].
  pose proof (slice_Some _ _ _ _ Hs) as (_ & _ & Hl).
  eapply header_from_bytes_canonical; [|
    |exact Hh]; [unfold HEADER_SIZE; lia|].
  unfold slice in Hs. case_decide; [|done]. injection Hs as <-. by apply Forall_take, Forall_drop.
Qed.

Lemma checked_slice_no_panic r start off len :
  0 ≤ start → 0 ≤ off → 0 ≤ len → checked_slice r start off len ≠ Panic.
Proof.
  intros. unfold checked_slice, checked_add. case_decide; [|done]. cbn [ok_or mbind outcome_bind].
  case_decide; [|done]. cbn [ok_or mbind outcome_bind]. case_decide; [done|].
  destruct (slice_in_range (r_bytes r) (start + off) (start + off + len)) as [? ->]; [lia|lia|done].
Qed.

Lemma index_bytes_no_panic r column :
  bytes_ok (r_bytes r) → index_bytes_for_column r column ≠ Panic.
Proof.
  intros Hb. destruct (ailk_offset_for_column_nonneg r column Hb) as [Hp Hn].
  unfold index_bytes_for_column. apply bind_no_panic; [done|]. intros off Hoff.
  apply Hn in Hoff. apply bind_no_panic; [by apply read_header_no_panic|]. intros h Hh.
  apply read_header_wf in Hh as (_&_&_&_&_&_&[??]&[??]); [|done|done].
  apply bind_no_panic; [by apply checked_slice_no_panic|done].
Qed.

(** The column's section holds an IVF-PQ index whose stored dimension is zero. *)
Definition zero_dim_index r column : Prop :=
  ∃ h b core position metric,
    index_bytes_for_column r column = Ret (Ok (h, b)) ∧
    Z.land (Header.flags h) FLAG_INDEX_IVF_PQ ≠ 0 ∧
    ivf_deserialize_from b = Ok (core, position) ∧
    ivf_u8_to_metric (sc_metric core) = Ok metric ∧ sc_dim core = 0.

Lemma load_any_panic r column :
  bytes_ok (r_bytes r) →
  load_any_index_for_column r column = Panic ↔ zero_dim_index r column.
Proof.
  intros Hb. pose proof (index_bytes_no_panic r column Hb) as Hp.
  unfold load_any_index_for_column, zero_dim_index.
  destruct (index_bytes_for_column r column) as [[[h b]|e]|]; [|split; [done|naive_solver]|done].
  cbn [mbind outcome_bind]. destruct (Z.eqb_spec (Z.land (Header.flags h) FLAG_INDEX_IVF_PQ) 0) as [E|E];
    cbn [negb].
  - split; [by destruct (hnsw_from_bytes b)|naive_solver].
  - pose proof (IvfPqSerializer.from_bytes_panics ivf_deserialize_from b) as Hi.
    destruct (IvfPqSerializer.from_bytes _ b) as [[i|e]|] eqn:Ei; cbn [mbind outcome_bind].
    + split; [done|]. intros (?&?&core&pos&metric&[= <- <-]&_&?&?&?).
      assert (Hn : Ret (E := AilakeError) (Ok i) = Panic) by (apply Hi; eauto 10). done.
    + split; [done|]. intros (?&?&core&pos&metric&[= <- <-]&_&?&?&?).
      assert (Hn : Ret (A := IvfPqIndex PQCodebook) (Err e) = Panic) by (apply Hi; eauto 10). done.
    + split; [|done]. intros _. destruct (proj1 Hi eq_refl) as (core & pos & metric & ?). eauto 10.
Qed.

End NoPanic.

(* ------------------------------------------------------------------ *)
(** ** Properties                                                      *)
(* ------------------------------------------------------------------ *)

Section Theorems.
Context `{PL : ParquetLib} `{IL : !IndexLib} `{LW : !ParquetLaws PL}.

Lemma zip_lookup_split {A B} (cols : list A) (pls : list B) i col :
  length pls = length cols → cols !! i = Some col →
  ∃ before pl after, zip cols pls = before ++ (col, pl) :: after ∧ length before = i ∧
                     pls !! i = Some pl.
Proof.
  intros Hlen Hi. destruct (lookup_lt_is_Some_2 pls i) as [pl Hpl].
  { rewrite Hlen. by eapply lookup_lt_Some. }
  assert (Hz : zip cols pls !! i = Some (col, pl)) by (apply lookup_zip_with_Some; eauto).
  apply list_elem_of_split_length in Hz as (l1 & l2 & -> & ->). eauto 10.
Qed.

Lemma name_of_zip (cols : list VectorColumnBatch) (pls : list (Centroid * bytes * Z)) :
  length pls = length cols →
  name_of <$> zip cols pls = (column_name ∘ col_policy) <$> cols.
Proof.
  revert pls. induction cols as [|c cols IH]; intros [|pl pls] Hl; try done.
  cbn in *. f_equal. apply IH. lia.
Qed.

Lemma write_multi_nonempty w b cols f :
  write_multi w b cols = Ok f → ∃ primary rest, cols = primary :: rest.
Proof. destruct cols; [done|eauto]. Qed.

(** What [write_multi] says about one of its columns: the section it wrote, where
    it is, and that the readers find it there. *)
Lemma write_multi_column w b cols f x i col :
  write_multi w b cols = Ok f → cols !! i = Some col →
  NoDup (column_name ∘ col_policy <$> cols) →
  Zlen f < 2 ^ 64 → fits 64 (num_rows b) → fits 32 (policy_dim (col_policy col)) →
  let r := {| r_bytes := f; r_vector_column := x |} in
  ∃ c idx fl off, has_payload w col (c, idx, fl) ∧
    ailk_offset_for_column r (column_name (col_policy col)) = Ret (Ok off) ∧
    (i = 0%nat → ailk_offset r = Ret (Ok off)) ∧
    let h := header_of (num_rows b) (col, (c, idx, fl)) in
    read_header_at_offset r off = Ret (Ok h) ∧
    checked_slice r off (Header.centroid_offset h) (Header.centroid_len h)
      = Ret (Ok (encode_centroid c)) ∧
    checked_slice r off (Header.hnsw_offset h) (Header.hnsw_len h) = Ret (Ok idx).
Proof.
  intros Hw Hi Hnd Hlt Hn Hd. cbv zeta.
  destruct (write_multi_nonempty _ _ _ _ Hw) as (primary & rest & ->).
  apply write_multi_layout in Hw as (pls & Hpls & Hf & Hfit). cbv zeta in Hf, Hfit.
  pose proof (Forall2_length _ _ _ Hpls) as Hlen. symmetry in Hlen.
  rewrite <- (name_of_zip _ pls) in Hnd by done.
  destruct (zip_lookup_split _ _ _ _ Hlen Hi) as (before & [[c idx] fl] & after & Hz & Hb & Hpl).
  rewrite Hz in *. set (off := Zlen (row_groups (col_policy primary) b (col_embeddings primary))
                               + sum_by section_len before).
  assert (Hpay : has_payload w col (c, idx, fl)) by (by eapply Forall2_lookup_lr).
  exists c, idx, fl, off. split; [done|].
  pose proof (column_offset_found {| r_bytes := f; r_vector_column := x |} _ _ _ _ _ _ _
                Hf Hfit Hlt Hnd) as [Ho1 Ho2].
  split; [exact Ho1|]. split; [intros ->; apply Ho2; by destruct before|].
  destruct (file_layout_section (col_policy primary) b (col_embeddings primary) before
    (col, (c, idx, fl)) after (default [] (fts_section w b)) (file_kvs (col_policy primary) b
    (col_embeddings primary) (before ++ (col, (c, idx, fl)) :: after) (fts_section w b)))
    as (pre & post & Hpre & Hoff).
  apply (read_section_back _ pre post); [by etrans; [exact Hf|exact Hpre]|done| |done].
  unfold column_ok. split_and!; [done|done|].
  apply payload_flags in Hpay as [-> | ->]; by vm_compute.
Qed.

(** C1: every vector column of a multi-column file is read back: under the
    column's own name the reader finds a header carrying the column's dimension,
    precision, metric, the row count and the index flags, and exactly the index
    bytes the writer produced for that column. *)
Theorem write_multi_columns_readable w b cols f x i col :
  write_multi w b cols = Ok f → cols !! i = Some col →
  NoDup (column_name ∘ col_policy <$> cols) →
  Zlen f < 2 ^ 64 → fits 64 (num_rows b) → fits 32 (policy_dim (col_policy col)) →
  ∃ c idx fl,
    section_payload (col_policy col) (col_embeddings col) (w_index_type w) (w_shared_codebook w)
      = Ok (c, idx, fl) ∧
    index_bytes_for_column {| r_bytes := f; r_vector_column := x |}
      (column_name (col_policy col))
    = Ret (Ok (section_header (col_policy col) (num_rows b) (encode_centroid c) idx fl, idx)).
Proof.
  intros Hw Hi Hnd Hlt Hn Hd.
  destruct (write_multi_column _ _ _ _ x _ _ Hw Hi Hnd Hlt Hn Hd)
    as (c & idx & fl & off & Hp & Ho & _ & Hh & _ & Hidx).
  exists c, idx, fl. split; [exact Hp|]. unfold index_bytes_for_column.
  rewrite Ho. cbn [mbind outcome_bind]. rewrite Hh. cbn [mbind outcome_bind].
  by rewrite Hidx.
Qed.

(** The centroid of a file written by [write] is read back bit for bit, with
    the header's metric in place of the one it was computed under; it is refused
    with [InvalidCentroidLength] exactly when its length is not the policy's
    dimension. *)
Theorem write_centroid_readable w b e f x :
  write w b e = Ok f → Zlen f < 2 ^ 64 → fits 64 (num_rows b) → fits 32 (policy_dim (w_policy w)) →
  (∀ vs m, Forall (fits 32) (centroid_values (compute_centroid_and_radius vs m)) ∧
           fits 32 (centroid_radius (compute_centroid_and_radius vs m))) →
  let '(vs, m) := effective_vectors (w_policy w) e in
  let c := compute_centroid_and_radius vs m in
  get_centroid {| r_bytes := f; r_vector_column := x |} = Ret (
    if Zlen (centroid_values c) =? policy_dim (w_policy w) then
      Ok {| centroid_values := centroid_values c; centroid_radius := centroid_radius c;
            centroid_metric := policy_metric (w_policy w) |}
    else Err (InvalidCentroidLength (policy_dim (w_policy w)) (Zlen (encode_centroid c)))).
Proof.
  intros Hw Hlt Hn Hd Hbits. unfold write in Hw. set (col := {| col_policy := w_policy w |}) in Hw.
  destruct (write_multi_column _ _ _ _ x 0 col Hw eq_refl) as
    (c & idx & fl & off & Hp & _ & Ho & Hh & Hc & _); try done; [apply NoDup_singleton|].
  specialize (Ho eq_refl). destruct (effective_vectors _ _) as [vs m] eqn:Hev. cbv zeta.
  assert (c = compute_centroid_and_radius vs m) as ->.
  { revert Hp. unfold has_payload, section_payload, col. cbn [col_policy col_embeddings].
    rewrite Hev, bind_Ok. intros ([? ?] & _ & [= <- _ _]). done. }
  unfold get_centroid, read_header. rewrite Ho. cbn [mbind outcome_bind]. rewrite Hh.
  cbn [mbind outcome_bind]. rewrite Hc. cbn [mbind outcome_bind]. f_equal.
  destruct (Hbits vs m). by apply (decode_centroid_back (num_rows b) col).
Qed.

(** C24: a file written by [write_multi] is still the Parquet file of its batch:
    the row groups are the first bytes, byte for byte; a Parquet reader finds the
    batch's row count and, apart from the Arrow schema [ArrowWriter] adds under its own
    key, exactly the writer's own metadata, followed by one offset entry per vector
    column (the primary's under [ailake.footer_offset]) and one for the full-text
    section when there is one. *)
Theorem write_multi_is_parquet w b primary rest f :
  write_multi w b (primary :: rest) = Ok f →
  let p := col_policy primary in let e := col_embeddings primary in
  ∃ extra kvs, take (length (row_groups p b e)) f = row_groups p b e ∧
    parquet_kvs f = Ok kvs ∧ without_arrow_schema kvs = base_kv p (num_rows b) ++ extra ∧
    parquet_num_rows f = Ok (num_rows b) ∧
    extra.*1 = FOOTER_OFFSET_KEY :: (column_key ∘ column_name ∘ col_policy <$> rest) ++
               (if fts_section w b then [KV_FTS_OFFSET] else []).
Proof.
  intros Hw. apply write_multi_layout in Hw as (pls & Hpls & Hf & Hfit).
  cbv zeta in *. unfold file_kvs in *. set (extra := kvs_from _ _ _ ++ _) in *.
  assert (Hkeys : extra.*1 = FOOTER_OFFSET_KEY :: (column_key ∘ column_name ∘ col_policy <$> rest) ++
                    (if fts_section w b then [KV_FTS_OFFSET] else [])).
  { apply Forall2_length in Hpls. subst extra. destruct pls as [|pl pls]; [done|].
    cbn [zip zip_with kvs_from app fmap list_fmap fst kv_key_of]. f_equal.
    rewrite fmap_app, kvs_from_later_keys by (cbn in Hpls; lia). by destruct (fts_section w b). }
  rewrite Hf. unfold file_layout. rewrite take_app_length, !app_assoc.
  destruct (parquet_kvs_tail ((row_groups (col_policy primary) b (col_embeddings primary) ++
    mjoin (sections_from (num_rows b)
      (Zlen (row_groups (col_policy primary) b (col_embeddings primary))) (zip (primary :: rest) pls))) ++
    default [] (fts_section w b)) (col_policy primary) b (col_embeddings primary) _ Hfit) as (kvs & Hkvs & Hsame).
  exists extra, kvs. split; [done|]. split; [done|]. split; [|by split; [apply parquet_num_rows_tail|]].
  rewrite Hsame. apply without_schema_id. rewrite fmap_app, Forall_app, Hkeys. split.
  - unfold base_kv. by destruct (negb _); repeat constructor.
  - constructor; [done|]. rewrite Forall_app. split; [by apply Forall_fmap, Forall_true|].
    by destruct (fts_section w b); repeat constructor.
Qed.

(** The full-text blob of a file written by [write_multi] is read back
    unchanged; a file written without one yields [None]. *)
Theorem fts_blob_roundtrip w b cols f x :
  write_multi w b cols = Ok f → Zlen f < 2 ^ 64 →
  match fts_section w b with
  | Some _ =>
      ∃ blob, load_fts_blob {| r_bytes := f; r_vector_column := x |} = Ret (Ok (Some blob)) ∧
        match w_prebuilt_fts_blob w with
        | Some pre => blob = pre
        | None => ∃ cfg, w_fts_config w = Some cfg ∧ build_fts_blob_from_batch cfg b = Ok blob
        end
  | None => load_fts_blob {| r_bytes := f; r_vector_column := x |} = Ret (Ok None)
  end.
Proof.
  intros Hw Hlt. destruct (write_multi_nonempty _ _ _ _ Hw) as (primary & rest & ->).
  apply write_multi_layout in Hw as (pls & _ & Hf & Hfit). cbv zeta in *.
  set (p := col_policy primary) in *. set (e := col_embeddings primary) in *.
  set (cps := zip _ _) in *.
  pose proof (file_kvs_fts p b e cps (fts_section w b)) as Hfind.
  assert (Hmeta : kv_metadata f KV_FTS_OFFSET = Ok (kv_find KV_FTS_OFFSET
            (file_kvs p b e cps (fts_section w b)))).
  { by apply (file_layout_kv {| r_bytes := f; r_vector_column := x |} p b e cps _ _ _ Hf Hfit). }
  rewrite Hfind in Hmeta. destruct (fts_section w b) as [sec|] eqn:Hsec.
  - apply fts_section_Some in Hsec as (blob & -> & Hblob). exists blob. split; [|done].
    unfold file_layout in Hf. rewrite app_assoc in Hf. cbn [default] in Hf.
    eapply load_fts_blob_block; [exact Hf|done| |exact Hmeta].
    by rewrite length_app, Nat2Z.inj_add, sections_from_length.
  - unfold load_fts_blob. cbn [r_bytes]. by rewrite Hmeta.
Qed.

(** A file written in a single pass is bootstrapped from the trailer before
    the Parquet footer, so under any column name the reader gets the header and
    the index bytes of the last column written. *)
Theorem single_pass_reads_last w b before col f x name :
  write_multi_single_pass w b (before ++ [col]) = Ok f →
  Zlen f < 2 ^ 64 → fits 64 (num_rows b) → fits 32 (policy_dim (col_policy col)) →
  ∃ c idx fl,
    section_payload (col_policy col) (col_embeddings col) (w_index_type w) (w_shared_codebook w)
      = Ok (c, idx, fl) ∧
    index_bytes_for_column {| r_bytes := f; r_vector_column := x |} name
    = Ret (Ok (section_header (col_policy col) (num_rows b) (encode_centroid c) idx fl, idx)).
Proof.
  intros Hw Hlt Hn Hd.
  destruct (before ++ [col]) as [|primary rest] eqn:Hcols; [by destruct before|].
  apply write_multi_single_pass_layout in Hw as (pls & Hpls & Hf & Hfit). cbv zeta in Hf, Hfit.
  rewrite <- Hcols in *. apply Forall2_app_inv_l in Hpls as (pls1 & pls2 & Hp1 & Hp2 & ->).
  apply Forall2_cons_inv_l in Hp2 as ([[c idx] fl] & pls3 & Hpay & Hp3 & ->).
  apply Forall2_nil_inv_l in Hp3 as ->. apply Forall2_length in Hp1.
  rewrite zip_with_app in Hf by done. cbn [zip_with] in Hf.
  set (p := col_policy primary) in *. set (e := col_embeddings primary) in *.
  set (r := {| r_bytes := f; r_vector_column := x |}).
  assert (Hfl : fits 16 fl) by (apply payload_flags in Hpay as [-> | ->]; by vm_compute).
  pose proof (trailer_bootstrap r p b e _ (col, (c, idx, fl)) _ Hf Hfit Hlt Hfl) as Ho.
  assert (Hoff : ailk_offset_for_column r name = ailk_offset_from_trailer r).
  { unfold ailk_offset_for_column.
    rewrite !(file_layout_kv r _ _ _ _ _ _ _ Hf Hfit) by auto. cbn [mbind outcome_bind].
    rewrite !kv_find_None by (apply base_kv_keys; eauto). done. }
  destruct (file_layout_section p b e (zip before pls1) (col, (c, idx, fl)) [] []
    (base_kv p (num_rows b))) as (pre & post & Hpre & Hlen).
  destruct (read_section_back r pre post (num_rows b)
    (Zlen (row_groups p b e) + sum_by section_len (zip before pls1)) col c idx fl)
    as (Hh & _ & Hidx); [by etrans; [exact Hf|exact Hpre]|done|done|done|].
  exists c, idx, fl. split; [done|]. unfold index_bytes_for_column.
  rewrite Hoff, Ho. cbn [mbind outcome_bind]. rewrite Hh. cbn [mbind outcome_bind]. by rewrite Hidx.
Qed.

(** C2: on any byte buffer, whatever the Parquet metadata in it says, the header,
    centroid and HNSW readers return a value or an error, given that the HNSW
    deserializer does.  The reader of either kind of index panics exactly when the
    column's section is flagged IVF-PQ and bincode reads from it a snapshot of a known
    metric and of dimension zero; the integrity check exactly when the header can be
    read and the primary column's section is such a one. *)
Theorem reader_panics_on_zero_dim r column :
  bytes_ok (r_bytes r) →
  read_header r ≠ Panic ∧ read_header_for_column r column ≠ Panic ∧ get_centroid r ≠ Panic ∧
  load_index_for_column r column ≠ Panic ∧
  (load_any_index_for_column r column = Panic ↔ zero_dim_index r column) ∧
  (verify_integrity r = Panic ↔
    (∃ h, read_header r = Ret (Ok h)) ∧ zero_dim_index r (r_vector_column r)).
Proof.
  intros Hb. destruct (ailk_offset_nonneg r Hb) as [Hp Hn].
  destruct (ailk_offset_for_column_nonneg r column Hb) as [Hcp Hcn].
  assert (Hrh : read_header r ≠ Panic).
  { apply bind_no_panic; [done|]. intros off Hoff. apply read_header_no_panic. auto. }
  split_and!; [done|..].
  - apply bind_no_panic; [done|]. intros off Hoff. apply read_header_no_panic. auto.
  - apply bind_no_panic; [done|]. intros off Hoff. apply bind_no_panic; [done|]. intros h Hh.
    unfold read_header in Hh. rewrite Hoff in Hh. apply Hn in Hoff.
    apply read_header_wf in Hh as (_&_&_&_&[??]&[??]&_&_); [|done|done].
    apply bind_no_panic; [by apply checked_slice_no_panic|done].
  - apply bind_no_panic; [by apply index_bytes_no_panic|]. intros [h b] _.
    by destruct (hnsw_from_bytes b).
  - by apply load_any_panic.
  - rewrite <- (load_any_panic r (r_vector_column r)) by done. unfold verify_integrity, load_any_index.
    destruct (read_header r) as [[h|e]|]; cbn [mbind outcome_bind]; [|naive_solver|done].
    destruct (load_any_index_for_column r (r_vector_column r)) as [[i|e]|]; cbn [mbind outcome_bind];
      [|naive_solver|split; eauto].
    destruct (parquet_num_rows (r_bytes r)); cbn [mbind outcome_bind]; [|naive_solver].
    repeat case_match; naive_solver.
Qed.

(** The full-text reader is the exception: an offset within sixteen of the end
    of the address space wraps around, passes the bounds check, and the slice
    panics. *)
Theorem fts_offset_wrap_panics r off :
  kv_metadata (r_bytes r) KV_FTS_OFFSET = Ok (Some (to_string off)) →
  2 ^ 64 - AILK_FTS_HEADER_SIZE ≤ off < 2 ^ 64 →
  AILK_FTS_HEADER_SIZE ≤ Zlen (r_bytes r) →
  load_fts_blob r = Panic.
Proof.
  unfold AILK_FTS_HEADER_SIZE. intros Hkv Hoff Hlen. unfold load_fts_blob, AILK_FTS_HEADER_SIZE.
  rewrite Hkv. cbn [mbind outcome_bind].
  rewrite parse_u64_to_string by (unfold fits; lia). cbn [ok_or mbind outcome_bind].
  assert (Hw : wrap 64 (off + 16) = off + 16 - 2 ^ 64).
  { unfold wrap. rewrite <- (Z.mod_add _ (-1)) by lia. apply Z.mod_small. lia. }
  rewrite Hw, decide_False by lia. unfold slice. rewrite decide_False by lia. done.
Qed.

(** Incremental compaction's writer agrees with the ordinary one: when the
    index it is given serializes to what building it from the same vectors would
    give, [write_with_prebuilt_hnsw] returns the same result as [write], the
    errors included. *)
Theorem prebuilt_hnsw_equals_write w b e hnsw cfg :
  w_index_type w = IHnsw cfg →
  (let '(vs, m) := effective_vectors (w_policy w) e in
   '(idx, _) ← build_index (w_policy w) vs m (IHnsw cfg) (w_shared_codebook w); Ok idx)
    = hnsw_to_bytes hnsw →
  write_with_prebuilt_hnsw w b e hnsw = write w b e.
Proof.
  intros Ht Hidx. unfold write_with_prebuilt_hnsw, write, write_multi. cbn [col_policy col_embeddings].
  destruct (write_batch _ _ _) as [[v1 n]|]; [|done]. cbn [mbind result_bind].
  destruct (parquet_footer_start v1) as [fs|]; [|done]. cbn [mbind result_bind try_fold].
  rewrite <- Hidx. unfold write_multi_step, build_ailk_section, section_payload,
    build_ailk_section_from_index_bytes. cbn [col_policy col_embeddings]. rewrite Ht.
  destruct (effective_vectors (w_policy w) e) as [vs m]. cbn [resolve_index_type].
  unfold build_index. destruct (hnsw_build_bytes _ _ _ _) as [idx|]; [|done].
  cbn [mbind result_bind app]. destruct (fts_section w b); cbn [default app];
    by rewrite mjoin_cons, app_nil_r.
Qed.

End Theorems.
