(* ===== verification/FileExamples.v ===== *)
(** * A concrete Parquet and index library

    [ParquetLaws] can hold: a small container whose footer stores the row count
    and the key-value metadata satisfies it.  With a toy index the writers and
    the readers of the file format run, and the properties of [FileTheorems]
    apply to the files they produce. *)

From S2P Require Import Prelude Core Footer IvfPq FileFormat FileTheorems.

(** The footer of the toy container: row count and metadata, as one number. *)
Definition toy_footer (n : Z) (kv : list (string * string)) : bytes :=
  let z := Zpos (encode (n, kv)) in to_le (Z.to_nat (Z.log2 z / 8 + 1)) z.

Definition toy_tail (n : Z) (kv : list (string * string)) : bytes :=
  toy_footer n kv ++ to_le 4 (Zlen (toy_footer n kv)) ++ PARQUET_MAGIC.

Definition toy_parse (f : bytes) : AilakeResult (Z * list (string * string)) :=
  start ← parquet_footer_start f;
  ok_or (t ← slice f start (Zlen f - 8); decode (Z.to_pos (from_le t))) ParquetError.

Definition toy_rows (e : list vec32) : bytes := PARQUET_MAGIC ++ mjoin (mjoin (fmap (to_le 4) <$> e)).

#[export] Instance toy_parquet : ParquetLib := {|
  RecordBatch := Z;
  num_rows n := n;
  arrow_write _ n e kv :=
    if decide (fits 32 (Zlen (toy_footer n kv))) then Ok (toy_rows e ++ toy_tail n kv)
    else Err ParquetError;
  parquet_kvs f := (λ x : Z * list (string * string), x.2 ++ [(ARROW_SCHEMA_META_KEY, "c1=fixed_size_binary")]) <$> toy_parse f;
  parquet_num_rows f := fst <$> toy_parse f;
|}.

Lemma toy_footer_decodes n kv : decode (Z.to_pos (from_le (toy_footer n kv))) = Some (n, kv).
Proof.
  unfold toy_footer. set (z := Zpos _). rewrite from_to_le; [apply decode_encode|].
  unfold fits. split; [lia|]. pose proof (Z.log2_nonneg z) as Hn.
  pose proof (Z.div_pos (Z.log2 z) 8 Hn ltac:(lia)). rewrite Z2Nat.id by lia.
  destruct (Z.log2_spec z) as [_ Hz]; [lia|]. eapply Z.lt_le_trans; [exact Hz|].
  apply Z.pow_le_mono_r; [lia|].
  pose proof (Z.div_mod (Z.log2 z) 8). pose proof (Z.mod_pos_bound (Z.log2 z) 8). lia.
Qed.

Lemma toy_parse_tail body n kv :
  fits 32 (Zlen (toy_footer n kv)) → toy_parse (body ++ toy_tail n kv) = Ok (n, kv).
Proof.
  intros Hf. unfold toy_parse, toy_tail. rewrite parquet_footer_start_tail by done.
  cbn [mbind result_bind]. rewrite slice_mid.
  - cbn [mbind option_bind]. by rewrite toy_footer_decodes.
  - done.
  - unfold PARQUET_MAGIC. len.
Qed.

#[export] Instance toy_laws : ParquetLaws toy_parquet.
Proof.
  refine {| row_groups _ _ e := toy_rows e; footer_thrift _ n _ kv := toy_footer n kv |}; cbn.
  - intros p b e kv f. case_decide; [|done]. by intros [= <-].
  - intros body p b e kv Hf.
    change (∃ kvs, ((λ x : Z * list (string * string), x.2 ++ [(ARROW_SCHEMA_META_KEY, "c1=fixed_size_binary")])
      <$> toy_parse (body ++ toy_tail b kv)) = Ok kvs ∧ without_arrow_schema kvs = without_arrow_schema kv).
    rewrite toy_parse_tail by done. eexists. split; [done|].
    unfold without_arrow_schema. cbn [snd]. rewrite filter_app. by rewrite app_nil_r.
  - intros body p b e kv Hf. change (fst <$> toy_parse (body ++ toy_tail b kv) = Ok b).
    by rewrite toy_parse_tail.
Defined.

(** A toy index: its serialization is its vectors. *)
#[export] Instance toy_index : IndexLib := {|
  IvfPqCodebook := unit; HnswIndex := bytes; PQCodebook := unit;
  normalize_l2 v := v;
  compute_centroid_and_radius vs m :=
    {| centroid_values := wrap 32 <$> default [] (head vs); centroid_radius := 7;
       centroid_metric := m |};
  HnswConfig_default := mk_HnswConfig 16 200 1000;
  recommend_ivf_pq _ := false;
  hnsw_build_bytes _ _ _ vs := Ok (mjoin ((λ v, mjoin (to_le 4 <$> v.2)) <$> vs));
  hnsw_to_bytes i := Ok i;
  ivf_train_bytes _ vs _ _ := Ok (1 :: mjoin ((λ v, mjoin (to_le 4 <$> v)) <$> vs));
  ivf_codebook_bytes _ _ _ := Ok [0];
  hnsw_from_bytes b := Ok b;
  quantize_to_f16 i := i;
  ivf_deserialize_from b :=
    Ok (mk_ivf_core 16 4 1 256 25 (at_ b 0) 0 [] tt [b] [], Zlen b);
  hnsw_node_count i := Zlen i;
  build_fts_blob_from_batch _ _ := Err FtsError;
|}.

Definition toy_policy (name : string) : VectorStoragePolicy :=
  {| column_name := name; policy_dim := 2; policy_metric := Cosine; policy_precision := F16;
     pq := None; keep_raw_for_reranking := true; pre_normalize := false; hnsw_m := None;
     ivf_residual := false; embedding_model := None; modality := None; partition_by := None;
     partition_value := None; partition_column_type := None; partition_fields := [];
     hnsw_ef_construction := None |}.

Definition toy_writer : AilakeFileWriter :=
  {| w_policy := toy_policy "text"; w_index_type := IHnsw HnswConfig_default;
     w_shared_codebook := None; w_fts_config := None; w_prebuilt_fts_blob := Some [1; 2; 3] |}.

Definition toy_columns : list VectorColumnBatch :=
  [{| col_policy := toy_policy "text"; col_embeddings := [[1; 2]; [3; 4]] |};
   {| col_policy := toy_policy "image"; col_embeddings := [[5; 6]; [7; 8]] |}].

Definition ok_value (r : AilakeResult bytes) : bytes := default [] (to_option r).
Definition toy_file : bytes := Eval vm_compute in ok_value (write_multi toy_writer 2 toy_columns).
Definition toy_single : bytes :=
  Eval vm_compute in ok_value (write_multi_single_pass toy_writer 2 toy_columns).
Definition toy_write : bytes :=
  Eval vm_compute in ok_value (write toy_writer 2 [[1; 2]; [3; 4]]).

Lemma write_multi_columns_readable_witness :
  ∃ c idx fl,
    section_payload (toy_policy "image") [[5; 6]; [7; 8]] (IHnsw HnswConfig_default) None
      = Ok (c, idx, fl) ∧
    index_bytes_for_column {| r_bytes := toy_file; r_vector_column := "text" |} "image"
    = Ret (Ok (section_header (toy_policy "image") 2 (encode_centroid c) idx fl, idx)).
Proof.
  apply (write_multi_columns_readable toy_writer 2 toy_columns toy_file "text" 1
           {| col_policy := toy_policy "image"; col_embeddings := [[5; 6]; [7; 8]] |}).
  - vm_compute. reflexivity.
  - reflexivity.
  - apply (bool_decide_unpack _). vm_compute. exact I.
  - vm_compute. reflexivity.
  - vm_compute. split; [discriminate|reflexivity].
  - vm_compute. split; [discriminate|reflexivity].
Defined.

Lemma write_centroid_readable_witness :
  get_centroid {| r_bytes := toy_write; r_vector_column := "text" |} =
    Ret (Ok {| centroid_values := [1; 2]; centroid_radius := 7; centroid_metric := Cosine |}).
Proof.
  apply (write_centroid_readable toy_writer 2 [[1; 2]; [3; 4]] toy_write "text").
  - vm_compute. reflexivity.
  - vm_compute. reflexivity.
  - vm_compute. split; [discriminate|reflexivity].
  - vm_compute. split; [discriminate|reflexivity].
  - intros vs m. split; [|vm_compute; split; [discriminate|reflexivity]].
    apply Forall_fmap, Forall_true. intros z. by apply wrap_fits.
Defined.

Lemma write_multi_is_parquet_witness :
  let rows := row_groups (toy_policy "text") 2 [[1; 2]; [3; 4]] in
  ∃ extra kvs, take (length rows) toy_file = rows ∧
    parquet_kvs toy_file = Ok kvs ∧ without_arrow_schema kvs = base_kv (toy_policy "text") 2 ++ extra ∧
    parquet_num_rows toy_file = Ok 2 ∧
    extra.*1 = ["ailake.footer_offset"; "ailake.image.footer_offset"; "ailake.fts_offset"].
Proof.
  apply (write_multi_is_parquet toy_writer 2
    {| col_policy := toy_policy "text"; col_embeddings := [[1; 2]; [3; 4]] |}
    [{| col_policy := toy_policy "image"; col_embeddings := [[5; 6]; [7; 8]] |}] toy_file).
  vm_compute. reflexivity.
Defined.

Lemma fts_blob_roundtrip_witness :
  ∃ blob, load_fts_blob {| r_bytes := toy_file; r_vector_column := "text" |} = Ret (Ok (Some blob))
          ∧ blob = [1; 2; 3].
Proof.
  apply (fts_blob_roundtrip toy_writer 2 toy_columns toy_file "text").
  - vm_compute. reflexivity.
  - vm_compute. reflexivity.
Defined.

(** Asking a single-pass file of columns [text], [image] for [text] gives [image]. *)
Lemma single_pass_reads_last_witness :
  ∃ c idx fl,
    section_payload (toy_policy "image") [[5; 6]; [7; 8]] (IHnsw HnswConfig_default) None
      = Ok (c, idx, fl) ∧
    index_bytes_for_column {| r_bytes := toy_single; r_vector_column := "text" |} "text"
    = Ret (Ok (section_header (toy_policy "image") 2 (encode_centroid c) idx fl, idx)).
Proof.
  apply (single_pass_reads_last toy_writer 2
    [{| col_policy := toy_policy "text"; col_embeddings := [[1; 2]; [3; 4]] |}]
    {| col_policy := toy_policy "image"; col_embeddings := [[5; 6]; [7; 8]] |}
    toy_single "text" "text").
  - vm_compute. reflexivity.
  - vm_compute. reflexivity.
  - vm_compute. split; [discriminate|reflexivity].
  - vm_compute. split; [discriminate|reflexivity].
Defined.

(** A file whose IVF-PQ section stores the dimension zero: the toy snapshot takes its
    dimension from the first byte, which training on a batch of vectors with their first
    component zero leaves zero. *)
Definition zero_dim_writer : AilakeFileWriter :=
  {| w_policy := toy_policy "text";
     w_index_type := IIvfPq (ivf_for_dataset 2 2); w_shared_codebook := Some tt;
     w_fts_config := None; w_prebuilt_fts_blob := None |}.
Definition zero_dim_file : bytes :=
  Eval vm_compute in ok_value (write zero_dim_writer 2 [[1; 2]; [3; 4]]).
Definition zero_dim_reader : AilakeFileReader := mk_reader zero_dim_file "text".

Definition is_panic {E A} (o : outcome E A) : bool := match o with Panic => true | _ => false end.
Lemma is_panic_true {E A} (o : outcome E A) : is_panic o = true → o = Panic.
Proof. by destruct o. Qed.

Lemma reader_panics_on_zero_dim_witness :
  get_centroid zero_dim_reader ≠ Panic ∧ load_any_index_for_column zero_dim_reader "text" = Panic ∧
  verify_integrity zero_dim_reader = Panic.
Proof.
  assert (Hb : bytes_ok (r_bytes zero_dim_reader)) by (apply (bool_decide_unpack _); vm_compute; exact I).
  assert (Hz : zero_dim_index zero_dim_reader "text").
  { apply (load_any_panic zero_dim_reader "text" Hb), is_panic_true. vm_compute. reflexivity. }
  pose proof (reader_panics_on_zero_dim zero_dim_reader "text" Hb) as (_ & _ & Hc & _ & Hl & Hv).
  split; [exact Hc|]. split; [apply Hl, Hz|]. apply Hv. split; [|exact Hz].
  eexists. vm_compute. reflexivity.
Defined.

(** A file whose metadata carries a full-text offset next to [u64::MAX]. *)
Definition bad_fts_file : bytes :=
  Eval vm_compute in toy_rows [] ++ toy_tail 0 [("ailake.fts_offset", "18446744073709551608")].

Lemma fts_offset_wrap_panics_witness :
  load_fts_blob {| r_bytes := bad_fts_file; r_vector_column := "text" |} = Panic.
Proof.
  apply (fts_offset_wrap_panics {| r_bytes := bad_fts_file; r_vector_column := "text" |}
           18446744073709551608).
  - vm_compute. reflexivity.
  - vm_compute. split; [discriminate|reflexivity].
  - vm_compute. discriminate.
Defined.

Definition toy_hnsw : bytes := [1; 0; 0; 0; 2; 0; 0; 0; 3; 0; 0; 0; 4; 0; 0; 0].

Lemma prebuilt_hnsw_equals_write_witness :
  write_with_prebuilt_hnsw toy_writer 2 [[1; 2]; [3; 4]] toy_hnsw
  = write toy_writer 2 [[1; 2]; [3; 4]].
Proof.
  apply (prebuilt_hnsw_equals_write toy_writer 2 [[1; 2]; [3; 4]] toy_hnsw HnswConfig_default).
  - reflexivity.
  - vm_compute. reflexivity.
Defined.
