(* ===== verification/Store.v ===== *)
(** * The object-store interface

    The [Store] trait of [ailake-store/src/store.rs] as a class over the state of
    an implementation, with what its clients rely on ([StoreLaws]): reads change
    nothing and are sound, a write or delete that succeeds changes exactly its own
    path, one that fails changes nothing.  [MemStore] is the abstract store that
    meets the laws; [FailStore] ([ailake-store/src/fail_store.rs]) is a decorator
    that injects faults and still meets them.

    Operations are state passing: [S → args → S * AilakeResult A].  [st_now] reads
    the monotone clock ([Instant::now]); an operation may advance it. *)

From S2P Require Import Prelude Core.

Class Store (S : Type) : Type := {
  st_now : S → Z;
  st_get : S → string → S * AilakeResult bytes;
  st_get_range : S → string → Z → Z → S * AilakeResult bytes;
  st_put : S → string → bytes → S * AilakeResult unit;
  st_list : S → string → S * AilakeResult (list string);
  st_file_size : S → string → S * AilakeResult Z;
  st_exists : S → string → S * AilakeResult bool;
  st_delete : S → string → S * AilakeResult unit;
}.

(** The lock methods of the trait. *)
Class LockStore (S : Type) : Type := {
  try_acquire_lock : S → string → S * AilakeResult bool;
  release_lock : S → string → S * AilakeResult unit;
  renew_lock : S → string → S * AilakeResult bool;
}.

(** The fenced methods' default bodies: token 0, no check. *)
Section LockDefaults.
Context {S : Type} `{!LockStore S}.

Definition try_acquire_lock_fenced_default (s : S) (path : string) : S * AilakeResult (option Z) :=
  let '(s, r) := try_acquire_lock s path in
  (s, b ← r; Ok (if (b : bool) then Some 0 else None)).
Definition release_lock_fenced_default (s : S) (path : string) (_ : Z) : S * AilakeResult unit :=
  release_lock s path.
Definition renew_lock_fenced_default (s : S) (path : string) (_ : Z) : S * AilakeResult bool :=
  renew_lock s path.
Definition check_lock_fence_default (s : S) (_ : string) (_ : Z) : S * AilakeResult bool :=
  (s, Ok true).

End LockDefaults.

(** What a store promises its clients.  That a failed [put] leaves the object as it was
    holds of object stores, whose uploads replace an object at once; [LocalStore] writes
    over the file in place ([tokio::fs::write]), and a write that fails or is cut short
    can leave a part of it: what is shown of failed writes does not cover that. *)
Class StoreLaws (S : Type) `{Store S} : Type := {
  view : S → gmap string bytes;
  store_inv : S → Prop;
  get_law s p : store_inv s → let '(s', r) := st_get s p in
    store_inv s' ∧ view s' = view s ∧ ∀ v, r = Ok v → view s !! p = Some v;
  put_law s p d : store_inv s → let '(s', r) := st_put s p d in
    store_inv s' ∧ view s' = if is_ok r then <[p := d]> (view s) else view s;
  delete_law s p : store_inv s → let '(s', r) := st_delete s p in
    store_inv s' ∧ view s' = if is_ok r then delete p (view s) else view s;
}.

(** Partial reads return a slice of the object. *)
Class RangeLaws (S : Type) `{StoreLaws S} : Prop := {
  get_range_law s p a b : store_inv s → let '(s', r) := st_get_range s p a b in
    store_inv s' ∧ view s' = view s ∧
    ∀ v, r = Ok v → ∃ d, view s !! p = Some d ∧ slice d a b = Some v;
}.

(* ------------------------------------------------------------------ *)
(** ** The abstract store                                              *)
(* ------------------------------------------------------------------ *)

Record MemStore : Type := mk_mem {
  mem_objects : gmap string bytes;
  mem_clock : Z;
  mem_latency : Z;
}.

Definition mem_tick (s : MemStore) : MemStore :=
  mk_mem (mem_objects s) (mem_clock s + Z.max 0 (mem_latency s)) (mem_latency s).
Definition mem_with (s : MemStore) (m : gmap string bytes) : MemStore :=
  mem_tick (mk_mem m (mem_clock s) (mem_latency s)).

#[export] Instance mem_store : Store MemStore := {|
  st_now := mem_clock;
  st_get s p := (mem_tick s, ok_or (mem_objects s !! p) StoreError);
  st_get_range s p a b :=
    (mem_tick s, d ← ok_or (mem_objects s !! p) StoreError; ok_or (slice d a b) InvalidArgument);
  st_put s p d := (mem_with s (<[p := d]> (mem_objects s)), Ok tt);
  st_list s prefix :=
    (mem_tick s, Ok (filter (λ k, starts_with prefix k = true) (elements (dom (mem_objects s)))));
  st_file_size s p := (mem_tick s, d ← ok_or (mem_objects s !! p) StoreError; Ok (Zlen d));
  st_exists s p := (mem_tick s, Ok (bool_decide (is_Some (mem_objects s !! p))));
  st_delete s p :=
    match mem_objects s !! p with
    | Some _ => (mem_with s (delete p (mem_objects s)), Ok tt)
    | None => (mem_tick s, Err StoreError)
    end;
|}.

#[export] Instance mem_store_laws : StoreLaws MemStore.
Proof.
  refine {| view := mem_objects; store_inv _ := True |}; intros s p; cbn.
  - intros _. split_and!; [done..|]. intros v. destruct (mem_objects s !! p); cbn; naive_solver.
  - by intros d _.
  - intros _. by destruct (mem_objects s !! p).
Defined.

#[export] Instance mem_range_laws : RangeLaws MemStore.
Proof.
  constructor. intros s p a b _. cbn. split_and!; [done..|]. intros v.
  destruct (mem_objects s !! p) as [d|]; [|done]. cbn.
  destruct (slice d a b) eqn:Hs; [|done]. intros [= <-]. eauto.
Qed.

(* ------------------------------------------------------------------ *)
(** ** Fault injection                                                 *)
(* ------------------------------------------------------------------ *)

Record FailStore (S : Type) : Type := mk_fail {
  fs_inner : S;
  fail_get : bool;
  fail_get_nth : option Z;
  fail_get_range : bool;
  fail_put : bool;
  fail_list : bool;
  fail_file_size : bool;
  fail_exists : bool;
  fail_delete : bool;
}.
Arguments mk_fail {_} _ _ _ _ _ _ _ _ _.
Arguments fs_inner {_} _.
Arguments fail_get {_} _.
Arguments fail_get_nth {_} _.
Arguments fail_get_range {_} _.
Arguments fail_put {_} _.
Arguments fail_list {_} _.
Arguments fail_file_size {_} _.
Arguments fail_exists {_} _.
Arguments fail_delete {_} _.

Section FailStoreOps.
Context {S : Type} `{Store S}.
Implicit Types f : FailStore S.

Definition fail_store_new (s : S) : FailStore S :=
  mk_fail s false None false false false false false false.

Definition set_get_fields f (fg : bool) (nth : option Z) : FailStore S :=
  mk_fail (fs_inner f) fg nth (fail_get_range f) (fail_put f) (fail_list f)
    (fail_file_size f) (fail_exists f) (fail_delete f).
Definition with_inner f (s : S) : FailStore S :=
  mk_fail s (fail_get f) (fail_get_nth f) (fail_get_range f) (fail_put f) (fail_list f)
    (fail_file_size f) (fail_exists f) (fail_delete f).

(** Configuration.  [with_fail_get_nth] panics on 0. *)
Definition with_fail_get f (fail : bool) : FailStore S := set_get_fields f fail None.
Definition with_fail_get_nth f (n : Z) : option (FailStore S) :=
  if decide (n > 0) then Some (set_get_fields f true (Some n)) else None.
Definition set_fail_get f (fail : bool) : FailStore S :=
  set_get_fields f fail (if fail then fail_get_nth f else None).
Definition set_fail_put f (fail : bool) : FailStore S :=
  mk_fail (fs_inner f) (fail_get f) (fail_get_nth f) (fail_get_range f) fail (fail_list f)
    (fail_file_size f) (fail_exists f) (fail_delete f).
Definition with_fail_all f (fail : bool) : FailStore S :=
  mk_fail (fs_inner f) fail None fail fail fail fail fail fail.

(** Whether this [get] fails, and the counter after it. *)
Definition should_fail_get f : FailStore S * bool :=
  if negb (fail_get f) then (f, false)
  else
    match fail_get_nth f with
    | Some 1 => (set_get_fields f false None, true)
    | Some n => (set_get_fields f true (Some (n - 1)), false)
    | None => (f, true)
    end.

Definition delegate {A} f (fail : bool) (op : S → S * AilakeResult A) : FailStore S * AilakeResult A :=
  if fail then (f, Err StoreError)
  else let '(s, r) := op (fs_inner f) in (with_inner f s, r).

#[export] Instance fail_store : Store (FailStore S) := {|
  st_now f := st_now (fs_inner f);
  st_get f p :=
    let '(f, fail) := should_fail_get f in delegate f fail (λ s, st_get s p);
  st_get_range f p a b := delegate f (fail_get_range f) (λ s, st_get_range s p a b);
  st_put f p d := delegate f (fail_put f) (λ s, st_put s p d);
  st_list f p := delegate f (fail_list f) (λ s, st_list s p);
  st_file_size f p := delegate f (fail_file_size f) (λ s, st_file_size s p);
  st_exists f p := delegate f (fail_exists f) (λ s, st_exists s p);
  st_delete f p := delegate f (fail_delete f) (λ s, st_delete s p);
|}.

Lemma should_fail_get_inner f : fs_inner (should_fail_get f).1 = fs_inner f.
Proof. unfold should_fail_get. by repeat case_match. Qed.

End FailStoreOps.

(** Injected faults have no effect on the contents. *)
#[export] Instance fail_store_laws {S} `{StoreLaws S} : StoreLaws (FailStore S).
Proof.
  refine {| view f := view (fs_inner f); store_inv f := store_inv (fs_inner f) |}.
  - intros f p Hi. cbn -[should_fail_get].
    pose proof (should_fail_get_inner f) as Hf. destruct (should_fail_get f) as [f' fail]. cbn in Hf.
    rewrite <- Hf in Hi |- *. unfold delegate. destruct fail; [by split_and!|].
    pose proof (get_law (fs_inner f') p Hi) as Hg. by destruct (st_get (fs_inner f') p).
  - intros f p d Hi. cbn. unfold delegate. destruct (fail_put f); [by split|].
    pose proof (put_law (fs_inner f) p d Hi) as Hg. by destruct (st_put (fs_inner f) p d).
  - intros f p Hi. cbn. unfold delegate. destruct (fail_delete f); [by split|].
    pose proof (delete_law (fs_inner f) p Hi) as Hg. by destruct (st_delete (fs_inner f) p).
Defined.

(** Which of [k] consecutive reads are made to fail. *)
Fixpoint fail_pattern {S} (k : nat) (f : FailStore S) : list bool :=
  match k with
  | O => []
  | Datatypes.S k => let '(f, b) := should_fail_get f in b :: fail_pattern k f
  end.

Lemma fail_pattern_off {S} (k : nat) (f : FailStore S) :
  fail_get f = false → fail_pattern k f = replicate k false.
Proof.
  intros Hf. induction k as [|k IH]; [done|]. cbn. unfold should_fail_get. rewrite Hf. cbn.
  by rewrite IH.
Qed.

Lemma fail_pattern_counting {S} (k : nat) (f : FailStore S) n start :
  fail_get f = true → fail_get_nth f = Some (n - start + 1) → start ≤ n →
  fail_pattern k f = (λ i, bool_decide (i = n)) <$> seqZ start (Z.of_nat k).
Proof.
  revert f start. induction k as [|k IH]; intros f start Hg Hn Hs; [done|].
  rewrite seqZ_cons by lia. cbn [fail_pattern]. unfold should_fail_get. rewrite Hg, Hn. cbn [negb].
  destruct (decide (start = n)) as [->|Hne].
  - replace (n - n + 1) with 1 by lia. cbn [fmap list_fmap]. rewrite bool_decide_eq_true_2 by done.
    f_equal. rewrite fail_pattern_off by done. apply replicate_as_elem_of.
    rewrite length_fmap, length_seqZ. split; [lia|]. intros b [i [-> Hi]]%list_elem_of_fmap.
    apply elem_of_seqZ in Hi. apply bool_decide_eq_false. lia.
  - destruct (n - start + 1) as [|[q|q|]|q] eqn:Hm; try lia; cbn [fmap list_fmap];
      rewrite (bool_decide_eq_false_2 (start = n)) by done; f_equal;
      (rewrite <- Hm; replace (Z.pred (Z.of_nat (Datatypes.S k))) with (Z.of_nat k) by lia;
       apply (IH _ (Z.succ start)); [done|cbn; f_equal; lia|lia]).
Qed.

(** A store set up to fail its [n]-th read fails exactly that one, however many
    reads follow: the earlier ones go through and the fault resets itself. *)
Theorem fail_get_nth_only {S} (f f' : FailStore S) (n : Z) (k : nat) :
  with_fail_get_nth f n = Some f' →
  fail_pattern k f' = (λ i, bool_decide (i = n)) <$> seqZ 1 (Z.of_nat k).
Proof.
  unfold with_fail_get_nth. case_decide; [|done]. intros [= <-].
  apply fail_pattern_counting; [done|cbn; f_equal; lia|lia].
Qed.

Lemma fail_get_nth_only_witness :
  fail_pattern 4 (default (fail_store_new tt) (with_fail_get_nth (fail_store_new tt) 3))
  = [false; false; true; false].
Proof.
  rewrite (fail_get_nth_only (fail_store_new tt) _ 3 4); reflexivity.
Defined.
