(* ===== verification/Effects.v ===== *)
(** * Programs over an object store

    The catalog code is a sequence of store calls with early returns.  [IO S A] is
    that: a state transformer over a store's state that returns, fails or panics.
    [wp m prog Q] says that from any state whose contents are the map [m] the
    program ends, with an outcome and contents satisfying [Q]; its rules follow from
    [StoreLaws], and from [ReliableReads] where the code depends on what a read
    returns.  Writes may always fail, unless [puts_succeed]. *)

From S2P Require Import Prelude Core Store.

Definition IO (S A : Type) : Type := S → S * outcome AilakeError A.

#[global] Instance io_ret {S} : MRet (IO S) := λ _ a s, (s, Ret (Ok a)).
#[global] Instance io_bind {S} : MBind (IO S) := λ _ _ k m s,
  match m s with
  | (s, Ret (Ok a)) => k a s
  | (s, Ret (Err e)) => (s, Ret (Err e))
  | (s, Panic) => (s, Panic)
  end.

Section Programs.
Context {S : Type}.

Definition io_err {A} (e : AilakeError) : IO S A := λ s, (s, Ret (Err e)).
Definition io_panic {A} : IO S A := λ s, (s, Panic).

(** A store call whose result the program inspects. *)
Definition io_op {A} (op : S → S * AilakeResult A) : IO S (AilakeResult A) :=
  λ s, let '(s, r) := op s in (s, Ret (Ok r)).

(** [op?]. *)
Definition io_result {A} (r : AilakeResult A) : IO S A := λ s, (s, Ret r).
Definition io_outcome {A} (o : outcome AilakeError A) : IO S A := λ s, (s, o).
Definition io_try {A} (op : S → S * AilakeResult A) : IO S A :=
  r ← io_op op; io_result r.

(** [for x in xs { … }], collecting what the body yields. *)
Fixpoint io_map {A B} (f : A → IO S B) (xs : list A) : IO S (list B) :=
  match xs with
  | [] => mret []
  | x :: xs => y ← f x; ys ← io_map f xs; mret (y :: ys)
  end.

End Programs.

Section StoreOps.
Context {S : Type} `{Store S}.
Definition io_get (p : string) : IO S (AilakeResult bytes) := io_op (λ s, st_get s p).
Definition io_put (p : string) (d : bytes) : IO S (AilakeResult unit) := io_op (λ s, st_put s p d).
Definition io_file_size (p : string) : IO S (AilakeResult Z) := io_op (λ s, st_file_size s p).
Definition io_get_range (p : string) (a b : Z) : IO S (AilakeResult bytes) :=
  io_op (λ s, st_get_range s p a b).
Definition io_exists (p : string) : IO S (AilakeResult bool) := io_op (λ s, st_exists s p).
Definition io_delete (p : string) : IO S (AilakeResult unit) := io_op (λ s, st_delete s p).

(** With [?]. *)
Definition get_ (p : string) : IO S bytes := r ← io_get p; io_result r.
Definition put_ (p : string) (d : bytes) : IO S unit := r ← io_put p d; io_result r.
Definition file_size_ (p : string) : IO S Z := r ← io_file_size p; io_result r.
Definition get_range_ (p : string) (a b : Z) : IO S bytes := r ← io_get_range p a b; io_result r.
End StoreOps.

(** Reads return what is stored. *)
Class ReliableReads (S : Type) `{StoreLaws S} : Prop := {
  get_reliable s p : store_inv s → (st_get s p).2 = ok_or (view s !! p) StoreError;
  size_reliable s p : store_inv s → let '(s', r) := st_file_size s p in
    store_inv s' ∧ view s' = view s ∧ r = (d ← ok_or (view s !! p) StoreError; Ok (Zlen d));
  exists_reliable s p : store_inv s → let '(s', r) := st_exists s p in
    store_inv s' ∧ view s' = view s ∧ r = Ok (bool_decide (is_Some (view s !! p)));
}.

(** A range read returns the range when it lies inside the object, and fails
    otherwise.  [LocalStore] also refuses ranges of more than 256 MiB
    ([MAX_LOCAL_RANGE_BYTES]): for it this holds of objects within that size. *)
Class ReliableRanges (S : Type) `{StoreLaws S} : Prop := {
  range_reliable s p a b : store_inv s → let '(s', r) := st_get_range s p a b in
    store_inv s' ∧ view s' = view s ∧
    match view s !! p ≫= λ d, slice d a b with
    | Some v => r = Ok v
    | None => ∃ e, r = Err e
    end;
}.

(** Writes and deletes of existing objects succeed. *)
Definition puts_succeed (S : Type) `{StoreLaws S} : Prop :=
  ∀ s p d, store_inv s → (st_put s p d).2 = Ok tt.
Definition deletes_succeed (S : Type) `{StoreLaws S} : Prop :=
  ∀ s p, store_inv s → is_Some (view s !! p) → (st_delete s p).2 = Ok tt.

(** Locking touches nothing but the lock object. *)
Class LockLaws (S : Type) `{StoreLaws S} `{LockStore S} : Prop := {
  acquire_frame s p : store_inv s → let '(s', _) := try_acquire_lock s p in
    store_inv s' ∧ ∀ q, q ≠ p → view s' !! q = view s !! q;
  release_frame s p : store_inv s → let '(s', _) := release_lock s p in
    store_inv s' ∧ ∀ q, q ≠ p → view s' !! q = view s !! q;
}.

(** ** The rules *)
Section Wp.
Context {S : Type} `{StoreLaws S}.

Definition sees (s : S) (m : gmap string bytes) : Prop := store_inv s ∧ view s = m.

Definition wp {A} (m : gmap string bytes) (prog : IO S A)
    (Q : outcome AilakeError A → gmap string bytes → Prop) : Prop :=
  ∀ s, sees s m → ∃ s' o m', prog s = (s', o) ∧ sees s' m' ∧ Q o m'.

Lemma wp_ret {A} m (a : A) Q : Q (Ret (Ok a)) m → wp m (mret a) Q.
Proof. intros HQ s Hs. by exists s, (Ret (Ok a)), m. Qed.

Lemma wp_outcome {A} m (o : outcome AilakeError A) Q : Q o m → wp m (io_outcome o) Q.
Proof. intros HQ s Hs. by exists s, o, m. Qed.

Lemma wp_result {A} m (r : AilakeResult A) Q : Q (Ret r) m → wp m (io_result r) Q.
Proof. apply (wp_outcome m (Ret r)). Qed.

Lemma wp_err {A} m e (Q : outcome AilakeError A → _) : Q (Ret (Err e)) m → wp m (io_err e) Q.
Proof. apply (wp_outcome m (Ret (Err e))). Qed.

Lemma wp_bind {A B} m (prog : IO S A) (k : A → IO S B) Q :
  wp m prog (λ o m', match o with
                     | Ret (Ok a) => wp m' (k a) Q
                     | Ret (Err e) => Q (Ret (Err e)) m'
                     | Panic => Q Panic m'
                     end) →
  wp m (prog ≫= k) Q.
Proof.
  intros Hp s Hs. destruct (Hp s Hs) as (s1 & o & m1 & E & Hs1 & HQ).
  unfold mbind, io_bind. rewrite E. destruct o as [[a|e]|]; [by apply HQ|naive_solver..].
Qed.

Lemma wp_mono {A} m (prog : IO S A) (Q R : outcome AilakeError A → gmap string bytes → Prop) :
  wp m prog Q → (∀ o m', Q o m' → R o m') → wp m prog R.
Proof. intros Hp HQR s Hs. destruct (Hp s Hs) as (s' & o & m' & ? & ? & ?). eauto 10. Qed.

(** A program run from a known state. *)
Lemma wp_run {A} s m (prog : IO S A) Q :
  wp m prog Q → sees s m → ∃ m', sees (prog s).1 m' ∧ Q (prog s).2 m'.
Proof. intros Hp Hs. destruct (Hp s Hs) as (s' & o & m' & E & Hs' & HQ). rewrite E. eauto. Qed.

Lemma wp_put m p d Q :
  Q (Ret (Ok (Ok tt))) (<[p := d]> m) →
  (∀ e, ¬ puts_succeed S → Q (Ret (Ok (Err e))) m) →
  wp m (io_put p d) Q.
Proof.
  intros HO HE s [Hi <-]. pose proof (put_law s p d Hi) as Hp.
  assert (Hs : puts_succeed S → (st_put s p d).2 = Ok tt) by auto.
  unfold io_put, io_op. destruct (st_put s p d) as [s' r]. destruct Hp as [Hi' Hv].
  eexists s', _, (view s'). split; [done|]. split; [done|]. rewrite Hv.
  destruct r as [[]|e]; cbn in *; [done|]. apply HE. intros Hput. by specialize (Hs Hput).
Qed.

Lemma wp_put_ m p d Q :
  Q (Ret (Ok tt)) (<[p := d]> m) →
  (∀ e, ¬ puts_succeed S → Q (Ret (Err e)) m) →
  wp m (put_ p d) Q.
Proof.
  intros HO HE. apply wp_bind, wp_put; [by apply wp_result|]. intros e He. by apply wp_result, HE.
Qed.

Lemma wp_delete m p Q :
  Q (Ret (Ok (Ok tt))) (delete p m) → (∀ e, Q (Ret (Ok (Err e))) m) → wp m (io_delete p) Q.
Proof.
  intros HO HE s [Hi <-]. pose proof (delete_law s p Hi) as Hd. unfold io_delete, io_op.
  destruct (st_delete s p) as [s' r]. destruct Hd as [Hi' Hv]. eexists s', _, (view s').
  split; [done|]. split; [done|]. rewrite Hv. by destruct r as [[]|e].
Qed.

(** A loop over items whose results are known up to a relation. *)
Lemma wp_map_rel {A B} m (f : A → IO S B) (P : A → B → Prop) xs Q :
  (∀ x R, x ∈ xs → (∀ r, (∀ y, r = Ok y → P x y) → R (Ret r) m) → wp m (f x) R) →
  (∀ ys, Forall2 P xs ys → Q (Ret (Ok ys)) m) → (∀ e, Q (Ret (Err e)) m) →
  wp m (io_map f xs) Q.
Proof.
  revert Q. induction xs as [|x xs IH]; intros Q Hf HO HE; [by apply wp_ret, HO|].
  cbn [io_map]. apply wp_bind, Hf; [by left|]. intros [y|e] Hy; [|done].
  apply wp_bind, IH; [intros z R Hz; apply Hf; by right| |done]. intros ys Hys. apply wp_ret, HO. constructor; auto.
Qed.

Context `{!ReliableReads S}.

Lemma wp_get m p Q : Q (Ret (Ok (ok_or (m !! p) StoreError))) m → wp m (io_get p) Q.
Proof.
  intros HQ s [Hi <-]. pose proof (get_law s p Hi) as Hg. pose proof (get_reliable s p Hi) as Hr.
  unfold io_get, io_op. destruct (st_get s p) as [s' r]. cbn in Hr. subst r.
  destruct Hg as (Hi' & Hv & _). by eexists s', _, (view s).
Qed.

Lemma wp_get_ m p Q : Q (Ret (ok_or (m !! p) StoreError)) m → wp m (get_ p) Q.
Proof. intros HQ. by apply wp_bind, wp_get, wp_result. Qed.

Lemma wp_file_size m p Q :
  Q (Ret (Ok (d ← ok_or (m !! p) StoreError; Ok (Zlen d)))) m → wp m (io_file_size p) Q.
Proof.
  intros HQ s [Hi <-]. pose proof (size_reliable s p Hi) as Hr.
  unfold io_file_size, io_op. destruct (st_file_size s p) as [s' r].
  destruct Hr as (Hi' & Hv & ->). by eexists s', _, (view s).
Qed.

Lemma wp_exists m p Q :
  Q (Ret (Ok (Ok (bool_decide (is_Some (m !! p)))))) m → wp m (io_exists p) Q.
Proof.
  intros HQ s [Hi <-]. pose proof (exists_reliable s p Hi) as Hr.
  unfold io_exists, io_op. destruct (st_exists s p) as [s' r].
  destruct Hr as (Hi' & Hv & ->). by eexists s', _, (view s).
Qed.

Lemma wp_get_range `{!ReliableRanges S} m p a b Q :
  (∀ r : AilakeResult bytes,
    match m !! p ≫= λ d, slice d a b with Some v => r = Ok v | None => ∃ e, r = Err e end →
    Q (Ret r) m) →
  wp m (get_range_ p a b) Q.
Proof.
  intros HQ. apply wp_bind. intros s [Hi <-]. pose proof (range_reliable s p a b Hi) as Hr.
  unfold io_get_range, io_op. destruct (st_get_range s p a b) as [s' r].
  destruct Hr as (Hi' & Hv & Hr). eexists s', _, (view s). split; [done|]. split; [done|].
  by apply wp_result, HQ.
Qed.

(** A loop that reads: every item yields its value and nothing is written. *)
Lemma wp_map_pure {A B} m (f : A → IO S B) (g : A → B) xs Q :
  (∀ x R, R (Ret (Ok (g x))) m → wp m (f x) R) →
  Q (Ret (Ok (g <$> xs))) m → wp m (io_map f xs) Q.
Proof.
  intros Hf. revert Q. induction xs as [|x xs IH]; intros Q HQ; [by apply wp_ret|].
  cbn [io_map]. apply wp_bind, Hf, wp_bind, IH, wp_ret, HQ.
Qed.

(** A loop that may fail: the first failure ends it. *)
Lemma wp_map_result {A B} m (f : A → IO S B) (g : A → AilakeResult B) xs Q :
  (∀ x R, R (Ret (g x)) m → wp m (f x) R) →
  Q (Ret (try_map g xs)) m → wp m (io_map f xs) Q.
Proof.
  intros Hf. revert Q. induction xs as [|x xs IH]; intros Q HQ; [by apply wp_ret|].
  cbn [io_map]. apply wp_bind, Hf. cbn in HQ. destruct (g x) as [y|e]; [|done].
  apply wp_bind, IH. destruct (try_map g xs); [by apply wp_ret|done].
Qed.

End Wp.

(** ** The abstract store *)
#[export] Instance mem_reliable : ReliableReads MemStore.
Proof. by constructor. Qed.

#[export] Instance mem_ranges : ReliableRanges MemStore.
Proof.
  constructor. intros s p a b _. cbn. split_and!; [done..|].
  destruct (mem_objects s !! p) as [d|]; cbn; [|eauto]. destruct (slice d a b); cbn; eauto.
Qed.

Lemma mem_puts_succeed : puts_succeed MemStore.
Proof. done. Qed.

Lemma mem_deletes_succeed : deletes_succeed MemStore.
Proof. intros s p _ [d Hd]. cbn in Hd |- *. by rewrite Hd. Qed.

(** The trait's default lock methods: nothing is locked. *)
#[export] Instance mem_lock : LockStore MemStore := {|
  try_acquire_lock s _ := (s, Ok true);
  release_lock s _ := (s, Ok tt);
  renew_lock s _ := (s, Ok true);
|}.

#[export] Instance mem_lock_laws : LockLaws MemStore.
Proof. by constructor. Qed.

(** [FailStore] passes the lock calls on. *)
#[export] Instance fail_lock {S} `{LockStore S} : LockStore (FailStore S) := {|
  try_acquire_lock f p := let '(s, r) := try_acquire_lock (fs_inner f) p in (with_inner f s, r);
  release_lock f p := let '(s, r) := release_lock (fs_inner f) p in (with_inner f s, r);
  renew_lock f p := let '(s, r) := renew_lock (fs_inner f) p in (with_inner f s, r);
|}.
