(* ===== verification/IndexLoader.v ===== *)
(** * The range-read index loader

    Models [ailake-query/src/index_loader.rs]: the primary column's index of a stored
    file is loaded with a few range reads instead of the whole file, from a tail of
    the file large enough for the Parquet footer.  [fast_path_equals_full] says that
    this loader and the reader of the whole file give the same index for every
    Parquet file with [ailake.footer_offset] and no entry under the column's own key,
    whatever its AILK sections hold. *)

From S2P Require Import Prelude Core Footer IvfPq FileFormat FileTheorems Store Effects.

Definition SPECULATIVE_TAIL_BYTES : Z := 65536.

Record TailBuf : Type := mk_tail { tb_base : Z; tb_bytes : bytes }.

Section IndexLoader.
Context `{PL : ParquetLib} `{IL : !IndexLib} {S : Type} `{Store S}.

(** The range if it lies in the buffer. *)
Definition tail_slice (t : TailBuf) (start end_ : Z) : outcome AilakeError (option bytes) :=
  if (start <? tb_base t) || (wrap 64 (tb_base t + Zlen (tb_bytes t)) <? end_) then Ret (Ok None)
  else b ← or_panic (slice (tb_bytes t) (start - tb_base t) (end_ - tb_base t)); Ret (Ok (Some b)).

(** The range from the buffer, or from the store. *)
Definition range_or_tail (path : string) (t : TailBuf) (start end_ : Z) : IO S bytes :=
  o ← io_outcome (tail_slice t start end_);
  match o with
  | Some b => mret b
  | None => get_range_ path start end_
  end.

Definition resolve_ailk_offset (path : string) (file_size : Z) : IO S (Z * TailBuf) :=
  let guess_len := Z.min SPECULATIVE_TAIL_BYTES file_size in
  let base := file_size - guess_len in
  tail ← get_range_ path base file_size;
  t ← match parquet_footer_start tail with
      | Ok _ => mret (mk_tail base tail)
      | Err _ =>
          if decide (Zlen tail < 8) then io_err NotAnAilakeFile
          else
            len_bytes ← io_outcome (or_panic (slice tail (Zlen tail - 8) (Zlen tail - 4)));
            let exact_len := Z.min (8 + from_le len_bytes) file_size in
            let base := file_size - exact_len in
            tail ← get_range_ path base file_size;
            mret (mk_tail base tail)
      end;
  kv ← io_result (kv_metadata (tb_bytes t) FOOTER_OFFSET_KEY);
  match kv with
  | Some v => off ← io_result (parse_offset v); mret (off, t)
  | None => io_err NotAnAilakeFile
  end.

Definition load_primary_index (path : string) : IO S AnyIndex :=
  file_size ← file_size_ path;
  '(ailk_offset, tail) ← resolve_ailk_offset path file_size;
  header_end ← io_result (ok_or (checked_add 64 ailk_offset HEADER_SIZE) NotAnAilakeFile);
  header_bytes ← range_or_tail path tail ailk_offset header_end;
  if negb (Zlen header_bytes =? HEADER_SIZE) then io_err NotAnAilakeFile
  else
    header ← io_result (Header.from_bytes header_bytes);
    index_start ← io_result
      (ok_or (checked_add 64 ailk_offset (Header.hnsw_offset header)) NotAnAilakeFile);
    index_end ← io_result (ok_or (checked_add 64 index_start (Header.hnsw_len header)) NotAnAilakeFile);
    index_bytes ← range_or_tail path tail index_start index_end;
    if negb (Z.land (Header.flags header) FLAG_INDEX_IVF_PQ =? 0) then
      idx ← io_outcome (IvfPqSerializer.from_bytes ivf_deserialize_from index_bytes);
      mret (AnyIvfPq idx)
    else
      idx ← io_result (hnsw_from_bytes index_bytes); mret (AnyHnsw (finish_hnsw header idx)).

(* ------------------------------------------------------------------ *)
(** ** What the loader sees of the file                                *)
(* ------------------------------------------------------------------ *)

Context `{LW : !ParquetLaws PL} `{!StoreLaws S, !ReliableReads S, !ReliableRanges S}.

Definition ok_value {A} (o : outcome AilakeError A) : option A :=
  match o with Ret (Ok a) => Some a | _ => None end.

(** The outcome is the given value, or an error or a panic when there is none. *)
Definition agrees {A} (v : option A) (o : outcome AilakeError A) : Prop := ok_value o = v.

Lemma ok_value_Ok {A} (a : A) o : ok_value o = Some a ↔ o = Ret (Ok a).
Proof. destruct o as [[b|e]|]; cbn; naive_solver. Qed.

Lemma agrees_Some {A} (a : A) o : agrees (Some a) o ↔ o = Ret (Ok a).
Proof. apply ok_value_Ok. Qed.

Lemma ok_value_bind {A B} (o : outcome AilakeError A) (k : A → outcome AilakeError B) :
  ok_value (o ≫= k) = ok_value o ≫= (ok_value ∘ k).
Proof. by destruct o as [[a|e]|]. Qed.

(** Sequencing: a program that agrees with an optional value, then a continuation
    that agrees with the rest. *)
Lemma wp_agrees_bind {A B} m (prog : IO S A) (k : A → IO S B) (v : option A) (w : A → option B) :
  wp m prog (λ o m', m' = m ∧ agrees v o) →
  (∀ a, v = Some a → wp m (k a) (λ o m', m' = m ∧ agrees (w a) o)) →
  wp m (prog ≫= k) (λ o m', m' = m ∧ agrees (v ≫= w) o).
Proof.
  intros Hp Hk. apply wp_bind. eapply wp_mono; [exact Hp|]. intros o m' [-> Ho].
  destruct v as [a|]; [apply agrees_Some in Ho as ->; by apply Hk|].
  by destruct o as [[?|?]|].
Qed.

Lemma wp_agrees_result {A} m (r : AilakeResult A) :
  wp m (io_result r) (λ o m', m' = m ∧ agrees (to_option r) o).
Proof. apply wp_result. split; [done|]. by destruct r. Qed.

Lemma slice_drop {A} (f : list A) base a b :
  0 ≤ base ≤ a → a ≤ b → base ≤ Zlen f →
  slice (drop (Z.to_nat base) f) (a - base) (b - base) = slice f a b.
Proof.
  intros Hb Ha Hle. unfold slice. destruct (decide (b ≤ Zlen f)).
  - rewrite !decide_True; [|len|len]. rewrite drop_drop.
    replace (Z.to_nat base + Z.to_nat (a - base))%nat with (Z.to_nat a) by lia.
    by replace (b - base - (a - base)) with (b - a) by lia.
  - rewrite !decide_False; [done|len|len].
Qed.

Lemma wp_range_or_tail m path f base a b :
  m !! path = Some f → 0 ≤ base ≤ Zlen f → Zlen f < 2 ^ 64 → 0 ≤ a ≤ b →
  wp m (range_or_tail path (mk_tail base (drop (Z.to_nat base) f)) a b)
    (λ o m', m' = m ∧ agrees (slice f a b) o).
Proof.
  intros Hf Hb Hlt Ha. apply wp_bind, wp_outcome. unfold tail_slice. cbn [tb_base tb_bytes].
  rewrite wrap_id by (unfold fits; len).
  destruct ((a <? base) || _) eqn:E; cbn [mbind outcome_bind].
  - apply wp_get_range. rewrite Hf. cbn. intros r Hr. split; [done|].
    destruct (slice f a b); [by subst r|]. by destruct Hr as [e ->].
  - apply orb_false_iff in E as [E1 E2].
    apply Z.ltb_ge in E1, E2. rewrite length_drop in E2.
    assert (b ≤ Zlen f) by lia.
    rewrite slice_drop by lia. destruct (slice_in_range f a b) as [v Hv]; [lia|lia|].
    rewrite Hv. cbn. by apply wp_ret.
Qed.

(** The eight bytes at the end of a Parquet file give the footer length. *)
Lemma tail_length_bytes pre thrift :
  let buf := pre ++ thrift ++ to_le 4 (Zlen thrift) ++ PARQUET_MAGIC in
  slice buf (Zlen buf - 8) (Zlen buf - 4) = Some (to_le 4 (Zlen thrift)).
Proof.
  cbv zeta. rewrite app_assoc. apply slice_mid; unfold PARQUET_MAGIC; len.
Qed.

(** A buffer that ends inside the footer is refused. *)
Lemma parquet_footer_start_short pre thrift n :
  let buf := pre ++ thrift ++ to_le 4 (Zlen thrift) ++ PARQUET_MAGIC in
  fits 32 (Zlen thrift) → Zlen pre < n → n ≤ Zlen buf - 8 →
  ∃ e, parquet_footer_start (drop (Z.to_nat n) buf) = Err e.
Proof.
  cbv zeta. intros Ht Hn Hle.
  set (k := Z.to_nat (n - Zlen pre)).
  assert (Hk : (k ≤ length thrift)%nat) by (subst k; unfold PARQUET_MAGIC in Hle; len).
  replace (drop (Z.to_nat n) _) with (drop k thrift ++ to_le 4 (Zlen thrift) ++ PARQUET_MAGIC).
  2:{ replace (Z.to_nat n) with (length pre + k)%nat by lia.
      rewrite <- drop_drop, drop_app_length, drop_app_le by lia. done. }
  unfold parquet_footer_start. set (buf := drop k thrift ++ _).
  assert (Hb : Zlen buf = Zlen thrift - Z.of_nat k + 8) by (subst buf; unfold PARQUET_MAGIC; len).
  rewrite decide_False by lia.
  assert (E2 : take 4 (drop (Z.to_nat (Zlen buf - 8)) buf) = to_le 4 (Zlen thrift)).
  { subst buf. rewrite drop_app_length' by (rewrite length_drop; lia).
    apply take_app_length'. by rewrite to_le_length. }
  destruct (bool_decide _); cbn [negb]; [|eauto].
  rewrite E2, from_to_le by done. unfold checked_sub. rewrite decide_False by lia. cbn. eauto.
Qed.

(** The offset stored in the footer, and a buffer that is a tail of the file. *)
Lemma wp_resolve m path f body p b e kv :
  m !! path = Some f → f = body ++ parquet_tail p b e kv → footer_fits p b e kv →
  wp m (resolve_ailk_offset path (Zlen f))
    (λ o m', m' = m ∧
      ∃ base, 0 ≤ base ≤ Zlen f ∧
      agrees (v ← kv_find FOOTER_OFFSET_KEY kv; off ← parse_u64 v;
              Some (off, mk_tail base (drop (Z.to_nat base) f))) o).
Proof.
  intros Hf Ef Hfit. unfold resolve_ailk_offset.
  set (n := Z.min SPECULATIVE_TAIL_BYTES (Zlen f)).
  assert (Hread : ∀ base, 0 ≤ base ≤ Zlen f →
    slice f base (Zlen f) = Some (drop (Z.to_nat base) f)).
  { intros base Hb. unfold slice. rewrite decide_True by lia. f_equal. apply take_ge. len. }
  assert (Hkv : ∀ base, 0 ≤ base ≤ Zlen body →
    kv_metadata (drop (Z.to_nat base) f) FOOTER_OFFSET_KEY = Ok (kv_find FOOTER_OFFSET_KEY kv)).
  { intros base Hb. rewrite Ef, drop_app_le by lia. by apply kv_metadata_tail. }
  assert (Hend : ∀ base, 0 ≤ base ≤ Zlen body →
    wp m (kv ← io_result (kv_metadata (drop (Z.to_nat base) f) FOOTER_OFFSET_KEY);
          match kv with
          | Some v => off ← io_result (parse_offset v); mret (off, mk_tail base (drop (Z.to_nat base) f))
          | None => io_err NotAnAilakeFile
          end)
      (λ o m', m' = m ∧ ∃ base, 0 ≤ base ≤ Zlen f ∧
        agrees (v ← kv_find FOOTER_OFFSET_KEY kv; off ← parse_u64 v;
              Some (off, mk_tail base (drop (Z.to_nat base) f))) o)).
  { intros base Hb. rewrite (Hkv base Hb). apply wp_bind, wp_result.
    assert (0 ≤ base ≤ Zlen f) by (rewrite Ef; len).
    destruct (kv_find _ kv) as [v|]; [|by apply wp_err; split; [done|]; exists base].
    apply wp_bind, wp_result. unfold parse_offset. cbn [mbind option_bind].
    destruct (parse_u64 v) as [off|]; [apply wp_ret|]; (split; [done|]); by exists base. }
  apply wp_bind, wp_get_range. rewrite Hf. cbn [mbind option_bind].
  assert (Hn0 : 0 ≤ n ≤ Zlen f) by (subst n; unfold SPECULATIVE_TAIL_BYTES; lia).
  rewrite Hread by lia. intros r ->. cbn beta iota.
  assert (Zlen f = Zlen body + Zlen (footer_thrift p b e kv) + 8).
  { rewrite Ef. unfold parquet_tail, PARQUET_MAGIC. len. }
  destruct (decide (Zlen f - n ≤ Zlen body)) as [Hin|Hout].
  - assert (Hok : parquet_footer_start (drop (Z.to_nat (Zlen f - n)) f) =
      Ok (Zlen (drop (Z.to_nat (Zlen f - n)) body))).
    { generalize dependent (Zlen f - n). intros base Hin. rewrite Ef, drop_app_le by lia.
      by apply footer_start_of_tail. }
    rewrite Hok. apply wp_bind, wp_ret. cbn [tb_bytes]. apply Hend. lia.
  - destruct (parquet_footer_start_short body (footer_thrift p b e kv) (Zlen f - n) Hfit)
      as [err Herr]; [lia| |].
    { change (footer_thrift p b e kv ++ _) with (parquet_tail p b e kv). rewrite <- Ef.
      unfold SPECULATIVE_TAIL_BYTES in n. lia. }
    change (footer_thrift p b e kv ++ _) with (parquet_tail p b e kv) in Herr.
    rewrite <- Ef in Herr. rewrite Herr.
    assert (Hn : n = SPECULATIVE_TAIL_BYTES) by (subst n; lia). unfold SPECULATIVE_TAIL_BYTES in Hn.
    rewrite decide_False by len.
    assert (Hlen : slice (drop (Z.to_nat (Zlen f - n)) f)
      (Zlen (drop (Z.to_nat (Zlen f - n)) f) - 8) (Zlen (drop (Z.to_nat (Zlen f - n)) f) - 4)
      = Some (to_le 4 (Zlen (footer_thrift p b e kv)))).
    { pose proof (tail_length_bytes body (footer_thrift p b e kv)) as Ht. cbv zeta in Ht.
      change (footer_thrift p b e kv ++ _) with (parquet_tail p b e kv) in Ht. rewrite <- Ef in Ht.
      rewrite <- Ht, <- (slice_drop f (Zlen f - n)) by lia. f_equal; len. }
    rewrite Hlen. apply wp_bind, wp_bind, wp_outcome. cbn [or_panic].
    rewrite from_to_le by done. apply wp_bind, wp_get_range. rewrite Hf. cbn [mbind option_bind].
    replace (Zlen f - Z.min _ _) with (Zlen body) by lia.
    rewrite Hread by lia. intros r ->. apply wp_ret. apply Hend. lia.
Qed.

(* ------------------------------------------------------------------ *)
(** ** The index of a section, as a partial function                   *)
(* ------------------------------------------------------------------ *)

Definition index_of_bytes (h : Header.AilakeHeader) (b : bytes) : option AnyIndex :=
  if negb (Z.land (Header.flags h) FLAG_INDEX_IVF_PQ =? 0)
  then AnyIvfPq <$> ok_value (IvfPqSerializer.from_bytes ivf_deserialize_from b)
  else (AnyHnsw ∘ finish_hnsw h) <$> to_option (hnsw_from_bytes b).

Definition header_at (f : bytes) (off : Z) : option Header.AilakeHeader :=
  e ← checked_add 64 off HEADER_SIZE; b ← slice f off e; to_option (Header.from_bytes b).

Definition index_at (f : bytes) (off : Z) : option AnyIndex :=
  h ← header_at f off;
  a ← checked_add 64 off (Header.hnsw_offset h);
  e ← checked_add 64 a (Header.hnsw_len h);
  b ← slice f a e;
  index_of_bytes h b.

Lemma read_header_value f x off :
  0 ≤ off → ok_value (read_header_at_offset (mk_reader f x) off) = header_at f off.
Proof.
  intros H0. unfold read_header_at_offset, header_at, checked_add, HEADER_SIZE. cbn [r_bytes].
  case_decide; [|done]. cbn [ok_or mbind outcome_bind option_bind]. case_decide.
  - unfold slice. by rewrite decide_False by lia.
  - destruct (slice_in_range f off (off + 64)) as [b ->]; [lia|lia|]. cbn.
    by destruct (Header.from_bytes b).
Qed.

Lemma header_at_wf f off h : bytes_ok f → 0 ≤ off → header_at f off = Some h → Header.wf h.
Proof.
  intros Hb H0 Hh. apply (read_header_wf (mk_reader f "") off); [done|done|].
  rewrite <- (read_header_value f "") in Hh by done.
  by destruct (read_header_at_offset _ _) as [[?|]|]; inversion Hh.
Qed.

Lemma full_value f x column off :
  bytes_ok f → 0 ≤ off → ailk_offset_for_column (mk_reader f x) column = Ret (Ok off) →
  ok_value (load_any_index_for_column (mk_reader f x) column) = index_at f off.
Proof.
  intros Hb H0 Ho. unfold load_any_index_for_column, index_bytes_for_column, index_at.
  rewrite Ho. cbn [mbind outcome_bind]. pose proof (read_header_value f x off H0) as Hv.
  destruct (read_header_at_offset _ _) as [[h|]|]; cbn in Hv; rewrite <- Hv; [|done..].
  cbn [mbind outcome_bind option_bind]. unfold checked_slice. cbn [r_bytes]. symmetry in Hv.
  apply header_at_wf in Hv as (_&_&_&_&_&_&[Ho0 _]&[Hl0 _]); [|done|done].
  unfold checked_add. case_decide; [|done]. cbn [ok_or mbind outcome_bind option_bind].
  case_decide; [|done]. cbn [ok_or mbind outcome_bind option_bind]. case_decide.
  - unfold slice. by rewrite decide_False by lia.
  - destruct (slice_in_range f (off + Header.hnsw_offset h) (off + Header.hnsw_offset h + Header.hnsw_len h))
      as [b Hs]; [lia|lia|]. rewrite Hs. cbn [or_panic mbind outcome_bind option_bind].
    unfold index_of_bytes. destruct (negb _);
      [by destruct (IvfPqSerializer.from_bytes _ b) as [[]|]|by destruct (hnsw_from_bytes b)].
Qed.

(** The loader after the offset is known. *)
Lemma wp_agrees_range_bind {B} m path f base a e (k : bytes → IO S B) (w : bytes → option B) :
  m !! path = Some f → 0 ≤ base ≤ Zlen f → Zlen f < 2 ^ 64 → 0 ≤ a ≤ e →
  (∀ b, slice f a e = Some b → wp m (k b) (λ o m', m' = m ∧ agrees (w b) o)) →
  wp m (range_or_tail path (mk_tail base (drop (Z.to_nat base) f)) a e ≫= k)
    (λ o m', m' = m ∧ agrees (slice f a e ≫= w) o).
Proof. intros. apply wp_agrees_bind; [by apply wp_range_or_tail|done]. Qed.

Lemma wp_agrees_result_bind {A B} m (r : AilakeResult A) (k : A → IO S B) (w : A → option B) :
  (∀ a, r = Ok a → wp m (k a) (λ o m', m' = m ∧ agrees (w a) o)) →
  wp m (io_result r ≫= k) (λ o m', m' = m ∧ agrees (to_option r ≫= w) o).
Proof.
  intros Hk. apply wp_agrees_bind; [apply wp_agrees_result|]. intros a Ha. apply Hk.
  by destruct r; inversion Ha.
Qed.

Lemma wp_agrees_opt_bind {A B} m (v : option A) err (k : A → IO S B) (w : A → option B) :
  (∀ a, v = Some a → wp m (k a) (λ o m', m' = m ∧ agrees (w a) o)) →
  wp m (io_result (ok_or v err) ≫= k) (λ o m', m' = m ∧ agrees (v ≫= w) o).
Proof.
  intros Hk. apply wp_agrees_bind; [|done]. apply wp_result. split; [done|]. by destruct v.
Qed.

Lemma wp_load_primary m path f body p b e kv :
  m !! path = Some f → f = body ++ parquet_tail p b e kv → footer_fits p b e kv →
  bytes_ok f → Zlen f < 2 ^ 64 →
  wp m (load_primary_index path) (λ o m', m' = m ∧
    agrees (v ← kv_find FOOTER_OFFSET_KEY kv; off ← parse_u64 v; index_at f off) o).
Proof.
  intros Hf Ef Hfit Hb Hlt. unfold load_primary_index.
  apply wp_bind, wp_bind, wp_file_size. rewrite Hf. apply wp_result. cbn [ok_or mbind result_bind].
  apply wp_bind. eapply wp_mono; [by apply (wp_resolve m path f body p b e kv)|].
  intros o m' [-> (base & Hbase & Ho)].
  destruct (kv_find FOOTER_OFFSET_KEY kv) as [v|]; cbn [mbind option_bind] in Ho |- *; [|by destruct o as [[?|?]|]].
  destruct (parse_u64 v) as [off|] eqn:Hv; cbn [mbind option_bind] in Ho |- *;
    [apply agrees_Some in Ho as ->|by destruct o as [[?|?]|]].
  apply parse_u64_nonneg in Hv. unfold index_at.
  unfold header_at. rewrite option_bind_assoc. apply wp_agrees_opt_bind. intros he Hhe.
  unfold compose. rewrite option_bind_assoc.
  unfold checked_add in Hhe. case_decide; [|done]. injection Hhe as <-.
  apply wp_agrees_range_bind; [done..|unfold HEADER_SIZE; lia|].
  intros hb Hhb. pose proof (slice_Some _ _ _ _ Hhb) as (_ & _ & Hlen).
  rewrite (proj2 (Z.eqb_eq _ _)) by lia. cbn [negb compose].
  apply wp_agrees_result_bind. intros h Hh.
  assert (Hwf : Header.wf h).
  { apply (header_at_wf f off); [done..|]. unfold header_at, checked_add.
    rewrite decide_True by done. cbn [mbind option_bind]. rewrite Hhb. cbn [mbind option_bind].
    by rewrite Hh. }
  destruct Hwf as (_&_&_&_&_&_&[Ho0 _]&[Hl0 _]).
  apply wp_agrees_opt_bind. intros a Ha. apply wp_agrees_opt_bind. intros en Hen.
  unfold checked_add in Ha, Hen. repeat case_decide; try done. injection Ha as <-. injection Hen as <-.
  apply wp_agrees_range_bind; [done..|lia|]. intros ib _. unfold index_of_bytes.
  destruct (negb _); apply wp_bind.
  - apply wp_outcome. destruct (IvfPqSerializer.from_bytes _ ib) as [[?|?]|]; cbn; [by apply wp_ret|done..].
  - apply wp_result. destruct (hnsw_from_bytes ib); cbn; [by apply wp_ret|done].
Qed.

(** C32: the range-read loader and the reader of the whole file load the same index.
    For a Parquet file in the store, whatever bytes precede its footer, whose metadata
    has [ailake.footer_offset] (as the two-pass writers store it, and the single-pass
    one does not) and no entry under the column's own key, the loader succeeds exactly
    when the reader does, with the same index.  The store serves every range that lies
    inside the file ([ReliableRanges]). *)
Theorem fast_path_equals_full s path f body p b e kv column idx :
  store_inv s → view s !! path = Some f →
  f = body ++ parquet_tail p b e kv → footer_fits p b e kv →
  bytes_ok f → Zlen f < 2 ^ 64 →
  kv_find (column_key column) kv = None → is_Some (kv_find FOOTER_OFFSET_KEY kv) →
  (load_primary_index path s).2 = Ret (Ok idx) ↔
  load_any_index_for_column {| r_bytes := f; r_vector_column := column |} column = Ret (Ok idx).
Proof.
  intros Hi Hf Ef Hfit Hb Hlt Hcol [v Hv].
  destruct (wp_run s (view s) _ _ (wp_load_primary (view s) path f body p b e kv Hf Ef Hfit Hb Hlt)
    ltac:(done)) as (m' & _ & _ & Ho).
  rewrite Hv in Ho. cbn [mbind option_bind] in Ho.
  assert (Hoff : ailk_offset_for_column (mk_reader f column) column = Ret (parse_offset v)).
  { unfold ailk_offset_for_column. cbn [r_bytes].
    rewrite Ef, !kv_metadata_tail by auto. cbn. by rewrite Hcol, Hv. }
  unfold parse_offset in Hoff. destruct (parse_u64 v) as [off|] eqn:Hp; cbn in Ho; cbn [ok_or] in Hoff.
  - pose proof (full_value f column column off Hb (parse_u64_nonneg _ _ Hp) Hoff) as Hfull.
    rewrite <- Hfull in Ho. unfold agrees in Ho.
    rewrite <- !ok_value_Ok. by rewrite Ho.
  - unfold load_any_index_for_column, index_bytes_for_column. rewrite Hoff. cbn.
    rewrite <- ok_value_Ok, Ho. naive_solver.
Qed.

End IndexLoader.
