(* ===== verification/Resilience.v ===== *)
(** * Circuit breaker, circuit-breaking store, rate limiter

    [CircuitBreaker], [CircuitBreakingStore] and [RateLimiter] of
    [ailake-cache/src/lib.rs].  The breaker's [execute] takes its mutex twice,
    before and after the awaited operation; [Breaker.step] interleaves these two
    critical sections of any number of calls, with calls that are dropped
    (cancelled) while they are awaited.  Instants are integers. *)

From S2P Require Import Prelude Core Store.

Inductive CacheError : Type := CacheConfiguration | CacheSerialization | CacheBackend.

Module Breaker.

Inductive BreakerState : Type :=
| Closed (failures : Z)
| Open (opened_at : Z)
| HalfOpen.

Record CircuitBreaker : Type := mk {
  state : BreakerState;
  failure_threshold : Z;
  cooldown : Z;
}.

Definition new (failure_threshold cooldown : Z) : result CacheError CircuitBreaker :=
  if (failure_threshold =? 0) || (cooldown =? 0) then Err CacheConfiguration
  else Ok (mk (Closed 0) failure_threshold cooldown).

Definition with_state (b : CircuitBreaker) (s : BreakerState) : CircuitBreaker :=
  mk s (failure_threshold b) (cooldown b).

(** The first critical section: is the operation run? *)
Definition enter (now : Z) (b : CircuitBreaker) : CircuitBreaker * bool :=
  match state b with
  | Closed _ => (b, true)
  | Open opened_at =>
      if decide (now - opened_at >= cooldown b) then (with_state b HalfOpen, true) else (b, false)
  | HalfOpen => (b, false)
  end.

(** The second one, after the operation returned [ok] at instant [now]. *)
Definition finish (now : Z) (ok : bool) (b : CircuitBreaker) : CircuitBreaker :=
  if ok then with_state b (Closed 0)
  else
    let failures :=
      match state b with
      | HalfOpen => failure_threshold b
      | Closed failures => saturating_add 32 failures 1
      | Open _ => failure_threshold b
      end in
    with_state b (if decide (failures >= failure_threshold b) then Open now else Closed failures).

Definition is_open (b : CircuitBreaker) : bool :=
  match state b with Open _ => true | _ => false end.

(** [execute], uninterrupted, around an operation on a store. *)
Definition execute {S A} (now : S → Z) (open_error : AilakeError)
    (operation : S → S * AilakeResult A) (b : CircuitBreaker) (s : S)
    : CircuitBreaker * S * AilakeResult A :=
  let '(b, admitted) := enter (now s) b in
  if admitted then
    let '(s, r) := operation s in
    (finish (now s) (is_ok r) b, s, r)
  else (b, s, Err open_error).

(** Calls interleaved: how many are being awaited, and the clock. *)
Record system : Type := mk_system { breaker : CircuitBreaker; awaiting : nat; clock : Z }.

Inductive event : Type := Refused | Started | Finished (ok : bool) | Dropped | Tick.

Inductive step : system → event → system → Prop :=
| step_refused b b' n t :
    enter t b = (b', false) → step (mk_system b n t) Refused (mk_system b' n t)
| step_admitted b b' n t :
    enter t b = (b', true) → step (mk_system b n t) Started (mk_system b' (S n) t)
| step_finished b n t ok :
    step (mk_system b (S n) t) (Finished ok) (mk_system (finish t ok b) n t)
| step_dropped b n t :
    step (mk_system b (S n) t) Dropped (mk_system b n t)
| step_tick b n t d :
    0 ≤ d → step (mk_system b n t) Tick (mk_system b n (t + d)).

Inductive steps : system → list event → system → Prop :=
| steps_nil s : steps s [] s
| steps_cons s e s' es s'' : step s e s' → steps s' es s'' → steps s (e :: es) s''.

Lemma steps_snoc s es s' e s'' : steps s es s' → step s' e s'' → steps s (es ++ [e]) s''.
Proof.
  induction 1; intros; cbn; [by eapply steps_cons; [|constructor]|by eapply steps_cons; eauto].
Qed.
Lemma steps_app s es s' es' s'' : steps s es s' → steps s' es' s'' → steps s (es ++ es') s''.
Proof. induction 1; intros; cbn; [done|]. econstructor; eauto. Qed.

(** ** Sequential behaviour *)

(** Back-to-back calls at the given instants, with the outcome of the ones that
    run: [Some] whether the operation succeeded, [None] when it was refused. *)
Fixpoint calls (b : CircuitBreaker) (cs : list (Z * bool)) : CircuitBreaker * list (option bool) :=
  match cs with
  | [] => (b, [])
  | (t, ok) :: cs =>
      let '(b, admitted) := enter t b in
      if admitted then
        let '(b, rs) := calls (finish t ok b) cs in (b, Some ok :: rs)
      else let '(b, rs) := calls b cs in (b, None :: rs)
  end.

(** The breaker's parameters are those [new] accepts for a [u32] threshold. *)
Definition wf (b : CircuitBreaker) : Prop := 0 < failure_threshold b < 2 ^ 32 ∧ 0 < cooldown b.

Lemma calls_failing b f ts :
  wf b → 0 ≤ f → f + Zlen ts < failure_threshold b → state b = Closed f →
  calls b ((λ t, (t, false)) <$> ts)
  = (with_state b (Closed (f + Zlen ts)), replicate (length ts) (Some false)).
Proof.
  revert b f. induction ts as [|t ts IH]; intros b f Hwf Hf Hlt Hs.
  - cbn. rewrite Z.add_0_r. destruct b. cbn in Hs. by subst.
  - cbn [length] in Hlt. cbn [fmap list_fmap calls]. unfold enter. rewrite Hs.
    unfold finish. rewrite Hs. unfold wf in Hwf.
    unfold saturating_add. rewrite Z.min_r by lia. rewrite decide_False by lia.
    change (list_fmap Z (Z * bool)%type (λ t0, (t0, false)) ts) with ((λ t0, (t0, false)) <$> ts).
    rewrite (IH (with_state b (Closed (f + 1))) (f + 1)); [|done|lia|cbn; lia|done].
    cbn. do 3 f_equal. lia.
Qed.

Lemma calls_app b cs cs' :
  calls b (cs ++ cs') =
  let '(b1, rs1) := calls b cs in let '(b2, rs2) := calls b1 cs' in (b2, rs1 ++ rs2).
Proof.
  revert b. induction cs as [|[t ok] cs IH]; intros b; cbn.
  - by destruct (calls b cs').
  - destruct (enter t b) as [b1 []].
    + rewrite IH. destruct (calls (finish t ok b1) cs). by destruct (calls _ cs').
    + rewrite IH. destruct (calls b1 cs). by destruct (calls _ cs').
Qed.

Lemma calls_while_open b t0 cs :
  state b = Open t0 → Forall (λ c, c.1 - t0 < cooldown b) cs →
  calls b cs = (b, replicate (length cs) None).
Proof.
  intros Hs. induction cs as [|[t ok] cs IH]; intros Hc; [done|].
  apply Forall_cons in Hc as [Ht Hc]. cbn in Ht |- *. unfold enter. rewrite Hs.
  rewrite decide_False by lia. by rewrite IH.
Qed.

(** After exactly [failure_threshold] consecutive failures the circuit is open:
    each of those calls ran its operation, every further call within the cooldown
    is refused without running it, and the first call after the cooldown runs. *)
Theorem breaker_opens_at_threshold b ts t_last rest t_probe ok :
  wf b → state b = Closed 0 → Zlen ts + 1 = failure_threshold b →
  Forall (λ c, c.1 - t_last < cooldown b) rest → t_probe - t_last >= cooldown b →
  (calls b (((λ t, (t, false)) <$> ts) ++ (t_last, false) :: rest ++ [(t_probe, ok)])).2
  = replicate (length ts + 1) (Some false) ++ replicate (length rest) None ++ [Some ok].
Proof.
  intros Hwf Hs Hn Hrest Hprobe. rewrite calls_app.
  rewrite (calls_failing b 0 ts) by (done || lia). cbn [calls]. unfold enter at 1. cbn [state with_state].
  assert (Hfin : finish t_last false (with_state b (Closed (0 + Zlen ts))) = with_state b (Open t_last)).
  { unfold finish. cbn. destruct Hwf. unfold saturating_add. rewrite Z.min_r by lia.
    by rewrite decide_True by lia. }
  rewrite Hfin, calls_app, (calls_while_open _ t_last) by done.
  cbn [calls]. unfold enter. cbn [state with_state cooldown]. rewrite decide_True by done.
  cbn. rewrite replicate_add, <- app_assoc. done.
Qed.

Lemma breaker_opens_at_threshold_witness :
  (calls (mk (Closed 0) 2 10) [(0, false); (1, false); (5, true); (11, true)]).2
  = [Some false; Some false; None; Some true].
Proof.
  apply (breaker_opens_at_threshold (mk (Closed 0) 2 10) [0] 1 [(5, true)] 11 true).
  - vm_compute. by repeat split.
  - reflexivity.
  - reflexivity.
  - repeat constructor; vm_compute; reflexivity.
  - vm_compute. discriminate.
Defined.

(** ** Interleaved behaviour *)

Lemma step_params s e s' :
  step s e s' → failure_threshold (breaker s') = failure_threshold (breaker s) ∧
                cooldown (breaker s') = cooldown (breaker s).
Proof.
  destruct 1 as [b b' n t He|b b' n t He|b n t ok|b n t|]; cbn; try done.
  1, 2: unfold enter in He; destruct (state b); [|case_decide|]; by simplify_eq.
  unfold finish. by destruct ok.
Qed.

(** A probe that is dropped leaves nothing that could move the breaker. *)
Lemma half_open_stuck s es s' :
  steps s es s' → state (breaker s) = HalfOpen → awaiting s = 0%nat →
  state (breaker s') = HalfOpen ∧ Forall (λ e, e = Refused ∨ e = Tick) es.
Proof.
  induction 1 as [s|s e s' es s'' Hst Hsts IH]; intros Hs Ha; [by split|].
  destruct Hst as [b b' n t He|b b' n t He|b n t ok|b n t|b n t d Hd]; cbn in *; try done.
  - unfold enter in He. rewrite Hs in He. injection He as <-. destruct (IH Hs Ha) as [? ?].
    split; [done|]. constructor; auto.
  - unfold enter in He. rewrite Hs in He. done.
  - destruct (IH Hs Ha) as [? ?]. split; [done|]. constructor; auto.
Qed.

(** A failing call, run to completion. *)
Lemma failing_call b t f :
  state b = Closed f →
  steps (mk_system b 0 t) [Started; Finished false] (mk_system (finish t false b) 0 t).
Proof.
  intros Hs. econstructor; [constructor; unfold enter; by rewrite Hs|].
  econstructor; [constructor|constructor].
Qed.

Lemma failing_run b f t :
  wf b → 0 ≤ f < failure_threshold b → state b = Closed f →
  ∃ es, steps (mk_system b 0 t) es (mk_system (with_state b (Open t)) 0 t).
Proof.
  intros Hwf Hf. remember (Z.to_nat (failure_threshold b - f)) as k eqn:Hk.
  revert b f Hwf Hf Hk. induction k as [|k IH]; intros b f Hwf Hf Hk Hs; [lia|].
  pose proof (failing_call b t f Hs) as Hrun. unfold finish in Hrun. rewrite Hs in Hrun.
  destruct Hwf as [Hth Hcd]. unfold saturating_add in Hrun. rewrite Z.min_r in Hrun by lia.
  case_decide as Hge; [by eexists|].
  destruct (IH (with_state b (Closed (f + 1))) (f + 1)) as [es Hes]; [done|cbn; lia|cbn; lia|done|].
  eexists. eapply steps_app; [exact Hrun|exact Hes].
Qed.

(** C36: the breaker is not cancellation-safe: from a new breaker there is a run that
    ends, with no call awaited, in a state from which every continuation refuses
    every call: the one probe after the cooldown was dropped while it was awaited. *)
Theorem dropped_probe_wedges threshold cd b :
  0 < threshold < 2 ^ 32 → 0 < cd → new threshold cd = Ok b →
  ∃ es s, steps (mk_system b 0 0) es s ∧ awaiting s = 0%nat ∧
    ∀ es' s', steps s es' s' → Forall (λ e, e = Refused ∨ e = Tick) es'.
Proof.
  intros Hth Hcd. unfold new. replace (threshold =? 0) with false by lia.
  replace (cd =? 0) with false by lia. intros [= <-]. set (b := mk (Closed 0) threshold cd).
  destruct (failing_run b 0 0) as [es Hes]; [by split|cbn; lia|done|].
  exists (es ++ [Tick; Started; Dropped]), (mk_system (with_state b HalfOpen) 0 cd).
  split; [|split; [done|]].
  - eapply steps_app; [exact Hes|].
    apply (steps_cons _ _ (mk_system (with_state b (Open 0)) 0 (0 + cd))); [constructor; lia|].
    apply (steps_cons _ _ (mk_system (with_state b HalfOpen) 1 (0 + cd))).
    { constructor. unfold enter. cbn. by rewrite decide_True by lia. }
    eapply steps_cons; [constructor|constructor].
  - intros es' s' Hst. by eapply half_open_stuck in Hst as [_ ?].
Qed.

Lemma dropped_probe_wedges_witness :
  ∃ es s, steps (mk_system (mk (Closed 0) 3 10) 0 0) es s ∧ awaiting s = 0%nat ∧
    ∀ es' s', steps s es' s' → Forall (λ e, e = Refused ∨ e = Tick) es'.
Proof.
  apply (dropped_probe_wedges 3 10); [lia|lia|reflexivity].
Defined.

(** While no call is dropped, a half-open circuit has its probe in flight. *)
Lemma half_open_has_probe s es s' :
  steps s es s' → Dropped ∉ es → (state (breaker s) = HalfOpen → awaiting s ≠ 0%nat) →
  state (breaker s') = HalfOpen → awaiting s' ≠ 0%nat.
Proof.
  induction 1 as [s|s e s' es s'' Hst Hsts IH]; intros Hd Hinv; [done|].
  apply not_elem_of_cons in Hd as [Hd Hds]. apply IH; [done|]. clear IH Hsts Hds.
  destruct Hst as [b b' n t He|b b' n t He|b n t ok|b n t|b n t d Hdd]; cbn in *; try done.
  - unfold enter in He. destruct (state b) eqn:Es; [done| |by simplify_eq; auto].
    case_decide; simplify_eq. by rewrite Es.
  - unfold finish. destruct ok; [done|]. cbn. by case_decide.
Qed.

(** As long as no call is dropped the breaker never wedges: whatever happened
    before, some continuation admits a call again. *)
Theorem breaker_live_without_drops b es s :
  state b = Closed 0 → steps (mk_system b 0 0) es s → Dropped ∉ es →
  ∃ es' s', steps s es' s' ∧ Dropped ∉ es' ∧ Started ∈ es'.
Proof.
  intros Hs Hst Hd. pose proof (half_open_has_probe _ _ _ Hst Hd) as Hp.
  destruct s as [c n t]. cbn in Hp. rewrite Hs in Hp. specialize (Hp ltac:(done)).
  destruct (state c) as [f|t0|] eqn:Ec.
  - exists [Started]. eexists. split; [|split; [set_solver|set_solver]].
    econstructor; [constructor; unfold enter; by rewrite Ec|constructor].
  - exists [Tick; Started]. eexists. split; [|split; [set_solver|set_solver]].
    eapply steps_cons; [apply (step_tick _ _ _ (Z.max 0 (t0 + cooldown c - t))); lia|].
    eapply steps_cons; [|constructor]. constructor. unfold enter. rewrite Ec.
    by rewrite decide_True by lia.
  - destruct n as [|n]; [by destruct (Hp eq_refl)|].
    exists [Finished true; Started]. eexists. split; [|split; [set_solver|set_solver]].
    eapply steps_cons; [apply step_finished|]. eapply steps_cons; [|constructor].
    by constructor.
Qed.

Lemma breaker_live_without_drops_witness :
  ∃ es' s', steps (mk_system (mk (Closed 0) 1 10) 0 0) es' s' ∧ Dropped ∉ es' ∧ Started ∈ es'.
Proof.
  apply (breaker_live_without_drops (mk (Closed 0) 1 10) [] (mk_system (mk (Closed 0) 1 10) 0 0)).
  - reflexivity.
  - constructor.
  - apply not_elem_of_nil.
Defined.

End Breaker.

(* ------------------------------------------------------------------ *)
(** ** The circuit-breaking store                                      *)
(* ------------------------------------------------------------------ *)

Record CircuitBreakingStore (S : Type) : Type := mk_cbs {
  cbs_inner : S;
  cbs_breaker : Breaker.CircuitBreaker;
}.
Arguments mk_cbs {_} _ _.
Arguments cbs_inner {_} _.
Arguments cbs_breaker {_} _.

Section CircuitBreakingStore.
Context {S : Type} `{Store S}.

Definition guarded {A} (s : CircuitBreakingStore S) (operation : S → S * AilakeResult A)
    : CircuitBreakingStore S * AilakeResult A :=
  let '(b, i, r) :=
    Breaker.execute st_now StoreError operation (cbs_breaker s) (cbs_inner s) in
  (mk_cbs i b, r).

#[export] Instance circuit_breaking_store : Store (CircuitBreakingStore S) := {|
  st_now s := st_now (cbs_inner s);
  st_get s p := guarded s (λ i, st_get i p);
  st_get_range s p a b := guarded s (λ i, st_get_range i p a b);
  st_put s p d := guarded s (λ i, st_put i p d);
  st_list s p := guarded s (λ i, st_list i p);
  st_file_size s p := guarded s (λ i, st_file_size i p);
  st_exists s p := guarded s (λ i, st_exists i p);
  st_delete s p := guarded s (λ i, st_delete i p);
|}.

(** Either the operation ran on the inner store, or nothing happened. *)
Lemma guarded_cases {A} (s : CircuitBreakingStore S) (operation : S → S * AilakeResult A) :
  (∃ b, guarded s operation = (mk_cbs (operation (cbs_inner s)).1 b, (operation (cbs_inner s)).2)) ∨
  (∃ b, guarded s operation = (mk_cbs (cbs_inner s) b, Err StoreError)).
Proof.
  unfold guarded, Breaker.execute. destruct (Breaker.enter _ _) as [b []]; [left|right].
  - destruct (operation (cbs_inner s)) as [i r]. by eexists.
  - by eexists.
Qed.

End CircuitBreakingStore.

#[export] Instance circuit_breaking_store_laws {S} `{StoreLaws S} :
  StoreLaws (CircuitBreakingStore S).
Proof.
  refine {| view s := view (cbs_inner s); store_inv s := store_inv (cbs_inner s) |};
    intros s p; cbn.
  - intros Hi. pose proof (get_law _ p Hi) as Hl.
    destruct (guarded_cases s (λ i, st_get i p)) as [[b ->]|[b ->]]; [|by split_and!].
    by destruct (st_get _ p).
  - intros d Hi. pose proof (put_law _ p d Hi) as Hl.
    destruct (guarded_cases s (λ i, st_put i p d)) as [[b ->]|[b ->]]; [|by split_and!].
    by destruct (st_put _ p d).
  - intros Hi. pose proof (delete_law _ p Hi) as Hl.
    destruct (guarded_cases s (λ i, st_delete i p)) as [[b ->]|[b ->]]; [|by split_and!].
    by destruct (st_delete _ p).
Defined.

(* ------------------------------------------------------------------ *)
(** ** The rate limiter                                                *)
(* ------------------------------------------------------------------ *)

(** The shared counter of the Redis tier: increment the key, setting its expiry on
    the first increment; [None] is a backend error. *)
Class RateRedis (R : Type) : Type := {
  redis_increment : R → string → string → Z → R * option Z;
}.

(** [Sha256] in hexadecimal. *)
Class Digest : Type := { digest : string → string }.

Module Rate.

Inductive RateLimitClass : Type := Search | Write.
Inductive RateLimitError : Type := Configuration | Backend.

Record RateLimitConfig : Type := mk_config {
  namespace : string;
  window : Z;                (* nanoseconds *)
  search_per_token : Z;
  write_per_token : Z;
  search_per_ip : Z;
  write_per_ip : Z;
  fail_closed : bool;
}.

Record LocalRateWindow : Type := mk_window { started : Z; count : Z }.

Record RateCounters : Type := mk_counters {
  allowed_total : Z; limited_total : Z; backend_errors_total : Z; redis_requests_total : Z;
}.

Record RateLimitDecision : Type := mk_decision {
  allowed : bool; retry_after_secs : Z; dimension : option string;
}.

Record RateLimiter (R : Type) : Type := mk_limiter {
  config : RateLimitConfig;
  local : gmap string LocalRateWindow;
  counters : RateCounters;
  redis : option R;
}.
Arguments mk_limiter {_} _ _ _ _.
Arguments config {_} _.
Arguments local {_} _.
Arguments counters {_} _.
Arguments redis {_} _.

Definition bump (z : Z) : Z := wrap 64 (z + 1).
Definition bump_allowed (c : RateCounters) := mk_counters (bump (allowed_total c)) (limited_total c) (backend_errors_total c) (redis_requests_total c).
Definition bump_limited (c : RateCounters) := mk_counters (allowed_total c) (bump (limited_total c)) (backend_errors_total c) (redis_requests_total c).
Definition bump_backend (c : RateCounters) := mk_counters (allowed_total c) (limited_total c) (bump (backend_errors_total c)) (redis_requests_total c).
Definition bump_redis (c : RateCounters) := mk_counters (allowed_total c) (limited_total c) (backend_errors_total c) (bump (redis_requests_total c)).

Section RateLimiter.
Context {R : Type} `{!RateRedis R} `{!Digest}.
Implicit Types l : RateLimiter R.

(** [open] is the Redis client, when a URL is configured and it parses. *)
Definition new (config : RateLimitConfig) (open : result RateLimitError (option R))
    : result RateLimitError (RateLimiter R) :=
  if window config =? 0 then Err Configuration
  else r ← open; Ok (mk_limiter config ∅ (mk_counters 0 0 0 0) r).

Definition limits l (class : RateLimitClass) : Z * Z :=
  match class with
  | Search => (search_per_token (config l), search_per_ip (config l))
  | Write => (write_per_token (config l), write_per_ip (config l))
  end.

(** The quotas a request counts against. *)
Definition dimensions l (class : RateLimitClass) (token ip : option string) : list (string * Z) :=
  let '(token_limit, ip_limit) := limits l class in
  (if decide (token_limit > 0) then
     match token with Some token => [("token:" +:+ digest token, token_limit)] | None => [] end
   else []) ++
  (if decide (ip_limit > 0) then
     match ip with Some ip => [("ip:" +:+ digest ip, ip_limit)] | None => [] end
   else []).

Definition decision_allowed : RateLimitDecision := mk_decision true 0 None.
Definition decision_denied l (dimension : string) : RateLimitDecision :=
  mk_decision false (Z.max (window (config l) / 1000000000) 1) (Some dimension).

(** The decision from the dimension found over its limit, if any. *)
Definition decide_request l (denied : option string) : RateLimiter R * RateLimitDecision :=
  match denied with
  | Some dimension =>
      (mk_limiter (config l) (local l) (bump_limited (counters l)) (redis l), decision_denied l dimension)
  | None =>
      (mk_limiter (config l) (local l) (bump_allowed (counters l)) (redis l), decision_allowed)
  end.

(** The Redis loop: [inl] the denied dimension, [inr] a backend error. *)
Fixpoint redis_loop (cfg : RateLimitConfig) (r : R) (dims : list (string * Z)) (denied : option string)
    : R * (option string + unit) :=
  match dims with
  | [] => (r, inl denied)
  | (key, limit) :: dims =>
      match redis_increment r (namespace cfg) key (Z.max (window cfg / 1000000000) 1) with
      | (r, Some n) =>
          redis_loop cfg r dims (if decide (n > Z.min limit I64_MAX) then Some key else denied)
      | (r, None) => (r, inr tt)
      end
  end.

(** One pass of the local loop. *)
Definition local_step (window now : Z) (st : gmap string LocalRateWindow * option string)
    (d : string * Z) : gmap string LocalRateWindow * option string :=
  let '(m, denied) := st in
  let '(key, limit) := d in
  let w := default (mk_window now 0) (m !! key) in
  let w := if decide (now - started w >= window) then mk_window now 0 else w in
  let w := mk_window (started w) (saturating_add 64 (count w) 1) in
  (<[key := w]> m, if decide (count w > limit) then Some key else denied).

Definition check l (now : Z) (class : RateLimitClass) (token ip : option string)
    : RateLimiter R * result RateLimitError RateLimitDecision :=
  let dims := dimensions l class token ip in
  match dims with
  | [] => (mk_limiter (config l) (local l) (bump_allowed (counters l)) (redis l), Ok decision_allowed)
  | _ =>
      match redis l with
      | Some r =>
          let counters := bump_redis (counters l) in
          match redis_loop (config l) r dims None with
          | (r, inl denied) =>
              let '(l, d) := decide_request (mk_limiter (config l) (local l) counters (Some r)) denied in
              (l, Ok d)
          | (r, inr _) =>
              let l := mk_limiter (config l) (local l) (bump_backend counters) (Some r) in
              if fail_closed (config l) then (l, Err Backend)
              else let '(l, d) := decide_request l None in (l, Ok d)
          end
      | None =>
          let live := filter (λ kw, now - started kw.2 < window (config l)) (local l) in
          let '(m, denied) := foldl (local_step (window (config l)) now) (live, None) dims in
          let '(l, d) := decide_request (mk_limiter (config l) m (counters l) (redis l)) denied in
          (l, Ok d)
      end
  end.

End RateLimiter.

(** ** The quota *)

Section Quota.
Context {R : Type} `{!RateRedis R} `{!Digest}.
Implicit Types l : RateLimiter R.

(** Requests counted in the window that is live for [key] at [now]. *)
Definition used (m : gmap string LocalRateWindow) (w now : Z) (key : string) : Z :=
  match m !! key with
  | Some win => if decide (now - started win < w) then count win else 0
  | None => 0
  end.

(** Requests of one client: a sequence of instants, the same token every time. *)
Fixpoint requests l (class : RateLimitClass) (token : string) (ts : list Z)
    : RateLimiter R * list bool :=
  match ts with
  | [] => (l, [])
  | t :: ts =>
      let '(l, r) := check l t class (Some token) None in
      let '(l, rs) := requests l class token ts in
      (l, match r with Ok d => allowed d | Err _ => false end :: rs)
  end.

Definition token_limit l (class : RateLimitClass) : Z := (limits l class).1.

(** A check of one token: the window it leaves and the answer it gives. *)
Lemma check_token l now class token :
  redis l = None → token_limit l class > 0 →
  let key := "token:" +:+ digest token in
  let n := used (local l) (window (config l)) now key + 1 in
  let '(l', r) := check l now class (Some token) None in
  config l' = config l ∧ redis l' = None ∧
  (∃ d, r = Ok d ∧ allowed d = negb (bool_decide (saturating_add 64 (n - 1) 1 > token_limit l class))) ∧
  (0 < window (config l) →
   ∃ win, local l' !! key = Some win ∧ count win = saturating_add 64 (n - 1) 1 ∧
     started win = match local l !! key with
                   | Some w => if decide (now - started w < window (config l)) then started w else now
                   | None => now
                   end).
Proof.
  intros Hr Hlim. cbv zeta. unfold check, dimensions, token_limit in *.
  destruct (limits l class) as [tl il] eqn:El. cbn [fst] in Hlim |- *.
  rewrite (decide_True _ _ Hlim). replace (if decide (il > 0) then @nil (string * Z) else [])
    with (@nil (string * Z)) by (by case_decide). cbn [app]. rewrite Hr. cbn [foldl].
  set (key := "token:" +:+ digest token). set (w := window (config l)).
  unfold local_step, used. set (live := filter _ _).
  assert (Hlive : live !! key = match local l !! key with
            | Some win => if decide (now - started win < w) then Some win else None
            | None => None end).
  { subst live. destruct (local l !! key) as [win|] eqn:Hk.
    - case_decide; [by apply map_lookup_filter_Some_2|]. apply map_lookup_filter_None_2. right.
      intros ? Hk'. rewrite Hk in Hk'. by simplify_eq.
    - apply map_lookup_filter_None_2. by left. }
  assert (Hwin : ∃ win, default (mk_window now 0) (live !! key) = win ∧
      (if decide (now - started win >= w) then mk_window now 0 else win) =
      match local l !! key with
      | Some win => if decide (now - started win < w) then win else mk_window now 0
      | None => mk_window now 0
      end).
  { eexists. split; [reflexivity|]. rewrite Hlive. destruct (local l !! key) as [win|]; cbn;
      repeat (case_decide; cbn in *; try done; try lia). }
  destruct Hwin as (win & -> & Hwin). rewrite Hwin. clear Hwin win.
  assert (E : ∀ z, z + 1 - 1 = z) by lia. rewrite !E. clear E.
  assert (Hcount : count match local l !! key with
      | Some win => if decide (now - started win < w) then win else mk_window now 0
      | None => mk_window now 0 end = match local l !! key with
      | Some win => if decide (now - started win < w) then count win else 0 | None => 0 end).
  { destruct (local l !! key); [by case_decide|done]. }
  cbn [count started]. rewrite Hcount. unfold decide_request.
  case_decide as Hd; cbn; (split_and!; [done|done| |]).
  - eexists. split; [done|]. by rewrite bool_decide_eq_true_2.
  - intros _. eexists. rewrite lookup_insert_eq. split_and!; [done|done|].
    cbn. destruct (local l !! key); [by case_decide|done].
  - eexists. split; [done|]. by rewrite bool_decide_eq_false_2.
  - intros _. eexists. rewrite lookup_insert_eq. split_and!; [done|done|].
    cbn. destruct (local l !! key); [by case_decide|done].
Qed.

Lemma requests_in_window l class token t0 n ts :
  redis l = None → token_limit l class > 0 → 0 < window (config l) →
  (∃ win, local l !! ("token:" +:+ digest token) = Some win ∧ started win = t0 ∧ count win = n) →
  0 ≤ n → n + Zlen ts < 2 ^ 64 → Forall (λ t, t < t0 + window (config l)) ts →
  (requests l class token ts).2 = (λ i, bool_decide (i ≤ token_limit l class)) <$> seqZ (n + 1) (Zlen ts).
Proof.
  revert l n. induction ts as [|t ts IH]; intros l n Hr Hlim Hw (win & Hk & Hst & Hc) Hn Hlen Hts.
  { done. }
  apply Forall_cons in Hts as [Ht Hts]. cbn [length] in Hlen. cbn [requests].
  pose proof (check_token l t class token Hr Hlim) as Hck. cbv zeta in Hck.
  destruct (check l t class (Some token) None) as [l' r].
  destruct Hck as (Hcfg & Hr' & (d & -> & Hd) & Hwin). destruct (Hwin Hw) as (win' & Hk' & Hc' & Hst').
  unfold used in *. rewrite Hk in *. rewrite decide_True in Hd, Hc', Hst' by lia.
  rewrite Hc in *. replace (n + 1 - 1) with n in * by lia.
  unfold saturating_add in *. rewrite Z.min_r in Hd, Hc' by lia.
  assert (Hlim' : token_limit l' class = token_limit l class)
    by (unfold token_limit, limits; by rewrite Hcfg).
  specialize (IH l' (n + 1) Hr'). rewrite Hlim', Hcfg in IH.
  specialize (IH Hlim Hw). rewrite seqZ_cons by (cbn; lia).
  replace (Z.pred (Zlen (t :: ts))) with (Zlen ts) by (cbn; lia).
  destruct (requests l' class token ts) as [l'' rs]. cbn [snd fmap list_fmap]. f_equal.
  - rewrite Hd. rewrite <- bool_decide_not. apply bool_decide_ext. lia.
  - replace (Z.succ (n + 1)) with (n + 1 + 1) by lia. apply IH; [|lia|lia|done].
    exists win'. split_and!; [done|by rewrite Hst'|done].
Qed.

(** The quota is exact: of the requests a client makes within one window, the
    first [limit] are allowed and every later one is denied (denied requests count
    too); a window that ran out starts again at zero. *)
Theorem quota_per_window l class token t0 ts :
  redis l = None → token_limit l class > 0 → 0 < window (config l) →
  used (local l) (window (config l)) t0 ("token:" +:+ digest token) = 0 →
  (match local l !! ("token:" +:+ digest token) with
   | Some win => started win + window (config l) ≤ t0 | None => True end) →
  1 + Zlen ts < 2 ^ 64 → Forall (λ t, t0 ≤ t < t0 + window (config l)) ts →
  (requests l class token (t0 :: ts)).2
  = (λ i, bool_decide (i ≤ token_limit l class)) <$> seqZ 1 (1 + Zlen ts).
Proof.
  intros Hr Hlim Hw Hu Hold Hlen Hts. cbn [requests].
  pose proof (check_token l t0 class token Hr Hlim) as Hck. cbv zeta in Hck.
  destruct (check l t0 class (Some token) None) as [l' r].
  destruct Hck as (Hcfg & Hr' & (d & -> & Hd) & Hwin). destruct (Hwin Hw) as (win & Hk & Hc & Hst).
  rewrite Hu in Hd, Hc. unfold saturating_add in Hd, Hc. cbn in Hd, Hc.
  assert (Hlim' : token_limit l' class = token_limit l class)
    by (unfold token_limit, limits; by rewrite Hcfg).
  assert (Hst0 : started win = t0).
  { rewrite Hst. destruct (local l !! _); [|done]. by rewrite decide_False by lia. }
  pose proof (requests_in_window l' class token t0 1 ts Hr') as Hreq.
  rewrite Hlim', Hcfg in Hreq. specialize (Hreq Hlim Hw). rewrite seqZ_cons by lia.
  replace (Z.pred (1 + Zlen ts)) with (Zlen ts) by lia.
  destruct (requests l' class token ts) as [l'' rs]. cbn [snd fmap list_fmap] in *. f_equal.
  - rewrite Hd. rewrite <- bool_decide_not. apply bool_decide_ext. lia.
  - apply Hreq; [eauto|lia|lia|]. eapply Forall_impl; [exact Hts|]. cbn. lia.
Qed.

End Quota.

#[export] Instance no_redis : RateRedis unit := {| redis_increment r _ _ _ := (r, None) |}.
#[export] Instance plain_digest : Digest := {| digest s := s |}.

Definition sample_config : RateLimitConfig := mk_config "ailake:rate" 60000000000 2 60 0 0 false.
Definition sample_limiter : RateLimiter unit := mk_limiter sample_config ∅ (mk_counters 0 0 0 0) None.

Lemma quota_per_window_witness :
  (requests sample_limiter Search "alice" [5; 6; 7; 8]).2 = [true; true; false; false].
Proof.
  apply (quota_per_window sample_limiter Search "alice" 5 [6; 7; 8]).
  - reflexivity.
  - reflexivity.
  - reflexivity.
  - vm_compute. reflexivity.
  - vm_compute. exact I.
  - vm_compute. reflexivity.
  - apply (bool_decide_unpack _). vm_compute. exact I.
Defined.

End Rate.
