(* ===== verification/Cache.v ===== *)
(** * The two-tier cache and the caching store

    [CacheManager] and [CachingStore] of [ailake-cache/src/lib.rs]: a bounded LRU
    of byte values with expiry, shared by all logical partitions, an optional
    Redis tier behind it, and the [Store] decorator the query path reads through.
    Every critical section of the local mutex is one state transformer; instants
    are passed in. *)

From S2P Require Import Prelude Core Store Resilience.

Inductive CacheKind : Type := Query | Metadata | Index.
#[export] Instance CacheKind_eq_dec : EqDecision CacheKind.
Proof. solve_decision. Defined.

Definition kind_as_str (k : CacheKind) : string :=
  match k with Query => "query" | Metadata => "metadata" | Index => "index" end.

Record CacheConfig : Type := mk_cache_config {
  namespace : string;
  max_bytes : Z;
  ttl : Z;
}.

Record Entry : Type := mk_entry { e_value : bytes; expires_at : Z; e_size : Z }.

(** [order] is the recency queue, least recently used first. *)
Record LocalState : Type := mk_local {
  entries : gmap string Entry;
  order : list string;
  in_use : Z;
}.

Record Counters : Type := mk_counters {
  hits : Z; misses : Z; inserts : Z; evictions : Z; invalidations : Z;
  redis_hits : Z; redis_errors : Z;
}.

(** The Redis tier; [None] in the result is a backend error. *)
Class RedisBackend (R : Type) : Type := {
  redis_get : R → string → R * option (option bytes);
  redis_put : R → string → bytes → Z → R * option unit;
  redis_del : R → string → R * option unit;
}.

Record CacheManager (R : Type) : Type := mk_cache {
  cm_config : CacheConfig;
  cm_local : LocalState;
  cm_snapshots : gmap string Z;
  cm_counters : Counters;
  cm_redis : option R;
}.
Arguments mk_cache {_} _ _ _ _ _.
Arguments cm_config {_} _.
Arguments cm_local {_} _.
Arguments cm_snapshots {_} _.
Arguments cm_counters {_} _.
Arguments cm_redis {_} _.

(** ** The local tier *)

Definition retain (key : string) (order : list string) : list string := filter (λ k, k ≠ key) order.

Definition remove_local (s : LocalState) (key : string) : LocalState :=
  let bytes :=
    match entries s !! key with
    | Some old => saturating_sub (in_use s) (e_size old)
    | None => in_use s
    end in
  mk_local (delete key (entries s)) (retain key (order s)) bytes.

(** The eviction loop; the last component counts evictions. *)
Fixpoint evict (max : Z) (es : gmap string Entry) (bytes evicted : Z) (order : list string)
    : LocalState * Z :=
  if decide (bytes > max) then
    match order with
    | [] => (mk_local es [] bytes, evicted)
    | oldest :: order =>
        match es !! oldest with
        | Some old =>
            evict max (delete oldest es) (saturating_sub bytes (e_size old))
              (wrap 64 (evicted + 1)) order
        | None => evict max es bytes evicted order
        end
    end
  else (mk_local es order bytes, evicted).

Definition insert_local (cfg : CacheConfig) (now : Z) (s : LocalState) (evicted : Z)
    (key : string) (value : bytes) : LocalState * Z :=
  let bytes :=
    match entries s !! key with
    | Some old => saturating_sub (in_use s) (e_size old)
    | None => in_use s
    end in
  let order := retain key (order s) in
  let size := Zlen value in
  let es := <[key := mk_entry value (now + ttl cfg) size]> (delete key (entries s)) in
  evict (max_bytes cfg) es (saturating_add 64 bytes size) evicted (order ++ [key]).

(** Remove every key a predicate selects. *)
Definition remove_matching (p : string → bool) (s : LocalState) : LocalState :=
  foldl remove_local s (filter (λ k, p k = true) (elements (dom (entries s)))).

(** ** The manager *)

Section CacheManager.
Context {R : Type} `{!RedisBackend R}.
Implicit Types c : CacheManager R.

Definition cache_new (config : CacheConfig) (open : result CacheError (option R))
    : result CacheError (CacheManager R) :=
  if max_bytes config =? 0 then Err CacheConfiguration
  else r ← open;
       Ok (mk_cache config (mk_local ∅ [] 0) ∅ (mk_counters 0 0 0 0 0 0 0) r).

Definition with_local c (s : LocalState) : CacheManager R :=
  mk_cache (cm_config c) s (cm_snapshots c) (cm_counters c) (cm_redis c).
Definition with_counters c (n : Counters) : CacheManager R :=
  mk_cache (cm_config c) (cm_local c) (cm_snapshots c) n (cm_redis c).
Definition with_redis c (r : R) : CacheManager R :=
  mk_cache (cm_config c) (cm_local c) (cm_snapshots c) (cm_counters c) (Some r).

Definition inc (z : Z) : Z := wrap 64 (z + 1).
Definition count_hit (n : Counters) := mk_counters (inc (hits n)) (misses n) (inserts n) (evictions n) (invalidations n) (redis_hits n) (redis_errors n).
Definition count_miss (n : Counters) := mk_counters (hits n) (inc (misses n)) (inserts n) (evictions n) (invalidations n) (redis_hits n) (redis_errors n).
Definition count_insert (n : Counters) := mk_counters (hits n) (misses n) (inc (inserts n)) (evictions n) (invalidations n) (redis_hits n) (redis_errors n).
Definition set_evictions (n : Counters) (e : Z) := mk_counters (hits n) (misses n) (inserts n) e (invalidations n) (redis_hits n) (redis_errors n).
Definition count_invalidation (n : Counters) := mk_counters (hits n) (misses n) (inserts n) (evictions n) (inc (invalidations n)) (redis_hits n) (redis_errors n).
Definition count_redis_hit (n : Counters) := mk_counters (inc (hits n)) (misses n) (inserts n) (evictions n) (invalidations n) (inc (redis_hits n)) (redis_errors n).
Definition count_redis_error (n : Counters) := mk_counters (hits n) (misses n) (inserts n) (evictions n) (invalidations n) (redis_hits n) (inc (redis_errors n)).

Definition snapshot_str (snapshot : option Z) : string :=
  match snapshot with Some id => to_string id | None => "current" end.

Definition cache_key (cfg : CacheConfig) (kind : CacheKind) (scope : string) (snapshot : option Z)
    (identity : string) : string :=
  namespace cfg +:+ ":" +:+ kind_as_str kind +:+ ":" +:+ scope +:+ ":" +:+
  snapshot_str snapshot +:+ ":" +:+ identity.

Definition cache_insert_local c (now : Z) (key : string) (value : bytes) : CacheManager R :=
  let '(s, ev) := insert_local (cm_config c) now (cm_local c) (evictions (cm_counters c)) key value in
  with_counters (with_local c s) (set_evictions (cm_counters c) ev).

Definition cache_get c (now : Z) (kind : CacheKind) (scope : string) (snapshot : option Z)
    (identity : string) : CacheManager R * option bytes :=
  let key := cache_key (cm_config c) kind scope snapshot identity in
  let local := cm_local c in
  let miss c : CacheManager R * option bytes :=
    match cm_redis c with
    | Some r =>
        let '(r, res) := redis_get r key in
        let c := with_redis c r in
        match res with
        | Some (Some value) =>
            let c := with_counters c (count_redis_hit (cm_counters c)) in
            (cache_insert_local c now key value, Some value)
        | Some None => (with_counters c (count_miss (cm_counters c)), None)
        | None => (with_counters c (count_miss (count_redis_error (cm_counters c))), None)
        end
    | None => (with_counters c (count_miss (cm_counters c)), None)
    end in
  match entries local !! key with
  | Some entry =>
      if decide (expires_at entry > now) then
        let s := mk_local (entries local) (retain key (order local) ++ [key]) (in_use local) in
        (with_counters (with_local c s) (count_hit (cm_counters c)), Some (e_value entry))
      else miss (with_local c (remove_local local key))
  | None => miss c
  end.

Definition cache_put c (now : Z) (kind : CacheKind) (scope : string) (snapshot : option Z)
    (identity : string) (value : bytes) : CacheManager R :=
  let key := cache_key (cm_config c) kind scope snapshot identity in
  let c := cache_insert_local c now key value in
  let c :=
    match cm_redis c with
    | Some r =>
        let '(r, res) := redis_put r key value (ttl (cm_config c)) in
        let c := with_redis c r in
        match res with
        | Some _ => c
        | None => with_counters c (count_redis_error (cm_counters c))
        end
    | None => c
    end in
  with_counters c (count_insert (cm_counters c)).

Definition invalidate_snapshot c (scope : string) (snapshot : Z) : CacheManager R :=
  let prefix := scope +:+ ":" in
  let stale k := contains prefix k && negb (contains (":" +:+ to_string snapshot +:+ ":") k) in
  let c := with_local c (remove_matching stale (cm_local c)) in
  with_counters c (count_invalidation (cm_counters c)).

Definition observe_snapshot c (scope : string) (snapshot : Z) : CacheManager R :=
  let c := mk_cache (cm_config c) (cm_local c) (<[scope := snapshot]> (cm_snapshots c))
             (cm_counters c) (cm_redis c) in
  invalidate_snapshot c scope snapshot.

Definition snapshot_for c (scope : string) : option Z := cm_snapshots c !! scope.

Definition invalidate_scope c (scope : string) : CacheManager R :=
  let c := with_local c (remove_matching (contains (":" +:+ scope +:+ ":")) (cm_local c)) in
  let c :=
    match cm_redis c with
    | Some r =>
        let '(r, res) := redis_del r (cache_key (cm_config c) Metadata scope None "table") in
        let c := with_redis c r in
        match res with
        | Some _ => c
        | None => with_counters c (count_redis_error (cm_counters c))
        end
    | None => c
    end in
  with_counters c (count_invalidation (cm_counters c)).

Definition invalidate_identity c (scope identity : string) : CacheManager R :=
  let p k := contains (":" +:+ scope +:+ ":") k && ends_with identity k in
  with_local c (remove_matching p (cm_local c)).

End CacheManager.

(** ** The caching store *)

Record CachingStore (R S : Type) : Type := mk_caching {
  cs_inner : S;
  cs_cache : CacheManager R;
  cs_scope : string;
}.
Arguments mk_caching {_ _} _ _ _.
Arguments cs_inner {_ _} _.
Arguments cs_cache {_ _} _.
Arguments cs_scope {_ _} _.

Definition cacheable (path : string) : bool :=
  negb (contains "ailake-serve" path || contains "ailake-jobs" path ||
        contains "ailake_jobs" path || contains "index-jobs" path ||
        ends_with ".lock" path || ends_with ".cancel" path).

Definition path_kind (path : string) : CacheKind :=
  if starts_with "metadata/" path && negb (contains "manifest" path) then Metadata else Index.

Section CachingStore.
Context {R S : Type} `{!RedisBackend R} `{!Store S}.
Implicit Types s : CachingStore R S.

Definition read_inner (i : S) (path : string) (range : option (Z * Z)) : S * AilakeResult bytes :=
  match range with
  | Some (a, b) => st_get_range i path a b
  | None => st_get i path
  end.

Definition read_identity (path : string) (range : option (Z * Z)) : string :=
  match range with
  | Some (a, b) => path +:+ "#" +:+ to_string a +:+ "-" +:+ to_string b
  | None => path
  end.

Definition cached_read s (path : string) (range : option (Z * Z))
    : CachingStore R S * AilakeResult bytes :=
  if negb (cacheable path) then
    let '(i, r) := read_inner (cs_inner s) path range in
    (mk_caching i (cs_cache s) (cs_scope s), r)
  else
    let identity := read_identity path range in
    let kind := path_kind path in
    let snapshot := snapshot_for (cs_cache s) (cs_scope s) in
    let '(c, cached) :=
      cache_get (cs_cache s) (st_now (cs_inner s)) kind (cs_scope s) snapshot identity in
    match cached with
    | Some value => (mk_caching (cs_inner s) c (cs_scope s), Ok value)
    | None =>
        let '(i, r) := read_inner (cs_inner s) path range in
        match r with
        | Ok value =>
            (mk_caching i (cache_put c (st_now i) kind (cs_scope s) snapshot identity value)
               (cs_scope s), Ok value)
        | Err e => (mk_caching i c (cs_scope s), Err e)
        end
    end.

(** A mutation goes to the inner store, then drops the path from the cache. *)
Definition cached_mutation s (path : string) (op : S → S * AilakeResult unit)
    : CachingStore R S * AilakeResult unit :=
  let '(i, r) := op (cs_inner s) in
  match r with
  | Ok tt => (mk_caching i (invalidate_identity (cs_cache s) (cs_scope s) path) (cs_scope s), Ok tt)
  | Err e => (mk_caching i (cs_cache s) (cs_scope s), Err e)
  end.

Definition forward {A} s (op : S → S * AilakeResult A) : CachingStore R S * AilakeResult A :=
  let '(i, r) := op (cs_inner s) in (mk_caching i (cs_cache s) (cs_scope s), r).

#[export] Instance caching_store : Store (CachingStore R S) := {|
  st_now s := st_now (cs_inner s);
  st_get s p := cached_read s p None;
  st_get_range s p a b := cached_read s p (Some (a, b));
  st_put s p d := cached_mutation s p (λ i, st_put i p d);
  st_list s p := forward s (λ i, st_list i p);
  st_file_size s p := forward s (λ i, st_file_size i p);
  st_exists s p := forward s (λ i, st_exists i p);
  st_delete s p := cached_mutation s p (λ i, st_delete i p);
|}.

End CachingStore.
