(* ===== verification/CacheTheorems.v ===== *)
(** * Correctness of the cache

    The LRU invariant and its preservation, what eviction keeps, reading after
    writing, the injectivity of the cache keys, and the caching store as a
    transparent layer over whole-object reads. *)

From S2P Require Import Prelude Core Store Resilience Cache.

(* ------------------------------------------------------------------ *)
(** ** The local tier                                                  *)
(* ------------------------------------------------------------------ *)

Definition entry_size (es : gmap string Entry) (k : string) : Z :=
  match es !! k with Some e => e_size e | None => 0 end.

(** The queue lists every key once, the counter is the total size, and every size
    is the length of its value. *)
Record lru_wf (s : LocalState) : Prop := {
  order_NoDup : NoDup (order s);
  order_dom k : k ∈ order s ↔ is_Some (entries s !! k);
  in_use_sum : in_use s = sum_by (entry_size (entries s)) (order s);
  size_ok k e : entries s !! k = Some e → e_size e = Zlen (e_value e);
}.

Definition lru_inv (max : Z) (s : LocalState) : Prop := lru_wf s ∧ in_use s ≤ max.

Lemma entry_size_nonneg s k : lru_wf s → 0 ≤ entry_size (entries s) k.
Proof.
  intros Hwf. unfold entry_size. destruct (entries s !! k) eqn:Hk; [|lia].
  apply (size_ok s Hwf) in Hk. lia.
Qed.

Lemma in_use_nonneg s : lru_wf s → 0 ≤ in_use s.
Proof. intros Hwf. rewrite (in_use_sum s Hwf). apply sum_by_nonneg. intros. by apply entry_size_nonneg. Qed.

Lemma sum_by_ext {A} (f g : A → Z) l : (∀ x, x ∈ l → f x = g x) → sum_by f l = sum_by g l.
Proof.
  induction l as [|x l IH]; intros H; [done|]. cbn. rewrite (H x) by (by left).
  f_equal. apply IH. intros y Hy. apply H. by right.
Qed.

Lemma elem_of_retain k key l : k ∈ retain key l ↔ k ≠ key ∧ k ∈ l.
Proof. unfold retain. by rewrite list_elem_of_filter. Qed.

Lemma retain_absent key l : key ∉ l → retain key l = l.
Proof.
  induction l as [|k l IH]; intros Hk; [done|]. apply not_elem_of_cons in Hk as [? ?].
  unfold retain in *. rewrite filter_cons_True by done. f_equal. auto.
Qed.

Lemma retain_head key l : retain key (key :: l) = retain key l.
Proof. unfold retain. rewrite filter_cons_False; naive_solver. Qed.

(** Taking one key out of the queue takes its size out of the sum. *)
Lemma sum_by_retain (f : string → Z) key l :
  NoDup l → sum_by f (retain key l) = sum_by f l - (if decide (key ∈ l) then f key else 0).
Proof.
  induction 1 as [|k l Hk Hnd IH]; [by rewrite decide_False by apply not_elem_of_nil|].
  destruct (decide (k = key)) as [->|Hne].
  - rewrite retain_head, retain_absent by done. cbn [sum_by]. rewrite decide_True by (by left). lia.
  - unfold retain in *. rewrite filter_cons_True by done. cbn [sum_by]. rewrite IH. destruct (decide (key ∈ l)) as [Hin|Hin].
    + rewrite decide_True by (by right). lia.
    + rewrite decide_False; [lia|]. intros [->|?]%elem_of_cons; done.
Qed.

Lemma lru_wf_key_size s key :
  lru_wf s → (if decide (key ∈ order s) then entry_size (entries s) key else 0)
             = entry_size (entries s) key.
Proof.
  intros Hwf. case_decide as Hk; [done|]. unfold entry_size.
  destruct (entries s !! key) eqn:E; [|done]. destruct Hk. by apply (order_dom s Hwf).
Qed.

(** What the byte counter becomes when [key] leaves. *)
Lemma minus_key s key :
  lru_wf s →
  match entries s !! key with
  | Some old => saturating_sub (in_use s) (e_size old)
  | None => in_use s
  end = sum_by (entry_size (delete key (entries s))) (retain key (order s)).
Proof.
  intros Hwf.
  rewrite (sum_by_ext _ (entry_size (entries s))).
  2: { intros k [Hk _]%elem_of_retain. unfold entry_size. by rewrite lookup_delete_ne by done. }
  rewrite sum_by_retain by apply Hwf. rewrite lru_wf_key_size, <- (in_use_sum s) by done.
  assert (Hle : entry_size (entries s) key ≤ in_use s).
  { rewrite (in_use_sum s Hwf), <- (lru_wf_key_size s key Hwf).
    rewrite <- Z.le_0_sub, <- sum_by_retain by apply Hwf.
    apply sum_by_nonneg. intros. by apply entry_size_nonneg. }
  unfold entry_size in *. destruct (entries s !! key) as [old|]; [|lia].
  unfold saturating_sub. lia.
Qed.

Lemma remove_local_wf s key : lru_wf s → lru_wf (remove_local s key).
Proof.
  intros Hwf. unfold remove_local. split; cbn.
  - apply NoDup_filter, Hwf.
  - intros k. rewrite elem_of_retain, (order_dom s Hwf). rewrite lookup_delete.
    case_decide; [|naive_solver]. subst. split; [naive_solver|by intros [? ?]].
  - by apply minus_key.
  - intros k e He. apply lookup_delete_Some in He as [_ He]. by apply (size_ok s Hwf) in He.
Qed.

Lemma remove_local_in_use s key : lru_wf s → in_use (remove_local s key) ≤ in_use s.
Proof.
  intros Hwf. cbn. destruct (entries s !! key) as [old|] eqn:E; [|lia].
  apply (size_ok s Hwf) in E. pose proof (in_use_nonneg s Hwf). unfold saturating_sub. lia.
Qed.

Lemma remove_many_entries s ks k :
  entries (foldl remove_local s ks) !! k = if decide (k ∈ ks) then None else entries s !! k.
Proof.
  revert s. induction ks as [|k' ks IH]; intros s; cbn; [done|].
  rewrite IH. cbn. destruct (decide (k = k')) as [->|Hne].
  - rewrite lookup_delete_eq, (decide_True (P:=k' ∈ k' :: ks)) by (by left). by case_decide.
  - rewrite lookup_delete_ne by done. destruct (decide (k ∈ ks)) as [Hin|Hin].
    + by rewrite decide_True by (by right).
    + rewrite decide_False; [done|]. by intros [?|?]%elem_of_cons.
Qed.

Lemma remove_many_wf max s ks : lru_inv max s → lru_inv max (foldl remove_local s ks).
Proof.
  revert s. induction ks as [|k ks IH]; intros s [Hwf Hle]; cbn; [done|].
  apply IH. split; [by apply remove_local_wf|]. pose proof (remove_local_in_use s k Hwf). lia.
Qed.

Lemma remove_matching_lookup p s k :
  entries (remove_matching p s) !! k = if p k then None else entries s !! k.
Proof.
  unfold remove_matching. rewrite remove_many_entries. case_decide as Hk.
  - apply list_elem_of_filter in Hk as [-> _]. done.
  - destruct (p k) eqn:Hp; [|done]. destruct (entries s !! k) eqn:E; [|done].
    destruct Hk. apply list_elem_of_filter. split; [done|]. by apply elem_of_elements, elem_of_dom.
Qed.

Lemma remove_matching_inv max p s : lru_inv max s → lru_inv max (remove_matching p s).
Proof. apply remove_many_wf. Qed.

(** ** Eviction *)

Lemma elem_of_drop_inv {A} (x : A) n l : x ∈ drop n l → x ∈ l.
Proof. intros Hx. rewrite <- (take_drop n l). apply elem_of_app. by right. Qed.

(** Eviction drops the shortest prefix of the queue that brings the total within
    the limit, and leaves every other entry as it is. *)
Lemma evict_spec max s ev :
  lru_wf s → 0 ≤ max →
  ∃ n, let s' := (evict max (entries s) (in_use s) ev (order s)).1 in
    lru_inv max s' ∧ order s' = drop n (order s) ∧
    (∀ k, entries s' !! k = if decide (k ∈ drop n (order s)) then entries s !! k else None) ∧
    (∀ m, (m < n)%nat → max < sum_by (entry_size (entries s)) (drop m (order s))).
Proof.
  intros Hwf Hmax. destruct s as [es ord b]. cbn [entries order in_use] in *.
  revert es b ev Hwf. induction ord as [|k ord IH]; intros es b ev Hwf.
  - pose proof (in_use_sum _ Hwf) as Hb. cbn in Hb. subst b. exists 0%nat. cbn.
    rewrite decide_False by lia. split_and!; [split; cbn; [done|lia]|done| |lia].
    intros k. case_decide; [done|]. destruct (es !! k) eqn:E; [|done].
    assert (k ∈ @nil string) as []%elem_of_nil. by apply (order_dom _ Hwf).
  - cbn [evict]. case_decide as Hgt.
    + assert (Hk : is_Some (es !! k)) by (apply (order_dom _ Hwf); by left).
      destruct Hk as [old Hold]. rewrite Hold.
      pose proof (remove_local_wf _ k Hwf) as Hwf'. unfold remove_local in Hwf'. cbn [entries order in_use] in Hwf'.
      pose proof (order_NoDup _ Hwf) as Hnd. cbn in Hnd. apply NoDup_cons in Hnd as [Hkn Hnd].
      rewrite Hold, retain_head, retain_absent in Hwf' by done.
      destruct (IH _ _ (wrap 64 (ev + 1)) Hwf') as (n & Hinv & Hord & Hent & Hmin).
      exists (S n). cbn [drop]. split_and!; [done|done| |].
      * intros k'. rewrite Hent. case_decide as Hin; [|done].
        apply lookup_delete_ne. intros ->. apply Hkn. by eapply elem_of_drop_inv.
      * intros [|m] Hm; cbn [drop].
        -- pose proof (in_use_sum _ Hwf) as Hb. cbn in Hb. cbn. lia.
        -- eapply Z.lt_le_trans; [apply (Hmin m); lia|]. apply Z.eq_le_incl, sum_by_ext.
           intros k' Hk'. unfold entry_size. rewrite lookup_delete_ne; [done|].
           intros ->. apply Hkn. by eapply elem_of_drop_inv.
    + exists 0%nat. cbn. split_and!; [split; [done|cbn; lia]|done| |lia].
      intros k'. case_decide as Hin; [done|]. destruct (es !! k') eqn:E; [|done].
      destruct Hin. by apply (order_dom _ Hwf).
Qed.

(** The state just before eviction. *)
Definition inserted (cfg : CacheConfig) (now : Z) (s : LocalState) (key : string) (value : bytes)
    : LocalState :=
  mk_local (<[key := mk_entry value (now + ttl cfg) (Zlen value)]> (delete key (entries s)))
    (retain key (order s) ++ [key])
    (saturating_add 64 (match entries s !! key with
                        | Some old => saturating_sub (in_use s) (e_size old)
                        | None => in_use s
                        end) (Zlen value)).

Lemma inserted_wf cfg now s key value :
  lru_inv (max_bytes cfg) s → max_bytes cfg + Zlen value < 2 ^ 64 →
  lru_wf (inserted cfg now s key value).
Proof.
  intros [Hwf Hle] Hlt. pose proof (remove_local_wf s key Hwf) as Hrm. split; cbn.
  - apply NoDup_app. split_and!; [apply Hrm| |apply NoDup_singleton].
    intros k [Hk _]%elem_of_retain ->%list_elem_of_singleton. done.
  - intros k. rewrite elem_of_app, list_elem_of_singleton.
    pose proof (order_dom _ Hrm k) as Hd. cbn in Hd. rewrite Hd.
    rewrite lookup_insert. case_decide; subst; [|naive_solver]. split; eauto.
  - pose proof (remove_local_in_use s key Hwf) as Hu. pose proof (in_use_nonneg _ Hrm) as Hu0.
    rewrite minus_key by done. pose proof (in_use_sum _ Hrm) as Hs. cbn in Hs, Hu, Hu0.
    rewrite minus_key in Hu, Hu0 by done.
    unfold saturating_add. rewrite Z.min_r by lia. rewrite sum_by_app. cbn [sum_by].
    unfold entry_size at 3. rewrite lookup_insert_eq. cbn [e_size].
    rewrite (sum_by_ext (entry_size (<[key := _]> _)) (entry_size (delete key (entries s)))); [lia|].
    intros k [Hk _]%elem_of_retain. unfold entry_size. by rewrite lookup_insert_ne by done.
  - intros k e He. apply lookup_insert_Some in He as [[<- <-]|[Hne He]]; [done|].
    apply lookup_delete_Some in He as [_ He]. by apply (size_ok s Hwf) in He.
Qed.

Lemma insert_local_spec cfg now s ev key value :
  lru_inv (max_bytes cfg) s → 0 ≤ max_bytes cfg → max_bytes cfg + Zlen value < 2 ^ 64 →
  let q := retain key (order s) ++ [key] in
  ∃ n, let s' := (insert_local cfg now s ev key value).1 in
    lru_inv (max_bytes cfg) s' ∧ order s' = drop n q ∧
    (∀ k, entries s' !! k =
       if decide (k ∈ drop n q) then entries (inserted cfg now s key value) !! k else None) ∧
    (∀ m, (m < n)%nat →
       max_bytes cfg < sum_by (entry_size (entries (inserted cfg now s key value))) (drop m q)).
Proof.
  intros Hinv Hm Hlt. cbv zeta.
  apply (evict_spec (max_bytes cfg) (inserted cfg now s key value) ev); [|done].
  by apply inserted_wf.
Qed.

(** The inserted value survives its own insertion exactly when it fits. *)
Lemma insert_local_lookup cfg now s ev key value :
  lru_inv (max_bytes cfg) s → 0 ≤ max_bytes cfg → max_bytes cfg + Zlen value < 2 ^ 64 →
  entries (insert_local cfg now s ev key value).1 !! key =
  if decide (Zlen value ≤ max_bytes cfg) then Some (mk_entry value (now + ttl cfg) (Zlen value))
  else None.
Proof.
  intros Hinv Hm Hlt. destruct (insert_local_spec cfg now s ev key value Hinv Hm Hlt)
    as (n & [Hwf Hle] & Hord & Hent & Hmin). rewrite Hent.
  set (q := retain key (order s) ++ [key]) in *.
  assert (Hq : length q = S (length (retain key (order s)))) by (subst q; len).
  assert (Hlook : entries (inserted cfg now s key value) !! key
                  = Some (mk_entry value (now + ttl cfg) (Zlen value))) by (cbn; apply lookup_insert_eq).
  assert (Hlast : drop (length (retain key (order s))) q = [key]).
  { subst q. by rewrite drop_app_length. }
  destruct (decide (Zlen value ≤ max_bytes cfg)) as [Hfit|Hbig].
  - rewrite decide_True; [done|]. destruct (decide (n ≤ length (retain key (order s)))%nat) as [Hn|Hn].
    + subst q. rewrite drop_app_le by done. apply elem_of_app. right. by left.
    + specialize (Hmin (length (retain key (order s))) ltac:(lia)). rewrite Hlast in Hmin.
      cbn [sum_by] in Hmin. unfold entry_size in Hmin. rewrite Hlook in Hmin. cbn in Hmin. lia.
  - rewrite decide_False; [done|]. intros Hin. rewrite <- Hord in Hin.
    assert (entry_size (entries (insert_local cfg now s ev key value).1) key ≤
            in_use (insert_local cfg now s ev key value).1) as Hsz.
    { rewrite (in_use_sum _ Hwf). rewrite <- (lru_wf_key_size _ key Hwf).
      rewrite <- Z.le_0_sub, <- sum_by_retain by apply Hwf.
      apply sum_by_nonneg. intros. by apply entry_size_nonneg. }
    unfold entry_size in Hsz. rewrite Hent, Hord in *. rewrite decide_True in Hsz by done.
    rewrite Hlook in Hsz. cbn in Hsz. lia.
Qed.

(* ------------------------------------------------------------------ *)
(** ** Keys                                                            *)
(* ------------------------------------------------------------------ *)

(** The separator, [':']. *)
Definition colon : Ascii.ascii := Ascii.Ascii false true false true true true false false.

Lemma string_app_inv_head (a b c : string) : a +:+ b = a +:+ c → b = c.
Proof.
  intros H. apply (f_equal as_bytes) in H. rewrite !as_bytes_app in H.
  apply app_inv_head in H. by apply as_bytes_inj.
Qed.

(** Two texts that agree up to and including the first separator. *)
Lemma split_at_colon a b x y :
  no_char colon a = true → no_char colon b = true →
  a +:+ ":" +:+ x = b +:+ ":" +:+ y → a = b ∧ x = y.
Proof.
  intros Ha Hb H. apply (f_equal (split_once colon)) in H.
  change (":" +:+ x) with (String colon x) in H. change (":" +:+ y) with (String colon y) in H.
  rewrite !split_once_app in H by done. by simplify_eq.
Qed.

Lemma kind_no_colon k : no_char colon (kind_as_str k) = true.
Proof. by destruct k. Qed.

Lemma kind_as_str_inj k k' : kind_as_str k = kind_as_str k' → k = k'.
Proof. by destruct k, k'. Qed.

Lemma snapshot_no_colon o : no_char colon (snapshot_str o) = true.
Proof. destruct o; [|done]. by apply to_string_no_char. Qed.

Lemma to_string_inj a b : to_string a = to_string b → a = b.
Proof. unfold to_string. apply (inj pretty). Qed.

Lemma snapshot_str_inj o o' : snapshot_str o = snapshot_str o' → o = o'.
Proof.
  assert (Hne : ∀ z, to_string z ≠ "current").
  { intros z H. pose proof (to_string_no_char
      (Ascii.Ascii true true false false false true true false) z eq_refl ltac:(done)) as Hn.
    rewrite H in Hn. by vm_compute in Hn. }
  destruct o as [a|], o' as [b|]; cbn; intros H; [|by apply Hne in H|by symmetry in H; apply Hne in H|done].
  by apply to_string_inj in H as ->.
Qed.

(** Within one scope no two reads share a key. *)
Lemma cache_key_same_scope cfg scope k k' o o' i i' :
  cache_key cfg k scope o i = cache_key cfg k' scope o' i' → k = k' ∧ o = o' ∧ i = i'.
Proof.
  unfold cache_key. intros H. do 2 apply string_app_inv_head in H.
  apply split_at_colon in H as [Hk H]; [|apply kind_no_colon..]. apply kind_as_str_inj in Hk.
  do 2 apply string_app_inv_head in H.
  apply split_at_colon in H as [Ho H]; [|apply snapshot_no_colon..].
  by apply snapshot_str_inj in Ho.
Qed.

Lemma contains_middle u p v : contains p (u +:+ p +:+ v) = true.
Proof. apply contains_spec. eauto. Qed.

(** The marker and the suffix that invalidation looks for are in the key. *)
Lemma cache_key_matches cfg k scope o i :
  contains (":" +:+ scope +:+ ":") (cache_key cfg k scope o i) = true ∧
  ends_with i (cache_key cfg k scope o i) = true.
Proof.
  unfold cache_key. split.
  - apply contains_spec. exists (namespace cfg +:+ ":" +:+ kind_as_str k), (snapshot_str o +:+ ":" +:+ i).
    by rewrite !string_app_assoc.
  - apply ends_with_spec.
    exists (namespace cfg +:+ ":" +:+ kind_as_str k +:+ ":" +:+ scope +:+ ":" +:+ snapshot_str o +:+ ":").
    by rewrite !string_app_assoc.
Qed.

(** Cache keys identify what is cached: with scopes free of the separator, equal
    keys have the same partition, scope, snapshot and identity, so a value cached
    for one read is never returned for another, nor for another snapshot. *)
Theorem cache_key_injective cfg k k' scope scope' o o' i i' :
  no_char colon scope = true → no_char colon scope' = true →
  cache_key cfg k scope o i = cache_key cfg k' scope' o' i' →
  k = k' ∧ scope = scope' ∧ o = o' ∧ i = i'.
Proof.
  intros Hs Hs' H. unfold cache_key in H. do 2 apply string_app_inv_head in H.
  apply split_at_colon in H as [Hk H]; [|apply kind_no_colon..]. apply kind_as_str_inj in Hk.
  apply split_at_colon in H as [Hsc H]; [|done..].
  apply split_at_colon in H as [Ho H]; [|apply snapshot_no_colon..].
  by apply snapshot_str_inj in Ho.
Qed.

Lemma cache_key_injective_witness :
  let cfg := mk_cache_config "ailake" 10 10 in
  cache_key cfg Index "default.t" (Some 7) "a:b" = cache_key cfg Index "default.t" (Some 7) "a:b" ∧
  Index = Index ∧ "default.t" = "default.t" ∧ Some 7 = Some 7 ∧ "a:b" = "a:b".
Proof.
  split; [reflexivity|].
  apply (cache_key_injective (mk_cache_config "ailake" 10 10) Index Index "default.t" "default.t"
           (Some 7) (Some 7) "a:b" "a:b"); reflexivity.
Defined.

(* ------------------------------------------------------------------ *)
(** ** The manager                                                     *)
(* ------------------------------------------------------------------ *)

Section Manager.
Context {R : Type} `{!RedisBackend R}.
Implicit Types c : CacheManager R.

Definition cache_inv c : Prop :=
  0 < max_bytes (cm_config c) ∧ lru_inv (max_bytes (cm_config c)) (cm_local c).

(** A value whose size the byte counter can add. *)
Definition addable c (value : bytes) : Prop := max_bytes (cm_config c) + Zlen value < 2 ^ 64.

Lemma insert_local_inv c now key value :
  cache_inv c → addable c value → cache_inv (cache_insert_local c now key value).
Proof.
  intros [Hm Hinv] Hadd. unfold cache_insert_local.
  destruct (insert_local_spec (cm_config c) now (cm_local c) (evictions (cm_counters c)) key value Hinv
    ltac:(lia) Hadd) as (n & Hinv' & _). destruct (insert_local _ _ _ _ _ _) as [s ev].
  by split.
Qed.

Lemma touch_inv max s key :
  lru_inv max s → is_Some (entries s !! key) →
  lru_inv max (mk_local (entries s) (retain key (order s) ++ [key]) (in_use s)).
Proof.
  intros [Hwf Hle] Hk. split; [|done]. split; cbn.
  - apply NoDup_app. split_and!; [apply NoDup_filter, Hwf| |apply NoDup_singleton].
    intros k [Hne _]%elem_of_retain ->%list_elem_of_singleton. done.
  - intros k. rewrite elem_of_app, elem_of_retain, list_elem_of_singleton, (order_dom s Hwf).
    destruct (decide (k = key)) as [->|]; naive_solver.
  - rewrite sum_by_app, sum_by_retain by apply Hwf. rewrite lru_wf_key_size by done.
    rewrite (in_use_sum s Hwf). cbn [sum_by]. lia.
  - apply Hwf.
Qed.

Lemma cache_get_inv c now k scope o i :
  cache_inv c → (∀ v, (cache_get c now k scope o i).2 = Some v → addable c v) →
  cache_inv (cache_get c now k scope o i).1.
Proof.
  intros Hc Hv. pose proof Hc as [Hm Hinv]. unfold cache_get in *. set (key := cache_key _ _ _ _ _) in *.
  assert (Hmiss : ∀ s, lru_inv (max_bytes (cm_config c)) s → cache_inv (with_local c s)) by (by split).
  destruct (entries (cm_local c) !! key) as [e|] eqn:He; [case_decide|].
  - split; [done|]. cbn. apply touch_inv; [done|by eexists].
  - specialize (Hmiss _ (remove_many_wf _ _ [key] Hinv)). cbn in Hv.
    destruct (cm_redis c) as [r|] eqn:Hr; cbn in *; rewrite Hr in *; [|done].
    destruct (redis_get r key) as [r' [[v|]|]]; try done.
    apply insert_local_inv; [done|]. by apply Hv.
  - destruct (cm_redis c) as [r|] eqn:Hr; [|done].
    destruct (redis_get r key) as [r' [[v|]|]]; try done.
    apply insert_local_inv; [done|]. by apply Hv.
Qed.

Lemma cache_put_inv c now k scope o i v :
  cache_inv c → addable c v → cache_inv (cache_put c now k scope o i v).
Proof.
  intros Hc Hv. pose proof (insert_local_inv c now (cache_key (cm_config c) k scope o i) v Hc Hv) as Hi.
  unfold cache_put. destruct (cm_redis _) as [r|]; [|done]. by destruct (redis_put _ _ _ _) as [r' []].
Qed.

Lemma remove_matching_cache_inv c p :
  cache_inv c → cache_inv (with_local c (remove_matching p (cm_local c))).
Proof. intros [??]. split; [done|]. by apply remove_matching_inv. Qed.

(** One critical section of the cache. *)
Inductive cache_step : CacheManager R → CacheManager R → Prop :=
| step_get c now k scope o i :
    (∀ v, (cache_get c now k scope o i).2 = Some v → addable c v) →
    cache_step c (cache_get c now k scope o i).1
| step_put c now k scope o i v :
    addable c v → cache_step c (cache_put c now k scope o i v)
| step_invalidate_snapshot c scope n : cache_step c (invalidate_snapshot c scope n)
| step_observe c scope n : cache_step c (observe_snapshot c scope n)
| step_invalidate_scope c scope : cache_step c (invalidate_scope c scope)
| step_invalidate_identity c scope i : cache_step c (invalidate_identity c scope i).

Lemma cache_step_inv c c' : cache_step c c' → cache_inv c → cache_inv c'.
Proof.
  destruct 1; intros Hc.
  - by apply cache_get_inv.
  - by apply cache_put_inv.
  - by apply remove_matching_cache_inv.
  - destruct Hc as [Hm Hi]. split; [done|]. by apply remove_matching_inv.
  - unfold invalidate_scope. pose proof (remove_matching_cache_inv c
      (contains (":" +:+ scope +:+ ":")) Hc) as Hi. cbn.
    destruct (cm_redis c) as [r|]; [|done]. by destruct (redis_del _ _) as [r' []].
  - by apply remove_matching_cache_inv.
Qed.

(** C22: whatever sequence of operations a cache has been through, its memory bound
    holds: the bytes in use are exactly the total length of the cached values, at
    most [max_bytes], and the recency queue lists each cached key exactly once. *)
Theorem cache_memory_bound config open c0 c :
  0 ≤ max_bytes config → cache_new config open = Ok c0 → rtc cache_step c0 c →
  max_bytes (cm_config c) = max_bytes config ∧
  NoDup (order (cm_local c)) ∧
  (∀ k, k ∈ order (cm_local c) ↔ is_Some (entries (cm_local c) !! k)) ∧
  in_use (cm_local c) =
    sum_by (λ k, match entries (cm_local c) !! k with Some e => Zlen (e_value e) | None => 0 end)
      (order (cm_local c)) ∧
  in_use (cm_local c) ≤ max_bytes config.
Proof.
  intros Hm Hnew Hsteps.
  assert (Hc : cache_inv c ∧ max_bytes (cm_config c) = max_bytes config).
  { assert (H0 : cache_inv c0 ∧ max_bytes (cm_config c0) = max_bytes config).
    { revert Hnew. unfold cache_new. destruct (Z.eqb_spec (max_bytes config) 0); [done|].
      rewrite bind_Ok. intros (r & _ & [= <-]). split; [|done]. split; [cbn; lia|].
      split; [|cbn; lia]. split; cbn; [constructor| |done|done].
      intros k. rewrite lookup_empty. split; [by intros ?%elem_of_nil|by intros [? ?]]. }
    clear Hnew. induction Hsteps as [c|c c1 c2 Hst _ IH]; [done|].
    apply IH. destruct H0 as [Hi Hmx]. split; [by eapply cache_step_inv|]. rewrite <- Hmx.
    destruct Hst as [c now k scope o i _|c now k scope o i v _|c scope n|c scope n|c scope|c scope i];
      try done.
    - unfold cache_get, cache_insert_local. repeat (case_match; try done); by simplify_eq.
    - unfold cache_put, cache_insert_local. repeat (case_match; try done); by simplify_eq.
    - unfold invalidate_scope. repeat (case_match; try done); by simplify_eq. }
  destruct Hc as [[_ [Hwf Hle]] Hmx]. rewrite Hmx in Hle.
  split_and!; [done|apply Hwf|apply Hwf| |done].
  rewrite (in_use_sum _ Hwf). apply sum_by_ext. intros k _. unfold entry_size.
  destruct (entries _ !! k) eqn:E; [|done]. by apply (size_ok _ Hwf) in E.
Qed.

(** Read your writes: within its time to live a value just put is returned, and
    the hit marks it most recently used; a value larger than the whole cache is not
    kept, and has pushed out everything else. *)
Theorem cache_get_after_put c now now' k scope o i v :
  cache_inv c → addable c v → cm_redis c = None → now' < now + ttl (cm_config c) →
  let c' := cache_put c now k scope o i v in
  let key := cache_key (cm_config c) k scope o i in
  if decide (Zlen v ≤ max_bytes (cm_config c)) then
    (cache_get c' now' k scope o i).2 = Some v ∧
    last (order (cm_local (cache_get c' now' k scope o i).1)) = Some key
  else (cache_get c' now' k scope o i).2 = None ∧ entries (cm_local c') = ∅.
Proof.
  intros [Hm Hinv] Hadd Hr Ht. cbv zeta. set (key := cache_key (cm_config c) k scope o i).
  set (c1 := cache_insert_local c now key v).
  assert (Hput : cache_put c now k scope o i v = with_counters c1 (count_insert (cm_counters c1))).
  { unfold cache_put. fold key. fold c1. assert (cm_redis c1 = None) as ->; [|done].
    unfold c1, cache_insert_local. by destruct (insert_local _ _ _ _ _ _). }
  assert (Hloc : cm_local c1 = (insert_local (cm_config c) now (cm_local c)
                                  (evictions (cm_counters c)) key v).1 ∧ cm_config c1 = cm_config c
                 ∧ cm_redis c1 = None).
  { unfold c1, cache_insert_local. by destruct (insert_local _ _ _ _ _ _). }
  destruct Hloc as (Hloc & Hcfg & Hr1).
  pose proof (insert_local_lookup (cm_config c) now (cm_local c) (evictions (cm_counters c)) key v
                Hinv ltac:(lia) Hadd) as Hlook. rewrite <- Hloc in Hlook.
  rewrite Hput. unfold cache_get. cbn [cm_local cm_config cm_redis with_counters]. rewrite Hcfg.
  fold key. rewrite Hlook. case_decide as Hfit.
  - rewrite decide_True by (cbn; lia). cbn. split; [done|]. by rewrite last_snoc.
  - rewrite Hr1. split; [done|].
    destruct (insert_local_spec (cm_config c) now (cm_local c) (evictions (cm_counters c)) key v
                Hinv ltac:(lia) Hadd) as (n & _ & _ & Hent & _).
    rewrite <- Hloc in Hent. apply map_eq. intros k'. rewrite Hent, lookup_empty.
    rewrite decide_False; [done|]. specialize (Hent key). rewrite Hlook in Hent.
    intros Hin. destruct (decide (key ∈ drop n (retain key (order (cm_local c)) ++ [key]))) as [Hk|Hk].
    + cbn in Hent. by rewrite lookup_insert_eq in Hent.
    + apply Hk. apply list_elem_of_split in Hin as (l1 & l2 & Hd).
      destruct (decide (n ≤ length (retain key (order (cm_local c))))%nat) as [Hn|Hn].
      * rewrite drop_app_le by done. apply elem_of_app. right. by left.
      * rewrite drop_ge in Hd by len. by destruct l1.
Qed.

End Manager.

(** A cache without a Redis tier, for concrete runs. *)
#[export] Instance unit_redis : RedisBackend unit := {|
  redis_get r _ := (r, None); redis_put r _ _ _ := (r, None); redis_del r _ := (r, None) |}.

Definition small_cache : CacheManager unit :=
  mk_cache (mk_cache_config "ailake" 4 10) (mk_local ∅ [] 0) ∅ (mk_counters 0 0 0 0 0 0 0) None.

Definition small_cache1 := cache_put small_cache 0 Query "t" (Some 1) "a" [1; 2; 3].
Definition small_cache2 := cache_put small_cache1 1 Query "t" (Some 1) "b" [4; 5].

Lemma cache_memory_bound_witness :
  in_use (cm_local small_cache2) = 2 ∧ in_use (cm_local small_cache2) ≤ 4.
Proof.
  split; [vm_compute; reflexivity|].
  apply (cache_memory_bound (mk_cache_config "ailake" 4 10) (Ok None) small_cache).
  - vm_compute. discriminate.
  - reflexivity.
  - apply (rtc_l cache_step small_cache small_cache1).
    { apply (step_put small_cache 0 Query "t" (Some 1) "a" [1; 2; 3]). vm_compute. reflexivity. }
    apply (rtc_l cache_step small_cache1 small_cache2); [|apply rtc_refl].
    apply (step_put small_cache1 1 Query "t" (Some 1) "b" [4; 5]). vm_compute. reflexivity.
Defined.

Lemma small_cache_inv : cache_inv small_cache.
Proof.
  split; [done|]. split; [|done]. split; cbn; [constructor| |done|done].
  intros k. rewrite lookup_empty. split; [by intros ?%elem_of_nil|by intros [? ?]].
Qed.

Lemma cache_get_after_put_witness :
  (cache_get (cache_put small_cache 0 Query "t" (Some 1) "a" [1; 2; 3]) 9 Query "t" (Some 1) "a").2
  = Some [1; 2; 3].
Proof.
  apply (cache_get_after_put small_cache 0 9 Query "t" (Some 1) "a" [1; 2; 3]).
  - exact small_cache_inv.
  - vm_compute. reflexivity.
  - reflexivity.
  - vm_compute. reflexivity.
Defined.

(* ------------------------------------------------------------------ *)
(** ** The caching store                                               *)
(* ------------------------------------------------------------------ *)

Lemma evict_subset max es b ev ord k e :
  entries (evict max es b ev ord).1 !! k = Some e → es !! k = Some e.
Proof.
  revert es b ev. induction ord as [|o ord IH]; intros es b ev; cbn.
  - by case_decide.
  - case_decide; [|done]. destruct (es !! o) as [old|]; [|apply IH].
    intros Hk%IH. by apply lookup_delete_Some in Hk as [_ Hk].
Qed.

Section CachingStoreLaws.
Context {R S : Type} `{!RedisBackend R} `{!Store S} `{!StoreLaws S}.
Implicit Types s : CachingStore R S.

(** Every cached whole object is the inner store's object. *)
Definition coherent s (m : gmap string bytes) : Prop :=
  ∀ o p e, cacheable p = true →
    entries (cm_local (cs_cache s)) !! cache_key (cm_config (cs_cache s)) (path_kind p) (cs_scope s) o p
      = Some e → m !! p = Some (e_value e).

Definition caching_inv s : Prop :=
  store_inv (cs_inner s) ∧ cm_redis (cs_cache s) = None ∧ coherent s (view (cs_inner s)).

(** The cache after a lookup holds nothing new. *)
Lemma cache_get_local (c : CacheManager R) now k scope o i :
  cm_redis c = None →
  let '(c', r) := cache_get c now k scope o i in
  cm_config c' = cm_config c ∧ cm_redis c' = None ∧ cm_snapshots c' = cm_snapshots c ∧
  (∀ key e, entries (cm_local c') !! key = Some e → entries (cm_local c) !! key = Some e) ∧
  ∀ v, r = Some v → ∃ e, entries (cm_local c) !! cache_key (cm_config c) k scope o i = Some e ∧ v = e_value e.
Proof.
  intros Hr. unfold cache_get. destruct (entries (cm_local c) !! _) as [e|] eqn:He; [case_decide|].
  - cbn. split_and!; try done. intros v [= <-]. eauto.
  - cbn. rewrite Hr. cbn. split_and!; try done. intros key e' H'. by apply lookup_delete_Some in H' as [_ ?].
  - rewrite Hr. cbn. split_and!; done.
Qed.

Lemma cache_put_local (c : CacheManager R) now k scope o i v :
  cm_redis c = None →
  let c' := cache_put c now k scope o i v in
  cm_config c' = cm_config c ∧ cm_redis c' = None ∧
  ∀ key e, entries (cm_local c') !! key = Some e →
    (key = cache_key (cm_config c) k scope o i ∧ e_value e = v) ∨ entries (cm_local c) !! key = Some e.
Proof.
  intros Hr. cbv zeta. unfold cache_put, cache_insert_local, insert_local.
  set (key0 := cache_key _ _ _ _ _).
  destruct (evict _ _ _ _ _) as [s' ev] eqn:Hev. cbn. rewrite Hr. cbn. split_and!; try done.
  intros key e He.
  assert (He' : entries (evict (max_bytes (cm_config c))
    (<[key0:=mk_entry v (now + ttl (cm_config c)) (Zlen v)]> (delete key0 (entries (cm_local c))))
    (saturating_add 64 (match entries (cm_local c) !! key0 with
       | Some old => saturating_sub (in_use (cm_local c)) (e_size old)
       | None => in_use (cm_local c) end) (Zlen v))
    (evictions (cm_counters c)) (retain key0 (order (cm_local c)) ++ [key0])).1 !! key = Some e)
    by (rewrite Hev; done).
  apply evict_subset in He'. apply lookup_insert_Some in He' as [[<- <-]|[_ He']]; [by left|].
  right. by apply lookup_delete_Some in He' as [_ ?].
Qed.

Lemma caching_get_law s p :
  caching_inv s → let '(s', r) := st_get s p in
  caching_inv s' ∧ view (cs_inner s') = view (cs_inner s) ∧
  ∀ v, r = Ok v → view (cs_inner s) !! p = Some v.
Proof.
  intros (Hi & Hr & Hco). cbn. unfold cached_read, read_inner.
  pose proof (get_law (cs_inner s) p Hi) as Hg. destruct (cacheable p) eqn:Hcp; cbn [negb].
  - pose proof (cache_get_local (cs_cache s) (st_now (cs_inner s)) (path_kind p) (cs_scope s)
      (snapshot_for (cs_cache s) (cs_scope s)) (read_identity p None) Hr) as Hc.
    destruct (cache_get _ _ _ _ _ _) as [c' [v|]]; destruct Hc as (Hcfg & Hr' & _ & Hsub & Hv).
    + destruct (Hv v eq_refl) as (e & He & ->). cbn. unfold caching_inv; split_and!; try done.
      * intros o p' e' Hp' He'. cbn [cs_cache cs_scope cs_inner] in He'. rewrite Hcfg in He'. eapply Hco; [done|by apply Hsub].
      * intros v [= <-]. by eapply Hco.
    + destruct (st_get (cs_inner s) p) as [i [v|err]]; destruct Hg as (Hi' & Hview & Hval); cbn [cs_inner].
      * pose proof (cache_put_local c' (st_now i) (path_kind p) (cs_scope s)
          (snapshot_for (cs_cache s) (cs_scope s)) (read_identity p None) v Hr') as (Hcfg2 & Hr2 & Hsub2).
        unfold caching_inv; split_and!; try done.
        intros o p' e' Hp' He'. cbn [cs_cache cs_scope cs_inner] in He'. rewrite Hcfg2 in He'. cbn [cs_inner]. rewrite Hview.
        apply Hsub2 in He' as [[Hk <-]|He'].
        -- apply cache_key_same_scope in Hk as (_ & _ & ->). by apply Hval.
        -- rewrite Hcfg in He'. apply Hsub in He'. by eapply Hco.
      * unfold caching_inv; split_and!; try done. intros o p' e' Hp' He'. cbn [cs_cache cs_scope cs_inner] in He'. rewrite Hcfg in He'. cbn [cs_inner].
        rewrite Hview. eapply Hco; [done|by apply Hsub].
  - destruct (st_get (cs_inner s) p) as [i r]. destruct Hg as (Hi' & Hview & Hval). cbn.
    unfold caching_inv; split_and!; try done. intros o p' e' Hp' He'. cbn [cs_cache cs_scope cs_inner] in He' |- *. rewrite Hview. by eapply Hco.
Qed.

(** Dropping a path from the cache keeps it coherent with any change at that path. *)
Lemma invalidate_coherent s p i (m : gmap string bytes) :
  coherent s (view (cs_inner s)) → (∀ q, q ≠ p → m !! q = view (cs_inner s) !! q) →
  coherent (mk_caching i (invalidate_identity (cs_cache s) (cs_scope s) p) (cs_scope s)) m.
Proof.
  intros Hco Hm o q e Hq He. cbn in He. rewrite remove_matching_lookup in He.
  destruct (decide (q = p)) as [->|Hne].
  - destruct (cache_key_matches (cm_config (cs_cache s)) (path_kind p) (cs_scope s) o p) as [H1 H2].
    by rewrite H1, H2 in He.
  - rewrite Hm by done. destruct (_ && _); [done|]. by eapply Hco.
Qed.

Lemma caching_mutation_law s p (op : S → S * AilakeResult unit) (f : gmap string bytes → gmap string bytes) :
  (∀ m q, q ≠ p → f m !! q = m !! q) →
  (let '(i, r) := op (cs_inner s) in
   store_inv i ∧ view i = if is_ok r then f (view (cs_inner s)) else view (cs_inner s)) →
  caching_inv s → let '(s', r) := cached_mutation s p op in
  caching_inv s' ∧ view (cs_inner s') = if is_ok r then f (view (cs_inner s)) else view (cs_inner s).
Proof.
  intros Hf Hop (Hi & Hr & Hco). unfold cached_mutation.
  destruct (op (cs_inner s)) as [i [[]|err]]; destruct Hop as [Hi' Hv]; cbn in *.
  - split; [|done]. split_and!; [done|done|]. cbn. rewrite Hv.
    apply invalidate_coherent; [done|]. intros q Hq. by apply Hf.
  - split; [|done]. split_and!; [done|done|]. cbn. rewrite Hv. exact Hco.
Qed.

#[export] Instance caching_store_laws : StoreLaws (CachingStore R S).
Proof.
  refine {| view s := view (cs_inner s); store_inv := caching_inv |}.
  - intros s p Hi. by apply caching_get_law.
  - intros s p d Hi. apply (caching_mutation_law s p _ <[p := d]>); [|by apply put_law, Hi|done].
    intros m q Hq. by rewrite lookup_insert_ne.
  - intros s p Hi. apply (caching_mutation_law s p _ (delete p)); [|by apply delete_law, Hi|done].
    intros m q Hq. by rewrite lookup_delete_ne.
Defined.

End CachingStoreLaws.

(* ------------------------------------------------------------------ *)
(** ** A stack of stores is a map                                      *)
(* ------------------------------------------------------------------ *)

Inductive store_op : Type := OGet (p : string) | OPut (p : string) (d : bytes) | ODelete (p : string).
Inductive store_log : Type :=
| LGet (p : string) (r : AilakeResult bytes)
| LPut (p : string) (d : bytes) (r : AilakeResult unit)
| LDelete (p : string) (r : AilakeResult unit).

Fixpoint run_ops {S} `{!Store S} (s : S) (ops : list store_op) : list store_log :=
  match ops with
  | [] => []
  | OGet p :: ops => let '(s, r) := st_get s p in LGet p r :: run_ops s ops
  | OPut p d :: ops => let '(s, r) := st_put s p d in LPut p d r :: run_ops s ops
  | ODelete p :: ops => let '(s, r) := st_delete s p in LDelete p r :: run_ops s ops
  end.

(** A log is explained by a map when every successful read returns the map's
    value, successful writes and deletes change it, failures do not. *)
Fixpoint explained (m : gmap string bytes) (log : list store_log) : Prop :=
  match log with
  | [] => True
  | LGet p (Ok v) :: log => m !! p = Some v ∧ explained m log
  | LGet _ (Err _) :: log => explained m log
  | LPut p d r :: log => explained (if is_ok r then <[p := d]> m else m) log
  | LDelete p r :: log => explained (if is_ok r then delete p m else m) log
  end.

Lemma run_ops_explained {S} `{!Store S} `{!StoreLaws S} (s : S) ops :
  store_inv s → explained (view s) (run_ops s ops).
Proof.
  revert s. induction ops as [|[p|p d|p] ops IH]; intros s Hi; cbn; [done|..].
  - pose proof (get_law s p Hi) as Hl. destruct (st_get s p) as [s' [v|e]];
      destruct Hl as (Hi' & Hv & Hr); cbn; rewrite <- Hv; [split; [rewrite Hv; auto|]|]; by apply IH.
  - pose proof (put_law s p d Hi) as Hl. destruct (st_put s p d) as [s' r].
    destruct Hl as (Hi' & Hv). cbn. rewrite <- Hv. by apply IH.
  - pose proof (delete_law s p Hi) as Hl. destruct (st_delete s p) as [s' r].
    destruct Hl as (Hi' & Hv). cbn. rewrite <- Hv. by apply IH.
Qed.

Section Stack.
Context {R S : Type} `{!RedisBackend R} `{!Store S} `{!StoreLaws S}.

(** C21: the store the query path uses, a cache over a circuit breaker over an object
    store, is indistinguishable from the object store for whole-object operations, when
    the cache is local (no Redis behind it), starts empty, and nobody else writes to the
    store: in any sequence of reads, writes and deletes through it, every successful read
    returns the last value successfully written. *)
Theorem query_store_refines_map (i : CircuitBreakingStore S) (c : CacheManager R) scope ops :
  store_inv (cbs_inner i) → cm_redis c = None → entries (cm_local c) = ∅ →
  explained (view (cbs_inner i)) (run_ops (mk_caching i c scope) ops).
Proof.
  intros Hi Hr He. change (view (cbs_inner i)) with (view (mk_caching i c scope)).
  apply run_ops_explained.
  split_and!; [done|done|]. intros o p e _ H. cbn in H. by rewrite He, lookup_empty in H.
Qed.

(** The cache is not transparent for partial reads: a range that is cached stays
    cached when its object is overwritten through the same store, so the read after
    the write returns bytes of the old object. *)
Theorem stale_range_after_put (s : CachingStore R S) path d a b e :
  let key := cache_key (cm_config (cs_cache s)) (path_kind path) (cs_scope s)
               (snapshot_for (cs_cache s) (cs_scope s)) (read_identity path (Some (a, b))) in
  cacheable path = true → ends_with path key = false →
  entries (cm_local (cs_cache s)) !! key = Some e →
  let s' := (st_put s path d).1 in
  (st_put s path d).2 = Ok tt → st_now s' < expires_at e →
  (st_get_range s' path a b).2 = Ok (e_value e).
Proof.
  cbv zeta. set (key := cache_key _ _ _ _ _). intros Hc Hend He Hok Ht.
  cbn [st_put st_get_range st_now caching_store] in *. unfold cached_mutation in *.
  destruct (st_put (cs_inner s) path d) as [i [[]|]]; [|done].
  cbn [fst snd cs_inner] in Ht |- *.
  unfold cached_read. rewrite Hc. cbn [negb]. unfold cache_get.
  assert (Hl : entries (remove_matching (λ k, contains (":" +:+ cs_scope s +:+ ":") k && ends_with path k)
                          (cm_local (cs_cache s))) !! key = Some e).
  { rewrite remove_matching_lookup, Hend, andb_false_r. done. }
  cbn [cs_cache cs_inner cs_scope cm_local cm_config with_local invalidate_identity snapshot_for cm_snapshots].
  change (snapshot_for (invalidate_identity (cs_cache s) (cs_scope s) path) (cs_scope s))
    with (snapshot_for (cs_cache s) (cs_scope s)).
  fold key. rewrite Hl. by rewrite decide_True by lia.
Qed.

(** With a Redis tier the cache is not transparent even for whole objects: a
    write drops the local entry only, and the next read takes the old value from
    Redis. *)
Theorem stale_redis_after_put (s : CachingStore R S) path d r r' old :
  let key := cache_key (cm_config (cs_cache s)) (path_kind path) (cs_scope s)
               (snapshot_for (cs_cache s) (cs_scope s)) path in
  cacheable path = true → cm_redis (cs_cache s) = Some r →
  redis_get r key = (r', Some (Some old)) →
  (st_put s path d).2 = Ok tt →
  (st_get (st_put s path d).1 path).2 = Ok old.
Proof.
  cbv zeta. set (key := cache_key _ _ _ _ _). intros Hc Hr Hget Hok.
  cbn [st_put st_get caching_store] in *. unfold cached_mutation in *. destruct (st_put (cs_inner s) path d) as [i [[]|]]; [|done].
  unfold cached_read. rewrite Hc. cbn [negb fst]. unfold cache_get.
  destruct (cache_key_matches (cm_config (cs_cache s)) (path_kind path) (cs_scope s)
    (snapshot_for (cs_cache s) (cs_scope s)) path) as [H1 H2]. fold key in H1, H2.
  assert (Hl : entries (remove_matching (λ k, contains (":" +:+ cs_scope s +:+ ":") k && ends_with path k)
                          (cm_local (cs_cache s))) !! key = None).
  { by rewrite remove_matching_lookup, H1, H2. }
  cbn [cs_cache cs_inner cs_scope cm_local cm_config with_local invalidate_identity snapshot_for
    cm_snapshots read_identity cm_redis].
  change (snapshot_for (invalidate_identity (cs_cache s) (cs_scope s) path) (cs_scope s))
    with (snapshot_for (cs_cache s) (cs_scope s)).
  fold key. rewrite Hl, Hr, Hget. cbn. done.
Qed.

End Stack.

(** ** Concrete runs *)

Definition sample_store : MemStore := mk_mem {[ "data/x" := [1; 2; 3; 4] ]} 0 1.
Definition sample_cache : CacheManager unit :=
  mk_cache (mk_cache_config "ailake" 100 10) (mk_local ∅ [] 0) ∅ (mk_counters 0 0 0 0 0 0 0) None.
Definition sample_breaker : CircuitBreakingStore MemStore :=
  mk_cbs sample_store (Breaker.mk (Breaker.Closed 0) 3 10).

Lemma query_store_refines_map_witness :
  explained (view (cbs_inner sample_breaker))
    (run_ops (mk_caching sample_breaker sample_cache "t")
       [OGet "data/x"; OPut "data/x" [9]; OGet "data/x"; ODelete "data/x"; OGet "data/x"]).
Proof.
  apply (query_store_refines_map sample_breaker sample_cache "t"
           [OGet "data/x"; OPut "data/x" [9]; OGet "data/x"; ODelete "data/x"; OGet "data/x"]).
  - exact I.
  - reflexivity.
  - reflexivity.
Defined.

(** The store after its range [0..2) has been read. *)
Definition ranged_store : CachingStore unit MemStore :=
  Eval vm_compute in (st_get_range (mk_caching sample_store sample_cache "t") "data/x" 0 2).1.

Lemma stale_range_after_put_witness :
  (st_get_range (st_put ranged_store "data/x" [9; 9; 9; 9]).1 "data/x" 0 2).2 = Ok [1; 2].
Proof.
  apply (stale_range_after_put ranged_store "data/x" [9; 9; 9; 9] 0 2 (mk_entry [1; 2] 11 2)).
  - reflexivity.
  - vm_compute. reflexivity.
  - vm_compute. reflexivity.
  - vm_compute. reflexivity.
  - vm_compute. reflexivity.
Defined.

(** A Redis tier that keeps everything. *)
#[export] Instance map_redis : RedisBackend (gmap string bytes) := {|
  redis_get r k := (r, Some (r !! k));
  redis_put r k v _ := (<[k := v]> r, Some tt);
  redis_del r k := (delete k r, Some tt);
|}.

Definition redis_backed_store : CachingStore (gmap string bytes) MemStore :=
  mk_caching sample_store
    (mk_cache (mk_cache_config "ailake" 100 10) (mk_local ∅ [] 0) ∅ (mk_counters 0 0 0 0 0 0 0)
       (Some {[ "ailake:index:t:current:data/x" := [1; 2; 3; 4] ]})) "t".

Lemma stale_redis_after_put_witness :
  (st_get (st_put redis_backed_store "data/x" [9]).1 "data/x").2 = Ok [1; 2; 3; 4].
Proof.
  apply (stale_redis_after_put redis_backed_store "data/x" [9]
           {[ "ailake:index:t:current:data/x" := [1; 2; 3; 4] ]}
           {[ "ailake:index:t:current:data/x" := [1; 2; 3; 4] ]} [1; 2; 3; 4]).
  - reflexivity.
  - reflexivity.
  - vm_compute. reflexivity.
  - vm_compute. reflexivity.
Defined.
