(* ===== verification/Lease.v ===== *)
(** * Fenced locks on an object store

    The lease protocol of [ailake-store/src/object_store_backend.rs]: a lock is an
    object holding an owner, a fencing token and an expiry; it is taken, renewed
    and released with conditional writes.  Each backend remembers the lock it
    holds.  Every request to the object store ([head], [get], [put_opts]) is one
    step of [step], so calls of any number of backends interleave between their
    requests; requests may fail, a failed write may have been applied, and every
    step reads its own clock.  The object store is the documented one: a
    conditional write succeeds exactly when the version still matches. *)

From S2P Require Import Prelude Core.

(* ------------------------------------------------------------------ *)
(** ** Lease objects                                                   *)
(* ------------------------------------------------------------------ *)

Definition LOCK_LEASE_MS : Z := 120000.

Definition LF : Ascii.ascii := Ascii.Ascii false true false true false false false false.
Definition CR : Ascii.ascii := Ascii.Ascii true false true true false false false false.
Definition newline : string := String LF "".

Fixpoint strip_cr (s : string) : string :=
  match s with
  | EmptyString => EmptyString
  | String c EmptyString => if Ascii.eqb c CR then EmptyString else s
  | String c s' => String c (strip_cr s')
  end.

(** [str::lines]. *)
Fixpoint lines_from (cur s : string) : list string :=
  match s with
  | EmptyString => match cur with EmptyString => [] | _ => [cur] end
  | String c s =>
      if Ascii.eqb c LF then strip_cr cur :: lines_from "" s
      else lines_from (cur +:+ String c "") s
  end.
Definition lines (s : string) : list string := lines_from "" s.

Fixpoint find_map {A B} (f : A → option B) (l : list A) : option B :=
  match l with
  | [] => None
  | x :: l => match f x with Some y => Some y | None => find_map f l end
  end.

Definition lease_text (owner : string) (fencing_token expires_ms : Z) : string :=
  "owner=" +:+ owner +:+ newline +:+ "fence=" +:+ to_string fencing_token +:+ newline +:+
  "expires_ms=" +:+ to_string expires_ms +:+ newline.

Definition lease_payload (now_ms : Z) (owner : string) (fencing_token : Z) : string :=
  lease_text owner fencing_token (now_ms + LOCK_LEASE_MS).

Definition lease_owner_fence_and_expiry (text : string)
    : option string * option Z * option Z :=
  (find_map (strip_prefix "owner=") (lines text),
   find_map (λ line, rest ← strip_prefix "fence=" line; parse_u64 rest) (lines text),
   find_map (λ line, rest ← strip_prefix "expires_ms=" line; parse_u64 rest) (lines text)).

Definition lease_owner (text : string) : option string := (lease_owner_fence_and_expiry text).1.1.
Definition lease_fence (text : string) : option Z := (lease_owner_fence_and_expiry text).1.2.
Definition lease_expiry (text : string) : option Z := (lease_owner_fence_and_expiry text).2.

Definition lease_is_expired (now_ms last_modified_ms : Z) (text : string) : bool :=
  match lease_expiry text with
  | Some expires => bool_decide (expires ≤ now_ms)
  | None => bool_decide (saturating_sub now_ms (Z.max last_modified_ms 0) > LOCK_LEASE_MS)
  end.

(** ** Locations *)

(** [str::split_once] at a string. *)
Fixpoint split_once_str (sep s : string) : option (string * string) :=
  match strip_prefix sep s with
  | Some rest => Some (EmptyString, rest)
  | None =>
      match s with
      | EmptyString => None
      | String c s =>
          match split_once_str sep s with Some (l, r) => Some (String c l, r) | None => None end
      end
  end.

Definition slash : Ascii.ascii := Ascii.Ascii true true true true false true false false.

Fixpoint trim_start_slashes (s : string) : string :=
  match s with
  | String c s' => if Ascii.eqb c slash then trim_start_slashes s' else s
  | EmptyString => EmptyString
  end.

(** The prefix of a backend ends with a slash unless it is empty. *)
Definition backend_prefix (prefix : string) : string :=
  if bool_decide (prefix ≠ "") && negb (ends_with "/" prefix) then prefix +:+ "/" else prefix.

(** The object key of a path, before [Path::from]. *)
Definition resolve (prefix path : string) : string :=
  match split_once_str "://" path with
  | Some (_, after_scheme) =>
      match split_once slash after_scheme with Some (_, key) => key | None => "" end
  | None => prefix +:+ trim_start_slashes path
  end.

(* ------------------------------------------------------------------ *)
(** ** The protocol                                                    *)
(* ------------------------------------------------------------------ *)

Record HeldLock : Type := mk_held { owner : string; fencing_token : Z }.

(** The lock object with its version (ETag) and modification time. *)
Record object : Type := mk_object { version : Z; data : string; last_modified : Z }.

Inductive PutMode : Type := Create | Update (v : Z).
Inductive put_result : Type := PutOk | Precondition | AlreadyExists | NotFound.

(** A conditional write, given the version a write would create. *)
Definition put_opts (next now : Z) (payload : string) (mode : PutMode) (o : option object)
    : option object * put_result :=
  match mode, o with
  | Create, None => (Some (mk_object next payload now), PutOk)
  | Create, Some _ => (o, AlreadyExists)
  | Update v, Some cur =>
      if decide (v = version cur) then (Some (mk_object next payload now), PutOk)
      else (o, Precondition)
  | Update _, None => (o, NotFound)
  end.

(** Where a call is, between two requests. *)
Inductive pc : Type :=
| Idle
| AcquireHead (own : string)
| AcquireGet (own : string) (v modified : Z)
| AcquirePut (own : string) (next_fence : Z) (mode : PutMode)
| AcquireRetry
| RenewHead (h : HeldLock)
| RenewGet (h : HeldLock) (v modified : Z)
| RenewPut (h : HeldLock) (v : Z)
| ReleaseHead (h : HeldLock)
| ReleaseGet (h : HeldLock) (v : Z)
| ReleasePut (h : HeldLock) (v : Z)
| CheckHead (h : HeldLock)
| CheckGet (h : HeldLock) (v modified : Z).

(** What a call returns. *)
Inductive answer : Type :=
| Acquired (token : Z) | NotAcquired
| Renewed (b : bool)
| Released
| Fence (b : bool)
| Failed.

(** The rest of the world a request sees: the object, the next version, and the
    lock the calling backend remembers. *)
Record env : Type := mk_env { obj : option object; next_version : Z; remembered : option HeldLock }.

Definition with_obj (e : env) (o : option object) : env := mk_env o (next_version e) (remembered e).
Definition bump_version (e : env) (o : option object) : env :=
  mk_env o (next_version e + 1) (remembered e).
Definition remember (e : env) (h : HeldLock) : env := mk_env (obj e) (next_version e) (Some h).
Definition forget (e : env) : env := mk_env (obj e) (next_version e) None.

Definition owns (h : HeldLock) (text : string) : bool :=
  bool_decide (lease_owner text = Some (owner h)) &&
  bool_decide (lease_fence text = Some (fencing_token h)).

(** One request of a call, at its own clock. *)
Definition advance (now : Z) (p : pc) (e : env) : env * pc * option answer :=
  match p with
  | Idle => (e, Idle, None)
  (* try_acquire_lock_fenced *)
  | AcquireHead own =>
      match obj e with
      | Some o => (e, AcquireGet own (version o) (last_modified o), None)
      | None => (e, AcquirePut own 1 Create, None)
      end
  | AcquireGet own v modified =>
      match obj e with
      | Some o =>
          if negb (lease_is_expired now modified (data o)) then (e, Idle, Some NotAcquired)
          else (e, AcquirePut own (saturating_add 64 (default 0 (lease_fence (data o))) 1) (Update v), None)
      | None => (e, Idle, Some Failed)
      end
  | AcquirePut own next_fence mode =>
      let '(o, r) := put_opts (next_version e) now (lease_payload now own next_fence) mode (obj e) in
      match r with
      | PutOk => (remember (bump_version e o) (mk_held own next_fence), Idle, Some (Acquired next_fence))
      | Precondition | AlreadyExists => (e, Idle, Some NotAcquired)
      | NotFound => (e, AcquireRetry, None)
      end
  | AcquireRetry => (e, AcquireRetry, None)
  (* renew_lock_fenced *)
  | RenewHead h =>
      match obj e with
      | Some o => (e, RenewGet h (version o) (last_modified o), None)
      | None => (forget e, Idle, Some (Renewed false))
      end
  | RenewGet h v modified =>
      match obj e with
      | Some o =>
          if negb (owns h (data o)) || lease_is_expired now modified (data o)
          then (forget e, Idle, Some (Renewed false))
          else (e, RenewPut h v, None)
      | None => (e, Idle, Some Failed)
      end
  | RenewPut h v =>
      let '(o, r) := put_opts (next_version e) now (lease_payload now (owner h) (fencing_token h))
                       (Update v) (obj e) in
      match r with
      | PutOk => (bump_version e o, Idle, Some (Renewed true))
      | Precondition => (e, Idle, Some (Renewed false))
      | AlreadyExists | NotFound => (e, Idle, Some Failed)
      end
  (* release_lock_fenced *)
  | ReleaseHead h =>
      match obj e with
      | Some o => (e, ReleaseGet h (version o), None)
      | None => (forget e, Idle, Some Released)
      end
  | ReleaseGet h v =>
      match obj e with
      | Some o =>
          if owns h (data o) then (e, ReleasePut h v, None) else (forget e, Idle, Some Released)
      | None => (forget e, Idle, Some Released)
      end
  | ReleasePut h v =>
      let '(o, r) := put_opts (next_version e) now
                       (lease_text (owner h) (fencing_token h) (saturating_sub now 1))
                       (Update v) (obj e) in
      match r with
      | PutOk => (forget (bump_version e o), Idle, Some Released)
      | Precondition => (forget e, Idle, Some Released)
      | AlreadyExists | NotFound => (e, Idle, Some Failed)
      end
  (* check_lock_fence *)
  | CheckHead h =>
      match obj e with
      | Some o => (e, CheckGet h (version o) (last_modified o), None)
      | None => (e, Idle, Some (Fence false))
      end
  | CheckGet h _ modified =>
      match obj e with
      | Some o => (e, Idle, Some (Fence (owns h (data o) && negb (lease_is_expired now modified (data o)))))
      | None => (e, Idle, Some Failed)
      end
  end.

(** The calls a client can make, and where they start: the ones that need a held
    lock answer at once when the backend does not remember that token. *)
Inductive call : Type :=
| CallAcquire (own : string)
| CallRenew (token : Z)
| CallRelease (token : Z)
| CallCheck (token : Z).

Definition begin (c : call) (r : option HeldLock) : pc * option answer :=
  match c with
  | CallAcquire own => (AcquireHead own, None)
  | CallRenew token =>
      match r with
      | Some h => if decide (fencing_token h = token) then (RenewHead h, None) else (Idle, Some (Renewed false))
      | None => (Idle, Some (Renewed false))
      end
  | CallRelease token =>
      match r with
      | Some h => if decide (fencing_token h = token) then (ReleaseHead h, None) else (Idle, Some Released)
      | None => (Idle, Some Released)
      end
  | CallCheck token =>
      match r with
      | Some h => if decide (fencing_token h = token) then (CheckHead h, None) else (Idle, Some (Fence false))
      | None => (Idle, Some (Fence false))
      end
  end.

(** The unfenced methods use the remembered token. *)
Definition begin_renew_lock (r : option HeldLock) : pc * option answer :=
  match r with Some h => begin (CallRenew (fencing_token h)) r | None => (Idle, Some (Renewed false)) end.
Definition begin_release_lock (r : option HeldLock) : pc * option answer :=
  match r with Some h => begin (CallRelease (fencing_token h)) r | None => (Idle, Some Released) end.

(** ** The system of backends *)

(** Tasks are numbered; each belongs to a backend. *)
Record world : Type := mk_world {
  lock_object : option object;
  versions : Z;
  held : gmap nat HeldLock;
  tasks : gmap nat (nat * pc);
}.

Definition env_of (w : world) (b : nat) : env := mk_env (lock_object w) (versions w) (held w !! b).
Definition set_held (m : gmap nat HeldLock) (b : nat) (h : option HeldLock) : gmap nat HeldLock :=
  match h with Some h => <[b := h]> m | None => delete b m end.
Definition world_of (w : world) (b t : nat) (e : env) (p : pc) : world :=
  mk_world (obj e) (next_version e) (set_held (held w) b (remembered e)) (<[t := (b, p)]> (tasks w)).

(** The owner tokens the backend makes up are one line each. *)
Definition call_ok (c : call) : Prop :=
  match c with CallAcquire own => no_char LF own = true ∧ no_char CR own = true | _ => True end.

Inductive step : world → option answer → world → Prop :=
(** a task makes a call *)
| step_call w t b c p a :
    tasks w !! t = Some (b, Idle) → call_ok c → begin c (held w !! b) = (p, a) →
    step w a (world_of w b t (env_of w b) p)
(** the object vanished under an update: the call starts over with a new owner token *)
| step_retry w t b own :
    tasks w !! t = Some (b, AcquireRetry) → call_ok (CallAcquire own) →
    step w None (world_of w b t (env_of w b) (AcquireHead own))
(** a request is answered *)
| step_request w t b p now e' p' a :
    tasks w !! t = Some (b, p) → advance now p (env_of w b) = (e', p', a) →
    step w a (world_of w b t e' p')
(** a request fails, without effect *)
| step_fault w t b p :
    tasks w !! t = Some (b, p) →
    step w (Some Failed) (world_of w b t (env_of w b) Idle)
(** a request is applied but its answer is lost *)
| step_lost w t b p now e' p' a :
    tasks w !! t = Some (b, p) → advance now p (env_of w b) = (e', p', a) →
    step w (Some Failed)
      (world_of w b t (mk_env (obj e') (next_version e') (held w !! b)) Idle).

Inductive steps : world → list (option answer) → world → Prop :=
| steps_nil w : steps w [] w
| steps_snoc w as_ w' a w'' : steps w as_ w' → step w' a w'' → steps w (as_ ++ [a]) w''.
