(* ===== verification/LeaseTheorems.v ===== *)
(** * Correctness of the fenced locks

    Lease objects parse back to what was written; fencing tokens strictly increase;
    no two backends ever hold the same token, so at most one of them passes
    [check_lock_fence] on any lease; a holder that was overtaken never passes it
    again. *)

From S2P Require Import Prelude Core Lease.

(* ------------------------------------------------------------------ *)
(** ** Text of a lease                                                 *)
(* ------------------------------------------------------------------ *)

Lemma strip_cr_id s : no_char CR s = true → strip_cr s = s.
Proof.
  induction s as [|c s IH]; [done|]. intros H. cbn [no_char] in H.
  apply andb_true_iff in H as [Hc Hs]. cbn [strip_cr]. destruct s as [|c' s'].
  - destruct (Ascii.eqb c CR); done.
  - f_equal. by apply IH.
Qed.

(** A line at the front of a text. *)
Lemma lines_from_line cur l rest :
  no_char LF l = true → no_char CR cur = true → no_char CR l = true →
  lines_from cur (l +:+ newline +:+ rest) = (cur +:+ l) :: lines rest.
Proof.
  revert cur. induction l as [|c l IH]; intros cur Hlf Hcc Hcl.
  - change ("" +:+ newline +:+ rest) with (String LF rest). cbn [lines_from].
    rewrite Ascii.eqb_refl, strip_cr_id by done. by rewrite string_app_nil_r.
  - cbn [no_char] in Hlf, Hcl. apply andb_true_iff in Hlf as [Hc Hlf].
    apply andb_true_iff in Hcl as [Hcr Hcl].
    change (String c l +:+ newline +:+ rest) with (String c (l +:+ newline +:+ rest)).
    cbn [lines_from]. destruct (Ascii.eqb c LF); [done|].
    rewrite IH; [|done| |done].
    + f_equal. rewrite string_app_assoc. done.
    + rewrite no_char_app, Hcc. cbn. by rewrite Hcr.
Qed.

Lemma lines_line l rest :
  no_char LF l = true → no_char CR l = true → lines (l +:+ newline +:+ rest) = l :: lines rest.
Proof. intros. unfold lines at 1. by rewrite lines_from_line. Qed.

Definition one_line (s : string) : Prop := no_char LF s = true ∧ no_char CR s = true.

Lemma to_string_one_line z : one_line (to_string z).
Proof. split; by apply to_string_no_char. Qed.

Lemma lease_text_lines own token expires :
  one_line own →
  lines (lease_text own token expires) =
  ["owner=" +:+ own; "fence=" +:+ to_string token; "expires_ms=" +:+ to_string expires].
Proof.
  intros [Hlf Hcr]. unfold lease_text.
  destruct (to_string_one_line token) as [T1 T2], (to_string_one_line expires) as [X1 X2].
  rewrite <- (string_app_assoc "owner=" own), lines_line; [|by rewrite no_char_app, ?Hlf, ?Hcr..].
  rewrite <- (string_app_assoc "fence=" (to_string token)), lines_line; [|by rewrite no_char_app, ?T1, ?T2..].
  rewrite <- (string_app_assoc "expires_ms=" (to_string expires)).
  rewrite <- (string_app_nil_r newline), lines_line; [done|by rewrite no_char_app, ?X1, ?X2..].
Qed.

Lemma strip_prefix_app p s : strip_prefix p (p +:+ s) = Some s.
Proof. by apply strip_prefix_spec. Qed.

(** A lease reads back as it was written. *)
Lemma lease_text_parse own token expires :
  one_line own → fits 64 token → fits 64 expires →
  lease_owner_fence_and_expiry (lease_text own token expires) = (Some own, Some token, Some expires).
Proof.
  intros Hown Ht Hx. unfold lease_owner_fence_and_expiry. rewrite lease_text_lines by done.
  cbn [find_map]. rewrite strip_prefix_app.
  assert (H1 : strip_prefix "fence=" ("owner=" +:+ own) = None) by done.
  assert (H2 : strip_prefix "expires_ms=" ("owner=" +:+ own) = None) by done.
  assert (H3 : strip_prefix "expires_ms=" ("fence=" +:+ to_string token) = None) by done.
  rewrite H1, H2, H3. cbn [mbind option_bind]. rewrite !strip_prefix_app. cbn [mbind option_bind].
  by rewrite !parse_u64_to_string.
Qed.

Lemma lease_text_fence own token expires :
  one_line own → fits 64 token → lease_fence (lease_text own token expires) = Some token.
Proof.
  intros Hown Ht. unfold lease_fence, lease_owner_fence_and_expiry. rewrite lease_text_lines by done.
  cbn [find_map fst snd]. change (strip_prefix "fence=" ("owner=" +:+ own)) with (@None string).
  cbn [mbind option_bind]. rewrite strip_prefix_app. cbn [mbind option_bind].
  by rewrite parse_u64_to_string.
Qed.

(** A lease object survives its trip through the object store: the owner, the
    token and the expiry that were written are the ones that are parsed. *)
Theorem lease_roundtrip now own token :
  one_line own → fits 64 token → fits 64 (now + LOCK_LEASE_MS) →
  lease_owner_fence_and_expiry (lease_payload now own token)
    = (Some own, Some token, Some (now + LOCK_LEASE_MS)) ∧
  ∀ now' modified,
    lease_is_expired now' modified (lease_payload now own token) = bool_decide (now + LOCK_LEASE_MS ≤ now').
Proof.
  intros Hown Ht Hx. pose proof (lease_text_parse own token (now + LOCK_LEASE_MS) Hown Ht Hx) as Hp.
  split; [exact Hp|]. intros now' modified. unfold lease_is_expired, lease_expiry, lease_payload.
  by rewrite Hp.
Qed.

Lemma lease_roundtrip_witness :
  lease_owner_fence_and_expiry (lease_payload 1000 "pid=7-1000-0" 5)
  = (Some "pid=7-1000-0", Some 5, Some 121000).
Proof.
  apply (lease_roundtrip 1000 "pid=7-1000-0" 5).
  - split; reflexivity.
  - vm_compute. split; [discriminate|reflexivity].
  - vm_compute. split; [discriminate|reflexivity].
Defined.

(** ** Locations *)

Lemma split_once_str_app sep l r :
  (∀ u v, l = u +:+ v → v ≠ "" → ∀ t, strip_prefix sep (v +:+ sep +:+ r) = Some t → False) →
  split_once_str sep (l +:+ sep +:+ r) = Some (l, r).
Proof.
  induction l as [|c l IH]; intros Hno.
  - change ("" +:+ sep +:+ r) with (sep +:+ r).
    destruct (sep +:+ r) as [|a rest] eqn:E; unfold split_once_str; fold split_once_str;
      rewrite <- E, strip_prefix_app; done.
  - change (String c l +:+ sep +:+ r) with (String c (l +:+ sep +:+ r)). cbn [split_once_str].
    destruct (strip_prefix sep (String c (l +:+ sep +:+ r))) as [t|] eqn:Hs.
    { exfalso. by eapply (Hno "" (String c l) eq_refl ltac:(done) t). }
    rewrite IH; [done|]. intros u v -> Hv t Ht. by eapply (Hno (String c u) v eq_refl Hv t).
Qed.

(** The separator [':']. *)
Definition colon : Ascii.ascii := Ascii.Ascii false true false true true true false false.

Lemma split_scheme scheme rest :
  no_char colon scheme = true → split_once_str "://" (scheme +:+ "://" +:+ rest) = Some (scheme, rest).
Proof.
  intros Hs. apply split_once_str_app. intros u v -> Hv t Ht.
  rewrite no_char_app in Hs. apply andb_true_iff in Hs as [_ Hs].
  destruct v as [|c v]; [done|]. cbn [no_char] in Hs. apply andb_true_iff in Hs as [Hc _].
  change (String c v +:+ "://" +:+ rest) with (String c (v +:+ "://" +:+ rest)) in Ht.
  change "://" with (String colon "//") in Ht. cbn [strip_prefix] in Ht.
  rewrite Ascii.eqb_sym in Ht. by destruct (Ascii.eqb c colon).
Qed.

Lemma split_once_str_None sep s : contains sep s = false → split_once_str sep s = None.
Proof.
  induction s as [|c s IH]; cbn [contains split_once_str]; intros H;
    apply orb_false_iff in H as [Hp Hs]; unfold starts_with in Hp;
    apply bool_decide_eq_false in Hp; apply eq_None_not_Some in Hp; rewrite Hp; [done|].
  by rewrite IH.
Qed.

(** An absolute URI and the relative path of the same object name one object:
    the bucket is dropped and the backend's prefix is not applied twice. *)
Theorem resolve_uri_same_object scheme bucket prefix path :
  no_char colon scheme = true → no_char slash bucket = true →
  contains "://" path = false → trim_start_slashes path = path →
  resolve prefix (scheme +:+ "://" +:+ bucket +:+ "/" +:+ prefix +:+ path) = resolve prefix path.
Proof.
  intros Hs Hb Hp Ht. unfold resolve. rewrite split_scheme by done.
  change ("/" +:+ prefix +:+ path) with (String slash (prefix +:+ path)).
  rewrite split_once_app by done. by rewrite split_once_str_None, Ht by done.
Qed.

Lemma resolve_uri_same_object_witness :
  resolve "wh/t/" "s3://bucket/wh/t/data/part.parquet" = resolve "wh/t/" "data/part.parquet".
Proof.
  apply (resolve_uri_same_object "s3" "bucket" "wh/t/" "data/part.parquet"); reflexivity.
Defined.

(* ------------------------------------------------------------------ *)
(** ** The invariant                                                   *)
(* ------------------------------------------------------------------ *)

(** The token in the lock object. *)
Definition object_fence (o : option object) : Z :=
  match o with Some o => default 0 (lease_fence (data o)) | None => 0 end.
Definition current_version (o : option object) : option Z := version <$> o.

(** What a call knows between its requests: a version it saw is not in the future,
    and if it is still current, what it computed from the object still holds. *)
Definition pc_ok (o : option object) (next : Z) (p : pc) : Prop :=
  match p with
  | AcquireHead own => one_line own
  | AcquireGet own v _ => one_line own ∧ v < next ∧ o ≠ None
  | AcquirePut own f Create => one_line own ∧ f = 1
  | AcquirePut own f (Update v) =>
      one_line own ∧ fits 64 f ∧ v < next ∧ o ≠ None ∧
      (current_version o = Some v → f = saturating_add 64 (object_fence o) 1)
  | RenewHead h | ReleaseHead h | CheckHead h => one_line (owner h) ∧ fits 64 (fencing_token h)
  | RenewGet h v _ | ReleaseGet h v | CheckGet h v _ =>
      one_line (owner h) ∧ fits 64 (fencing_token h) ∧ v < next ∧ o ≠ None
  | RenewPut h v | ReleasePut h v =>
      one_line (owner h) ∧ fits 64 (fencing_token h) ∧ v < next ∧ o ≠ None ∧
      (current_version o = Some v → object_fence o = fencing_token h)
  | Idle | AcquireRetry => True
  end.

Record inv (w : world) : Prop := {
  version_old o : lock_object w = Some o → version o < versions w;
  held_fence b h : held w !! b = Some h →
    one_line (owner h) ∧ 0 ≤ fencing_token h ≤ object_fence (lock_object w) ∧ lock_object w ≠ None;
  task_ok t b p : tasks w !! t = Some (b, p) → pc_ok (lock_object w) (versions w) p;
  fence_fits : fits 64 (object_fence (lock_object w));
  tokens_distinct b1 b2 h1 h2 :
    object_fence (lock_object w) < U64_MAX → b1 ≠ b2 → held w !! b1 = Some h1 → held w !! b2 = Some h2 →
    fencing_token h1 ≠ fencing_token h2;
}.

Lemma parse_u64_fits s z : parse_u64 s = Some z → fits 64 z.
Proof.
  assert (Hd : ∀ s acc z, 0 ≤ acc ≤ U64_MAX → digits_from U64_MAX acc s = Some z → 0 ≤ z ≤ U64_MAX).
  { clear. induction s as [|c s IH]; intros acc z Ha; cbn [digits_from]; [by intros [= <-]|].
    destruct (digit_value c) as [d|] eqn:Hd; [|done]. case_decide; [|done]. apply IH.
    unfold digit_value in Hd. case_decide; [|done]. injection Hd as <-. lia. }
  unfold parse_u64, parse_unsigned, fits. intros H.
  assert (0 ≤ z ≤ U64_MAX); [|unfold U64_MAX in *; lia].
  destruct s as [|c rest]; [done|]. case_decide; [destruct rest; [done|]|];
    (eapply Hd; [|exact H]; unfold U64_MAX; lia).
Qed.

Lemma lease_fence_fits text z : lease_fence text = Some z → fits 64 z.
Proof.
  unfold lease_fence, lease_owner_fence_and_expiry. cbn [fst snd].
  induction (lines text) as [|l ls IH]; cbn [find_map]; [done|].
  destruct (strip_prefix "fence=" l) as [rest|]; cbn [mbind option_bind]; [|done].
  destruct (parse_u64 rest) eqn:E; [|done]. intros [= <-]. by eapply parse_u64_fits.
Qed.

Lemma object_fence_fits o : fits 64 (object_fence o).
Proof.
  assert (H0 : fits 64 0) by (unfold fits; lia).
  destruct o as [o|]; [|done]. unfold object_fence. destruct (lease_fence (data o)) eqn:E; [|done].
  by eapply lease_fence_fits.
Qed.

(** A write of a lease text. *)
Lemma object_fence_written v own token x m :
  one_line own → fits 64 token → object_fence (Some (mk_object v (lease_text own token x) m)) = token.
Proof. intros. unfold object_fence. cbn [data]. by rewrite lease_text_fence. Qed.

Lemma owns_fence h text : owns h text = true → lease_fence text = Some (fencing_token h).
Proof. unfold owns. intros [_ H]%andb_true_iff. by apply bool_decide_eq_true in H. Qed.

(** A task's knowledge survives a write by someone else: the version it saw is no
    longer current. *)
Lemma pc_ok_after_write o next p o' :
  pc_ok o next p → version o' = next → pc_ok (Some o') (next + 1) p.
Proof.
  intros Hp Hv. destruct p as [| |own v m|own f [|v]| | |h v m|h v| |h v|h v| |h v m]; cbn in *; try done.
  all: destruct_and!; split_and!; try done; try lia.
  all: intros [= Heq]; lia.
Qed.

(** Moving one task and leaving the rest of the world alone. *)
Lemma inv_same w b t p h :
  inv w → pc_ok (lock_object w) (versions w) p → h = held w !! b ∨ h = None →
  inv (mk_world (lock_object w) (versions w) (set_held (held w) b h) (<[t := (b, p)]> (tasks w))).
Proof.
  intros Hi Hp Hh.
  assert (Hsub : ∀ b' x, set_held (held w) b h !! b' = Some x → held w !! b' = Some x).
  { intros b' x. destruct Hh as [->| ->]; cbn.
    - destruct (held w !! b) eqn:E; cbn; [rewrite lookup_insert_Some|rewrite lookup_delete_Some]; naive_solver.
    - rewrite lookup_delete_Some. naive_solver. }
  destruct Hi as [I1 I2 I3 I4 I5]. split; cbn; eauto.
  - intros t' b' p' Ht'. apply lookup_insert_Some in Ht' as [[<- [= <- <-]]|[_ Ht']]; [done|eauto].
Qed.

(** A write that keeps the token. *)
Lemma inv_rewrite w b t p h v own token x m :
  inv w → one_line own → fits 64 token → object_fence (lock_object w) = token → lock_object w ≠ None →
  v = versions w → h = held w !! b ∨ h = None → p = Idle →
  inv (mk_world (Some (mk_object v (lease_text own token x) m)) (versions w + 1)
         (set_held (held w) b h) (<[t := (b, p)]> (tasks w))).
Proof.
  intros Hi Hown Htok Hcur Hne -> Hh ->.
  pose proof (inv_same w b t Idle h Hi I Hh) as Hs. destruct Hs as [I1 I2 I3 I4 I5]. cbn in *.
  pose proof (object_fence_written (versions w) own token x m Hown Htok) as Hf.
  split; cbn [lock_object versions held tasks].
  - intros o [= <-]. cbn. lia.
  - intros b' h' Hb'. rewrite Hf. destruct (I2 b' h' Hb') as (? & ? & ?). rewrite Hcur in *.
    split_and!; [done|lia|lia|done].
  - intros t' b' p' Ht'. eapply pc_ok_after_write; [by eapply I3|done].
  - by rewrite Hf.
  - rewrite Hf. rewrite Hcur in I5. exact I5.
Qed.

(** A write that takes the lock with a larger token, whether or not the taker gets
    to know. *)
Lemma inv_acquire w b t v own f x m (H' : gmap nat HeldLock) :
  inv w → one_line own → fits 64 f → v = versions w →
  f = saturating_add 64 (object_fence (lock_object w)) 1 →
  (∀ b' h', H' !! b' = Some h' → (b' = b ∧ h' = mk_held own f) ∨ held w !! b' = Some h') →
  inv (mk_world (Some (mk_object v (lease_text own f x) m)) (versions w + 1) H'
         (<[t := (b, Idle)]> (tasks w))).
Proof.
  intros Hi Hown Hfit -> Hf HH. pose proof (inv_same w b t Idle None Hi I (or_intror eq_refl)) as Hs.
  destruct Hi as [_ I2 _ I4 I5]. destruct Hs as [I1 _ I3 _ _]. cbn in *.
  pose proof (object_fence_written (versions w) own f x m Hown Hfit) as Hw.
  unfold saturating_add, fits, U64_MAX in *.
  split; cbn [lock_object versions held tasks].
  - intros o [= <-]. cbn. lia.
  - intros b' h' Hb'. rewrite Hw. apply HH in Hb' as [[-> ->]|Hb'].
    + cbn. split_and!; [done|lia|lia|done].
    + destruct (I2 b' h' Hb') as (? & ? & ?). split_and!; [done|lia|lia|done].
  - intros t' b' p' Ht'. eapply pc_ok_after_write; [by eapply I3|done].
  - rewrite Hw. unfold fits. lia.
  - intros b1 b2 h1 h2 Hlt Hne H1 H2. rewrite Hw in Hlt. unfold U64_MAX in Hlt.
    apply HH in H1 as [[-> ->]|H1]; apply HH in H2 as [[-> ->]|H2]; try done; cbn.
    + destruct (I2 _ _ H2) as (_ & ? & _). lia.
    + destruct (I2 _ _ H1) as (_ & ? & _). lia.
    + eapply I5; [|exact Hne|done|done]. lia.
Qed.

Lemma set_held_same (m : gmap nat HeldLock) b : set_held m b (m !! b) = m.
Proof.
  destruct (m !! b) eqn:E; cbn; [by apply insert_id|by apply delete_id].
Qed.

(** What one request does to the world, seen from any other call. *)
Record request_ok (w : world) (b t : nat) (e' : env) (p' : pc) (a : option answer) : Prop := {
  answered : inv (world_of w b t e' p');
  lost : inv (world_of w b t (mk_env (obj e') (next_version e') (held w !! b)) Idle);
  fence_up : object_fence (lock_object w) ≤ object_fence (obj e');
  acquired_new f : a = Some (Acquired f) →
    object_fence (obj e') = f ∧ (object_fence (lock_object w) < U64_MAX → object_fence (lock_object w) < f);
  keeps_object : lock_object w ≠ None → obj e' ≠ None;
}.

(** A request that writes nothing. *)
Lemma request_reads w b t e' p' a :
  inv w → obj e' = lock_object w → next_version e' = versions w →
  (remembered e' = held w !! b ∨ remembered e' = None) →
  pc_ok (lock_object w) (versions w) p' → (∀ f, a ≠ Some (Acquired f)) →
  request_ok w b t e' p' a.
Proof.
  intros Hi Ho Hn Hr Hp Ha. split; unfold world_of; rewrite ?Ho, ?Hn; cbn.
  - by apply inv_same.
  - apply inv_same; [done|done|by left].
  - lia.
  - intros f Hf. by destruct (Ha f).
  - done.
Qed.

(** The request that takes the lock. *)
Lemma request_takes w b t own f now :
  inv w → one_line own → fits 64 f → f = saturating_add 64 (object_fence (lock_object w)) 1 →
  request_ok w b t
    (remember (bump_version (env_of w b) (Some (mk_object (versions w) (lease_payload now own f) now)))
       (mk_held own f)) Idle (Some (Acquired f)).
Proof.
  intros Hi Hown Hfit Hf.
  pose proof (object_fence_written (versions w) own f (now + LOCK_LEASE_MS) now Hown Hfit) as Hw.
  pose proof (fence_fits w Hi) as Hb. unfold fits in Hb.
  split; unfold world_of; cbn [obj next_version remembered remember bump_version env_of set_held].
  - apply inv_acquire with (own := own) (f := f); try done.
    intros b' h' [[<- <-]|[_ ?]]%lookup_insert_Some; auto.
  - apply inv_acquire with (own := own) (f := f); try done. intros b' h'. rewrite set_held_same. by right.
  - unfold lease_payload. rewrite Hw, Hf. unfold saturating_add. lia.
  - intros g [= <-]. unfold lease_payload. rewrite Hw. split; [done|].
    unfold saturating_add, U64_MAX in *. lia.
  - done.
Qed.

(** The request that writes the same token again. *)
Lemma request_rewrites w b t h x now r a :
  inv w → one_line (owner h) → fits 64 (fencing_token h) →
  object_fence (lock_object w) = fencing_token h → lock_object w ≠ None →
  (r = held w !! b ∨ r = None) → (∀ f, a ≠ Some (Acquired f)) →
  request_ok w b t
    (mk_env (Some (mk_object (versions w) (lease_text (owner h) (fencing_token h) x) now))
       (versions w + 1) r) Idle a.
Proof.
  intros Hi Hown Hfit Hf Hne Hr Ha.
  pose proof (object_fence_written (versions w) (owner h) (fencing_token h) x now Hown Hfit) as Hw.
  split; unfold world_of; cbn [obj next_version remembered].
  - by apply inv_rewrite.
  - apply inv_rewrite; auto.
  - rewrite Hw, Hf. done.
  - intros f Hf'. by destruct (Ha f).
  - done.
Qed.

Lemma saturating_succ_fits z : fits 64 z → fits 64 (saturating_add 64 z 1).
Proof. unfold fits, saturating_add. lia. Qed.

Lemma advance_ok w b t p now e' p' a :
  inv w → pc_ok (lock_object w) (versions w) p → advance now p (env_of w b) = (e', p', a) →
  request_ok w b t e' p' a.
Proof.
  intros Hi Hp Had.
  assert (Hreads : ∀ e' p' a, (e', p', a) = (e', p', a) → obj e' = lock_object w →
    next_version e' = versions w → (remembered e' = held w !! b ∨ remembered e' = None) →
    pc_ok (lock_object w) (versions w) p' → (∀ f, a ≠ Some (Acquired f)) → request_ok w b t e' p' a).
  { intros. by apply request_reads. }
  destruct p as [|own|own v m|own f [|v]| |h|h v m|h v|h|h v|h v|h|h v m];
    cbn [advance env_of obj put_opts next_version] in Had; cbn [pc_ok] in Hp; destruct_and?.
  all: destruct (lock_object w) as [o|] eqn:Eo;
    try (simplify_eq; apply Hreads; cbn; rewrite ?Eo; auto; split_and?; auto;
         by apply (version_old w Hi)).
  all: try (match type of Had with context [if ?c then _ else _] => destruct c eqn:Ec end;
    simplify_eq; try (apply Hreads; cbn; rewrite ?Eo; auto; split_and?; auto;
                      by apply (version_old w Hi))).
  - apply Hreads; cbn [pc_ok obj next_version remembered env_of object_fence]; auto. split_and!; auto.
    apply saturating_succ_fits, (object_fence_fits (Some o)).
  - simplify_eq. apply request_takes; [done|done|by vm_compute|]. by rewrite Eo.
  - match goal with H : current_version _ = _ → f = _ |- _ => specialize (H eq_refl) end.
    apply request_takes; [done|done|done|]. by rewrite Eo.
  - apply Hreads; cbn [pc_ok obj next_version remembered env_of object_fence]; auto. split_and!; auto. intros _.
    apply orb_false_iff in Ec as [Ec _]. apply negb_false_iff, owns_fence in Ec. by rewrite Ec.
  - match goal with H : current_version _ = _ → _ |- _ => specialize (H eq_refl) end.
    apply request_rewrites; rewrite ?Eo; auto.
  - apply Hreads; cbn [pc_ok obj next_version remembered env_of object_fence]; auto. split_and!; auto. intros _. apply owns_fence in Ec. by rewrite Ec.
  - match goal with H : current_version _ = _ → _ |- _ => specialize (H eq_refl) end.
    apply request_rewrites; rewrite ?Eo; auto.
Qed.

(* ------------------------------------------------------------------ *)
(** ** Reachable worlds                                                *)
(* ------------------------------------------------------------------ *)

(** Nobody holds or is acquiring the lock; the object may hold anything. *)
Definition initial (w : world) : Prop :=
  held w = ∅ ∧ (∀ o, lock_object w = Some o → version o < versions w) ∧
  ∀ t b p, tasks w !! t = Some (b, p) → p = Idle.

Lemma initial_inv w : initial w → inv w.
Proof.
  intros (Hh & Hv & Ht). split.
  - done.
  - intros b h. by rewrite Hh, lookup_empty.
  - intros t b p Hp. by rewrite (Ht t b p Hp).
  - apply object_fence_fits.
  - intros b1 b2 h1 h2 _ _. by rewrite Hh, lookup_empty.
Qed.

Lemma begin_ok o n r c p a :
  call_ok c → (∀ h, r = Some h → one_line (owner h) ∧ fits 64 (fencing_token h)) →
  begin c r = (p, a) → pc_ok o n p ∧ ∀ f, a ≠ Some (Acquired f).
Proof.
  intros Hc Hr. destruct c as [own|token|token|token]; cbn.
  - intros [= <- <-]. by split.
  - destruct r as [h|]; [case_decide|]; intros [= <- <-]; (split; [cbn; auto|done]).
  - destruct r as [h|]; [case_decide|]; intros [= <- <-]; (split; [cbn; auto|done]).
  - destruct r as [h|]; [case_decide|]; intros [= <- <-]; (split; [cbn; auto|done]).
Qed.

Lemma held_ok w b h : inv w → held w !! b = Some h → one_line (owner h) ∧ fits 64 (fencing_token h).
Proof.
  intros Hi Hb. destruct (held_fence w Hi b h Hb) as (? & ? & _). split; [done|].
  pose proof (fence_fits w Hi) as Hf. unfold fits in *. lia.
Qed.

(** A step keeps the invariant; the token never decreases and an acquisition
    raises it. *)
Lemma step_inv w a w' :
  step w a w' → inv w →
  inv w' ∧ object_fence (lock_object w) ≤ object_fence (lock_object w') ∧
  (lock_object w ≠ None → lock_object w' ≠ None) ∧
  ∀ f, a = Some (Acquired f) → object_fence (lock_object w') = f ∧
    (object_fence (lock_object w) < U64_MAX → object_fence (lock_object w) < f).
Proof.
  intros Hst Hi. destruct Hst as [w t b c p a Ht Hc Hb|w t b own Ht Hc|w t b p now e' p' a Ht Had
                                 |w t b p Ht|w t b p now e' p' a Ht Had].
  - apply (begin_ok (lock_object w) (versions w)) in Hb as [Hp Ha]; [|done|intros h; by apply held_ok].
    split; [by apply inv_same; auto|]. split_and!; [done|done|]. intros f ->. by destruct (Ha f).
  - split; [by apply inv_same; auto|]. by split_and!.
  - apply (task_ok w Hi) in Ht. destruct (advance_ok w b t p now e' p' a Hi Ht Had). by split_and!.
  - split; [by apply inv_same; auto|]. by split_and!.
  - apply (task_ok w Hi) in Ht. destruct (advance_ok w b t p now e' p' a Hi Ht Had). by split_and!.
Qed.

Definition acquisitions (as_ : list (option answer)) : list Z :=
  omap (λ a, match a with Some (Acquired f) => Some f | _ => None end) as_.

Lemma steps_inv w as_ w' :
  steps w as_ w' → inv w →
  inv w' ∧ object_fence (lock_object w) ≤ object_fence (lock_object w') ∧
  (object_fence (lock_object w') < U64_MAX →
     StronglySorted Z.lt (acquisitions as_) ∧
     Forall (λ f, object_fence (lock_object w) < f ≤ object_fence (lock_object w')) (acquisitions as_)).
Proof.
  induction 1 as [w|w as_ w' a w'' Hsts IH Hst]; intros Hi.
  - split_and!; [done|done|]. intros _. split; constructor.
  - destruct (IH Hi) as (Hi' & Hle & Hacq). destruct (step_inv _ _ _ Hst Hi') as (Hi'' & Hle' & _ & Hnew).
    split_and!; [done|lia|]. intros Hlt. destruct Hacq as [Hs Hf]; [lia|].
    unfold acquisitions in *. rewrite omap_app. cbn [omap list_omap].
    assert (Hf' : Forall (λ f, object_fence (lock_object w) < f ≤ object_fence (lock_object w''))
              (omap (λ a, match a with Some (Acquired f) => Some f | _ => None end) as_)).
    { eapply Forall_impl; [exact Hf|]. cbn. lia. }
    destruct a as [[f| | | | |]|]; cbn; rewrite ?app_nil_r; try done.
    destruct (Hnew f eq_refl) as [Heq Hgt]. specialize (Hgt ltac:(lia)). split.
    + apply StronglySorted_app. split_and!; [|done|by repeat constructor].
      intros x y Hx Hy%list_elem_of_singleton. subst y.
      rewrite Forall_forall in Hf. specialize (Hf x Hx). cbn in Hf. lia.
    + apply Forall_app. split; [done|]. constructor; [lia|constructor].
Qed.

(* ------------------------------------------------------------------ *)
(** ** Properties                                                      *)
(* ------------------------------------------------------------------ *)

(** Backend [b] holds a lock and the last request of [check_lock_fence] for it would
    be answered with success. *)
Definition check_passes (w : world) (b : nat) : Prop :=
  ∃ h now v m, held w !! b = Some h ∧
    (advance now (CheckGet h v m) (env_of w b)).2 = Some (Fence true).

Lemma check_passes_fence w b :
  check_passes w b → ∃ h, held w !! b = Some h ∧ object_fence (lock_object w) = fencing_token h.
Proof.
  intros (h & now & v & m & Hh & Had). exists h. split; [done|]. revert Had.
  cbn [advance env_of obj]. unfold object_fence. destruct (lock_object w) as [o|]; [|done]. cbn [snd].
  intros [= Hb]. apply andb_true_iff in Hb as [Hb _]. apply owns_fence in Hb. by rewrite Hb.
Qed.

(** C25: fencing tokens strictly increase: in any interleaving of any number of
    backends' calls, with failing requests, lost answers and arbitrary clocks, the
    tokens of successive acquisitions are strictly ordered (below the largest 64-bit
    value, where the counter saturates). *)
Theorem fencing_tokens_increase w as_ w' :
  initial w → steps w as_ w' → object_fence (lock_object w') < U64_MAX →
  StronglySorted Z.lt (acquisitions as_).
Proof. intros Hi Hs Hlt. by apply (steps_inv _ _ _ Hs (initial_inv w Hi)). Qed.

(** C6: mutual exclusion: in every reachable world at most one backend passes the
    fence check, whatever the clocks say. *)
Theorem lock_mutual_exclusion w as_ w' b1 b2 :
  initial w → steps w as_ w' → object_fence (lock_object w') < U64_MAX →
  check_passes w' b1 → check_passes w' b2 → b1 = b2.
Proof.
  intros Hi Hs Hlt H1 H2. destruct (steps_inv _ _ _ Hs (initial_inv w Hi)) as (Hinv & _ & _).
  apply check_passes_fence in H1 as (h1 & Hh1 & Hf1). apply check_passes_fence in H2 as (h2 & Hh2 & Hf2).
  destruct (decide (b1 = b2)) as [|Hne]; [done|].
  destruct (tokens_distinct w' Hinv b1 b2 h1 h2 Hlt Hne Hh1 Hh2). congruence.
Qed.

(** A holder that was overtaken stays out: once the lock object carries a larger
    token than the one a backend remembers, that token never passes the check again,
    whatever happens next. *)
Theorem overtaken_holder_fenced w as1 w1 as2 w2 b h1 h2 :
  initial w → steps w as1 w1 → steps w1 as2 w2 →
  held w1 !! b = Some h1 → fencing_token h1 < object_fence (lock_object w1) →
  held w2 !! b = Some h2 → fencing_token h2 = fencing_token h1 →
  ¬ check_passes w2 b.
Proof.
  intros Hi Hs1 Hs2 Hh1 Hlt Hh2 Heq Hc.
  destruct (steps_inv _ _ _ Hs1 (initial_inv w Hi)) as (Hinv1 & _ & _).
  destruct (steps_inv _ _ _ Hs2 Hinv1) as (_ & Hle & _).
  apply check_passes_fence in Hc as (h & Hh & Hf). rewrite Hh2 in Hh. injection Hh as <-. lia.
Qed.

(** ** A run *)

Definition fresh_world : world := mk_world None 0 ∅ {[ 1%nat := (1%nat, Idle); 2%nat := (2%nat, Idle) ]}.

Definition run_request (w : world) (t : nat) (now : Z) : world :=
  match tasks w !! t with
  | Some (b, p) => let '(e, p, _) := advance now p (env_of w b) in world_of w b t e p
  | None => w
  end.
Definition run_call (w : world) (t : nat) (c : call) : world :=
  match tasks w !! t with
  | Some (b, Idle) => world_of w b t (env_of w b) (begin c (held w !! b)).1
  | _ => w
  end.

(** Backend 1 takes the lock; its lease runs out; backend 2 takes it over. *)
Definition world1 : world := run_call fresh_world 1 (CallAcquire "a").
Definition world2 : world := run_request world1 1 0.
Definition world3 : world := run_request world2 1 0.
Definition world4 : world := run_call world3 2 (CallAcquire "b").
Definition world5 : world := run_request world4 2 200000.
Definition world6 : world := run_request world5 2 200000.
Definition world7 : world := run_request world6 2 200000.

Lemma fresh_initial : initial fresh_world.
Proof.
  split_and!; [done|done|]. intros t b p Ht. unfold fresh_world in Ht. cbn [tasks] in Ht.
  apply lookup_insert_Some in Ht as [[_ [= _ <-]]|[_ Ht]]; [done|].
  by apply lookup_singleton_Some in Ht as [_ [= _ <-]].
Qed.

Lemma run_request_step w t now b p a :
  tasks w !! t = Some (b, p) → (advance now p (env_of w b)).2 = a → step w a (run_request w t now).
Proof.
  intros Ht Ha. unfold run_request. rewrite Ht.
  destruct (advance now p (env_of w b)) as [[e p'] a'] eqn:Had. cbn in Ha. subst a'.
  by eapply step_request.
Qed.

Lemma run_call_step w t c b a :
  tasks w !! t = Some (b, Idle) → call_ok c → (begin c (held w !! b)).2 = a →
  step w a (run_call w t c).
Proof.
  intros Ht Hc Ha. unfold run_call. rewrite Ht. destruct (begin c (held w !! b)) as [p a'] eqn:Hb.
  cbn in Ha. subst a'. by eapply step_call.
Qed.

Lemma handover_prefix : steps fresh_world [None; None; Some (Acquired 1)] world3.
Proof.
  apply (steps_snoc _ [None; None] world2); [apply (steps_snoc _ [None] world1);
    [apply (steps_snoc _ [] fresh_world); [constructor|]|]|].
  - apply (run_call_step fresh_world 1 (CallAcquire "a") 1); vm_compute; done.
  - apply (run_request_step world1 1 0 1 (AcquireHead "a")); vm_compute; done.
  - apply (run_request_step world2 1 0 1 (AcquirePut "a" 1 Create)); vm_compute; done.
Qed.

Lemma handover_suffix : steps world3 [None; None; None; Some (Acquired 2)] world7.
Proof.
  apply (steps_snoc _ [None; None; None] world6); [apply (steps_snoc _ [None; None] world5);
    [apply (steps_snoc _ [None] world4); [apply (steps_snoc _ [] world3); [constructor|]|]|]|].
  - apply (run_call_step world3 2 (CallAcquire "b") 2); vm_compute; done.
  - apply (run_request_step world4 2 200000 2 (AcquireHead "b")); vm_compute; done.
  - apply (run_request_step world5 2 200000 2 (AcquireGet "b" 0 0)); vm_compute; done.
  - apply (run_request_step world6 2 200000 2 (AcquirePut "b" 2 (Update 0))); vm_compute; done.
Qed.

Lemma steps_trans w as1 w' as2 w'' : steps w as1 w' → steps w' as2 w'' → steps w (as1 ++ as2) w''.
Proof.
  intros H1 H2. induction H2; [by rewrite app_nil_r|]. rewrite app_assoc.
  econstructor; [by apply IHsteps|done].
Qed.

Lemma handover : steps fresh_world [None; None; Some (Acquired 1); None; None; None; Some (Acquired 2)] world7.
Proof. exact (steps_trans _ _ _ _ _ handover_prefix handover_suffix). Qed.

Lemma fencing_tokens_increase_witness : StronglySorted Z.lt [1; 2].
Proof.
  apply (fencing_tokens_increase fresh_world
    [None; None; Some (Acquired 1); None; None; None; Some (Acquired 2)] world7).
  - exact fresh_initial.
  - exact handover.
  - vm_compute. reflexivity.
Defined.

Lemma lock_mutual_exclusion_witness : check_passes world7 2 ∧ (∀ b, check_passes world7 b → 2%nat = b).
Proof.
  assert (H2 : check_passes world7 2).
  { exists (mk_held "b" 2), 200000, 1, 200000. split; vm_compute; reflexivity. }
  split; [exact H2|]. intros b Hb.
  apply (lock_mutual_exclusion fresh_world
    [None; None; Some (Acquired 1); None; None; None; Some (Acquired 2)] world7 2 b).
  - exact fresh_initial.
  - exact handover.
  - vm_compute. reflexivity.
  - exact H2.
  - exact Hb.
Defined.

Lemma overtaken_holder_fenced_witness : ¬ check_passes world7 1.
Proof.
  apply (overtaken_holder_fenced fresh_world
    [None; None; Some (Acquired 1); None; None; None; Some (Acquired 2)] world7 [] world7 1
    (mk_held "a" 1) (mk_held "a" 1)).
  - exact fresh_initial.
  - exact handover.
  - constructor.
  - vm_compute. reflexivity.
  - vm_compute. reflexivity.
  - vm_compute. reflexivity.
  - reflexivity.
Defined.
