(* ===== verification/Manifest.v ===== *)
(** * Manifests and manifest lists

    Models the file-level types of [ailake-catalog/src/provider.rs] and the Avro
    manifests of [ailake-catalog/src/avro_manifest.rs]: the writers of data
    manifests, equality-delete manifests and manifest lists, and their readers.

    The writers produce bytes through [Avro].  The readers are given decoded
    [Value]s by the [apache_avro] crate and the extension record by [serde_json];
    both crates are class parameters ([AvroLib], [SerdeLib]).  [decode_value] is
    the Avro specification's binary decoding, against which [AvroLaws] states what
    the crate's reader returns. *)

From S2P Require Import Prelude Core Avro.

(* ------------------------------------------------------------------ *)
(** ** Data files, delete files, partition specs                       *)
(* ------------------------------------------------------------------ *)

Inductive IndexStatus : Type := Ready | Indexing | Failed.

Record DeletionVector : Type := mk_dv {
  dv_path : string;
  dv_offset : Z;
  dv_length : Z;
  dv_cardinality : Z;
}.

Record ExtraVectorIndex : Type := mk_evi {
  evi_column : string;
  evi_dim : Z;
  evi_hnsw_offset : Z;
  evi_hnsw_len : Z;
  evi_centroid_b64 : option string;
  evi_radius : option f32bits;
}.

Record DataFileEntry : Type := mk_file {
  df_path : string;
  df_record_count : Z;
  df_file_size_bytes : Z;
  df_centroid_b64 : option string;
  df_radius : option f32bits;
  df_hnsw_offset : option Z;
  df_hnsw_len : option Z;
  df_vector_column : option string;
  df_vector_dim : option Z;
  df_extra_vector_indexes : list ExtraVectorIndex;
  df_index_status : IndexStatus;
  df_index_error : option string;
  df_batch_id : option string;
  df_embedding_model : option string;
  df_partition_value : option string;
  df_deletion_vector : option DeletionVector;
  df_first_row_id : option Z;
  df_column_stats : option string;
  df_sequence_number : Z;
}.

Definition is_foreign (f : DataFileEntry) : bool :=
  match df_centroid_b64 f with None => true | Some _ => false end.

Record EqualityDeleteFile : Type := mk_eqdel {
  ed_path : string;
  ed_equality_ids : list Z;
  ed_record_count : Z;
  ed_file_size_bytes : Z;
  ed_inline_values : option (string * list string);
  ed_sequence_number : Z;
}.

Record PartitionField : Type := mk_pfield {
  pf_source_id : Z;
  pf_field_id : Z;
  pf_name : string;
  pf_transform : string;
  pf_source_type : string;
}.

Record PartitionSpec : Type := mk_pspec {
  ps_spec_id : Z;
  ps_fields : list PartitionField;
}.

Definition is_unpartitioned (s : PartitionSpec) : bool :=
  match ps_fields s with [] => true | _ => false end.

#[global] Instance IndexStatus_eq_dec : EqDecision IndexStatus.
Proof. solve_decision. Defined.
#[global] Instance DeletionVector_eq_dec : EqDecision DeletionVector.
Proof. solve_decision. Defined.
#[global] Instance ExtraVectorIndex_eq_dec : EqDecision ExtraVectorIndex.
Proof. solve_decision. Defined.
#[global] Instance DataFileEntry_eq_dec : EqDecision DataFileEntry.
Proof. solve_decision. Defined.
#[global] Instance EqualityDeleteFile_eq_dec : EqDecision EqualityDeleteFile.
Proof. solve_decision. Defined.

(** Per-column statistics of a data file ([column_stats.rs]). *)
Record FieldStats : Type := mk_stats {
  st_value_count : Z;
  st_null_count : Z;
  st_column_size : Z;
  st_lower_bound_b64 : option string;
  st_upper_bound_b64 : option string;
}.

(* ------------------------------------------------------------------ *)
(** ** Avro values and schemas                                         *)
(* ------------------------------------------------------------------ *)

(** [apache_avro::types::Value], the constructors the manifests use. *)
Inductive Value : Type :=
| VNull
| VBoolean (b : bool)
| VInt (n : Z)
| VLong (n : Z)
| VFloat (f : f32bits)
| VDouble (f : Z)
| VString (s : string)
| VBytes (b : bytes)
| VArray (vs : list Value)
| VRecord (fs : list (string * Value))
| VUnion (i : Z) (v : Value).

Inductive Schema : Type :=
| SNull
| SBoolean
| SInt
| SLong
| SString
| SBytes
| SArray (s : Schema)
| SUnion (ss : list Schema)
| SRecord (fs : list (string * Schema)).

Definition fits_i32 (n : Z) : Prop := - 2 ^ 31 ≤ n < 2 ^ 31.
#[global] Instance fits_i32_dec n : Decision (fits_i32 n).
Proof. unfold fits_i32. apply _. Defined.

Section Decoding.
Context (dec : bytes → option (Value * bytes)).

(** [n] items one after the other. *)
Fixpoint decode_items (n : nat) (bs : bytes) : option (list Value * bytes) :=
  match n with
  | O => Some ([], bs)
  | S n =>
      '(v, bs) ← dec bs;
      '(vs, bs) ← decode_items n bs;
      Some (v :: vs, bs)
  end.

(** The blocks of an array, ended by a zero count; each takes at least a byte. *)
Fixpoint decode_blocks (fuel : nat) (bs : bytes) : option (list Value * bytes) :=
  match fuel with
  | O => None
  | S fuel =>
      '(n, bs) ← decode_long bs;
      if decide (n = 0) then Some ([], bs)
      else if decide (n < 0) then None
      else
        '(vs, bs) ← decode_items (Z.to_nat n) bs;
        '(ws, bs) ← decode_blocks fuel bs;
        Some (vs ++ ws, bs)
  end.

End Decoding.

(** The specification's binary decoding of a value of a given schema. *)
Fixpoint decode_value (s : Schema) (bs : bytes) {struct s} : option (Value * bytes) :=
  match s with
  | SNull => Some (VNull, bs)
  | SBoolean =>
      match bs with
      | 0 :: bs => Some (VBoolean false, bs)
      | 1 :: bs => Some (VBoolean true, bs)
      | _ => None
      end
  | SInt =>
      '(n, bs) ← decode_long bs;
      if decide (fits_i32 n) then Some (VInt n, bs) else None
  | SLong => '(n, bs) ← decode_long bs; Some (VLong n, bs)
  | SString => '(b, bs) ← decode_bytes bs; Some (VString (of_bytes b), bs)
  | SBytes => '(b, bs) ← decode_bytes bs; Some (VBytes b, bs)
  | SArray s =>
      '(vs, bs) ← decode_blocks (decode_value s) (S (length bs)) bs;
      Some (VArray vs, bs)
  | SUnion ss =>
      '(i, bs) ← decode_long bs;
      dec ← nth_error (map decode_value ss) (Z.to_nat i);
      '(v, bs) ← dec bs;
      Some (VUnion i v, bs)
  | SRecord fs =>
      '(vs, bs) ←
        (fix go (fs : list (string * Schema)) (bs : bytes) : option (list (string * Value) * bytes) :=
          match fs with
          | [] => Some ([], bs)
          | (k, s) :: fs =>
              '(v, bs) ← decode_value s bs;
              '(vs, bs) ← go fs bs;
              Some ((k, v) :: vs, bs)
          end) fs bs;
      Some (VRecord vs, bs)
  end.

(** The records of a container's data block; no block, no records. *)
Definition decode_block (s : Schema) (blk : option (Z * bytes)) : option (list Value) :=
  match blk with
  | None => Some []
  | Some (n, bs) =>
      '(vs, rest) ← decode_items (decode_value s) (Z.to_nat n) bs;
      match rest with [] => Some vs | _ => None end
  end.

(** The [apache_avro] crate: schema parsing and the container reader. *)
Class AvroLib : Type := {
  parse_schema : string → option Schema;
  avro_reader : bytes → AilakeResult (list Value);
}.

(** What the readers rely on: a container with the null codec whose records decode
    under its embedded schema is read as those records. *)
Class AvroLaws `{AvroLib} : Prop := {
  avro_reader_law d schema extra blk s vs :
    decode_container d =
      Some ((as_bytes "avro.schema", as_bytes schema) ::
            (as_bytes "avro.codec", as_bytes "null") :: extra, blk) →
    parse_schema schema = Some s →
    decode_block s blk = Some vs →
    avro_reader d = Ok vs;
}.

(* ------------------------------------------------------------------ *)
(** ** Text helpers                                                    *)
(* ------------------------------------------------------------------ *)

(** JSON text written with single quotes for double ones. *)
Fixpoint json_text (s : string) : string :=
  match s with
  | EmptyString => EmptyString
  | String c s =>
      String (if Ascii.eqb c (Ascii.ascii_of_nat 39) then Ascii.ascii_of_nat 34 else c) (json_text s)
  end.

(** [str::replace], with [fuel] at least the length of the text. *)
Fixpoint replace_go (fuel : nat) (pat by_ s : string) : string :=
  match fuel with
  | O => s
  | S fuel =>
      match strip_prefix pat s with
      | Some rest => by_ +:+ replace_go fuel pat by_ rest
      | None =>
          match s with
          | EmptyString => EmptyString
          | String c s => String c (replace_go fuel pat by_ s)
          end
      end
  end.
Definition str_replace (pat by_ s : string) : string := replace_go (S (String.length s)) pat by_ s.

(** [str::split] at a character: at least one piece. *)
Fixpoint split (c : Ascii.ascii) (s : string) : list string :=
  match s with
  | EmptyString => [EmptyString]
  | String a s =>
      if Ascii.eqb a c then EmptyString :: split c s
      else match split c s with
           | [] => [String a EmptyString]
           | p :: ps => String a p :: ps
           end
  end.

(** [[String]::join]. *)
Fixpoint join (sep : string) (l : list string) : string :=
  match l with
  | [] => EmptyString
  | [s] => s
  | s :: l => s +:+ sep +:+ join sep l
  end.

(** [str::parse] at a signed type of width [w]. *)
Definition parse_signed (w : Z) (s : string) : option Z :=
  match strip_prefix "-" s with
  | Some EmptyString => None
  | Some rest => v ← digits_from (2 ^ (w - 1)) 0 rest; Some (- v)
  | None => parse_unsigned (2 ^ (w - 1) - 1) s
  end.

(** The unit separator between the values of a multi-column partition. *)
Definition unit_sep : Ascii.ascii := Ascii.ascii_of_nat 31.

(* ------------------------------------------------------------------ *)
(** ** Schema texts                                                    *)
(* ------------------------------------------------------------------ *)

Definition MANIFEST_ENTRY_SCHEMA_STR : string := json_text
"{
  'type': 'record',
  'name': 'manifest_entry',
  'fields': [
    {'name': 'status',              'type': 'int',  'field-id': 0},
    {'name': 'snapshot_id',         'type': ['null', 'long'],  'default': null, 'field-id': 1},
    {'name': 'sequence_number',     'type': ['null', 'long'],  'default': null, 'field-id': 3},
    {'name': 'file_sequence_number','type': ['null', 'long'],  'default': null, 'field-id': 4},
    {'name': 'data_file',           'type': {
      'type': 'record', 'name': 'r2',
      'fields': [
        {'name': 'content',           'type': 'int',    'field-id': 134, 'doc': '0=DATA'},
        {'name': 'file_path',         'type': 'string', 'field-id': 100},
        {'name': 'file_format',       'type': 'string', 'field-id': 101},
        {'name': 'partition',         'type': {'type': 'record', 'name': 'r102', 'fields': []}, 'field-id': 102},
        {'name': 'record_count',      'type': 'long',   'field-id': 103},
        {'name': 'file_size_in_bytes','type': 'long',   'field-id': 104},
        {'name': 'column_sizes',      'type': ['null', {'type': 'array', 'logicalType': 'map', 'items': {'type':'record','name':'k117_v118','fields':[{'name':'key','type':'int','field-id':117},{'name':'value','type':'long','field-id':118}]},'element-id':119}], 'default': null, 'field-id': 108},
        {'name': 'value_counts',      'type': ['null', {'type': 'array', 'logicalType': 'map', 'items': {'type':'record','name':'k119_v120','fields':[{'name':'key','type':'int','field-id':119},{'name':'value','type':'long','field-id':120}]},'element-id':121}], 'default': null, 'field-id': 109},
        {'name': 'null_value_counts', 'type': ['null', {'type': 'array', 'logicalType': 'map', 'items': {'type':'record','name':'k121_v122','fields':[{'name':'key','type':'int','field-id':121},{'name':'value','type':'long','field-id':122}]},'element-id':123}], 'default': null, 'field-id': 110},
        {'name': 'nan_value_counts',  'type': ['null', {'type': 'array', 'logicalType': 'map', 'items': {'type':'record','name':'k138_v139','fields':[{'name':'key','type':'int','field-id':138},{'name':'value','type':'long','field-id':139}]},'element-id':140}], 'default': null, 'field-id': 137},
        {'name': 'lower_bounds',      'type': ['null', {'type': 'array', 'logicalType': 'map', 'items': {'type':'record','name':'k126_v127','fields':[{'name':'key','type':'int','field-id':126},{'name':'value','type':'bytes','field-id':127}]},'element-id':128}], 'default': null, 'field-id': 125},
        {'name': 'upper_bounds',      'type': ['null', {'type': 'array', 'logicalType': 'map', 'items': {'type':'record','name':'k129_v130','fields':[{'name':'key','type':'int','field-id':129},{'name':'value','type':'bytes','field-id':130}]},'element-id':131}], 'default': null, 'field-id': 128},
        {'name': 'key_metadata',      'type': ['null', 'bytes'], 'default': null, 'field-id': 131},
        {'name': 'split_offsets',     'type': ['null', {'type': 'array', 'items': 'long', 'element-id': 133}], 'default': null, 'field-id': 132},
        {'name': 'equality_ids',      'type': ['null', {'type': 'array', 'items': 'int',  'element-id': 136}], 'default': null, 'field-id': 135},
        {'name': 'sort_order_id',     'type': ['null', 'int'],  'default': null, 'field-id': 140},
        {'name': 'first_row_id',      'type': ['null', 'long'], 'default': null, 'field-id': 141}
      ]
    }, 'field-id': 2}
  ]
}".

Definition MANIFEST_LIST_SCHEMA_STR : string := json_text
"{
  'type': 'record',
  'name': 'manifest_file',
  'fields': [
    {'name': 'manifest_path',              'type': 'string', 'field-id': 500},
    {'name': 'manifest_length',            'type': 'long',   'field-id': 501},
    {'name': 'partition_spec_id',          'type': 'int',    'field-id': 502},
    {'name': 'content',                    'type': 'int',    'field-id': 517, 'doc': '0=DATA'},
    {'name': 'sequence_number',            'type': 'long',   'field-id': 515},
    {'name': 'min_sequence_number',        'type': 'long',   'field-id': 516},
    {'name': 'added_snapshot_id',          'type': 'long',   'field-id': 503},
    {'name': 'added_data_files_count',     'type': 'int',    'field-id': 504},
    {'name': 'existing_data_files_count',  'type': 'int',    'field-id': 505},
    {'name': 'deleted_data_files_count',   'type': 'int',    'field-id': 506},
    {'name': 'added_rows_count',           'type': 'long',   'field-id': 512},
    {'name': 'existing_rows_count',        'type': 'long',   'field-id': 513},
    {'name': 'deleted_rows_count',         'type': 'long',   'field-id': 514},
    {'name': 'partitions', 'type': {
      'type': 'array',
      'items': {
        'type': 'record', 'name': 'r508',
        'fields': [
          {'name': 'contains_null', 'type': 'boolean', 'field-id': 509},
          {'name': 'contains_nan',  'type': ['null', 'boolean'], 'default': null, 'field-id': 518},
          {'name': 'lower_bound',   'type': ['null', 'bytes'],   'default': null, 'field-id': 510},
          {'name': 'upper_bound',   'type': ['null', 'bytes'],   'default': null, 'field-id': 511}
        ]
      },
      'element-id': 508
    }, 'field-id': 507}
  ]
}".

(** The Avro type of a partition column. *)
Definition partition_avro_type (source_type : string) : string :=
  if String.eqb source_type "int" || String.eqb source_type "integer" then "int"
  else if String.eqb source_type "long" then "long"
  else "string".

Definition spec_fields (spec : option PartitionSpec) : list PartitionField :=
  match spec with Some s => ps_fields s | None => [] end.

Definition partition_field_schema (f : PartitionField) : string :=
  json_text "{'name':'" +:+ pf_name f +:+ json_text "','type':['null','"
  +:+ partition_avro_type (pf_source_type f) +:+ json_text "'],'default':null,'field-id':"
  +:+ to_string (pf_field_id f) +:+ "}".

Definition build_partition_record_schema (spec : option PartitionSpec) : string :=
  json_text "{'type':'record','name':'r102','fields':["
  +:+ join "," (partition_field_schema <$> spec_fields spec) +:+ "]}".

Definition build_manifest_entry_schema (spec : option PartitionSpec) : string :=
  str_replace (json_text "{'type': 'record', 'name': 'r102', 'fields': []}")
    (build_partition_record_schema spec) MANIFEST_ENTRY_SCHEMA_STR.

(** The schemas these texts denote. *)
Definition nullable (s : Schema) : Schema := SUnion [SNull; s].
Definition int_map (v : Schema) : Schema :=
  nullable (SArray (SRecord [("key", SInt); ("value", v)])).

Definition partition_field_type (f : PartitionField) : Schema :=
  let t := partition_avro_type (pf_source_type f) in
  if String.eqb t "int" then SInt else if String.eqb t "long" then SLong else SString.
Definition partition_schema (spec : option PartitionSpec) : Schema :=
  SRecord ((λ f, (pf_name f, nullable (partition_field_type f))) <$> spec_fields spec).

Definition data_file_schema (spec : option PartitionSpec) : Schema := SRecord
  [("content", SInt); ("file_path", SString); ("file_format", SString);
   ("partition", partition_schema spec);
   ("record_count", SLong); ("file_size_in_bytes", SLong);
   ("column_sizes", int_map SLong); ("value_counts", int_map SLong);
   ("null_value_counts", int_map SLong); ("nan_value_counts", int_map SLong);
   ("lower_bounds", int_map SBytes); ("upper_bounds", int_map SBytes);
   ("key_metadata", nullable SBytes);
   ("split_offsets", nullable (SArray SLong)); ("equality_ids", nullable (SArray SInt));
   ("sort_order_id", nullable SInt); ("first_row_id", nullable SLong)].

Definition manifest_entry_schema (spec : option PartitionSpec) : Schema := SRecord
  [("status", SInt); ("snapshot_id", nullable SLong);
   ("sequence_number", nullable SLong); ("file_sequence_number", nullable SLong);
   ("data_file", data_file_schema spec)].

Definition manifest_list_schema : Schema := SRecord
  [("manifest_path", SString); ("manifest_length", SLong); ("partition_spec_id", SInt);
   ("content", SInt); ("sequence_number", SLong); ("min_sequence_number", SLong);
   ("added_snapshot_id", SLong); ("added_data_files_count", SInt);
   ("existing_data_files_count", SInt); ("deleted_data_files_count", SInt);
   ("added_rows_count", SLong); ("existing_rows_count", SLong); ("deleted_rows_count", SLong);
   ("partitions", SArray (SRecord
      [("contains_null", SBoolean); ("contains_nan", nullable SBoolean);
       ("lower_bound", nullable SBytes); ("upper_bound", nullable SBytes)]))].

(* ------------------------------------------------------------------ *)
(** ** The extension record and the JSON library                       *)
(* ------------------------------------------------------------------ *)

(** The AI-Lake fields of an entry, kept as JSON in [key_metadata]. *)
Record AilakeEntryExt : Type := mk_ext {
  ext_centroid_b64 : option string;
  ext_radius : option f32bits;
  ext_hnsw_offset : option Z;
  ext_hnsw_len : option Z;
  ext_vector_column : option string;
  ext_vector_dim : option Z;
  ext_extra_vector_indexes : list ExtraVectorIndex;
  ext_index_status : IndexStatus;
  ext_index_error : option string;
  ext_batch_id : option string;
  ext_embedding_model : option string;
  ext_partition_value : option string;
  ext_deletion_vector : option DeletionVector;
  ext_first_row_id : option Z;
}.

(** [serde_json] at the types the manifests use, and [base64]. *)
Class SerdeLib : Type := {
  ext_to_vec : AilakeEntryExt → AilakeResult bytes;
  ext_from_slice : bytes → option AilakeEntryExt;
  stats_from_str : string → option (list (Z * FieldStats));
  base64_decode : string → option bytes;
  base64_encode : bytes → string;
}.

(** [f32::is_finite] on the bit pattern: the exponent is not all ones. *)
Definition is_finite (r : f32bits) : bool := negb (Z.land (Z.shiftr r 23) 255 =? 255).
Definition finite_opt (r : option f32bits) : Prop := match r with Some r => is_finite r = true | None => True end.
Definition ext_finite (e : AilakeEntryExt) : Prop :=
  finite_opt (ext_radius e) ∧ Forall (λ i, finite_opt (evi_radius i)) (ext_extra_vector_indexes e).

Class SerdeLaws `{SerdeLib} : Prop := {
  ext_roundtrip e : ext_finite e → ∃ b, ext_to_vec e = Ok b ∧ ext_from_slice b = Some e;
  stats_typed s m : stats_from_str s = Some m →
    Forall (λ kv, fits_i32 kv.1 ∧ fits_i64 (st_column_size kv.2) ∧
      fits_i64 (st_value_count kv.2) ∧ fits_i64 (st_null_count kv.2)) m;
}.

(** [n as i64], [n as u64]. *)
Definition as_i64 (n : Z) : Z := signed 64 (wrap 64 n).
Definition as_u64 (n : Z) : Z := wrap 64 n.

Lemma signed_fits n : fits 64 n → fits_i64 (signed 64 n).
Proof. unfold fits, fits_i64, signed. intros. case_decide; lia. Qed.
Lemma as_i64_fits n : fits_i64 (as_i64 n).
Proof. apply signed_fits, wrap_fits. lia. Qed.
Lemma as_u64_i64 n : fits 64 n → as_u64 (as_i64 n) = n.
Proof.
  intros Hn. unfold as_u64, as_i64, signed. rewrite (wrap_id 64 n) by done.
  case_decide; unfold wrap; [by apply Z.mod_small|].
  replace (n - 2 ^ 64) with (n + (-1) * 2 ^ 64) by lia.
  rewrite Z.mod_add by lia. by apply Z.mod_small.
Qed.

(* ------------------------------------------------------------------ *)
(** ** Writers                                                         *)
(* ------------------------------------------------------------------ *)

Definition is_int_type (t : string) : bool := String.eqb t "int" || String.eqb t "integer".

(** [buf[buf.len() - 1] = 0]. *)
Definition clear_last (buf : bytes) : bytes := <[(length buf - 1)%nat := 0]> buf.

Definition encode_partition_value (field : PartitionField) (value : option string) (buf : bytes)
    : bytes :=
  match value with
  | None => encode_long 0 buf
  | Some v =>
      let buf := encode_long 1 buf in
      if is_int_type (pf_source_type field) then
        match parse_signed 32 v with Some n => encode_long n buf | None => clear_last buf end
      else if String.eqb (pf_source_type field) "long" then
        match parse_signed 64 v with Some n => encode_long n buf | None => clear_last buf end
      else encode_string v buf
  end.

Abbreviation StatsMap := (option (list (Z * FieldStats))).

Definition stats_entries {A} (stats : StatsMap) (get : FieldStats → option A) : list (Z * A) :=
  omap (λ kv, v ← get kv.2; Some (kv.1, v)) (default [] stats).

Definition encode_int_long_map (stats : StatsMap) (get_value : FieldStats → option Z) (rec : bytes)
    : bytes :=
  match stats_entries stats get_value with
  | [] => encode_union_null rec
  | entries =>
      let rec := encode_long 1 rec in
      let rec := encode_long (Zlen entries) rec in
      let rec := foldl (λ rec kv, encode_long kv.2 (encode_int kv.1 rec)) rec entries in
      encode_long 0 rec
  end.

Section Codec.
Context `{AvroLib} `{SerdeLib}.

Definition encode_int_bytes_map (stats : StatsMap) (get_bound : FieldStats → option string)
    (rec : bytes) : bytes :=
  match stats_entries stats (λ s, b64 ← get_bound s; base64_decode b64) with
  | [] => encode_union_null rec
  | entries =>
      let rec := encode_long 1 rec in
      let rec := encode_long (Zlen entries) rec in
      let rec := foldl (λ rec kv, encode_bytes_field kv.2 (encode_int kv.1 rec)) rec entries in
      encode_long 0 rec
  end.

Definition sanitize_radius (radius : option f32bits) : option f32bits :=
  r ← radius; if is_finite r then Some r else None.

Definition sanitize_extra (idx : ExtraVectorIndex) : ExtraVectorIndex :=
  mk_evi (evi_column idx) (evi_dim idx) (evi_hnsw_offset idx) (evi_hnsw_len idx)
    (evi_centroid_b64 idx) (sanitize_radius (evi_radius idx)).

Definition entry_ext (f : DataFileEntry) : AilakeEntryExt :=
  mk_ext (df_centroid_b64 f) (sanitize_radius (df_radius f)) (df_hnsw_offset f) (df_hnsw_len f)
    (df_vector_column f) (df_vector_dim f) (sanitize_extra <$> df_extra_vector_indexes f)
    (df_index_status f) (df_index_error f) (df_batch_id f) (df_embedding_model f)
    (df_partition_value f) (df_deletion_vector f) (df_first_row_id f).

(** The value of the [i]-th partition column: absent or empty is none. *)
Definition partition_part (parts : list string) (i : nat) : option string :=
  s ← parts !! i; if String.eqb s "" then None else Some s.

Definition encode_partition (spec : option PartitionSpec) (f : DataFileEntry) (rec : bytes) : bytes :=
  let parts := split unit_sep (default "" (df_partition_value f)) in
  foldl (λ rec ifd, encode_partition_value ifd.2 (partition_part parts ifd.1) rec) rec
    (imap pair (spec_fields spec)).

(** One manifest entry. *)
Definition write_entry (snapshot_id sequence_number : Z) (partition_spec : option PartitionSpec)
    (f : DataFileEntry) : bytes :=
  let stats := s ← df_column_stats f; stats_from_str s in
  let rec := encode_int 1 [] in
  let rec := encode_union_long 1 snapshot_id rec in
  let rec := encode_union_long 1 sequence_number rec in
  let rec := encode_union_long 1 sequence_number rec in
  let rec := encode_int 0 rec in
  let rec := encode_string (df_path f) rec in
  let rec := encode_string "PARQUET" rec in
  let rec := encode_partition partition_spec f rec in
  let rec := encode_long (as_i64 (df_record_count f)) rec in
  let rec := encode_long (as_i64 (df_file_size_bytes f)) rec in
  let rec := encode_int_long_map stats (λ s, Some (st_column_size s)) rec in
  let rec := encode_int_long_map stats (λ s, Some (st_value_count s)) rec in
  let rec := encode_int_long_map stats (λ s, Some (st_null_count s)) rec in
  let rec := encode_union_null rec in
  let rec := encode_int_bytes_map stats st_lower_bound_b64 rec in
  let rec := encode_int_bytes_map stats st_upper_bound_b64 rec in
  let rec := match ext_to_vec (entry_ext f) with
             | Ok b => encode_union_bytes 1 b rec
             | Err _ => encode_union_null rec
             end in
  let rec := encode_union_null rec in
  let rec := encode_union_null rec in
  let rec := encode_union_null rec in
  match df_first_row_id f with
  | Some id => encode_union_long 1 id rec
  | None => encode_union_null rec
  end.

Definition write_manifest_file (files : list DataFileEntry) (snapshot_id sequence_number : Z)
    (table_schema_json partition_spec_json : string) (format_version : Z)
    (partition_spec : option PartitionSpec) : bytes :=
  let records := write_entry snapshot_id sequence_number partition_spec <$> files in
  let fv_str := if 3 <=? format_version then as_bytes "3" else as_bytes "2" in
  let spec_id_str := match partition_spec with
                     | Some s => to_string (ps_spec_id s) | None => "0" end in
  let extra_meta := [("schema", as_bytes table_schema_json);
                     ("partition-spec", as_bytes partition_spec_json);
                     ("partition-spec-id", as_bytes spec_id_str);
                     ("format-version", fv_str);
                     ("content", as_bytes "data")] in
  write_avro_container (build_manifest_entry_schema partition_spec) extra_meta records.

(** One entry of a manifest list; [rows] is 0 but for the last. *)
Definition write_list_entry (snapshot_id sequence_number rows : Z) (m : string * Z * Z) : bytes :=
  let '(path, len, content) := m in
  let rec := encode_string path [] in
  let rec := encode_long len rec in
  let rec := encode_int 0 rec in
  let rec := encode_int content rec in
  let rec := encode_long sequence_number rec in
  let rec := encode_long sequence_number rec in
  let rec := encode_long snapshot_id rec in
  let rec := encode_int 1 rec in
  let rec := encode_int 0 rec in
  let rec := encode_int 0 rec in
  let rec := encode_long rows rec in
  let rec := encode_long 0 rec in
  let rec := encode_long 0 rec in
  encode_empty_array rec.

Definition write_manifest_list_multi_typed (manifests : list (string * Z * Z))
    (snapshot_id sequence_number added_rows : Z) : bytes :=
  let n := length manifests in
  let records := imap (λ i m,
    let rows := if decide ((i + 1)%nat = n) then added_rows else 0 in
    write_list_entry snapshot_id sequence_number rows m) manifests in
  write_avro_container MANIFEST_LIST_SCHEMA_STR [] records.

(** The untyped writers: every manifest a data manifest. *)
Definition write_manifest_list_multi (manifests : list (string * Z))
    (snapshot_id sequence_number added_rows : Z) : bytes :=
  let n := length manifests in
  let records := imap (λ i m,
    let rows := if decide ((i + 1)%nat = n) then added_rows else 0 in
    write_list_entry snapshot_id sequence_number rows (m.1, m.2, 0)) manifests in
  write_avro_container MANIFEST_LIST_SCHEMA_STR [] records.
Definition write_manifest_list (manifest_path : string) (manifest_bytes snapshot_id
    sequence_number added_rows : Z) : bytes :=
  write_manifest_list_multi [(manifest_path, manifest_bytes)] snapshot_id sequence_number added_rows.

Definition write_delete_entry (snapshot_id sequence_number : Z) (d : EqualityDeleteFile) : bytes :=
  let rec := encode_int 1 [] in
  let rec := encode_union_long 1 snapshot_id rec in
  let rec := encode_union_long 1 sequence_number rec in
  let rec := encode_union_long 1 sequence_number rec in
  let rec := encode_int 2 rec in
  let rec := encode_string (ed_path d) rec in
  let rec := encode_string "AVRO" rec in
  let rec := encode_long (as_i64 (ed_record_count d)) rec in
  let rec := encode_long (as_i64 (ed_file_size_bytes d)) rec in
  let rec := encode_union_null rec in
  let rec := encode_union_null rec in
  let rec := encode_union_null rec in
  let rec := encode_union_null rec in
  let rec := encode_union_null rec in
  let rec := encode_union_null rec in
  let rec := encode_union_null rec in
  let rec := encode_union_null rec in
  let rec := encode_long 1 rec in
  let rec := encode_long (Zlen (ed_equality_ids d)) rec in
  let rec := foldl (λ rec id, encode_int id rec) rec (ed_equality_ids d) in
  let rec := encode_long 0 rec in
  let rec := encode_union_null rec in
  encode_union_null rec.

Definition write_equality_delete_manifest (deletes : list EqualityDeleteFile)
    (snapshot_id sequence_number : Z) : bytes :=
  let records := write_delete_entry snapshot_id sequence_number <$> deletes in
  let extra_meta := [("schema", as_bytes (json_text "{'schema-id':0,'type':'struct','fields':[]}"));
                     ("partition-spec", as_bytes (json_text "[{'spec-id':0,'fields':[]}]"));
                     ("partition-spec-id", as_bytes "0");
                     ("format-version", as_bytes "2");
                     ("content", as_bytes "deletes")] in
  write_avro_container MANIFEST_ENTRY_SCHEMA_STR extra_meta records.

(* ------------------------------------------------------------------ *)
(** ** Readers                                                         *)
(* ------------------------------------------------------------------ *)

(** [fields.iter().find(|(k, _)| k == name)]. *)
Fixpoint find_field (name : string) (fs : list (string * Value)) : option Value :=
  match fs with
  | [] => None
  | (k, v) :: fs => if String.eqb k name then Some v else find_field name fs
  end.

Definition as_nullable_long (v : Value) : option Z :=
  match v with
  | VUnion _ (VLong n) => Some n
  | VLong n => Some n
  | _ => None
  end.
Definition as_nullable_bytes (v : Value) : option bytes :=
  match v with
  | VUnion _ (VBytes b) => Some b
  | VBytes b => Some b
  | _ => None
  end.
Definition as_string (v : Value) : option string := match v with VString s => Some s | _ => None end.
Definition as_long (v : Value) : option Z := match v with VLong n => Some n | _ => None end.
Definition as_int (v : Value) : option Z := match v with VInt n => Some n | _ => None end.

Definition parse_v3_deletion_vector (df_fields : list (string * Value)) : option DeletionVector :=
  v ← find_field "deletion_vector" df_fields;
  dv_record ← match v with
              | VUnion _ (VRecord fs) => Some fs
              | VRecord fs => Some fs
              | _ => None
              end;
  path ← (v ← find_field "path" dv_record; as_string v);
  offset ← (v ← find_field "offset" dv_record; as_long v);
  length ← (v ← find_field "length" dv_record; as_long v);
  let cardinality := default (-1) (v ← find_field "cardinality" dv_record; as_long v) in
  Some (mk_dv path (as_u64 offset) (as_u64 length) cardinality).

Definition parse_v3_first_row_id (df_fields : list (string * Value)) : option Z :=
  v ← find_field "first_row_id" df_fields; as_nullable_long v.

(** [for value in reader { let value = value?; … results.push(…) }]. *)
Definition read_values {A} (f : Value → option A) (data : bytes) : AilakeResult (list A) :=
  match avro_reader data with Ok vs => Ok (omap f vs) | Err e => Err e end.

(** One value of the native partition record. *)
Definition partition_text (v : Value) : option string :=
  match v with
  | VUnion i v =>
      if 0 <? i then
        match v with
        | VString s => Some s
        | VInt n | VLong n => Some (to_string n)
        | _ => None
        end
      else None
  | VString s => Some s
  | VInt n | VLong n => Some (to_string n)
  | _ => None
  end.

Definition native_partition_value (df_fields : list (string * Value)) : option string :=
  v ← find_field "partition" df_fields;
  match v with
  | VRecord parts =>
      match omap (λ kv, partition_text kv.2) parts with
      | [] => None
      | vals => Some (join (String unit_sep EmptyString) vals)
      end
  | _ => None
  end.

(** A decoded record as a data file; none when it has no path. *)
Definition entry_of_value (value : Value) : option DataFileEntry :=
  match value with
  | VRecord fields =>
      let sequence_number := default 0 (v ← find_field "sequence_number" fields; as_nullable_long v) in
      match find_field "data_file" fields with
      | Some (VRecord df_fields) =>
          let key_meta_bytes : option bytes := v ← find_field "key_metadata" df_fields; as_nullable_bytes v in
          path ← (v ← find_field "file_path" df_fields; as_string v);
          let record_count := default 0 (as_u64 <$> (v ← find_field "record_count" df_fields; as_long v)) in
          let file_size_bytes :=
            default 0 (as_u64 <$> (v ← find_field "file_size_in_bytes" df_fields; as_long v)) in
          let ext : option AilakeEntryExt := b ← key_meta_bytes; ext_from_slice b in
          let native_dv := parse_v3_deletion_vector df_fields in
          let native_first_row_id := parse_v3_first_row_id df_fields in
          let opt A (get : AilakeEntryExt → option A) : option A := e ← ext; get e in
          Some (mk_file path record_count file_size_bytes
            (opt _ ext_centroid_b64) (opt _ ext_radius) (opt _ ext_hnsw_offset) (opt _ ext_hnsw_len)
            (opt _ ext_vector_column) (opt _ ext_vector_dim)
            (default [] (ext_extra_vector_indexes <$> ext))
            (default Ready (ext_index_status <$> ext))
            (opt _ ext_index_error) (opt _ ext_batch_id) (opt _ ext_embedding_model)
            (union (native_partition_value df_fields) (opt _ ext_partition_value))
            (union (opt _ ext_deletion_vector) native_dv)
            (union native_first_row_id (opt _ ext_first_row_id))
            None sequence_number)
      | _ => None
      end
  | _ => None
  end.

Definition read_manifest_file (data : bytes) : AilakeResult (list DataFileEntry) :=
  read_values entry_of_value data.

Definition list_entry_of_value (value : Value) : option (string * Z) :=
  match value with
  | VRecord fields =>
      let content := default 0 (v ← find_field "content" fields; as_int v) in
      p ← (v ← find_field "manifest_path" fields; as_string v);
      Some (p, content)
  | _ => None
  end.

Definition read_manifest_list_typed (data : bytes) : AilakeResult (list (string * Z)) :=
  read_values list_entry_of_value data.

Definition read_manifest_list (data : bytes) : AilakeResult (list string) :=
  l ← read_manifest_list_typed data; Ok (l.*1).

Definition int_array (v : Value) : option (list Z) :=
  match v with
  | VUnion _ (VArray arr) => Some (omap as_int arr)
  | VArray arr => Some (omap as_int arr)
  | _ => None
  end.

Definition delete_of_value (value : Value) : option EqualityDeleteFile :=
  match value with
  | VRecord fields =>
      let sequence_number := default 0 (v ← find_field "sequence_number" fields; as_nullable_long v) in
      match find_field "data_file" fields with
      | Some (VRecord df_fields) =>
          let content := default 0 (v ← find_field "content" df_fields; as_int v) in
          if decide (content ≠ 2) then None
          else
            let record_count := default 0 (as_u64 <$> (v ← find_field "record_count" df_fields; as_long v)) in
            let file_size_bytes :=
              default 0 (as_u64 <$> (v ← find_field "file_size_in_bytes" df_fields; as_long v)) in
            let equality_ids := default [] (v ← find_field "equality_ids" df_fields; int_array v) in
            path ← (v ← find_field "file_path" df_fields; as_string v);
            Some (mk_eqdel path equality_ids record_count file_size_bytes None sequence_number)
      | _ => None
      end
  | _ => None
  end.

Definition read_equality_delete_manifest (data : bytes) : AilakeResult (list EqualityDeleteFile) :=
  read_values delete_of_value data.

End Codec.
