(* ===== verification/ManifestTheorems.v ===== *)
(** * What manifests preserve

    A value written by the encoders is read back by the specification's decoder
    ([decodes]); from that, the round trips of data manifests, equality-delete
    manifests and manifest lists, for any Avro and JSON libraries that meet their
    laws. *)

From S2P Require Import Prelude Core Avro Manifest.

(* ------------------------------------------------------------------ *)
(** ** Encoded values                                                  *)
(* ------------------------------------------------------------------ *)

(** [b] encodes [v] under schema [s], wherever it appears. *)
Definition decodes (s : Schema) (v : Value) (b : bytes) : Prop :=
  Zlen b < 2 ^ 63 → ∀ rest, decode_value s (b ++ rest) = Some (v, rest).

Lemma decodes_long n : fits_i64 n → decodes SLong (VLong n) (long_bytes n).
Proof. intros Hn _ rest. cbn. by rewrite decode_long_bytes. Qed.

Lemma i32_i64 n : fits_i32 n → fits_i64 n.
Proof. unfold fits_i32, fits_i64. lia. Qed.

Lemma decodes_int n : fits_i32 n → decodes SInt (VInt n) (long_bytes n).
Proof.
  intros Hn _ rest. cbn. rewrite decode_long_bytes by by apply i32_i64.
  cbn. by rewrite decide_True.
Qed.

Lemma decodes_bytes b : decodes SBytes (VBytes b) (field_bytes b).
Proof.
  intros Hb rest. cbn. rewrite decode_field_bytes; [done|].
  unfold field_bytes in Hb. len.
Qed.

Lemma decodes_string s : decodes SString (VString s) (field_bytes (as_bytes s)).
Proof.
  intros Hb rest. cbn. rewrite decode_field_bytes.
  - cbn. by rewrite of_as_bytes.
  - unfold field_bytes in Hb. len.
Qed.

Lemma decodes_null s : decodes (nullable s) (VUnion 0 VNull) (long_bytes 0).
Proof. intros _ rest. cbn. by rewrite decode_long_bytes by (unfold fits_i64; lia). Qed.

(** The second branch of a nullable union. *)
Definition some_bytes (b : bytes) : bytes := long_bytes 1 ++ b.

Lemma decodes_some s v b : decodes s v b → decodes (nullable s) (VUnion 1 v) (some_bytes b).
Proof.
  unfold some_bytes. intros Hd Hb rest. rewrite <- app_assoc. unfold nullable. cbn [decode_value map].
  rewrite decode_long_bytes by (unfold fits_i64; lia). cbn [mbind option_bind].
  change (Z.to_nat 1) with 1%nat. cbn [nth_error mbind option_bind]. rewrite Hd by len. done.
Qed.

Lemma decodes_nil : decodes (SRecord []) (VRecord []) [].
Proof. done. Qed.

Lemma decodes_cons k s v b fs vs bs :
  decodes s v b → decodes (SRecord fs) (VRecord vs) bs →
  decodes (SRecord ((k, s) :: fs)) (VRecord ((k, v) :: vs)) (b ++ bs).
Proof.
  intros H1 H2 Hb rest. rewrite <- app_assoc.
  specialize (H1 ltac:(len) (bs ++ rest)). specialize (H2 ltac:(len) rest).
  cbn [decode_value] in H2 |- *. rewrite H1. cbn [mbind option_bind].
  match type of H2 with context [mbind _ ?g] => destruct g as [[ws ?]|] end; naive_solver.
Qed.

Lemma decodes_last k s v b :
  decodes s v b → decodes (SRecord [(k, s)]) (VRecord [(k, v)]) b.
Proof. intros H. rewrite <- (app_nil_r b). by apply decodes_cons, decodes_nil. Qed.

Lemma decode_items_spec s vs bs rest :
  Forall2 (decodes s) vs bs → Zlen (mjoin bs) < 2 ^ 63 →
  decode_items (decode_value s) (length vs) (mjoin bs ++ rest) = Some (vs, rest).
Proof.
  intros Hf. revert rest. induction Hf as [|v b vs bs Hd _ IH]; intros rest Hb; [done|].
  rewrite mjoin_cons in Hb |- *. cbn [length decode_items]. rewrite <- app_assoc.
  rewrite Hd by len. cbn. rewrite IH by len. done.
Qed.

Lemma decodes_array_empty s : decodes (SArray s) (VArray []) (long_bytes 0).
Proof. intros _ rest. cbn. by rewrite decode_long_bytes by (unfold fits_i64; lia). Qed.

(** One non-empty block and the end marker. *)
Lemma decodes_array s vs bs :
  vs ≠ [] → Zlen vs < 2 ^ 63 → Forall2 (decodes s) vs bs →
  decodes (SArray s) (VArray vs) (long_bytes (Zlen vs) ++ mjoin bs ++ long_bytes 0).
Proof.
  intros Hne Hn Hf Hb rest. cbn [decode_value].
  assert (Hl : (0 < length vs)%nat) by (destruct vs; [done|cbn; lia]).
  destruct (length ((long_bytes (Zlen vs) ++ _) ++ rest)) as [|fuel] eqn:E.
  { pose proof (long_bytes_not_nil (Zlen vs)). destruct (long_bytes (Zlen vs)); [done|].
    autorewrite with lens in E. cbn in E. lia. }
  rewrite <- !app_assoc. cbn [decode_blocks].
  rewrite decode_long_bytes by (unfold fits_i64; lia). cbn [mbind option_bind].
  rewrite decide_False, decide_False by lia. rewrite Nat2Z.id.
  rewrite decode_items_spec; [|done|len]. cbn [mbind option_bind decode_blocks].
  rewrite decode_long_bytes by (unfold fits_i64; lia). cbn [mbind option_bind].
  rewrite decide_True by done. cbn. by rewrite app_nil_r.
Qed.

(* ------------------------------------------------------------------ *)
(** ** Containers                                                      *)
(* ------------------------------------------------------------------ *)

Lemma length_mjoin_elem {A} (l : list A) ls : l ∈ ls → (length l ≤ length (mjoin ls))%nat.
Proof.
  induction 1 as [l ls|l k ls _ IH]; rewrite mjoin_cons, length_app; lia.
Qed.

Lemma length_mjoin_nonempty {A} (ls : list (list A)) :
  Forall (λ l, l ≠ []) ls → (length ls ≤ length (mjoin ls))%nat.
Proof.
  induction 1 as [|l ls Hl _ IH]; [done|]. rewrite mjoin_cons, length_app. cbn [length].
  destruct l; [done|cbn; lia].
Qed.

Lemma container_small schema extra records :
  Zlen (write_avro_container schema extra records) < 2 ^ 63 →
  Forall (λ r, r ≠ []) records →
  meta_fits (("avro.schema", as_bytes schema) :: extra) ∧
  Zlen extra < 2 ^ 62 ∧ Zlen records < 2 ^ 63 ∧ Zlen (mjoin records) < 2 ^ 63.
Proof.
  rewrite write_avro_container_layout. rewrite !length_app. set (es := _ :: _ :: extra).
  intros Hlt Hne.
  assert (Hsub : Zlen (mjoin (entry_bytes <$> es)) < 2 ^ 63) by lia. split_and!.
  - assert (Hall : meta_fits es).
    { apply Forall_forall. intros kv Hkv.
      pose proof (length_mjoin_elem (entry_bytes kv) (entry_bytes <$> es)
        (list_elem_of_fmap_2 _ _ _ Hkv)) as Hle.
      unfold entry_bytes in Hle at 1. unfold field_bytes in Hle. rewrite !length_app in Hle. lia. }
    inversion_clear Hall as [|?? H1 Hrest]. inversion_clear Hrest. by constructor.
  - assert (H2 : (2 * length es ≤ length (mjoin (entry_bytes <$> es)))%nat).
    { clear. induction es as [|kv es IH]; [done|]. rewrite fmap_cons, mjoin_cons, length_app.
      unfold entry_bytes at 1. unfold field_bytes. rewrite !length_app. cbn [length].
      pose proof (long_bytes_not_nil (Zlen (as_bytes kv.1))) as H1.
      pose proof (long_bytes_not_nil (Zlen kv.2)) as H2.
      destruct (long_bytes _); [done|]. destruct (long_bytes (Zlen kv.2)); [done|].
      cbn [length]. lia. }
    subst es. cbn [length] in H2. lia.
  - pose proof (length_mjoin_nonempty records Hne). destruct records; [cbn; lia|].
    rewrite !length_app in Hlt. unfold field_bytes in Hlt. rewrite length_app in Hlt. lia.
  - destruct records; [cbn; lia|].
    rewrite !length_app in Hlt. unfold field_bytes in Hlt. rewrite length_app in Hlt. lia.
Qed.

(* ------------------------------------------------------------------ *)
(** ** What the encoders append                                        *)
(* ------------------------------------------------------------------ *)

Lemma foldl_append {A} (f : bytes → A → bytes) (g : A → bytes) l buf :
  (∀ buf x, f buf x = buf ++ g x) → foldl f buf l = buf ++ mjoin (g <$> l).
Proof.
  intros Hf. revert buf. induction l as [|x l IH]; intros buf; cbn [foldl].
  - by rewrite app_nil_r.
  - by rewrite IH, Hf, fmap_cons, mjoin_cons, app_assoc.
Qed.

Lemma long_bytes_0 : long_bytes 0 = [0].
Proof. by vm_compute. Qed.
Lemma long_bytes_1 : long_bytes 1 = [2].
Proof. by vm_compute. Qed.

Lemma encode_long_app n buf : encode_long n buf = buf ++ long_bytes n.
Proof. done. Qed.
Lemma encode_int_app n buf : encode_int n buf = buf ++ long_bytes n.
Proof. done. Qed.
Lemma encode_union_null_app buf : encode_union_null buf = buf ++ long_bytes 0.
Proof. done. Qed.
Lemma encode_empty_array_app buf : encode_empty_array buf = buf ++ long_bytes 0.
Proof. done. Qed.
Lemma encode_bytes_app b buf : encode_bytes_field b buf = buf ++ field_bytes b.
Proof. unfold encode_bytes_field. by rewrite encode_long_app, <- app_assoc. Qed.
Lemma encode_string_app s buf : encode_string s buf = buf ++ field_bytes (as_bytes s).
Proof. apply encode_bytes_app. Qed.
Lemma encode_union_long_app n buf : encode_union_long 1 n buf = buf ++ some_bytes (long_bytes n).
Proof. unfold encode_union_long. by rewrite !encode_long_app, <- app_assoc. Qed.
Lemma encode_union_bytes_app b buf : encode_union_bytes 1 b buf = buf ++ some_bytes (field_bytes b).
Proof. unfold encode_union_bytes. by rewrite encode_bytes_app, encode_long_app, <- app_assoc. Qed.

#[export] Hint Rewrite encode_int_app encode_union_null_app encode_empty_array_app
  encode_bytes_app encode_string_app encode_union_long_app encode_union_bytes_app
  encode_long_app : encoders.

Lemma clear_last_app buf b : clear_last (buf ++ [b]) = buf ++ [0].
Proof.
  unfold clear_last. rewrite length_app. cbn [length].
  replace (length buf + 1 - 1)%nat with (length buf + 0)%nat by lia.
  by rewrite insert_app_r.
Qed.

(** The value read for a partition column. *)
Definition partition_union (fd : PartitionField) (value : option string) : Value :=
  match value with
  | None => VUnion 0 VNull
  | Some v =>
      if is_int_type (pf_source_type fd) then
        match parse_signed 32 v with Some n => VUnion 1 (VInt n) | None => VUnion 0 VNull end
      else if String.eqb (pf_source_type fd) "long" then
        match parse_signed 64 v with Some n => VUnion 1 (VLong n) | None => VUnion 0 VNull end
      else VUnion 1 (VString v)
  end.

Definition partition_bytes (fd : PartitionField) (value : option string) : bytes :=
  encode_partition_value fd value [].

Lemma encode_partition_value_app fd value buf :
  encode_partition_value fd value buf = buf ++ partition_bytes fd value.
Proof.
  unfold partition_bytes, encode_partition_value, encode_string, encode_long.
  fold (long_bytes 1) (long_bytes 0). rewrite long_bytes_1, long_bytes_0.
  destruct value as [v|]; [|done]. cbn [app].
  repeat case_match; rewrite ?clear_last_app, <- ?app_assoc; done.
Qed.

Lemma digits_from_le max acc s v : 0 ≤ acc → digits_from max acc s = Some v → 0 ≤ v ∧ (acc ≤ max → v ≤ max).
Proof.
  revert acc. induction s as [|c s IH]; intros acc Hacc; cbn [digits_from].
  - intros [= <-]. lia.
  - unfold digit_value. case_decide; [|done]. case_decide; [|done]. intros Hd.
    apply IH in Hd; lia.
Qed.

Lemma parse_signed_range w s n : 1 ≤ w → parse_signed w s = Some n → - 2 ^ (w - 1) ≤ n < 2 ^ (w - 1).
Proof.
  intros Hw. unfold parse_signed, parse_unsigned.
  assert (0 < 2 ^ (w - 1)) by (apply Z.pow_pos_nonneg; lia).
  destruct (strip_prefix "-" s) as [rest|].
  - destruct rest as [|c rest]; [done|]. destruct (digits_from _ 0 _) as [v|] eqn:E; [|done].
    cbn. intros [= <-]. apply digits_from_le in E; lia.
  - repeat case_match; try done; intros E; apply digits_from_le in E; lia.
Qed.

Lemma partition_field_type_cases fd :
  partition_field_type fd =
    if is_int_type (pf_source_type fd) then SInt
    else if String.eqb (pf_source_type fd) "long" then SLong else SString.
Proof. unfold partition_field_type, partition_avro_type, is_int_type. by repeat case_match. Qed.

Lemma decodes_partition_value fd value :
  decodes (nullable (partition_field_type fd)) (partition_union fd value) (partition_bytes fd value).
Proof.
  rewrite partition_field_type_cases. unfold partition_bytes, partition_union.
  unfold encode_partition_value, encode_string, encode_long.
  fold (long_bytes 1) (long_bytes 0). destruct value as [v|]; cbn [app]; [|apply decodes_null].
  destruct (is_int_type _); [|destruct (String.eqb _ _)].
  - destruct (parse_signed 32 v) as [n|] eqn:E.
    + apply decodes_some, decodes_int. by apply parse_signed_range in E.
    + rewrite long_bytes_1. change (clear_last [2]) with [0]. rewrite <- long_bytes_0. apply decodes_null.
  - destruct (parse_signed 64 v) as [n|] eqn:E.
    + apply decodes_some, decodes_long. by apply parse_signed_range in E.
    + rewrite long_bytes_1. change (clear_last [2]) with [0]. rewrite <- long_bytes_0. apply decodes_null.
  - rewrite <- app_assoc. apply decodes_some, decodes_string.
Qed.

(** The native partition record of a file. *)
Definition partition_record (spec : option PartitionSpec) (pv : option string) : list (string * Value) :=
  imap (λ i fd, (pf_name fd, partition_union fd (partition_part (split unit_sep (default "" pv)) i)))
    (spec_fields spec).

Definition partition_record_bytes (spec : option PartitionSpec) (pv : option string) : bytes :=
  mjoin (imap (λ i fd, partition_bytes fd (partition_part (split unit_sep (default "" pv)) i))
    (spec_fields spec)).

Lemma encode_partition_app spec f rec :
  encode_partition spec f rec = rec ++ partition_record_bytes spec (df_partition_value f).
Proof.
  unfold encode_partition, partition_record_bytes.
  rewrite (foldl_append _ (λ ifd, partition_bytes ifd.2
    (partition_part (split unit_sep (default "" (df_partition_value f))) ifd.1)))
    by (intros; apply encode_partition_value_app).
  do 2 f_equal. rewrite fmap_imap. done.
Qed.

Lemma decodes_partition spec pv :
  decodes (partition_schema spec) (VRecord (partition_record spec pv)) (partition_record_bytes spec pv).
Proof.
  unfold partition_schema, partition_record, partition_record_bytes.
  generalize (partition_part (split unit_sep (default "" pv))) as h.
  induction (spec_fields spec) as [|fd fds IH]; intros h; [apply decodes_nil|].
  rewrite fmap_cons, !imap_cons, mjoin_cons.
  apply decodes_cons; [apply decodes_partition_value|]. apply (IH (λ i, h (S i))).
Qed.

(** A statistics map as read. *)
Definition stats_value {A} (mk : A → Value) (entries : list (Z * A)) : Value :=
  match entries with
  | [] => VUnion 0 VNull
  | _ => VUnion 1 (VArray ((λ kv, VRecord [("key", VInt kv.1); ("value", mk kv.2)]) <$> entries))
  end.

Definition stats_bytes {A} (enc : A → bytes) (entries : list (Z * A)) : bytes :=
  match entries with
  | [] => long_bytes 0
  | _ => some_bytes (long_bytes (Zlen entries)
           ++ mjoin ((λ kv, long_bytes kv.1 ++ enc kv.2) <$> entries) ++ long_bytes 0)
  end.

Lemma decodes_stats {A} (s : Schema) (mk : A → Value) (enc : A → bytes) entries :
  Forall (λ kv, fits_i32 kv.1 ∧ decodes s (mk kv.2) (enc kv.2)) entries →
  decodes (int_map s) (stats_value mk entries) (stats_bytes enc entries).
Proof.
  intros Hall. destruct entries as [|e es]; [apply decodes_null|]. set (l := e :: es).
  intros Hb. assert (Hn : (length l ≤ length (mjoin ((λ kv, long_bytes kv.1 ++ enc kv.2) <$> l)))%nat).
  { rewrite <- (length_fmap (λ kv, long_bytes kv.1 ++ enc kv.2) l) at 1.
    apply length_mjoin_nonempty, Forall_fmap, Forall_true. intros kv Hnil.
    apply app_nil in Hnil as [Hnil _]. by apply long_bytes_not_nil in Hnil. }
  assert (Hl : Zlen l < 2 ^ 63).
  { revert Hb. unfold stats_bytes. unfold some_bytes. subst l. cbv iota. rewrite !length_app. lia. }
  revert Hb. unfold stats_value, stats_bytes. subst l. cbv iota. set (l := e :: es) in *.
  rewrite <- (length_fmap (λ kv, VRecord [("key", VInt kv.1); ("value", mk kv.2)]) l) in Hl |- *.
  apply decodes_some, decodes_array; [done|done|].
  clear -Hall. induction Hall as [|kv kvs [Hk Hv] _ IH]; [constructor|].
  constructor; [|done]. by apply decodes_cons, decodes_last; [apply decodes_int|].
Qed.

Lemma encode_int_long_map_app stats get rec :
  encode_int_long_map stats get rec = rec ++ stats_bytes long_bytes (stats_entries stats get).
Proof.
  unfold encode_int_long_map, encode_union_null, stats_bytes, some_bytes.
  destruct (stats_entries stats get) as [|e es]; [done|].
  rewrite (foldl_append _ (λ kv, long_bytes kv.1 ++ long_bytes kv.2))
    by (intros; unfold encode_int, encode_long; by rewrite <- app_assoc).
  unfold encode_long. by rewrite <- !app_assoc.
Qed.

Lemma encode_int_bytes_map_app `{SerdeLib} stats get rec :
  encode_int_bytes_map stats get rec =
    rec ++ stats_bytes field_bytes (stats_entries stats (λ s, b64 ← get s; base64_decode b64)).
Proof.
  unfold encode_int_bytes_map, encode_union_null, stats_bytes, some_bytes.
  destruct (stats_entries stats _) as [|e es]; [done|].
  rewrite (foldl_append _ (λ kv, long_bytes kv.1 ++ field_bytes kv.2))
    by (intros; unfold encode_int, encode_bytes_field, encode_long, field_bytes; by rewrite <- !app_assoc).
  unfold encode_long. by rewrite <- !app_assoc.
Qed.

Lemma stats_entries_Forall {A} (P : Z → FieldStats → Prop) (Q : Z * A → Prop) stats get :
  Forall (λ kv, P kv.1 kv.2) (default [] stats) →
  (∀ k s v, P k s → get s = Some v → Q (k, v)) →
  Forall Q (stats_entries stats get).
Proof.
  intros Hall HQ. unfold stats_entries. apply Forall_forall. intros kv Hkv.
  apply list_elem_of_omap in Hkv as ([k s] & Hin & E). cbn in E.
  destruct (get s) as [v|] eqn:Hg; [|done]. injection E as <-.
  rewrite Forall_forall in Hall. apply (HQ k s v); [by apply (Hall (k, s))|done].
Qed.

Definition nullable_long_value (o : option Z) : Value :=
  match o with Some n => VUnion 1 (VLong n) | None => VUnion 0 VNull end.

Definition nullable_long_bytes (o : option Z) : bytes :=
  match o with Some n => some_bytes (long_bytes n) | None => long_bytes 0 end.

Lemma nullable_long_decodes o :
  match o with Some n => fits_i64 n | None => True end →
  decodes (nullable SLong) (nullable_long_value o)
    (nullable_long_bytes o).
Proof. destruct o; intros; [by apply decodes_some, decodes_long|apply decodes_null]. Qed.

(** Field by field through a record. *)
Ltac decode_record :=
  repeat first
    [ apply decodes_last | apply decodes_cons | apply decodes_partition | apply decodes_null
    | apply decodes_array_empty | apply decodes_some | apply decodes_string | apply decodes_bytes
    | apply nullable_long_decodes; assumption
    | apply decodes_int; first [assumption | unfold fits_i32; lia]
    | apply decodes_long; first [assumption | apply as_i64_fits | unfold fits_i64; lia] ].

Section Readers.
Context `{AvroLaws}.

(** Reading a container whose records encode [vs]. *)
Lemma read_container {A} (f : Value → option A) s schema extra records vs :
  parse_schema schema = Some s →
  Forall2 (decodes s) vs records → Forall (λ r, r ≠ []) records →
  Zlen (write_avro_container schema extra records) < 2 ^ 63 →
  read_values f (write_avro_container schema extra records) = Ok (omap f vs).
Proof.
  intros Hp Hf Hne Hlt.
  destruct (container_small _ _ _ Hlt Hne) as (H1 & H2 & H3 & H4). unfold read_values.
  erewrite avro_reader_law; [done|by apply decode_written_container|done|].
  destruct records as [|r rs]; [by inversion Hf|]. unfold decode_block.
  rewrite Nat2Z.id, <- (Forall2_length _ _ _ Hf).
  rewrite <- (app_nil_r (mjoin _)), decode_items_spec by done. done.
Qed.

Context `{SerdeLaws}.

(** ** Data manifests *)

(** A partition value as the native record keeps it. *)
Definition stored_part (fd : PartitionField) (value : option string) : option string :=
  v ← value;
  if is_int_type (pf_source_type fd) then to_string <$> parse_signed 32 v
  else if String.eqb (pf_source_type fd) "long" then to_string <$> parse_signed 64 v
  else Some v.

Definition stored_partition (spec : option PartitionSpec) (pv : option string) : option string :=
  let parts := split unit_sep (default "" pv) in
  match omap id (imap (λ i fd, stored_part fd (partition_part parts i)) (spec_fields spec)) with
  | [] => pv
  | vals => Some (join (String unit_sep EmptyString) vals)
  end.

(** The entry that comes back: the commit's sequence number, finite radii only,
    the native partition value, no column statistics. *)
Definition read_back (sequence_number : Z) (spec : option PartitionSpec) (f : DataFileEntry)
    : DataFileEntry :=
  mk_file (df_path f) (df_record_count f) (df_file_size_bytes f)
    (df_centroid_b64 f) (sanitize_radius (df_radius f)) (df_hnsw_offset f) (df_hnsw_len f)
    (df_vector_column f) (df_vector_dim f) (sanitize_extra <$> df_extra_vector_indexes f)
    (df_index_status f) (df_index_error f) (df_batch_id f) (df_embedding_model f)
    (stored_partition spec (df_partition_value f)) (df_deletion_vector f) (df_first_row_id f)
    None sequence_number.

(** The integers of an entry are in the range of their types. *)
Definition entry_typed (f : DataFileEntry) : Prop :=
  fits 64 (df_record_count f) ∧ fits 64 (df_file_size_bytes f) ∧
  match df_first_row_id f with Some id => fits_i64 id | None => True end.

(** The decoded record of an entry whose extension is the bytes [ext]. *)
Definition entry_value (snapshot_id sequence_number : Z) (spec : option PartitionSpec)
    (f : DataFileEntry) (ext : bytes) : Value :=
  let stats := s ← df_column_stats f; stats_from_str s in
  let bound get := stats_value VBytes (stats_entries stats (λ s, b64 ← get s; base64_decode b64)) in
  let count get := stats_value VLong (stats_entries stats (λ s, Some (get s))) in
  VRecord
    [("status", VInt 1); ("snapshot_id", VUnion 1 (VLong snapshot_id));
     ("sequence_number", VUnion 1 (VLong sequence_number));
     ("file_sequence_number", VUnion 1 (VLong sequence_number));
     ("data_file", VRecord
       [("content", VInt 0); ("file_path", VString (df_path f)); ("file_format", VString "PARQUET");
        ("partition", VRecord (partition_record spec (df_partition_value f)));
        ("record_count", VLong (as_i64 (df_record_count f)));
        ("file_size_in_bytes", VLong (as_i64 (df_file_size_bytes f)));
        ("column_sizes", count st_column_size); ("value_counts", count st_value_count);
        ("null_value_counts", count st_null_count); ("nan_value_counts", VUnion 0 VNull);
        ("lower_bounds", bound st_lower_bound_b64); ("upper_bounds", bound st_upper_bound_b64);
        ("key_metadata", VUnion 1 (VBytes ext));
        ("split_offsets", VUnion 0 VNull); ("equality_ids", VUnion 0 VNull);
        ("sort_order_id", VUnion 0 VNull); ("first_row_id", nullable_long_value (df_first_row_id f))])].

Lemma column_stats_typed f :
  Forall (λ kv, fits_i32 kv.1 ∧ fits_i64 (st_column_size kv.2) ∧
      fits_i64 (st_value_count kv.2) ∧ fits_i64 (st_null_count kv.2))
    (default [] (s ← df_column_stats f; stats_from_str s)).
Proof.
  destruct (df_column_stats f) as [s|]; [|constructor]. cbn.
  destruct (stats_from_str s) as [m|] eqn:E; [|constructor]. by apply stats_typed in E.
Qed.

Lemma sanitize_radius_finite r : finite_opt (sanitize_radius r).
Proof. destruct r as [r|]; [|done]. cbn. by destruct (is_finite r) eqn:E. Qed.

Lemma entry_ext_finite f : ext_finite (entry_ext f).
Proof.
  split; [apply sanitize_radius_finite|]. cbn. apply Forall_fmap, Forall_true.
  intros i. apply sanitize_radius_finite.
Qed.

Lemma decodes_counts (get : FieldStats → Z) stats :
  Forall (λ kv, fits_i32 kv.1 ∧ fits_i64 (get kv.2)) (default [] stats) →
  decodes (int_map SLong) (stats_value VLong (stats_entries stats (λ s, Some (get s))))
    (stats_bytes long_bytes (stats_entries stats (λ s, Some (get s)))).
Proof.
  intros Hall. apply decodes_stats.
  apply (stats_entries_Forall (λ k s, fits_i32 k ∧ fits_i64 (get s))); [done|].
  intros k st v [Hk Hv] [= <-]. split; [done|by apply decodes_long].
Qed.

Lemma decodes_bounds (get : FieldStats → option string) stats :
  Forall (λ kv, fits_i32 kv.1) (default [] stats) →
  let entries := stats_entries stats (λ s, b64 ← get s; base64_decode b64) in
  decodes (int_map SBytes) (stats_value VBytes entries) (stats_bytes field_bytes entries).
Proof.
  intros Hall. apply decodes_stats.
  apply (stats_entries_Forall (λ k _, fits_i32 k)); [done|].
  intros k st v Hk _. split; [done|apply decodes_bytes].
Qed.

Lemma decodes_entry snap seq spec f ext :
  fits_i64 snap → fits_i64 seq → entry_typed f → ext_to_vec (entry_ext f) = Ok ext →
  decodes (manifest_entry_schema spec) (entry_value snap seq spec f ext) (write_entry snap seq spec f).
Proof.
  intros Hsnap Hseq (Hrc & Hfs & Hrow) Hext. unfold write_entry. rewrite Hext.
  pose proof (column_stats_typed f) as Hst.
  assert (E : ∀ rec, match df_first_row_id f with Some id => encode_union_long 1 id rec
                     | None => encode_union_null rec end = rec ++ nullable_long_bytes (df_first_row_id f))
    by (intros rec; destruct (df_first_row_id f); by autorewrite with encoders).
  rewrite E, !encode_int_bytes_map_app, !encode_int_long_map_app, encode_partition_app.
  autorewrite with encoders. rewrite <- !app_assoc. cbn [app].
  decode_record; apply decodes_counts || apply decodes_bounds;
    eapply Forall_impl; [exact Hst| |exact Hst| |exact Hst| |exact Hst| |exact Hst|]; naive_solver.
Qed.

Lemma partition_text_union fd value : partition_text (partition_union fd value) = stored_part fd value.
Proof.
  destruct value as [v|]; [|done]. cbn. unfold partition_union, partition_text.
  repeat case_match; naive_solver.
Qed.

Lemma partition_record_text spec pv :
  omap (λ kv, partition_text kv.2) (partition_record spec pv) =
  omap id (imap (λ i fd, stored_part fd (partition_part (split unit_sep (default "" pv)) i))
    (spec_fields spec)).
Proof.
  unfold partition_record. generalize (partition_part (split unit_sep (default "" pv))) as h.
  induction (spec_fields spec) as [|fd fds IH]; intros h; [done|].
  rewrite !imap_cons. cbn [omap list_omap snd]. rewrite partition_text_union.
  unfold id at 1. specialize (IH (λ i, h (S i))). unfold compose. cbn in IH |- *. by rewrite IH.
Qed.

Lemma entry_of_entry_value snap seq spec f ext :
  entry_typed f → ext_from_slice ext = Some (entry_ext f) →
  entry_of_value (entry_value snap seq spec f ext) = Some (read_back seq spec f).
Proof.
  intros (Hrc & Hfs & _) Hext. unfold entry_value, entry_of_value.
  unfold native_partition_value, parse_v3_deletion_vector, parse_v3_first_row_id.
  cbn [find_field String.eqb Ascii.eqb Bool.eqb mbind option_bind as_nullable_long as_nullable_bytes
       as_string as_long default fmap option_fmap option_map].
  rewrite Hext, partition_record_text, !as_u64_i64 by done. unfold read_back, stored_partition.
  cbn. do 2 f_equal.
  - case_match; by destruct (df_partition_value f).
  - by destruct (df_deletion_vector f).
  - by destruct (df_first_row_id f).
Qed.

Lemma write_entry_not_nil snap seq spec f : write_entry snap seq spec f ≠ [].
Proof.
  intros E. apply (f_equal length) in E. revert E. unfold write_entry. cbv zeta.
  match goal with |- length (match _ with Some _ => _ | None => encode_union_null ?r end) = _ → _ =>
    generalize r end. intros r. destruct (df_first_row_id f); autorewrite with encoders;
    rewrite length_app, ?long_bytes_0; unfold some_bytes; rewrite ?length_app, ?long_bytes_1; cbn; lia.
Qed.

Lemma read_written_manifest files snap seq fv schema_json spec_json spec :
  let data := write_manifest_file files snap seq schema_json spec_json fv spec in
  parse_schema (build_manifest_entry_schema spec) = Some (manifest_entry_schema spec) →
  fits_i64 snap → fits_i64 seq → Forall entry_typed files → Zlen data < 2 ^ 63 →
  read_manifest_file data = Ok (read_back seq spec <$> files).
Proof.
  cbv zeta. intros Hp Hsnap Hseq Hall Hlt.
  assert (∃ vs, Forall2 (decodes (manifest_entry_schema spec)) vs
                  (write_entry snap seq spec <$> files) ∧
                omap entry_of_value vs = read_back seq spec <$> files) as (vs & Hvs & E).
  { clear Hlt. induction Hall as [|f fs Hf _ (vs & Hvs & E)]; [by exists []|].
    destruct (ext_roundtrip (entry_ext f) (entry_ext_finite f)) as (b & Hb & Hb').
    exists (entry_value snap seq spec f b :: vs). split.
    - constructor; [by apply decodes_entry|done].
    - cbn [omap list_omap]. rewrite entry_of_entry_value by done. rewrite fmap_cons. f_equal. exact E. }
  unfold read_manifest_file, write_manifest_file. cbv zeta.
  erewrite read_container; [by rewrite E|done|done| |done].
  apply Forall_fmap, Forall_true. intros f. apply write_entry_not_nil.
Qed.

(** C23: a data manifest read back is the list of files it was written from, in
    order: each entry with the sequence number of its commit, its radii when they
    are finite, its partition value as the native columns hold it, and without the
    column statistics, which only other engines read; every other field unchanged. *)
Theorem manifest_file_roundtrip
    (files : list DataFileEntry) (snap seq fv : Z) (schema_json spec_json : string)
    (spec : option PartitionSpec) :
  let data := write_manifest_file files snap seq schema_json spec_json fv spec in
  parse_schema (build_manifest_entry_schema spec) = Some (manifest_entry_schema spec) →
  fits_i64 snap → fits_i64 seq → Forall entry_typed files → Zlen data < 2 ^ 63 →
  read_manifest_file data = Ok (read_back seq spec <$> files).
Proof. apply read_written_manifest. Qed.

Definition with_partition (f : DataFileEntry) (pv : string) : DataFileEntry :=
  mk_file (df_path f) (df_record_count f) (df_file_size_bytes f) (df_centroid_b64 f) (df_radius f)
    (df_hnsw_offset f) (df_hnsw_len f) (df_vector_column f) (df_vector_dim f)
    (df_extra_vector_indexes f) (df_index_status f) (df_index_error f) (df_batch_id f)
    (df_embedding_model f) (Some pv) (df_deletion_vector f) (df_first_row_id f)
    (df_column_stats f) (df_sequence_number f).

Definition text_column (fd : PartitionField) : Prop :=
  is_int_type (pf_source_type fd) = false ∧ String.eqb (pf_source_type fd) "long" = false.

Lemma split_no_char c s : no_char c s = true → split c s = [s].
Proof.
  induction s as [|a s IH]; [done|]. cbn [no_char split]. intros [Ha Hs]%andb_prop.
  rewrite IH by done. destruct (Ascii.eqb a c); [done|done].
Qed.

Lemma split_trailing c s : no_char c s = true → split c (s +:+ String c "") = [s; ""].
Proof.
  induction s as [|a s IH].
  - intros _. change ("" +:+ String c "") with (String c ""). cbn [split]. by rewrite Ascii.eqb_refl.
  - cbn [no_char]. intros [Ha Hs]%andb_prop.
    change (String a s +:+ String c "") with (String a (s +:+ String c "")). cbn [split].
    rewrite IH by done. by destruct (Ascii.eqb a c).
Qed.

Lemma stored_text fd v : text_column fd → stored_part fd (Some v) = Some v.
Proof. intros [E1 E2]. cbn. by rewrite E1, E2. Qed.

(** Both shapes of a value next to an empty one are stored as the bare value. *)
Lemma stored_partition_lost spec fd1 fd2 v :
  ps_fields spec = [fd1; fd2] → text_column fd1 → text_column fd2 →
  v ≠ "" → no_char unit_sep v = true →
  stored_partition (Some spec) (Some (String unit_sep v)) = Some v ∧
  stored_partition (Some spec) (Some (v +:+ String unit_sep "")) = Some v.
Proof.
  intros Hsp Ht1 Ht2 Hne Hnc. unfold stored_partition. cbn [spec_fields default]. rewrite Hsp.
  unfold id. rewrite split_trailing by done. cbn [split]. rewrite Ascii.eqb_refl, split_no_char by done.
  assert (Hv : String.eqb v "" = false) by by apply String.eqb_neq.
  unfold partition_part. cbn. rewrite Hv. cbn.
  destruct Ht1 as [-> ->], Ht2 as [-> ->]. done.
Qed.

(** With two text partition columns, a file whose first column is empty and a
    file whose second column is empty are read back with the same partition value:
    the reader drops absent columns instead of keeping their position. *)
Theorem partition_position_lost
    (f : DataFileEntry) (spec : PartitionSpec) (fd1 fd2 : PartitionField) (v : string)
    (snap seq fv : Z) (schema_json spec_json : string) :
  let write pv := write_manifest_file [with_partition f pv] snap seq schema_json spec_json fv (Some spec) in
  let left := String unit_sep v in let right := v +:+ String unit_sep "" in
  ps_fields spec = [fd1; fd2] → text_column fd1 → text_column fd2 →
  v ≠ "" → no_char unit_sep v = true →
  parse_schema (build_manifest_entry_schema (Some spec)) = Some (manifest_entry_schema (Some spec)) →
  fits_i64 snap → fits_i64 seq → entry_typed f →
  Zlen (write left) < 2 ^ 63 → Zlen (write right) < 2 ^ 63 →
  read_manifest_file (write left) = read_manifest_file (write right).
Proof.
  cbv beta zeta. intros Hsp Ht1 Ht2 Hne Hnc Hp Hs Hq Hf HL HR.
  assert (Hf' : ∀ pv, Forall entry_typed [with_partition f pv]) by (intros; by apply Forall_singleton).
  rewrite !read_written_manifest by done.
  destruct (stored_partition_lost spec fd1 fd2 v Hsp Ht1 Ht2 Hne Hnc) as [E1 E2].
  unfold read_back. cbn [fmap list_fmap with_partition df_partition_value].
  cbn. by rewrite E1, E2.
Qed.

(** ** Manifest lists *)

Definition list_entry_typed (m : string * Z * Z) : Prop := fits_i64 m.1.2 ∧ fits_i32 m.2.

Definition list_entry_value (snapshot_id sequence_number rows : Z) (m : string * Z * Z) : Value :=
  VRecord
    [("manifest_path", VString m.1.1); ("manifest_length", VLong m.1.2);
     ("partition_spec_id", VInt 0); ("content", VInt m.2);
     ("sequence_number", VLong sequence_number); ("min_sequence_number", VLong sequence_number);
     ("added_snapshot_id", VLong snapshot_id); ("added_data_files_count", VInt 1);
     ("existing_data_files_count", VInt 0); ("deleted_data_files_count", VInt 0);
     ("added_rows_count", VLong rows); ("existing_rows_count", VLong 0);
     ("deleted_rows_count", VLong 0); ("partitions", VArray [])].

Lemma decodes_list_entry snap seq rows m :
  fits_i64 snap → fits_i64 seq → fits_i64 rows → list_entry_typed m →
  decodes manifest_list_schema (list_entry_value snap seq rows m) (write_list_entry snap seq rows m).
Proof.
  destruct m as [[path len] content]. intros ??? [??]. unfold write_list_entry.
  autorewrite with encoders. rewrite <- !app_assoc. cbn [app]. decode_record.
Qed.

Lemma imap_Forall2 {A B C} (P : A → Prop) (R : B → C → Prop) (f : nat → A → B) (g : nat → A → C) l :
  Forall P l → (∀ i x, P x → R (f i x) (g i x)) → Forall2 R (imap f l) (imap g l).
Proof.
  intros Hl. revert f g. induction Hl as [|x l Hx _ IH]; intros f g HR; [constructor|].
  rewrite !imap_cons. constructor; [by apply HR|]. apply IH. intros i y. apply HR.
Qed.

Lemma omap_imap {A B C} (h : B → option C) (f : nat → A → B) (g : A → C) l :
  (∀ i x, h (f i x) = Some (g x)) → omap h (imap f l) = g <$> l.
Proof.
  revert f. induction l as [|x l IH]; intros f Hf; [done|].
  rewrite imap_cons, fmap_cons. cbn [omap list_omap]. rewrite Hf. f_equal. apply IH.
  intros i y. apply Hf.
Qed.

Lemma write_list_entry_not_nil snap seq rows m : write_list_entry snap seq rows m ≠ [].
Proof.
  destruct m as [[path len] content]. unfold write_list_entry. rewrite encode_empty_array_app.
  rewrite long_bytes_0. by intros [_ ?]%app_nil.
Qed.

(** What a snapshot's readers get from a manifest list: paths and contents. *)
Lemma read_written_list ms snap seq rows :
  let data := write_manifest_list_multi_typed ms snap seq rows in
  parse_schema MANIFEST_LIST_SCHEMA_STR = Some manifest_list_schema →
  fits_i64 snap → fits_i64 seq → fits_i64 rows → Forall list_entry_typed ms → Zlen data < 2 ^ 63 →
  read_manifest_list_typed data = Ok ((λ m, (m.1.1, m.2)) <$> ms).
Proof.
  cbv zeta. intros Hp Hsnap Hseq Hrows Hall Hlt.
  unfold read_manifest_list_typed, write_manifest_list_multi_typed.
  set (rows_of i := if decide ((i + 1)%nat = length ms) then rows else 0).
  assert (Hrows' : ∀ i, fits_i64 (rows_of i)) by (intros i; subst rows_of; cbn; case_decide; [done|by vm_compute]).
  rewrite (read_container list_entry_of_value manifest_list_schema _ _ _
    (imap (λ i m, list_entry_value snap seq (rows_of i) m) ms)); [|done| | |done].
  - f_equal. by apply omap_imap.
  - apply (imap_Forall2 list_entry_typed); [done|]. intros i m Hm.
    apply (decodes_list_entry snap seq (rows_of i)); [done|done|apply Hrows'|done].
  - apply Forall_lookup. intros i r. rewrite list_lookup_imap. destruct (ms !! i); [|done].
    intros [= <-]. apply write_list_entry_not_nil.
Qed.

(** A manifest list read back names the manifests it was written with, in
    order, each with its content (data or deletes). *)
Theorem manifest_list_roundtrip (ms : list (string * Z * Z)) (snap seq rows : Z) :
  let data := write_manifest_list_multi_typed ms snap seq rows in
  parse_schema MANIFEST_LIST_SCHEMA_STR = Some manifest_list_schema →
  fits_i64 snap → fits_i64 seq → fits_i64 rows → Forall list_entry_typed ms → Zlen data < 2 ^ 63 →
  read_manifest_list_typed data = Ok ((λ m, (m.1.1, m.2)) <$> ms).
Proof. apply read_written_list. Qed.

(** ** Equality-delete manifests *)

Definition delete_typed (d : EqualityDeleteFile) : Prop :=
  ed_equality_ids d ≠ [] ∧ Forall fits_i32 (ed_equality_ids d) ∧
  fits 64 (ed_record_count d) ∧ fits 64 (ed_file_size_bytes d).

Definition delete_back (sequence_number : Z) (d : EqualityDeleteFile) : EqualityDeleteFile :=
  mk_eqdel (ed_path d) (ed_equality_ids d) (ed_record_count d) (ed_file_size_bytes d) None
    sequence_number.

Definition delete_value (snapshot_id sequence_number : Z) (d : EqualityDeleteFile) : Value :=
  VRecord
    [("status", VInt 1); ("snapshot_id", VUnion 1 (VLong snapshot_id));
     ("sequence_number", VUnion 1 (VLong sequence_number));
     ("file_sequence_number", VUnion 1 (VLong sequence_number));
     ("data_file", VRecord
       [("content", VInt 2); ("file_path", VString (ed_path d)); ("file_format", VString "AVRO");
        ("partition", VRecord []);
        ("record_count", VLong (as_i64 (ed_record_count d)));
        ("file_size_in_bytes", VLong (as_i64 (ed_file_size_bytes d)));
        ("column_sizes", VUnion 0 VNull); ("value_counts", VUnion 0 VNull);
        ("null_value_counts", VUnion 0 VNull); ("nan_value_counts", VUnion 0 VNull);
        ("lower_bounds", VUnion 0 VNull); ("upper_bounds", VUnion 0 VNull);
        ("key_metadata", VUnion 0 VNull); ("split_offsets", VUnion 0 VNull);
        ("equality_ids", VUnion 1 (VArray (VInt <$> ed_equality_ids d)));
        ("sort_order_id", VUnion 0 VNull); ("first_row_id", VUnion 0 VNull)])].

Lemma decodes_ids ids :
  ids ≠ [] → Forall fits_i32 ids →
  decodes (nullable (SArray SInt)) (VUnion 1 (VArray (VInt <$> ids)))
    (some_bytes (long_bytes (Zlen ids) ++ mjoin (long_bytes <$> ids) ++ long_bytes 0)).
Proof.
  intros Hne Hall Hb.
  assert (Hn : (length ids ≤ length (mjoin (long_bytes <$> ids)))%nat).
  { rewrite <- (length_fmap long_bytes ids) at 1.
    apply length_mjoin_nonempty, Forall_fmap, Forall_true. apply long_bytes_not_nil. }
  assert (Hl : Zlen ids < 2 ^ 63) by (unfold some_bytes in Hb; rewrite !length_app in Hb; lia).
  revert Hb. rewrite <- (length_fmap VInt ids) in Hl |- *.
  apply decodes_some, decodes_array; [by destruct ids|done|].
  clear -Hall. induction Hall; constructor; [by apply decodes_int|done].
Qed.

Lemma decodes_delete snap seq d :
  fits_i64 snap → fits_i64 seq → delete_typed d →
  decodes (manifest_entry_schema None) (delete_value snap seq d) (write_delete_entry snap seq d).
Proof.
  intros Hsnap Hseq (Hne & Hids & Hrc & Hfs). unfold write_delete_entry.
  rewrite (foldl_append _ long_bytes) by done. autorewrite with encoders.
  assert (E : ∀ a b c d : bytes, (((a ++ long_bytes 1) ++ b) ++ c) ++ d = a ++ some_bytes (b ++ c ++ d))
    by (intros; unfold some_bytes; by rewrite <- !app_assoc).
  rewrite E. rewrite <- !app_assoc. cbn [app].
  set (ids := some_bytes (long_bytes (Zlen _) ++ _)).
  assert (Hd : decodes (nullable (SArray SInt)) (VUnion 1 (VArray (VInt <$> ed_equality_ids d))) ids)
    by by apply decodes_ids.
  clearbody ids.
  do 4 (apply decodes_cons; [decode_record|]). apply decodes_last.
  do 3 (apply decodes_cons; [decode_record|]).
  apply (decodes_cons "partition" _ _ []); [apply decodes_nil|].
  do 10 (apply decodes_cons; [decode_record|]). apply decodes_cons; [exact Hd|]. decode_record.
Qed.

Lemma delete_of_delete_value snap seq d :
  delete_typed d → delete_of_value (delete_value snap seq d) = Some (delete_back seq d).
Proof.
  intros (_ & _ & Hrc & Hfs). unfold delete_value, delete_of_value, delete_back.
  cbn [find_field String.eqb Ascii.eqb Bool.eqb mbind option_bind as_nullable_long as_int
       as_string as_long default fmap option_fmap option_map int_array].
  rewrite !as_u64_i64 by done. rewrite decide_False by (intros []; done). cbn.
  do 2 f_equal. induction (ed_equality_ids d); cbn; by f_equal.
Qed.

Lemma write_delete_entry_not_nil snap seq d : write_delete_entry snap seq d ≠ [].
Proof.
  unfold write_delete_entry. rewrite encode_union_null_app.
  rewrite long_bytes_0. by intros [_ ?]%app_nil.
Qed.

Lemma read_written_deletes ds snap seq :
  let data := write_equality_delete_manifest ds snap seq in
  parse_schema MANIFEST_ENTRY_SCHEMA_STR = Some (manifest_entry_schema None) →
  fits_i64 snap → fits_i64 seq → Forall delete_typed ds → Zlen data < 2 ^ 63 →
  read_equality_delete_manifest data = Ok (delete_back seq <$> ds).
Proof.
  cbv zeta. intros Hp Hsnap Hseq Hall Hlt.
  unfold read_equality_delete_manifest, write_equality_delete_manifest.
  erewrite (read_container delete_of_value _ _ _ _ (delete_value snap seq <$> ds)); [|done| | |done].
  - f_equal. clear -Hall. induction Hall as [|d ds Hd _ IH]; [done|]. rewrite !fmap_cons.
    cbn [omap list_omap]. rewrite delete_of_delete_value by done. by f_equal.
  - clear -Hall Hsnap Hseq. induction Hall; constructor; [by apply decodes_delete|done].
  - apply Forall_fmap, Forall_true. intros d. apply write_delete_entry_not_nil.
Qed.

(** An equality-delete manifest read back lists the delete files it was
    written from, in order, with their field ids and counts and the sequence
    number of the commit. *)
Theorem delete_manifest_roundtrip (ds : list EqualityDeleteFile) (snap seq : Z) :
  let data := write_equality_delete_manifest ds snap seq in
  parse_schema MANIFEST_ENTRY_SCHEMA_STR = Some (manifest_entry_schema None) →
  fits_i64 snap → fits_i64 seq → Forall delete_typed ds → Zlen data < 2 ^ 63 →
  read_equality_delete_manifest data = Ok (delete_back seq <$> ds).
Proof. apply read_written_deletes. Qed.

End Readers.
