(* ===== verification/ManifestExamples.v ===== *)
(** * Manifests on concrete inputs

    A small serializer to integer trees ([Tree]) gives JSON and Avro libraries that
    meet [SerdeLaws] and [AvroLaws]; the manifest theorems are applied with them. *)

From stdpp Require Import countable.
From S2P Require Import Prelude Core Avro Manifest ManifestTheorems.

(* ------------------------------------------------------------------ *)
(** ** Values as trees of integers                                     *)
(* ------------------------------------------------------------------ *)

Class Tree (A : Type) : Type := {
  to_tree : A → gen_tree Z;
  of_tree : gen_tree Z → option A;
  of_to_tree a : of_tree (to_tree a) = Some a;
}.

#[export] Instance tree_Z : Tree Z.
Proof.
  refine {| to_tree := GenLeaf; of_tree t := match t with GenLeaf z => Some z | _ => None end |}.
  done.
Defined.

#[export] Instance tree_list {A} `{Tree A} : Tree (list A).
Proof.
  refine {| to_tree l := GenNode 0 (to_tree <$> l);
            of_tree t := match t with GenNode _ ts => mapM of_tree ts | _ => None end |}.
  intros l. apply mapM_fmap_Some. apply of_to_tree.
Defined.

(** A type that embeds into one with a tree. *)
Definition tree_iso {A B} `{Tree B} (f : A → B) (g : B → option A) (Hgf : ∀ a, g (f a) = Some a) : Tree A.
Proof.
  refine {| to_tree a := to_tree (f a); of_tree t := b ← of_tree t; g b |}.
  intros a. rewrite of_to_tree. apply Hgf.
Defined.

#[export] Instance tree_prod {A B} `{Tree A} `{Tree B} : Tree (A * B).
Proof.
  refine {| to_tree ab := GenNode 1 [to_tree ab.1; to_tree ab.2];
            of_tree t := match t with
              | GenNode _ [a; b] => a ← of_tree a; b ← of_tree b; Some (a, b)
              | _ => None end |}.
  intros [a b]. cbn. by rewrite !of_to_tree.
Defined.

#[export] Instance tree_option {A} `{Tree A} : Tree (option A).
Proof.
  refine (tree_iso (λ o, match o with Some a => [a] | None => [] end)
    (λ l, match l with [] => Some None | a :: _ => Some (Some a) end) _).
  by intros [a|].
Defined.

#[export] Instance tree_string : Tree string.
Proof. refine (tree_iso as_bytes (λ b, Some (of_bytes b)) _). intros s. by rewrite of_as_bytes. Defined.

#[export] Instance tree_status : Tree IndexStatus.
Proof.
  refine (tree_iso (λ s, match s with Ready => 0 | Indexing => 1 | Failed => 2 end)
    (λ n, Some (if n =? 0 then Ready else if n =? 1 then Indexing else Failed)) _).
  by intros [].
Defined.

#[export] Instance tree_dv : Tree DeletionVector.
Proof.
  refine (tree_iso (λ d, (dv_path d, dv_offset d, dv_length d, dv_cardinality d))
    (λ '(p, o, l, c), Some (mk_dv p o l c)) _). by intros [].
Defined.

#[export] Instance tree_evi : Tree ExtraVectorIndex.
Proof.
  refine (tree_iso
    (λ e, (evi_column e, evi_dim e, evi_hnsw_offset e, evi_hnsw_len e, evi_centroid_b64 e, evi_radius e))
    (λ '(c, d, o, l, b, r), Some (mk_evi c d o l b r)) _). by intros [].
Defined.

#[export] Instance tree_ext : Tree AilakeEntryExt.
Proof.
  refine (tree_iso
    (λ e, ((ext_centroid_b64 e, ext_radius e, ext_hnsw_offset e, ext_hnsw_len e,
            ext_vector_column e, ext_vector_dim e, ext_extra_vector_indexes e),
           (ext_index_status e, ext_index_error e, ext_batch_id e, ext_embedding_model e,
            ext_partition_value e, ext_deletion_vector e, ext_first_row_id e)))
    (λ '((a, b, c, d, e, f, g), (h, i, j, k, l, m, n)), Some (mk_ext a b c d e f g h i j k l m n)) _).
  by intros [].
Defined.

(** Trees as byte strings, three cells per node. *)
Definition cell (c : nat * nat + Z) : bytes :=
  match c with inl (n, k) => [0; Z.of_nat n; Z.of_nat k] | inr z => [1; z; 0] end.
Fixpoint cells (fuel : nat) (b : bytes) : list (nat * nat + Z) :=
  match fuel, b with
  | S fuel, t :: x :: y :: b =>
      (if t =? 0 then inl (Z.to_nat x, Z.to_nat y) else inr x) :: cells fuel b
  | _, _ => []
  end.

(** Integers as text: a sign, the binary digits below the leading one, a comma. *)
Fixpoint pos_bits (p : positive) : bytes :=
  match p with xH => [] | xO p => 48 :: pos_bits p | xI p => 49 :: pos_bits p end.
Fixpoint bits_pos (b : bytes) : positive * bytes :=
  match b with
  | 48 :: b => let '(p, r) := bits_pos b in (xO p, r)
  | 49 :: b => let '(p, r) := bits_pos b in (xI p, r)
  | _ :: b => (xH, b)
  | [] => (xH, [])
  end.
Definition int_text (z : Z) : bytes :=
  match z with
  | Z0 => [44]
  | Zpos p => 43 :: pos_bits p ++ [44]
  | Zneg p => 45 :: pos_bits p ++ [44]
  end.
Fixpoint text_ints (fuel : nat) (b : bytes) : list Z :=
  match fuel, b with
  | S fuel, 44 :: b => 0 :: text_ints fuel b
  | S fuel, 43 :: b => let '(p, r) := bits_pos b in Zpos p :: text_ints fuel r
  | S fuel, 45 :: b => let '(p, r) := bits_pos b in Zneg p :: text_ints fuel r
  | _, _ => []
  end.

Lemma bits_pos_bits p r : bits_pos (pos_bits p ++ 44 :: r) = (p, r).
Proof. induction p as [p IH|p IH|]; cbn; rewrite ?IH; done. Qed.

Lemma text_ints_text l n : (length l ≤ n)%nat → text_ints n (mjoin (int_text <$> l)) = l.
Proof.
  revert n. induction l as [|z l IH]; intros n Hn; [by destruct n|].
  destruct n as [|n]; [cbn in Hn; lia|]. cbn [length] in Hn. rewrite fmap_cons, mjoin_cons.
  destruct z as [|p|p]; cbn [int_text app text_ints]; rewrite <- ?app_assoc; cbn [app];
    rewrite ?bits_pos_bits, IH by lia; done.
Qed.

Lemma int_text_nonempty z : int_text z ≠ [].
Proof. by destruct z. Qed.

Definition serialize {A} `{Tree A} (a : A) : bytes :=
  mjoin (int_text <$> mjoin (cell <$> gen_tree_to_list (to_tree a))).
Definition deserialize {A} `{Tree A} (b : bytes) : option A :=
  let b := text_ints (length b) b in
  t ← gen_tree_of_list [] (cells (length b) b); of_tree t.

Lemma cells_of_cells l n : (length l ≤ n)%nat → cells n (mjoin (cell <$> l)) = l.
Proof.
  revert n. induction l as [|c l IH]; intros n Hn.
  - by destruct n.
  - destruct n as [|n]; [cbn in Hn; lia|]. rewrite fmap_cons, mjoin_cons.
    cbn [length] in Hn. destruct c as [[p k]|z]; cbn; rewrite IH by lia; [|done].
    by rewrite !Nat2Z.id.
Qed.

Lemma length_le_mjoin {A B} (f : A → list B) l : (∀ x, f x ≠ []) → (length l ≤ length (mjoin (f <$> l)))%nat.
Proof.
  intros Hf. rewrite <- (length_fmap f l) at 1.
  apply length_mjoin_nonempty, Forall_fmap, Forall_true. done.
Qed.

Lemma deserialize_serialize {A} `{Tree A} (a : A) : deserialize (serialize a) = Some a.
Proof.
  unfold deserialize, serialize.
  rewrite text_ints_text by (apply length_le_mjoin, int_text_nonempty). cbv zeta.
  rewrite cells_of_cells by (apply length_le_mjoin; by intros [[]|]).
  rewrite <- (app_nil_r (gen_tree_to_list _)), gen_tree_of_to_list. cbn. apply of_to_tree.
Qed.

(** The text is ASCII. *)
Lemma serialize_ascii {A} `{Tree A} (a : A) : Forall (λ b, 0 ≤ b < 128) (serialize a).
Proof.
  unfold serialize. induction (mjoin (cell <$> _)) as [|z l IH]; [constructor|].
  rewrite fmap_cons, mjoin_cons. apply Forall_app. split; [|done].
  assert (Hp : ∀ p, Forall (λ b, 0 ≤ b < 128) (pos_bits p)) by (induction p; repeat constructor; try lia; done).
  destruct z; cbn; repeat constructor; try lia; apply Forall_app; (split; [apply Hp|repeat constructor; lia]).
Qed.

(* ------------------------------------------------------------------ *)
(** ** The libraries                                                   *)
(* ------------------------------------------------------------------ *)

#[export] Instance tree_serde : SerdeLib := {|
  ext_to_vec e := Ok (serialize e);
  ext_from_slice := deserialize;
  stats_from_str _ := Some [(1, mk_stats 3 0 24 (Some "AA") None)];
  base64_decode s := Some (as_bytes s);
  base64_encode := of_bytes;
|}.
#[export] Instance tree_serde_laws : SerdeLaws.
Proof.
  constructor.
  - intros e _. exists (serialize e). split; [done|]. apply deserialize_serialize.
  - intros s m [= <-]. repeat constructor; by vm_compute.
Qed.

(** A two-column partition spec. *)
Definition two_columns : PartitionSpec :=
  mk_pspec 1 [mk_pfield 1 1000 "tenant" "identity" "string"; mk_pfield 2 1001 "topic" "identity" "string"].

Definition known_schema (s : string) : option Schema :=
  if String.eqb s MANIFEST_LIST_SCHEMA_STR then Some manifest_list_schema
  else if String.eqb s MANIFEST_ENTRY_SCHEMA_STR then Some (manifest_entry_schema None)
  else if String.eqb s (build_manifest_entry_schema None) then Some (manifest_entry_schema None)
  else if String.eqb s (build_manifest_entry_schema (Some two_columns))
  then Some (manifest_entry_schema (Some two_columns))
  else None.

(** Records of one scalar field, for the files of delete values: a zero byte, then the
    fields as trees. *)
Definition scalar_code (v : Value) : option (Z * (Z * string)) :=
  match v with
  | VInt n => Some (0, (n, ""))
  | VLong n => Some (1, (n, ""))
  | VFloat n => Some (2, (n, ""))
  | VDouble n => Some (3, (n, ""))
  | VString s => Some (4, (0, s))
  | _ => None
  end.
Definition code_scalar (c : Z * (Z * string)) : Value :=
  let '(tag, (n, s)) := c in
  if tag =? 0 then VInt n else if tag =? 1 then VLong n else if tag =? 2 then VFloat n
  else if tag =? 3 then VDouble n else VString s.

Definition scalar_records_write (vs : list Value) : AilakeResult bytes :=
  match mapM (λ v, match v with
                   | VRecord [(col, v)] => c ← scalar_code v; Some (col, c)
                   | _ => None
                   end) vs with
  | Some cs => Ok (0 :: serialize (A := list (string * (Z * (Z * string)))) cs)
  | None => Err CatalogError
  end.
Definition scalar_records_read (b : bytes) : AilakeResult (list Value) :=
  match deserialize (A := list (string * (Z * (Z * string)))) b with
  | Some cs => Ok ((λ '(col, c), VRecord [(col, code_scalar c)]) <$> cs)
  | None => Err CatalogError
  end.

Definition container_reader (d : bytes) : AilakeResult (list Value) :=
  ok_or
    ('(es, blk) ← decode_container d;
     match es with
     | (k1, schema) :: (k2, codec) :: _ =>
         s ← known_schema (of_bytes schema); decode_block s blk
     | _ => None
     end) CatalogError.

Definition spec_reader (d : bytes) : AilakeResult (list Value) :=
  match d with
  | 0 :: b => scalar_records_read b
  | _ => container_reader d
  end.

#[export] Instance spec_avro : AvroLib := {| parse_schema := known_schema; avro_reader := spec_reader |}.
#[export] Instance spec_avro_laws : AvroLaws.
Proof.
  constructor. intros d schema extra blk s vs Hd Hs Hb. cbn [avro_reader parse_schema spec_avro] in *.
  assert (spec_reader d = container_reader d) as -> by (by destruct d as [|[] d]).
  unfold container_reader. rewrite Hd. cbn. rewrite of_as_bytes, Hs. cbn. by rewrite Hb.
Qed.

(* ------------------------------------------------------------------ *)
(** ** Witnesses                                                       *)
(* ------------------------------------------------------------------ *)

(** Closed goals by evaluation; the schema texts are compared first. *)
Ltac eval_done :=
  match goal with
  | |- Forall _ _ => fail 1
  | |- _ = _ => vm_compute; reflexivity
  | |- _ => by vm_compute
  end.

(** A file with statistics, a non-finite extra radius and a deletion vector. *)
Definition sample_file (path : string) (pv : option string) : DataFileEntry :=
  mk_file path 3 2048 (Some "AACAPw==") (Some 1065353216) (Some 512) (Some 900) (Some "embedding")
    (Some 2) [mk_evi "image" 2 1412 300 None (Some 2139095040)] Ready None (Some "batch-7")
    (Some "model@1") pv (Some (mk_dv "dv.puffin" 4 20 1)) (Some 40) (Some "{}") 0.

Lemma manifest_file_roundtrip_witness :
  let files := [sample_file "a.parquet" None; sample_file "b.parquet" (Some "t1")] in
  read_manifest_file (write_manifest_file files 77 5 "{}" "[]" 3 None)
  = Ok (read_back 5 None <$> files).
Proof.
  refine (manifest_file_roundtrip [sample_file "a.parquet" None; sample_file "b.parquet" (Some "t1")]
    77 5 3 "{}" "[]" None _ _ _ _ _);
    first [eval_done | repeat constructor; eval_done].
Defined.

Lemma manifest_list_roundtrip_witness :
  read_manifest_list_typed
    (write_manifest_list_multi_typed [("m0.avro", 900, 0); ("d0.avro", 80, 1)] 77 5 3)
  = Ok [("m0.avro", 0); ("d0.avro", 1)].
Proof.
  refine (manifest_list_roundtrip [("m0.avro", 900, 0); ("d0.avro", 80, 1)] 77 5 3 _ _ _ _ _ _);
    first [eval_done | repeat constructor; eval_done].
Defined.

Lemma delete_manifest_roundtrip_witness :
  read_equality_delete_manifest
    (write_equality_delete_manifest [mk_eqdel "d.avro" [3; 9] 2 64 (Some ("id", ["x"])) 0] 77 5)
  = Ok [mk_eqdel "d.avro" [3; 9] 2 64 None 5].
Proof.
  refine (delete_manifest_roundtrip [mk_eqdel "d.avro" [3; 9] 2 64 (Some ("id", ["x"])) 0] 77 5 _ _ _ _ _);
    first [eval_done | repeat constructor; eval_done].
Defined.

Lemma partition_position_lost_witness :
  read_manifest_file (write_manifest_file
      [sample_file "f" (Some (String unit_sep "a"))] 7 1 "{}" "[]" 2 (Some two_columns))
  = read_manifest_file (write_manifest_file
      [sample_file "f" (Some ("a" +:+ String unit_sep ""))] 7 1 "{}" "[]" 2 (Some two_columns)).
Proof.
  refine (partition_position_lost (sample_file "f" None) two_columns
    (mk_pfield 1 1000 "tenant" "identity" "string") (mk_pfield 2 1001 "topic" "identity" "string")
    "a" 7 1 2 "{}" "[]" _ _ _ _ _ _ _ _ _ _ _);
    first [eval_done | repeat constructor; eval_done].
Defined.
