(* ===== verification/Json.v ===== *)
(** * JSON values

    [serde_json::Value] as the catalog uses it: objects are maps in key order
    (the crate's default [BTreeMap]), [v[k]] is null when absent, [v[k] = x] creates
    the entry, and panics on a value that is neither an object nor null. *)

From S2P Require Import Prelude Core.

Inductive Json : Type :=
| JNull
| JBool (b : bool)
| JInt (n : Z)
| JDec (mantissa exponent : Z)
| JStr (s : string)
| JArr (l : list Json)
| JObj (fs : list (string * Json)).

(** [BTreeMap::get] and [BTreeMap::insert]. *)
Fixpoint obj_get (k : string) (fs : list (string * Json)) : option Json :=
  match fs with
  | [] => None
  | (k', v) :: fs => if String.eqb k k' then Some v else obj_get k fs
  end.
Fixpoint obj_insert (k : string) (v : Json) (fs : list (string * Json)) : list (string * Json) :=
  match fs with
  | [] => [(k, v)]
  | (k', v') :: rest =>
      if String.eqb k k' then (k, v) :: rest
      else if String.ltb k k' then (k, v) :: fs
      else (k', v') :: obj_insert k v rest
  end.

(** [json!({ … })]. *)
Definition json_object (fs : list (string * Json)) : Json :=
  JObj (foldl (λ acc kv, obj_insert kv.1 kv.2 acc) [] fs).

(** [Value::get], [v[k]] and [v[k] = x]; [None] is a panic. *)
Definition json_get (k : string) (v : Json) : option Json :=
  match v with JObj fs => obj_get k fs | _ => None end.
Definition json_index (k : string) (v : Json) : Json := default JNull (json_get k v).
Definition json_set (k : string) (x v : Json) : option Json :=
  match v with
  | JObj fs => Some (JObj (obj_insert k x fs))
  | JNull => Some (JObj [(k, x)])
  | _ => None
  end.

(** [as_str], [as_i64], [as_u64], [as_bool], [as_array], [is_null]. *)
Definition json_str (v : Json) : option string := match v with JStr s => Some s | _ => None end.
Definition json_i64 (v : Json) : option Z :=
  match v with JInt n => if decide (- 2 ^ 63 ≤ n < 2 ^ 63) then Some n else None | _ => None end.
Definition json_u64 (v : Json) : option Z :=
  match v with JInt n => if decide (0 ≤ n < 2 ^ 64) then Some n else None | _ => None end.
Definition json_bool (v : Json) : option bool := match v with JBool b => Some b | _ => None end.
Definition json_array (v : Json) : option (list Json) := match v with JArr l => Some l | _ => None end.
Definition json_is_null (v : Json) : bool := match v with JNull => true | _ => false end.

(** Keys in increasing order, in every object. *)
Fixpoint keys_sorted (ks : list string) : bool :=
  match ks with
  | k :: (k' :: _) as rest => String.ltb k k' && keys_sorted rest
  | _ => true
  end.
Fixpoint json_wf (v : Json) : bool :=
  match v with
  | JArr l => forallb json_wf l
  | JObj fs => keys_sorted (map fst fs) && forallb (λ kv, json_wf kv.2) fs
  | _ => true
  end.

(** [serde_json] at [Value]: printing and parsing. *)
Class JsonLib : Type := {
  json_to_string : Json → string;
  json_from_slice : bytes → option Json;
}.
Class JsonLaws `{JsonLib} : Prop := {
  json_roundtrip v : json_wf v = true → json_from_slice (as_bytes (json_to_string v)) = Some v;
}.

(** ** Lemmas *)

Lemma obj_get_insert k x fs : obj_get k (obj_insert k x fs) = Some x.
Proof.
  induction fs as [|[k' v'] fs IH]; cbn; [by rewrite String.eqb_refl|].
  destruct (String.eqb k k') eqn:E; cbn; [by rewrite String.eqb_refl|].
  destruct (String.ltb k k'); cbn; [by rewrite String.eqb_refl|]. by rewrite E.
Qed.

Lemma obj_get_insert_ne k k' x fs : k ≠ k' → obj_get k (obj_insert k' x fs) = obj_get k fs.
Proof.
  intros Hne. assert (E : String.eqb k k' = false) by by apply String.eqb_neq.
  induction fs as [|[k2 v2] fs IH]; cbn; [by rewrite E|].
  destruct (String.eqb_spec k' k2) as [<-|?]; cbn; [by rewrite E|].
  destruct (String.ltb k' k2); cbn; [by rewrite E|]. by rewrite IH.
Qed.

Lemma json_index_set k x v v' : json_set k x v = Some v' → json_index k v' = x.
Proof.
  unfold json_set, json_index, json_get. destruct v; intros [= <-]; cbn.
  - by rewrite String.eqb_refl.
  - by rewrite obj_get_insert.
Qed.

Lemma json_get_set_ne k k' x v v' :
  k ≠ k' → json_set k' x v = Some v' → json_get k v' = json_get k v.
Proof.
  unfold json_set, json_get. intros Hne. destruct v; intros [= <-]; cbn.
  - by rewrite (proj2 (String.eqb_neq k k')).
  - by apply obj_get_insert_ne.
Qed.

Lemma ltb_total k k' : String.eqb k k' = false → String.ltb k k' = false → String.ltb k' k = true.
Proof.
  unfold String.ltb. intros Hne. rewrite (String.compare_antisym k' k).
  destruct (String.compare k k') eqn:E; try done.
  apply String.compare_eq_iff in E. by rewrite E, String.eqb_refl in Hne.
Qed.

Lemma keys_sorted_cons k ks :
  keys_sorted (k :: ks) = (match ks with [] => true | k' :: _ => String.ltb k k' end && keys_sorted ks).
Proof. by destruct ks. Qed.

(** The first key of an insertion is the old first key or the new one. *)
Lemma obj_insert_sorted k x fs :
  keys_sorted (map fst fs) = true → keys_sorted (map fst (obj_insert k x fs)) = true.
Proof.
  induction fs as [|[k' v'] fs IH]; [done|]. cbn [map fst obj_insert]. rewrite keys_sorted_cons.
  intros [Hhd Htl]%andb_prop. destruct (String.eqb_spec k k') as [<-|Hne].
  { cbn [map fst]. rewrite keys_sorted_cons. by rewrite Hhd, Htl. }
  apply String.eqb_neq in Hne. destruct (String.ltb k k') eqn:Hlt; cbn [map fst].
  { rewrite !keys_sorted_cons. by rewrite Hlt, Hhd, Htl. }
  rewrite keys_sorted_cons, (IH Htl), andb_true_r. destruct fs as [|[k2 v2] fs]; cbn.
  - by apply ltb_total.
  - destruct (String.eqb_spec k k2) as [->|?]; [done|].
    destruct (String.ltb k k2); [by apply ltb_total|done].
Qed.

Lemma obj_insert_values k x fs :
  json_wf x = true → forallb (λ kv, json_wf kv.2) fs = true →
  forallb (λ kv, json_wf kv.2) (obj_insert k x fs) = true.
Proof.
  intros Hx. induction fs as [|[k' v'] fs IH]; cbn; [by rewrite Hx|].
  intros [Hv Hfs]%andb_prop. destruct (String.eqb k k'); [|destruct (String.ltb k k')]; cbn.
  - by rewrite Hx, Hfs.
  - by rewrite Hx, Hv, Hfs.
  - by rewrite Hv, IH.
Qed.

Lemma json_set_wf k x v v' :
  json_wf x = true → json_wf v = true → json_set k x v = Some v' → json_wf v' = true.
Proof.
  unfold json_set. intros Hx Hv. destruct v as [| | | | | |fs]; intros [= <-]; cbn.
  - by rewrite Hx.
  - cbn in Hv. apply andb_prop in Hv as [Hk Hvs].
    by rewrite obj_insert_sorted, obj_insert_values.
Qed.

Lemma json_object_wf fs : forallb (λ kv, json_wf kv.2) fs = true → json_wf (json_object fs) = true.
Proof.
  unfold json_object. intros Hfs. cbn.
  assert (Hgen : ∀ acc, keys_sorted (map fst acc) = true →
    forallb (λ kv, json_wf kv.2) acc = true →
    let r := foldl (λ acc kv, obj_insert kv.1 kv.2 acc) acc fs in
    keys_sorted (map fst r) = true ∧ forallb (λ kv, json_wf kv.2) r = true).
  { induction fs as [|[k v] fs IH]; intros acc H1 H2; [done|]. cbn in Hfs |- *.
    apply andb_prop in Hfs as [Hv Hfs]. apply IH; [done| |].
    - by apply obj_insert_sorted.
    - by apply obj_insert_values. }
  destruct (Hgen [] eq_refl eq_refl) as [-> ->]. done.
Qed.

Lemma obj_get_wf k fs x : forallb (λ kv, json_wf kv.2) fs = true → obj_get k fs = Some x → json_wf x = true.
Proof.
  induction fs as [|[k' v'] fs IH]; [done|]. cbn. intros [Hv Hfs]%andb_prop.
  destruct (String.eqb k k'); [by intros [= <-]|by apply IH].
Qed.

Lemma json_index_wf k v : json_wf v = true → json_wf (json_index k v) = true.
Proof.
  unfold json_index, json_get. destruct v as [| | | | | |fs]; try done. cbn.
  intros [_ Hfs]%andb_prop. destruct (obj_get k fs) eqn:E; [|done]. by eapply obj_get_wf.
Qed.

Lemma json_array_wf v l : json_wf v = true → json_array v = Some l → Forall (λ j, json_wf j = true) l.
Proof.
  destruct v; try done. cbn. intros Hl [= <-]. apply Forall_forall. intros x Hx.
  rewrite forallb_forall in Hl. apply Hl. by apply list_elem_of_In.
Qed.

Lemma json_arr_wf l : Forall (λ j, json_wf j = true) l → json_wf (JArr l) = true.
Proof. cbn. induction 1 as [|x l Hx _ IH]; cbn; [done|]. by rewrite Hx, IH. Qed.
