(* ===== verification/Puffin.v ===== *)
(** * Puffin statistics files

    Models [ailake-catalog/src/puffin.rs]: the writer that puts the vector
    statistics and the optional Bloom filters of a snapshot in one file with a JSON
    footer, and the reader that finds a blob through the footer.  [bincode] is a
    parameter. *)

From S2P Require Import Prelude Core Json.

Definition BLOB_TYPE_VECTOR_STATS : string := "ailake-vector-stats-v1".
Definition BLOB_TYPE_BM25_BLOOM : string := "ailake-bm25-bloom-v1".
Definition PUFFIN_MAGIC : bytes := as_bytes "PFAc".

Record VectorStatEntry : Type := mk_vstat {
  vs_path : string;
  vs_centroid : list f32bits;
  vs_radius : f32bits;
}.

Record BM25BloomEntry : Type := mk_bloom {
  be_path : string;
  be_bytes : bytes;
}.

Record PuffinStatsResult : Type := mk_puffin {
  pr_bytes : bytes;
  pr_footer_size : Z;
  pr_vector_stats_blob : Z * Z;
  pr_bm25_bloom_blob : option (Z * Z);
}.

(** [bincode] at the two blob types. *)
Class BincodeLib : Type := {
  stats_serialize : list VectorStatEntry → AilakeResult bytes;
  stats_deserialize : bytes → AilakeResult (list VectorStatEntry);
  blooms_serialize : list BM25BloomEntry → AilakeResult bytes;
  blooms_deserialize : bytes → AilakeResult (list BM25BloomEntry);
}.
Class BincodeLaws `{BincodeLib} : Prop := {
  stats_roundtrip l b : stats_serialize l = Ok b → stats_deserialize b = Ok l;
  blooms_roundtrip l b : blooms_serialize l = Ok b → blooms_deserialize b = Ok l;
}.

Section Puffin.
Context `{JsonLib} `{BincodeLib}.

Definition blob_json (type_ : string) (snap_id offset len : Z) : Json :=
  json_object [("type", JStr type_); ("snapshot-id", JInt snap_id); ("sequence-number", JInt 0);
               ("offset", JInt offset); ("length", JInt len); ("fields", JArr [])].

Definition footer_json (blobs : list Json) : Json :=
  json_object [("blobs", JArr blobs);
               ("properties", json_object [("ailake.stats-version", JStr "1")])].

Definition write_stats (vector_stats : list VectorStatEntry) (bm25_blooms : list BM25BloomEntry)
    (snap_id : Z) : AilakeResult PuffinStatsResult :=
  vec_blob ← stats_serialize vector_stats;
  bm25_blob ← match bm25_blooms with
              | [] => Ok None
              | _ => b ← blooms_serialize bm25_blooms; Ok (Some b)
              end;
  let vec_offset := Zlen PUFFIN_MAGIC in
  let vec_len := Zlen vec_blob in
  let bm25_offset := vec_offset + vec_len in
  let bm25_len := match bm25_blob with Some b => Zlen b | None => 0 end in
  let blobs_json :=
    blob_json BLOB_TYPE_VECTOR_STATS snap_id vec_offset vec_len ::
    match bm25_blob with
    | Some _ => [blob_json BLOB_TYPE_BM25_BLOOM snap_id bm25_offset bm25_len]
    | None => []
    end in
  let footer_bytes := as_bytes (json_to_string (footer_json blobs_json)) in
  let footer_size := Zlen footer_bytes in
  let out := PUFFIN_MAGIC ++ vec_blob ++ default [] bm25_blob ++ footer_bytes
             ++ to_le 4 (wrap 32 footer_size) ++ PUFFIN_MAGIC in
  Ok (mk_puffin out footer_size (vec_offset, vec_len)
        (match bm25_blob with Some _ => Some (bm25_offset, bm25_len) | None => None end)).

(** The footer; the subtraction and the slices panic out of range. *)
Definition footer (data : bytes) : outcome AilakeError Json :=
  let n := Zlen data in
  if n <? 12 then Ret (Err CatalogError)
  else
    len_bytes ← or_panic (slice data (n - 8) (n - 4));
    let footer_len := from_le len_bytes in
    footer_start ← or_panic (checked_sub (n - 8) footer_len);
    raw ← or_panic (slice data footer_start (footer_start + footer_len));
    Ret (ok_or (json_from_slice raw) CatalogError).

(** [offset + length] wraps around at 64 bits. *)
Definition blob_slice (data : bytes) (blob : Json) : outcome AilakeError bytes :=
  let offset := default 0 (json_u64 (json_index "offset" blob)) in
  let length := default 0 (json_u64 (json_index "length" blob)) in
  let end_ := wrap 64 (offset + length) in
  if Zlen data <? end_ then Ret (Err CatalogError)
  else or_panic (slice data offset end_).

Definition is_blob (type_ : string) (blob : Json) : bool :=
  match json_str (json_index "type" blob) with Some t => String.eqb t type_ | None => false end.

(** The first blob of the type, decoded; no such blob, no entries. *)
Definition read_blob {A} (decode : bytes → AilakeResult (list A)) (type_ : string) (data : bytes)
    : outcome AilakeError (list A) :=
  f ← footer data;
  match json_array (json_index "blobs" f) with
  | None => Ret (Ok [])
  | Some blobs =>
      match List.find (is_blob type_) blobs with
      | None => Ret (Ok [])
      | Some blob => s ← blob_slice data blob; Ret (decode s)
      end
  end.

Definition read_vector_stats (data : bytes) : outcome AilakeError (list VectorStatEntry) :=
  read_blob stats_deserialize BLOB_TYPE_VECTOR_STATS data.
Definition read_bm25_blooms (data : bytes) : outcome AilakeError (list BM25BloomEntry) :=
  read_blob blooms_deserialize BLOB_TYPE_BM25_BLOOM data.

End Puffin.

(** ** Theorems *)

Lemma slice_at {A} (buf pre mid post : list A) a b :
  buf = pre ++ mid ++ post → a = Zlen pre → b = Zlen pre + Zlen mid → slice buf a b = Some mid.
Proof. intros -> Ha Hb. by apply slice_mid. Qed.

Lemma Ok_inj {E A} (a b : A) : @Ok E A a = Ok b → a = b.
Proof. by intros [=]. Qed.

Section Theorems.
Context `{JsonLaws} `{BincodeLaws}.

Lemma footer_of_parts body ftr :
  json_wf ftr = true →
  let fb := as_bytes (json_to_string ftr) in
  Zlen fb < 2 ^ 32 →
  footer (PUFFIN_MAGIC ++ body ++ fb ++ to_le 4 (wrap 32 (Zlen fb)) ++ PUFFIN_MAGIC) = Ret (Ok ftr).
Proof.
  intros Hwf fb Hfb. unfold footer. set (len_bytes := to_le 4 _).
  set (data := PUFFIN_MAGIC ++ _).
  assert (Hl : Zlen len_bytes = 4) by (subst len_bytes; by rewrite to_le_length).
  assert (Hn : Zlen data = 12 + Zlen body + Zlen fb)
    by (subst data; rewrite !length_app; change (length PUFFIN_MAGIC) with 4%nat; lia).
  rewrite Hn. destruct (Z.ltb_spec (12 + Zlen body + Zlen fb) 12); [lia|].
  rewrite (slice_at data (PUFFIN_MAGIC ++ body ++ fb) len_bytes PUFFIN_MAGIC);
    [|subst data; by rewrite <- !app_assoc
     |rewrite !length_app; change (length PUFFIN_MAGIC) with 4%nat; lia..].
  cbn [or_panic mbind outcome_bind].
  assert (Hfl : from_le len_bytes = Zlen fb).
  { subst len_bytes. rewrite from_to_le by (apply wrap_fits; lia). apply wrap_id. unfold fits. lia. }
  rewrite Hfl. unfold checked_sub. rewrite decide_True by lia. cbn [or_panic mbind outcome_bind].
  rewrite (slice_at data (PUFFIN_MAGIC ++ body) fb (len_bytes ++ PUFFIN_MAGIC));
    [|subst data; by rewrite <- !app_assoc
     |rewrite !length_app; change (length PUFFIN_MAGIC) with 4%nat; lia..].
  cbn [or_panic mbind outcome_bind]. subst fb. by rewrite json_roundtrip.
Qed.

(** A blob described by the footer is the slice at its offset. *)
Lemma blob_slice_at data pre mid post type_ snap :
  data = pre ++ mid ++ post → Zlen data < 2 ^ 64 →
  blob_slice data (blob_json type_ snap (Zlen pre) (Zlen mid)) = Ret (Ok mid).
Proof.
  intros Hd Hlt. assert (Hle : Zlen pre + Zlen mid ≤ Zlen data) by (subst; len).
  unfold blob_slice.
  change (json_index "offset" (blob_json type_ snap (Zlen pre) (Zlen mid))) with (JInt (Zlen pre)).
  change (json_index "length" (blob_json type_ snap (Zlen pre) (Zlen mid))) with (JInt (Zlen mid)).
  unfold json_u64. rewrite !decide_True by lia. cbn [default]. unfold id.
  rewrite wrap_id by (unfold fits; lia). destruct (Z.ltb_spec (Zlen data) (Zlen pre + Zlen mid)); [lia|].
  by rewrite (slice_at data pre mid post).
Qed.

(** A statistics file read back gives the vector statistics it was written
    from, and the Bloom filters (none when there were none). *)
Theorem puffin_roundtrip (stats : list VectorStatEntry) (blooms : list BM25BloomEntry) (snap : Z)
    (r : PuffinStatsResult) :
  write_stats stats blooms snap = Ok r →
  pr_footer_size r < 2 ^ 32 → Zlen (pr_bytes r) < 2 ^ 64 →
  read_vector_stats (pr_bytes r) = Ret (Ok stats) ∧ read_bm25_blooms (pr_bytes r) = Ret (Ok blooms).
Proof.
  unfold write_stats. destruct (stats_serialize stats) as [vb|] eqn:Hvb; [|done].
  cbn [mbind result_bind].
  set (blob := match blooms with [] => _ | _ => _ end). destruct blob as [ob|] eqn:Hob; [|done].
  cbn [mbind result_bind]. intros E Hf Hd. apply Ok_inj in E. subst r. cbn [pr_footer_size pr_bytes] in Hf, Hd |- *.
  set (blobs := blob_json BLOB_TYPE_VECTOR_STATS _ _ _ :: _) in *.
  set (data := PUFFIN_MAGIC ++ vb ++ _) in *.
  assert (Hwf : json_wf (footer_json blobs) = true).
  { subst blobs. destruct ob; vm_compute; done. }
  assert (Hft : footer data = Ret (Ok (footer_json blobs))).
  { subst data. rewrite (app_assoc vb). by apply footer_of_parts. }
  assert (Hblobs : json_array (json_index "blobs" (footer_json blobs)) = Some blobs) by done.
  unfold read_vector_stats, read_bm25_blooms, read_blob. rewrite Hft.
  cbn [mbind outcome_bind]. rewrite Hblobs. subst blobs. clear Hblobs Hwf. split.
  - cbn [List.find]. change (is_blob BLOB_TYPE_VECTOR_STATS (blob_json BLOB_TYPE_VECTOR_STATS _ _ _)) with true.
    cbn match. rewrite (blob_slice_at data PUFFIN_MAGIC vb _ _ _ eq_refl) by done.
    cbn [mbind outcome_bind]. by rewrite (stats_roundtrip stats vb).
  - cbn [List.find]. change (is_blob BLOB_TYPE_BM25_BLOOM (blob_json BLOB_TYPE_VECTOR_STATS _ _ _)) with false.
    cbn match. subst blob. destruct blooms as [|b0 bs]; [injection Hob as <-; done|].
    destruct (blooms_serialize (b0 :: bs)) as [bb|] eqn:Hbb; [|done]. injection Hob as <-.
    cbn [List.find]. change (is_blob BLOB_TYPE_BM25_BLOOM (blob_json BLOB_TYPE_BM25_BLOOM _ _ _)) with true.
    cbn match. rewrite <- Nat2Z.inj_add, <- length_app.
    erewrite (blob_slice_at data (PUFFIN_MAGIC ++ vb) bb);
      [|subst data; rewrite <- app_assoc; reflexivity|done].
    cbn [mbind outcome_bind]. by rewrite (blooms_roundtrip (b0 :: bs) bb).
Qed.

(** A file of at least twelve bytes whose footer length exceeds the bytes
    before it makes both readers panic: the subtraction underflows. *)
Theorem puffin_footer_panics (data len_bytes : bytes) :
  12 ≤ Zlen data → slice data (Zlen data - 8) (Zlen data - 4) = Some len_bytes →
  Zlen data - 8 < from_le len_bytes →
  read_vector_stats data = Panic ∧ read_bm25_blooms data = Panic.
Proof.
  intros Hn Hs Hlt. assert (Hf : footer data = Panic).
  { unfold footer. destruct (Z.ltb_spec (Zlen data) 12); [lia|]. rewrite Hs.
    cbn [or_panic mbind outcome_bind]. unfold checked_sub. by rewrite decide_False by lia. }
  unfold read_vector_stats, read_bm25_blooms, read_blob. by rewrite Hf.
Qed.

End Theorems.
