(* ===== verification/Floats.v ===== *)
(** * Single-precision floats and distances

    [f32] values are bit patterns, as in the file format; arithmetic goes through the
    executable IEEE-754 semantics of [SpecFloat] at 24 bits of precision, so the
    distance functions of [ailake-vec/src/distance.rs] and the geometric pruner of
    [ailake-query/src/pruner.rs] can be evaluated.  Which kernel computes a distance
    (AVX, NEON or scalar) is decided at run time: the class [Kernels], with the scalar
    functions as its instance. *)

From Stdlib Require Import Floats.SpecFloat.
From S2P Require Import Prelude Core FileFormat Avro Manifest.

(* ------------------------------------------------------------------ *)
(** ** Bit patterns                                                    *)
(* ------------------------------------------------------------------ *)

Definition F32_ZERO : f32bits := 0.
Definition F32_NEG_ZERO : f32bits := 2147483648.
Definition F32_ONE : f32bits := 1065353216.
Definition F32_INFINITY : f32bits := 2139095040.
Definition F32_NEG_INFINITY : f32bits := 4286578688.
Definition F32_NAN : f32bits := 2143289344.

Definition f32_sign (b : f32bits) : bool := Z.testbit b 31.
(** Exponent and fraction. *)
Definition f32_magnitude (b : f32bits) : Z := Z.land b 2147483647.

Definition f32_of_bits (b : f32bits) : spec_float :=
  let e := Z.shiftr (f32_magnitude b) 23 in
  let frac := Z.land b 8388607 in
  if e =? 255 then if frac =? 0 then S754_infinity (f32_sign b) else S754_nan
  else if e =? 0 then
    match frac with
    | Z.pos m => S754_finite (f32_sign b) m (-149)
    | _ => S754_zero (f32_sign b)
    end
  else S754_finite (f32_sign b) (Z.to_pos (frac + 8388608)) (e - 150).

Definition bits_of_f32 (f : spec_float) : f32bits :=
  let s := λ b : bool, if b then 2147483648 else 0 in
  match f with
  | S754_nan => F32_NAN
  | S754_zero b => s b
  | S754_infinity b => s b + 2139095040
  | S754_finite b m e =>
      if Z.pos m <? 8388608 then s b + Z.pos m
      else s b + (e + 150) * 8388608 + (Z.pos m - 8388608)
  end.

Definition f32_op2 (op : spec_float → spec_float → spec_float) (a b : f32bits) : f32bits :=
  bits_of_f32 (op (f32_of_bits a) (f32_of_bits b)).
Definition f32_add : f32bits → f32bits → f32bits := f32_op2 (SFadd 24 128).
Definition f32_sub : f32bits → f32bits → f32bits := f32_op2 (SFsub 24 128).
Definition f32_mul : f32bits → f32bits → f32bits := f32_op2 (SFmul 24 128).
Definition f32_div : f32bits → f32bits → f32bits := f32_op2 (SFdiv 24 128).
Definition f32_sqrt (a : f32bits) : f32bits := bits_of_f32 (SFsqrt 24 128 (f32_of_bits a)).
Definition f32_neg (a : f32bits) : f32bits := Z.lxor a 2147483648.
Definition f32_abs (a : f32bits) : f32bits := f32_magnitude a.
(** [n as f32] of an unsigned integer. *)
Definition f32_of_int (n : Z) : f32bits := bits_of_f32 (binary_normalize 24 128 n 0 false).

(** [Sum for f32]: from negative zero. *)
Definition f32_sum (xs : list f32bits) : f32bits := foldl f32_add F32_NEG_ZERO xs.

(* ------------------------------------------------------------------ *)
(** ** Comparisons                                                     *)
(* ------------------------------------------------------------------ *)

Definition is_nan (b : f32bits) : bool := 2139095040 <? f32_magnitude b.

(** Magnitudes order like the values they stand for; the zeros are equal. *)
Definition f32_key (b : f32bits) : Z := if f32_sign b then - f32_magnitude b else f32_magnitude b.

Definition partial_cmp (a b : f32bits) : option comparison :=
  if is_nan a || is_nan b then None else Some (f32_key a ?= f32_key b).
Definition f32_lt (a b : f32bits) : bool := bool_decide (partial_cmp a b = Some Lt).
Definition f32_gt (a b : f32bits) : bool := bool_decide (partial_cmp a b = Some Gt).
Definition f32_le (a b : f32bits) : bool :=
  match partial_cmp a b with Some Lt | Some Eq => true | _ => false end.
Definition f32_eq (a b : f32bits) : bool := bool_decide (partial_cmp a b = Some Eq).

(** [f32::total_cmp]: as signed integers, the bits below the sign flipped in negative
    numbers. *)
Definition total_key (b : f32bits) : Z :=
  let left := signed 32 b in Z.lxor left (Z.shiftr (wrap 32 (Z.shiftr left 31)) 1).
Definition total_cmp (a b : f32bits) : comparison := total_key a ?= total_key b.

(** A NaN loses. *)
Definition f32_max (a b : f32bits) : f32bits :=
  if is_nan a then b else if is_nan b then a else if f32_lt a b then b else a.
Definition f32_min (a b : f32bits) : f32bits :=
  if is_nan a then b else if is_nan b then a else if f32_lt b a then b else a.

(* ------------------------------------------------------------------ *)
(** ** Distances                                                       *)
(* ------------------------------------------------------------------ *)

Definition dot_scalar (a b : vec32) : f32bits := f32_sum (zip_with f32_mul a b).

Definition euclidean_scalar (a b : vec32) : f32bits :=
  f32_sqrt (f32_sum (zip_with (λ x y, f32_mul (f32_sub x y) (f32_sub x y)) a b)).

Definition cosine_scalar (a b : vec32) : f32bits :=
  let dot := f32_sum (zip_with f32_mul a b) in
  let na := f32_sqrt (f32_sum ((λ x, f32_mul x x) <$> a)) in
  let nb := f32_sqrt (f32_sum ((λ x, f32_mul x x) <$> b)) in
  if f32_eq na F32_ZERO || f32_eq nb F32_ZERO then F32_ONE
  else f32_sub F32_ONE (f32_div dot (f32_mul na nb)).

Class Kernels : Type := {
  dot_kernel : vec32 → vec32 → f32bits;
  euclidean_kernel : vec32 → vec32 → f32bits;
  cosine_kernel : vec32 → vec32 → f32bits;
}.
Definition scalar_kernels : Kernels := {|
  dot_kernel := dot_scalar; euclidean_kernel := euclidean_scalar; cosine_kernel := cosine_scalar |}.

Section Distances.
Context `{Kernels}.

(** [assert_eq!] on the lengths: [None] is a panic. *)
Definition same_dim {A} (a b : vec32) (d : A) : option A :=
  if decide (length a = length b) then Some d else None.

Definition dot_product (a b : vec32) : option f32bits := same_dim a b (dot_kernel a b).
Definition euclidean_distance (a b : vec32) : option f32bits := same_dim a b (euclidean_kernel a b).
Definition cosine_distance (a b : vec32) : option f32bits := same_dim a b (cosine_kernel a b).
Definition normalized_cosine_distance (a b : vec32) : option f32bits :=
  f32_sub F32_ONE <$> dot_product a b.

Definition exact_distance (metric : VectorMetric) (a b : vec32) : option f32bits :=
  match metric with
  | Cosine => cosine_distance a b
  | Euclidean => euclidean_distance a b
  | DotProduct => f32_neg <$> dot_product a b
  | NormalizedCosine => normalized_cosine_distance a b
  end.

End Distances.

(** The writer takes these two as an interface; this is how they are computed. *)
Module Vec.
Section Centroids.
Context `{Kernels}.

(** [1e-12]. *)
Definition NORM_EPSILON : f32bits := 730643660.

Definition normalize_l2 (v : vec32) : vec32 :=
  let norm_sq := f32_sum ((λ x, f32_mul x x) <$> v) in
  if f32_lt norm_sq NORM_EPSILON then v
  else let inv := f32_div F32_ONE (f32_sqrt norm_sq) in (λ x, f32_mul x inv) <$> v.

(** [v[i]] of every vector; [None] when one is too short. *)
Definition column_sum (vs : list vec32) (i : nat) : option f32bits :=
  f32_sum <$> mapM (λ v : vec32, v !! i) vs.

Definition compute_centroid_and_radius (vectors : list vec32) (metric : VectorMetric)
    : option Centroid :=
  let finite := filter (λ v, forallb is_finite v = true) vectors in
  match finite with
  | [] => Some (mk_Centroid [] F32_ZERO metric)
  | v0 :: _ =>
      let n := f32_of_int (Zlen finite) in
      centroid ← mapM (λ i, (λ x, f32_div x n) <$> column_sum finite i) (seq 0 (length v0));
      ds ← mapM (exact_distance metric centroid) finite;
      Some (mk_Centroid centroid (foldl f32_max F32_ZERO (filter (λ d, is_finite d = true) ds)) metric)
  end.

End Centroids.
End Vec.

Section Pruner.
Context `{Kernels}.

(* ------------------------------------------------------------------ *)
(** ** The geometric pruner                                            *)
(* ------------------------------------------------------------------ *)

Context `{SerdeLib}.

Definition decode_centroid (entry : DataFileEntry) (metric : VectorMetric) : option Centroid :=
  b64 ← df_centroid_b64 entry;
  bs ← base64_decode b64;
  Some (mk_Centroid (decode_f32s (length bs / 4) bs) (default F32_ZERO (df_radius entry)) metric).

Definition compute_distance (a b : vec32) (metric : VectorMetric) : option f32bits :=
  match metric with
  | Cosine | NormalizedCosine => cosine_distance a b
  | Euclidean => euclidean_distance a b
  | DotProduct => f32_neg <$> dot_product a b
  end.

(** Whether the pruner keeps a file; the lengths are compared first, so no panic. *)
Definition prune_keeps (query : vec32) (metric : VectorMetric) (threshold : f32bits)
    (entry : DataFileEntry) : bool :=
  match decode_centroid entry metric with
  | Some centroid =>
      if decide (length (centroid_values centroid) = length query) then
        match compute_distance query (centroid_values centroid) metric with
        | Some dist => f32_le (f32_sub dist (centroid_radius centroid)) threshold
        | None => true
        end
      else true
  | None => true
  end.

Definition prune (files : list DataFileEntry) (query : vec32) (metric : VectorMetric)
    (threshold : f32bits) : list DataFileEntry :=
  filter (λ f, prune_keeps query metric threshold f = true) files.

End Pruner.

(* ------------------------------------------------------------------ *)
(** ** Orders                                                          *)
(* ------------------------------------------------------------------ *)

Lemma f32_le_spec a b : f32_le a b = true ↔ is_nan a = false ∧ is_nan b = false ∧ f32_key a ≤ f32_key b.
Proof.
  unfold f32_le, partial_cmp. destruct (is_nan a), (is_nan b); cbn; try naive_solver.
  destruct (Z.compare_spec (f32_key a) (f32_key b)); naive_solver lia.
Qed.

Lemma f32_lt_spec a b : f32_lt a b = true ↔ is_nan a = false ∧ is_nan b = false ∧ f32_key a < f32_key b.
Proof.
  unfold f32_lt. rewrite bool_decide_eq_true. unfold partial_cmp.
  destruct (is_nan a), (is_nan b); cbn; try naive_solver.
  destruct (Z.compare_spec (f32_key a) (f32_key b)); naive_solver lia.
Qed.

Lemma finite_not_nan x : is_finite x = true → is_nan x = false.
Proof.
  unfold is_finite, is_nan, f32_magnitude. rewrite negb_true_iff, Z.eqb_neq, Z.ltb_ge. intros Hf.
  change 2147483647 with (Z.ones 31). change (Z.land (Z.shiftr x 23) 255) with (Z.land (Z.shiftr x 23) (Z.ones 8)) in Hf. clear -Hf.
  rewrite Z.land_ones in Hf by lia. rewrite Z.land_ones by lia. rewrite Z.shiftr_div_pow2 in Hf by lia.
  change (2 ^ 23) with 8388608 in Hf. change (2 ^ 8) with 256 in Hf. change (2 ^ 31) with 2147483648.
  pose proof (Z.div_mod x 2147483648). pose proof (Z.mod_pos_bound x 2147483648).
  pose proof (Z.div_mod x 8388608). pose proof (Z.mod_pos_bound x 8388608).
  pose proof (Z.div_mod (x / 8388608) 256). pose proof (Z.mod_pos_bound (x / 8388608) 256). lia.
Qed.

(** The running maximum of numbers is at least each of them. *)
Lemma f32_max_fold x0 xs :
  is_nan x0 = false → Forall (λ x, is_nan x = false) xs →
  is_nan (foldl f32_max x0 xs) = false ∧ f32_key x0 ≤ f32_key (foldl f32_max x0 xs) ∧
  Forall (λ x, f32_key x ≤ f32_key (foldl f32_max x0 xs)) xs.
Proof.
  intros Hn Hall. revert x0 Hn. induction Hall as [|x xs Hx _ IH]; intros x0 Hn; cbn [foldl]; [done|].
  assert (Hm : is_nan (f32_max x0 x) = false ∧ f32_key x0 ≤ f32_key (f32_max x0 x) ∧
    f32_key x ≤ f32_key (f32_max x0 x)).
  { unfold f32_max. rewrite Hn, Hx. destruct (f32_lt x0 x) eqn:E.
    - apply f32_lt_spec in E as (_ & _ & E). split_and!; [done|lia|lia].
    - apply not_true_iff_false in E. rewrite f32_lt_spec in E. split_and!; [done|lia|].
      destruct (decide (f32_key x ≤ f32_key x0)); [done|]. destruct E. split_and!; [done..|lia]. }
  destruct Hm as (Hm & Hle & Hle'). destruct (IH _ Hm) as (Hr & Hr0 & Hrs).
  split_and!; [done|lia|]. constructor; [lia|done].
Qed.

Section Radius.
Context `{Kernels}.

(** The running maximum is the start or one of the values. *)
Lemma f32_max_fold_elem x0 xs :
  is_nan x0 = false → Forall (λ x, is_nan x = false) xs →
  foldl f32_max x0 xs = x0 ∨ foldl f32_max x0 xs ∈ xs.
Proof.
  intros Hn Hall. revert x0 Hn. induction Hall as [|x xs Hx _ IH]; intros x0 Hn; cbn [foldl]; [by left|].
  assert (Hm : f32_max x0 x = x0 ∨ f32_max x0 x = x) by (unfold f32_max; rewrite Hn, Hx; destruct (f32_lt x0 x); auto).
  destruct (IH (f32_max x0 x)) as [E|E]; [by destruct Hm as [-> | ->]| |right; by right].
  rewrite E. destruct Hm as [-> | ->]; [by left|right; by left].
Qed.

(** C34: the recorded radius bounds the vectors it was computed from.  A vector with a
    component that is not finite has no influence on the centroid and the radius; the
    radius is finite, and is zero or the distance of one of the finite vectors to the
    centroid; and no finite vector whose distance to the centroid is finite is farther
    from it than the radius.  (The vectors a file stores are these rounded to its
    precision, of which nothing is said.) *)
Theorem radius_covers (vectors : list vec32) (metric : VectorMetric) (c : Centroid) :
  let finite := filter (λ v, forallb is_finite v = true) vectors in
  let r := centroid_radius c in
  Vec.compute_centroid_and_radius vectors metric = Some c →
  Vec.compute_centroid_and_radius finite metric = Some c ∧ is_finite r = true ∧
  (r = F32_ZERO ∨ ∃ v, v ∈ finite ∧ exact_distance metric (centroid_values c) v = Some r) ∧
  ∀ v d, v ∈ finite → exact_distance metric (centroid_values c) v = Some d → is_finite d = true → f32_le d r = true.
Proof.
  cbv zeta. intros Hc. split.
  { revert Hc. unfold Vec.compute_centroid_and_radius.
    rewrite (filter_all (λ v, forallb is_finite v = true) (filter _ vectors)); [done|].
    by intros v [Hv _]%list_elem_of_filter. }
  revert Hc. unfold Vec.compute_centroid_and_radius. destruct (filter _ vectors) as [|v0 vs].
  { intros [= <-]. split; [done|]. split; [by left|]. by intros v d ?%elem_of_nil. }
  intros (centroid & _ & (ds & Eds & Hc)%bind_Some)%bind_Some. injection Hc as <-.
  cbn [centroid_values centroid_radius]. apply mapM_Some in Eds.
  assert (Hfin : Forall (λ x, is_finite x = true) (filter (λ d, is_finite d = true) ds))
    by (apply Forall_forall; by intros x [Hx _]%list_elem_of_filter).
  assert (Hnan : Forall (λ x, is_nan x = false) (filter (λ d, is_finite d = true) ds))
    by (eapply Forall_impl; [exact Hfin|]; apply finite_not_nan).
  destruct (f32_max_fold F32_ZERO _ eq_refl Hnan) as (Hn & _ & Hle).
  assert (Hone := f32_max_fold_elem F32_ZERO _ eq_refl Hnan). set (r := foldl f32_max _ _) in *. split; [|split].
  - destruct Hone as [-> |Hr]; [done|]. by apply (proj1 (Forall_forall _ _) Hfin).
  - destruct Hone as [?|Hr]; [by left|right]. apply list_elem_of_filter in Hr as [_ Hr].
    apply list_elem_of_lookup in Hr as [i Hi]. destruct (Forall2_lookup_r _ _ _ _ _ Eds Hi) as (v & Hv & E).
    exists v. split; [by eapply list_elem_of_lookup_2|done].
  - intros v d Hin Hd Hdf. apply f32_le_spec. split_and!; [by apply finite_not_nan|done|].
    apply (proj1 (Forall_forall _ _) Hle). apply list_elem_of_filter. split; [done|].
    apply list_elem_of_lookup in Hin as [i Hi].
    destruct (Forall2_lookup_l _ _ _ _ _ Eds Hi) as (d' & Hi' & E). rewrite Hd in E. injection E as ->.
    by eapply list_elem_of_lookup_2.
Qed.

End Radius.
