(* ===== verification/ColumnStats.v ===== *)
(** * Column statistics of written files

    [column_stats.rs]: counts and bounds of every column, gathered from the footer of a
    file just written and stored with its manifest entry, where query engines prune
    files by them.  Reading the footer and the JSON text are the libraries'. *)

From S2P Require Import Prelude Core Avro Manifest Floats.

#[local] Abbreviation i64 := as_i64.

(* ------------------------------------------------------------------ *)
(** ** What the parquet library reports                                *)
(* ------------------------------------------------------------------ *)

Inductive PhysicalType : Type :=
| BOOLEAN | INT32 | INT64 | INT96 | FLOAT | DOUBLE | BYTE_ARRAY | FIXED_LEN_BYTE_ARRAY.
#[global] Instance PhysicalType_eq_dec : EqDecision PhysicalType.
Proof. solve_decision. Defined.

Record Statistics : Type := mk_statistics {
  ps_physical_type : PhysicalType;
  ps_null_count_opt : option Z;
  ps_min_bytes_opt : option bytes;
  ps_max_bytes_opt : option bytes;
  ps_is_min_max_deprecated : bool;
}.
Record ColumnChunk : Type := mk_chunk_meta {
  cc_num_values : Z;
  cc_compressed_size : Z;
  cc_statistics : option Statistics;
}.

(** Leaf columns, and the chunks of every row group in their order; the library refuses
    a footer whose row groups have another number of chunks. *)
Record ParquetMeta : Type := mk_pmeta {
  pm_column_names : list string;
  pm_row_groups : list (list ColumnChunk);
}.

Class StatsLib : Type := {
  (** [ParquetMetaDataReader::new().parse_and_finish(..).ok()]. *)
  parquet_metadata : bytes → option ParquetMeta;
  (** [serde_json::to_string(&m).ok()]. *)
  stats_to_string : list (Z * FieldStats) → option string;
}.

(* ------------------------------------------------------------------ *)
(** ** Comparing and truncating bounds                                 *)
(* ------------------------------------------------------------------ *)

Definition BOUND_TRUNCATE_LEN : nat := 16.

(** [<[u8]>::cmp]. *)
Fixpoint bytes_cmp (a b : bytes) : comparison :=
  match a, b with
  | [], [] => Eq
  | [], _ :: _ => Lt
  | _ :: _, [] => Gt
  | x :: a, y :: b => match x ?= y with Eq => bytes_cmp a b | c => c end
  end.

(** [[u8; n]::try_from], then [from_le_bytes]. *)
Definition le_array (n : Z) (b : bytes) : option Z := if Zlen b =? n then Some (from_le b) else None.
Definition le_i32 (b : bytes) : option Z := signed 32 <$> le_array 4 b.
Definition le_i64 (b : bytes) : option Z := signed 64 <$> le_array 8 b.
Definition le_f32 (b : bytes) : option f32bits := le_array 4 b.
Definition le_f64 (b : bytes) : option Z := le_array 8 b.

(** [f64::total_cmp], as [Floats.total_cmp] on 64 bits. *)
Definition total_key64 (b : Z) : Z :=
  let left := signed 64 b in Z.lxor left (Z.shiftr (wrap 64 (Z.shiftr left 63)) 1).

Definition compare_keys (a b : option Z) : comparison :=
  match a, b with Some x, Some y => x ?= y | _, _ => Eq end.

(** [a.first().cmp(&b.first())]: nothing is less than something. *)
Definition first_cmp (a b : bytes) : comparison :=
  match head a, head b with
  | Some x, Some y => x ?= y
  | None, None => Eq
  | None, Some _ => Lt
  | Some _, None => Gt
  end.

Definition cmp_stat_bytes (ty : PhysicalType) (a b : bytes) : comparison :=
  match ty with
  | BOOLEAN => first_cmp a b
  | INT32 => compare_keys (le_i32 a) (le_i32 b)
  | INT64 => compare_keys (le_i64 a) (le_i64 b)
  | FLOAT => compare_keys (total_key <$> le_f32 a) (total_key <$> le_f32 b)
  | DOUBLE => compare_keys (total_key64 <$> le_f64 a) (total_key64 <$> le_f64 b)
  | BYTE_ARRAY | FIXED_LEN_BYTE_ARRAY => bytes_cmp a b
  | INT96 => Eq
  end.

Definition truncate_lower (b : bytes) : bytes :=
  if decide (length b ≤ BOUND_TRUNCATE_LEN)%nat then b else take BOUND_TRUNCATE_LEN b.

(** The loop of [truncate_upper]: the vector is popped and incremented at its end, so
    it is read backwards. *)
Fixpoint increment_last (reversed : bytes) : option bytes :=
  match reversed with
  | [] => None
  | x :: rest => if x <? 255 then Some (reverse (x + 1 :: rest)) else increment_last rest
  end.
Definition truncate_upper (b : bytes) : option bytes :=
  if decide (length b ≤ BOUND_TRUNCATE_LEN)%nat then Some b
  else increment_last (reverse (take BOUND_TRUNCATE_LEN b)).

(* ------------------------------------------------------------------ *)
(** ** Gathering                                                       *)
(* ------------------------------------------------------------------ *)

Record Accum : Type := mk_accum {
  ac_value_count : Z;
  ac_null_count : Z;
  ac_column_size : Z;
  ac_physical_type : option PhysicalType;
  ac_lower : option bytes;
  ac_upper : option bytes;
}.
Definition accum_default : Accum := mk_accum 0 0 0 None None None.

Definition keep_lower (ty : PhysicalType) (lower : option bytes) (min : bytes) : bytes :=
  match lower with
  | Some cur => if decide (cmp_stat_bytes ty cur min = Gt) then min else cur
  | None => min
  end.
Definition keep_upper (ty : PhysicalType) (upper : option bytes) (max : bytes) : bytes :=
  match upper with
  | Some cur => if decide (cmp_stat_bytes ty cur max = Lt) then max else cur
  | None => max
  end.

Definition merge_bounds (stats : Statistics) (min max : bytes) (entry : Accum) : Accum :=
  if ps_is_min_max_deprecated stats then entry
  else
    let ty := ps_physical_type stats in
    mk_accum (ac_value_count entry) (ac_null_count entry) (ac_column_size entry) (Some ty)
      (Some (keep_lower ty (ac_lower entry) min)) (Some (keep_upper ty (ac_upper entry) max)).

(** One chunk of a column ([+=] on [i64] wraps in a release build). *)
Definition add_chunk (col : ColumnChunk) (entry : Accum) : Accum :=
  let entry := mk_accum (i64 (ac_value_count entry + cc_num_values col)) (ac_null_count entry)
    (i64 (ac_column_size entry + cc_compressed_size col)) (ac_physical_type entry) (ac_lower entry) (ac_upper entry) in
  match cc_statistics col with
  | None => entry
  | Some stats =>
      let nulls := i64 (default 0 (ps_null_count_opt stats)) in
      let entry := mk_accum (ac_value_count entry) (i64 (ac_null_count entry + nulls)) (ac_column_size entry)
        (ac_physical_type entry) (ac_lower entry) (ac_upper entry) in
      match ps_min_bytes_opt stats, ps_max_bytes_opt stats with
      | Some min, Some max => merge_bounds stats min max entry
      | _, _ => entry
      end
  end.

(** [BTreeMap::entry(k).or_default()], updated: keys ascending. *)
Fixpoint or_default (k : Z) (f : Accum → Accum) (acc : list (Z * Accum)) : list (Z * Accum) :=
  match acc with
  | [] => [(k, f accum_default)]
  | (k', a) :: rest =>
      match k ?= k' with
      | Lt => (k, f accum_default) :: acc
      | Eq => (k', f a) :: rest
      | Gt => (k', a) :: or_default k f rest
      end
  end.

Definition field_id (idx : nat) : Z := signed 32 (wrap 32 (Z.of_nat idx + 1)).

(** The inner loop over a row group, from column [idx] on. *)
Fixpoint add_columns (skip_column_names names : list string) (idx : nat) (columns : list ColumnChunk)
    (acc : list (Z * Accum)) : list (Z * Accum) :=
  match names, columns with
  | name :: names, col :: columns =>
      add_columns skip_column_names names (S idx) columns
        (if bool_decide (name ∈ skip_column_names) then acc else or_default (field_id idx) (add_chunk col) acc)
  | _, _ => acc
  end.

Section Extract.
Context `{SerdeLib, StatsLib}.

Definition is_byte_array (ty : option PhysicalType) : bool :=
  bool_decide (ty = Some BYTE_ARRAY ∨ ty = Some FIXED_LEN_BYTE_ARRAY).

Definition finish (a : Accum) : FieldStats :=
  let bytes_of := is_byte_array (ac_physical_type a) in
  mk_stats (ac_value_count a) (ac_null_count a) (ac_column_size a)
    (base64_encode ∘ (λ raw, if bytes_of then truncate_lower raw else raw) <$> ac_lower a)
    (raw ← ac_upper a; base64_encode <$> (if bytes_of then truncate_upper raw else Some raw)).

Definition extract_column_stats (file_bytes : bytes) (skip_column_names : list string) : option (list (Z * FieldStats)) :=
  meta ← parquet_metadata file_bytes;
  let acc := foldl (λ acc rg, add_columns skip_column_names (pm_column_names meta) 0 rg acc) [] (pm_row_groups meta) in
  Some ((λ '(id, a), (id, finish a)) <$> acc).

(** [column_stats_json] of the writer, which compaction also computes in place. *)
Definition column_stats_json (file_bytes : bytes) (skip_columns : list string) : option string :=
  extract_column_stats file_bytes skip_columns ≫= stats_to_string.

End Extract.
