(* ===== verification/Ranking.v ===== *)
(** * Ranking

    Selection of the best results in [ailake-query/src/scanner.rs]: the two top-k
    routines, built on the standard library's unstable selection and sorting, and the
    brute-force search, whose work is split by the thread pool in a way the code does
    not control (an argument here).  The abstract side is [topk]: the [k] smallest
    keys, in order. *)

From S2P Require Import Prelude Core FileFormat Floats.

(* ------------------------------------------------------------------ *)
(** ** Sorting                                                         *)
(* ------------------------------------------------------------------ *)

(** The comparator orders these elements by an integer key. *)
Definition keyed {A} (cmp : A → A → comparison) (key : A → Z) (xs : list A) : Prop :=
  ∀ x y, x ∈ xs → y ∈ xs → cmp x y = (key x ?= key y).

Definition by_key {A} (key : A → Z) (x y : A) : Prop := key x ≤ key y.
#[global] Instance by_key_dec {A} (key : A → Z) x y : Decision (by_key key x y).
Proof. unfold by_key. apply _. Defined.
#[global] Instance by_key_trans {A} (key : A → Z) : Transitive (by_key key).
Proof. intros x y z. unfold by_key. lia. Qed.
#[global] Instance by_key_total {A} (key : A → Z) : Total (by_key key).
Proof. intros x y. unfold by_key. lia. Qed.

(** [slice::select_nth_unstable_by] and [slice::sort_unstable_by]. *)
Class UnstableSort : Type := {
  select_nth_unstable_by {A} : (A → A → comparison) → nat → list A → list A;
  sort_unstable_by {A} : (A → A → comparison) → list A → list A;
}.

(** Documented behaviour, for comparators that order the elements. *)
Class SortLaws `{UnstableSort} : Prop := {
  select_law {A} (cmp : A → A → comparison) key k xs : keyed cmp key xs → (k < length xs)%nat →
    select_nth_unstable_by cmp k xs ≡ₚ xs ∧
    ∀ x y, x ∈ take k (select_nth_unstable_by cmp k xs) → y ∈ drop k (select_nth_unstable_by cmp k xs) →
      key x ≤ key y;
  sort_law {A} (cmp : A → A → comparison) key xs : keyed cmp key xs →
    sort_unstable_by cmp xs ≡ₚ xs ∧ StronglySorted (by_key key) (sort_unstable_by cmp xs);
}.

(** [slice::sort_by]: stable. *)
Fixpoint insert_by {A} (cmp : A → A → comparison) (x : A) (ys : list A) : list A :=
  match ys with
  | [] => [x]
  | y :: ys => match cmp x y with Gt => y :: insert_by cmp x ys | _ => x :: y :: ys end
  end.
Definition sort_by {A} (cmp : A → A → comparison) (xs : list A) : list A :=
  foldr (insert_by cmp) [] xs.

(* ------------------------------------------------------------------ *)
(** ** Selection                                                       *)
(* ------------------------------------------------------------------ *)

Record SearchResult : Type := mk_result {
  sr_row_id : Z;
  sr_distance : f32bits;
  sr_file_path : string;
}.
#[global] Instance SearchResult_eq_dec : EqDecision SearchResult.
Proof. solve_decision. Defined.

(** A thread pool cuts the input and merges the pieces. *)
Inductive Split : Type := Whole | Fork (mid : nat) (l r : Split).

Section Selection.
Context `{UnstableSort} `{Kernels}.

Definition select_top_k {A} (compare : A → A → comparison) (k : nat) (results : list A) : list A :=
  let results := if decide (k < length results)%nat
                 then take k (select_nth_unstable_by compare k results) else results in
  sort_unstable_by compare results.

Definition result_compare (a b : SearchResult) : comparison := total_cmp (sr_distance a) (sr_distance b).

Definition select_search_top_k (results : list SearchResult) (k : nat) : list SearchResult :=
  match k with O => [] | _ => select_top_k result_compare k results end.

(** [a.1.partial_cmp(&b.1).unwrap_or(Equal)]. *)
Definition distance_compare (a b : Z * f32bits) : comparison := default Eq (partial_cmp a.2 b.2).

Definition select_distance_top_k (results : list (Z * f32bits)) (k : nat) : list (Z * f32bits) :=
  select_top_k distance_compare k results.

Definition trim_search_top_k_buffer (results : list (Z * f32bits)) (k : nat) : list (Z * f32bits) :=
  let limit := Z.max (Z.min (Z.of_nat k * 2) (2 ^ 64 - 1)) (Z.min (Z.of_nat k + 1) (2 ^ 64 - 1)) in
  if decide (limit ≤ Zlen results) then select_distance_top_k results k else results.

(** [par_iter().fold(…).reduce(…)]: every piece is folded, then merged into the
    identity, then with its neighbour. *)
Fixpoint fold_reduce {A B} (fold : list A → B) (identity : B) (reduce : B → B → B) (s : Split)
    (xs : list A) : B :=
  match s with
  | Whole => reduce identity (fold xs)
  | Fork mid l r =>
      reduce (fold_reduce fold identity reduce l (take mid xs))
             (fold_reduce fold identity reduce r (drop mid xs))
  end.

(** [None] is the panic of a dimension mismatch. *)
Definition flat_search (split : Split) (raw : list vec32) (query : vec32) (top_k : nat)
    (metric : VectorMetric) : option (list (Z * f32bits)) :=
  match top_k with
  | O => Some []
  | _ =>
      ds ← mapM (exact_distance metric query) raw;
      let rows := zip (seqZ 0 (Zlen raw)) ds in
      let results := fold_reduce
        (foldl (λ best row, trim_search_top_k_buffer (best ++ [row]) top_k) []) []
        (λ left right, select_distance_top_k (left ++ right) top_k) split rows in
      Some (select_distance_top_k results top_k)
  end.

End Selection.

(* ------------------------------------------------------------------ *)
(** ** The best k                                                      *)
(* ------------------------------------------------------------------ *)

Section TopK.
Context {A : Type} (key : A → Z) (k : nat).
Implicit Types xs ys zs rest : list A.

(** How many of [ys] are no worse than [r]. *)
Definition better (ys : list A) (r : A) : nat := length (filter (λ y, key y ≤ key r) ys).

(** [ys] is part of [xs], and what was left out is beaten [k] times. *)
Definition covers (xs ys : list A) : Prop :=
  ∃ rest, xs ≡ₚ ys ++ rest ∧ Forall (λ r, (k ≤ better ys r)%nat) rest.

(** The [k] best of [xs], in order. *)
Definition topk (xs ys : list A) : Prop :=
  covers xs ys ∧ StronglySorted (by_key key) ys ∧ (length ys ≤ k)%nat.

Lemma better_app ys zs r : better (ys ++ zs) r = (better ys r + better zs r)%nat.
Proof. unfold better. by rewrite filter_app, length_app. Qed.

Lemma better_perm ys zs r : ys ≡ₚ zs → better ys r = better zs r.
Proof. intros Hp. unfold better. by rewrite Hp. Qed.

Lemma better_mono ys r r' : key r ≤ key r' → (better ys r ≤ better ys r')%nat.
Proof.
  intros Hle. unfold better. induction ys as [|y ys IH]; [done|].
  rewrite !filter_cons. repeat case_decide; cbn; lia.
Qed.

Lemma better_full ys r : Forall (λ y, key y ≤ key r) ys → better ys r = length ys.
Proof.
  unfold better. induction 1 as [|y ys Hy _ IH]; [done|]. rewrite filter_cons_True by done. cbn. by rewrite IH.
Qed.

Lemma better_all ys r : (length ys ≤ better ys r)%nat → Forall (λ y, key y ≤ key r) ys.
Proof.
  unfold better. induction ys as [|y ys IH]; [by constructor|]. rewrite filter_cons.
  pose proof (length_filter (λ y, key y ≤ key r) ys). case_decide; cbn; intros Hl; [|lia].
  constructor; [done|]. apply IH. lia.
Qed.

#[global] Instance covers_proper : Proper ((≡ₚ) ==> (≡ₚ) ==> iff) covers.
Proof.
  intros xs xs' Hx ys ys' Hy. unfold covers. f_equiv. intros rest. rewrite Hx, Hy. f_equiv.
  apply Forall_proper; [|done]. intros r. by rewrite (better_perm _ _ r Hy).
Qed.

Lemma covers_refl xs : covers xs xs.
Proof. exists []. by rewrite app_nil_r. Qed.

Lemma covers_trans xs ys zs : covers xs ys → covers ys zs → covers xs zs.
Proof.
  intros (r1 & Hp1 & Hb1) (r2 & Hp2 & Hb2). exists (r2 ++ r1). split; [by rewrite app_assoc, <- Hp2|].
  apply Forall_app. split; [done|]. eapply Forall_impl; [exact Hb1|]. intros r Hr.
  cbn beta in Hr. rewrite (better_perm _ _ r Hp2), better_app in Hr.
  destruct (filter (λ y, key y ≤ key r) r2) as [|x l] eqn:E.
  { unfold better in *. rewrite E in Hr. cbn in Hr. lia. }
  assert (Hx : x ∈ filter (λ y, key y ≤ key r) r2) by (rewrite E; by left).
  apply list_elem_of_filter in Hx as [Hle Hx].
  pose proof (proj1 (Forall_forall _ _) Hb2 x Hx) as Hk. cbn in Hk. pose proof (better_mono zs x r Hle). lia.
Qed.

Lemma covers_app xs ys xs' ys' : covers xs ys → covers xs' ys' → covers (xs ++ xs') (ys ++ ys').
Proof.
  intros (r & Hp & Hb) (r' & Hp' & Hb'). exists (r ++ r'). split; [rewrite Hp, Hp'; solve_Permutation|].
  apply Forall_app. split; (eapply Forall_impl; [eassumption|]); intros x Hx; cbn in *; rewrite better_app; lia.
Qed.

Lemma topk_covers xs ys zs : covers xs ys → topk ys zs → topk xs zs.
Proof. intros Hc (Hz & Hs & Hl). split; [by eapply covers_trans|done]. Qed.

Lemma covers_zero xs ys rest : k = O → xs ≡ₚ ys ++ rest → covers xs ys.
Proof. intros -> Hp. exists rest. split; [done|]. apply Forall_true. intros. lia. Qed.

(** The keys of the best [k] are the [k] smallest keys. *)
Lemma topk_keys xs ys : topk xs ys → key <$> ys = take k (merge_sort Z.le (key <$> xs)).
Proof.
  intros ((rest & Hp & Hb) & Hs & Hl).
  assert (Hsort : merge_sort Z.le (key <$> xs) = (key <$> ys) ++ merge_sort Z.le (key <$> rest)).
  { apply (StronglySorted_unique Z.le).
    - apply StronglySorted_merge_sort; apply _.
    - assert (Hall : Forall (λ r, Forall (λ y, key y ≤ key r) ys) rest).
      { eapply Forall_impl; [exact Hb|]. intros r Hr. apply better_all. cbn in Hr. lia. }
      assert (Hks : StronglySorted Z.le (key <$> ys)).
      { clear -Hs. induction Hs as [|y ys _ IH Hy]; [constructor|]. cbn. constructor; [done|].
        apply Forall_fmap. eapply Forall_impl; [exact Hy|]. done. }
      apply StronglySorted_app_2; [|done|].
      + intros a b Ha Hbb. rewrite (merge_sort_Permutation Z.le) in Hbb.
        apply list_elem_of_fmap in Ha as (y & -> & Hy). apply list_elem_of_fmap in Hbb as (r & -> & Hr).
        apply (proj1 (Forall_forall _ _) (proj1 (Forall_forall _ _) Hall r Hr) y Hy).
      + apply StronglySorted_merge_sort; apply _.
    - rewrite !(merge_sort_Permutation Z.le), <- fmap_app. by rewrite Hp. }
  rewrite Hsort. destruct (decide (rest = [])) as [->|Hne].
  - cbn. rewrite app_nil_r. rewrite take_ge; [done|]. by rewrite length_fmap.
  - assert (length ys = k) as Hk.
    { destruct rest as [|r rest]; [done|]. apply Forall_cons in Hb as [Hr _].
      pose proof (length_filter (λ y, key y ≤ key r) ys). unfold better in Hr. lia. }
    rewrite take_app_length'; [done|]. by rewrite length_fmap.
Qed.

End TopK.

(* ------------------------------------------------------------------ *)
(** ** The routines select the best k                                  *)
(* ------------------------------------------------------------------ *)

Lemma keyed_sub {A} (cmp : A → A → comparison) key xs ys :
  keyed cmp key xs → (∀ x, x ∈ ys → x ∈ xs) → keyed cmp key ys.
Proof. intros Hk Hsub x y Hx Hy. apply Hk; auto. Qed.

Section Routines.
Context `{SortLaws} `{Kernels}.

Lemma select_top_k_topk {A} (cmp : A → A → comparison) key k xs :
  keyed cmp key xs → topk key k xs (select_top_k cmp k xs).
Proof.
  intros Hk. unfold select_top_k.
  assert (Hcut : ∀ ys, (∀ x, x ∈ ys → x ∈ xs) → covers key k xs ys → (length ys ≤ k)%nat →
    topk key k xs (sort_unstable_by cmp ys)).
  { intros ys Hsub Hc Hl. destruct (sort_law cmp key ys (keyed_sub _ _ _ _ Hk Hsub)) as [Hp Hs].
    split; [by rewrite Hp|]. split; [done|]. by rewrite Hp. }
  case_decide as Hlt; [|apply Hcut; [done|apply covers_refl|lia]].
  destruct (select_law cmp key k xs Hk Hlt) as [Hp Hle]. set (ys := select_nth_unstable_by cmp k xs) in *.
  assert (Hlen : length ys = length xs) by by rewrite Hp.
  apply Hcut; [intros x Hx; rewrite <- Hp; by eapply subseteq_take| |rewrite length_take; lia].
  exists (drop k ys). split; [by rewrite take_drop|]. apply Forall_forall. intros r Hr.
  rewrite better_full; [rewrite length_take; lia|]. apply Forall_forall. intros x Hx. by apply Hle.
Qed.

Definition result_key (r : SearchResult) : Z := total_key (sr_distance r).

Lemma select_search_topk results k : topk result_key k results (select_search_top_k results k).
Proof.
  unfold select_search_top_k. destruct k as [|k].
  - split; [by apply (covers_zero _ _ _ [] results)|]. split; [constructor|done].
  - by apply select_top_k_topk.
Qed.

(** Rows whose distance is a number. *)
Definition row_key (row : Z * f32bits) : Z := f32_key row.2.
Definition numbers (rows : list (Z * f32bits)) : Prop := Forall (λ row, is_nan row.2 = false) rows.

Lemma distance_keyed rows : numbers rows → keyed distance_compare row_key rows.
Proof.
  intros Hn x y Hx Hy. unfold distance_compare, partial_cmp.
  by rewrite (proj1 (Forall_forall _ _) Hn x Hx), (proj1 (Forall_forall _ _) Hn y Hy).
Qed.

Lemma covers_numbers k xs ys : covers row_key k xs ys → numbers xs → numbers ys.
Proof. intros (rest & Hp & _). unfold numbers. rewrite Hp. by intros [? _]%Forall_app. Qed.

Lemma select_distance_topk k xs : numbers xs → topk row_key k xs (select_distance_top_k xs k).
Proof. intros Hn. by apply select_top_k_topk, distance_keyed. Qed.

Lemma trim_covers k xs : numbers xs → covers row_key k xs (trim_search_top_k_buffer xs k).
Proof.
  intros Hn. unfold trim_search_top_k_buffer. case_decide; [by apply select_distance_topk|apply covers_refl].
Qed.

Lemma chunk_covers k xs best :
  numbers (best ++ xs) →
  covers row_key k (best ++ xs) (foldl (λ best row, trim_search_top_k_buffer (best ++ [row]) k) best xs).
Proof.
  revert best. induction xs as [|x xs IH]; intros best Hn; cbn [foldl].
  - rewrite app_nil_r. apply covers_refl.
  - change (x :: xs) with ([x] ++ xs) in Hn |- *. rewrite app_assoc in Hn |- *.
    apply Forall_app in Hn as Hn'. destruct Hn' as [Hb Hxs].
    assert (Hc : covers row_key k (best ++ [x]) (trim_search_top_k_buffer (best ++ [x]) k)) by by apply trim_covers.
    eapply covers_trans; [|apply IH].
    + apply covers_app; [done|apply covers_refl].
    + apply Forall_app. split; [by eapply covers_numbers|done].
Qed.

(** Whatever the split. *)
Lemma fold_reduce_covers k split xs :
  numbers xs →
  covers row_key k xs (fold_reduce
    (foldl (λ best row, trim_search_top_k_buffer (best ++ [row]) k) []) []
    (λ left right, select_distance_top_k (left ++ right) k) split xs).
Proof.
  revert xs. induction split as [|mid l IHl r IHr]; intros xs Hn; cbn [fold_reduce].
  - pose proof (chunk_covers k xs [] Hn) as Hc. cbn [app] in Hc |- *.
    eapply covers_trans; [exact Hc|]. by apply select_distance_topk, (covers_numbers k xs).
  - rewrite <- (take_drop mid xs) in Hn. apply Forall_app in Hn as [Ht Hd].
    pose proof (covers_app row_key k _ _ _ _ (IHl _ Ht) (IHr _ Hd)) as Hc. rewrite take_drop in Hc.
    eapply covers_trans; [exact Hc|]. apply select_distance_topk.
    apply Forall_app. split; [apply (covers_numbers k (take mid xs))|apply (covers_numbers k (drop mid xs))]; auto.
Qed.

(** C18: the brute-force search is exact, however the thread pool splits it: when every
    vector has the query's dimension and no distance is a NaN it returns rows with
    their distances, and these are the [k] smallest of all distances, in order. *)
Theorem flat_search_exact split raw query k metric ds :
  mapM (exact_distance metric query) raw = Some ds → Forall (λ d, is_nan d = false) ds →
  ∃ res, flat_search split raw query k metric = Some res ∧
    (∃ rest, zip (seqZ 0 (Zlen raw)) ds ≡ₚ res ++ rest) ∧
    (λ row, f32_key row.2) <$> res = take k (merge_sort Z.le (f32_key <$> ds)).
Proof.
  intros Hds Hn. assert (Hlen : length ds = length raw) by (apply mapM_Some in Hds; symmetry; by eapply Forall2_length).
  set (rows := zip (seqZ 0 (Zlen raw)) ds).
  assert (Hsnd : rows.*2 = ds) by (apply snd_zip; rewrite length_seqZ; lia).
  assert (Hrows : numbers rows) by (unfold numbers; rewrite <- Hsnd, Forall_fmap in Hn; exact Hn).
  assert (Hout : ∀ res, topk row_key k rows res →
    (∃ rest, rows ≡ₚ res ++ rest) ∧ (λ row, f32_key row.2) <$> res = take k (merge_sort Z.le (f32_key <$> ds))).
  { intros res Ht. split; [destruct Ht as ((rest & Hp & _) & _); eauto|].
    rewrite <- Hsnd, <- list_fmap_compose. by apply topk_keys in Ht. }
  unfold flat_search. destruct k as [|k].
  - eexists. split; [done|]. apply Hout. split; [by apply (covers_zero _ _ _ [] rows)|]. split; [constructor|done].
  - rewrite Hds. cbn [mbind option_bind]. eexists. split; [done|]. apply Hout. fold rows.
    pose proof (fold_reduce_covers (Datatypes.S k) split rows Hrows) as Hc.
    eapply topk_covers; [exact Hc|]. apply select_distance_topk. by eapply covers_numbers.
Qed.

End Routines.

(* ------------------------------------------------------------------ *)
(** ** The stable sort                                                 *)
(* ------------------------------------------------------------------ *)

Lemma insert_by_perm {A} (cmp : A → A → comparison) x ys : insert_by cmp x ys ≡ₚ x :: ys.
Proof.
  induction ys as [|y ys IH]; [done|]. cbn. destruct (cmp x y); [done|done|]. rewrite IH. apply Permutation_swap.
Qed.

Lemma sort_by_perm {A} (cmp : A → A → comparison) xs : sort_by cmp xs ≡ₚ xs.
Proof. induction xs as [|x xs IH]; [done|]. cbn. by rewrite insert_by_perm, IH. Qed.

Lemma insert_by_sorted {A} (cmp : A → A → comparison) key x ys :
  keyed cmp key (x :: ys) → StronglySorted (by_key key) ys → StronglySorted (by_key key) (insert_by cmp x ys).
Proof.
  intros Hk Hs. induction Hs as [|y ys Hs IH Hy]; cbn; [by repeat constructor|].
  assert (Hxy : cmp x y = (key x ?= key y)) by (apply Hk; [by left|right; by left]).
  assert (IH' : StronglySorted (by_key key) (insert_by cmp x ys)).
  { apply IH. intros a b Ha Hb. apply Hk; rewrite elem_of_cons in *; rewrite elem_of_cons; tauto. }
  destruct (cmp x y) eqn:E; symmetry in Hxy.
  - apply Z.compare_eq in Hxy. repeat (constructor; [done || (unfold by_key; lia)|] || constructor; try done).
    eapply Forall_impl; [exact Hy|]. intros z Hz. unfold by_key in *. lia.
  - rewrite Z.compare_lt_iff in Hxy. repeat (constructor; [done || (unfold by_key; lia)|] || constructor; try done).
    eapply Forall_impl; [exact Hy|]. intros z Hz. unfold by_key in *. lia.
  - apply Z.compare_gt_iff in Hxy. constructor; [done|]. rewrite insert_by_perm. constructor; [unfold by_key; lia|done].
Qed.

Lemma sort_by_sorted {A} (cmp : A → A → comparison) key xs :
  keyed cmp key xs → StronglySorted (by_key key) (sort_by cmp xs).
Proof.
  induction xs as [|x xs IH]; intros Hk; [constructor|].
  change (sort_by cmp (x :: xs)) with (insert_by cmp x (sort_by cmp xs)). apply insert_by_sorted.
  - eapply keyed_sub; [exact Hk|]. intros y. rewrite !elem_of_cons, sort_by_perm. done.
  - apply IH. eapply keyed_sub; [exact Hk|]. intros y. rewrite elem_of_cons. tauto.
Qed.

(** In a sorted list, earlier keys are no larger. *)
Lemma sorted_lookup {A} (key : A → Z) xs i j x y :
  StronglySorted (by_key key) xs → (i < j)%nat → xs !! i = Some x → xs !! j = Some y → key x ≤ key y.
Proof.
  intros Hs. revert i j. induction Hs as [|z xs Hs IH Hz]; intros i j Hij Hi Hj; [done|].
  destruct j as [|j]; [lia|]. destruct i as [|i].
  - injection Hi as ->. rewrite Forall_forall in Hz. apply (Hz y). by eapply list_elem_of_lookup_2.
  - eapply (IH i j); [lia|done|done].
Qed.
