(* ===== verification/Bloom.v ===== *)
(** * Bloom filters for term pruning

    Models [ailake-query/src/bloom.rs], the tokenizer of [bm25.rs], the filter a
    writer builds for a file ([writer.rs::build_bloom_for_file]) and the pruning of
    files by query terms ([pruner.rs::BloomPruner], with the map built by
    [scanner.rs::load_bloom_map]).  An index out of range and a remainder by zero are
    panics, the value [None].  The size in bits comes from floating-point arithmetic
    on the capacity and is an argument; Unicode splitting and lower-casing are the
    interface [TextLib]. *)

From S2P Require Import Prelude Core Manifest Puffin.

Definition BLOOM_K : nat := 4.

Definition FNV_PRIME : Z := 0x00000100000001B3.
Definition FNV_OFFSET : Z := 0xcbf29ce484222325.

Definition fnv64a (data : bytes) (seed : Z) : Z :=
  foldl (λ h b, wrap 64 (Z.lxor h b * FNV_PRIME)) (Z.lxor FNV_OFFSET seed) data.

Record BloomFilter : Type := mk_bf { bf_bits : list Z; bf_num_bits : Z }.

(** [bits] is [bits_f.ceil() as usize]. *)
Definition bloom_with_capacity (bits : Z) : BloomFilter :=
  let num_bits := Z.max bits 64 in
  let num_bits := Z.ldiff (wrap 64 (num_bits + 63)) 63 in
  mk_bf (replicate (Z.to_nat (num_bits / 64)) 0) num_bits.

Definition probe (bf : BloomFilter) (term : bytes) (i : nat) : Z :=
  let h1 := fnv64a term 0 in
  let h2 := fnv64a term FNV_OFFSET in
  wrap 64 (h1 + wrap 64 (Z.of_nat i * h2)) `mod` bf_num_bits bf.

Definition probes (bf : BloomFilter) (term : bytes) : option (list Z) :=
  if decide (bf_num_bits bf = 0) then None else Some (probe bf term <$> seq 0 BLOOM_K).

Definition set_bit (bits : list Z) (pos : Z) : option (list Z) :=
  w ← bits !! Z.to_nat (pos / 64);
  Some (<[Z.to_nat (pos / 64) := Z.lor w (Z.shiftl 1 (pos `mod` 64))]> bits).

Fixpoint set_bits (bits : list Z) (ps : list Z) : option (list Z) :=
  match ps with
  | [] => Some bits
  | pos :: ps => bits ← set_bit bits pos; set_bits bits ps
  end.

Definition bloom_insert (bf : BloomFilter) (term : string) : option BloomFilter :=
  ps ← probes bf (as_bytes term);
  bits ← set_bits (bf_bits bf) ps;
  Some (mk_bf bits (bf_num_bits bf)).

Fixpoint all_set (bits : list Z) (ps : list Z) : option bool :=
  match ps with
  | [] => Some true
  | pos :: ps =>
      w ← bits !! Z.to_nat (pos / 64);
      if Z.land w (Z.shiftl 1 (pos `mod` 64)) =? 0 then Some false else all_set bits ps
  end.

Definition may_contain (bf : BloomFilter) (term : string) : option bool :=
  ps ← probes bf (as_bytes term); all_set (bf_bits bf) ps.

Definition bloom_to_bytes (bf : BloomFilter) : bytes :=
  to_le 8 (wrap 64 (bf_num_bits bf)) ++ mjoin (to_le 8 <$> bf_bits bf).

(** The first [n] words of [n * 8] bytes. *)
Fixpoint words (n : nat) (bs : bytes) : list Z :=
  match n with O => [] | S n => from_le (take 8 bs) :: words n (drop 8 bs) end.

Definition bloom_from_bytes (bs : bytes) : option BloomFilter :=
  if decide (Zlen bs < 8) then None
  else
    let num_bits := from_le (take 8 bs) in
    if decide (num_bits = 0 ∨ num_bits `mod` 64 ≠ 0) then None
    else
      let word_count := num_bits / 64 in
      if decide (Zlen bs < 8 + word_count * 8) then None
      else Some (mk_bf (words (Z.to_nat word_count) (drop 8 bs)) num_bits).

(* ------------------------------------------------------------------ *)
(** ** Terms                                                           *)
(* ------------------------------------------------------------------ *)

(** [text.split(|c| !c.is_alphanumeric())] and [str::to_lowercase]. *)
Class TextLib : Type := {
  split_terms : string → list string;
  to_lowercase : string → string;
}.

Definition MIN_TERM_LEN : nat := 2.

Section Terms.
Context `{TextLib}.

Definition tokenize (text : string) : list string :=
  to_lowercase <$> filter (λ t, (MIN_TERM_LEN ≤ String.length t)%nat) (split_terms text).

Fixpoint insert_all (bf : BloomFilter) (terms : list string) : option BloomFilter :=
  match terms with
  | [] => Some bf
  | t :: ts => bf ← bloom_insert bf t; insert_all bf ts
  end.

(** The filter of a file: the terms of every valid cell of its text column. *)
Definition build_bloom_for_file (bits : Z) (cells : list (option string)) : option bytes :=
  bf ← insert_all (bloom_with_capacity bits)
         (cells ≫= λ c, match c with Some text => tokenize text | None => [] end);
  Some (bloom_to_bytes bf).

(** The map a scan builds from the statistics file: the last entry of a path wins. *)
Definition bloom_map_of (entries : list BM25BloomEntry) : gmap string BloomFilter :=
  foldl (λ m e, match bloom_from_bytes (be_bytes e) with
                | Some bf => <[be_path e := bf]> m
                | None => m
                end) ∅ entries.

(** [query_terms.iter().any(|t| bloom.may_contain(t))]. *)
Fixpoint any_term (bf : BloomFilter) (terms : list string) : option bool :=
  match terms with
  | [] => Some false
  | t :: ts => b ← may_contain bf t; if (b : bool) then Some true else any_term bf ts
  end.

Fixpoint filter_opt {A} (p : A → option bool) (l : list A) : option (list A) :=
  match l with
  | [] => Some []
  | a :: l => keep ← p a; l ← filter_opt p l; Some (if (keep : bool) then a :: l else l)
  end.

Definition bloom_prune (files : list DataFileEntry) (query_text : string)
    (bloom_map : gmap string BloomFilter) : option (list DataFileEntry) :=
  let query_terms := tokenize query_text in
  if bool_decide (query_terms = []) || bool_decide (bloom_map = ∅) then Some files
  else
    filter_opt (λ entry, match bloom_map !! df_path entry with
                         | Some bloom => any_term bloom query_terms
                         | None => Some true
                         end) files.

End Terms.

(* ------------------------------------------------------------------ *)
(** ** Bits                                                            *)
(* ------------------------------------------------------------------ *)

Definition bit_at (bits : list Z) (pos : Z) : bool :=
  match bits !! Z.to_nat (pos / 64) with
  | Some w => Z.testbit w (pos `mod` 64)
  | None => false
  end.

Definition in_bits (bits : list Z) (pos : Z) : Prop := 0 ≤ pos < 64 * Zlen bits.

Lemma in_bits_word bits pos : in_bits bits pos → is_Some (bits !! Z.to_nat (pos / 64)).
Proof.
  intros [??]. apply lookup_lt_is_Some_2. pose proof (Z.div_pos pos 64). 
  assert (pos / 64 < Zlen bits) by (apply Z.div_lt_upper_bound; lia). lia.
Qed.

Lemma land_bit w k : 0 ≤ k → (Z.land w (Z.shiftl 1 k) =? 0) = negb (Z.testbit w k).
Proof.
  intros Hk. rewrite Z.shiftl_1_l. destruct (Z.testbit w k) eqn:Hb; cbn [negb].
  - apply Z.eqb_neq. intros E.
    assert (Z.testbit (Z.land w (2 ^ k)) k = true) as Ht; [|by rewrite E, Z.bits_0 in Ht].
    by rewrite Z.land_spec, Hb, Z.pow2_bits_true.
  - apply Z.eqb_eq, Z.bits_inj'. intros n Hn. rewrite Z.land_spec, Z.bits_0.
    destruct (decide (n = k)) as [->|]; [by rewrite Hb|].
    rewrite Z.pow2_bits_false by lia. by rewrite andb_false_r.
Qed.

Lemma all_set_spec bits ps :
  Forall (in_bits bits) ps → all_set bits ps = Some (forallb (bit_at bits) ps).
Proof.
  induction 1 as [|pos ps Hp _ IH]; cbn [all_set forallb]; [done|].
  destruct (in_bits_word _ _ Hp) as [w Hw]. rewrite Hw. cbn [mbind option_bind].
  rewrite land_bit by (apply Z.mod_pos_bound; lia). unfold bit_at at 1. rewrite Hw.
  by destruct (Z.testbit w _).
Qed.

Lemma set_bit_spec bits pos :
  in_bits bits pos → Forall (fits 64) bits →
  ∃ bits', set_bit bits pos = Some bits' ∧ length bits' = length bits ∧ Forall (fits 64) bits' ∧
    ∀ q, 0 ≤ q → bit_at bits' q = bit_at bits q || bool_decide (q = pos).
Proof.
  intros Hp Hfit. destruct (in_bits_word _ _ Hp) as [w Hw]. unfold set_bit. rewrite Hw.
  eexists. split; [done|]. destruct Hp as [Hp0 _].
  pose proof (Z.mod_pos_bound pos 64 ltac:(lia)) as Hk.
  split_and!.
  - apply length_insert.
  - apply Forall_insert; [done|]. rewrite Forall_lookup in Hfit. destruct (Hfit _ _ Hw) as [Hw0 Hw1].
    rewrite Z.shiftl_1_l. split; [apply Z.lor_nonneg; lia|].
    destruct (Z.eq_dec (Z.lor w (2 ^ (pos `mod` 64))) 0) as [->|Hne]; [lia|].
    apply Z.log2_lt_pow2; [pose proof (Z.lor_nonneg w (2 ^ (pos `mod` 64))); lia|].
    rewrite Z.log2_lor by lia. rewrite Z.log2_pow2 by lia.
    apply Z.max_lub_lt; [|lia]. destruct (Z.eq_dec w 0) as [->|]; [cbn; lia|].
    apply Z.log2_lt_pow2; lia.
  - intros q Hq. unfold bit_at.
    destruct (decide (Z.to_nat (q / 64) = Z.to_nat (pos / 64))) as [E|E].
    + rewrite E, list_lookup_insert_eq by (by eapply lookup_lt_Some). rewrite Hw.
      rewrite Z.shiftl_1_l, Z.lor_spec. f_equal. rewrite Z.pow2_bits_eqb by lia.
      apply Z2Nat.inj in E; [|apply Z.div_pos; lia..].
      rewrite Z.eqb_sym. destruct (Z.eqb_spec (q `mod` 64) (pos `mod` 64)) as [E2|E2].
      * rewrite bool_decide_eq_true_2; [done|].
        rewrite (Z.div_mod q 64), (Z.div_mod pos 64) by lia. lia.
      * rewrite bool_decide_eq_false_2; [done|]. congruence.
    + rewrite list_lookup_insert_ne by done. rewrite bool_decide_eq_false_2, orb_false_r; [done|].
      congruence.
Qed.

Lemma set_bits_spec ps bits :
  Forall (in_bits bits) ps → Forall (fits 64) bits →
  ∃ bits', set_bits bits ps = Some bits' ∧ length bits' = length bits ∧ Forall (fits 64) bits' ∧
    ∀ q, 0 ≤ q → bit_at bits' q = bit_at bits q || bool_decide (q ∈ ps).
Proof.
  revert bits. induction ps as [|pos ps IH]; intros bits Hin Hfit.
  { exists bits. split_and!; [done..|]. intros q _. by rewrite orb_false_r. }
  apply Forall_cons in Hin as [Hp Hin].
  destruct (set_bit_spec bits pos Hp Hfit) as (b1 & E1 & L1 & F1 & B1).
  destruct (IH b1) as (b2 & E2 & L2 & F2 & B2); [|done|].
  { eapply Forall_impl; [exact Hin|]. unfold in_bits. by rewrite L1. }
  exists b2. cbn [set_bits]. rewrite E1. cbn [mbind option_bind]. split_and!; [done|lia|done|].
  intros q Hq. rewrite B2, B1 by done. rewrite <- orb_assoc. f_equal.
  rewrite <- (bool_decide_or (q = pos)). apply bool_decide_ext. set_solver.
Qed.

(* ------------------------------------------------------------------ *)
(** ** Filters                                                         *)
(* ------------------------------------------------------------------ *)

(** A filter whose probes stay inside its words. *)
Definition bf_sized (bf : BloomFilter) : Prop :=
  0 < bf_num_bits bf ∧ bf_num_bits bf = 64 * Zlen (bf_bits bf).

Definition bf_wf (bf : BloomFilter) : Prop :=
  bf_sized bf ∧ bf_num_bits bf < 2 ^ 64 ∧ Forall (fits 64) (bf_bits bf).

Lemma probes_in_bits bf term :
  bf_sized bf → ∃ ps, probes bf term = Some ps ∧ Forall (in_bits (bf_bits bf)) ps ∧
    ∀ bf', bf_num_bits bf' = bf_num_bits bf → probes bf' term = Some ps.
Proof.
  intros [Hp Hn]. unfold probes. rewrite decide_False by lia. eexists. split; [done|]. split.
  - apply Forall_fmap, Forall_true. intros i. unfold compose, probe, in_bits. rewrite <- Hn.
    apply Z.mod_pos_bound. lia.
  - intros bf' E. rewrite E, decide_False by lia. f_equal. unfold probe. by rewrite E.
Qed.

(** The filter never loses a term: what it may contain, it may contain after an
    insertion, and the inserted term is one of them. *)
Lemma bloom_insert_spec bf term :
  bf_wf bf → ∃ bf', bloom_insert bf term = Some bf' ∧ bf_wf bf' ∧
    may_contain bf' term = Some true ∧
    ∀ t, may_contain bf t = Some true → may_contain bf' t = Some true.
Proof.
  intros (Hs & Hlt & Hfit). destruct (probes_in_bits bf (as_bytes term) Hs) as (ps & Hps & Hin & Hany).
  destruct (set_bits_spec ps (bf_bits bf) Hin Hfit) as (bits & Eb & Lb & Fb & Bb).
  exists (mk_bf bits (bf_num_bits bf)). unfold bloom_insert. rewrite Hps. cbn [mbind option_bind].
  rewrite Eb. split; [done|]. unfold bf_wf, bf_sized, may_contain. cbn [bf_bits bf_num_bits].
  destruct Hs as [Hs1 Hs2]. rewrite Lb. split; [done|].
  assert (Hsame : ∀ q, in_bits bits q ↔ in_bits (bf_bits bf) q) by (intros; unfold in_bits; by rewrite Lb).
  split.
  - rewrite (Hany (mk_bf bits (bf_num_bits bf)) eq_refl). cbn [mbind option_bind].
    rewrite all_set_spec by (eapply Forall_impl; [exact Hin|]; intros; by apply Hsame).
    f_equal. apply forallb_forall. intros q Hq%list_elem_of_In. rewrite Forall_forall in Hin.
    destruct (Hin q Hq) as [Hq0 _]. rewrite Bb, (bool_decide_eq_true_2 (q ∈ ps)) by done.
    by rewrite orb_true_r.
  - intros t. destruct (probes_in_bits bf (as_bytes t)) as (pt & Hpt & Hint & Hanyt); [done|].
    rewrite Hpt, (Hanyt (mk_bf bits (bf_num_bits bf)) eq_refl). cbn [mbind option_bind].
    rewrite (all_set_spec (bf_bits bf)) by done.
    rewrite (all_set_spec bits) by (eapply Forall_impl; [exact Hint|]; intros; by apply Hsame).
    intros [= Ht]. f_equal. rewrite forallb_forall in Ht |- *. intros q Hq.
    rewrite Forall_forall in Hint. destruct (Hint q) as [Hq0 _]; [by apply list_elem_of_In|].
    by rewrite Bb, Ht.
Qed.

Lemma insert_all_spec terms bf :
  bf_wf bf → ∃ bf', insert_all bf terms = Some bf' ∧ bf_wf bf' ∧
    (∀ t, t ∈ terms → may_contain bf' t = Some true) ∧
    ∀ t, may_contain bf t = Some true → may_contain bf' t = Some true.
Proof.
  revert bf. induction terms as [|t ts IH]; intros bf Hwf.
  { exists bf. split_and!; [done..|set_solver|done]. }
  destruct (bloom_insert_spec bf t Hwf) as (b1 & E1 & W1 & T1 & M1).
  destruct (IH b1 W1) as (b2 & E2 & W2 & T2 & M2). exists b2. cbn [insert_all].
  rewrite E1. cbn [mbind option_bind]. split_and!; [done|done| |auto].
  intros u [->|Hu]%elem_of_cons; auto.
Qed.

Lemma with_capacity_wf bits :
  0 ≤ bits → bits + 63 < 2 ^ 64 → bf_wf (bloom_with_capacity bits).
Proof.
  intros H0 H1. unfold bloom_with_capacity. set (n := Z.max bits 64 + 63).
  assert (Hn : 127 ≤ n < 2 ^ 64) by lia. rewrite wrap_id by (unfold fits; lia).
  assert (E : Z.ldiff n 63 = n / 64 * 64).
  { change 63 with (Z.ones 6). rewrite Z.ldiff_ones_r by lia.
    by rewrite Z.shiftl_mul_pow2, Z.shiftr_div_pow2 by lia. }
  rewrite E. pose proof (Z.div_mod n 64 ltac:(lia)). pose proof (Z.mod_pos_bound n 64 ltac:(lia)).
  unfold bf_wf, bf_sized. cbn [bf_bits bf_num_bits]. rewrite Z.div_mul by lia.
  rewrite length_replicate, Z2Nat.id by lia. split_and!; try lia.
  apply Forall_replicate. unfold fits. lia.
Qed.

Lemma words_roundtrip ws rest :
  Forall (fits 64) ws → words (length ws) (mjoin (to_le 8 <$> ws) ++ rest) = ws.
Proof.
  induction 1 as [|w ws Hw Hws IH]; [done|]. cbn [length words fmap list_fmap].
  rewrite mjoin_cons, <- app_assoc, take_app_length' by (by rewrite to_le_length).
  rewrite drop_app_length' by (by rewrite to_le_length). rewrite from_to_le by done.
  f_equal. exact IH.
Qed.

Lemma words_length n bs : length (words n bs) = n.
Proof. revert bs. induction n; intros; cbn; auto. Qed.

Lemma to_le_words_length (ws : list Z) : Zlen (mjoin (to_le 8 <$> ws)) = 8 * Zlen ws.
Proof.
  rewrite length_concat_sum. induction ws as [|w ws IH]; [done|].
  cbn [fmap list_fmap sum_by length]. rewrite to_le_length. lia.
Qed.

Lemma bloom_bytes_roundtrip bf : bf_wf bf → bloom_from_bytes (bloom_to_bytes bf) = Some bf.
Proof.
  destruct bf as [ws n]. intros ([Hp Hn] & Hlt & Hfit). cbn [bf_bits bf_num_bits] in *.
  unfold bloom_from_bytes, bloom_to_bytes. cbn [bf_bits bf_num_bits].
  rewrite wrap_id by (unfold fits; lia).
  rewrite take_app_length' by (by rewrite to_le_length).
  rewrite drop_app_length' by (by rewrite to_le_length).
  rewrite from_to_le by (unfold fits; lia).
  pose proof (to_le_words_length ws).
  assert (n / 64 = Zlen ws) as -> by (rewrite Hn, Z.mul_comm; apply Z.div_mul; lia).
  rewrite !decide_False; [|len|rewrite Hn, Z.mul_comm, Z.mod_mul; lia|len].
  by rewrite Nat2Z.id, <- (app_nil_r (mjoin _)), words_roundtrip.
Qed.

(** Whatever bytes a filter is read from, it is sized. *)
Lemma bloom_from_bytes_sized bs bf : bytes_ok bs → bloom_from_bytes bs = Some bf → bf_sized bf.
Proof.
  intros Hb. unfold bloom_from_bytes. case_decide; [done|]. case_decide as Hm; [done|].
  case_decide; [done|]. intros [= <-]. unfold bf_sized. cbn [bf_bits bf_num_bits].
  rewrite words_length.
  assert (fits (8 * Zlen (take 8 bs)) (from_le (take 8 bs))) as [Hge _]
    by (apply from_le_fits, Forall_take, Hb).
  set (n := from_le (take 8 bs)) in *. pose proof (Z.div_mod n 64 ltac:(lia)).
  assert (n `mod` 64 = 0) by (destruct (decide (n `mod` 64 = 0)); [done|tauto]).
  assert (0 ≤ n / 64) by (apply Z.div_pos; lia).
  split; [destruct (decide (n = 0)); [tauto|lia]|]. rewrite Z2Nat.id by lia. lia.
Qed.

(* ------------------------------------------------------------------ *)
(** ** Pruning                                                         *)
(* ------------------------------------------------------------------ *)

Section Pruning.
Context `{TextLib}.

Lemma may_contain_total bf t : bf_sized bf → is_Some (may_contain bf t).
Proof.
  intros Hs. destruct (probes_in_bits bf (as_bytes t) Hs) as (ps & Hps & Hin & _).
  unfold may_contain. rewrite Hps. cbn [mbind option_bind]. rewrite all_set_spec by done. eauto.
Qed.

Lemma any_term_total bf terms :
  bf_sized bf → ∃ b, any_term bf terms = Some b ∧
    ∀ t, t ∈ terms → may_contain bf t = Some true → b = true.
Proof.
  intros Hs. induction terms as [|t ts (b & Hb & Hbt)]; cbn [any_term].
  { exists false. split; [done|set_solver]. }
  destruct (may_contain_total bf t Hs) as [c Hc]. rewrite Hc. cbn [mbind option_bind].
  destruct c; [by exists true|]. exists b. split; [done|].
  intros u [->|Hu]%elem_of_cons; [congruence|eauto].
Qed.

Lemma filter_opt_spec {A} (p : A → option bool) l :
  (∀ a, a ∈ l → is_Some (p a)) →
  ∃ k, filter_opt p l = Some k ∧ sublist k l ∧ ∀ a, a ∈ l → p a = Some true → a ∈ k.
Proof.
  induction l as [|a l IH]; intros Hp; cbn [filter_opt]; [by exists []|].
  destruct (Hp a ltac:(left)) as [c Hc]. rewrite Hc. cbn [mbind option_bind].
  destruct IH as (k & Hk & Hsub & Hin); [intros; apply Hp; by right|]. rewrite Hk. cbn [mbind option_bind].
  eexists. split; [done|]. split; [by destruct c; constructor|]. intros x [->|Hx]%elem_of_cons Hpx.
  - rewrite Hc in Hpx. injection Hpx as ->. by left.
  - destruct c; [right|]; auto.
Qed.

Lemma bloom_map_sized entries path bf :
  Forall (λ e, bytes_ok (be_bytes e)) entries → bloom_map_of entries !! path = Some bf → bf_sized bf.
Proof.
  unfold bloom_map_of. intros He. 
  assert (Hm : map_Forall (λ _, bf_sized) (∅ : gmap string BloomFilter)) by apply map_Forall_empty.
  revert Hm. generalize (∅ : gmap string BloomFilter). induction He as [|e es Hb _ IH]; intros m Hm; cbn.
  { intros Hl. by apply (Hm path bf). }
  apply IH. destruct (bloom_from_bytes (be_bytes e)) eqn:E; [|done].
  apply map_Forall_insert_2; [by eapply bloom_from_bytes_sized|done].
Qed.

Lemma bloom_map_last pre path bs bf post :
  bloom_from_bytes bs = Some bf → path ∉ (be_path <$> post) →
  bloom_map_of (pre ++ mk_bloom path bs :: post) !! path = Some bf.
Proof.
  intros Hb Hp. unfold bloom_map_of. rewrite foldl_app. cbn [foldl be_bytes be_path]. rewrite Hb.
  set (m := <[path := bf]> _). assert (Hm : m !! path = Some bf) by apply lookup_insert_eq.
  clearbody m. revert m Hm. induction post as [|e post IH]; intros m Hm; cbn [foldl]; [done|].
  cbn in Hp. apply not_elem_of_cons in Hp as [Hne Hp]. apply IH; [done|].
  destruct (bloom_from_bytes (be_bytes e)); [|done]. by rewrite lookup_insert_ne by done.
Qed.

(** Pruning never panics, and keeps a sublist of the files, with every file whose filter
    may contain one of the query's terms. *)
Lemma bloom_prune_total entries files query :
  Forall (λ e, bytes_ok (be_bytes e)) entries →
  ∃ kept, bloom_prune files query (bloom_map_of entries) = Some kept ∧ sublist kept files ∧
    ∀ f bf term, f ∈ files → bloom_map_of entries !! df_path f = Some bf → term ∈ tokenize query →
      may_contain bf term = Some true → f ∈ kept.
Proof.
  intros Hent. unfold bloom_prune. destruct (_ || _) eqn:Enil; [by exists files|].
  destruct (filter_opt_spec (λ entry, match bloom_map_of entries !! df_path entry with
    | Some bloom => any_term bloom (tokenize query) | None => Some true end) files) as (k & Hk & Hsub & Hin).
  { intros a _. destruct (_ !! df_path a) as [b|] eqn:Hb; [|eauto].
    destruct (any_term_total b (tokenize query)) as (c & -> & _); [|eauto].
    by eapply bloom_map_sized. }
  exists k. split; [exact Hk|]. split; [done|]. intros f bf term Hf Hbf Hterm Hmay. apply Hin; [done|]. rewrite Hbf.
  destruct (any_term_total bf (tokenize query)) as (c & Hc & Hct); [by eapply bloom_map_sized|].
  rewrite Hc. f_equal. by apply (Hct term).
Qed.

(** C33: pruning by Bloom filters has no false negatives.  The filter a writer stores for
    a file is always built.  A scan that reads a statistics file back, whatever bytes its
    entries hold, never panics whatever the query, and keeps a sublist of the files; it
    keeps every file whose last entry is the filter stored for it whenever one of the
    query's terms is a term of one of the file's texts. *)
Theorem bloom_prune_keeps bits cells :
  0 ≤ bits → bits + 63 < 2 ^ 64 →
  ∃ bs, build_bloom_for_file bits cells = Some bs ∧ bytes_ok bs ∧
  ∀ entries files query, Forall (λ e, bytes_ok (be_bytes e)) entries →
    ∃ kept, bloom_prune files query (bloom_map_of entries) = Some kept ∧ sublist kept files ∧
      ∀ pre post f text term,
        entries = pre ++ mk_bloom (df_path f) bs :: post → df_path f ∉ (be_path <$> post) → f ∈ files →
        Some text ∈ cells → term ∈ tokenize text → term ∈ tokenize query → f ∈ kept.
Proof.
  intros H0 H1. unfold build_bloom_for_file. set (terms := cells ≫= _).
  destruct (insert_all_spec terms _ (with_capacity_wf bits H0 H1)) as (bf & E & Wf & Ht & _).
  rewrite E. cbn [mbind option_bind]. eexists. split; [done|]. split.
  { unfold bloom_to_bytes. apply bytes_ok_app. split; [apply to_le_ok|].
    apply Forall_join, Forall_fmap, Forall_true. intros. apply to_le_ok. }
  intros entries files query Hent. destruct (bloom_prune_total entries files query Hent) as (kept & Hk & Hsub & Hin).
  exists kept. split; [done|]. split; [done|].
  intros pre post f text term -> Hlast Hf Htext Hterm Hq. apply (Hin f bf term); [done| |done|].
  - apply bloom_map_last; [by apply bloom_bytes_roundtrip|done].
  - apply Ht. subst terms. apply list_elem_of_bind. by exists (Some text).
Qed.

End Pruning.
