(* ===== verification/Bm25.v ===== *)
(** * BM25 statistics, scores and fusion

    Models [ailake-query/src/bm25.rs]: the corpus statistics a writer accumulates and
    stores, the score of a document, and the two ways to fuse it with a vector
    distance.  The natural logarithm and the zstd and bincode codecs are interfaces.
    The theorem says what the counters count. *)

From S2P Require Import Prelude Core FileFormat Floats Bloom Ranking.

(* ------------------------------------------------------------------ *)
(** ** Interfaces                                                      *)
(* ------------------------------------------------------------------ *)

Record IdfStats : Type := mk_idf {
  doc_count : Z;
  total_tokens : Z;
  term_df : gmap string Z;
}.
Definition idf_default : IdfStats := mk_idf 0 0 ∅.

Class Bm25Lib : Type := {
  f32_ln : f32bits → f32bits;
  idf_serialize : IdfStats → AilakeResult bytes;
  idf_deserialize : bytes → AilakeResult IdfStats;
  zstd_encode_all : bytes → AilakeResult bytes;
  (** Decoder, [take(n)], [read_to_end]: the first [n] bytes of the output. *)
  zstd_decode_take : bytes → Z → AilakeResult bytes;
}.

Class Bm25Laws `{Bm25Lib} : Prop := {
  idf_codec st : ∃ raw, idf_serialize st = Ok raw ∧ idf_deserialize raw = Ok st;
  zstd_codec raw : ∃ z, zstd_encode_all raw = Ok z ∧
    ∀ n, 0 ≤ n → zstd_decode_take z n = Ok (take (Z.to_nat n) raw);
}.

(* ------------------------------------------------------------------ *)
(** ** Statistics                                                      *)
(* ------------------------------------------------------------------ *)

Definition K1 : f32bits := 1067030938.
Definition BM25_B : f32bits := 1061158912.
Definition F32_HALF : f32bits := 1056964608.
Definition F32_EPSILON : f32bits := 872415232.
Definition MAX_VOCAB : nat := Z.to_nat 50000.
Definition MAX_BM25_STATS_COMPRESSED_BYTES : Z := 16 * 1024 * 1024.
Definition MAX_BM25_STATS_DECOMPRESSED_BYTES : Z := 64 * 1024 * 1024.

Section Bm25.
Context `{Bm25Lib} `{TextLib} `{UnstableSort}.

Definition avg_doc_len (st : IdfStats) : f32bits :=
  if doc_count st =? 0 then F32_ONE else f32_div (f32_of_int (total_tokens st)) (f32_of_int (doc_count st)).

Definition idf (st : IdfStats) (term : string) : f32bits :=
  let df := f32_of_int (default 0 (term_df st !! term)) in
  let n := f32_of_int (doc_count st) in
  f32_ln (f32_add (f32_div (f32_add (f32_sub n df) F32_HALF) (f32_add df F32_HALF)) F32_ONE).

Definition count_term (df : gmap string Z) (term : string) : gmap string Z :=
  <[term := wrap 64 (default 0 (df !! term) + 1)]> df.

(** The terms of one document, each counted the first time it is seen. *)
Definition count_terms (df : gmap string Z) (terms : list string) : gmap string Z :=
  (foldl (λ '(df, seen) term,
     if decide (term ∈ (seen : gset string)) then (df, seen)
     else (count_term df term, {[term]} ∪ seen)) (df, ∅) terms).1.

Definition merge_document (st : IdfStats) (text : string) : IdfStats :=
  let terms := tokenize text in
  mk_idf (wrap 64 (doc_count st + 1)) (wrap 64 (total_tokens st + Zlen terms))
    (count_terms (term_df st) terms).

(** Most frequent first. *)
Definition df_compare (a b : string * Z) : comparison := b.2 ?= a.2.

Definition prune_vocab (df : gmap string Z) : gmap string Z :=
  if decide (MAX_VOCAB < size df)%nat then
    list_to_map (take MAX_VOCAB (sort_unstable_by df_compare (map_to_list df)))
  else df.

Definition merge_batch (st : IdfStats) (texts : list string) : IdfStats :=
  let st := foldl merge_document st texts in
  mk_idf (doc_count st) (total_tokens st) (prune_vocab (term_df st)).

Definition idf_to_bytes (st : IdfStats) : AilakeResult bytes :=
  raw ← match idf_serialize st with Ok raw => Ok raw | Err _ => Err BincodeError end;
  match zstd_encode_all raw with Ok z => Ok z | Err _ => Err IoError end.

Definition decompress_limited (bs : bytes) (max_bytes : Z) : AilakeResult bytes :=
  raw ← match zstd_decode_take bs (Z.min (max_bytes + 1) (2 ^ 64 - 1)) with
        | Ok raw => Ok raw | Err _ => Err IoError end;
  if max_bytes <? Zlen raw then Err InvalidArgument else Ok raw.

Definition idf_from_bytes (bs : bytes) : AilakeResult IdfStats :=
  if MAX_BM25_STATS_COMPRESSED_BYTES <? Zlen bs then Err InvalidArgument
  else
    raw ← decompress_limited bs MAX_BM25_STATS_DECOMPRESSED_BYTES;
    match idf_deserialize raw with Ok st => Ok st | Err _ => Err BincodeError end.

(* ------------------------------------------------------------------ *)
(** ** Scores                                                          *)
(* ------------------------------------------------------------------ *)

Definition term_frequencies (terms : list string) : gmap string Z :=
  foldl (λ m t, <[t := wrap 32 (default 0 (m !! t) + 1)]> m) ∅ terms.

Definition score_tokens (st : IdfStats) (query_terms : list string) (doc_text : string) : f32bits :=
  match query_terms with
  | [] => F32_ZERO
  | _ =>
      let doc_terms := tokenize doc_text in
      let doc_len := f32_of_int (Zlen doc_terms) in
      let avgdl := avg_doc_len st in
      let tf_map := term_frequencies doc_terms in
      foldl (λ score term,
        let tf := f32_of_int (default 0 (tf_map !! term)) in
        if f32_eq tf F32_ZERO then score
        else
          let tf_norm := f32_div (f32_mul tf (f32_add K1 F32_ONE))
            (f32_add tf (f32_mul K1 (f32_add (f32_sub F32_ONE BM25_B) (f32_div (f32_mul BM25_B doc_len) avgdl)))) in
          f32_add score (f32_mul (idf st term) tf_norm)) F32_ZERO query_terms
  end.

Definition score (st : IdfStats) (query_text doc_text : string) : f32bits :=
  score_tokens st (tokenize query_text) doc_text.

(* ------------------------------------------------------------------ *)
(** ** Fusion                                                          *)
(* ------------------------------------------------------------------ *)

Inductive HybridFusion : Type := Rrf | Linear.

Record HybridConfig : Type := mk_hybrid {
  hy_query_text : string;
  hy_text_columns : list string;
  hy_bm25_weight : f32bits;
  hy_fusion : HybridFusion;
  hy_candidate_pool : option Z;
}.

Definition RRF_K : f32bits := 1114636288.

Definition rrf_score (vec_rank bm25_rank : Z) (bm25_weight : f32bits) : f32bits :=
  let vec_weight := f32_sub F32_ONE bm25_weight in
  f32_neg (f32_add (f32_div vec_weight (f32_add RRF_K (f32_of_int vec_rank)))
                   (f32_div bm25_weight (f32_add RRF_K (f32_of_int bm25_rank)))).

Definition linear_score (vec_dist min_vec max_vec bm25 min_bm25 max_bm25 bm25_weight : f32bits) : f32bits :=
  let norm_vec := if f32_lt (f32_abs (f32_sub max_vec min_vec)) F32_EPSILON then F32_ZERO
                  else f32_div (f32_sub vec_dist min_vec) (f32_sub max_vec min_vec) in
  let norm_bm25 := if f32_lt (f32_abs (f32_sub max_bm25 min_bm25)) F32_EPSILON then F32_HALF
                   else f32_div (f32_sub bm25 min_bm25) (f32_sub max_bm25 min_bm25) in
  let vec_weight := f32_sub F32_ONE bm25_weight in
  f32_add (f32_mul vec_weight norm_vec) (f32_mul bm25_weight (f32_sub F32_ONE norm_bm25)).

End Bm25.

Definition BM25_STATS_PATH_PROP : string := "ailake.bm25.stats-path".
Definition BM25_STATS_FILE : string := "metadata/ailake_bm25_stats.bin".

(* ------------------------------------------------------------------ *)
(** ** What the counters count                                         *)
(* ------------------------------------------------------------------ *)

Section Counters.
Context `{TextLib}.

(** The documents of a batch that contain a term. *)
Definition documents_with (term : string) (texts : list string) : Z :=
  Zlen (filter (λ text, term ∈ tokenize text) texts).
Definition df_of (df : gmap string Z) (term : string) : Z := default 0 (df !! term).

Lemma documents_with_cons term text texts :
  documents_with term (text :: texts) =
  (if decide (term ∈ tokenize text) then 1 else 0) + documents_with term texts.
Proof. unfold documents_with. rewrite filter_cons. case_decide; cbn [length]; lia. Qed.

Lemma documents_with_le term texts : documents_with term texts ≤ Zlen texts.
Proof. unfold documents_with. pose proof (length_filter (λ text, term ∈ tokenize text) texts). lia. Qed.

Lemma count_term_df df t term :
  df_of (count_term df t) term = if decide (t = term) then wrap 64 (df_of df term + 1) else df_of df term.
Proof.
  unfold df_of, count_term. case_decide as E; [subst; by rewrite lookup_insert_eq|by rewrite lookup_insert_ne].
Qed.

(** A document counts once for each of its terms. *)
Lemma count_terms_df df terms term :
  df_of (count_terms df terms) term =
  if decide (term ∈ terms) then wrap 64 (df_of df term + 1) else df_of df term.
Proof.
  unfold count_terms.
  assert (Hgen : ∀ seen, df_of (foldl (λ '(df, seen) t,
      if decide (t ∈ (seen : gset string)) then (df, seen) else (count_term df t, {[t]} ∪ seen)) (df, seen) terms).1 term =
    if decide (term ∈ terms ∧ term ∉ seen) then wrap 64 (df_of df term + 1) else df_of df term).
  { revert df. induction terms as [|t terms IH]; intros df seen; cbn [foldl].
    - rewrite decide_False; [done|]. by intros [?%elem_of_nil _].
    - destruct (decide (t ∈ seen)) as [Ht|Ht]; rewrite IH.
      + apply decide_ext. set_solver.
      + rewrite count_term_df. destruct (decide (t = term)) as [->|Hne].
        * rewrite decide_False by set_solver. rewrite decide_True by set_solver. done.
        * apply decide_ext. set_solver. }
  rewrite Hgen. apply decide_ext. set_solver.
Qed.

Lemma merge_documents_counts st texts :
  let st' := foldl merge_document st texts in
  doc_count st + Zlen texts < 2 ^ 64 → 0 ≤ doc_count st → fits 64 (total_tokens st) →
  doc_count st' = doc_count st + Zlen texts ∧
  total_tokens st' = wrap 64 (total_tokens st + Zlen (texts ≫= tokenize)) ∧
  ∀ term, 0 ≤ df_of (term_df st) term ≤ doc_count st →
    df_of (term_df st') term = df_of (term_df st) term + documents_with term texts.
Proof.
  revert st. induction texts as [|text texts IH]; intros st st' Hlt Hd Ht; cbn [foldl length] in *.
  { split_and!; [subst st'; cbn; lia|subst st'; cbn; by rewrite Z.add_0_r, wrap_id|].
    intros term _. subst st'. cbn. unfold documents_with. cbn. lia. }
  assert (Hdc : doc_count (merge_document st text) = doc_count st + 1) by (apply (wrap_id 64); unfold fits; lia).
  destruct (IH (merge_document st text)) as (E1 & E2 & E3); [lia|lia|by apply (wrap_fits 64)|].
  split_and!; [subst st'; rewrite E1; lia| |].
  - subst st'. rewrite E2. cbn [total_tokens merge_document mbind list_bind]. unfold wrap.
    rewrite Zplus_mod_idemp_l, length_app. f_equal. lia.
  - intros term Hdf. rewrite documents_with_cons. subst st'.
    assert (E : df_of (term_df (merge_document st text)) term =
      df_of (term_df st) term + if decide (term ∈ tokenize text) then 1 else 0).
    { cbn [term_df merge_document]. rewrite count_terms_df. case_decide; [|lia]. apply (wrap_id 64). unfold fits. lia. }
    rewrite E3, E; [lia|]. rewrite E, Hdc. case_decide; lia.
Qed.

End Counters.

Section Vocabulary.
Context `{TextLib} `{SortLaws}.

Lemma df_keyed xs : keyed df_compare (λ p : string * Z, - p.2) xs.
Proof. intros x y _ _. symmetry. apply Z.compare_opp. Qed.

(** Pruning keeps the counts of the terms it keeps, and keeps the most frequent. *)
Lemma prune_vocab_spec df :
  (size (prune_vocab df) ≤ MAX_VOCAB)%nat ∧
  (∀ t n, prune_vocab df !! t = Some n → df !! t = Some n) ∧
  (∀ t n, df !! t = Some n → prune_vocab df !! t = None →
    size (prune_vocab df) = MAX_VOCAB ∧ ∀ t' n', prune_vocab df !! t' = Some n' → n ≤ n').
Proof.
  unfold prune_vocab. case_decide as Hbig; [|split_and!; [lia|done|congruence]].
  destruct (sort_law df_compare _ (map_to_list df) (df_keyed _)) as [Hp Hs].
  set (l := sort_unstable_by df_compare (map_to_list df)) in *. clearbody l.
  assert (Hnd : NoDup (take MAX_VOCAB l).*1).
  { apply (NoDup_app (take MAX_VOCAB l).*1 (drop MAX_VOCAB l).*1). rewrite <- fmap_app, take_drop, Hp.
    apply NoDup_fst_map_to_list. }
  assert (Hlen : length l = size df) by by rewrite Hp, length_map_to_list.
  assert (Hsize : size (list_to_map (take MAX_VOCAB l) : gmap string Z) = MAX_VOCAB).
  { rewrite <- length_map_to_list, map_to_list_to_map, length_take by done. lia. }
  split_and!; [lia| |].
  - intros t n Ht%elem_of_list_to_map_2. apply elem_of_map_to_list. rewrite <- Hp.
    by eapply subseteq_take.
  - intros t n Ht Hnone. split; [done|]. intros t' n' Ht'%elem_of_list_to_map_2.
    apply elem_of_map_to_list in Ht. rewrite <- Hp, <- (take_drop MAX_VOCAB l), elem_of_app in Ht.
    destruct Ht as [Ht|Ht].
    { apply (not_elem_of_list_to_map_2 (M := gmap string)) in Hnone. destruct Hnone.
      apply list_elem_of_fmap. by exists (t, n). }
    rewrite <- (take_drop MAX_VOCAB l) in Hs.
    pose proof (StronglySorted_app_1_elem_of _ _ _ _ _ Hs Ht' Ht) as Hle. unfold by_key in Hle. cbn in Hle. lia.
Qed.

(** What the statistics count.  Merging a batch adds its documents, and to every
    term it keeps the number of documents of the batch that contain it, each counted
    once; at most [MAX_VOCAB] terms are kept, and a term is only dropped when the
    vocabulary is full and every kept term is at least as frequent. *)
Theorem merge_batch_counts st texts :
  0 ≤ doc_count st → doc_count st + Zlen texts < 2 ^ 64 → fits 64 (total_tokens st) →
  (∀ term, 0 ≤ df_of (term_df st) term ≤ doc_count st) →
  let st' := merge_batch st texts in
  let count := λ term, df_of (term_df st) term + documents_with term texts in
  doc_count st' = doc_count st + Zlen texts ∧
  (size (term_df st') ≤ MAX_VOCAB)%nat ∧
  ∀ term, match term_df st' !! term with
          | Some n => n = count term
          | None => count term = 0 ∨
              size (term_df st') = MAX_VOCAB ∧
              ∀ term' n', term_df st' !! term' = Some n' → count term ≤ n'
          end.
Proof.
  intros Hd Hlt Ht Hdf st' count. destruct (merge_documents_counts st texts Hlt Hd Ht) as (E1 & _ & E3).
  subst st'. unfold merge_batch. cbn [doc_count term_df]. set (df := term_df (foldl merge_document st texts)) in *.
  destruct (prune_vocab_spec df) as (Hsz & Hkeep & Hdrop). split; [done|]. split; [done|]. intros term.
  specialize (E3 term (Hdf term)). fold (count term) in E3. unfold df_of in E3.
  destruct (prune_vocab df !! term) as [n|] eqn:En; [by rewrite (Hkeep _ _ En) in E3|].
  destruct (df !! term) as [n|] eqn:Edf; [|left; by rewrite <- E3]. cbn in E3. right.
  rewrite <- E3. by apply (Hdrop term n).
Qed.

End Vocabulary.
