(* ===== verification/Context.v ===== *)
(** * Context assembly

    [ailake-query/src/context_assembler.rs]: the chunks a search found are sorted by
    distance, near-duplicates are dropped, the rest is grouped by document and written
    as XML within a budget of characters.  [ContextTheorems] has the properties. *)

From S2P Require Import Prelude Core FileFormat Floats Ranking Manifest.

(* ------------------------------------------------------------------ *)
(** ** Data                                                            *)
(* ------------------------------------------------------------------ *)

Record Chunk : Type := mk_chunk {
  ck_document_id : string;
  ck_chunk_index : Z;
  ck_chunk_text : string;
  ck_document_title : option string;
  ck_section_path : option string;
  ck_source_uri : option string;
  ck_distance : f32bits;
  ck_embedding : option vec32;
}.

Record ContextAssemblerConfig : Type := mk_assembler {
  ca_max_tokens : Z;
  ca_dedup_threshold : f32bits;
  ca_group_by_document : bool;
  ca_max_chunks_per_document : nat;
}.
(** [ContextAssemblerConfig::default]; the threshold is [0.05]. *)
Definition default_assembler : ContextAssemblerConfig := mk_assembler 4096 1028443341 true 10.

Record AssembledContext : Type := mk_context {
  ac_text : string;
  ac_chunk_count : Z;
  ac_token_estimate : Z;
}.

(* ------------------------------------------------------------------ *)
(** ** Text                                                            *)
(* ------------------------------------------------------------------ *)

Definition dquote : Ascii.ascii := Ascii.ascii_of_nat 34.
Definition one_char (c : Ascii.ascii) : string := String c EmptyString.
Definition newline : string := one_char (Ascii.ascii_of_nat 10).
Definition slen (s : string) : Z := Z.of_nat (String.length s).

Definition escape_xml (s : string) : string :=
  str_replace (one_char dquote) "&quot;"
    (str_replace ">" "&gt;" (str_replace "<" "&lt;" (str_replace "&" "&amp;" s))).

(** [name="value"], the value escaped. *)
Definition attribute (name value : string) : string :=
  name +:+ "=" +:+ one_char dquote +:+ escape_xml value +:+ one_char dquote.

Definition CONTEXT_OPEN : string := "<context>" +:+ newline.
Definition CONTEXT_CLOSE : string := "</context>".
Definition DOCUMENT_CLOSE : string := "  </document>" +:+ newline.

Definition document_open (id title source : string) : string :=
  "  <document " +:+ attribute "id" id +:+ " " +:+ attribute "title" title +:+ " " +:+ attribute "source" source
  +:+ ">" +:+ newline.

(** The index needs no escape: it is a number. *)
Definition render_chunk (c : Chunk) : string :=
  "    <chunk index=" +:+ one_char dquote +:+ to_string (ck_chunk_index c) +:+ one_char dquote +:+ " "
  +:+ attribute "section" (default "" (ck_section_path c)) +:+ ">" +:+ newline
  +:+ "      <text>" +:+ escape_xml (ck_chunk_text c) +:+ "</text>" +:+ newline
  +:+ "    </chunk>" +:+ newline.

(* ------------------------------------------------------------------ *)
(** ** Assembly                                                        *)
(* ------------------------------------------------------------------ *)

Section Assembler.
Context `{Kernels} (config : ContextAssemblerConfig).

(** [self.config.max_tokens * 4] in [usize]. *)
Definition char_budget : Z := wrap 64 (ca_max_tokens config * 4).

(** The inner loop of [dedup]: is a selected chunk within the threshold of [emb]?
    [None] is the panic on vectors of different lengths. *)
Fixpoint near_selected (emb : vec32) (selected : list Chunk) : option bool :=
  match selected with
  | [] => Some false
  | sel :: rest =>
      match ck_embedding sel with
      | Some sel_emb =>
          d ← cosine_distance emb sel_emb;
          if f32_lt d (ca_dedup_threshold config) then Some true else near_selected emb rest
      | None => near_selected emb rest
      end
  end.

Definition duplicate (c : Chunk) (selected : list Chunk) : option bool :=
  match ck_embedding c with Some emb => near_selected emb selected | None => Some false end.

Fixpoint dedup_into (selected chunks : list Chunk) : option (list Chunk) :=
  match chunks with
  | [] => Some selected
  | c :: chunks =>
      dup ← duplicate c selected;
      dedup_into (if dup : bool then selected else selected ++ [c]) chunks
  end.
Definition dedup : list Chunk → option (list Chunk) := dedup_into [].

(** The map of groups and the ids in order of appearance. *)
Definition add_to_group : gmap string (list Chunk) * list string → Chunk → gmap string (list Chunk) * list string :=
  λ '(groups, doc_order) c,
    let doc_order := match groups !! ck_document_id c with
                     | Some _ => doc_order
                     | None => doc_order ++ [ck_document_id c]
                     end in
    (<[ck_document_id c := default [] (groups !! ck_document_id c) ++ [c]]> groups, doc_order).

Definition by_index (a b : Chunk) : comparison := ck_chunk_index a ?= ck_chunk_index b.

(** [map.remove(&id).unwrap_or_default()] for each id. *)
Fixpoint take_groups (groups : gmap string (list Chunk)) (ids : list string) : list (string * list Chunk) :=
  match ids with
  | [] => []
  | id :: ids => (id, default [] (groups !! id)) :: take_groups (delete id groups) ids
  end.

Definition group (chunks : list Chunk) : list (string * list Chunk) :=
  let '(groups, doc_order) := foldl add_to_group (∅, []) chunks in
  let groups := if ca_group_by_document config then sort_by by_index <$> groups else groups in
  take_groups groups doc_order.

(** The chunks of one document; [true]: the budget is used up ([break 'outer]). *)
Fixpoint render_chunks (chunks : list Chunk) (xml : string) (chunk_count : Z) : string * Z * bool :=
  match chunks with
  | [] => (xml, chunk_count, false)
  | c :: chunks =>
      if decide (char_budget ≤ slen xml) then (xml, chunk_count, true)
      else render_chunks chunks (xml +:+ render_chunk c) (chunk_count + 1)
  end.

(** [.first().and_then(..).unwrap_or("")] *)
Definition first_of (field : Chunk → option string) (chunks : list Chunk) : string :=
  default "" (head chunks ≫= field).

Fixpoint render_groups (groups : list (string * list Chunk)) (xml : string) (chunk_count : Z) : string * Z :=
  match groups with
  | [] => (xml, chunk_count)
  | (doc_id, doc_chunks) :: groups =>
      let xml := xml +:+ document_open doc_id (first_of ck_document_title doc_chunks) (first_of ck_source_uri doc_chunks) in
      match render_chunks (take (ca_max_chunks_per_document config) doc_chunks) xml chunk_count with
      | (xml, chunk_count, true) => (xml, chunk_count)
      | (xml, chunk_count, false) => render_groups groups (xml +:+ DOCUMENT_CLOSE) chunk_count
      end
  end.

Definition render (groups : list (string * list Chunk)) : AssembledContext :=
  let '(xml, chunk_count) := render_groups groups CONTEXT_OPEN 0 in
  let xml := xml +:+ CONTEXT_CLOSE in
  mk_context xml chunk_count (slen xml / 4).

Definition chunk_compare (a b : Chunk) : comparison := default Eq (partial_cmp (ck_distance a) (ck_distance b)).

(** [None] is a panic. *)
Definition assemble_chunks (chunks : list Chunk) : option AssembledContext :=
  selected ← dedup (sort_by chunk_compare chunks);
  Some (render (group selected)).

Fixpoint add_texts (chunks : list string) (text : string) (count : Z) : string * Z :=
  match chunks with
  | [] => (text, count)
  | chunk :: chunks =>
      if decide (char_budget < slen text + slen chunk + 2) then (text, count)
      else add_texts chunks ((if decide (text = "") then text else text +:+ newline +:+ newline) +:+ chunk) (count + 1)
  end.

Definition assemble_texts (chunks : list string) : AssembledContext :=
  let '(text, count) := add_texts chunks "" 0 in mk_context text count (slen text / 4).

End Assembler.
