(* ===== verification/ContextTheorems.v ===== *)
(** * What an assembled context says

    The XML of [Context] is read back by a small parser of tags: whatever the texts,
    ids and titles contain, the tags are those of the documents shown, in order; they
    are nested exactly when the budget did not run out inside a document.  The chunks
    shown are those nearest to the query, without near-duplicates, by document. *)

From Stdlib Require Import Sorting.Sorted.
From S2P Require Import Prelude Core FileFormat FileTheorems Floats Ranking Manifest Context.

(* ------------------------------------------------------------------ *)
(** ** Escaping                                                        *)
(* ------------------------------------------------------------------ *)

(** One pass over the characters of a text. *)
Fixpoint each_char (f : Ascii.ascii → string) (s : string) : string :=
  match s with EmptyString => EmptyString | String c s => f c +:+ each_char f s end.

(** Sections: the characters with an entity. *)
Definition entities : list (string * Ascii.ascii) :=
  [("&amp;", Ascii.ascii_of_nat 38); ("&lt;", Ascii.ascii_of_nat 60);
   ("&gt;", Ascii.ascii_of_nat 62); ("&quot;", dquote)].

Definition escape_char (c : Ascii.ascii) : string :=
  match find (λ e : string * Ascii.ascii, Ascii.eqb e.2 c) entities with Some e => e.1 | None => one_char c end.

(** The entity a text starts with. *)
Fixpoint entity_in (es : list (string * Ascii.ascii)) (s : string) : option (Ascii.ascii * string) :=
  match es with
  | [] => None
  | (p, c) :: es => match strip_prefix p s with Some t => Some (c, t) | None => entity_in es s end
  end.
Definition entity_at : string → option (Ascii.ascii * string) := entity_in entities.

(** An XML reader's view of a text; [fuel] at least its length. *)
Fixpoint unescape_go (fuel : nat) (s : string) : string :=
  match fuel with
  | O => EmptyString
  | S fuel =>
      match entity_at s with
      | Some (c, t) => String c (unescape_go fuel t)
      | None => match s with EmptyString => EmptyString | String c s => String c (unescape_go fuel s) end
      end
  end.
Definition unescape (s : string) : string := unescape_go (String.length s) s.

Lemma each_char_app f s t : each_char f (s +:+ t) = each_char f s +:+ each_char f t.
Proof.
  induction s as [|c s IH]; [done|].
  change (f c +:+ each_char f (s +:+ t) = (f c +:+ each_char f s) +:+ each_char f t).
  by rewrite IH, string_app_assoc.
Qed.

Lemma each_char_comp f g s : each_char f (each_char g s) = each_char (λ c, each_char f (g c)) s.
Proof. induction s as [|c s IH]; [done|]. cbn [each_char]. by rewrite each_char_app, IH. Qed.

Lemma each_char_ext f g s : (∀ c, f c = g c) → each_char f s = each_char g s.
Proof. intros E. induction s as [|c s IH]; [done|]. cbn [each_char]. by rewrite E, IH. Qed.

(** Replacing one character is a pass over the text. *)
Lemma replace_char c by_ s :
  str_replace (one_char c) by_ s = each_char (λ a, if Ascii.eqb a c then by_ else one_char a) s.
Proof.
  unfold str_replace. assert (Hn : (String.length s < S (String.length s))%nat) by lia.
  revert Hn. generalize (S (String.length s)) as n. induction s as [|a s IH]; intros [|n] Hn; cbn in *; try lia; try done.
  rewrite Ascii.eqb_sym. destruct (Ascii.eqb_spec a c) as [->|Hne]; cbn; by rewrite IH by lia.
Qed.

(** The four passes are one: the entities written by one are left alone by the next. *)
Lemma escape_xml_each s : escape_xml s = each_char escape_char s.
Proof.
  unfold escape_xml. change ">" with (one_char (Ascii.ascii_of_nat 62)). change "<" with (one_char (Ascii.ascii_of_nat 60)).
  change "&" with (one_char (Ascii.ascii_of_nat 38)). rewrite !replace_char, !each_char_comp. apply each_char_ext.
  intros c. by destruct c as [[] [] [] [] [] [] [] []].
Qed.

Definition markup (c : Ascii.ascii) : bool :=
  existsb (Ascii.eqb c) [Ascii.ascii_of_nat 60; Ascii.ascii_of_nat 62; dquote].

Lemma escaped_no_char c s : markup c = true → no_char c (escape_xml s) = true.
Proof.
  intros Hc. rewrite escape_xml_each. induction s as [|a s IH]; [done|]. cbn [each_char].
  rewrite no_char_app, IH, andb_true_r.
  assert (Hall : Forall (λ d, no_char d (escape_char a) = true) [Ascii.ascii_of_nat 60; Ascii.ascii_of_nat 62; dquote])
    by (destruct a as [[] [] [] [] [] [] [] []]; by repeat constructor).
  rewrite Forall_forall in Hall. apply Hall. unfold markup in Hc. apply existsb_exists in Hc as (d & Hd & Ed%Ascii.eqb_eq).
  apply list_elem_of_In. by subst d.
Qed.

Lemma entity_escape a t :
  entity_at (escape_char a +:+ t) =
  if bool_decide (escape_char a = one_char a) then entity_at (String a t) else Some (a, t).
Proof. by destruct a as [[] [] [] [] [] [] [] []]. Qed.

Lemma no_entity a t : escape_char a = one_char a → entity_at (String a t) = None.
Proof. destruct a as [[] [] [] [] [] [] [] []]; try done; intros E; discriminate E. Qed.

Lemma unescape_go_escape s n : (String.length (escape_xml s) ≤ n)%nat → unescape_go n (escape_xml s) = s.
Proof.
  rewrite escape_xml_each. revert n. induction s as [|a s IH]; intros n; [by destruct n|].
  cbn [each_char]. rewrite string_length_app. intros Hn.
  assert (Ha : (1 ≤ String.length (escape_char a))%nat) by (destruct a as [[] [] [] [] [] [] [] []]; apply Nat.leb_le; by vm_compute).
  destruct n as [|n]; [lia|]. cbn [unescape_go]. rewrite entity_escape. case_bool_decide as E.
  - rewrite no_entity, E by done. change (String a (unescape_go n (each_char escape_char s)) = String a s). by rewrite IH by lia.
  - by rewrite IH by lia.
Qed.

Lemma unescape_escape s : unescape (escape_xml s) = s.
Proof. by apply unescape_go_escape. Qed.

Lemma no_ampersand a t : Ascii.eqb a (Ascii.ascii_of_nat 38) = false → entity_at (String a t) = None.
Proof. destruct a as [[] [] [] [] [] [] [] []]; (reflexivity || discriminate). Qed.

(** A text without an ampersand is read as it is. *)
Lemma unescape_plain s : no_char (Ascii.ascii_of_nat 38) s = true → unescape s = s.
Proof.
  unfold unescape. assert (Hn : (String.length s ≤ String.length s)%nat) by lia. revert Hn.
  generalize (String.length s) at 2 3 as n. induction s as [|a s IH]; intros [|n] Hn; cbn in Hn; try lia; try done.
  cbn [no_char]. intros [Ha Hs]%andb_prop. cbn [unescape_go].
  rewrite no_ampersand by (by apply negb_true_iff). by rewrite IH by (done || lia).
Qed.

(* ------------------------------------------------------------------ *)
(** ** Tags                                                            *)
(* ------------------------------------------------------------------ *)

Inductive Tag : Type :=
  | OpenTag (name : string) (attributes : list (string * string))
  | CloseTag (name : string).

Definition less : Ascii.ascii := Ascii.ascii_of_nat 60.
Definition greater : Ascii.ascii := Ascii.ascii_of_nat 62.
Definition space : Ascii.ascii := Ascii.ascii_of_nat 32.

(** The key in [ key=]. *)
Fixpoint attribute_key (s : string) : string :=
  match s with
  | EmptyString => EmptyString
  | String c s =>
      if Ascii.eqb c space || Ascii.eqb c (Ascii.ascii_of_nat 61) then attribute_key s else String c (attribute_key s)
  end.

(** Keys and values alternate between quotes. *)
Fixpoint attributes_of (pieces : list string) : list (string * string) :=
  match pieces with
  | k :: v :: pieces => (attribute_key k, unescape v) :: attributes_of pieces
  | _ => []
  end.

(** What stands between angle brackets. *)
Definition parse_tag (s : string) : Tag :=
  match strip_prefix "/" s with
  | Some name => CloseTag name
  | None =>
      match split_once space s with
      | Some (name, rest) => OpenTag name (attributes_of (split dquote rest))
      | None => OpenTag s []
      end
  end.

(** The tags read so far, each after the text before it; the text and the tag that
    are being read. *)
Definition scanned : Type := list (string * Tag) * string * option string.

Definition scan_char : scanned → Ascii.ascii → option scanned := λ '(tags, text, tag) c,
  match tag with
  | None =>
      if Ascii.eqb c less then Some (tags, text, Some "")
      else if Ascii.eqb c greater then None else Some (tags, text +:+ one_char c, None)
  | Some t =>
      if Ascii.eqb c greater then Some (tags ++ [(unescape text, parse_tag t)], "", None)
      else if Ascii.eqb c less then None else Some (tags, text, Some (t +:+ one_char c))
  end.

Fixpoint scan (st : scanned) (s : string) : option scanned :=
  match s with
  | EmptyString => Some st
  | String c s => st ← scan_char st c; scan st s
  end.

(** A complete text: nothing is left over. *)
Definition read_tags (s : string) : option (list (string * Tag)) :=
  match scan ([], "", None) s with Some (tags, EmptyString, None) => Some tags | _ => None end.

Lemma scan_app st s t : scan st (s +:+ t) = scan st s ≫= λ st, scan st t.
Proof.
  revert st. induction s as [|c s IH]; intros st; [done|].
  change (scan st (String c s +:+ t)) with (scan_char st c ≫= λ st, scan st (s +:+ t)).
  cbn [scan]. destruct (scan_char st c); [|done]. apply IH.
Qed.

(** Text without angle brackets, outside and inside a tag. *)
Definition bare (s : string) : bool := no_char less s && no_char greater s.

Lemma scan_text s tags text : bare s = true → scan (tags, text, None) s = Some (tags, text +:+ s, None).
Proof.
  unfold bare. revert text. induction s as [|c s IH]; intros text; [by rewrite string_app_nil_r|].
  cbn [no_char scan scan_char]. rewrite !andb_true_iff, !negb_true_iff. intros [[Hl Hs] [Hg Hs']].
  rewrite Hl, Hg. cbn [mbind option_bind]. rewrite IH by (by rewrite Hs, Hs'). by rewrite string_app_assoc.
Qed.

Lemma scan_in_tag s tags text t : bare s = true → scan (tags, text, Some t) s = Some (tags, text, Some (t +:+ s)).
Proof.
  unfold bare. revert t. induction s as [|c s IH]; intros t; [by rewrite string_app_nil_r|].
  cbn [no_char scan scan_char]. rewrite !andb_true_iff, !negb_true_iff. intros [[Hl Hs] [Hg Hs']].
  rewrite Hl, Hg. cbn [mbind option_bind]. rewrite IH by (by rewrite Hs, Hs'). by rewrite string_app_assoc.
Qed.

(** A text, then a tag. *)
Lemma scan_tag tags text s t rest :
  bare s = true → bare t = true →
  scan (tags, text, None) (s +:+ "<" +:+ t +:+ ">" +:+ rest) =
  scan (tags ++ [(unescape (text +:+ s), parse_tag t)], "", None) rest.
Proof.
  intros Hs Ht. rewrite scan_app, scan_text by done. cbn [mbind option_bind].
  change (scan (tags, text +:+ s, None) ("<" +:+ t +:+ ">" +:+ rest)) with
    (scan (tags, text +:+ s, Some "") (t +:+ ">" +:+ rest)).
  rewrite scan_app, scan_in_tag by done. done.
Qed.

Lemma bare_app s t : bare (s +:+ t) = bare s && bare t.
Proof. unfold bare. rewrite !no_char_app. destruct (no_char less s), (no_char less t), (no_char greater s); done. Qed.

Lemma bare_escaped s : bare (escape_xml s) = true.
Proof. unfold bare. by rewrite !escaped_no_char. Qed.

Lemma bare_number z : bare (to_string z) = true.
Proof. unfold bare. by rewrite !to_string_no_char by (done || discriminate). Qed.

Lemma split_quoted k v rest :
  no_char dquote k = true → no_char dquote v = true →
  split dquote (k +:+ one_char dquote +:+ v +:+ one_char dquote +:+ rest) = k :: v :: split dquote rest.
Proof.
  assert (Hone : ∀ s t, no_char dquote s = true → split dquote (s +:+ one_char dquote +:+ t) = s :: split dquote t).
  { intros s t. induction s as [|a s IH]; [done|]. cbn [no_char]. intros [Ha%negb_true_iff Hs]%andb_prop.
    change (split dquote (String a s +:+ one_char dquote +:+ t)) with
      (if Ascii.eqb a dquote then EmptyString :: split dquote (s +:+ one_char dquote +:+ t)
       else match split dquote (s +:+ one_char dquote +:+ t) with
            | [] => [String a EmptyString] | p :: ps => String a p :: ps end).
    by rewrite Ha, IH. }
  intros Hk Hv. by rewrite !Hone.
Qed.

(* ------------------------------------------------------------------ *)
(** ** The tags of a context                                           *)
(* ------------------------------------------------------------------ *)

Definition indent (n : nat) : string := newline +:+ Nat.iter n (String space) "".

Definition chunk_tags (c : Chunk) : list (string * Tag) :=
  [(indent 4, OpenTag "chunk" [("index", to_string (ck_chunk_index c)); ("section", default "" (ck_section_path c))]);
   (indent 6, OpenTag "text" []); (ck_chunk_text c, CloseTag "text"); (indent 4, CloseTag "chunk")].

(** A document of which the first [shown] chunks are shown. *)
Definition document_tags (shown : nat) (g : string * list Chunk) : list (string * Tag) :=
  (indent 2, OpenTag "document"
     [("id", g.1); ("title", first_of ck_document_title g.2); ("source", first_of ck_source_uri g.2)])
  :: (take shown g.2 ≫= chunk_tags).
Definition document_end : string * Tag := (indent 2, CloseTag "document").

Lemma scan_chunk tags c :
  scan (tags, newline, None) (render_chunk c) = Some (tags ++ chunk_tags c, newline, None).
Proof.
  set (attrs := "chunk index=" +:+ one_char dquote +:+ to_string (ck_chunk_index c) +:+ one_char dquote +:+ " "
    +:+ attribute "section" (default "" (ck_section_path c))).
  assert (Ea : bare attrs = true).
  { unfold attrs, attribute. by rewrite !bare_app, bare_number, bare_escaped. }
  assert (Et : parse_tag attrs =
    OpenTag "chunk" [("index", to_string (ck_chunk_index c)); ("section", default "" (ck_section_path c))]).
  { unfold attrs, attribute.
    change (OpenTag "chunk" (attributes_of (split dquote ("index=" +:+ one_char dquote +:+ to_string (ck_chunk_index c)
      +:+ one_char dquote +:+ ((" " +:+ "section" +:+ "=") +:+ one_char dquote +:+ escape_xml (default "" (ck_section_path c))
      +:+ one_char dquote +:+ "")))) = OpenTag "chunk" [("index", to_string (ck_chunk_index c));
      ("section", default "" (ck_section_path c))]).
    rewrite !split_quoted by (done || by apply to_string_no_char || by apply escaped_no_char).
    cbn [attributes_of split]. rewrite unescape_escape, unescape_plain by (by apply to_string_no_char). done. }
  assert (E : render_chunk c = "    " +:+ "<" +:+ attrs +:+ ">" +:+ (newline +:+ "      ") +:+ "<" +:+ "text" +:+ ">" +:+
    escape_xml (ck_chunk_text c) +:+ "<" +:+ "/text" +:+ ">" +:+ (newline +:+ "    ") +:+ "<" +:+ "/chunk" +:+ ">" +:+ newline).
  { unfold render_chunk, attrs, attribute. by rewrite !string_app_assoc. }
  rewrite E, !scan_tag by (done || apply bare_escaped). rewrite Et. rewrite <- !app_assoc.
  change ("" +:+ escape_xml (ck_chunk_text c)) with (escape_xml (ck_chunk_text c)). by rewrite unescape_escape.
Qed.

Lemma scan_document_open tags g :
  scan (tags, newline, None) (document_open g.1 (first_of ck_document_title g.2) (first_of ck_source_uri g.2)) =
  Some (tags ++ document_tags 0 g, newline, None).
Proof.
  unfold document_tags. generalize (first_of ck_document_title g.2) as title, (first_of ck_source_uri g.2) as source.
  generalize g.1 as id. intros id title source.
  set (attrs := "document " +:+ attribute "id" id +:+ " " +:+ attribute "title" title +:+ " " +:+ attribute "source" source).
  assert (Ea : bare attrs = true).
  { unfold attrs, attribute. by rewrite !bare_app, !bare_escaped. }
  assert (Et : parse_tag attrs = OpenTag "document" [("id", id); ("title", title); ("source", source)]).
  { unfold attrs, attribute. rewrite !string_app_assoc.
    change (OpenTag "document" (attributes_of (split dquote (("id" +:+ "=") +:+ one_char dquote +:+ escape_xml id
      +:+ one_char dquote +:+ ((" " +:+ "title" +:+ "=") +:+ one_char dquote +:+ escape_xml title
      +:+ one_char dquote +:+ ((" " +:+ "source" +:+ "=") +:+ one_char dquote +:+ escape_xml source
      +:+ one_char dquote +:+ ""))))) = OpenTag "document" [("id", id); ("title", title); ("source", source)]).
    rewrite !split_quoted by (done || by apply escaped_no_char).
    cbn [attributes_of split]. by rewrite !unescape_escape. }
  assert (E : document_open id title source = "  " +:+ "<" +:+ attrs +:+ ">" +:+ newline).
  { unfold document_open, attrs, attribute. by rewrite !string_app_assoc. }
  rewrite E, scan_tag by done. by rewrite Et.
Qed.

Lemma scan_document_close tags : scan (tags, newline, None) DOCUMENT_CLOSE = Some (tags ++ [document_end], newline, None).
Proof. exact (scan_tag tags newline "  " "/document" newline eq_refl eq_refl). Qed.

Lemma slen_app s t : slen (s +:+ t) = slen s + slen t.
Proof. unfold slen. rewrite string_length_app. lia. Qed.

Section Rendering.
Context `{Kernels} (config : ContextAssemblerConfig).
#[local] Notation budget := (char_budget config).
#[local] Notation cap := (ca_max_chunks_per_document config).

(** The chunks of a document: all of them, or those before the budget ran out. *)
Lemma scan_chunks st tags chunks xml n :
  scan st xml = Some (tags, newline, None) →
  let '(xml', n', full) := render_chunks config chunks xml n in
  ∃ k, (k ≤ length chunks)%nat ∧ n' = n + Z.of_nat k ∧
    scan st xml' = Some (tags ++ (take k chunks ≫= chunk_tags), newline, None) ∧
    if full then (k < length chunks)%nat ∧ budget ≤ slen xml' else k = length chunks.
Proof.
  revert tags xml n. induction chunks as [|c chunks IH]; intros tags xml n Hs; cbn [render_chunks].
  - exists O. cbn. rewrite app_nil_r. split_and!; [lia|lia|done|done].
  - case_decide as Hb.
    + exists O. cbn. rewrite app_nil_r. split_and!; [lia|lia|done|lia|done].
    + specialize (IH (tags ++ chunk_tags c) (xml +:+ render_chunk c) (n + 1)).
      rewrite scan_app, Hs in IH. specialize (IH (scan_chunk tags c)).
      destruct (render_chunks config chunks _ _) as [[xml' n'] full]. destruct IH as (k & Hk & En & Hs' & Hf).
      exists (S k). cbn [length take mbind list_bind]. split_and!; [lia|lia|by rewrite Hs', <- app_assoc|].
      destruct full; [split; [lia|tauto]|lia].
Qed.

Definition shown_in (g : string * list Chunk) : nat := Nat.min cap (length g.2).

Definition whole_document (g : string * list Chunk) : list (string * Tag) := document_tags cap g ++ [document_end].

Lemma scan_groups st tags groups xml n :
  scan st xml = Some (tags, newline, None) →
  let '(xml', n') := render_groups config groups xml n in
  ∃ whole part, scan st xml' = Some (tags ++ (whole ≫= whole_document) ++
      from_option (λ gk, document_tags gk.2 gk.1) [] part, newline, None) ∧
    n' = n + sum_by (λ g, Z.of_nat (shown_in g)) whole + from_option (λ gk, Z.of_nat gk.2) 0 part ∧
    match part with
    | None => groups = whole
    | Some (g, k) => budget ≤ slen xml' ∧ (k < shown_in g)%nat ∧ ∃ rest, groups = whole ++ g :: rest
    end.
Proof.
  revert tags xml n. induction groups as [|[id chunks] groups IH]; intros tags xml n Hs; cbn [render_groups].
  - exists [], None. cbn. rewrite app_nil_r. split_and!; [done|lia|done].
  - pose proof (scan_chunks st (tags ++ document_tags 0 (id, chunks)) (take cap chunks) (xml +:+ document_open id
      (first_of ck_document_title chunks) (first_of ck_source_uri chunks)) n) as Hc.
    rewrite scan_app, Hs in Hc. specialize (Hc (scan_document_open tags (id, chunks))).
    destruct (render_chunks config _ _ _) as [[xml1 n1] full]. destruct Hc as (k & Hk & -> & Hs1 & Hf).
    destruct full.
    + destruct Hf as [Hk' Hb]. rewrite length_take in Hk, Hk'. exists [], (Some ((id, chunks), k)). cbn [mbind list_bind app from_option fst snd].
      unfold shown_in. cbn [snd]. split_and!; [|cbn; lia|done|lia|by exists groups].
      rewrite Hs1. unfold document_tags. cbn [snd take mbind list_bind]. rewrite <- app_assoc. cbn [app].
      do 4 f_equal. rewrite take_take. do 2 f_equal. by rewrite Nat.min_l by lia.
    + rewrite take_ge in Hs1 by lia. rewrite length_take in Hf. subst k. specialize (IH ((tags ++ document_tags 0 (id, chunks) ++ (take cap chunks ≫= chunk_tags)) ++ [document_end])
        (xml1 +:+ DOCUMENT_CLOSE) (n + Z.of_nat (Nat.min cap (length chunks)))).
      rewrite scan_app, Hs1 in IH.
      rewrite (app_assoc tags) in IH. specialize (IH (scan_document_close _)).
      destruct (render_groups config groups _ _) as [xml2 n2]. destruct IH as (whole & part & Hs2 & En & Hp).
      exists ((id, chunks) :: whole), part. split_and!.
      * rewrite Hs2. cbn [mbind list_bind]. unfold whole_document at 2, document_tags. cbn [fst snd take mbind list_bind app].
        by rewrite <- !app_assoc.
      * rewrite En. cbn [sum_by]. unfold shown_in at 2. cbn [snd]. lia.
      * destruct part as [[g k]|]; [|by rewrite Hp]. destruct Hp as (Hb & Hk2 & rest & ->). split_and!; [done..|]. by exists rest.
Qed.

(** C28: an assembled context is XML that says what it was made of.  Whatever bytes
    the ids, titles and texts contain, the tags read back from the text are those of
    the documents, each closed, with the values given and at most the configured number
    of chunks, in order, and the reported count is right; unless the budget ran out
    inside a document: then its tag is never closed and the documents after it are
    missing. *)
Theorem context_reads_back groups :
  let ctx := render config groups in
  ∃ whole part,
    read_tags (ac_text ctx) = Some (("", OpenTag "context" []) :: (whole ≫= whole_document) ++
      from_option (λ gk, document_tags gk.2 gk.1) [] part ++ [(newline, CloseTag "context")]) ∧
    ac_chunk_count ctx = sum_by (λ g, Z.of_nat (shown_in g)) whole + from_option (λ gk, Z.of_nat gk.2) 0 part ∧
    match part with
    | None => groups = whole
    | Some (g, k) =>
        budget + slen CONTEXT_CLOSE ≤ slen (ac_text ctx) ∧ (k < shown_in g)%nat ∧ ∃ rest, groups = whole ++ g :: rest
    end.
Proof.
  unfold render. pose proof (scan_groups ([], "", None) [("", OpenTag "context" [])] groups CONTEXT_OPEN 0 eq_refl) as Hg.
  destruct (render_groups config groups CONTEXT_OPEN 0) as [xml n]. destruct Hg as (whole & part & Hs & -> & Hp).
  exists whole, part. cbn [ac_text ac_chunk_count]. split_and!; [|lia|].
  - unfold read_tags. rewrite scan_app, Hs.
    change (Some (([("", OpenTag "context" [])] ++ (whole ≫= whole_document) ++
      from_option (λ gk, document_tags gk.2 gk.1) [] part, newline, None)) ≫= λ st, scan st CONTEXT_CLOSE) with
      (scan ([("", OpenTag "context" [])] ++ (whole ≫= whole_document) ++
        from_option (λ gk, document_tags gk.2 gk.1) [] part, newline, None) ("" +:+ "<" +:+ "/context" +:+ ">" +:+ "")).
    rewrite scan_tag by done. cbn [scan app]. by rewrite <- !app_assoc.
  - destruct part as [[g k]|]; [|done]. rewrite slen_app. destruct Hp as (Hb & Hk & Hr). split_and!; [lia|done..].
Qed.

End Rendering.

(* ------------------------------------------------------------------ *)
(** ** The chunks selected                                             *)
(* ------------------------------------------------------------------ *)

(** Ids in order of first appearance. *)
Fixpoint appearances (ids : list string) : list string :=
  match ids with
  | [] => []
  | id :: ids => id :: filter (λ id', id' ≠ id) (appearances ids)
  end.

Lemma elem_of_appearances id ids : id ∈ appearances ids ↔ id ∈ ids.
Proof.
  induction ids as [|i ids IH]; [done|]. cbn [appearances].
  rewrite !elem_of_cons, list_elem_of_filter, IH. destruct (decide (id = i)); tauto.
Qed.

Lemma NoDup_appearances ids : NoDup (appearances ids).
Proof.
  induction ids as [|i ids IH]; constructor; [rewrite list_elem_of_filter; tauto|by apply NoDup_filter].
Qed.

Lemma appearances_snoc ids id :
  appearances (ids ++ [id]) = appearances ids ++ (if decide (id ∈ ids) then [] else [id]).
Proof.
  induction ids as [|i ids IH]; [done|]. cbn [app appearances]. rewrite IH, filter_app. f_equal.
  destruct (decide (id ∈ ids)) as [Hin|Hin].
  - rewrite decide_True by (by right). cbn. by rewrite app_nil_r.
  - destruct (decide (id = i)) as [->|Hne].
    + rewrite decide_True by (by left). by rewrite filter_cons_False by tauto.
    + rewrite (decide_False (P := id ∈ i :: ids)) by (by rewrite elem_of_cons; intros [|]).
      by rewrite filter_cons_True by done.
Qed.

(** The chunks of a document, in order. *)
Definition of_document (id : string) (chunks : list Chunk) : list Chunk := filter (λ c, ck_document_id c = id) chunks.

Lemma grouped chunks :
  let '(groups, doc_order) := foldl add_to_group (∅, []) chunks in
  doc_order = appearances (ck_document_id <$> chunks) ∧
  ∀ id, groups !! id = if decide (id ∈ ck_document_id <$> chunks) then Some (of_document id chunks) else None.
Proof.
  induction chunks as [|c chunks IH] using rev_ind; [done|].
  rewrite foldl_app. cbn [foldl]. destruct (foldl add_to_group (∅, []) chunks) as [groups doc_order].
  destruct IH as [-> Hg]. cbn [add_to_group]. rewrite fmap_app. cbn [fmap list_fmap]. split.
  - rewrite appearances_snoc, Hg. case_decide; [by rewrite app_nil_r|done].
  - intros id. unfold of_document. rewrite filter_app. destruct (decide (ck_document_id c = id)) as [<-|Hne].
    + rewrite lookup_insert_eq, decide_True, Hg by (rewrite elem_of_app; right; by left).
      rewrite (filter_cons_True _ c) by done. do 2 f_equal. case_decide as Hin; [done|]. cbn. symmetry.
      apply filter_none. intros d Hd E. apply Hin. rewrite <- E. by apply list_elem_of_fmap_2.
    + rewrite lookup_insert_ne, Hg by done. rewrite filter_cons_False by done. cbn [filter list_filter]. rewrite app_nil_r.
      apply decide_ext. rewrite elem_of_app, list_elem_of_singleton. split; [by left|]. intros [?| ->]; done.
Qed.

Lemma take_groups_spec groups ids : NoDup ids → take_groups groups ids = (λ id, (id, default [] (groups !! id))) <$> ids.
Proof.
  intros Hn. revert groups. induction Hn as [|id ids Hid _ IH]; intros groups; [done|]. cbn [take_groups fmap list_fmap].
  rewrite IH. f_equal. apply list_fmap_ext. intros i id' Hi%list_elem_of_lookup_2. rewrite lookup_delete_ne; [done|].
  by intros ->.
Qed.

Section Selecting.
Context `{Kernels} (config : ContextAssemblerConfig).

(** The groups: the documents in order of appearance, each with its chunks. *)
Definition document_groups (chunks : list Chunk) : list (string * list Chunk) :=
  (λ id, (id, (if ca_group_by_document config then sort_by by_index else λ l, l) (of_document id chunks)))
    <$> appearances (ck_document_id <$> chunks).

Lemma group_spec chunks : group config chunks = document_groups chunks.
Proof.
  unfold group, document_groups. pose proof (grouped chunks) as Hg.
  destruct (foldl add_to_group (∅, []) chunks) as [groups doc_order]. destruct Hg as [-> Hg].
  rewrite take_groups_spec by apply NoDup_appearances. apply list_fmap_ext.
  intros i id Hi%list_elem_of_lookup_2. rewrite elem_of_appearances in Hi.
  specialize (Hg id). rewrite decide_True in Hg by done.
  f_equal. destruct (ca_group_by_document config); by rewrite ?lookup_fmap, Hg.
Qed.

(** The code takes [a] for a duplicate of [b]. *)
Definition near (a b : Chunk) : bool :=
  match ck_embedding a, ck_embedding b with
  | Some x, Some y => match cosine_distance x y with Some d => f32_lt d (ca_dedup_threshold config) | None => false end
  | _, _ => false
  end.

Lemma duplicate_spec c selected dup :
  duplicate config c selected = Some dup → dup = existsb (near c) selected.
Proof.
  unfold duplicate, near. destruct (ck_embedding c) as [x|]; cycle 1.
  { intros [= <-]. symmetry. apply not_true_is_false. intros (? & _ & ?)%existsb_exists. done. }
  induction selected as [|b selected IH]; cbn [near_selected existsb]; [by intros [= <-]|].
  destruct (ck_embedding b) as [y|]; [|done]. destruct (cosine_distance x y) as [d|]; [|done].
  cbn [mbind option_bind]. destruct (f32_lt d _); [by intros [= <-]|done].
Qed.

(** Of [seen], a later chunk near an earlier selected one is left out, nothing else. *)
Record selection (seen selected : list Chunk) : Prop := {
  sel_sub : sublist selected seen;
  sel_apart i j a b : (i < j)%nat → selected !! i = Some a → selected !! j = Some b → near b a = false;
  sel_covers i c : seen !! i = Some c →
    c ∈ selected ∨ ∃ b j, b ∈ selected ∧ near c b = true ∧ seen !! j = Some b ∧ (j < i)%nat;
}.

Lemma selection_keep seen selected c :
  selection seen selected → existsb (near c) selected = false → selection (seen ++ [c]) (selected ++ [c]).
Proof.
  intros [Hs Ha Hc] Hn. split.
  - by apply sublist_app.
  - intros i j a b Hij Hi Hj. apply lookup_app_Some in Hj as [Hj|[Hl Hj]].
    + apply lookup_lt_Some in Hj as Hlt. rewrite lookup_app_l in Hi by lia. by apply (Ha i j a b).
    + apply list_lookup_singleton_Some in Hj as [Hj0 <-]. rewrite lookup_app_l in Hi by lia.
      apply not_true_is_false. intros Hx. rewrite <- not_true_iff_false in Hn. apply Hn, existsb_exists.
      exists a. split; [|done]. apply list_elem_of_In. by eapply list_elem_of_lookup_2.
  - intros i d Hi. apply lookup_app_Some in Hi as [Hi|[Hl Hi]].
    + destruct (Hc i d Hi) as [|(b & j & Hb & Hd & Hj & Hji)]; [left; apply elem_of_app; by left|].
      right. exists b, j. split_and!; [apply elem_of_app; by left|done|by apply lookup_app_l_Some|done].
    + apply list_lookup_singleton_Some in Hi as [_ <-]. left. apply elem_of_app. right. by left.
Qed.

Lemma selection_skip seen selected c :
  selection seen selected → existsb (near c) selected = true → selection (seen ++ [c]) selected.
Proof.
  intros [Hs Ha Hc] (b & Hb & Hn)%existsb_exists. apply list_elem_of_In in Hb. split; [|done|].
  - by apply sublist_inserts_r.
  - intros i d Hi. apply lookup_app_Some in Hi as [Hi|[Hl Hi]].
    + destruct (Hc i d Hi) as [|(b' & j & Hb' & Hd & Hj & Hji)]; [by left|].
      right. exists b', j. split_and!; [done..|by apply lookup_app_l_Some|done].
    + apply list_lookup_singleton_Some in Hi as [Hi0 <-]. right.
      assert (Hb' : b ∈ seen) by (eapply elem_of_submseteq; [exact Hb|by apply sublist_submseteq]).
      apply list_elem_of_lookup in Hb' as [j Hj]. exists b, j. apply lookup_lt_Some in Hj as Hlt.
      split_and!; [done..|by apply lookup_app_l_Some|lia].
Qed.

Lemma dedup_into_spec seen selected chunks out :
  selection seen selected → dedup_into config selected chunks = Some out → selection (seen ++ chunks) out.
Proof.
  revert seen selected. induction chunks as [|c chunks IH]; intros seen selected Hs; cbn [dedup_into].
  { intros [= <-]. by rewrite app_nil_r. }
  destruct (duplicate config c selected) as [dup|] eqn:Ed; [|done]. cbn [mbind option_bind]. intros Ho.
  apply duplicate_spec in Ed. rewrite (cons_middle c seen chunks), app_assoc. eapply IH; [|exact Ho].
  destruct dup; [by apply selection_skip|by apply selection_keep].
Qed.

(** C29: assembly keeps the nearest chunks.  When no distance is a NaN and assembly
    does not panic, the context is rendered from chunks of the input, taken from the
    input sorted by distance; no selected chunk is within the threshold of a nearer
    selected one; a chunk left out is within the threshold of a selected one that is no
    farther from the query; and the groups rendered are the documents in the order of
    their nearest chunk, each with its selected chunks, by index when asked. *)
Theorem assembly_selects chunks ctx :
  Forall (λ c, is_nan (ck_distance c) = false) chunks → assemble_chunks config chunks = Some ctx →
  ∃ sorted selected, sorted ≡ₚ chunks ∧ StronglySorted (by_key (λ c, f32_key (ck_distance c))) sorted ∧
    sublist selected sorted ∧
    (∀ i j a b, (i < j)%nat → selected !! i = Some a → selected !! j = Some b → near b a = false) ∧
    (∀ c, c ∈ chunks → c ∈ selected ∨
      ∃ b, b ∈ selected ∧ near c b = true ∧ f32_key (ck_distance b) ≤ f32_key (ck_distance c)) ∧
    ctx = render config (document_groups selected).
Proof.
  intros Hnan. unfold assemble_chunks. destruct (dedup config _) as [selected|] eqn:Ed; [|done].
  cbn [mbind option_bind]. intros [= <-].
  assert (Hk : keyed chunk_compare (λ c, f32_key (ck_distance c)) chunks).
  { intros x y Hx Hy. rewrite Forall_forall in Hnan. unfold chunk_compare, partial_cmp.
    by rewrite (Hnan x Hx), (Hnan y Hy). }
  pose proof (sort_by_sorted _ _ _ Hk) as Hs. pose proof (sort_by_perm chunk_compare chunks) as Hp.
  destruct (dedup_into_spec [] [] _ _ ltac:(by split) Ed) as [Hsub Hap Hcov]. cbn [app] in *.
  exists (sort_by chunk_compare chunks), selected. split_and!; [done..| |by rewrite group_spec].
  intros c Hc. rewrite <- Hp in Hc. apply list_elem_of_lookup in Hc as [i Hi].
  destruct (Hcov i c Hi) as [|(b & j & Hb & Hn & Hj & Hji)]; [by left|]. right. exists b. split_and!; [done..|].
  by apply (sorted_lookup (λ c, f32_key (ck_distance c)) _ j i b c Hs).
Qed.

End Selecting.

(* ------------------------------------------------------------------ *)
(** ** Examples                                                        *)
(* ------------------------------------------------------------------ *)

#[local] Instance example_kernels : Kernels := scalar_kernels.

Definition note (doc : string) (index : Z) (text : string) (distance : f32bits) (e : vec32) : Chunk :=
  mk_chunk doc index text (Some doc) None None distance (Some e).

(** Three notes of two documents: distances 0.5, 0.25 and 1; the last repeats the
    second's embedding. *)
Definition notes : list Chunk :=
  [note "a" 1 "x < y & z" 1056964608 [1065353216; 0]; note "b" 0 "second" 1048576000 [0; 1065353216];
   note "b" 1 "again" 1065353216 [0; 1065353216]].

Lemma assembly_selects_witness :
  ∃ ctx, assemble_chunks default_assembler notes = Some ctx ∧
  ∃ sorted selected, sorted ≡ₚ notes ∧ StronglySorted (by_key (λ c, f32_key (ck_distance c))) sorted ∧
    sublist selected sorted ∧
    (∀ i j a b, (i < j)%nat → selected !! i = Some a → selected !! j = Some b → near default_assembler b a = false) ∧
    (∀ c, c ∈ notes → c ∈ selected ∨
      ∃ b, b ∈ selected ∧ near default_assembler c b = true ∧ f32_key (ck_distance b) ≤ f32_key (ck_distance c)) ∧
    ctx = render default_assembler (document_groups default_assembler selected).
Proof.
  destruct (assemble_chunks default_assembler notes) as [ctx|] eqn:E; [|exfalso; vm_compute in E; discriminate E].
  exists ctx. split; [reflexivity|]. apply (assembly_selects default_assembler notes ctx); [|exact E].
  unfold notes. repeat (apply Forall_cons; split; [reflexivity|]). apply Forall_nil. exact I.
Defined.

(** The repeated note is dropped; the nearest note's document comes first. *)
Example notes_assembled :
  (λ ctx, (ac_chunk_count ctx, read_tags (ac_text ctx))) <$> assemble_chunks default_assembler notes =
  Some (2, Some [("", OpenTag "context" []);
    (indent 2, OpenTag "document" [("id", "b"); ("title", "b"); ("source", "")]);
    (indent 4, OpenTag "chunk" [("index", "0"); ("section", "")]); (indent 6, OpenTag "text" []);
    ("second", CloseTag "text"); (indent 4, CloseTag "chunk"); (indent 2, CloseTag "document");
    (indent 2, OpenTag "document" [("id", "a"); ("title", "a"); ("source", "")]);
    (indent 4, OpenTag "chunk" [("index", "1"); ("section", "")]); (indent 6, OpenTag "text" []);
    ("x < y & z", CloseTag "text"); (indent 4, CloseTag "chunk"); (indent 2, CloseTag "document");
    (newline, CloseTag "context")]).
Proof. vm_compute. reflexivity. Qed.

(** A budget of two tokens: a document is opened and never closed, and the text is
    several times the budget. *)
Example exhausted_budget :
  let config := mk_assembler 2 1028443341 true 10 in
  (λ ctx, (ac_chunk_count ctx, char_budget config, slen (ac_text ctx), read_tags (ac_text ctx)))
    <$> assemble_chunks config notes =
  Some (0, 8, 60, Some [("", OpenTag "context" []);
    (indent 2, OpenTag "document" [("id", "b"); ("title", "b"); ("source", "")]); (newline, CloseTag "context")]).
Proof. vm_compute. reflexivity. Qed.

(** Plain texts: the first one pays for a separator it does not get, so a text that
    fills the budget is refused. *)
Example text_fills_budget :
  assemble_texts (mk_assembler 2 0 true 10) ["12345678"] = mk_context "" 0 0 ∧
  assemble_texts (mk_assembler 2 0 true 10) ["123456"] = mk_context "123456" 1 1.
Proof. split; vm_compute; reflexivity. Qed.
