(* ===== verification/Catalog.v ===== *)
(** * Table metadata, commits and the Hadoop catalog

    Models [ailake-catalog/src/metadata.rs] (the [metadata.json] record and its
    table view), [ailake-catalog/src/manifest_commit.rs] (building and applying a
    commit, listing the files and deletes of a snapshot) and
    [ailake-catalog/src/hadoop.rs] (the version-hint catalog over a store).

    The clock and the fresh table id are arguments.  [commit_lock] serializes the
    commits of one process: a commit is one program of [Effects].  JSON, Avro,
    [bincode] and Parquet libraries are class parameters. *)

From S2P Require Import Prelude Core Store Effects Avro Manifest Json Puffin FileFormat.

(* ------------------------------------------------------------------ *)
(** ** Data                                                            *)
(* ------------------------------------------------------------------ *)

Record BlobRef : Type := mk_blobref {
  br_blob_type : string;
  br_snapshot_id : Z;
  br_sequence_number : Z;
  br_fields : list Z;
  br_offset : Z;
  br_length : Z;
}.

Record IcebergStatisticsRef : Type := mk_statref {
  sr_snapshot_id : Z;
  sr_statistics_path : string;
  sr_file_size_in_bytes : Z;
  sr_file_footer_size_in_bytes : Z;
  sr_blob_file_references : list BlobRef;
}.

Record IcebergPartitionStatsRef : Type := mk_pstatref {
  pr_snapshot_id : Z;
  pr_statistics_path : string;
  pr_file_size_in_bytes : Z;
}.

Record IcebergSnapshot : Type := mk_snap {
  sn_snapshot_id : Z;
  sn_parent_snapshot_id : option Z;
  sn_sequence_number : Z;
  sn_timestamp_ms : Z;
  sn_manifest_list : string;
  sn_summary : gmap string string;
  sn_schema_id : option Z;
}.

Record IcebergMetadata : Type := mk_meta {
  im_format_version : Z;
  im_table_uuid : string;
  im_location : string;
  im_last_sequence_number : Z;
  im_next_row_id : Z;
  im_last_updated_ms : Z;
  im_last_column_id : Z;
  im_schemas : list Json;
  im_current_schema_id : Z;
  im_partition_specs : list Json;
  im_default_spec_id : Z;
  im_last_partition_id : Z;
  im_properties : gmap string string;
  im_current_snapshot_id : option Z;
  im_snapshots : list IcebergSnapshot;
  im_snapshot_log : list Json;
  im_metadata_log : list Json;
  im_sort_orders : list Json;
  im_default_sort_order_id : Z;
  im_refs : gmap string Json;
  im_statistics : list IcebergStatisticsRef;
  im_partition_statistics : list IcebergPartitionStatsRef;
}.

Record TableIdent : Type := mk_ident {
  ti_namespace : string;
  ti_name : string;
}.

Record SchemaField : Type := mk_sfield {
  sf_id : Z;
  sf_name : string;
  sf_required : bool;
  sf_iceberg_type : string;
  sf_initial_default : option Json;
  sf_write_default : option Json;
}.

Record TableMetadata : Type := mk_table {
  tm_table_uuid : string;
  tm_format_version : Z;
  tm_location : string;
  tm_properties : gmap string string;
  tm_current_snapshot_id : option Z;
  tm_current_statistics_path : option string;
  tm_schema_fields : list SchemaField;
  tm_equality_delete_files : list EqualityDeleteFile;
  tm_partition_spec : option PartitionSpec;
}.

Record IcebergSchemaUpdate : Type := mk_supdate {
  su_fields : list Json;
  su_last_column_id : Z;
  su_name_mapping_json : string;
}.

Inductive SnapshotOperation : Type := Append | Overwrite | Delete | Replace.

Record NewSnapshot : Type := mk_newsnap {
  ns_snapshot_id : Z;
  ns_parent_snapshot_id : option Z;
  ns_files : list DataFileEntry;
  ns_operation : SnapshotOperation;
  ns_iceberg_schema : option IcebergSchemaUpdate;
  ns_extra_properties : gmap string string;
  ns_bloom_filters : list (string * bytes);
  ns_equality_delete_files : list EqualityDeleteFile;
}.

Record TableProperties : Type := mk_tprops {
  tp_policy : VectorStoragePolicy;
  tp_extra : gmap string string;
  tp_format_version : Z;
  tp_partition_column_type : option string;
}.

Record SchemaPatch : Type := mk_patch {
  pt_new_schema_fields : list Json;
  pt_last_column_id : Z;
  pt_name_mapping_json : string;
  pt_remapped_partition_specs : list Json;
}.

Record CommitArtifacts : Type := mk_artifacts {
  ca_snapshot : IcebergSnapshot;
  ca_next_row_id : Z;
  ca_last_sequence_number : Z;
  ca_last_updated_ms : Z;
  ca_schema_patch : option SchemaPatch;
  ca_extra_properties : gmap string string;
  ca_statistics : option IcebergStatisticsRef;
  ca_partition_statistics : option IcebergPartitionStatsRef;
}.

(** [serde_json] at [IcebergMetadata], and the Parquet writer of partition
    statistics (column name, rows of value, records, files, bytes). *)
Class MetaLib : Type := {
  to_json : IcebergMetadata → AilakeResult string;
  from_json : string → AilakeResult IcebergMetadata;
  parquet_partition_stats : string → list (option string * Z * Z * Z) → AilakeResult bytes;
}.

(* ------------------------------------------------------------------ *)
(** ** UTF-8 and small text helpers                                    *)
(* ------------------------------------------------------------------ *)

Definition in_range (lo hi b : Z) : bool := (lo <=? b) && (b <=? hi).
Definition cont (b : Z) : bool := in_range 128 191 b.

(** [str::from_utf8(..).is_ok()]. *)
Fixpoint utf8_valid (bs : bytes) : bool :=
  match bs with
  | [] => true
  | b0 :: r0 =>
      if in_range 0 127 b0 then utf8_valid r0
      else match r0 with
      | [] => false
      | b1 :: r1 =>
          if in_range 194 223 b0 then cont b1 && utf8_valid r1
          else match r1 with
          | [] => false
          | b2 :: r2 =>
              if b0 =? 224 then in_range 160 191 b1 && cont b2 && utf8_valid r2
              else if b0 =? 237 then in_range 128 159 b1 && cont b2 && utf8_valid r2
              else if in_range 225 239 b0 then cont b1 && cont b2 && utf8_valid r2
              else match r2 with
              | [] => false
              | b3 :: r3 =>
                  if b0 =? 240 then in_range 144 191 b1 && cont b2 && cont b3 && utf8_valid r3
                  else if in_range 241 243 b0 then cont b1 && cont b2 && cont b3 && utf8_valid r3
                  else if b0 =? 244 then in_range 128 143 b1 && cont b2 && cont b3 && utf8_valid r3
                  else false
              end
          end
      end
  end.

Definition from_utf8 (bs : bytes) : option string := if utf8_valid bs then Some (of_bytes bs) else None.

(** [str::trim] on one-byte white space. *)
Definition is_space (c : Ascii.ascii) : bool :=
  let n := Z.of_N (Ascii.N_of_ascii c) in in_range 9 13 n || (n =? 32).
Fixpoint trim_start (s : string) : string :=
  match s with
  | EmptyString => EmptyString
  | String c s' => if is_space c then trim_start s' else s
  end.
Fixpoint trim_end (s : string) : string :=
  match s with
  | EmptyString => EmptyString
  | String c s' =>
      match trim_end s' with
      | EmptyString => if is_space c then EmptyString else String c EmptyString
      | t => String c t
      end
  end.
Definition trim (s : string) : string := trim_end (trim_start s).

(** [trim_end_matches('/')]. *)
Definition slash : Ascii.ascii := Ascii.ascii_of_nat 47.
Fixpoint trim_end_slashes (s : string) : string :=
  match s with
  | EmptyString => EmptyString
  | String c s' =>
      match trim_end_slashes s' with
      | EmptyString => if Ascii.eqb c slash then EmptyString else String c EmptyString
      | t => String c t
      end
  end.

Definition add_i64 (a b : Z) : Z := as_i64 (a + b).
Definition as_i32 (n : Z) : Z := signed 32 (wrap 32 n).

(** [path.starts_with('/') || path.contains("://")]. *)
Definition is_absolute (p : string) : bool := starts_with "/" p || contains "://" p.

(** [format!("{:?}", m).to_lowercase()]. *)
Definition metric_debug (m : VectorMetric) : string :=
  match m with
  | Cosine => "cosine" | Euclidean => "euclidean" | DotProduct => "dotproduct"
  | NormalizedCosine => "normalizedcosine"
  end.
Definition operation_debug (o : SnapshotOperation) : string :=
  match o with
  | Append => "append" | Overwrite => "overwrite" | Delete => "delete" | Replace => "replace"
  end.

(* ------------------------------------------------------------------ *)
(** ** The metadata record                                             *)
(* ------------------------------------------------------------------ *)

(** Optional properties are inserted only when present. *)
Definition insert_opt (k : string) (v : option string) (m : gmap string string) : gmap string string :=
  match v with Some v => <[k := v]> m | None => m end.

Definition bootstrap_properties (policy : VectorStoragePolicy) : gmap string string :=
  let m : gmap string string := ∅ in
  let m := <["ailake.format-version" := "1"]> m in
  let m := <["ailake.vector-column" := column_name policy]> m in
  let m := <["ailake.vector-dim" := to_string (policy_dim policy)]> m in
  let m := <["ailake.vector-metric" := metric_debug (policy_metric policy)]> m in
  let m := <["ailake.vector-precision" := precision_str (policy_precision policy)]> m in
  let m := insert_opt "ailake.hnsw-m" (to_string <$> hnsw_m policy) m in
  let m := insert_opt "ailake.hnsw-ef-construction" (to_string <$> hnsw_ef_construction policy) m in
  let m := if pre_normalize policy then <["ailake.pre-normalize" := "true"]> m else m in
  let m := match embedding_model policy with
           | Some model =>
               let m := <["ailake.embedding-model" := to_property_value model]> m in
               let m := insert_opt "ailake.embedding-model-dim" (to_string <$> model_dim model) m in
               insert_opt "ailake.embedding-model-metric" (metric_debug <$> model_metric model) m
           | None => m
           end in
  let m := match modality policy with
           | Some md => <["ailake.modality-" +:+ column_name policy := modality_as_str md]> m
           | None => m
           end in
  insert_opt "ailake.partition-by" (partition_by policy) m.

Definition schema_field_json (id : Z) (name type_ : string) : Json :=
  json_object [("id", JInt id); ("name", JStr name); ("required", JBool false); ("type", JStr type_)].
Definition spec_field_json (name transform : string) (source_id field_id : Z) : Json :=
  json_object [("name", JStr name); ("transform", JStr transform);
               ("source-id", JInt source_id); ("field-id", JInt field_id)].
Definition schema_json (id : Z) (fields : list Json) : Json :=
  json_object [("schema-id", JInt id); ("type", JStr "struct"); ("fields", JArr fields)].
Definition spec_json (id : Z) (fields : list Json) : Json :=
  json_object [("spec-id", JInt id); ("fields", JArr fields)].

(** Schema, last column id, specs, default spec and last partition id of a new table. *)
Definition bootstrap_layout (policy : VectorStoragePolicy) (partition_column_type : option string)
    (partition_fields : list PartitionDef) : list Json * Z * list Json * Z * Z :=
  match partition_fields with
  | _ :: _ =>
      let schema_fields := imap (λ i pf,
        schema_field_json (Z.of_nat i + 1) (pd_column pf) (pd_column_type pf)) partition_fields in
      let spec_fields := imap (λ i pf,
        spec_field_json (pd_column pf) (pd_transform pf) (Z.of_nat i + 1) (1000 + Z.of_nat i))
        partition_fields in
      let n := Zlen partition_fields in
      ([schema_json 0 schema_fields], n, [spec_json 0 []; spec_json 1 spec_fields], 1, 1000 + n - 1)
  | [] =>
      match partition_by policy with
      | Some col =>
          let col_type := default "string" partition_column_type in
          ([schema_json 0 [schema_field_json 1 col col_type]], 1,
           [spec_json 0 []; spec_json 1 [spec_field_json col "identity" 1 1000]], 1, 1000)
      | None => ([schema_json 0 []], 0, [spec_json 0 []], 0, 999)
      end
  end.

(** [IcebergMetadata::new]. *)
Definition metadata_new (location : string) (policy : VectorStoragePolicy) (format_version : Z)
    (partition_column_type : option string) (partition_fields : list PartitionDef)
    (now : Z) (uuid : string) : IcebergMetadata :=
  let '(schemas, last_column_id, partition_specs, default_spec_id, last_partition_id) :=
    bootstrap_layout policy partition_column_type partition_fields in
  mk_meta (Z.max format_version 2) uuid location 0 0 now last_column_id schemas 0 partition_specs
    default_spec_id last_partition_id (bootstrap_properties policy) None [] [] []
    [json_object [("order-id", JInt 0); ("fields", JArr [])]] 0 ∅ [] [].

(** [s[key].as_i64() == Some(id as i64)]. *)
Definition has_id (key : string) (id : Z) (s : Json) : bool :=
  bool_decide (json_i64 (json_index key s) = Some id).

Section Metadata.
Context `{JsonLib}.

Definition schema_field_of (f : Json) : option SchemaField :=
  id ← json_i64 (json_index "id" f);
  name ← json_str (json_index "name" f);
  let required := default false (json_bool (json_index "required" f)) in
  let iceberg_type := match json_index "type" f with JStr s => s | other => json_to_string other end in
  let non_null (o : option Json) := v ← o; if json_is_null v then None else Some v in
  Some (mk_sfield (as_i32 id) name required iceberg_type
    (non_null (json_get "initial-default" f)) (non_null (json_get "write-default" f))).

Definition current_schema (meta : IcebergMetadata) : option Json :=
  List.find (has_id "schema-id" (im_current_schema_id meta)) (im_schemas meta).

Definition schema_fields_of (meta : IcebergMetadata) : list SchemaField :=
  match current_schema meta with
  | Some s =>
      match json_array (json_index "fields" s) with
      | Some fields => omap schema_field_of fields
      | None => []
      end
  | None => []
  end.

Definition partition_field_of (schema_fields : list SchemaField) (f : Json) : option PartitionField :=
  source_id ← json_i64 (json_index "source-id" f);
  field_id ← json_i64 (json_index "field-id" f);
  name ← json_str (json_index "name" f);
  let source_id := as_i32 source_id in
  let transform := default "identity" (json_str (json_index "transform" f)) in
  let source_type := match List.find (λ sf, sf_id sf =? source_id) schema_fields with
                     | Some sf => sf_iceberg_type sf
                     | None => "string"
                     end in
  Some (mk_pfield source_id (as_i32 field_id) name transform source_type).

Definition partition_spec_of (meta : IcebergMetadata) : option PartitionSpec :=
  s ← List.find (has_id "spec-id" (im_default_spec_id meta)) (im_partition_specs meta);
  spec_id ← json_i64 (json_index "spec-id" s);
  arr ← json_array (json_index "fields" s);
  match omap (partition_field_of (schema_fields_of meta)) arr with
  | [] => None
  | fields => Some (mk_pspec (as_i32 spec_id) fields)
  end.

Definition current_statistics_path (meta : IcebergMetadata) : option string :=
  snap_id ← im_current_snapshot_id meta;
  s ← List.find (λ s, sr_snapshot_id s =? snap_id) (rev (im_statistics meta));
  Some (sr_statistics_path s).

Definition to_table_metadata (meta : IcebergMetadata) : TableMetadata :=
  mk_table (im_table_uuid meta) (im_format_version meta) (im_location meta) (im_properties meta)
    (im_current_snapshot_id meta) (current_statistics_path meta) (schema_fields_of meta) []
    (partition_spec_of meta).

End Metadata.

(* ------------------------------------------------------------------ *)
(** ** Building a commit                                               *)
(* ------------------------------------------------------------------ *)

(** [as_chunks::<4>]: whole groups of four bytes. *)
Fixpoint chunks4 (bs : bytes) : list bytes :=
  match bs with
  | a :: b :: c :: d :: bs => [a; b; c; d] :: chunks4 bs
  | _ => []
  end.

Section Commit.
Context {S : Type} `{Store S} `{AvroLib} `{SerdeLib} `{JsonLib} `{BincodeLib} `{MetaLib}.

Definition collect_vector_stats (files : list DataFileEntry) : list VectorStatEntry :=
  omap (λ f,
    b64 ← df_centroid_b64 f;
    bytes ← base64_decode b64;
    let centroid := from_le <$> chunks4 bytes in
    radius ← df_radius f;
    Some (mk_vstat (df_path f) centroid radius)) files.

(** Manifests name files by absolute path when the warehouse has one. *)
Definition absolute_file (warehouse : string) (f : DataFileEntry) : DataFileEntry :=
  let path := if is_absolute (df_path f) then df_path f
              else if is_absolute warehouse then warehouse +:+ "/" +:+ df_path f
              else df_path f in
  mk_file path (df_record_count f) (df_file_size_bytes f) (df_centroid_b64 f) (df_radius f)
    (df_hnsw_offset f) (df_hnsw_len f) (df_vector_column f) (df_vector_dim f)
    (df_extra_vector_indexes f) (df_index_status f) (df_index_error f) (df_batch_id f)
    (df_embedding_model f) (df_partition_value f) (df_deletion_vector f) (df_first_row_id f)
    (df_column_stats f) (df_sequence_number f).

Definition set_first_row_id (f : DataFileEntry) (id : Z) : DataFileEntry :=
  mk_file (df_path f) (df_record_count f) (df_file_size_bytes f) (df_centroid_b64 f) (df_radius f)
    (df_hnsw_offset f) (df_hnsw_len f) (df_vector_column f) (df_vector_dim f)
    (df_extra_vector_indexes f) (df_index_status f) (df_index_error f) (df_batch_id f)
    (df_embedding_model f) (df_partition_value f) (df_deletion_vector f) (Some id)
    (df_column_stats f) (df_sequence_number f).

(** Row ids for the files that have none; the counter after them. *)
Fixpoint assign_row_ids (next_row_id : Z) (files : list DataFileEntry) : list DataFileEntry * Z :=
  match files with
  | [] => ([], next_row_id)
  | f :: fs =>
      match df_first_row_id f with
      | Some _ => let '(fs, n) := assign_row_ids next_row_id fs in (f :: fs, n)
      | None =>
          let '(fs, n) := assign_row_ids (add_i64 next_row_id (as_i64 (df_record_count f))) fs in
          (set_first_row_id f next_row_id :: fs, n)
      end
  end.

Definition absolute_delete (table_root : string) (d : EqualityDeleteFile) : EqualityDeleteFile :=
  mk_eqdel (if is_absolute (ed_path d) then ed_path d else table_root +:+ "/" +:+ ed_path d)
    (ed_equality_ids d) (ed_record_count d) (ed_file_size_bytes d) None 0.

(** [matches!(op, Append | Delete)]: the commit keeps the previous manifests. *)
Definition inherits (op : SnapshotOperation) : bool :=
  match op with Append | Delete => true | Overwrite | Replace => false end.

(** The manifests of the previous snapshot, with their sizes; any failure to read
    the list leaves none. *)
Definition previous_manifests (meta : IcebergMetadata) (op : SnapshotOperation)
    : IO S (list (string * Z * Z)) :=
  if inherits op then
    match last (im_snapshots meta) with
    | None => mret []
    | Some prev =>
        ml ← io_get (sn_manifest_list prev);
        match ml with
        | Err _ => mret []
        | Ok ml_bytes =>
            match read_manifest_list_typed ml_bytes with
            | Err _ => mret []
            | Ok manifests =>
                io_map (λ pc : string * Z,
                  len ← io_file_size pc.1;
                  mret (pc.1, as_i64 (match len with Ok n => n | Err _ => 0 end), pc.2)) manifests
            end
        end
    end
  else mret [].

(** A partition field gets the id its column has in the new schema. *)
Definition remap_field (new_id_by_name : gmap string Z) (pf : Json) : option Json :=
  match json_str (json_index "name" pf) with
  | Some name =>
      match new_id_by_name !! name with
      | Some id => json_set "source-id" (JInt id) pf
      | None => Some pf
      end
  | None => Some pf
  end.

(** The mutable index [spec["fields"]] creates a null entry when there is none. *)
Definition remap_spec (new_id_by_name : gmap string Z) (spec : Json) : option Json :=
  let v := json_index "fields" spec in
  v ← match json_array v with
      | Some fields => JArr <$> mapM (remap_field new_id_by_name) fields
      | None => Some v
      end;
  json_set "fields" v spec.

(** Later fields of the same name win, as in the collected [HashMap]. *)
Definition new_ids (fields : list Json) : gmap string Z :=
  foldl (λ m f,
    match json_str (json_index "name" f), json_i64 (json_index "id" f) with
    | Some name, Some id => <[name := id]> m
    | _, _ => m
    end) ∅ fields.

Definition schema_patch_of (meta : IcebergMetadata) (u : IcebergSchemaUpdate) : option SchemaPatch :=
  specs ← mapM (remap_spec (new_ids (su_fields u))) (im_partition_specs meta);
  Some (mk_patch (su_fields u) (su_last_column_id u) (su_name_mapping_json u) specs).

(** Phase F: the statistics file of a version-3 table; its failures are logged only. *)
Definition write_statistics (table_root : string) (meta : IcebergMetadata) (snap_id seq : Z)
    (abs_files : list DataFileEntry) (bloom_filters : list (string * bytes))
    : IO S (option IcebergStatisticsRef) :=
  let vector_stats := collect_vector_stats abs_files in
  let bm25_blooms := (λ pb : string * bytes, mk_bloom pb.1 pb.2) <$> bloom_filters in
  if (3 <=? im_format_version meta) && negb (bool_decide (vector_stats = [])) then
    match write_stats vector_stats bm25_blooms snap_id with
    | Err _ => mret None
    | Ok result =>
        let puffin_path := table_root +:+ "/metadata/stats-" +:+ to_string snap_id +:+ ".puffin" in
        r ← io_put puffin_path (pr_bytes result);
        match r with
        | Err _ => mret None
        | Ok _ =>
            let blob t (ol : Z * Z) := mk_blobref t snap_id seq [] ol.1 ol.2 in
            mret (Some (mk_statref snap_id puffin_path (Zlen (pr_bytes result)) (pr_footer_size result)
              (blob BLOB_TYPE_VECTOR_STATS (pr_vector_stats_blob result) ::
               match pr_bm25_bloom_blob result with
               | Some ol => [blob BLOB_TYPE_BM25_BLOOM ol]
               | None => []
               end)))
        end
    end
  else mret None.

(** Per-partition totals, in key order; the empty key is the null partition. *)
Definition add_totals (m : gmap string (Z * Z * Z)) (f : DataFileEntry) : gmap string (Z * Z * Z) :=
  let key := default "" (df_partition_value f) in
  let '(rc, fc, ts) := default (0, 0, 0) (m !! key) in
  <[key := (add_i64 rc (as_i64 (df_record_count f)), add_i64 fc 1,
            add_i64 ts (as_i64 (df_file_size_bytes f)))]> m.

Definition key_le (a b : string * (Z * Z * Z)) : Prop := String.leb a.1 b.1 = true.
#[global] Instance key_le_dec a b : Decision (key_le a b).
Proof. unfold key_le. apply _. Defined.

Definition partition_totals (files : list DataFileEntry) : list (option string * Z * Z * Z) :=
  (λ kv : string * (Z * Z * Z),
    (if String.eqb kv.1 "" then None else Some kv.1, kv.2.1.1, kv.2.1.2, kv.2.2))
  <$> merge_sort key_le (map_to_list (foldl add_totals ∅ files)).

Definition write_partition_stats_parquet (spec : PartitionSpec) (files : list DataFileEntry)
    : AilakeResult bytes :=
  match ps_fields spec with
  | [] => Err CatalogError
  | f :: _ => parquet_partition_stats (pf_name f) (partition_totals files)
  end.

(** Phase J: the entries of every data manifest; what cannot be read is skipped. *)
Definition read_data_entries (manifests : list (string * Z * Z)) : IO S (list DataFileEntry) :=
  l ← io_map (λ m : string * Z * Z,
    if m.2 =? 0 then
      r ← io_get m.1.1;
      mret (match r with
            | Ok mb => match read_manifest_file mb with Ok es => es | Err _ => [] end
            | Err _ => []
            end)
    else mret []) manifests;
  mret (mjoin l).

Definition write_partition_statistics (table_root : string) (snap_id : Z)
    (active_partition_spec : option PartitionSpec) (all_manifests : list (string * Z * Z))
    : IO S (option IcebergPartitionStatsRef) :=
  match active_partition_spec with
  | None => mret None
  | Some spec =>
      if is_unpartitioned spec then mret None
      else
        entries ← read_data_entries all_manifests;
        match write_partition_stats_parquet spec entries with
        | Err _ => mret None
        | Ok stats_bytes =>
            let stats_path :=
              table_root +:+ "/metadata/partition-stats-" +:+ to_string snap_id +:+ ".parquet" in
            r ← io_put stats_path stats_bytes;
            match r with
            | Err _ => mret None
            | Ok _ => mret (Some (mk_pstatref snap_id stats_path (Zlen stats_bytes)))
            end
        end
  end.

Definition manifest_file_path (table_root : string) (snap_id : Z) : string :=
  table_root +:+ "/metadata/" +:+ to_string snap_id +:+ "-m0.avro".
Definition del_manifest_path (table_root : string) (snap_id : Z) : string :=
  table_root +:+ "/metadata/" +:+ to_string snap_id +:+ "-eq-del.avro".
Definition manifest_list_path (table_root : string) (snap_id : Z) : string :=
  table_root +:+ "/metadata/snap-" +:+ to_string snap_id +:+ "-1.avro".

(** The schema text of the manifest: the current schema, or an empty one. *)
Definition table_schema_json (meta : IcebergMetadata) : string :=
  json_to_string
    (match current_schema meta with Some s => s | None => schema_json 0 [] end).

(** The files as committed: absolute paths, row ids on version 3. *)
Definition commit_files (warehouse : string) (meta : IcebergMetadata) (files : list DataFileEntry)
    : list DataFileEntry * Z :=
  let abs_files := absolute_file warehouse <$> files in
  if 3 <=? im_format_version meta then assign_row_ids (im_next_row_id meta) abs_files
  else (abs_files, im_next_row_id meta).

Definition build_commit (table_root warehouse : string) (meta : IcebergMetadata)
    (snapshot : NewSnapshot) (now : Z) : IO S CommitArtifacts :=
  let snap_id := ns_snapshot_id snapshot in
  let seq := add_i64 (im_last_sequence_number meta) 1 in
  let partition_spec_json := json_to_string (JArr (im_partition_specs meta)) in
  let active_partition_spec := tm_partition_spec (to_table_metadata meta) in
  let '(abs_files, next_row_id) := commit_files warehouse meta (ns_files snapshot) in
  let added_rows := foldl (λ n f, add_i64 n (as_i64 (df_record_count f))) 0 abs_files in
  let manifest_path := manifest_file_path table_root snap_id in
  let manifest_bytes := write_manifest_file abs_files snap_id seq (table_schema_json meta)
    partition_spec_json (wrap 8 (im_format_version meta)) active_partition_spec in
  put_ manifest_path manifest_bytes;;
  prev ← previous_manifests meta (ns_operation snapshot);
  let all_manifests := prev ++ [(manifest_path, Zlen manifest_bytes, 0)] in
  let abs_eq_deletes := absolute_delete table_root <$> ns_equality_delete_files snapshot in
  all_manifests ←
    match abs_eq_deletes with
    | [] => mret all_manifests
    | _ =>
        let del_path := del_manifest_path table_root snap_id in
        let del_bytes := write_equality_delete_manifest abs_eq_deletes snap_id seq in
        put_ del_path del_bytes;;
        mret (all_manifests ++ [(del_path, Zlen del_bytes, 1)])
    end;
  let list_path := manifest_list_path table_root snap_id in
  put_ list_path (write_manifest_list_multi_typed all_manifests snap_id seq added_rows);;
  let iceberg_snap := mk_snap snap_id (ns_parent_snapshot_id snapshot) seq now list_path
    (<["operation" := operation_debug (ns_operation snapshot)]>
      {["added-data-files" := to_string (Zlen (ns_files snapshot))]}) (Some 0) in
  schema_patch ← io_outcome
    (match ns_iceberg_schema snapshot with
     | Some u => p ← or_panic (schema_patch_of meta u); Ret (Ok (Some p))
     | None => Ret (Ok None)
     end);
  statistics ← write_statistics table_root meta snap_id seq abs_files (ns_bloom_filters snapshot);
  partition_statistics ←
    write_partition_statistics table_root snap_id active_partition_spec all_manifests;
  mret (mk_artifacts iceberg_snap next_row_id seq now schema_patch (ns_extra_properties snapshot)
    statistics partition_statistics).

(** [meta.schemas.first_mut()], its ["fields"] replaced. *)
Definition patch_first_schema (fields : list Json) (schemas : list Json) : option (list Json) :=
  match schemas with
  | [] => Some []
  | s :: rest => s ← json_set "fields" (JArr fields) s; Some (s :: rest)
  end.

(** [None] is the panic of indexing a schema that is not an object. *)
Definition apply_commit (meta : IcebergMetadata) (a : CommitArtifacts) : option IcebergMetadata :=
  let next_row_id := if 3 <=? im_format_version meta then ca_next_row_id a else im_next_row_id meta in
  '(specs, schemas, last_column_id, properties) ←
    match ca_schema_patch a with
    | None => Some (im_partition_specs meta, im_schemas meta, im_last_column_id meta, im_properties meta)
    | Some p =>
        schemas ← patch_first_schema (pt_new_schema_fields p) (im_schemas meta);
        Some (pt_remapped_partition_specs p, schemas, pt_last_column_id p,
              <["schema.name-mapping.default" := pt_name_mapping_json p]> (im_properties meta))
    end;
  Some (mk_meta (im_format_version meta) (im_table_uuid meta) (im_location meta)
    (ca_last_sequence_number a) next_row_id (ca_last_updated_ms a) last_column_id schemas
    (im_current_schema_id meta) specs (im_default_spec_id meta) (im_last_partition_id meta)
    (ca_extra_properties a ∪ properties) (Some (sn_snapshot_id (ca_snapshot a)))
    (im_snapshots meta ++ [ca_snapshot a]) (im_snapshot_log meta) (im_metadata_log meta)
    (im_sort_orders meta) (im_default_sort_order_id meta) (im_refs meta)
    (im_statistics meta ++ option_list (ca_statistics a))
    (im_partition_statistics meta ++ option_list (ca_partition_statistics a))).

(** The updated metadata is returned with the snapshot id. *)
Definition commit_into_metadata (table_root warehouse : string) (meta : IcebergMetadata)
    (snapshot : NewSnapshot) (now : Z) : IO S (IcebergMetadata * Z) :=
  artifacts ← build_commit table_root warehouse meta snapshot now;
  let snap_id := sn_snapshot_id (ca_snapshot artifacts) in
  meta ← io_outcome (or_panic (apply_commit meta artifacts));
  mret (meta, snap_id).

(** The manifest list of the active or given snapshot; none before the first. *)
Definition snapshot_manifests (meta : IcebergMetadata) (snapshot_id : option Z)
    : IO S (list (string * Z)) :=
  match union snapshot_id (im_current_snapshot_id meta) with
  | None => mret []
  | Some snap_id =>
      match List.find (λ s, sn_snapshot_id s =? snap_id) (im_snapshots meta) with
      | None => io_err CatalogError
      | Some snap =>
          ml_bytes ← get_ (sn_manifest_list snap);
          match read_manifest_list_typed ml_bytes with
          | Ok l => mret l
          | Err _ => io_err CatalogError
          end
      end
  end.

(** The manifests of one content, read with [read] and joined. *)
Definition read_manifests {A} (wanted : Z → bool) (read : bytes → AilakeResult (list A))
    (manifest_entries : list (string * Z)) : IO S (list A) :=
  l ← io_map (λ pc : string * Z,
    if wanted pc.2 then
      mf_bytes ← get_ pc.1;
      match read mf_bytes with Ok es => mret es | Err _ => io_err CatalogError end
    else mret []) manifest_entries;
  mret (mjoin l).

Definition list_files_from_metadata (meta : IcebergMetadata) (snapshot_id : option Z)
    : IO S (list DataFileEntry) :=
  ms ← snapshot_manifests meta snapshot_id;
  read_manifests (λ c, c =? 0) read_manifest_file ms.

Definition list_equality_deletes_from_metadata (meta : IcebergMetadata) (snapshot_id : option Z)
    : IO S (list EqualityDeleteFile) :=
  ms ← snapshot_manifests meta snapshot_id;
  read_manifests (λ c, c =? 1) read_equality_delete_manifest ms.

(* ------------------------------------------------------------------ *)
(** ** The Hadoop catalog                                              *)
(* ------------------------------------------------------------------ *)

(** [HadoopCatalog::new] strips the trailing slashes of the warehouse. *)
Definition hadoop_new (warehouse : string) : string := trim_end_slashes warehouse.

Definition table_root (warehouse : string) (table : TableIdent) : string :=
  if String.eqb warehouse "" then ti_namespace table +:+ "/" +:+ ti_name table
  else warehouse +:+ "/" +:+ ti_namespace table +:+ "/" +:+ ti_name table.

Definition version_hint_path (root : string) : string := root +:+ "/metadata/version-hint.text".
Definition versioned_metadata_path (root : string) (version : Z) : string :=
  root +:+ "/metadata/v" +:+ to_string version +:+ ".metadata.json".
Definition commit_lock_path (root : string) : string := root +:+ "/metadata/.ailake-commit.lock".

Definition parse_version (bs : bytes) : Z :=
  default 1 (parse_u32 (trim (default "1" (from_utf8 bs)))).

Definition current_version (root : string) : IO S Z :=
  r ← io_get (version_hint_path root);
  mret (match r with Ok bs => parse_version bs | Err _ => 0 end).

Definition load_raw_metadata (root : string) : IO S IcebergMetadata :=
  version ← current_version root;
  bs ← get_ (versioned_metadata_path root version);
  json ← io_result (ok_or (from_utf8 bs) CatalogError);
  io_result (from_json json).

Definition save_metadata (root : string) (meta : IcebergMetadata) : IO S unit :=
  version ← current_version root;
  let next := wrap 32 (version + 1) in
  json ← io_result (to_json meta);
  put_ (versioned_metadata_path root next) (as_bytes json);;
  put_ (version_hint_path root) (as_bytes (to_string next)).

Definition with_properties (meta : IcebergMetadata) (props : gmap string string) : IcebergMetadata :=
  mk_meta (im_format_version meta) (im_table_uuid meta) (im_location meta)
    (im_last_sequence_number meta) (im_next_row_id meta) (im_last_updated_ms meta)
    (im_last_column_id meta) (im_schemas meta) (im_current_schema_id meta) (im_partition_specs meta)
    (im_default_spec_id meta) (im_last_partition_id meta) props (im_current_snapshot_id meta)
    (im_snapshots meta) (im_snapshot_log meta) (im_metadata_log meta) (im_sort_orders meta)
    (im_default_sort_order_id meta) (im_refs meta) (im_statistics meta) (im_partition_statistics meta).

Definition create_table (root : string) (props : TableProperties) (now : Z) (uuid : string) : IO S unit :=
  version ← current_version root;
  if 0 <? version then io_err CatalogError
  else
    let policy := tp_policy props in
    let pct := union (tp_partition_column_type props) (partition_column_type policy) in
    let meta := metadata_new root policy (tp_format_version props) pct (partition_fields policy) now uuid in
    save_metadata root (with_properties meta (tp_extra props ∪ im_properties meta)).

Definition load_table (root : string) : IO S TableMetadata :=
  meta ← load_raw_metadata root; mret (to_table_metadata meta).

(** The body of [commit_snapshot] between taking and releasing the lock. *)
Definition commit_locked (root warehouse : string) (snapshot : NewSnapshot) (now : Z) : IO S Z :=
  meta ← load_raw_metadata root;
  '(meta, snap_id) ← commit_into_metadata root warehouse meta snapshot now;
  save_metadata root meta;;
  mret snap_id.

Definition commit_snapshot `{!LockStore S} (root warehouse : string) (snapshot : NewSnapshot) (now : Z)
    : IO S Z :=
  acquired ← io_try (λ s, try_acquire_lock s (commit_lock_path root));
  if negb acquired then io_err CatalogError
  else λ s,
    match commit_locked root warehouse snapshot now s with
    | (s, Panic) => (s, Panic)
    | (s, Ret result) =>
        let '(s, release_result) := release_lock s (commit_lock_path root) in
        (s, Ret (match result, release_result with
                 | Ok snapshot_id, Ok _ => Ok snapshot_id
                 | Ok _, Err error => Err error
                 | Err error, _ => Err error
                 end))
    end.

Definition list_files (root : string) (snapshot_id : option Z) : IO S (list DataFileEntry) :=
  meta ← load_raw_metadata root; list_files_from_metadata meta snapshot_id.

Definition list_equality_deletes (root : string) (snapshot_id : option Z)
    : IO S (list EqualityDeleteFile) :=
  meta ← load_raw_metadata root; list_equality_deletes_from_metadata meta snapshot_id.

Definition list_snapshots (root : string) : IO S (list IcebergSnapshot) :=
  meta ← load_raw_metadata root; mret (im_snapshots meta).

(** [if exists(p)? { delete(p)?; }]. *)
Definition delete_if_exists (p : string) : IO S unit :=
  e ← io_exists p;
  e ← io_result e;
  if (e : bool) then r ← io_delete p; io_result r else mret tt.

Definition drop_table (root : string) : IO S unit :=
  version ← current_version root;
  if 0 <? version then
    delete_if_exists (versioned_metadata_path root version);;
    delete_if_exists (version_hint_path root)
  else mret tt.

(* ------------------------------------------------------------------ *)
(** ** Schema evolution                                                *)
(* ------------------------------------------------------------------ *)

Record AddColumnRequest : Type := mk_add {
  ac_name : string;
  ac_iceberg_type : string;
  ac_required : bool;
  ac_initial_default : option Json;
  ac_write_default : option Json;
  ac_doc : option string;
}.

Record SchemaEvolution : Type := mk_evolution {
  ev_renames : list (string * string);
  ev_adds : list AddColumnRequest;
  ev_extra_properties : gmap string string;
}.

(** A field of the old name takes the new one; its id stays. *)
Definition rename_field (rn : string * string) (field : Json) : option Json :=
  if bool_decide (json_str (json_index "name" field) = Some rn.1)
  then json_set "name" (JStr rn.2) field else Some field.

Definition apply_renames (renames : list (string * string)) (fields : list Json) : option (list Json) :=
  foldl (λ acc rn, fs ← acc; mapM (rename_field rn) fs) (Some fields) renames.

Definition set_opt (k : string) (v : option Json) (field : Json) : Json :=
  match v with
  | Some x => match json_set k x field with Some f => f | None => field end
  | None => field
  end.

Definition added_field (id : Z) (add : AddColumnRequest) : Json :=
  let field := json_object [("id", JInt id); ("name", JStr (ac_name add));
                            ("required", JBool (ac_required add)); ("type", JStr (ac_iceberg_type add))] in
  let field := set_opt "initial-default" (union (ac_initial_default add) (ac_write_default add)) field in
  let field := set_opt "write-default" (ac_write_default add) field in
  set_opt "doc" (JStr <$> ac_doc add) field.

(** Ids count up from the last one, at 32 bits. *)
Fixpoint add_fields (last_col_id : Z) (adds : list AddColumnRequest) : list Json * Z :=
  match adds with
  | [] => ([], last_col_id)
  | add :: adds =>
      let id := as_i32 (last_col_id + 1) in
      let '(fs, last) := add_fields id adds in (added_field id add :: fs, last)
  end.

Definition evolved (meta : IcebergMetadata) (fields : list Json) (last_col_id : Z)
    (props : gmap string string) (now : Z) : IcebergMetadata :=
  let new_schema_id := as_i32 (im_current_schema_id meta + 1) in
  mk_meta (im_format_version meta) (im_table_uuid meta) (im_location meta)
    (im_last_sequence_number meta) (im_next_row_id meta) now last_col_id
    (im_schemas meta ++ [schema_json new_schema_id fields]) new_schema_id (im_partition_specs meta)
    (im_default_spec_id meta) (im_last_partition_id meta) (props ∪ im_properties meta)
    (im_current_snapshot_id meta) (im_snapshots meta) (im_snapshot_log meta) (im_metadata_log meta)
    (im_sort_orders meta) (im_default_sort_order_id meta) (im_refs meta) (im_statistics meta)
    (im_partition_statistics meta).

Definition evolve_schema (root : string) (evolution : SchemaEvolution) (now : Z) : IO S Z :=
  meta ← load_raw_metadata root;
  schema ← io_result (ok_or (current_schema meta) CatalogError);
  let fields := default [] (json_array (json_index "fields" schema)) in
  fields ← io_outcome (or_panic (apply_renames (ev_renames evolution) fields));
  let '(added, last_col_id) := add_fields (im_last_column_id meta) (ev_adds evolution) in
  let meta' := evolved meta (fields ++ added) last_col_id (ev_extra_properties evolution) now in
  save_metadata root meta';;
  mret (im_current_schema_id meta').

End Commit.
