(* ===== verification/ArrowSchema.v ===== *)
(** * Arrow schemas and the Iceberg schema of a commit

    Models [merge_schema], [arrow_schema_to_iceberg_update] and [arrow_type_to_iceberg]
    of [ailake-query/src/writer.rs], and the field ids that
    [ailake-parquet/src/writer.rs] stamps on the columns of a file.

    The identifiers of a schema update are distinct and below its last column id, and
    those of the columns of a single batch are the ones stamped in its file.  The id
    counter is an [i32] in the source; a schema of two billion columns, where it would
    overflow, is out of reach of the other limits of a file. *)

From S2P Require Import Prelude Core FileFormat Json Catalog.

(* ------------------------------------------------------------------ *)
(** ** Types and fields                                                *)
(* ------------------------------------------------------------------ *)

(** [arrow_schema::DataType]; a field of a struct is its name, type and nullability.
    [Other] stands for the types without a case of their own. *)
Module ArrowTy.
Inductive list_kind : Type := VarList | LargeVarList | ListView | FixedList (n : Z).
Inductive t : Type :=
| Boolean
| Int8 | Int16 | Int32 | Int64 | UInt8 | UInt16 | UInt32 | UInt64
| Float16 | Float32 | Float64
| Utf8 | LargeUtf8 | Utf8View
| Binary | LargeBinary | BinaryView
| Date32 | Date64
| Timestamp (timezone : option string)
| Time32 | Time64
| FixedSizeBinary (n : Z)
| Decimal128 (p s : Z) | Decimal256 (p s : Z)
| ListOf (k : list_kind) (element : t) (nullable : bool)
| Struct (fields : list (string * t * bool))
| Map (entries : t)
| Other (tag : Z).
End ArrowTy.

Record ArrowField : Type := mk_afield {
  af_name : string;
  af_type : ArrowTy.t;
  af_nullable : bool;
}.

(** The fields of a batch's schema, in column order. *)
Abbreviation ArrowSchema := (list ArrowField) (only parsing).
Definition has_field (s : ArrowSchema) (name : string) : bool := existsb (λ f, String.eqb (af_name f) name) s.

(* ------------------------------------------------------------------ *)
(** ** Merging the schemas of the batches of a session                 *)
(* ------------------------------------------------------------------ *)

Definition merge_schema (existing : option ArrowSchema) (new : ArrowSchema) : ArrowSchema :=
  match existing with
  | None => new
  | Some existing =>
      if (length new <=? length existing)%nat && forallb (λ f, has_field existing (af_name f)) new then existing
      else existing ++ filter (λ f, has_field existing (af_name f) = false) new
  end.

(* ------------------------------------------------------------------ *)
(** ** Iceberg types                                                   *)
(* ------------------------------------------------------------------ *)

Definition find_entry (names : list string) (fs : list (string * ArrowTy.t * bool)) : option (ArrowTy.t * bool) :=
  '(_, t, nullable) ← List.find (λ f : string * ArrowTy.t * bool, bool_decide (f.1.1 ∈ names)) fs;
  Some (t, nullable).

(** The type, and the counter of nested ids after it. *)
Fixpoint arrow_type_to_iceberg (dt : ArrowTy.t) (nested_id : Z) : Json * Z :=
  match dt with
  | ArrowTy.Boolean => (JStr "boolean", nested_id)
  | ArrowTy.Int8 | ArrowTy.Int16 | ArrowTy.Int32 | ArrowTy.UInt8 | ArrowTy.UInt16 => (JStr "int", nested_id)
  | ArrowTy.Int64 | ArrowTy.UInt32 | ArrowTy.UInt64 => (JStr "long", nested_id)
  | ArrowTy.Float16 | ArrowTy.Float32 => (JStr "float", nested_id)
  | ArrowTy.Float64 => (JStr "double", nested_id)
  | ArrowTy.Utf8 | ArrowTy.LargeUtf8 | ArrowTy.Utf8View => (JStr "string", nested_id)
  | ArrowTy.Binary | ArrowTy.LargeBinary | ArrowTy.BinaryView => (JStr "binary", nested_id)
  | ArrowTy.Date32 | ArrowTy.Date64 => (JStr "date", nested_id)
  | ArrowTy.Timestamp (Some _) => (JStr "timestamptz", nested_id)
  | ArrowTy.Timestamp None => (JStr "timestamp", nested_id)
  | ArrowTy.Time32 | ArrowTy.Time64 => (JStr "time", nested_id)
  | ArrowTy.FixedSizeBinary n => (JStr ("fixed[" +:+ to_string n +:+ "]"), nested_id)
  | ArrowTy.Decimal128 p s | ArrowTy.Decimal256 p s =>
      (JStr ("decimal(" +:+ to_string p +:+ ", " +:+ to_string s +:+ ")"), nested_id)
  | ArrowTy.ListOf _ inner nullable =>
      let element_id := nested_id + 1 in
      let '(element_type, nested_id) := arrow_type_to_iceberg inner element_id in
      (json_object [("type", JStr "list"); ("element-id", JInt element_id); ("element", element_type);
                    ("element-required", JBool (negb nullable))], nested_id)
  | ArrowTy.Struct arrow_fields =>
      let '(struct_fields, nested_id) :=
        (fix go fs nested_id :=
           match fs with
           | [] => ([], nested_id)
           | (name, t, nullable) :: fs =>
               let fid := nested_id + 1 in
               let '(ftype, nested_id) := arrow_type_to_iceberg t fid in
               let '(rest, nested_id) := go fs nested_id in
               (json_object [("id", JInt fid); ("name", JStr name); ("required", JBool (negb nullable));
                             ("type", ftype)] :: rest, nested_id)
           end) arrow_fields nested_id in
      (json_object [("type", JStr "struct"); ("fields", JArr struct_fields)], nested_id)
  | ArrowTy.Map entries =>
      let key_id := nested_id + 1 in
      let val_id := key_id + 1 in
      match entries with
      | ArrowTy.Struct kv_fields =>
          (* the first key field, then the first value field *)
          let '(key_type, nested_id) :=
            (fix key fs :=
               match fs with
               | [] => (JStr "binary", val_id)
               | (name, t, _) :: fs =>
                   if bool_decide (name ∈ ["key"; "keys"]) then arrow_type_to_iceberg t val_id else key fs
               end) kv_fields in
          let '(val_type, nested_id) :=
            (fix value fs :=
               match fs with
               | [] => (JStr "binary", nested_id)
               | (name, t, _) :: fs =>
                   if bool_decide (name ∈ ["value"; "values"]) then arrow_type_to_iceberg t nested_id else value fs
               end) kv_fields in
          let val_required := from_option (λ f, negb f.2) false (find_entry ["value"; "values"] kv_fields) in
          (json_object [("type", JStr "map"); ("key-id", JInt key_id); ("key", key_type);
                        ("value-id", JInt val_id); ("value", val_type);
                        ("value-required", JBool val_required)], nested_id)
      | _ => (JStr "binary", val_id)
      end
  | ArrowTy.Other _ => (JStr "binary", nested_id)
  end.

(* ------------------------------------------------------------------ *)
(** ** The schema of a commit                                          *)
(* ------------------------------------------------------------------ *)

(** [policy.dim * bytes_per_dim] on [u32]. *)
Definition vec_fixed_len (p : VectorStoragePolicy) : Z :=
  wrap 32 (policy_dim p * bytes_per_element (policy_precision p)).

(** The vector columns that are not columns of the batches. *)
Definition vec_cols (schema : ArrowSchema) (policy : VectorStoragePolicy) (extra_vec_policies : list VectorStoragePolicy)
    : list (string * Z) :=
  (λ p, (column_name p, vec_fixed_len p)) <$>
    filter (λ p, has_field schema (column_name p) = false) (policy :: extra_vec_policies).

Definition field_object (field_id : Z) (name : string) (iceberg_type : Json) : Json :=
  json_object [("id", JInt field_id); ("name", JStr name); ("required", JBool false); ("type", iceberg_type)].
Definition mapping_object (field_id : Z) (name : string) : Json :=
  json_object [("field-id", JInt field_id); ("names", JArr [JStr name])].

(** The loop over the batch's fields, from the id [field_id] on. *)
Fixpoint schema_fields (schema : ArrowSchema) (field_id nested_id : Z) : list Json * Z :=
  match schema with
  | [] => ([], nested_id)
  | f :: schema =>
      let '(iceberg_type, nested_id) := arrow_type_to_iceberg (af_type f) nested_id in
      let '(rest, nested_id) := schema_fields schema (field_id + 1) nested_id in
      (field_object field_id (af_name f) iceberg_type :: rest, nested_id)
  end.

(** Names numbered from [field_id] on. *)
Definition numbered (field_id : Z) (names : list string) : list (Z * string) :=
  zip (seqZ field_id (Zlen names)) names.

Definition vec_type (fixed_len : Z) : Json := JStr ("fixed[" +:+ to_string fixed_len +:+ "]").

Definition arrow_schema_to_iceberg_update `{JsonLib} (schema : ArrowSchema) (policy : VectorStoragePolicy)
    (extra_vec_policies : list VectorStoragePolicy) : IcebergSchemaUpdate :=
  let vec_cols := vec_cols schema policy extra_vec_policies in
  let n := Zlen schema in
  let '(fields, last_column_id) := schema_fields schema 1 (n + Zlen vec_cols) in
  let vec_fields := zip_with (λ field_id '(name, len), field_object field_id name (vec_type len))
                      (seqZ (n + 1) (Zlen vec_cols)) vec_cols in
  let name_mapping := (λ '(field_id, name), mapping_object field_id name) <$>
                        numbered 1 ((af_name <$> schema) ++ vec_cols.*1) in
  mk_supdate (fields ++ vec_fields) last_column_id (json_to_string (JArr name_mapping)).

(** The ids stamped on the columns of a file: those of the batch, then the primary
    vector column when the raw vectors are kept. *)
Definition stamped_fields (schema : ArrowSchema) (p : VectorStoragePolicy) : list (Z * string) :=
  numbered 1 ((af_name <$> schema) ++ if keep_raw_for_reranking p then [column_name p] else []).

(* ------------------------------------------------------------------ *)
(** ** Identifiers                                                     *)
(* ------------------------------------------------------------------ *)

(** The identifiers that occur in a schema value. *)
Definition id_keys : list string := ["id"; "element-id"; "key-id"; "value-id"].
Definition is_id_key (k : string) : bool := existsb (String.eqb k) id_keys.
Fixpoint json_ids (v : Json) : list Z :=
  match v with
  | JArr l => l ≫= json_ids
  | JObj fs => fs ≫= λ kv, if is_id_key kv.1 then match kv.2 with JInt i => [i] | _ => [] end
                           else json_ids kv.2
  | _ => []
  end.

(** Fresh ids of a value built while the counter moved from [n] to [n']. *)
Definition ids_between (n n' : Z) (ids : list Z) : Prop :=
  n ≤ n' ∧ NoDup ids ∧ Forall (λ i, n < i ≤ n') ids.

Lemma ids_none n : ids_between n n [].
Proof. split_and!; [lia|constructor|constructor]. Qed.

Lemma ids_skip n m n' ids : n ≤ m → ids_between m n' ids → ids_between n n' ids.
Proof.
  intros Hn (Hm & Hnd & Hall). split_and!; [lia|done|]. eapply Forall_impl; [exact Hall|]. cbn. lia.
Qed.

Lemma ids_app n m n' ids ids' : ids_between n m ids → ids_between m n' ids' → ids_between n n' (ids ++ ids').
Proof.
  intros (Hn & Hnd & Hall) (Hm & Hnd' & Hall'). rewrite Forall_forall in Hall, Hall'. split_and!; [lia| |].
  - apply NoDup_app. split_and!; [done| |done]. intros i Hi Hi'. specialize (Hall i Hi). specialize (Hall' i Hi'). lia.
  - apply Forall_app. split; apply Forall_forall; intros i Hi; [specialize (Hall i Hi)|specialize (Hall' i Hi)]; lia.
Qed.

Lemma ids_perm n n' ids ids' : ids ≡ₚ ids' → ids_between n n' ids → ids_between n n' ids'.
Proof. intros Hp (Hn & Hnd & Hall). split_and!; [done|by rewrite <- Hp|by rewrite <- Hp]. Qed.

Lemma ids_next n n' ids : ids_between (n + 1) n' ids → ids_between n n' ((n + 1) :: ids).
Proof. intros Hi. apply (ids_app n (n + 1) n' [n + 1]); [|done]. split_and!; [lia|by apply NoDup_singleton|]. repeat constructor; lia. Qed.

(** Objects with literal keys. *)
Ltac eval_objects := repeat
  match goal with |- context [json_object ?l] =>
    let o := eval vm_compute in (json_object l) in change (json_object l) with o
  end.

Lemma json_ids_object (id : Z) name b t :
  json_ids (json_object [("id", JInt id); ("name", JStr name); ("required", JBool b); ("type", t)]) = id :: json_ids t.
Proof. eval_objects. cbn. by rewrite app_nil_r. Qed.

Fixpoint type_ids (dt : ArrowTy.t) : ∀ n,
  ids_between n (arrow_type_to_iceberg dt n).2 (json_ids (arrow_type_to_iceberg dt n).1).
Proof.
  intros n. destruct dt as [| | | | | | | | | | | | | | | | | | | |tz| | |len|p s|p s|k inner nullable|fields|entries|tag];
    try apply ids_none.
  - destruct tz; apply ids_none.
  - cbn [arrow_type_to_iceberg]. pose proof (type_ids inner (n + 1)) as Hi.
    destruct (arrow_type_to_iceberg inner (n + 1)) as [j n'] eqn:E. cbn [fst snd] in *.
    eapply ids_perm; [|apply ids_next, Hi]. eval_objects. cbn. by rewrite Permutation_cons_append.
  - cbn [arrow_type_to_iceberg].
    match goal with |- context [?f fields n] => set (go := f) end.
    assert (Hgo : ids_between n (go fields n).2 ((go fields n).1 ≫= json_ids)).
    { revert n. induction fields as [|[[name t] nullable] fields IH]; intros n; [apply ids_none|].
      cbn [go]. fold go. pose proof (type_ids t (n + 1)) as Ht.
      destruct (arrow_type_to_iceberg t (n + 1)) as [ftype n1]. cbn [fst snd] in Ht.
      specialize (IH n1). destruct (go fields n1) as [rest n2]. cbn [fst snd] in *.
      rewrite bind_cons, json_ids_object. cbn [app]. apply ids_next. by eapply ids_app. }
    destruct (go fields n) as [l n']. cbn [fst snd] in *. eapply ids_perm; [|exact Hgo]. eval_objects. cbn. by rewrite app_nil_r.
  - cbn [arrow_type_to_iceberg].
    assert (Hbin : ids_between n (n + 1 + 1) []) by (split_and!; [lia|constructor|constructor]).
    destruct entries as [| | | | | | | | | | | | | | | | | | | |tz| | |len|p s|p s|k inner nullable|kv|entries|tag];
      try exact Hbin.
    match goal with |- context [let '(key_type, nested_id) := ?f kv in _] => set (key := f) end.
    assert (Hk : ids_between (n + 1 + 1) (key kv).2 (json_ids (key kv).1)).
    { induction kv as [|[[name t] nullable] kv IH]; [apply ids_none|]. cbn [key]. fold key.
      destruct (bool_decide _); [apply type_ids|exact IH]. }
    destruct (key kv) as [kt n1]. cbn [fst snd] in Hk.
    match goal with |- context [let '(val_type, nested_id) := ?f kv in _] => set (value := f) end.
    assert (Hv : ids_between n1 (value kv).2 (json_ids (value kv).1)).
    { clear -type_ids. induction kv as [|[[name t] nullable] kv IH]; [apply ids_none|]. cbn [value]. fold value.
      destruct (bool_decide _); [apply type_ids|exact IH]. }
    destruct (value kv) as [vt n2]. cbn [fst snd] in Hv |- *.
    eapply ids_perm; [|apply ids_next, ids_next, (ids_app _ _ _ _ _ Hk Hv)].
    generalize (n + 1 + 1) (n + 1). intros val_id key_id. eval_objects. cbn. solve_Permutation.
Qed.

Lemma schema_fields_ids schema field_id n :
  ids_between n (schema_fields schema field_id n).2
    ((schema_fields schema field_id n).1 ≫= λ f, json_ids (json_index "type" f)) ∧
  json_index "id" <$> (schema_fields schema field_id n).1 = JInt <$> seqZ field_id (Zlen schema).
Proof.
  revert field_id n. induction schema as [|f schema IH]; intros field_id n; [split; [apply ids_none|done]|].
  cbn [schema_fields]. pose proof (type_ids (af_type f) n) as Ht.
  destruct (arrow_type_to_iceberg (af_type f) n) as [t n1]. cbn [fst snd] in Ht.
  destruct (IH (field_id + 1) n1) as [Hrest Hids].
  destruct (schema_fields schema (field_id + 1) n1) as [rest n2]. cbn [fst snd] in *. split.
  - rewrite bind_cons. unfold field_object. eapply ids_app; [|exact Hrest]. eval_objects. exact Ht.
  - rewrite seqZ_cons by (cbn; lia). rewrite !fmap_cons. f_equal.
    rewrite Hids. f_equal. f_equal; cbn [length]; lia.
Qed.

(** Id and name of the top-level fields. *)
Definition field_pairs (fields : list Json) : list (Json * Json) :=
  (λ f, (json_index "id" f, json_index "name" f)) <$> fields.
Definition id_pair (p : Z * string) : Json * Json := (JInt p.1, JStr p.2).

Lemma numbered_app i names names' :
  numbered i (names ++ names') = numbered i names ++ numbered (i + Zlen names) names'.
Proof.
  unfold numbered. rewrite length_app, Nat2Z.inj_add, seqZ_app by lia. apply zip_with_app. by rewrite length_seqZ, Nat2Z.id.
Qed.

Lemma schema_field_pairs schema field_id n :
  field_pairs (schema_fields schema field_id n).1 = id_pair <$> numbered field_id (af_name <$> schema).
Proof.
  revert field_id n. induction schema as [|f schema IH]; intros field_id n; [done|]. cbn [schema_fields].
  destruct (arrow_type_to_iceberg (af_type f) n) as [t n1]. specialize (IH (field_id + 1) n1).
  destruct (schema_fields schema (field_id + 1) n1) as [rest n2]. cbn [fst snd] in *.
  unfold field_pairs, numbered in *. rewrite !fmap_cons, IH. cbn [length].
  rewrite (seqZ_cons field_id) by lia. cbn [zip zip_with]. rewrite fmap_cons, length_fmap. f_equal.
  by replace (Z.pred (Z.of_nat (S (length schema)))) with (Zlen schema) by lia.
Qed.

Lemma vec_field_pairs (vs : list (string * Z)) i :
  field_pairs (zip_with (λ field_id '(name, len), field_object field_id name (vec_type len)) (seqZ i (Zlen vs)) vs) =
  id_pair <$> numbered i vs.*1.
Proof.
  unfold field_pairs, numbered. rewrite length_fmap. revert i.
  induction vs as [|[name len] vs IH]; intros i; [done|]. cbn [length].
  rewrite (seqZ_cons i) by lia. replace (Z.pred (Z.of_nat (S (length vs)))) with (Zlen vs) by lia.
  cbn [zip_with zip fmap list_fmap fst]. f_equal. apply IH.
Qed.

Section Update.
Context `{JsonLib}.
Implicit Types (schema : ArrowSchema) (policy : VectorStoragePolicy).

(** The columns of an update: those of the batches, then the vector columns. *)
Lemma update_pairs schema policy extra :
  field_pairs (su_fields (arrow_schema_to_iceberg_update schema policy extra)) =
  id_pair <$> numbered 1 ((af_name <$> schema) ++ (vec_cols schema policy extra).*1).
Proof.
  unfold arrow_schema_to_iceberg_update. set (vs := vec_cols schema policy extra).
  pose proof (schema_field_pairs schema 1 (Zlen schema + Zlen vs)) as Hf.
  destruct (schema_fields schema 1 _) as [fields last]. cbn [fst su_fields] in *.
  rewrite numbered_app, fmap_app, <- Hf. unfold field_pairs at 1. rewrite fmap_app. f_equal.
  fold (field_pairs (zip_with (λ field_id '(name, len), field_object field_id name (vec_type len))
    (seqZ (Zlen schema + 1) (Zlen vs)) vs)). rewrite vec_field_pairs, length_fmap. do 2 f_equal. lia.
Qed.

(** Gathering the field ids in front. *)
Lemma ids_of_fields (fs : list Json) ids :
  json_index "id" <$> fs = JInt <$> ids → Forall (λ f, ∃ id name t, f = field_object id name t) fs →
  ids ++ (fs ≫= λ f, json_ids (json_index "type" f)) ≡ₚ fs ≫= json_ids.
Proof.
  revert ids. induction fs as [|f fs IH]; intros [|id ids] E Hall; try done.
  apply Forall_cons in Hall as [(id' & name & t & ->) Hall]. rewrite !fmap_cons in E.
  unfold field_object in *. rewrite !bind_cons, json_ids_object. revert E. eval_objects. cbn. intros E.
  injection E as -> E. constructor. rewrite <- IH by done. solve_Permutation.
Qed.

Lemma schema_fields_objects schema i n :
  Forall (λ f, ∃ id name t, f = field_object id name t) (schema_fields schema i n).1.
Proof.
  revert i n. induction schema as [|f schema IH]; intros i n; [constructor|]. cbn [schema_fields].
  destruct (arrow_type_to_iceberg _ _) as [t n1]. specialize (IH (i + 1) n1).
  destruct (schema_fields _ _ n1) as [rest n2]. constructor; [eauto|done].
Qed.

Lemma vec_field_ids (vs : list (string * Z)) i :
  zip_with (λ field_id '(name, len), field_object field_id name (vec_type len)) (seqZ i (Zlen vs)) vs ≫= json_ids =
  seqZ i (Zlen vs).
Proof.
  revert i. induction vs as [|[name len] vs IH]; intros i; [done|].
  cbn [length]. rewrite (seqZ_cons i) by lia. replace (Z.pred (Z.of_nat (S (length vs)))) with (Zlen vs) by lia.
  cbn [zip_with]. rewrite bind_cons, IH. unfold field_object. by rewrite json_ids_object.
Qed.

(** All identifiers of an update are fresh and below its counter. *)
Lemma update_ids schema policy extra :
  let u := arrow_schema_to_iceberg_update schema policy extra in
  ids_between 0 (su_last_column_id u) (su_fields u ≫= json_ids).
Proof.
  unfold arrow_schema_to_iceberg_update. set (vs := vec_cols schema policy extra).
  pose proof (schema_fields_ids schema 1 (Zlen schema + Zlen vs)) as [Hn Hid].
  pose proof (schema_fields_objects schema 1 (Zlen schema + Zlen vs)) as Hobj.
  destruct (schema_fields schema 1 _) as [fields last]. cbn [fst snd] in *. cbn [su_fields su_last_column_id].
  assert (Htop : ids_between 0 (Zlen schema + Zlen vs) (seqZ 1 (Zlen schema + Zlen vs))).
  { split_and!; [lia|apply NoDup_seqZ|]. apply Forall_forall. intros i Hi%elem_of_seqZ. lia. }
  eapply ids_perm; [|exact (ids_app _ _ _ _ _ Htop Hn)].
  rewrite bind_app, seqZ_app, vec_field_ids, <- (ids_of_fields fields _ Hid Hobj), (Z.add_comm 1) by lia.
  solve_Permutation.
Qed.

(** C31: the schema a commit declares is well formed.  Its columns are those of the
    written batches followed by the vector columns, numbered from 1 in order; all the
    identifiers in it, those of nested elements, keys, values and fields included, are
    distinct and at most the recorded last column id. *)
Theorem schema_update_wf schema policy extra :
  let u := arrow_schema_to_iceberg_update schema policy extra in
  field_pairs (su_fields u) = id_pair <$> numbered 1 ((af_name <$> schema) ++ (vec_cols schema policy extra).*1) ∧
  NoDup (su_fields u ≫= json_ids) ∧
  Forall (λ i, 1 ≤ i ≤ su_last_column_id u) (su_fields u ≫= json_ids).
Proof.
  split; [apply update_pairs|]. destruct (update_ids schema policy extra) as (_ & Hnd & Hall).
  split; [done|]. eapply Forall_impl; [exact Hall|]. cbn. lia.
Qed.

(** A file written from one batch has the ids its commit declares. *)
Lemma stamps_match_schema schema policy extra :
  has_field schema (column_name policy) = false →
  id_pair <$> stamped_fields schema policy `prefix_of`
    field_pairs (su_fields (arrow_schema_to_iceberg_update schema policy extra)).
Proof.
  intros Hf. rewrite update_pairs. unfold vec_cols. rewrite filter_cons, decide_True by done.
  rewrite !fmap_cons. cbn [fst]. set (rest := (_ <$> (_ <$> filter _ extra))).
  unfold stamped_fields. destruct (keep_raw_for_reranking policy).
  - exists (id_pair <$> numbered (1 + Zlen ((af_name <$> schema) ++ [column_name policy])) rest).
    rewrite <- fmap_app, <- numbered_app, <- app_assoc. done.
  - rewrite app_nil_r. exists (id_pair <$> numbered (1 + Zlen (af_name <$> schema)) (column_name policy :: rest)).
    by rewrite <- fmap_app, <- numbered_app.
Qed.

End Update.

Lemma has_field_spec s name : has_field s name = true ↔ name ∈ af_name <$> s.
Proof.
  unfold has_field. rewrite existsb_exists, list_elem_of_fmap. split.
  - intros (f & Hf & <-%String.eqb_eq). exists f. split; [done|by apply list_elem_of_In].
  - intros (f & -> & Hf). exists f. split; [by apply list_elem_of_In|apply String.eqb_refl].
Qed.

(** Merging keeps the known columns and appends the unknown ones. *)
Lemma merge_schema_spec existing new :
  merge_schema (Some existing) new = existing ++ filter (λ f, has_field existing (af_name f) = false) new.
Proof.
  unfold merge_schema. destruct (_ && _) eqn:E; [|done]. apply andb_prop in E as [_ Hall].
  rewrite filter_none; [by rewrite app_nil_r|]. intros f Hf. rewrite forallb_forall in Hall.
  by rewrite (Hall f) by by apply list_elem_of_In.
Qed.

(** A column first seen in a later batch of a session takes over the id of the
    vector column of the files written before it: in the committed schema that id is
    the new column's, while in those files it is stamped on the vectors. *)
Theorem later_column_takes_vector_id `{JsonLib} first later c policy extra i :
  keep_raw_for_reranking policy = true → has_field first (column_name policy) = false →
  filter (λ f, has_field first (af_name f) = false) later = c :: i →
  let u := arrow_schema_to_iceberg_update (merge_schema (Some first) later) policy extra in
  let id := Zlen first + 1 in
  (id, column_name policy) ∈ stamped_fields first policy ∧ (JInt id, JStr (af_name c)) ∈ field_pairs (su_fields u).
Proof.
  intros Hraw Hf Hc u id. unfold id. rewrite (Z.add_comm (Zlen first) 1). split.
  - unfold stamped_fields. rewrite Hraw, numbered_app. apply elem_of_app. right. rewrite length_fmap.
    unfold numbered. cbn [length]. rewrite seqZ_cons by lia. by left.
  - unfold u. rewrite update_pairs, merge_schema_spec, Hc, fmap_app, <- app_assoc, fmap_cons, numbered_app, fmap_app.
    apply elem_of_app. right. rewrite length_fmap. unfold numbered. cbn [app length]. rewrite seqZ_cons by lia.
    cbn [zip zip_with]. rewrite fmap_cons. by left.
Qed.
