(* ===== verification/ColumnStatsTheorems.v ===== *)
(** * Column statistics cover their columns

    The bounds that [ColumnStats] merges over row groups and truncates: they cover the
    values of the column when the footer's statistics do, in the order of the column's
    type, which is defined here and not by the code's comparison; and the cases in which
    the code's order or numbering is not the table's. *)

From S2P Require Import Prelude Core Avro FileFormat Manifest ManifestExamples ArrowSchema Floats ColumnStats.

(* ------------------------------------------------------------------ *)
(** ** The order of bounds                                             *)
(* ------------------------------------------------------------------ *)

(** The column types whose values Parquet orders as the column does.  Not here: unsigned
    integers, decimals stored in bytes (see [unsigned_bounds] and
    [negative_decimal_bounds]) and the old timestamps. *)
Inductive ValueType : Type := VBoolean | VInt32 | VInt64 | VFloat | VDouble | VBytes | VFixedBytes.

Definition physical (ty : ValueType) : PhysicalType :=
  match ty with
  | VBoolean => BOOLEAN
  | VInt32 => INT32
  | VInt64 => INT64
  | VFloat => FLOAT
  | VDouble => DOUBLE
  | VBytes => BYTE_ARRAY
  | VFixedBytes => FIXED_LEN_BYTE_ARRAY
  end.

(** The value of the IEEE number with the bits [b] of [w], the lower [m] of them its
    mantissa, in units of its least positive number: sign, exponent and mantissa,
    subnormal numbers with the exponent 0.  An infinity is beyond the finite numbers. *)
Definition unsigned_value (m n : Z) : Z :=
  if n / 2 ^ m =? 0 then n else (2 ^ m + n `mod` 2 ^ m) * 2 ^ (n / 2 ^ m - 1).
Definition ieee_value (w m b : Z) : Z :=
  if b <? 2 ^ (w - 1) then unsigned_value m b else - unsigned_value m (b - 2 ^ (w - 1)).

(** The infinity's bits without the sign; those of a NaN are greater. *)
Definition ieee_number (w m b : Z) : Prop := b `mod` 2 ^ (w - 1) ≤ 2 ^ (w - 1) - 2 ^ m.

(** How a value is stored; no NaN, which Parquet leaves out of its statistics. *)
Definition value_ok (ty : ValueType) (b : bytes) : Prop :=
  bytes_ok b ∧
  match ty with
  | VBoolean => Zlen b = 1
  | VInt32 => Zlen b = 4
  | VInt64 => Zlen b = 8
  | VFloat => Zlen b = 4 ∧ ieee_number 32 23 (from_le b)
  | VDouble => Zlen b = 8 ∧ ieee_number 64 52 (from_le b)
  | VBytes | VFixedBytes => True
  end.

(** In a dictionary [a] comes no later than [b]: it begins [b], or the first byte in
    which they differ is less. *)
Definition lexicographic (a b : bytes) : Prop :=
  (∃ rest, b = a ++ rest) ∨ ∃ p x y a' b', a = p ++ x :: a' ∧ b = p ++ y :: b' ∧ x < y.

(** At most, in the order of the type's values. *)
Definition at_most (ty : ValueType) (a b : bytes) : Prop :=
  match ty with
  | VBoolean => from_le a ≤ from_le b
  | VInt32 => signed 32 (from_le a) ≤ signed 32 (from_le b)
  | VInt64 => signed 64 (from_le a) ≤ signed 64 (from_le b)
  | VFloat => ieee_value 32 23 (from_le a) ≤ ieee_value 32 23 (from_le b)
  | VDouble => ieee_value 64 52 (from_le a) ≤ ieee_value 64 52 (from_le b)
  | VBytes | VFixedBytes => lexicographic a b
  end.

(** Byte strings compare as in a dictionary. *)
Lemma bytes_cmp_refl a : bytes_cmp a a = Eq.
Proof. induction a as [|x a IH]; [done|]. cbn. by rewrite Z.compare_refl. Qed.

Lemma bytes_cmp_prefix a b : bytes_cmp a (a ++ b) ≠ Gt.
Proof. induction a as [|x a IH]; [by destruct b|]. cbn. by rewrite Z.compare_refl. Qed.

Lemma bytes_cmp_above p x y rest tail : x < y → bytes_cmp ((p ++ x :: rest)) (p ++ y :: tail) = Lt.
Proof.
  intros Hxy. induction p as [|z p IH]; cbn; [|by rewrite Z.compare_refl].
  by rewrite (proj2 (Z.compare_lt_iff x y) Hxy).
Qed.

Lemma bytes_cmp_flip a b : bytes_cmp b a = CompOpp (bytes_cmp a b).
Proof.
  revert b. induction a as [|x a IH]; intros [|y b]; try done. cbn.
  rewrite (Z.compare_antisym x y). destruct (x ?= y); [apply IH|done|done].
Qed.

Lemma bytes_cmp_trans a b c : bytes_cmp a b ≠ Gt → bytes_cmp b c ≠ Gt → bytes_cmp a c ≠ Gt.
Proof.
  revert b c. induction a as [|x a IH]; intros [|y b] [|z c]; try done. cbn.
  destruct (Z.compare_spec x y) as [->|Hxy|Hxy]; [|intros _|done].
  - destruct (y ?= z); [apply IH|done|done].
  - destruct (Z.compare_spec y z) as [->|Hyz|Hyz]; [intros _| intros _|done].
    + by rewrite (proj2 (Z.compare_lt_iff x z) Hxy).
    + by rewrite (proj2 (Z.compare_lt_iff x z) ltac:(lia)).
Qed.

Lemma lexicographic_spec a b : lexicographic a b ↔ bytes_cmp a b ≠ Gt.
Proof.
  split.
  - intros [(rest & ->)|(p & x & y & a' & b' & -> & -> & Hxy)]; [apply bytes_cmp_prefix|].
    by rewrite bytes_cmp_above.
  - revert b. induction a as [|x a IH]; intros [|y b]; cbn; try done; [left; by eexists..|].
    destruct (Z.compare_spec x y) as [->|Hxy|Hxy]; [|intros _|done].
    + intros [(rest & ->)|(p & x' & y' & a' & b' & -> & -> & Hxy)]%IH; [left; by exists rest|].
      right. by exists (y :: p), x', y', a', b'.
    + right. by exists [], x, y, a, b.
Qed.

(** [total_cmp] reverses the bits below the sign of a negative number. *)
Lemma lxor_ones n x : 0 ≤ n → 0 ≤ x < 2 ^ n → Z.lxor x (Z.ones n) = Z.ones n - x.
Proof.
  intros Hn Hx.
  assert (Hh : ∀ i, n ≤ i → Z.testbit x i = false).
  { intros i Hi. destruct (decide (x = 0)) as [->|]; [apply Z.bits_0|].
    apply Z.bits_above_log2; [lia|]. apply Z.lt_le_trans with n; [|done]. apply Z.log2_lt_pow2; lia. }
  rewrite Z.sub_nocarry_ldiff; apply Z.bits_inj'; intros i Hi;
    rewrite ?Z.ldiff_spec, ?Z.lxor_spec, ?Z.bits_0, Z.testbit_ones_nonneg by done;
    destruct (Z.ltb_spec i n); rewrite ?Hh by done; by destruct (Z.testbit x i).
Qed.

Definition total_order (w b : Z) : Z := if b <? 2 ^ (w - 1) then b else - (b - 2 ^ (w - 1)) - 1.

Lemma total_key_order w b :
  1 < w → fits w b →
  (let left := signed w b in Z.lxor left (Z.shiftr (wrap w (Z.shiftr left (w - 1))) 1)) = total_order w b.
Proof.
  intros Hw [Hb0 Hb]. unfold total_order, signed, wrap. cbn zeta.
  assert (Hp : 2 ^ w = 2 * 2 ^ (w - 1)) by (rewrite <- Z.pow_succ_r by lia; f_equal; lia).
  assert (0 < 2 ^ (w - 1)) by (apply Z.pow_pos_nonneg; lia).
  destruct (Z.ltb_spec b (2 ^ (w - 1))) as [Hlt|Hge].
  - rewrite decide_True by done. rewrite (Z.shiftr_div_pow2 b) by lia. rewrite (Z.div_small b) by lia.
    by rewrite Z.mod_0_l, Z.lxor_0_r by lia.
  - rewrite decide_False by lia. rewrite (Z.shiftr_div_pow2 (b - 2 ^ w)) by lia.
    replace ((b - 2 ^ w) / 2 ^ (w - 1)) with (-1)
      by (apply (Z.div_unique _ _ _ (b - 2 ^ (w - 1))); lia).
    replace ((-1) `mod` 2 ^ w) with (2 ^ w - 1) by (apply (Z.mod_unique _ _ (-1)); lia).
    rewrite Z.shiftr_div_pow2, Z.pow_1_r by lia.
    replace ((2 ^ w - 1) / 2) with (Z.ones (w - 1))
      by (rewrite Z.ones_equiv; apply (Z.div_unique _ _ _ 1); lia).
    rewrite <- (Z.lnot_involutive (b - 2 ^ w)), <- Z.lnot_lxor_l.
    rewrite lxor_ones by (unfold Z.lnot; lia). rewrite Z.ones_equiv. unfold Z.lnot. lia.
Qed.

(** Numbers with greater bits are greater. *)
Lemma unsigned_value_nonneg m n : 0 ≤ m → 0 ≤ n → 0 ≤ unsigned_value m n.
Proof.
  intros Hm Hn. unfold unsigned_value. destruct (Z.eqb_spec (n / 2 ^ m) 0); [done|].
  apply Z.mul_nonneg_nonneg; [|by apply Z.pow_nonneg]. pose proof (Z.mod_pos_bound n (2 ^ m)). lia.
Qed.

Lemma unsigned_value_mono m n n' : 0 ≤ m → 0 ≤ n ≤ n' → unsigned_value m n ≤ unsigned_value m n'.
Proof.
  intros Hm Hn. unfold unsigned_value. assert (Hp : 0 < 2 ^ m) by (by apply Z.pow_pos_nonneg).
  pose proof (Z.mod_pos_bound n _ Hp) as Hr. pose proof (Z.mod_pos_bound n' _ Hp) as Hr'.
  pose proof (Z.div_mod n (2 ^ m) ltac:(lia)) as E. pose proof (Z.div_mod n' (2 ^ m) ltac:(lia)) as E'.
  pose proof (Z.div_pos n _ ltac:(lia) Hp) as He. pose proof (Z.div_le_mono n n' _ Hp ltac:(lia)) as Hle.
  set (e := n / 2 ^ m) in *. set (e' := n' / 2 ^ m) in *. set (r := n `mod` 2 ^ m) in *. set (r' := n' `mod` 2 ^ m) in *.
  clearbody e e' r r'. destruct (Z.eqb_spec e' 0) as [->|He'].
  - replace (e =? 0) with true by lia. lia.
  - assert (H1 : 1 ≤ 2 ^ (e' - 1)) by (apply Z.lt_succ_r, Z.lt_succ_r; assert (0 < 2 ^ (e' - 1)) by (apply Z.pow_pos_nonneg; lia); lia).
    destruct (Z.eqb_spec e 0) as [->|Hne]; [nia|].
    destruct (decide (e = e')) as [->|Hlt]; [nia|].
    assert (H2 : 2 ^ (e' - 1) = 2 ^ (e' - 1 - e) * (2 * 2 ^ (e - 1))).
    { rewrite <- Z.pow_succ_r by lia. rewrite <- Z.pow_add_r by lia. f_equal. lia. }
    assert (1 ≤ 2 ^ (e' - 1 - e)) by (assert (0 < 2 ^ (e' - 1 - e)) by (apply Z.pow_pos_nonneg; lia); lia).
    assert (0 < 2 ^ (e - 1)) by (apply Z.pow_pos_nonneg; lia).
    transitivity (2 ^ m * (2 * 2 ^ (e - 1))); [nia|]. transitivity (2 ^ m * 2 ^ (e' - 1)); [|nia].
    apply Z.mul_le_mono_nonneg_l; [lia|]. rewrite H2. nia.
Qed.

Lemma ieee_value_mono w m a b :
  0 ≤ m → fits w a → fits w b → total_order w a ≤ total_order w b → ieee_value w m a ≤ ieee_value w m b.
Proof.
  intros Hm [Ha _] [Hb _]. unfold total_order, ieee_value.
  destruct (Z.ltb_spec a (2 ^ (w - 1))) as [Hla|Hla], (Z.ltb_spec b (2 ^ (w - 1))) as [Hlb|Hlb]; intros Hle.
  - apply unsigned_value_mono; lia.
  - lia.
  - pose proof (unsigned_value_nonneg m (a - 2 ^ (w - 1)) Hm ltac:(lia)).
    pose proof (unsigned_value_nonneg m b Hm Hb). lia.
  - pose proof (unsigned_value_mono m (b - 2 ^ (w - 1)) (a - 2 ^ (w - 1)) Hm ltac:(lia)). lia.
Qed.

(** The code's comparison, as one of keys or of bytes. *)
Definition value_key (ty : ValueType) (b : bytes) : Z :=
  match ty with
  | VBoolean => from_le b
  | VInt32 => signed 32 (from_le b)
  | VInt64 => signed 64 (from_le b)
  | VFloat => total_order 32 (from_le b)
  | VDouble => total_order 64 (from_le b)
  | VBytes | VFixedBytes => 0
  end.
Definition by_bytes (ty : ValueType) : Prop := ty = VBytes ∨ ty = VFixedBytes.
#[local] Instance by_bytes_dec ty : Decision (by_bytes ty).
Proof. unfold by_bytes. destruct ty; (by left; auto) || (right; by intros [?|?]). Defined.

Lemma stored_fits b n : bytes_ok b → Zlen b = n → fits (8 * n) (from_le b).
Proof. intros Hb <-. by apply from_le_fits. Qed.

Lemma cmp_by_key ty a b :
  value_ok ty a → value_ok ty b → ¬ by_bytes ty →
  cmp_stat_bytes (physical ty) a b = (value_key ty a ?= value_key ty b).
Proof.
  intros [Hba Ha] [Hbb Hb] Hty. unfold by_bytes in Hty.
  destruct ty; cbn [value_key physical cmp_stat_bytes]; try (by destruct Hty; auto);
    unfold le_i32, le_i64, le_f32, le_f64, le_array.
  1: destruct a as [|x [|]], b as [|y [|]]; cbn [length] in *; try lia; cbn; by rewrite !Z.lor_0_r.
  all: destruct_and?; repeat match goal with H : Zlen ?x = _ |- _ => rewrite H end; try reflexivity.
  all: cbn; f_equal; symmetry.
  1, 2: rewrite <- (total_key_order 32) by first [lia|by apply (stored_fits _ 4)]; reflexivity.
  all: rewrite <- (total_key_order 64) by first [lia|by apply (stored_fits _ 8)]; reflexivity.
Qed.

Lemma at_most_key ty a b :
  value_ok ty a → value_ok ty b → ¬ by_bytes ty → value_key ty a ≤ value_key ty b → at_most ty a b.
Proof.
  intros [Hba Ha] [Hbb Hb] Hty. unfold by_bytes in Hty.
  destruct ty; cbn [value_key at_most]; try done; try (by destruct Hty; auto); destruct_and?.
  - apply ieee_value_mono; [done|by apply (stored_fits _ 4)..].
  - apply ieee_value_mono; [done|by apply (stored_fits _ 8)..].
Qed.

(** What the code keeps for not being greater is at most the other, and what it drops
    for being greater is at least the other. *)
Lemma cmp_not_greater ty a b :
  value_ok ty a → value_ok ty b → cmp_stat_bytes (physical ty) a b ≠ Gt → at_most ty a b.
Proof.
  intros Ha Hb. destruct (decide (by_bytes ty)) as [[->| ->]|Hty]; [apply lexicographic_spec..|].
  rewrite cmp_by_key by done. intros Hc. by apply at_most_key.
Qed.

Lemma cmp_greater ty a b :
  value_ok ty a → value_ok ty b → cmp_stat_bytes (physical ty) a b ≠ Lt → at_most ty b a.
Proof.
  intros Ha Hb. destruct (decide (by_bytes ty)) as [[->| ->]|Hty].
  1, 2: cbn; rewrite lexicographic_spec, (bytes_cmp_flip a b); by destruct (bytes_cmp a b).
  rewrite cmp_by_key by done. intros Hc. apply at_most_key; [done..|]. by apply Z.compare_ge_iff.
Qed.

Lemma at_most_trans ty a b c : at_most ty a b → at_most ty b c → at_most ty a c.
Proof.
  destruct ty; cbn [at_most]; try apply Z.le_trans; rewrite !lexicographic_spec; apply bytes_cmp_trans.
Qed.

(** Truncation loosens bounds. *)
Lemma truncate_lower_below b : bytes_cmp (truncate_lower b) b ≠ Gt.
Proof.
  unfold truncate_lower. case_decide; [by rewrite bytes_cmp_refl|].
  rewrite <- (take_drop BOUND_TRUNCATE_LEN b) at 2. apply bytes_cmp_prefix.
Qed.

Lemma increment_last_above reversed b tail :
  increment_last reversed = Some b → bytes_cmp (reverse reversed ++ tail) b = Lt ∧ (bytes_ok (reverse reversed) → bytes_ok b).
Proof.
  revert tail. induction reversed as [|x rest IH]; intros tail E; [done|]. cbn [increment_last] in E.
  rewrite reverse_cons, <- app_assoc.
  destruct (Z.ltb_spec x 255) as [Hx|Hx].
  - injection E as <-. rewrite reverse_cons. split; [apply bytes_cmp_above; lia|].
    unfold bytes_ok. rewrite !Forall_app, !Forall_singleton. unfold fits. intros [? Hf]. split; [done|]. lia.
  - destruct (IH ([x] ++ tail) E) as [Hc Hok]. split; [done|].
    unfold bytes_ok at 1. rewrite Forall_app. by intros [Hr _]; apply Hok.
Qed.

Lemma truncate_upper_above b t : truncate_upper b = Some t → bytes_cmp b t ≠ Gt ∧ (bytes_ok b → bytes_ok t).
Proof.
  unfold truncate_upper. case_decide as Hl; [intros [= <-]; by rewrite bytes_cmp_refl|]. intros E.
  destruct (increment_last_above _ _ (drop BOUND_TRUNCATE_LEN b) E) as [Hc Hok].
  rewrite reverse_involutive in Hc, Hok. rewrite take_drop in Hc. split; [by rewrite Hc|].
  intros Hb. apply Hok. by apply Forall_take.
Qed.

Lemma truncate_lower_ok b : bytes_ok b → bytes_ok (truncate_lower b).
Proof. unfold truncate_lower. case_decide; [done|]. by apply Forall_take. Qed.

(* ------------------------------------------------------------------ *)
(** ** The entries of a file                                           *)
(* ------------------------------------------------------------------ *)

Definition ascending {A} : list (Z * A) → Prop := StronglySorted (λ p q, p.1 < q.1).

Lemma or_default_keys k f acc p : p ∈ or_default k f acc → p.1 = k ∨ p ∈ acc.
Proof.
  induction acc as [|[k' a] acc IH]; cbn; [set_solver|].
  destruct (Z.compare_spec k k'); rewrite !elem_of_cons; [|set_solver..]. intros [->|]; [by left|set_solver].
Qed.

Lemma or_default_sorted k f acc : ascending acc → ascending (or_default k f acc).
Proof.
  induction 1 as [|[k' a] acc Hs IH Ha]; cbn; [by repeat constructor|].
  destruct (Z.compare_spec k k') as [->|Hlt|Hgt].
  - by constructor.
  - constructor; [by constructor|]. constructor; [done|]. eapply Forall_impl; [exact Ha|]. cbn. lia.
  - constructor; [done|]. apply Forall_forall. intros p [Hp|Hp]%or_default_keys; [cbn; lia|].
    rewrite Forall_forall in Ha. by apply Ha.
Qed.

Lemma ascending_unique {A} (acc : list (Z * A)) k a b : ascending acc → (k, a) ∈ acc → (k, b) ∈ acc → a = b.
Proof.
  induction 1 as [|[k' c] acc Hs IH Hc]; [set_solver|]. rewrite Forall_forall in Hc.
  intros [[= -> ->]|Ha]%elem_of_cons [[= <-]|Hb]%elem_of_cons; [done| | |by apply IH].
  - specialize (Hc _ Hb). cbn in Hc. lia.
  - subst. specialize (Hc _ Ha). cbn in Hc. lia.
Qed.

(** As a map. *)
#[local] Abbreviation as_map acc := (list_to_map acc : gmap Z _).

Lemma or_default_insert k f acc :
  ascending acc → as_map (or_default k f acc) =
    <[k := f (default accum_default (as_map acc !! k))]> (as_map acc).
Proof.
  induction 1 as [|[k' a] acc Hs IH Ha]; [done|]. cbn [or_default].
  destruct (Z.compare_spec k k') as [->|Hlt|Hgt]; cbn [list_to_map foldr uncurry fst snd].
  - rewrite lookup_insert_eq. cbn. by rewrite insert_insert_eq.
  - rewrite lookup_insert_ne by lia. rewrite not_elem_of_list_to_map_1; [done|].
    rewrite Forall_forall in Ha. intros ([k0 b] & -> & Hb)%list_elem_of_fmap. specialize (Ha _ Hb). cbn in Ha, Hlt. lia.
  - rewrite IH, lookup_insert_ne by lia. by rewrite insert_insert_ne by lia.
Qed.

Lemma ascending_lookup {A} (acc : list (Z * A)) k a :
  ascending acc → (k, a) ∈ acc → as_map acc !! k = Some a.
Proof.
  intros Hs Ha. apply elem_of_list_to_map_1; [|done]. clear Ha. induction Hs as [|p acc Hs IH Hp]; [constructor|].
  cbn. constructor; [|done]. rewrite Forall_forall in Hp. intros (q & E & Hq)%list_elem_of_fmap. specialize (Hp _ Hq). lia.
Qed.

Section Entries.
Context (skip names : list string) (Hsmall : Zlen names < 2 ^ 31 - 1).

Lemma field_id_small idx : (idx < length names)%nat → field_id idx = Z.of_nat idx + 1.
Proof. intros Hi. unfold field_id. rewrite wrap_id by (unfold fits; lia). unfold signed. rewrite decide_True; lia. Qed.

(** A row group adds its chunk to the entry of a column that is not skipped. *)
Definition with_chunk (name : string) (col : ColumnChunk) (old : option Accum) : option Accum :=
  if bool_decide (name ∈ skip) then old else Some (add_chunk col (default accum_default old)).

Lemma add_columns_spec names' idx columns acc :
  drop idx names = names' → length columns = length names' → ascending acc →
  ascending (add_columns skip names' idx columns acc) ∧
  ∀ j, (j < length names)%nat → as_map (add_columns skip names' idx columns acc) !! (Z.of_nat j + 1) =
    match names !! j, columns !! (j - idx)%nat with
    | Some name, Some col => if decide (idx ≤ j)%nat then with_chunk name col (as_map acc !! (Z.of_nat j + 1))
                             else as_map acc !! (Z.of_nat j + 1)
    | _, _ => as_map acc !! (Z.of_nat j + 1)
    end.
Proof.
  revert idx columns acc. induction names' as [|name names' IH]; intros idx [|col columns] acc Hd Hl Hs; try done.
  - split; [done|]. intros j Hj. by destruct (names !! j).
  - assert (Hn : names !! idx = Some name) by (rewrite <- (Nat.add_0_r idx), <- lookup_drop, Hd; done).
    assert (Hi : (idx < length names)%nat) by (by eapply lookup_lt_Some).
    set (acc' := if bool_decide (name ∈ skip) then acc else or_default (field_id idx) (add_chunk col) acc).
    assert (Hs' : ascending acc') by (unfold acc'; case_bool_decide; [done|by apply or_default_sorted]).
    assert (Hm : ∀ j, as_map acc' !! (Z.of_nat j + 1) =
      if decide (j = idx) then with_chunk name col (as_map acc !! (Z.of_nat j + 1)) else as_map acc !! (Z.of_nat j + 1)).
    { intros j. unfold acc', with_chunk. case_bool_decide; [by case_decide|].
      rewrite or_default_insert, field_id_small by done. case_decide as Hj.
      - subst j. by rewrite lookup_insert_eq.
      - by rewrite lookup_insert_ne by lia. }
    destruct (IH (S idx) columns acc') as [Has Hlk]; [|cbn in Hl; lia|done|].
    { by rewrite <- (Nat.add_1_r idx), <- drop_drop, Hd. }
    split; [exact Has|]. intros j Hj. cbn [add_columns]. fold acc'. rewrite Hlk by done. rewrite Hm.
    destruct (names !! j) as [nm|] eqn:Enm; [|by apply lookup_ge_None in Enm; lia].
    destruct (decide (j = idx)) as [->|Hne].
    + rewrite Hn in Enm. injection Enm as <-. rewrite Nat.sub_diag. change ((col :: columns) !! 0%nat) with (Some col).
      cbn match. rewrite (decide_True (P := (idx ≤ idx)%nat)) by lia.
      destruct (columns !! (idx - S idx)%nat); [by rewrite decide_False by lia|done].
    + destruct (decide (idx ≤ j)%nat) as [Hle|Hle].
      * replace (j - idx)%nat with (S (j - S idx)) by lia.
        change ((col :: columns) !! S (j - S idx)) with (columns !! (j - S idx)%nat).
        destruct (columns !! (j - S idx)%nat); [by rewrite decide_True by lia|done].
      * destruct (columns !! (j - S idx)%nat), ((col :: columns) !! (j - idx)%nat); try done; by rewrite decide_False by lia.
Qed.

Lemma add_groups_spec groups acc :
  Forall (λ rg, length rg = length names) groups → ascending acc →
  let acc' := foldl (λ acc rg, add_columns skip names 0 rg acc) acc groups in
  ascending acc' ∧ ∀ j name, names !! j = Some name →
    as_map acc' !! (Z.of_nat j + 1) =
    foldl (λ old col, with_chunk name col old) (as_map acc !! (Z.of_nat j + 1)) (omap (.!! j) groups).
Proof.
  revert acc. induction groups as [|rg groups IH]; intros acc Hl Hs; [done|]. inversion_clear Hl as [|? ? Hrg Hrest].
  destruct (add_columns_spec names 0 rg acc) as [Hs' Hm]; [done..|].
  destruct (IH (add_columns skip names 0 rg acc) Hrest Hs') as [Has Hlk]. split; [exact Has|].
  intros j name Hn. cbn [foldl]. rewrite (Hlk j name Hn). assert (Hj : (j < length names)%nat) by (by eapply lookup_lt_Some).
  rewrite (Hm j Hj), Hn, Nat.sub_0_r. destruct (lookup_lt_is_Some_2 rg j) as [col Ec]; [lia|]. rewrite Ec.
  rewrite decide_True by lia. cbn [omap list_omap]. by rewrite Ec.
Qed.

End Entries.

(* ------------------------------------------------------------------ *)
(** ** Bounds                                                          *)
(* ------------------------------------------------------------------ *)

(** A chunk of the values [vs] whose statistics are those of its values, in the order of
    the column's type: without bounds (or with bounds of the old signed order, which are
    not read) only where it has none. *)
Record reports (ty : ValueType) (col : ColumnChunk) (vs : list bytes) : Prop := {
  rp_values : Forall (value_ok ty) vs;
  rp_bounds st min max : cc_statistics col = Some st → ps_min_bytes_opt st = Some min → ps_max_bytes_opt st = Some max →
    ps_is_min_max_deprecated st = false →
    ps_physical_type st = physical ty ∧ value_ok ty min ∧ value_ok ty max ∧ Forall (λ v, at_most ty min v ∧ at_most ty v max) vs;
  rp_given : vs ≠ [] → ∃ st min max, cc_statistics col = Some st ∧ ps_min_bytes_opt st = Some min ∧
    ps_max_bytes_opt st = Some max ∧ ps_is_min_max_deprecated st = false;
}.

(** Bounds gathered so far for the values [vs]. *)
Definition bounding (ty : ValueType) (a : Accum) (vs : list bytes) : Prop :=
  Forall (value_ok ty) vs ∧
  match ac_lower a, ac_upper a with
  | Some l, Some u => ac_physical_type a = Some (physical ty) ∧ value_ok ty l ∧ value_ok ty u ∧
      Forall (λ v, at_most ty l v ∧ at_most ty v u) vs
  | None, None => vs = []
  | _, _ => False
  end.

Lemma keep_lower_least ty lower min l :
  (∀ cur, lower = Some cur → value_ok ty cur) → value_ok ty min → keep_lower (physical ty) lower min = l →
  value_ok ty l ∧ (∀ v, at_most ty min v → at_most ty l v) ∧
  (∀ cur v, lower = Some cur → at_most ty cur v → at_most ty l v).
Proof.
  intros Hcur Hmin <-. unfold keep_lower. destruct lower as [cur|]; [|by split_and!; [|auto|]].
  specialize (Hcur cur eq_refl). case_decide as Hc.
  - split_and!; [done|auto|]. intros ? v [= <-] Hle. eapply (at_most_trans ty min cur v); [|done].
    apply cmp_greater; [done..|]. by rewrite Hc.
  - split_and!; [done| |by intros ? v [= <-]]. intros v Hle. eapply (at_most_trans ty cur min v); [|done].
    by apply cmp_not_greater.
Qed.

Lemma keep_upper_greatest ty upper max u :
  (∀ cur, upper = Some cur → value_ok ty cur) → value_ok ty max → keep_upper (physical ty) upper max = u →
  value_ok ty u ∧ (∀ v, at_most ty v max → at_most ty v u) ∧
  (∀ cur v, upper = Some cur → at_most ty v cur → at_most ty v u).
Proof.
  intros Hcur Hmax <-. unfold keep_upper. destruct upper as [cur|]; [|by split_and!; [|auto|]].
  specialize (Hcur cur eq_refl). case_decide as Hc.
  - split_and!; [done|auto|]. intros ? v [= <-] Hle. eapply (at_most_trans ty v cur max); [done|].
    apply cmp_not_greater; [done..|]. by rewrite Hc.
  - split_and!; [done| |by intros ? v [= <-]]. intros v Hle. eapply (at_most_trans ty v max cur); [done|].
    by apply cmp_greater.
Qed.

(** The bounds of one more chunk. *)
Lemma add_chunk_bounding ty a vs col vs' :
  bounding ty a vs → reports ty col vs' → bounding ty (add_chunk col a) (vs ++ vs').
Proof.
  intros [Hvs Hb] [Hvs' Hbounds Hgiven].
  assert (Hall : Forall (value_ok ty) (vs ++ vs')) by (by apply Forall_app).
  assert (Hkeep : ∀ a', ac_lower a' = ac_lower a → ac_upper a' = ac_upper a → ac_physical_type a' = ac_physical_type a →
    vs' = [] → bounding ty a' (vs ++ vs')).
  { intros a' El Eu Et ->. rewrite app_nil_r in *. split; [done|]. by rewrite El, Eu, Et. }
  unfold add_chunk. destruct (cc_statistics col) as [st|] eqn:Es.
  2:{ apply Hkeep; [done..|]. destruct vs'; [done|]. destruct Hgiven as (? & ? & ? & E & _); [done|]. discriminate E. }
  assert (Hnone : ps_min_bytes_opt st = None ∨ ps_max_bytes_opt st = None ∨ ps_is_min_max_deprecated st = true → vs' = []).
  { intros Hn. destruct vs'; [done|]. destruct Hgiven as (st' & min & max & [= <-] & Emin & Emax & Ed); [done|].
    rewrite Emin, Emax, Ed in Hn. by destruct_or! Hn. }
  destruct (ps_min_bytes_opt st) as [min|] eqn:Emin; [|apply Hkeep; auto].
  destruct (ps_max_bytes_opt st) as [max|] eqn:Emax; [|apply Hkeep; auto].
  unfold merge_bounds. destruct (ps_is_min_max_deprecated st) eqn:Ed; [apply Hkeep; auto|].
  destruct (Hbounds st min max eq_refl Emin Emax Ed) as (Et & Hmin & Hmax & Hle).
  split; [done|]. cbn [ac_lower ac_upper ac_physical_type]. rewrite Et.
  assert (Hcur : (∀ cur, ac_lower a = Some cur → value_ok ty cur) ∧ (∀ cur, ac_upper a = Some cur → value_ok ty cur) ∧
    Forall (λ v, (∃ l, ac_lower a = Some l ∧ at_most ty l v) ∧ ∃ u, ac_upper a = Some u ∧ at_most ty v u) vs).
  { destruct (ac_lower a) as [l|], (ac_upper a) as [u|]; try done; [|by subst vs].
    destruct Hb as (_ & Hl & Hu & Hf). split_and!; [by intros ? [= <-]..|].
    eapply Forall_impl; [exact Hf|]. intros v [? ?]. split; [by exists l|by exists u]. }
  destruct Hcur as (Hlow & Hup & Hold).
  destruct (keep_lower_least ty (ac_lower a) min _ Hlow Hmin eq_refl) as (Hl & Hlnew & Hlold).
  destruct (keep_upper_greatest ty (ac_upper a) max _ Hup Hmax eq_refl) as (Hu & Hunew & Huold).
  split_and!; [done..|]. rewrite Forall_app in Hall. destruct Hall as [Hall Hall'].
  rewrite Forall_app, !Forall_forall in *. split; intros v Hv.
  - destruct (Hold v Hv) as [(l & El & Hlv) (u & Eu & Huv)]. split; [by eapply Hlold|by eapply Huold].
  - destruct (Hle v Hv). split; [by apply Hlnew|by apply Hunew].
Qed.

Lemma folded_bounding ty chunks values a vs :
  Forall2 (reports ty) chunks values → bounding ty a vs →
  bounding ty (foldl (λ a col, add_chunk col a) a chunks) (vs ++ mjoin values).
Proof.
  intros Hr. revert a vs. induction Hr as [|col v chunks values Hcol Hr IH]; intros a vs Hb; [by rewrite app_nil_r|].
  cbn [foldl]. change (mjoin (v :: values)) with (v ++ mjoin values). rewrite app_assoc. by apply IH, add_chunk_bounding.
Qed.

(** The chunks of the column [idx]. *)
Definition column_chunks (meta : ParquetMeta) (idx : nat) : list ColumnChunk := omap (.!! idx) (pm_row_groups meta).

Section Bounds.
Context `{SerdeLib, StatsLib}.

(** [base64] on bytes. *)
Class Base64Laws : Prop := base64_roundtrip b : bytes_ok b → base64_decode (base64_encode b) = Some b.
Context `{!Base64Laws}.

(** The entry that [extract_column_stats] makes of a column. *)
Lemma extracted_entry file skip meta stats idx name fs :
  parquet_metadata file = Some meta → Forall (λ rg, length rg = length (pm_column_names meta)) (pm_row_groups meta) →
  Zlen (pm_column_names meta) < 2 ^ 31 - 1 → pm_column_names meta !! idx = Some name →
  extract_column_stats file skip = Some stats → (Z.of_nat idx + 1, fs) ∈ stats →
  name ∉ skip ∧ fs = finish (foldl (λ a col, add_chunk col a) accum_default (column_chunks meta idx)).
Proof.
  intros Hmeta Hrect Hsmall Hname. unfold extract_column_stats. rewrite Hmeta. cbn [mbind option_bind]. intros [= <-].
  intros ([id a] & [= <- ->] & Ha)%list_elem_of_fmap.
  destruct (add_groups_spec skip (pm_column_names meta) Hsmall (pm_row_groups meta) [] Hrect) as [Has Hlk]; [constructor|].
  pose proof (ascending_lookup _ _ _ Has Ha) as El. rewrite (Hlk idx name Hname) in El. clear -El.
  change (as_map [] !! (Z.of_nat idx + 1)) with (@None Accum) in El. unfold column_chunks, with_chunk in *.
  case_bool_decide as Hskip.
  - exfalso. induction (omap (.!! idx) (pm_row_groups meta)); [done|by auto].
  - split; [done|]. f_equal. destruct (omap (.!! idx) (pm_row_groups meta)) as [|col chunks]; [done|]. cbn [foldl default] in *.
    assert (Hf : ∀ b, foldl (λ old col, Some (add_chunk col (default accum_default old))) (Some b) chunks =
      Some (foldl (λ a col, add_chunk col a) b chunks)) by (clear; induction chunks as [|c chunks IH]; intros b; [done|apply IH]).
    rewrite Hf in El. by injection El as <-.
Qed.

(** C35: the bounds of a column cover its values.  When the statistics that the footer
    has of every row group of a column are those of its values, the lower bound stored
    for the column decodes to one at most every value and the upper bound to one at
    least every value: merging row groups and cutting texts to sixteen bytes loses
    nothing.  A missing upper bound covers.  The order is that of the column's type,
    signed integers and IEEE numbers by value and bytes as in a dictionary, for the
    types of [ValueType]: not for unsigned columns or decimals stored in bytes, whose
    bounds are swapped ([unsigned_bounds], [negative_decimal_bounds]), and a floating
    point column's values are those that are not NaN, which its statistics leave out. *)
Theorem bounds_cover file skip meta stats idx name ty values fs v :
  parquet_metadata file = Some meta → Forall (λ rg, length rg = length (pm_column_names meta)) (pm_row_groups meta) →
  Zlen (pm_column_names meta) < 2 ^ 31 - 1 → pm_column_names meta !! idx = Some name →
  extract_column_stats file skip = Some stats → (Z.of_nat idx + 1, fs) ∈ stats →
  Forall2 (reports ty) (column_chunks meta idx) values → v ∈ mjoin values →
  (∃ t l, st_lower_bound_b64 fs = Some t ∧ base64_decode t = Some l ∧ at_most ty l v) ∧
  (∀ t, st_upper_bound_b64 fs = Some t → ∃ u, base64_decode t = Some u ∧ at_most ty v u).
Proof.
  intros Hmeta Hrect Hsmall Hname Hstats Hfs Hrep Hv.
  destruct (extracted_entry file skip meta stats idx name fs) as [_ ->]; [done..|].
  destruct (folded_bounding ty _ _ accum_default [] Hrep) as [Hvs Hb]; [done|]. cbn [app] in *.
  set (a := foldl _ _ _) in *. clearbody a. destruct (ac_lower a) as [l|] eqn:El, (ac_upper a) as [u|] eqn:Eu; try done.
  2:{ exfalso. rewrite Hb in Hv. by apply elem_of_nil in Hv. }
  destruct Hb as (Et & [Hl _] & [Hu _] & Hle). rewrite Forall_forall in Hle. destruct (Hle v Hv) as [Hlv Hvu].
  unfold finish. rewrite Et, El, Eu. cbn [st_lower_bound_b64 st_upper_bound_b64 fmap option_fmap option_map mbind option_bind].
  unfold is_byte_array. case_bool_decide as Hty.
  - assert (Hcmp : ∀ x y, at_most ty x y ↔ bytes_cmp x y ≠ Gt).
    { intros x y. rewrite <- lexicographic_spec. by destruct ty, Hty. }
    rewrite Hcmp in Hlv, Hvu. split.
    + exists (base64_encode (truncate_lower l)), (truncate_lower l). split; [done|].
      split; [by apply base64_roundtrip, truncate_lower_ok|]. rewrite Hcmp.
      eapply bytes_cmp_trans; [apply truncate_lower_below|done].
    + destruct (truncate_upper u) as [t|] eqn:Etu; [|done]. destruct (truncate_upper_above u t Etu) as [Hut Hok].
      intros ? [= <-]. exists t. split; [by apply base64_roundtrip, Hok|]. rewrite Hcmp. by eapply bytes_cmp_trans.
  - split; [exists (base64_encode l), l; split; [done|]|intros ? [= <-]; exists u];
      (split; [by apply base64_roundtrip|done]).
Qed.

End Bounds.

(* ------------------------------------------------------------------ *)
(** ** Concrete columns                                                *)
(* ------------------------------------------------------------------ *)

(** A footer read as the given one. *)
Definition footer_of (meta : ParquetMeta) : StatsLib :=
  {| parquet_metadata _ := Some meta; stats_to_string _ := None |}.
Definition stats_of (names : list string) (groups : list (list ColumnChunk)) (skip : list string) : option (list (Z * FieldStats)) :=
  @extract_column_stats _ (footer_of (mk_pmeta names groups)) [] skip.
Definition bounded_chunk (ty : PhysicalType) (n : Z) (min max : bytes) : ColumnChunk :=
  mk_chunk_meta n 40 (Some (mk_statistics ty (Some 0) (Some min) (Some max) false)).
Definition bounds_of (stats : option (list (Z * FieldStats))) : list (Z * option bytes * option bytes) :=
  (λ '(id, fs), (id, as_bytes <$> st_lower_bound_b64 fs, as_bytes <$> st_upper_bound_b64 fs)) <$> default [] stats.

(** Bytes 0 to 127 pass through the example's text encoding of bounds; so do all of
    [of_bytes]. *)
Lemma as_of_byte b : bytes_ok b → as_bytes (of_bytes b) = b.
Proof.
  induction 1 as [|x b Hx Hb IH]; [done|]. cbn. rewrite IH. f_equal. unfold fits in Hx.
  rewrite Ascii.N_ascii_embedding by lia. lia.
Qed.
#[local] Instance plain_base64 : Base64Laws.
Proof. intros b Hb. cbn. by rewrite as_of_byte. Qed.

(** Titles in two row groups: the longest values are cut to sixteen bytes. *)
Definition text_values : list (list bytes) :=
  Eval vm_compute in [as_bytes <$> ["apples"; "zucchini and other vegetables"]; as_bytes <$> ["aardvarks of the savanna"; "zebras"]].
Definition text_chunks : list (list ColumnChunk) :=
  Eval vm_compute in (λ vs, [bounded_chunk BYTE_ARRAY 2 (default [] (head vs)) (default [] (vs !! 1%nat))]) <$> text_values.

Definition text_bounds_b (min max : bytes) (vs : list bytes) : bool :=
  bool_decide (bytes_ok min) && bool_decide (bytes_ok max) && bool_decide (Forall bytes_ok vs) &&
  bool_decide (Forall (λ v, bytes_cmp min v ≠ Gt ∧ bytes_cmp v max ≠ Gt) vs).
Lemma text_chunk_reports n min max vs :
  text_bounds_b min max vs = true → reports VBytes (bounded_chunk BYTE_ARRAY n min max) vs.
Proof.
  unfold text_bounds_b. rewrite !andb_true_iff, !bool_decide_eq_true. intros [[[Hmin Hmax] Hvs] Hle].
  assert (Hlex : Forall (λ v, at_most VBytes min v ∧ at_most VBytes v max) vs).
  { eapply Forall_impl; [exact Hle|]. intros v. cbn. by rewrite !lexicographic_spec. }
  split.
  - eapply Forall_impl; [exact Hvs|]. by split.
  - intros st mn mx [= <-] [= <-] [= <-] _. by split_and!.
  - intros _. by eexists _, _, _.
Qed.

Lemma text_reports : Forall2 (reports VBytes) (column_chunks (mk_pmeta ["title"] text_chunks) 0) text_values.
Proof. apply Forall2_cons. split; [|apply Forall2_cons; split; [|constructor]]; apply text_chunk_reports; vm_compute; reflexivity. Qed.

Definition text_stats : list (Z * FieldStats) := Eval vm_compute in default [] (stats_of ["title"] text_chunks []).
Example text_bounds :
  bounds_of (Some text_stats) = [(1, Some (as_bytes "aardvarks of the"), Some (as_bytes "zucchini and oti"))].
Proof. vm_compute. reflexivity. Qed.

Lemma bounds_cover_witness :
  text_stats !! 0%nat = Some (1, mk_stats 4 0 80 (Some "aardvarks of the") (Some "zucchini and oti")) ∧
  let v := as_bytes "zucchini and other vegetables" in
  (∃ t l, Some "aardvarks of the" = Some t ∧ as_bytes t = l ∧ at_most VBytes l v) ∧
  ∀ t, Some "zucchini and oti" = Some t → ∃ u, Some (as_bytes t) = Some u ∧ at_most VBytes v u.
Proof.
  split; [vm_compute; reflexivity|].
  assert (Hin : as_bytes "zucchini and other vegetables" ∈ mjoin text_values) by (apply (bool_decide_unpack _); by vm_compute).
  pose proof (@bounds_cover _ (footer_of (mk_pmeta ["title"] text_chunks)) _ [] [] (mk_pmeta ["title"] text_chunks) text_stats 0%nat
    "title" VBytes text_values (mk_stats 4 0 80 (Some "aardvarks of the") (Some "zucchini and oti")) (as_bytes "zucchini and other vegetables")
    eq_refl ltac:(by repeat constructor) ltac:(done) eq_refl ltac:(vm_compute; reflexivity) ltac:(by left) text_reports Hin) as [Hl Hu].
  split; [|exact Hu]. destruct Hl as (t & l & Et & El & Hle). exists t, l. split; [exact Et|]. split; [|exact Hle].
  by injection El.
Defined.

(** Where the order of the type is not that of the bytes.  Decimals of fixed length are
    stored big-endian in two's complement: with -1 in one row group and 1 in another the
    lower bound becomes 1, and a reader that trusts it skips the file for -1. *)
Example negative_decimal_bounds :
  let minus_one := repeat 255 8 in let one := repeat 0 7 ++ [1] in
  bounds_of (stats_of ["price"] [[bounded_chunk FIXED_LEN_BYTE_ARRAY 1 minus_one minus_one];
                                 [bounded_chunk FIXED_LEN_BYTE_ARRAY 1 one one]] []) = [(1, Some one, Some minus_one)].
Proof. vm_compute. reflexivity. Qed.

(** Unsigned integers are stored as signed ones: 1 and 3000000000 in two row groups. *)
Example unsigned_bounds :
  bounds_of (stats_of ["count"] [[bounded_chunk INT32 1 (to_le 4 1) (to_le 4 1)];
                                 [bounded_chunk INT32 1 (to_le 4 3000000000) (to_le 4 3000000000)]] []) =
  [(1, Some (to_le 4 3000000000), Some (to_le 4 1))].
Proof. vm_compute. reflexivity. Qed.

(** A row group without bounds is passed over: its values may lie outside. *)
Example group_without_bounds :
  bounds_of (stats_of ["n"] [[bounded_chunk INT32 1 (to_le 4 5) (to_le 4 5)]; [mk_chunk_meta 9 40 None]] []) =
  [(1, Some (to_le 4 5), Some (to_le 4 5))].
Proof. vm_compute. reflexivity. Qed.

(** Texts are cut between bytes: fifteen letters and an accented one give bounds that
    end inside the character, the upper one with its first byte incremented. *)
Example text_bound_cuts_character :
  let t := repeat 97 15 ++ [195; 169] in
  bounds_of (stats_of ["title"] [[bounded_chunk BYTE_ARRAY 1 t t]] []) =
  [(1, Some (repeat 97 15 ++ [195]), Some (repeat 97 15 ++ [196]))].
Proof. vm_compute. reflexivity. Qed.

(** Statistics are numbered by leaf, the schema by column: after a column with two
    leaves, the statistics of [year] carry the id 3 where the schema says 2. *)
Example nested_columns_shift :
  let schema := [mk_afield "point" (ArrowTy.Struct [("x", ArrowTy.Int32, true); ("y", ArrowTy.Int32, true)]) true;
                 mk_afield "year" ArrowTy.Int32 true] in
  numbered 1 (af_name <$> schema) = [(1, "point"); (2, "year")] ∧
  bounds_of (stats_of ["x"; "y"; "year"]
    [[bounded_chunk INT32 1 (to_le 4 0) (to_le 4 0); bounded_chunk INT32 1 (to_le 4 7) (to_le 4 7);
      bounded_chunk INT32 1 (to_le 4 2024) (to_le 4 2024)]] []) !! 2%nat = Some (3, Some (to_le 4 2024), Some (to_le 4 2024)).
Proof. by vm_compute. Qed.
