(* ===== verification/Arrow.v ===== *)
(** * Record batches and the schema filler

    What the query code uses of the Arrow crates, as the interface [ArrowLib] with
    its documented behaviour [ArrowLaws]: named columns, per-row nulls and values,
    selection by a mask, and [RecordBatch::try_new] for a batch with further columns.
    On top of it, [ailake-query/src/schema_filler.rs]: the columns a table has and an
    older file has not are added with their initial defaults. *)

From S2P Require Import Prelude Core FileFormat Json Manifest Catalog.

(** [arrow_schema::DataType], the constructors the code distinguishes. *)
Inductive DataType : Type :=
| Boolean | Int32 | Int64 | Float32 | Float64 | Date32 | Time64Micro
| TimestampMicro (utc : bool) | Utf8 | LargeUtf8 | Binary | OtherType (tag : Z).
#[global] Instance DataType_eq_dec : EqDecision DataType.
Proof. solve_decision. Defined.

(** A value repeated in every row of an added column. *)
Inductive Scalar : Type :=
| SBool (b : bool) | SInt (n : Z) | SF32 (f : f32bits) | SF64 (f : Z) | SStr (s : string).

(** A field and the array made for it. *)
Record NewColumn : Type := mk_newcol {
  nc_name : string;
  nc_type : DataType;
  nc_nullable : bool;
  nc_array_type : DataType;
  nc_value : option Scalar;
}.

Class ArrowLib {PL : ParquetLib} : Type := {
  field_names : RecordBatch → list string;
  column_type : RecordBatch → nat → DataType;
  is_null : RecordBatch → nat → Z → bool;
  (** [column(i).nulls().is_some()]: an array without a null buffer has no nulls and
      answers [is_null] for any row; one with a buffer panics outside it. *)
  has_nulls : RecordBatch → nat → bool;
  (** [array.value(row).to_string()] of the string, integer and float arrays. *)
  value_text : RecordBatch → nat → Z → string;
  filter_record_batch : RecordBatch → list bool → AilakeResult RecordBatch;
  (** [RecordBatch::try_new]: the old columns, then the given ones. *)
  with_columns : RecordBatch → list NewColumn → AilakeResult RecordBatch;
  (** [Value::as_f64] and [f64 as f32]. *)
  json_f64 : Json → option Z;
  f64_as_f32 : Z → f32bits;
}.

(** [FromStr] and [Display] of the float types, and [String::from_utf8_lossy]. *)
Class FloatText : Type := {
  parse_f32 : string → option f32bits;
  parse_f64 : string → option Z;
  f32_to_string : f32bits → string;
  f64_to_string : Z → string;
  from_utf8_lossy : bytes → string;
}.

(** [schema.index_of(name)]: the first field of this name. *)
Definition index_of `{ArrowLib} (b : RecordBatch) (name : string) : option nat :=
  fst <$> list_find (λ n, n = name) (field_names b).

(** Column [j] of [b'] is column [i] of [b]. *)
Definition same_column `{ArrowLib} (b b' : RecordBatch) (i j : nat) : Prop :=
  column_type b' j = column_type b i ∧
  ∀ row, is_null b' j row = is_null b i row ∧ value_text b' j row = value_text b i row.

Definition column_valid (rows : Z) (c : NewColumn) : Prop :=
  nc_type c = nc_array_type c ∧ (nc_nullable c = true ∨ is_Some (nc_value c) ∨ rows = 0).
#[global] Instance column_valid_dec rows c : Decision (column_valid rows c).
Proof. unfold column_valid. apply _. Defined.

(** The rows a mask keeps, in order. *)
Fixpoint kept_rows (i : Z) (mask : list bool) : list Z :=
  match mask with
  | [] => []
  | b :: mask => if (b : bool) then i :: kept_rows (i + 1) mask else kept_rows (i + 1) mask
  end.

Class ArrowLaws {PL : ParquetLib} {AL : ArrowLib} : Prop := {
  num_rows_nonneg b : 0 ≤ num_rows b;
  (** Declared and actual types agree, and only nullable columns have nulls. *)
  with_columns_ok b cols :
    Forall (column_valid (num_rows b)) cols →
    ∃ b', with_columns b cols = Ok b' ∧
      num_rows b' = num_rows b ∧ field_names b' = field_names b ++ (nc_name <$> cols) ∧
      (∀ i, (i < length (field_names b))%nat → same_column b b' i i) ∧
      (∀ i c, cols !! i = Some c →
        column_type b' (length (field_names b) + i)%nat = nc_type c ∧
        ∀ row, 0 ≤ row < num_rows b →
          is_null b' (length (field_names b) + i)%nat row = bool_decide (nc_value c = None) ∧
          match nc_value c with
          | Some (SStr s) => value_text b' (length (field_names b) + i)%nat row = s
          | Some (SInt n) => value_text b' (length (field_names b) + i)%nat row = to_string n
          | _ => True
          end);
  with_columns_err b cols :
    ¬ Forall (column_valid (num_rows b)) cols → ∃ e, with_columns b cols = Err e;
  (** A mask of the batch's length selects rows. *)
  filter_law b mask :
    Zlen mask = num_rows b →
    ∃ b', filter_record_batch b mask = Ok b' ∧
      field_names b' = field_names b ∧ num_rows b' = Zlen (kept_rows 0 mask) ∧
      ∀ i k row, kept_rows 0 mask !! k = Some row →
        column_type b' i = column_type b i ∧
        is_null b' i (Z.of_nat k) = is_null b i row ∧ value_text b' i (Z.of_nat k) = value_text b i row;
}.

(* ------------------------------------------------------------------ *)
(** ** The schema filler                                               *)
(* ------------------------------------------------------------------ *)

Definition iceberg_type_to_arrow (typ : string) : DataType :=
  let t := trim typ in
  if String.eqb t "boolean" then Boolean
  else if String.eqb t "int" || String.eqb t "integer" then Int32
  else if String.eqb t "long" then Int64
  else if String.eqb t "float" then Float32
  else if String.eqb t "double" then Float64
  else if String.eqb t "date" then Date32
  else if String.eqb t "time" then Time64Micro
  else if String.eqb t "timestamp" then TimestampMicro false
  else if String.eqb t "timestamptz" then TimestampMicro true
  else if String.eqb t "string" || String.eqb t "uuid" then Utf8
  else if String.eqb t "binary" || String.eqb t "fixed" then Binary
  else Utf8.

Section Filler.
Context {PL : ParquetLib} {AL : ArrowLib}.

(** The type of the array and the value of its rows. *)
Definition make_default_array (dtype : DataType) (default_val : option Json)
    : DataType * option Scalar :=
  match dtype with
  | Boolean => (Boolean, v ← default_val; SBool <$> json_bool v)
  | Int32 => (Int32, v ← default_val; (SInt ∘ as_i32) <$> json_i64 v)
  | Int64 => (Int64, v ← default_val; SInt <$> json_i64 v)
  | Float32 => (Float32, v ← default_val; (SF32 ∘ f64_as_f32) <$> json_f64 v)
  | Float64 => (Float64, v ← default_val; SF64 <$> json_f64 v)
  | Date32 => (Date32, v ← default_val; (SInt ∘ as_i32) <$> json_i64 v)
  | TimestampMicro utc => (TimestampMicro utc, v ← default_val; SInt <$> json_i64 v)
  | Utf8 => (Utf8, v ← default_val; SStr <$> json_str v)
  | _ => (Utf8, None)
  end.

Definition missing_fields (b : RecordBatch) (schema_fields : list SchemaField) : list SchemaField :=
  filter (λ sf, sf_name sf ∉ field_names b) schema_fields.

Definition new_column (sf : SchemaField) : NewColumn :=
  let dtype := iceberg_type_to_arrow (sf_iceberg_type sf) in
  let '(array_type, v) := make_default_array dtype (sf_initial_default sf) in
  mk_newcol (sf_name sf) dtype (negb (sf_required sf)) array_type v.

Definition fill (b : RecordBatch) (schema_fields : list SchemaField) : AilakeResult RecordBatch :=
  match schema_fields with
  | [] => Ok b
  | _ =>
      match missing_fields b schema_fields with
      | [] => Ok b
      | missing => match with_columns b (new_column <$> missing) with
                   | Ok b' => Ok b'
                   | Err _ => Err ArrowError
                   end
      end
  end.

(** The columns a batch had are the columns it has. *)
Definition extends_batch (b b' : RecordBatch) : Prop :=
  num_rows b' = num_rows b ∧
  ∃ names, field_names b' = field_names b ++ names ∧
    ∀ i, (i < length (field_names b))%nat → same_column b b' i i.

Context `{!ArrowLaws}.

Lemma extends_batch_refl b : extends_batch b b.
Proof. split; [done|]. exists []. by rewrite app_nil_r. Qed.

Lemma index_of_app b b' names name i :
  field_names b' = field_names b ++ names → index_of b name = Some i → index_of b' name = Some i.
Proof.
  unfold index_of. intros E. rewrite E. destruct (list_find _ (field_names b)) as [[j x]|] eqn:Ef; [|done].
  by rewrite (list_find_app_l _ _ _ _ _ Ef).
Qed.

Lemma extends_index b b' name i :
  extends_batch b b' → index_of b name = Some i → index_of b' name = Some i ∧ same_column b b' i i.
Proof.
  intros (_ & names & E & Hs) Hi. split; [by eapply index_of_app|]. apply Hs.
  unfold index_of in Hi. destruct (list_find _ _) as [[j x]|] eqn:Ef; [|done]. injection Hi as <-.
  apply list_find_Some in Ef as (Hl & _). by eapply lookup_lt_Some.
Qed.

(** Filling keeps what was there. *)
Lemma fill_extends b fs b' : fill b fs = Ok b' → extends_batch b b'.
Proof.
  unfold fill. destruct fs as [|f fs]; [intros [= <-]; apply extends_batch_refl|].
  destruct (missing_fields b (f :: fs)) as [|sf missing] eqn:Em; [intros [= <-]; apply extends_batch_refl|].
  set (cols := new_column <$> _).
  destruct (decide (Forall (column_valid (num_rows b)) cols)) as [Hv|Hv].
  - destruct (with_columns_ok b cols Hv) as (b'' & E & Hn & Hf & Hs & _). rewrite E.
    intros [= <-]. split; [done|]. eauto.
  - destruct (with_columns_err b cols Hv) as [e ->]. done.
Qed.

(** A table column an older file has not got can make the file unreadable.  When a
    column that the batch lacks has the Iceberg type binary, fixed or time, the filler
    declares it with that type and gives it a string array, and fails on every batch;
    [add_vector_column] adds exactly such a column. *)
Theorem fill_binary_fails b (schema_fields : list SchemaField) sf :
  sf ∈ schema_fields → sf_name sf ∉ field_names b →
  trim (sf_iceberg_type sf) ∈ ["binary"; "fixed"; "time"] →
  fill b schema_fields = Err ArrowError.
Proof.
  intros Hin Hname Htype. unfold fill. destruct schema_fields as [|f fs]; [by apply elem_of_nil in Hin|].
  assert (Hm : sf ∈ missing_fields b (f :: fs)) by (apply list_elem_of_filter; done).
  destruct (missing_fields b (f :: fs)) as [|sf' missing]; [by apply elem_of_nil in Hm|].
  destruct (with_columns_err b (new_column <$> sf' :: missing)) as [e ->]; [|done].
  rewrite Forall_forall. intros Hv.
  destruct (Hv (new_column sf)) as [Ht _]; [by apply list_elem_of_fmap_2|]. revert Ht.
  unfold new_column, iceberg_type_to_arrow.
  rewrite !elem_of_cons in Htype. destruct Htype as [->|[->|[->|Hnil]]]; [done..|by apply elem_of_nil in Hnil].
Qed.

End Filler.
