(* ===== verification/Arrays.v ===== *)
(** * Arrays

    What the code that handles single columns ([cdc.rs], [memory_decay.rs]) uses of the
    Arrow crates, as the interface [ArrayLib]: the fields and columns of a batch,
    [RecordBatch::try_new], the [take] and [concat] kernels, and arrays made from
    values.  [ArrayLaws] is their documented behaviour.  The metadata of a schema is not
    represented; the equality of two schemas, which compares it, is an operation. *)

From S2P Require Import Prelude Core FileFormat Json Manifest Catalog ArrowSchema Arrow.

Class ArrayLib {PL : ParquetLib} : Type := {
  ArrayRef : Type;
  array_len : ArrayRef → Z;
  array_type : ArrayRef → ArrowTy.t;
  array_is_null : ArrayRef → Z → bool;
  (** [value(row).to_string()] where the type of the array has it. *)
  array_text : ArrayRef → Z → string;
  (** [format!("{:?}", array)], of the whole array. *)
  array_debug : ArrayRef → string;
  schema_of : RecordBatch → list ArrowField;
  column : RecordBatch → nat → ArrayRef;
  schema_eq : RecordBatch → list ArrowField → bool;
  batch_new : list ArrowField → list ArrayRef → AilakeResult RecordBatch;
  batch_new_empty : list ArrowField → RecordBatch;
  take_array : ArrayRef → list Z → outcome AilakeError ArrayRef;
  concat_arrays : list ArrayRef → AilakeResult ArrayRef;
  f32_array : list f32bits → ArrayRef;
  string_array : list string → ArrayRef;
  int64_array : list Z → ArrayRef;
  (** A primitive or string array of nulls, and [NullArray]. *)
  typed_nulls : ArrowTy.t → Z → ArrayRef;
  null_array : Z → ArrayRef;
  (** [FixedSizeListArray::new(Field::new("item", …), size, values, None)]. *)
  fixed_size_list : ArrowTy.t → bool → Z → ArrayRef → outcome AilakeError ArrayRef;
  (** [n] empty lists. *)
  empty_lists : ArrowTy.list_kind → ArrowTy.t → bool → Z → ArrayRef → ArrayRef;
}.

(** The types whose values the filter of equality deletes reads. *)
Definition readable_kind (t : ArrowTy.t) : option DataType :=
  match t with
  | ArrowTy.Int32 => Some Int32
  | ArrowTy.Int64 => Some Int64
  | ArrowTy.Float32 => Some Float32
  | ArrowTy.Float64 => Some Float64
  | ArrowTy.Utf8 => Some Utf8
  | ArrowTy.LargeUtf8 => Some LargeUtf8
  | _ => None
  end.

Section Arrays.
Context {PL : ParquetLib} {RL : ArrayLib}.

(** The value of a row, and of all rows. *)
Definition array_cell (a : ArrayRef) (row : Z) : option string :=
  if array_is_null a row then None else Some (array_text a row).
Definition array_cells (a : ArrayRef) : list (option string) := array_cell a <$> seqZ 0 (array_len a).

(** A column of [n] rows fits a field. *)
Definition column_fits (n : Z) (f : ArrowField) (a : ArrayRef) : Prop :=
  array_type a = af_type f ∧ array_len a = n ∧ (af_nullable f = false → None ∉ array_cells a).

End Arrays.

(** Taking rows and joining arrays move values; a batch is its fields and columns. *)
Class ArrayLaws {PL : ParquetLib} {AL : ArrowLib} {RL : ArrayLib} : Prop := {
  array_len_nonneg a : 0 ≤ array_len a;
  schema_names b : field_names b = af_name <$> schema_of b;
  column_is b i f : schema_of b !! i = Some f →
    column_fits (num_rows b) f (column b i) ∧ (∀ k, readable_kind (af_type f) = Some k → column_type b i = k) ∧
    ∀ row, is_null b i row = array_is_null (column b i) row ∧ value_text b i row = array_text (column b i) row;
  schema_eq_is b fs : schema_eq b fs = true → schema_of b = fs;
  batch_new_ok fs cols n : cols ≠ [] → Forall2 (column_fits n) fs cols →
    ∃ b, batch_new fs cols = Ok b ∧ schema_of b = fs ∧ num_rows b = n ∧
      ∀ i a, cols !! i = Some a → column b i = a;
  batch_new_empty_is fs : schema_of (batch_new_empty fs) = fs ∧ num_rows (batch_new_empty fs) = 0;
  take_array_ok a rows : Forall (λ r, 0 ≤ r < array_len a) rows →
    ∃ a', take_array a rows = Ret (Ok a') ∧ array_type a' = array_type a ∧
      array_len a' = Zlen rows ∧ array_cells a' = array_cell a <$> rows;
  concat_arrays_ok t arrs : arrs ≠ [] → Forall (λ a, array_type a = t) arrs →
    ∃ a, concat_arrays arrs = Ok a ∧ array_type a = t ∧ array_cells a = mjoin (array_cells <$> arrs);
  string_array_is l : array_type (string_array l) = ArrowTy.Utf8 ∧ array_len (string_array l) = Zlen l ∧
    array_cells (string_array l) = Some <$> l;
  int64_array_is l : array_type (int64_array l) = ArrowTy.Int64 ∧ array_len (int64_array l) = Zlen l ∧
    array_cells (int64_array l) = Some ∘ to_string <$> l;
  f32_array_is l : array_type (f32_array l) = ArrowTy.Float32 ∧ array_len (f32_array l) = Zlen l ∧
    None ∉ array_cells (f32_array l);
  fixed_size_list_ok t nullable size values n : 0 < size → array_type values = t →
    array_len values = n * size → (nullable = false → None ∉ array_cells values) →
    ∃ a, fixed_size_list t nullable size values = Ret (Ok a) ∧
      array_type a = ArrowTy.ListOf (ArrowTy.FixedList size) t nullable ∧ array_len a = n ∧
      None ∉ array_cells a;
}.
