(* ===== verification/Deletes.v ===== *)
(** * Row deletion

    Models [ailake-query/src/dv.rs] (deletion vectors), [equality_delete.rs] (the
    filter of equality deletes), [delete.rs] ([delete_rows], [delete_where]) and the
    files of delete values of [avro_manifest.rs].  Roaring bitmaps and the Avro writer
    are interfaces; the catalog is the interface [CatalogProvider] of
    [ailake-catalog/src/provider.rs].  The snapshot id and the clock are arguments. *)

From S2P Require Import Prelude Core FileFormat Store Effects Json Manifest Puffin Catalog Arrow.

(* ------------------------------------------------------------------ *)
(** ** Interfaces                                                      *)
(* ------------------------------------------------------------------ *)

(** The catalog of one table, over the state of the store it uses. *)
Class CatalogProvider (S : Type) : Type := {
  cp_load_table : IO S TableMetadata;
  cp_list_files : option Z → IO S (list DataFileEntry);
  cp_list_equality_deletes : option Z → IO S (list EqualityDeleteFile);
  cp_commit_snapshot : NewSnapshot → Z → IO S Z;
  cp_retires_files_physically : bool;
  (** The table's properties, the clock and the table's UUID. *)
  cp_create_table : TableProperties → Z → string → IO S unit;
  cp_supports_in_place_rewrite : bool;
}.

(** [HadoopCatalog] as a provider. *)
Definition hadoop_provider {S} `{Store S} `{!LockStore S} `{AvroLib} `{SerdeLib} `{JsonLib}
    `{BincodeLib} `{MetaLib} (root warehouse : string) : CatalogProvider S := {|
  cp_load_table := load_table root;
  cp_list_files := list_files root;
  cp_list_equality_deletes := list_equality_deletes root;
  cp_commit_snapshot sn now := commit_snapshot root warehouse sn now;
  cp_retires_files_physically := true;
  cp_create_table props now uuid := create_table root props now uuid;
  cp_supports_in_place_rewrite := true;
|}.

(** [roaring::RoaringBitmap]: a set of 32-bit integers. *)
Class RoaringLib : Type := {
  Bitmap : Type;
  rb_new : Bitmap;
  rb_insert : Bitmap → Z → Bitmap;
  rb_contains : Bitmap → Z → bool;
  rb_len : Bitmap → Z;
  rb_is_empty : Bitmap → bool;
  rb_serialize : Bitmap → AilakeResult bytes;
  rb_deserialize : bytes → AilakeResult Bitmap;
}.

Class RoaringLaws `{RoaringLib} : Prop := {
  rb_contains_new x : rb_contains rb_new x = false;
  rb_contains_insert b y x : rb_contains (rb_insert b y) x = bool_decide (x = y) || rb_contains b x;
  rb_is_empty_spec b : rb_is_empty b = true ↔ ∀ x, rb_contains b x = false;
  rb_roundtrip b : ∃ d, rb_serialize b = Ok d ∧
    ∃ b', rb_deserialize d = Ok b' ∧ ∀ x, rb_contains b' x = rb_contains b x;
}.

(** [apache_avro::Writer]: parse the schema, append every record, finish. *)
Class AvroWriterLib : Type := {
  avro_writer : string → list Value → AilakeResult bytes;
}.

(** A call whose error the program inspects. *)
Definition io_catch {S A} (prog : IO S A) : IO S (AilakeResult A) :=
  λ s, match prog s with
       | (s, Ret r) => (s, Ret (Ok r))
       | (s, Panic) => (s, Panic)
       end.

(* ------------------------------------------------------------------ *)
(** ** Deletion vectors                                                *)
(* ------------------------------------------------------------------ *)

Section DeletionVectors.
Context {S : Type} `{Store S} `{RoaringLib} `{JsonLib} {PL : ParquetLib} {AL : ArrowLib}.

Definition load_deletion_vector (dv : DeletionVector) : IO S Bitmap :=
  b ← get_range_ (dv_path dv) (dv_offset dv) (wrap 64 (dv_offset dv + dv_length dv));
  match rb_deserialize b with
  | Ok bitmap => mret bitmap
  | Err _ => io_err IoError
  end.

Definition filter_deleted_rows {T} (batch : RecordBatch) (parallel : list T) (bitmap : Bitmap)
    : AilakeResult (RecordBatch * list T) :=
  if rb_is_empty bitmap then Ok (batch, parallel)
  else
    let keep := (λ i, negb (rb_contains bitmap (wrap 32 i))) <$> seqZ 0 (num_rows batch) in
    let filtered_parallel := (zip parallel keep) ≫= λ '(v, k), if (k : bool) then [v] else [] in
    match filter_record_batch batch keep with
    | Ok b => Ok (b, filtered_parallel)
    | Err _ => Err ArrowError
    end.

Definition has_deletions (bitmap : Bitmap) (row_ids : list Z) : bool :=
  existsb (λ id, rb_contains bitmap (wrap 32 id)) row_ids.

Definition dv_footer_json (snapshot_id blob_offset blob_length : Z) : Json :=
  json_object
    [("blobs", JArr [json_object
       [("type", JStr "deletion-vector-v1"); ("snapshot-id", JInt snapshot_id);
        ("sequence-number", JInt 0); ("offset", JInt blob_offset); ("length", JInt blob_length)]]);
     ("properties", JObj [])].

(** File bytes, blob offset, blob length. *)
Definition write_single_dv (bitmap : Bitmap) (snapshot_id : Z) : AilakeResult (bytes * Z * Z) :=
  blob ← match rb_serialize bitmap with Ok b => Ok b | Err _ => Err IoError end;
  let blob_offset := Zlen PUFFIN_MAGIC in
  let blob_length := Zlen blob in
  let footer_bytes := as_bytes (json_to_string (dv_footer_json snapshot_id blob_offset blob_length)) in
  Ok (PUFFIN_MAGIC ++ blob ++ footer_bytes ++ to_le 4 (wrap 32 (Zlen footer_bytes)) ++ PUFFIN_MAGIC,
      blob_offset, blob_length).

Context `{!CatalogProvider S}.

Definition is_target (file_path : string) (f : DataFileEntry) : Prop :=
  df_path f = file_path ∨ ends_with file_path (df_path f) = true.
#[global] Instance is_target_dec file_path f : Decision (is_target file_path f).
Proof. unfold is_target. apply _. Defined.

Definition set_deletion_vector (dv : DeletionVector) (f : DataFileEntry) : DataFileEntry :=
  mk_file (df_path f) (df_record_count f) (df_file_size_bytes f) (df_centroid_b64 f) (df_radius f)
    (df_hnsw_offset f) (df_hnsw_len f) (df_vector_column f) (df_vector_dim f)
    (df_extra_vector_indexes f) (df_index_status f) (df_index_error f) (df_batch_id f)
    (df_embedding_model f) (df_partition_value f) (Some dv) (df_first_row_id f)
    (df_column_stats f) (df_sequence_number f).

Definition dv_file_path (table_root : string) (snap_id : Z) : string :=
  table_root +:+ "/metadata/dv-" +:+ to_string snap_id +:+ ".dvd".

(** The bitmap of the target so far; a vector that cannot be loaded counts as empty. *)
Definition existing_bitmap (f : DataFileEntry) : IO S Bitmap :=
  match df_deletion_vector f with
  | Some dv =>
      r ← io_catch (load_deletion_vector dv);
      mret (match r with Ok b => b | Err _ => rb_new end)
  | None => mret rb_new
  end.

(** The snapshot both deletions commit. *)
Definition plain_snapshot (snap_id : Z) (parent : option Z) (files : list DataFileEntry)
    (op : SnapshotOperation) (deletes : list EqualityDeleteFile) : NewSnapshot :=
  mk_newsnap snap_id parent files op None ∅ [] deletes.

Definition delete_rows (file_path : string) (row_ids : list Z) (snap_id now : Z) : IO S unit :=
  match row_ids with
  | [] => mret tt
  | _ =>
      meta ← cp_load_table;
      if decide (tm_format_version meta < 3) then io_err InvalidArgument
      else
        files ← cp_list_files None;
        match list_find (is_target file_path) files with
        | None => io_err CatalogError
        | Some (target_idx, target) =>
            bitmap ← existing_bitmap target;
            let bitmap := foldl rb_insert bitmap row_ids in
            let cardinality := as_i64 (rb_len bitmap) in
            '(puffin_bytes, blob_offset, blob_length) ← io_result (write_single_dv bitmap snap_id);
            let dv_path := dv_file_path (trim_end_slashes (tm_location meta)) snap_id in
            put_ dv_path puffin_bytes;;
            let dv := mk_dv dv_path blob_offset blob_length cardinality in
            let files := <[target_idx := set_deletion_vector dv target]> files in
            cp_commit_snapshot
              (plain_snapshot snap_id (tm_current_snapshot_id meta) files Replace []) now;;
            mret tt
        end
  end.

End DeletionVectors.

(* ------------------------------------------------------------------ *)
(** ** Files of delete values                                          *)
(* ------------------------------------------------------------------ *)

Section DeleteValues.
Context `{AvroLib} `{AvroWriterLib} `{FloatText}.

Definition eq_avro_type (iceberg_type : string) : string :=
  let t := trim iceberg_type in
  if String.eqb t "int" || String.eqb t "integer" then "int"
  else if String.eqb t "long" then "long"
  else if String.eqb t "float" then "float"
  else if String.eqb t "double" then "double"
  else "string".

Definition eq_delete_schema (col_name avro_type : string) (field_id : Z) : string :=
  json_text "{'type':'record','name':'eq_delete_entry','fields':[{'name':'" +:+ col_name +:+
  json_text "','type':'" +:+ avro_type +:+ json_text "','field-id':" +:+ to_string field_id +:+ "}]}".

(** A value that does not parse stays a string. *)
Definition eq_avro_value (avro_type val : string) : Value :=
  let parsed := if String.eqb avro_type "int" then VInt <$> parse_signed 32 val
                else if String.eqb avro_type "long" then VLong <$> parse_signed 64 val
                else if String.eqb avro_type "float" then VFloat <$> parse_f32 val
                else if String.eqb avro_type "double" then VDouble <$> parse_f64 val
                else None in
  default (VString val) parsed.

Definition write_equality_delete_avro (col_name : string) (field_id : Z) (iceberg_type : string)
    (values : list string) : AilakeResult bytes :=
  let avro_type := eq_avro_type iceberg_type in
  avro_writer (eq_delete_schema col_name avro_type field_id)
    ((λ val, VRecord [(col_name, eq_avro_value avro_type val)]) <$> values).

(** The text of a value, [None] for the kinds that are skipped. *)
Definition eq_value_text (v : Value) : option string :=
  match v with
  | VString s => Some s
  | VInt n | VLong n => Some (to_string n)
  | VFloat f => Some (f32_to_string f)
  | VDouble d => Some (f64_to_string d)
  | VBytes b => Some (from_utf8_lossy b)
  | _ => None
  end.

Definition record_texts (v : Value) : list (string * string) :=
  match v with
  | VRecord fields => omap (λ '(col, v), s ← eq_value_text v; Some (col, s)) fields
  | _ => []
  end.

Definition read_equality_delete_values (data : bytes) : AilakeResult (list (string * string)) :=
  vs ← avro_reader data; Ok (vs ≫= record_texts).

End DeleteValues.

(* ------------------------------------------------------------------ *)
(** ** The equality-delete filter                                      *)
(* ------------------------------------------------------------------ *)

(** [column_name → values to delete] of one delete file. *)
Abbreviation Predicate := (gmap string (gset string)) (only parsing).
(** With the sequence number of each file. *)
Abbreviation EqualityDeleteFilter := (list (Z * gmap string (gset string))) (only parsing).

Section EqualityDeletes.
Context {S : Type} `{Store S} `{AvroLib} `{AvroWriterLib} `{FloatText}.
Context {PL : ParquetLib} {AL : ArrowLib}.

(** [cols.entry(col).or_default().insert(val)] for every pair. *)
Definition predicate_of (pairs : list (string * string)) : Predicate :=
  foldl (λ cols '(col, val), <[col := {[val]} ∪ default ∅ (cols !! col)]> cols) ∅ pairs.

Definition from_files (files : list EqualityDeleteFile) : IO S EqualityDeleteFilter :=
  io_map (λ edf,
    b ← get_ (ed_path edf);
    pairs ← io_result (match read_equality_delete_values b with
                       | Ok ps => Ok ps
                       | Err _ => Err CatalogError
                       end);
    mret (ed_sequence_number edf, predicate_of pairs)) files.

(** The types whose values have a text to compare. *)
Definition readable_type (t : DataType) : bool :=
  match t with
  | Utf8 | LargeUtf8 | Int32 | Int64 | Float32 | Float64 => true
  | _ => false
  end.

(** One column of a predicate: [None] when the batch has no such column, otherwise
    whether the loop goes on. *)
Definition column_matches (b : RecordBatch) (row : Z) (col : string) (values : gset string) : option bool :=
  i ← index_of b col;
  Some (if is_null b i row then false
        else if readable_type (column_type b i) then bool_decide (value_text b i row ∈ values)
        else true).

Fixpoint row_matches_go (b : RecordBatch) (row : Z) (cols : list (string * gset string))
    (any_column_found : bool) : bool :=
  match cols with
  | [] => any_column_found
  | (col, values) :: cols =>
      match column_matches b row col values with
      | None => row_matches_go b row cols any_column_found
      | Some true => row_matches_go b row cols true
      | Some false => false
      end
  end.

(** Whether a row of the batch has the deleted values. *)
Definition values_match (cols : Predicate) (b : RecordBatch) (row : Z) : bool :=
  row_matches_go b row (map_to_list cols) false.

Definition row_in (b : RecordBatch) (row : Z) : bool := (0 <=? row) && (row <? num_rows b).

(** [array.is_null(row)] or [array.value(row)] indexes a buffer. *)
Definition reads_row (b : RecordBatch) (col : string) : bool :=
  match index_of b col with
  | Some i => has_nulls b i || readable_type (column_type b i)
  | None => false
  end.

(** The whole of [row_matches]: a row outside the batch, whose columns are all as long,
    panics ([None]) at the first column that is indexed, whatever the order in which
    the map gives them, for until then no column ends the loop. *)
Definition row_matches (cols : Predicate) (b : RecordBatch) (row : Z) : option bool :=
  if row_in b row || negb (existsb (reads_row b) (map_to_list cols).*1) then Some (values_match cols b row) else None.

Fixpoint should_delete_row (f : EqualityDeleteFilter) (b : RecordBatch) (row seq : Z) : option bool :=
  match f with
  | [] => Some false
  | (delete_seq, cols) :: f =>
      if delete_seq <=? seq then should_delete_row f b row seq
      else m ← row_matches cols b row; if m : bool then Some true else should_delete_row f b row seq
  end.

(** Its value, for a row of the batch. *)
Definition deleted_by_value (f : EqualityDeleteFilter) (b : RecordBatch) (row seq : Z) : bool :=
  existsb (λ '(delete_seq, cols), (seq <? delete_seq) && values_match cols b row) f.

(** The rows are those of the batch, where nothing panics ([should_delete_row_in]). *)
Definition filter_apply (f : EqualityDeleteFilter) (b : RecordBatch) (seq : Z) : AilakeResult RecordBatch :=
  match f with
  | [] => Ok b
  | _ =>
      let keep := (λ i, negb (deleted_by_value f b i seq)) <$> seqZ 0 (num_rows b) in
      match filter_record_batch b keep with Ok b => Ok b | Err _ => Err ArrowError end
  end.

Context `{!CatalogProvider S}.

Definition eq_del_rel_path (snap_id : Z) : string := "metadata/eq-del-" +:+ to_string snap_id +:+ ".avro".

(** Field id and type of the column. *)
Definition column_field (meta : TableMetadata) (column_name : string) : Z * string :=
  match List.find (λ sf, String.eqb (sf_name sf) column_name) (tm_schema_fields meta) with
  | Some sf => (sf_id sf, sf_iceberg_type sf)
  | None => (0, "string")
  end.

Definition delete_where (column_name : string) (values : list string) (snap_id now : Z) : IO S unit :=
  match values with
  | [] => mret tt
  | _ =>
      meta ← cp_load_table;
      let table_root := trim_end_slashes (tm_location meta) in
      let '(field_id, iceberg_type) := column_field meta column_name in
      eq_del_avro ← io_result
        (match write_equality_delete_avro column_name field_id iceberg_type values with
         | Ok d => Ok d | Err _ => Err CatalogError end);
      put_ (table_root +:+ "/" +:+ eq_del_rel_path snap_id) eq_del_avro;;
      let eq_del_file :=
        mk_eqdel (eq_del_rel_path snap_id) [field_id] (Zlen values) (Zlen eq_del_avro)
          (Some (column_name, values)) 0 in
      cp_commit_snapshot
        (plain_snapshot snap_id (tm_current_snapshot_id meta) [] Delete [eq_del_file]) now;;
      mret tt
  end.

End EqualityDeletes.
