(* ===== verification/Search.v ===== *)
(** * Search

    Models [ailake-query/src/scanner.rs]: vector search over the files of a table
    ([search_inner], [search_one_file]), hybrid fusion, text search, multi-column
    search and preloaded sessions.  Files are searched concurrently there, but every
    search only reads the store and the outcomes are folded in file order, so the
    model runs them in that order; elapsed times are left out.  Decoding Parquet rows,
    evaluating a column filter on them, searching a loaded index and the Tantivy
    reader are the interface [QueryLib]; the split of a brute-force scan by the thread
    pool is an argument. *)

From S2P Require Import Prelude Core Footer IvfPq FileFormat Store Effects IndexLoader Json Manifest Puffin.
From S2P Require Import Bloom Catalog Arrow Deletes Floats Ranking Bm25.

(* ------------------------------------------------------------------ *)
(** ** Admission                                                       *)
(* ------------------------------------------------------------------ *)

Definition FILE_SEARCH_BUDGET_QUANTUM_BYTES : Z := 16 * 1024 * 1024.
Definition PROCESS_FILE_SEARCH_BUDGET_UNITS : Z := 32.
Definition MAX_TOP_K : Z := 100000.

Definition is_none {A} (o : option A) : bool := match o with None => true | Some _ => false end.

Definition file_search_budget_units (file_size_bytes : Z) : Z :=
  Z.min (Z.max (saturating_add 64 file_size_bytes (FILE_SEARCH_BUDGET_QUANTUM_BYTES - 1)
                / FILE_SEARCH_BUDGET_QUANTUM_BYTES) 1)
        PROCESS_FILE_SEARCH_BUDGET_UNITS.

Definition estimate_file_search_budget_bytes (file_sizes : list Z) : Z :=
  let units := foldl (λ total units, Z.min (saturating_add 32 total units) PROCESS_FILE_SEARCH_BUDGET_UNITS)
                 0 (file_search_budget_units <$> file_sizes) in
  units * FILE_SEARCH_BUDGET_QUANTUM_BYTES.

(* ------------------------------------------------------------------ *)
(** ** Interfaces and configuration                                    *)
(* ------------------------------------------------------------------ *)

Class QueryLib {PL : ParquetLib} {IL : IndexLib} : Type := {
  ColumnFilter : Type;
  (** With the dimension the reader was made for. *)
  read_parquet : AilakeFileReader → Z → AilakeResult (RecordBatch * list vec32);
  matching_row_ids : AilakeFileReader → ColumnFilter → AilakeResult (gset Z);
  hnsw_search : HnswIndex → vec32 → Z → Z → list (Z * f32bits);
  ivf_search : IvfPqIndex PQCodebook → vec32 → Z → list (Z * f32bits);
  batch_slice : RecordBatch → Z → Z → RecordBatch;
  FtsSearcher : Type;
  fts_from_blob : bytes → AilakeResult FtsSearcher;
  (** Row id and score. *)
  fts_search : FtsSearcher → string → Z → AilakeResult (list (Z * f32bits));
}.

Section Config.
Context {PL : ParquetLib} {IL : IndexLib} {QL : QueryLib}.

(** [AnyIndex::search] and [AnyIndex::quantize_to_f16]. *)
Definition index_search (i : AnyIndex) (query : vec32) (k ef : Z) : list (Z * f32bits) :=
  match i with
  | AnyHnsw idx => hnsw_search idx query k ef
  | AnyIvfPq idx => ivf_search idx query k
  end.
Definition any_quantize_to_f16 (i : AnyIndex) : AnyIndex :=
  match i with
  | AnyHnsw idx => AnyHnsw (quantize_to_f16 idx)
  | AnyIvfPq idx => AnyIvfPq idx
  end.

Record SearchConfig : Type := mk_config {
  top_k : Z;
  ef_search : Z;
  pruning_threshold : f32bits;
  rerank_factor : option Z;
  hybrid : option HybridConfig;
  score_fn : option (f32bits → RecordBatch → f32bits);
  partition_filter : option string;
  column_filter : option ColumnFilter;
  strict_deletes : bool;
}.

Definition config_default : SearchConfig := mk_config 10 50 F32_INFINITY None None None None None true.
End Config.

Inductive FlatScanKind : Type := Deferred | Unexpected.

Record FileSearchOutcome : Type := mk_outcome {
  fo_results : list SearchResult;
  fo_candidates : list (Z * f32bits * string * string);
  fo_flat_scan : option FlatScanKind;
  fo_flat_scan_rows : Z;
}.
Definition outcome_default : FileSearchOutcome := mk_outcome [] [] None 0.

(** What a search adds to the process-wide counters. *)
Record FlatScanStats : Type := mk_scan_stats {
  deferred_files : Z;
  unexpected_files : Z;
  scanned_rows : Z;
}.

Definition parse_metric (s : string) : VectorMetric :=
  if String.eqb s "euclidean" then Euclidean
  else if String.eqb s "dotproduct" || String.eqb s "dot_product" || String.eqb s "dot" then DotProduct
  else if String.eqb s "normalized_cosine" || String.eqb s "normalizedcosine" then NormalizedCosine
  else Cosine.

Definition primary_column (meta : TableMetadata) : string :=
  default "" (tm_properties meta !! "ailake.vector-column").

(** The dimension check of a query. *)
Definition stored_dim_key (meta : TableMetadata) (vector_column : string) : string :=
  if String.eqb vector_column (primary_column meta) then "ailake.vector-dim"
  else "ailake.dim-" +:+ vector_column.

Definition check_query_dim (meta : TableMetadata) (vector_column : string) (query : vec32)
    : AilakeResult unit :=
  match tm_properties meta !! stored_dim_key meta vector_column ≫= parse_u32 with
  | None => Ok tt
  | Some table_dim =>
      let query_dim := wrap 32 (Zlen query) in
      if query_dim =? table_dim then Ok tt
      else Err (ModelMismatch
             (default ("dim=" +:+ to_string table_dim) (tm_properties meta !! "ailake.embedding-model"))
             table_dim ("query dim=" +:+ to_string query_dim) query_dim)
  end.

Definition query_metric (meta : TableMetadata) (vector_column : string) : VectorMetric :=
  let metric_key := if String.eqb vector_column (primary_column meta) then "ailake.vector-metric"
                    else "ailake.metric-" +:+ vector_column in
  parse_metric (default "cosine"
    (match tm_properties meta !! metric_key with
     | Some m => Some m
     | None => tm_properties meta !! "ailake.vector-metric"
     end)).

Definition in_partition (pv : option string) (files : list DataFileEntry) : list DataFileEntry :=
  match pv with
  | Some pv => filter (λ f, df_partition_value f = Some pv) files
  | None => files
  end.

(* ------------------------------------------------------------------ *)
(** ** Reads of a search                                               *)
(* ------------------------------------------------------------------ *)

Section Reads.
Context {S : Type} `{Store S} `{!CatalogProvider S} `{AvroLib} `{AvroWriterLib} `{FloatText} `{JsonLib} `{BincodeLib}.
Context {PL : ParquetLib} {AL : ArrowLib} `{Bm25Lib}.

Definition load_bm25_stats (path : string) : IO S IdfStats :=
  size ← io_file_size path;
  match size with
  | Err _ => mret idf_default
  | Ok size =>
      if MAX_BM25_STATS_COMPRESSED_BYTES <? size then mret idf_default
      else
        r ← io_get_range path 0 size;
        mret (match r with
              | Ok bs => match idf_from_bytes bs with Ok st => st | Err _ => idf_default end
              | Err _ => idf_default
              end)
  end.

Definition load_bloom_map (meta : TableMetadata) : IO S (gmap string BloomFilter) :=
  match tm_current_statistics_path meta with
  | None => mret ∅
  | Some stats_path =>
      r ← io_get stats_path;
      match r with
      | Err _ => mret ∅
      | Ok bs =>
          entries ← io_catch (io_outcome (read_bm25_blooms bs));
          mret (match entries with Ok es => bloom_map_of es | Err _ => ∅ end)
      end
  end.

(** The filter of the current snapshot's equality deletes; in strict mode a failure is
    an error, otherwise it hides nothing. *)
Definition load_delete_filter (strict : bool) : IO S EqualityDeleteFilter :=
  edfs ← io_catch (cp_list_equality_deletes None);
  match edfs with
  | Ok [] => mret []
  | Ok edfs =>
      f ← io_catch (from_files edfs);
      match f with
      | Ok f => mret f
      | Err e => if strict then io_err e else mret []
      end
  | Err e => if strict then io_err e else mret []
  end.

Definition load_dv (strict : bool) `{RoaringLib} (entry : DataFileEntry) : IO S (option Bitmap) :=
  match df_deletion_vector entry with
  | None => mret None
  | Some dv =>
      r ← io_catch (load_deletion_vector dv);
      match r with
      | Ok bm => mret (Some bm)
      | Err e => if strict then io_err e else mret None
      end
  end.

End Reads.

(* ------------------------------------------------------------------ *)
(** ** One file                                                        *)
(* ------------------------------------------------------------------ *)

Section OneFile.
Context {S : Type} `{Store S} `{RoaringLib} {PL : ParquetLib} {IL : IndexLib} {AL : ArrowLib} {QL : QueryLib}.
Context `{UnstableSort} `{Kernels}.
Context (split : Split).

(** The text of a row in the given string columns, joined by spaces. *)
Definition row_text (b : RecordBatch) (row : Z) (columns : list string) : string :=
  String.concat " " (omap (λ col,
    i ← index_of b col;
    if decide (column_type b i = Utf8 ∧ row < num_rows b ∧ is_null b i row = false)
    then Some (value_text b i row) else None) columns).

Definition extract_text_for_row (b : RecordBatch) (row : Z) (h : HybridConfig) : string :=
  row_text b row (hy_text_columns h).

Definition apply_score_fn (f : option (f32bits → RecordBatch → f32bits)) (distance : f32bits) (row_id : Z)
    (b : RecordBatch) : f32bits :=
  match f with
  | None => distance
  | Some f => if decide (row_id < num_rows b) then f distance (batch_slice b row_id 1) else distance
  end.

Definition dv_hides (dv : option Bitmap) (row_id : Z) : bool :=
  match dv with Some bm => rb_contains bm (wrap 32 row_id) | None => false end.

(** The three checks a row passes; [None] where the second panics, on a row that the
    batch has not. *)
Definition row_kept (dv : option Bitmap) (deletes : EqualityDeleteFilter) (batch : option RecordBatch)
    (seq : Z) (matching : option (gset Z)) (row_id : Z) : option bool :=
  if dv_hides dv row_id then Some false
  else
    deleted ← match batch with Some b => should_delete_row deletes b row_id seq | None => Some false end;
    Some (negb deleted && match matching with Some ids => bool_decide (row_id ∈ ids) | None => true end).

(** The scored rows that pass, in order. *)
Fixpoint rows_kept (keep : Z → option bool) (rows : list (Z * f32bits)) : option (list (Z * f32bits)) :=
  match rows with
  | [] => Some []
  | row :: rows => k ← keep row.1; kept ← rows_kept keep rows; Some (if k : bool then row :: kept else kept)
  end.

(** The loop over scored rows: a candidate for fusion, or a result. *)
Definition add_row (path : string) (config : SearchConfig) (batch : option RecordBatch)
    (outcome : FileSearchOutcome) (row : Z * f32bits) : FileSearchOutcome :=
  let '(row_id, distance) := row in
  match hybrid config with
  | Some h =>
      let text := match batch with Some b => extract_text_for_row b row_id h | None => "" end in
      mk_outcome (fo_results outcome) (fo_candidates outcome ++ [(row_id, distance, path, text)])
        (fo_flat_scan outcome) (fo_flat_scan_rows outcome)
  | None =>
      let final_score := match batch with
                         | Some b => apply_score_fn (score_fn config) distance row_id b
                         | None => distance
                         end in
      mk_outcome (fo_results outcome ++ [mk_result row_id final_score path]) (fo_candidates outcome)
        (fo_flat_scan outcome) (fo_flat_scan_rows outcome)
  end.

Definition fast_path_eligible (config : SearchConfig) (deletes : EqualityDeleteFilter)
    (entry : DataFileEntry) (meta : TableMetadata) (vector_column : string) : bool :=
  is_none (column_filter config) && is_none (rerank_factor config) && is_none (score_fn config) &&
  is_none (hybrid config) && bool_decide (deletes = []) &&
  (match df_index_status entry with Ready => true | _ => false end) &&
  negb (is_foreign entry) &&
  String.eqb vector_column (primary_column meta).

(** The file's rows with the table's columns. *)
Definition read_filled (reader : AilakeFileReader) (dim : Z) (meta : TableMetadata)
    : AilakeResult (RecordBatch * list vec32) :=
  '(raw_batch, raw_vectors) ← read_parquet reader dim;
  batch ← fill raw_batch (tm_schema_fields meta);
  Ok (batch, raw_vectors).

(** No index to use: an exact scan. *)
Definition scan_file (entry : DataFileEntry) (query : vec32) (candidate_k : Z) (metric : VectorMetric)
    (meta : TableMetadata) (config : SearchConfig) (deletes : EqualityDeleteFilter) (dv : option Bitmap)
    (matching : option (gset Z)) (reader : AilakeFileReader) (dim : Z) : outcome AilakeError FileSearchOutcome :=
  let kind := match df_index_status entry with Indexing => Deferred | Failed | Ready => Unexpected end in
  '(batch, raw_vectors) ← Ret (read_filled reader dim meta);
  flat_results ← or_panic (flat_search split raw_vectors query (Z.to_nat candidate_k) metric);
  kept ← or_panic (rows_kept (row_kept dv deletes (Some batch) (df_sequence_number entry) matching) flat_results);
  Ret (Ok (foldl (add_row (df_path entry) config (Some batch))
             (mk_outcome [] [] (Some kind) (Zlen raw_vectors)) kept)).

(** The distance of an index hit: recomputed when reranking. *)
Definition hit_distance (config : SearchConfig) (metric : VectorMetric) (query : vec32)
    (parquet_data : option (RecordBatch * list vec32)) (hit : Z * f32bits) : option f32bits :=
  match rerank_factor config with
  | None => Some hit.2
  | Some _ =>
      match '(_, vecs) ← parquet_data; vecs !! Z.to_nat hit.1 with
      | Some v => exact_distance metric query v
      | None => Some F32_INFINITY
      end
  end.

Definition search_index (entry : DataFileEntry) (query : vec32) (candidate_k : Z) (metric : VectorMetric)
    (meta : TableMetadata) (config : SearchConfig) (vector_column : string)
    (deletes : EqualityDeleteFilter) (dv : option Bitmap) (matching : option (gset Z))
    (reader : AilakeFileReader) (dim : Z) : outcome AilakeError FileSearchOutcome :=
  index ← load_any_index_for_column reader vector_column;
  let local_results := index_search index query candidate_k (ef_search config) in
  let need_parquet := negb (is_none (rerank_factor config)) || negb (is_none (score_fn config)) ||
                      negb (is_none (hybrid config)) || negb (bool_decide (deletes = [])) in
  parquet_data ← (if need_parquet then '(b, vs) ← Ret (read_filled reader dim meta); Ret (Ok (Some (b, vs)))
                  else Ret (Ok None));
  let batch := fst <$> parquet_data in
  kept ← or_panic (rows_kept (row_kept dv deletes batch (df_sequence_number entry) matching) local_results);
  rows ← or_panic (mapM (λ hit, (λ d, (hit.1, d)) <$> hit_distance config metric query parquet_data hit) kept);
  Ret (Ok (foldl (add_row (df_path entry) config batch) outcome_default rows)).

Definition search_one_file (entry : DataFileEntry) (query : vec32) (candidate_k : Z)
    (metric : VectorMetric) (meta : TableMetadata) (config : SearchConfig) (vector_column : string)
    (dim : Z) (deletes : EqualityDeleteFilter) : IO S FileSearchOutcome :=
  dv ← load_dv (strict_deletes config) entry;
  fast ← (if fast_path_eligible config deletes entry meta vector_column
          then r ← io_catch (load_primary_index (df_path entry));
               mret (match r with Ok index => Some index | Err _ => None end)
          else mret None);
  match fast with
  | Some index =>
      let kept := filter (λ row, dv_hides dv row.1 = false)
                    (index_search index query candidate_k (ef_search config)) in
      mret (mk_outcome ((λ row, mk_result row.1 row.2 (df_path entry)) <$> kept) [] None 0)
  | None =>
      file_bytes ← get_ (df_path entry);
      let reader := mk_reader file_bytes vector_column in
      matching ← (match column_filter config with
                  | Some f => ids ← io_result (matching_row_ids reader f); mret (Some ids)
                  | None => mret None
                  end);
      if bool_decide (matching = Some ∅) then mret outcome_default
      else if (match df_index_status entry with Indexing => true | _ => false end) || negb (is_ailake_file reader) then
        io_outcome (scan_file entry query candidate_k metric meta config deletes dv matching reader dim)
      else
        io_outcome (search_index entry query candidate_k metric meta config vector_column deletes dv
                      matching reader dim)
  end.

End OneFile.

(* ------------------------------------------------------------------ *)
(** ** Fusion                                                          *)
(* ------------------------------------------------------------------ *)

(** Positions by descending score: [ranks !! i] is the rank of candidate [i]. *)
Definition rank_of (scores : list f32bits) : list Z :=
  let indexed := sort_by (λ a b : Z * f32bits, total_cmp b.2 a.2) (zip (seqZ 0 (Zlen scores)) scores) in
  foldl (λ ranks '(rank, idx), <[Z.to_nat idx := rank]> ranks)
    (replicate (length scores) 0) (zip (seqZ 0 (Zlen scores)) (fst <$> indexed)).

Section Fusion.
Context `{Bm25Lib} `{TextLib}.

Definition hybrid_fuse (h : HybridConfig) (stats : IdfStats)
    (raw_candidates : list (Z * f32bits * string * string)) : list SearchResult :=
  let query_terms := tokenize (hy_query_text h) in
  let with_bm25 := (λ c : Z * f32bits * string * string, (c, score_tokens stats query_terms c.2)) <$> raw_candidates in
  let with_bm25 := sort_by (λ a b, total_cmp a.1.1.1.2 b.1.1.1.2) with_bm25 in
  let dists := (λ c : (Z * f32bits * string * string) * f32bits, c.1.1.1.2) <$> with_bm25 in
  let bm25s := snd <$> with_bm25 in
  let bm25_rank_of := rank_of bm25s in
  let fused :=
    match hy_fusion h with
    | Rrf => zip_with (λ vr br, rrf_score vr br (hy_bm25_weight h)) (seqZ 0 (Zlen with_bm25)) bm25_rank_of
    | Linear =>
        let min_d := foldl f32_min F32_INFINITY dists in
        let max_d := foldl f32_max F32_NEG_INFINITY dists in
        let min_b := foldl f32_min F32_INFINITY bm25s in
        let max_b := foldl f32_max F32_NEG_INFINITY bm25s in
        zip_with (λ d b, linear_score d min_d max_d b min_b max_b (hy_bm25_weight h)) dists bm25s
    end in
  zip_with (λ c d, mk_result c.1.1.1.1 d c.1.1.2) with_bm25 fused.

End Fusion.

(* ------------------------------------------------------------------ *)
(** ** Vector search                                                   *)
(* ------------------------------------------------------------------ *)

Section Search.
Context {S : Type} `{Store S} `{!CatalogProvider S} `{RoaringLib} `{AvroLib} `{AvroWriterLib} `{FloatText}.
Context `{JsonLib} `{BincodeLib} `{Bm25Lib} `{TextLib} `{SerdeLib}.
Context {PL : ParquetLib} {IL : IndexLib} {AL : ArrowLib} {QL : QueryLib} `{UnstableSort} `{Kernels}.
Context (split : Split).

Definition candidate_pool_size (config : SearchConfig) : Z :=
  match hybrid config, rerank_factor config with
  | Some h, rf =>
      Z.max (default (wrap 64 (top_k config * 10)) (hy_candidate_pool h))
            (match rf with Some f => wrap 64 (f * top_k config) | None => top_k config end)
  | None, Some factor => wrap 64 (top_k config * factor)
  | None, None => top_k config
  end.

(** The files a query has to look at. *)
Definition surviving (config : SearchConfig) (meta : TableMetadata) (query : vec32)
    (metric : VectorMetric) (all_files : list DataFileEntry) : IO S (list DataFileEntry) :=
  let files := prune (in_partition (partition_filter config) all_files) query metric
                 (pruning_threshold config) in
  match hybrid config with
  | Some h =>
      bloom_map ← load_bloom_map meta;
      if bool_decide (bloom_map = ∅) then mret files
      else io_outcome (or_panic (bloom_prune files (hy_query_text h) bloom_map))
  | None => mret files
  end.

Definition saturate64 (a b : Z) : Z := saturating_add 64 a b.

(** Without fusion the losers are dropped after every file. *)
Definition aggregate (k : nat) (use_hybrid : bool) (acc : FlatScanStats * list SearchResult *
    list (Z * f32bits * string * string)) (outcome : FileSearchOutcome)
    : FlatScanStats * list SearchResult * list (Z * f32bits * string * string) :=
  let '(stats, results, candidates) := acc in
  let stats := mk_scan_stats
    (deferred_files stats + match fo_flat_scan outcome with Some Deferred => 1 | _ => 0 end)
    (unexpected_files stats + match fo_flat_scan outcome with Some Unexpected => 1 | _ => 0 end)
    (saturate64 (scanned_rows stats) (fo_flat_scan_rows outcome)) in
  let results := results ++ fo_results outcome in
  (stats, if use_hybrid then results else select_search_top_k results k, candidates ++ fo_candidates outcome).

Definition search_inner (query : vec32) (config : SearchConfig) (vector_column : string) (dim : Z)
    (table_meta : option TableMetadata) : IO S (FlatScanStats * list SearchResult) :=
  if MAX_TOP_K <? top_k config then io_err InvalidArgument
  else
    all_files ← cp_list_files None;
    meta ← (match table_meta with Some meta => mret meta | None => cp_load_table end);
    io_result (check_query_dim meta vector_column query);;
    let metric := query_metric meta vector_column in
    files ← surviving config meta query metric all_files;
    deletes ← load_delete_filter (strict_deletes config);
    let candidate_k := candidate_pool_size config in
    let k := Z.to_nat (top_k config) in
    bm25_stats ← (match hybrid config with
                  | Some h =>
                      match hy_text_columns h with
                      | [] => mret idf_default
                      | _ => load_bm25_stats
                               (default BM25_STATS_FILE (tm_properties meta !! BM25_STATS_PATH_PROP))
                      end
                  | None => mret idf_default
                  end);
    outcomes ← io_map (λ entry,
      search_one_file split entry query candidate_k metric meta config vector_column dim deletes) files;
    let '(stats, all_results, raw_candidates) :=
      foldl (aggregate k (negb (is_none (hybrid config)))) (mk_scan_stats 0 0 0, [], []) outcomes in
    let all_results := match hybrid config with
                       | Some h => all_results ++ hybrid_fuse h bm25_stats raw_candidates
                       | None => all_results
                       end in
    mret (stats, select_search_top_k all_results k).

Definition search (query : vec32) (config : SearchConfig) (vector_column : string) (dim : Z)
    : IO S (FlatScanStats * list SearchResult) :=
  search_inner query config vector_column dim None.

Definition search_with_table_metadata (query : vec32) (config : SearchConfig) (vector_column : string)
    (dim : Z) (table_meta : TableMetadata) : IO S (FlatScanStats * list SearchResult) :=
  search_inner query config vector_column dim (Some table_meta).

(* ------------------------------------------------------------------ *)
(** ** Text search                                                     *)
(* ------------------------------------------------------------------ *)

(** Hits of the full-text index of a file: only the row bound and the equality deletes
    are checked, in this order, so that no row is outside the batch. *)
Definition text_hits (entry : DataFileEntry) (batch : RecordBatch) (deletes : EqualityDeleteFilter)
    (hits : list (Z * f32bits)) : list SearchResult :=
  (λ hit, mk_result hit.1 (f32_neg hit.2) (df_path entry)) <$>
  filter (λ hit, hit.1 < num_rows batch ∧
                 deleted_by_value deletes batch hit.1 (df_sequence_number entry) = false) hits.

(** Every row of a file scored. *)
Definition text_scan (entry : DataFileEntry) (batch : RecordBatch) (deletes : EqualityDeleteFilter)
    (stats : IdfStats) (query_text : string) (text_columns : list string) : list SearchResult :=
  omap (λ row,
    if deleted_by_value deletes batch row (df_sequence_number entry) then None
    else
      let doc_text := row_text batch row text_columns in
      if String.eqb doc_text "" then None
      else
        let bm25 := score stats query_text doc_text in
        if f32_gt bm25 F32_ZERO then Some (mk_result row (f32_neg bm25) (df_path entry)) else None)
    (seqZ 0 (num_rows batch)).

Definition text_one_file (query_text : string) (text_columns : list string) (k : Z)
    (meta : TableMetadata) (stats : IdfStats) (deletes : EqualityDeleteFilter) (entry : DataFileEntry)
    : IO S (list SearchResult) :=
  file_bytes ← get_ (df_path entry);
  let reader := mk_reader file_bytes "" in
  blob ← io_catch (io_outcome (load_fts_blob reader));
  match blob with
  | Ok (Some fts_blob) =>
      match fts_from_blob fts_blob with
      | Ok fts =>
          let hits := match fts_search fts query_text (wrap 64 (k * 3)) with Ok h => h | Err _ => [] end in
          match hits with
          | [] => mret []
          | _ =>
              '(batch, _) ← io_result (read_filled reader 0 meta);
              mret (text_hits entry batch deletes hits)
          end
      | Err _ =>
          '(batch, _) ← io_result (read_filled reader 0 meta);
          mret (text_scan entry batch deletes stats query_text text_columns)
      end
  | _ =>
      '(batch, _) ← io_result (read_filled reader 0 meta);
      mret (text_scan entry batch deletes stats query_text text_columns)
  end.

Definition search_text_with_options (query_text : string) (text_columns : list string) (k : Z)
    (partition : option string) (strict : bool) : IO S (list SearchResult) :=
  match text_columns with
  | [] => io_err InvalidArgument
  | _ =>
      if MAX_TOP_K <? k then io_err InvalidArgument
      else
        all_files ← cp_list_files None;
        meta ← cp_load_table;
        let files := in_partition partition all_files in
        stats ← load_bm25_stats (default BM25_STATS_FILE (tm_properties meta !! BM25_STATS_PATH_PROP));
        deletes ← load_delete_filter strict;
        results ← io_map (text_one_file query_text text_columns k meta stats deletes) files;
        mret (take (Z.to_nat k) (sort_by result_compare (mjoin results)))
  end.

Definition search_text (query_text : string) (text_columns : list string) (k : Z)
    (partition : option string) : IO S (list SearchResult) :=
  search_text_with_options query_text text_columns k partition true.

(* ------------------------------------------------------------------ *)
(** ** Several vector columns                                          *)
(* ------------------------------------------------------------------ *)

Record ModalQuery : Type := mk_modal {
  mq_column : string;
  mq_query : vec32;
  mq_weight : f32bits;
  mq_dim : Z;
}.

Definition resolved_dim (meta : TableMetadata) (mq : ModalQuery) : Z :=
  if 0 <? mq_dim mq then mq_dim mq
  else if String.eqb (mq_column mq) (default "" (tm_properties meta !! "ailake.vector-column")) then
    default 0 (tm_properties meta !! "ailake.vector-dim" ≫= parse_u32)
  else default (wrap 32 (Zlen (mq_query mq)))
         (tm_properties meta !! ("ailake.dim-" +:+ mq_column mq) ≫= parse_u32).

Definition column_config (config : SearchConfig) (k : Z) : SearchConfig :=
  mk_config k (ef_search config) (pruning_threshold config) (rerank_factor config) None None
    (partition_filter config) (column_filter config) (strict_deletes config).

(** Reciprocal ranks, summed per row. *)
Definition rrf_scores (per_col : list (f32bits * list SearchResult)) : gmap (string * Z) f32bits :=
  foldl (λ scores '(weight, results),
    foldl (λ scores '(rank, r),
      let key := (sr_file_path r, sr_row_id r) in
      let rrf := f32_div weight (f32_add (f32_add RRF_K (f32_of_int rank)) F32_ONE) in
      <[key := f32_add (default F32_ZERO (scores !! key)) rrf]> scores)
      scores (zip (seqZ 0 (Zlen results)) results)) ∅ per_col.

(** Rows that tie come in the order of a hash map: any order. *)
Definition search_multimodal (queries : list ModalQuery) (config : SearchConfig) : IO S (list SearchResult) :=
  match queries with
  | [] => io_err InvalidArgument
  | _ =>
      if MAX_TOP_K <? top_k config then io_err InvalidArgument
      else
        meta ← cp_load_table;
        let per_col_k := Z.min (top_k config * Z.max (Zlen queries) 2) 1000 in
        per_col ← io_map (λ mq,
          '(_, results) ← search (mq_query mq) (column_config config per_col_k) (mq_column mq) (resolved_dim meta mq);
          mret (mq_weight mq, results)) queries;
        cp_list_files None;;
        let fused := (λ '((file_path, row_id), rrf), mk_result row_id (f32_neg rrf) file_path) <$>
                       map_to_list (rrf_scores per_col) in
        mret (take (Z.to_nat (top_k config))
                (sort_unstable_by (λ a b, default Eq (partial_cmp (sr_distance a) (sr_distance b))) fused))
  end.

End Search.

(* ------------------------------------------------------------------ *)
(** ** Sessions                                                        *)
(* ------------------------------------------------------------------ *)

Definition ensure_search_session_snapshot_is_delete_free (files : list DataFileEntry)
    (equality_deletes : list EqualityDeleteFile) : AilakeResult unit :=
  if existsb (λ f, negb (is_none (df_deletion_vector f))) files then Err InvalidArgument
  else match equality_deletes with [] => Ok tt | _ => Err InvalidArgument end.

Section Session.
Context {S : Type} `{Store S} `{!CatalogProvider S} `{SerdeLib}.
Context {PL : ParquetLib} {IL : IndexLib} {QL : QueryLib} `{UnstableSort} `{Kernels}.
Context (split : Split).

Record LoadedShard : Type := mk_shard {
  ls_entry : DataFileEntry;
  ls_index : option AnyIndex;
  ls_raw_vectors : option (list vec32);
}.

Record SearchSession : Type := mk_session {
  ss_shards : list LoadedShard;
  ss_metric : VectorMetric;
}.

(** One file of the session; a file with neither an index nor a pending one is left
    out. *)
Definition load_shard (vector_column : string) (dim : Z) (load_raw : bool) (entry : DataFileEntry)
    : IO S (list LoadedShard) :=
  file_bytes ← get_ (df_path entry);
  let reader := mk_reader file_bytes vector_column in
  if (match df_index_status entry with Indexing => true | _ => false end) then
    '(_, raw) ← io_result (read_parquet reader dim);
    mret [mk_shard entry None (Some raw)]
  else if is_ailake_file reader then
    index ← io_outcome (load_any_index_for_column reader vector_column);
    if load_raw then
      '(_, vecs) ← io_result (read_parquet reader dim);
      mret [mk_shard entry (Some (any_quantize_to_f16 index)) (Some vecs)]
    else mret [mk_shard entry (Some index) None]
  else mret [].

Definition session_load (vector_column : string) (dim : Z) (load_raw : bool) : IO S SearchSession :=
  all_files ← cp_list_files None;
  equality_deletes ← cp_list_equality_deletes None;
  io_result (ensure_search_session_snapshot_is_delete_free all_files equality_deletes);;
  meta ← cp_load_table;
  let metric := parse_metric (default "cosine" (tm_properties meta !! "ailake.vector-metric")) in
  shards ← io_map (load_shard vector_column dim load_raw) all_files;
  mret (mk_session (mjoin shards) metric).

Definition session_candidate_k (config : SearchConfig) : Z :=
  match rerank_factor config with
  | Some factor => wrap 64 (top_k config * factor)
  | None => top_k config
  end.

(** The hits of one shard; [None] is a panic. *)
Definition shard_hits (metric : VectorMetric) (query : vec32) (config : SearchConfig) (shard : LoadedShard)
    : option (list (Z * f32bits)) :=
  let candidate_k := session_candidate_k config in
  match ls_index shard, ls_raw_vectors shard with
  | Some index, raw =>
      let local_results := index_search index query candidate_k (ef_search config) in
      match rerank_factor config, raw with
      | Some _, Some raw =>
          mapM (λ hit : Z * f32bits,
            d ← match raw !! Z.to_nat hit.1 with
                | Some v => exact_distance metric query v
                | None => Some F32_INFINITY
                end;
            Some (hit.1, d)) local_results
      | _, _ => Some local_results
      end
  | None, Some raw => flat_search split raw query (Z.to_nat candidate_k) metric
  | None, None => Some []
  end.

(** The geometric test of a shard. *)
Definition shard_pruned (metric : VectorMetric) (query : vec32) (config : SearchConfig) (shard : LoadedShard)
    : option bool :=
  match decode_centroid (ls_entry shard) metric with
  | Some centroid =>
      dist ← compute_distance query (centroid_values centroid) metric;
      Some (f32_gt (f32_sub dist (centroid_radius centroid)) (pruning_threshold config))
  | None => Some false
  end.

Definition shard_results (metric : VectorMetric) (query : vec32) (config : SearchConfig) (shard : LoadedShard)
    : option (list SearchResult) :=
  match shard_pruned metric query config shard with
  | None => None
  | Some true => Some []
  | Some false =>
      match shard_hits metric query config shard with
      | None => None
      | Some hits => Some ((λ hit, mk_result hit.1 hit.2 (df_path (ls_entry shard))) <$> hits)
      end
  end.

Definition search_query (session : SearchSession) (query : vec32) (config : SearchConfig)
    : option (list SearchResult) :=
  match mapM (shard_results (ss_metric session) query config) (ss_shards session) with
  | None => None
  | Some parts =>
      Some (take (Z.to_nat (top_k config))
              (sort_by (λ a b, default Eq (partial_cmp (sr_distance a) (sr_distance b))) (mjoin parts)))
  end.

End Session.
