(* ===== verification/Cdc.v ===== *)
(** * Change data capture

    Models [ailake-query/src/cdc.rs]: the rows that changed between two snapshots,
    with the optional pairing of deletes and inserts into updates, and the batch they
    are returned in.  The order in which a hash map yields its keys is an argument. *)

From S2P Require Import Prelude Core FileFormat Store Effects Json Manifest Catalog ArrowSchema Arrow Arrays.
From S2P Require Import Deletes Search.

(** What the reader uses of Roaring bitmaps beyond [RoaringLib]. *)
Class BitmapOps `{RoaringLib} : Type := {
  rb_eqb : Bitmap → Bitmap → bool;
  rb_sub : Bitmap → Bitmap → Bitmap;
  rb_iter : Bitmap → list Z;
}.

Module ChangeType.
Inductive t : Type := Insert | UpdateBefore | UpdateAfter | Delete.
#[global] Instance eq_dec : EqDecision t.
Proof. solve_decision. Defined.
Definition as_str (c : t) : string :=
  match c with
  | Insert => "insert"
  | UpdateBefore => "update_before"
  | UpdateAfter => "update_after"
  | Delete => "delete"
  end.
End ChangeType.

(** A batch of one row with its envelope. *)
Record ChangeRecord {PL : ParquetLib} : Type := mk_change {
  cr_row : RecordBatch;
  cr_change_type : ChangeType.t;
  cr_snapshot_id : Z;
  cr_sequence_number : Z;
  cr_timestamp_ms : Z;
}.
Arguments mk_change {PL} _ _ _ _ _.

Record ChangeReaderConfig : Type := mk_reader_config {
  rc_start_snapshot_id : option Z;
  rc_end_snapshot_id : option Z;
  rc_pk_columns : list string;
  rc_coalesce_updates : bool;
  rc_strict_deletes : bool;
}.

(* ------------------------------------------------------------------ *)
(** ** Snapshots                                                       *)
(* ------------------------------------------------------------------ *)

Definition find_snapshot (meta : IcebergMetadata) (id : Z) : AilakeResult IcebergSnapshot :=
  ok_or (List.find (λ s, sn_snapshot_id s =? id) (im_snapshots meta)) CatalogError.

Definition resolve_snapshots (meta : IcebergMetadata) (start end_ : option Z) : AilakeResult (Z * Z) :=
  end_id ← match end_ with
           | Some id => Ok id
           | None => ok_or (im_current_snapshot_id meta) CatalogError
           end;
  start_id ← match start with
             | Some id => Ok id
             | None =>
                 end_snap ← find_snapshot meta end_id;
                 ok_or (sn_parent_snapshot_id end_snap) CatalogError
             end;
  Ok (start_id, end_id).

(* ------------------------------------------------------------------ *)
(** ** Rows of batches                                                 *)
(* ------------------------------------------------------------------ *)

(** [iter.map(f).collect::<Result<Vec<_>, _>>()], where [f] may panic. *)
Fixpoint outcome_map {A B} (f : A → outcome AilakeError B) (xs : list A) : outcome AilakeError (list B) :=
  match xs with
  | [] => Ret (Ok [])
  | x :: xs => y ← f x; ys ← outcome_map f xs; Ret (Ok (y :: ys))
  end.

(** [sort_unstable(); dedup()] on integers. *)
Fixpoint dedup (l : list Z) : list Z :=
  match l with
  | x :: (y :: _) as l => if x =? y then dedup l else x :: dedup l
  | _ => l
  end.
Definition sort_dedup (l : list Z) : list Z := dedup (merge_sort Z.le l).

Section Batches.
Context {PL : ParquetLib} {AL : ArrowLib} {RL : ArrayLib} `{BitmapOps}.

Definition num_columns (b : RecordBatch) : nat := length (schema_of b).
Definition columns (b : RecordBatch) : list ArrayRef := column b <$> seq 0 (num_columns b).
(** [schema.index_of(name)]. *)
Definition field_index (fs : list ArrowField) (name : string) : option nat :=
  fst <$> list_find (λ f, af_name f = name) fs.

Definition take_rows (b : RecordBatch) (indices : list Z) : outcome AilakeError RecordBatch :=
  match indices with
  | [] => Ret (Ok (batch_new_empty (schema_of b)))
  | _ =>
      cols ← outcome_map (λ col, take_array col indices) (columns b);
      Ret (batch_new (schema_of b) cols)
  end.

Definition apply_dv (b : RecordBatch) (dv : option Bitmap) : outcome AilakeError RecordBatch :=
  match dv with
  | None => Ret (Ok b)
  | Some dv =>
      if rb_is_empty dv then Ret (Ok b)
      else take_rows b (filter (λ i, rb_contains dv i = false) (seqZ 0 (wrap 32 (num_rows b))))
  end.

Definition split_row (b : RecordBatch) (i : Z) : outcome AilakeError RecordBatch :=
  cols ← outcome_map (λ col, take_array col [wrap 32 i]) (columns b);
  Ret (batch_new (schema_of b) cols).
Definition split_batch (b : RecordBatch) : outcome AilakeError (list RecordBatch) :=
  outcome_map (split_row b) (seqZ 0 (num_rows b)).

Definition dv_bitmap (dv : option Bitmap) : Bitmap := default rb_new dv.
Definition diff_dv (start end_ : option Bitmap) : list Z := rb_iter (rb_sub (dv_bitmap end_) (dv_bitmap start)).

(** [array_value_to_string]: the types without a case print the whole array. *)
Definition array_value_to_string (a : ArrayRef) (row : Z) : string :=
  if array_is_null a row then "NULL"
  else match array_type a with
       | ArrowTy.Utf8 | ArrowTy.LargeUtf8 | ArrowTy.Int32 | ArrowTy.Int64
       | ArrowTy.Float32 | ArrowTy.Float64 | ArrowTy.Boolean => array_text a row
       | _ => array_debug a
       end.

Definition append_vector_column (b : RecordBatch) (vectors : list vec32) (vector_column : string) (dim : Z)
    : outcome AilakeError RecordBatch :=
  let flat := mjoin vectors in
  vec_col ← fixed_size_list ArrowTy.Float32 false (as_i32 dim) (f32_array flat);
  let field := mk_afield vector_column
    (ArrowTy.ListOf (ArrowTy.FixedList (as_i32 dim)) ArrowTy.Float32 false) true in
  Ret (match batch_new (schema_of b ++ [field]) (columns b ++ [vec_col]) with
       | Ok b => Ok b
       | Err _ => Err ArrowError
       end).

(** The rows one predicate [(column, value, delete_seq)] matches. *)
Definition predicate_rows (b : RecordBatch) (file_sequence_number : Z) (p : string * string * Z) : list Z :=
  let '(col, val, delete_seq) := p in
  if delete_seq <=? file_sequence_number then []
  else match field_index (schema_of b) col with
       | None => []
       | Some col_idx =>
           wrap 32 <$> filter (λ row, array_value_to_string (column b col_idx) row = val) (seqZ 0 (num_rows b))
       end.

Definition find_equality_deleted_rows (b : RecordBatch) (file_sequence_number : Z)
    (predicates : list (string * string * Z)) : list Z :=
  sort_dedup (predicates ≫= predicate_rows b file_sequence_number).

(* ------------------------------------------------------------------ *)
(** ** The batch of changes                                            *)
(* ------------------------------------------------------------------ *)

Definition nullable_field (f : ArrowField) : ArrowField := mk_afield (af_name f) (af_type f) true.

(** One field of one record: [seen] maps the names of [fields] to their positions. *)
Definition union_field (fields : list ArrowField) (f : ArrowField) : list ArrowField :=
  match field_index fields (af_name f) with
  | Some idx =>
      match fields !! idx with
      | Some g => if af_nullable f && negb (af_nullable g) then <[idx := nullable_field f]> fields else fields
      | None => fields
      end
  | None => fields ++ [f]
  end.

(** The fields a record does not have become nullable. *)
Definition mark_missing (fields : list ArrowField) (rec : ChangeRecord) : list ArrowField :=
  (λ f, if has_field (schema_of (cr_row rec)) (af_name f) then f else nullable_field f) <$> fields.

Definition union_schema (records : list ChangeRecord) : list ArrowField :=
  foldl mark_missing (foldl (λ fields rec, foldl union_field fields (schema_of (cr_row rec))) [] records) records.

Fixpoint null_array_for (data_type : ArrowTy.t) (n : Z) : outcome AilakeError ArrayRef :=
  match data_type with
  | ArrowTy.Utf8 | ArrowTy.LargeUtf8 | ArrowTy.Int32 | ArrowTy.Int64 | ArrowTy.UInt32
  | ArrowTy.Float32 | ArrowTy.Float64 | ArrowTy.Boolean => Ret (Ok (typed_nulls data_type n))
  | ArrowTy.ListOf (ArrowTy.FixedList dim) item nullable =>
      values ← null_array_for item (n * dim);
      fixed_size_list item nullable dim values
  | ArrowTy.ListOf ArrowTy.VarList item nullable =>
      values ← null_array_for item 0; Ret (Ok (empty_lists ArrowTy.VarList item nullable n values))
  | ArrowTy.ListOf ArrowTy.LargeVarList item nullable =>
      values ← null_array_for item 0; Ret (Ok (empty_lists ArrowTy.LargeVarList item nullable n values))
  | _ => Ret (Ok (null_array n))
  end.

Definition with_row (rec : ChangeRecord) (row : RecordBatch) : ChangeRecord :=
  mk_change row (cr_change_type rec) (cr_snapshot_id rec) (cr_sequence_number rec) (cr_timestamp_ms rec).

Definition normalize_to_schema (schema : list ArrowField) (rec : ChangeRecord) : outcome AilakeError ChangeRecord :=
  let row := cr_row rec in
  if schema_eq row schema then Ret (Ok rec)
  else
    cols ← outcome_map (λ field,
      match field_index (schema_of row) (af_name field) with
      | Some idx => Ret (Ok (column row idx))
      | None => null_array_for (af_type field) (num_rows row)
      end) schema;
    batch ← Ret (match batch_new schema cols with Ok b => Ok b | Err _ => Err ArrowError end);
    Ret (Ok (with_row rec batch)).

Definition envelope_fields : list ArrowField :=
  [mk_afield "_change_type" ArrowTy.Utf8 false; mk_afield "_snapshot_id" ArrowTy.Int64 false;
   mk_afield "_sequence_number" ArrowTy.Int64 false; mk_afield "_commit_timestamp" ArrowTy.Int64 false].
Definition envelope_columns (records : list ChangeRecord) : list ArrayRef :=
  [string_array (ChangeType.as_str ∘ cr_change_type <$> records); int64_array (cr_snapshot_id <$> records);
   int64_array (cr_sequence_number <$> records); int64_array (cr_timestamp_ms <$> records)].

Definition build_change_batch (records : list ChangeRecord) : outcome AilakeError RecordBatch :=
  match records with
  | [] => Ret (Ok (batch_new_empty envelope_fields))
  | _ =>
      let base_schema := union_schema records in
      records ← outcome_map (normalize_to_schema base_schema) records;
      base_cols ← outcome_map (λ i,
        Ret (match concat_arrays ((λ rec, column (cr_row rec) i) <$> records) with
             | Ok a => Ok a
             | Err _ => Err ArrowError
             end)) (seq 0 (length base_schema));
      Ret (match batch_new (base_schema ++ envelope_fields) (base_cols ++ envelope_columns records) with
           | Ok b => Ok b
           | Err _ => Err ArrowError
           end)
  end.

(* ------------------------------------------------------------------ *)
(** ** Updates                                                         *)
(* ------------------------------------------------------------------ *)

(** The text of a key column of a single row. *)
Definition pk_part (b : RecordBatch) (col : string) : AilakeResult string :=
  idx ← ok_or (field_index (schema_of b) col) ArrowError;
  Ok (if array_is_null (column b idx) 0 then "NULL" else array_value_to_string (column b idx) 0).
Definition pk_key (b : RecordBatch) (pk_columns : list string) : AilakeResult string :=
  parts ← try_map (pk_part b) pk_columns; Ok (String.concat "|" parts).

(** The positions of the records of a type, by key. *)
Definition positions_by_pk (wanted : ChangeType.t) (keyed : list (string * ChangeRecord)) : gmap string (list nat) :=
  foldl (λ m '(i, (key, rec)),
    if decide (cr_change_type rec = wanted) then <[key := default [] (m !! key) ++ [i]]> m else m)
    ∅ (zip (seq 0 (length keyed)) keyed).

(** Each DELETE with the first unpaired matching INSERT: the [used] positions and the
    pairs found so far. *)
Definition pair_delete (inserts : list nat) (acc : gset nat * list (nat * nat)) (del_i : nat)
    : gset nat * list (nat * nat) :=
  let '(used, pairs) := acc in
  if decide (del_i ∈ used) then acc
  else match List.find (λ ins_i, bool_decide (ins_i ∉ used)) inserts with
       | Some ins_i => ({[del_i; ins_i]} ∪ used, pairs ++ [(del_i, ins_i)])
       | None => acc
       end.
Definition pair_up (keys : list string) (deletes inserts : gmap string (list nat)) : gset nat * list (nat * nat) :=
  foldl (λ acc key, foldl (pair_delete (default [] (inserts !! key))) acc (default [] (deletes !! key))) (∅, []) keys.

Definition with_type (rec : ChangeRecord) (c : ChangeType.t) : ChangeRecord :=
  mk_change (cr_row rec) c (cr_snapshot_id rec) (cr_sequence_number rec) (cr_timestamp_ms rec).

(** The output loop from position [i]; [pairs] are those from [pair_idx] on. *)
Fixpoint expand_pairs (records : list ChangeRecord) (used : gset nat) (i : nat) (rest : list ChangeRecord)
    (pairs : list (nat * nat)) : outcome AilakeError (list ChangeRecord) :=
  match rest with
  | [] => Ret (Ok [])
  | rec :: rest =>
      if decide (i ∈ used) then
        match pairs with
        | (del_i, ins_i) :: pairs' =>
            if decide (del_i = i) then
              delete_rec ← or_panic (records !! i);
              insert_rec ← or_panic (records !! ins_i);
              out ← expand_pairs records used (S i) rest pairs';
              Ret (Ok (with_type delete_rec ChangeType.UpdateBefore ::
                       with_type insert_rec ChangeType.UpdateAfter :: out))
            else expand_pairs records used (S i) rest pairs
        | [] => expand_pairs records used (S i) rest []
        end
      else
        out ← expand_pairs records used (S i) rest pairs;
        Ret (Ok (rec :: out))
  end.

(** [order] is the order in which the hash map of deletes yields its keys. *)
Definition coalesce_updates (order : list string → list string) (records : list ChangeRecord)
    (pk_columns : list string) : outcome AilakeError (list ChangeRecord) :=
  keys ← Ret (try_map (λ rec, pk_key (cr_row rec) pk_columns) records);
  let keyed := zip keys records in
  let deletes := positions_by_pk ChangeType.Delete keyed in
  let inserts := positions_by_pk ChangeType.Insert keyed in
  let '(used, pairs) := pair_up (order (map_to_list deletes).*1) deletes inserts in
  expand_pairs records used 0 records pairs.

End Batches.

(* ------------------------------------------------------------------ *)
(** ** The reader                                                      *)
(* ------------------------------------------------------------------ *)

Section Reader.
Context {S : Type} `{Store S} `{AvroLib} `{SerdeLib} `{JsonLib} `{RoaringLib} `{!BitmapOps} `{FloatText}.
Context {PL : ParquetLib} {IL : IndexLib} {AL : ArrowLib} {RL : ArrayLib} {QL : QueryLib}.

Definition load_dv (file : DataFileEntry) (strict_deletes : bool) : IO S (option Bitmap) :=
  match df_deletion_vector file with
  | Some dv =>
      r ← io_catch (load_deletion_vector dv);
      match r with
      | Ok bm => mret (Some bm)
      | Err e => if strict_deletes then io_err e else mret None
      end
  | None => mret None
  end.

Definition read_file_as_batch (file : DataFileEntry) (vector_column : string) (dim : Z)
    (schema_fields : list SchemaField) : IO S RecordBatch :=
  b ← get_ (df_path file);
  '(batch, vectors) ← io_result (read_parquet (mk_reader b vector_column) dim);
  batch ← io_result (fill batch schema_fields);
  if negb (Zlen vectors =? 0) && (0 <? dim) then
    io_outcome (append_vector_column batch vectors vector_column dim)
  else mret batch.

Definition cdc_delete_values (ed : EqualityDeleteFile) : IO S (list (string * string)) :=
  match ed_inline_values ed with
  | Some (col, vals) => mret (pair col <$> vals)
  | None =>
      b ← get_ (ed_path ed);
      io_result (match read_equality_delete_values b with Ok ps => Ok ps | Err _ => Err CatalogError end)
  end.

Definition new_deletes (start_deletes end_deletes : list EqualityDeleteFile) : list EqualityDeleteFile :=
  filter (λ ed, ed_path ed ∉ ed_path <$> start_deletes) end_deletes.

Definition collect_equality_predicates (start_deletes end_deletes : list EqualityDeleteFile)
    : IO S (list (string * string * Z)) :=
  l ← io_map (λ ed,
    values ← cdc_delete_values ed;
    mret ((λ '(col, val), (col, val, ed_sequence_number ed)) <$> values)) (new_deletes start_deletes end_deletes);
  mret (mjoin l).

(** [files.iter().map(|f| (f.path, f)).collect::<HashMap<_, _>>()]. *)
Definition file_map (files : list DataFileEntry) : gmap string DataFileEntry :=
  foldl (λ m f, <[df_path f := f]> m) ∅ files.

Section Changes.
Context (end_snap : IcebergSnapshot) (vector_column : string) (dim : Z) (schema_fields : list SchemaField).
Context (strict : bool).

Definition change_of (c : ChangeType.t) (row : RecordBatch) : ChangeRecord :=
  mk_change row c (sn_snapshot_id end_snap) (sn_sequence_number end_snap) (sn_timestamp_ms end_snap).
Definition changes_of (c : ChangeType.t) (b : RecordBatch) : IO S (list ChangeRecord) :=
  rows ← io_outcome (split_batch b); mret (change_of c <$> rows).

Definition read_batch (file : DataFileEntry) : IO S RecordBatch :=
  read_file_as_batch file vector_column dim schema_fields.

(** A file only in the end snapshot. *)
Definition inserted_rows (start_map : gmap string DataFileEntry) (file : DataFileEntry) : IO S (list ChangeRecord) :=
  if decide (is_Some (start_map !! df_path file)) then mret []
  else
    dv ← load_dv file strict;
    batch ← read_batch file;
    batch ← io_outcome (apply_dv batch dv);
    changes_of ChangeType.Insert batch.

(** A file only in the start snapshot. *)
Definition removed_rows (end_map : gmap string DataFileEntry) (file : DataFileEntry) : IO S (list ChangeRecord) :=
  if decide (is_Some (end_map !! df_path file)) then mret []
  else
    batch ← read_batch file;
    changes_of ChangeType.Delete batch.

(** A file in both: newly deleted rows by position. *)
Definition dv_deleted_rows (start_map : gmap string DataFileEntry) (file : DataFileEntry) : IO S (list ChangeRecord) :=
  match start_map !! df_path file with
  | None => mret []
  | Some start_file =>
      start_dv ← load_dv start_file strict;
      end_dv ← load_dv file strict;
      if rb_eqb (dv_bitmap start_dv) (dv_bitmap end_dv) then mret []
      else
        batch ← read_batch file;
        deleted_batch ← io_outcome (take_rows batch (diff_dv start_dv end_dv));
        changes_of ChangeType.Delete deleted_batch
  end.

(** The rows of a file in both that are deleted by position or by value. *)
Definition all_deleted (dv_deleted eq_deleted : list Z) : list Z :=
  sort_dedup (dv_deleted ++ filter (λ i, i ∉ dv_deleted) eq_deleted).

Definition eq_deleted_rows (start_map : gmap string DataFileEntry) (predicates : list (string * string * Z))
    (file : DataFileEntry) : IO S (list ChangeRecord) :=
  match start_map !! df_path file with
  | None => mret []
  | Some start_file =>
      start_dv ← load_dv start_file strict;
      end_dv ← load_dv file strict;
      batch ← read_batch file;
      let eq_deleted := find_equality_deleted_rows batch (df_sequence_number file) predicates in
      deleted_batch ← io_outcome (take_rows batch (all_deleted (diff_dv start_dv end_dv) eq_deleted));
      changes_of ChangeType.Delete deleted_batch
  end.

(** The four passes. *)
Definition changes_between (start_files end_files : list DataFileEntry)
    (start_deletes end_deletes : list EqualityDeleteFile) : IO S (list ChangeRecord) :=
  let start_map := file_map start_files in
  let end_map := file_map end_files in
  inserted ← io_map (inserted_rows start_map) end_files;
  removed ← io_map (removed_rows end_map) start_files;
  by_position ← io_map (dv_deleted_rows start_map) end_files;
  predicates ← collect_equality_predicates start_deletes end_deletes;
  by_value ← match predicates with
             | [] => mret []
             | _ => io_map (eq_deleted_rows start_map predicates) end_files
             end;
  mret (mjoin inserted ++ mjoin removed ++ mjoin by_position ++ mjoin by_value).

End Changes.

(** [load_raw_metadata] is the catalog's. *)
Context (cp_load_raw_metadata : IO S IcebergMetadata).

Definition cdc_vector_column (meta : IcebergMetadata) : string :=
  default "embedding" (im_properties meta !! "ailake.vector-column").
Definition cdc_dim (meta : IcebergMetadata) : Z :=
  default 0 (s ← im_properties meta !! "ailake.vector-dim"; parse_u32 s).

Definition read_changes (order : list string → list string) (config : ChangeReaderConfig) : IO S RecordBatch :=
  meta ← cp_load_raw_metadata;
  '(start_id, end_id) ← io_result (resolve_snapshots meta (rc_start_snapshot_id config) (rc_end_snapshot_id config));
  _ ← io_result (find_snapshot meta start_id);
  end_snap ← io_result (find_snapshot meta end_id);
  let schema_fields := tm_schema_fields (to_table_metadata meta) in
  start_files ← list_files_from_metadata meta (Some start_id);
  end_files ← list_files_from_metadata meta (Some end_id);
  start_deletes ← list_equality_deletes_from_metadata meta (Some start_id);
  end_deletes ← list_equality_deletes_from_metadata meta (Some end_id);
  records ← changes_between end_snap (cdc_vector_column meta) (cdc_dim meta) schema_fields (rc_strict_deletes config)
              start_files end_files start_deletes end_deletes;
  records ← (if rc_coalesce_updates config && negb (bool_decide (rc_pk_columns config = [])) then
               io_outcome (coalesce_updates order records (rc_pk_columns config))
             else mret records);
  io_outcome (build_change_batch records).

End Reader.
