(* ===== verification/CatalogTheorems.v ===== *)
(** * What a commit does to a table

    Over any lawful store with reliable reads: what each listing returns, that a
    commit adds its snapshot and leaves the older ones readable, that a commit that
    fails leaves the table as it was, and how row ids and schema ids are given out. *)

From S2P Require Import Prelude Core Store Effects Avro Manifest ManifestTheorems Json Puffin FileFormat Catalog.

(* ------------------------------------------------------------------ *)
(** ** The objects of a table                                          *)
(* ------------------------------------------------------------------ *)

(** Every object the catalog writes under a table's root. *)
Inductive Obj : Type :=
| OManifest (id : Z)
| ODeletes (id : Z)
| OList (id : Z)
| OPuffin (id : Z)
| OPartStats (id : Z)
| OMeta (version : Z)
| OHint
| OLock.

#[global] Instance Obj_eq_dec : EqDecision Obj.
Proof. solve_decision. Defined.

Definition obj_path (root : string) (o : Obj) : string :=
  match o with
  | OManifest id => manifest_file_path root id
  | ODeletes id => del_manifest_path root id
  | OList id => manifest_list_path root id
  | OPuffin id => root +:+ "/metadata/stats-" +:+ to_string id +:+ ".puffin"
  | OPartStats id => root +:+ "/metadata/partition-stats-" +:+ to_string id +:+ ".parquet"
  | OMeta version => versioned_metadata_path root version
  | OHint => version_hint_path root
  | OLock => commit_lock_path root
  end.

(** The name of an object: a number between a prefix and a suffix. *)
Definition obj_prefix (o : Obj) : string :=
  match o with
  | OManifest id | ODeletes id => to_string id
  | OList id => "snap-" +:+ to_string id
  | OPuffin id => "stats-" +:+ to_string id
  | OPartStats id => "partition-stats-" +:+ to_string id
  | OMeta v => "v" +:+ to_string v
  | OHint => "version-hint"
  | OLock => ".ailake-commit"
  end.
Definition obj_suffix (o : Obj) : string :=
  match o with
  | OManifest _ => "-m0.avro" | ODeletes _ => "-eq-del.avro" | OList _ => "-1.avro"
  | OPuffin _ => ".puffin" | OPartStats _ => ".parquet" | OMeta _ => ".metadata.json"
  | OHint => ".text" | OLock => ".lock"
  end.

Lemma obj_path_parts root o : obj_path root o = root +:+ "/metadata/" +:+ obj_prefix o +:+ obj_suffix o.
Proof. by destruct o. Qed.

Lemma string_app_inj_l (p a b : string) : p +:+ a = p +:+ b → a = b.
Proof.
  intros E. apply as_bytes_inj. apply (f_equal as_bytes) in E. rewrite !as_bytes_app in E.
  by apply app_inv_head in E.
Qed.
Lemma string_app_inj_r (a b s : string) : a +:+ s = b +:+ s → a = b.
Proof.
  intros E. apply as_bytes_inj. apply (f_equal as_bytes) in E. rewrite !as_bytes_app in E.
  by apply app_inv_tail in E.
Qed.

(** Two names that end differently are different. *)
Definition endings_agree (s t : string) : bool :=
  let n := Nat.min (String.length s) (String.length t) in
  bool_decide (take n (rev (as_bytes s)) = take n (rev (as_bytes t))).

Lemma endings (a b s t : string) : a +:+ s = b +:+ t → endings_agree s t = true.
Proof.
  intros E. apply bool_decide_eq_true. apply (f_equal (λ x, rev (as_bytes x))) in E.
  rewrite !as_bytes_app, !rev_app_distr in E.
  apply (f_equal (take (Nat.min (String.length s) (String.length t)))) in E.
  rewrite !take_app_le in E by (rewrite length_rev, as_bytes_length; lia). done.
Qed.

Lemma obj_path_inj root o o' : obj_path root o = obj_path root o' → o = o'.
Proof.
  rewrite !obj_path_parts. intros E%string_app_inj_l%string_app_inj_l.
  pose proof (endings _ _ _ _ E) as Hend.
  destruct o, o'; cbn [obj_suffix] in Hend; try (exfalso; by vm_compute in Hend); try done;
    cbn [obj_prefix obj_suffix] in E; apply string_app_inj_r in E;
    try apply string_app_inj_l in E; f_equal; by apply (inj pretty).
Qed.

Lemma obj_ne root o o' : o ≠ o' → obj_path root o ≠ obj_path root o'.
Proof. intros Hne E. by apply obj_path_inj in E. Qed.

(** What a commit of snapshot [id] may write before it publishes the metadata. *)
Definition commit_objects (root : string) (id : Z) (p : string) : Prop :=
  ∃ o, o ∈ [OManifest id; ODeletes id; OList id; OPuffin id; OPartStats id] ∧ p = obj_path root o.

Definition agree_except (X : string → Prop) (m m' : gmap string bytes) : Prop :=
  ∀ p, ¬ X p → m' !! p = m !! p.

Lemma agree_refl X m : agree_except X m m.
Proof. done. Qed.

Lemma agree_insert X m m' p d : X p → agree_except X m m' → agree_except X m (<[p := d]> m').
Proof. intros HX Hag q Hq. rewrite lookup_insert_ne; [by apply Hag|]. by intros ->. Qed.

Lemma commit_object root id o :
  o ∈ [OManifest id; ODeletes id; OList id; OPuffin id; OPartStats id] →
  commit_objects root id (obj_path root o).
Proof. intros Ho. by exists o. Qed.

(** Objects of the table that the commit of [id] does not own. *)
Lemma not_commit_object root id o :
  o ∉ [OManifest id; ODeletes id; OList id; OPuffin id; OPartStats id] →
  ¬ commit_objects root id (obj_path root o).
Proof. intros Ho (o' & Ho' & E). apply obj_path_inj in E as <-. done. Qed.

(* ------------------------------------------------------------------ *)
(** ** Listings as functions of the contents                           *)
(* ------------------------------------------------------------------ *)

Section Listings.
Context `{AvroLib} `{SerdeLib}.
Implicit Types m : gmap string bytes.

Definition read_obj {A} (read : bytes → AilakeResult (list A)) m (p : string) : AilakeResult (list A) :=
  b ← ok_or (m !! p) StoreError;
  match read b with Ok es => Ok es | Err _ => Err CatalogError end.

Definition manifests_in m (meta : IcebergMetadata) (sid : option Z) : AilakeResult (list (string * Z)) :=
  match union sid (im_current_snapshot_id meta) with
  | None => Ok []
  | Some id =>
      match List.find (λ s, sn_snapshot_id s =? id) (im_snapshots meta) with
      | None => Err CatalogError
      | Some snap => read_obj read_manifest_list_typed m (sn_manifest_list snap)
      end
  end.

Definition entries_in {A} (wanted : Z → bool) (read : bytes → AilakeResult (list A)) m
    (ms : list (string * Z)) : AilakeResult (list A) :=
  match try_map (λ pc, if wanted pc.2 then read_obj read m pc.1 else Ok []) ms with
  | Ok ls => Ok (mjoin ls)
  | Err e => Err e
  end.

Definition files_in m meta sid : AilakeResult (list DataFileEntry) :=
  ms ← manifests_in m meta sid; entries_in (λ c, c =? 0) read_manifest_file m ms.
Definition deletes_in m meta sid : AilakeResult (list EqualityDeleteFile) :=
  ms ← manifests_in m meta sid; entries_in (λ c, c =? 1) read_equality_delete_manifest m ms.

Lemma entries_in_app {A} wanted (read : bytes → AilakeResult (list A)) m ms ms' es es' :
  entries_in wanted read m ms = Ok es → entries_in wanted read m ms' = Ok es' →
  entries_in wanted read m (ms ++ ms') = Ok (es ++ es').
Proof.
  unfold entries_in. revert es. induction ms as [|pc ms IH]; intros es; cbn [try_map app].
  - by intros [= <-].
  - destruct (if wanted pc.2 then _ else _) as [l|]; [|done].
    destruct (try_map _ ms) as [ls|] eqn:E; [|done]. cbn. intros [= <-] E'.
    specialize (IH (mjoin ls) eq_refl E'). destruct (try_map _ (ms ++ ms')); [|done].
    injection IH as IH. rewrite !mjoin_cons, IH. by rewrite app_assoc.
Qed.

(** Listings depend only on the objects they read. *)
Lemma entries_in_agree {A} wanted (read : bytes → AilakeResult (list A)) m m' ms :
  Forall (λ pc, wanted pc.2 = true → m' !! pc.1 = m !! pc.1) ms →
  entries_in wanted read m' ms = entries_in wanted read m ms.
Proof.
  unfold entries_in. intros Hall.
  assert (E : ∀ pc, (wanted pc.2 = true → m' !! pc.1 = m !! pc.1) →
    (if wanted pc.2 then read_obj read m' pc.1 else Ok []) =
    (if wanted pc.2 then read_obj read m pc.1 else Ok [])).
  { intros pc Hpc. destruct (wanted pc.2); [|done]. unfold read_obj. by rewrite Hpc. }
  assert (Et : try_map (λ pc, if wanted pc.2 then read_obj read m' pc.1 else Ok []) ms =
               try_map (λ pc, if wanted pc.2 then read_obj read m pc.1 else Ok []) ms).
  { induction Hall as [|pc ms Hpc _ IH]; [done|]. cbn [try_map]. by rewrite IH, E. }
  by rewrite Et.
Qed.

(** The programs compute them. *)
Section Programs.
Context {S : Type} `{ReliableReads S}.

Lemma wp_read_obj {A} m (read : bytes → AilakeResult (list A)) p Q :
  Q (Ret (read_obj read m p)) m →
  wp m (b ← get_ p; match read b with Ok es => mret es | Err _ => io_err CatalogError end) Q.
Proof.
  intros HQ. apply wp_bind, wp_get_. unfold read_obj in HQ. destruct (m !! p) as [b|]; [|done].
  cbn in *. destruct (read b); [by apply wp_ret|by apply wp_err].
Qed.

Lemma wp_manifests m meta sid Q :
  Q (Ret (manifests_in m meta sid)) m → wp m (snapshot_manifests meta sid) Q.
Proof.
  unfold manifests_in, snapshot_manifests. destruct (_ ∪ _) as [id|]; [|apply wp_ret].
  destruct (List.find _ _); [|apply wp_err]. apply wp_read_obj.
Qed.

Lemma wp_read_manifests {A} m wanted (read : bytes → AilakeResult (list A)) ms Q :
  Q (Ret (entries_in wanted read m ms)) m → wp m (read_manifests wanted read ms) Q.
Proof.
  intros HQ. apply wp_bind.
  apply (wp_map_result _ _ (λ pc, if wanted pc.2 then read_obj read m pc.1 else Ok [])).
  - intros pc R HR. destruct (wanted pc.2); [by apply wp_read_obj|by apply wp_ret].
  - unfold entries_in in HQ. destruct (try_map _ ms); [by apply wp_ret|done].
Qed.

Lemma wp_list_files m meta sid Q :
  Q (Ret (files_in m meta sid)) m → wp m (list_files_from_metadata meta sid) Q.
Proof.
  intros HQ. apply wp_bind, wp_manifests. unfold files_in in HQ.
  destruct (manifests_in m meta sid); [|done]. by apply wp_read_manifests.
Qed.

Lemma wp_list_deletes m meta sid Q :
  Q (Ret (deletes_in m meta sid)) m → wp m (list_equality_deletes_from_metadata meta sid) Q.
Proof.
  intros HQ. apply wp_bind, wp_manifests. unfold deletes_in in HQ.
  destruct (manifests_in m meta sid); [|done]. by apply wp_read_manifests.
Qed.

End Programs.
End Listings.

(* ------------------------------------------------------------------ *)
(** ** A well-formed table                                             *)
(* ------------------------------------------------------------------ *)

Section Tables.
Context `{AvroLib} `{SerdeLib}.
Implicit Types m : gmap string bytes.

Definition snap_ids (meta : IcebergMetadata) : list Z := sn_snapshot_id <$> im_snapshots meta.

(** A manifest of the table: data or deletes, present and readable. *)
Definition manifest_ok m (root : string) (ids : list Z) (pc : string * Z) : Prop :=
  ∃ id, id ∈ ids ∧
    ((pc = (obj_path root (OManifest id), 0) ∧ ∃ es, read_obj read_manifest_file m pc.1 = Ok es) ∨
     (pc = (obj_path root (ODeletes id), 1) ∧
      ∃ ds, read_obj read_equality_delete_manifest m pc.1 = Ok ds)).

Definition snapshot_ok m (root : string) (ids : list Z) (s : IcebergSnapshot) : Prop :=
  sn_manifest_list s = obj_path root (OList (sn_snapshot_id s)) ∧
  ∃ ms, read_obj read_manifest_list_typed m (sn_manifest_list s) = Ok ms ∧
        Forall (manifest_ok m root ids) ms.

Record table_ok m (root : string) (meta : IcebergMetadata) : Prop := {
  ok_ids : NoDup (snap_ids meta);
  ok_current : im_current_snapshot_id meta = sn_snapshot_id <$> last (im_snapshots meta);
  ok_snapshots : Forall (snapshot_ok m root (snap_ids meta)) (im_snapshots meta);
}.

(** Agreement on the objects of the listed snapshots. *)
Definition agree_on (root : string) (ids : list Z) m m' : Prop :=
  ∀ id, id ∈ ids → ∀ o, o ∈ [OManifest id; ODeletes id; OList id] →
    m' !! obj_path root o = m !! obj_path root o.

Lemma manifest_ok_agree m m' root ids ids' pc :
  agree_on root ids m m' → ids ⊆ ids' → manifest_ok m root ids pc → manifest_ok m' root ids' pc.
Proof.
  intros Hag Hsub (id & Hid & Hpc). exists id. split; [by apply Hsub|].
  destruct Hpc as [(-> & es & E)|(-> & ds & E)]; [left|right]; (split; [done|]); eexists;
    unfold read_obj in *; cbn [fst] in *; rewrite (Hag id Hid); try exact E; set_solver.
Qed.

Lemma snapshot_ok_agree m m' root ids ids' s :
  sn_snapshot_id s ∈ ids → agree_on root ids m m' → ids ⊆ ids' →
  snapshot_ok m root ids s → snapshot_ok m' root ids' s.
Proof.
  intros Hs Hag Hsub (Hp & ms & E & Hall). split; [done|]. exists ms. split.
  - unfold read_obj in *. rewrite Hp in *. rewrite (Hag _ Hs); [done|set_solver].
  - eapply Forall_impl; [exact Hall|]. intros pc. by apply manifest_ok_agree.
Qed.

(** The snapshot a listing looks at. *)
Lemma find_snapshot meta s :
  NoDup (snap_ids meta) → s ∈ im_snapshots meta →
  List.find (λ t, sn_snapshot_id t =? sn_snapshot_id s) (im_snapshots meta) = Some s.
Proof.
  unfold snap_ids. intros Hnd Hin. induction Hin as [s l|s t l Hin IH]; cbn in *.
  - by rewrite Z.eqb_refl.
  - apply NoDup_cons in Hnd as [Hni Hnd]. destruct (Z.eqb_spec (sn_snapshot_id t) (sn_snapshot_id s)) as [E|].
    + exfalso. apply Hni. rewrite E. by apply list_elem_of_fmap_2.
    + by apply IH.
Qed.

(** Listings of a snapshot follow from its manifest list. *)
Lemma listing_of_snapshot m root meta s ms :
  table_ok m root meta → s ∈ im_snapshots meta →
  read_obj read_manifest_list_typed m (sn_manifest_list s) = Ok ms →
  manifests_in m meta (Some (sn_snapshot_id s)) = Ok ms ∧
  (last (im_snapshots meta) = Some s → manifests_in m meta None = Ok ms).
Proof.
  intros Hok Hs Hms. unfold manifests_in. split.
  - replace (Some (sn_snapshot_id s) ∪ im_current_snapshot_id meta) with (Some (sn_snapshot_id s))
      by by destruct (im_current_snapshot_id meta).
    rewrite find_snapshot by (done || apply Hok). done.
  - intros Hl. rewrite (ok_current _ _ _ Hok), Hl. cbn.
    rewrite find_snapshot by (done || apply Hok). done.
Qed.

(** Agreement on the table's objects keeps the table and all its listings. *)
Lemma listings_agree m m' root meta :
  table_ok m root meta → agree_on root (snap_ids meta) m m' →
  table_ok m' root meta ∧
  ∀ sid, files_in m' meta sid = files_in m meta sid ∧ deletes_in m' meta sid = deletes_in m meta sid.
Proof.
  intros Hok Hag. pose proof (ok_snapshots _ _ _ Hok) as Hall. rewrite Forall_forall in Hall.
  assert (Hin : ∀ s, s ∈ im_snapshots meta → sn_snapshot_id s ∈ snap_ids meta)
    by (intros s Hs; by apply list_elem_of_fmap_2).
  split.
  - split; try apply Hok. apply Forall_forall. intros s Hs.
    apply (snapshot_ok_agree m _ _ (snap_ids meta)); auto.
  - intros sid. unfold files_in, deletes_in, manifests_in. destruct (_ ∪ _) as [id|]; [|done].
    destruct (List.find _ _) as [s|] eqn:Hf; [|done]. apply find_some in Hf as [Hs _].
    apply list_elem_of_In in Hs. destruct (Hall s Hs) as (Hp & l & El & Hl).
    assert (El' : read_obj read_manifest_list_typed m' (sn_manifest_list s) = Ok l).
    { rewrite <- El. unfold read_obj. rewrite Hp, (Hag (sn_snapshot_id s)); [done|by apply Hin|set_solver]. }
    rewrite El, El'. cbn [mbind result_bind].
    split; apply entries_in_agree; (eapply Forall_impl; [exact Hl|]);
      intros pc (i & Hi & [[-> _]|[-> _]]) _; apply (Hag i Hi); set_solver.
Qed.

End Tables.

(* ------------------------------------------------------------------ *)
(** ** Building a commit                                               *)
(* ------------------------------------------------------------------ *)

Section Build.
Context {S : Type} `{ReliableReads S}.
Context `{AvroLib} `{SerdeLib} `{JsonLib} `{BincodeLib} `{MetaLib}.
Implicit Types m : gmap string bytes.

(** The inherited manifests, with the sizes of their objects. *)
Definition previous_in m (meta : IcebergMetadata) (op : SnapshotOperation) : list (string * Z * Z) :=
  if inherits op then
    match last (im_snapshots meta) with
    | None => []
    | Some prev =>
        match read_obj read_manifest_list_typed m (sn_manifest_list prev) with
        | Ok l => (λ pc, (pc.1, as_i64 (match m !! pc.1 with Some d => Zlen d | None => 0 end), pc.2)) <$> l
        | Err _ => []
        end
    end
  else [].

Lemma wp_previous_manifests m meta op Q :
  Q (Ret (Ok (previous_in m meta op))) m → wp m (previous_manifests meta op) Q.
Proof.
  unfold previous_in, previous_manifests, read_obj. intros HQ.
  destruct (inherits op); [|by apply wp_ret].
  destruct (last (im_snapshots meta)) as [prev|]; [|by apply wp_ret].
  apply wp_bind, wp_get. destruct (m !! sn_manifest_list prev) as [b|]; cbn in *; [|by apply wp_ret].
  destruct (read_manifest_list_typed b) as [l|]; [|by apply wp_ret].
  eapply wp_map_pure; [|exact HQ]. intros pc R HR. apply wp_bind, wp_file_size, wp_ret.
  cbv beta in HR. by destruct (m !! pc.1).
Qed.

Lemma wp_write_statistics m root meta id seq files blooms Q :
  (∀ r m', agree_except (λ p, p = obj_path root (OPuffin id)) m m' → Q (Ret (Ok r)) m') →
  wp m (write_statistics root meta id seq files blooms) Q.
Proof.
  intros HQ. unfold write_statistics.
  destruct (_ && _); [|by apply wp_ret, HQ, agree_refl].
  destruct (write_stats _ _ _) as [r|]; [|by apply wp_ret, HQ, agree_refl].
  apply wp_bind, wp_put; [|intros e _]; apply wp_ret, HQ; [|apply agree_refl].
  by apply agree_insert.
Qed.

Lemma wp_read_data_entries m ms Q :
  (∀ l, Q (Ret (Ok l)) m) → wp m (read_data_entries ms) Q.
Proof.
  intros HQ. apply wp_bind.
  apply (wp_map_pure _ _ (λ x : string * Z * Z,
    if x.2 =? 0 then match ok_or (m !! x.1.1) StoreError with
      | Ok mb => match read_manifest_file mb with Ok es => es | Err _ => [] end
      | Err _ => [] end else [])).
  - intros x R HR. destruct (x.2 =? 0); [by apply wp_bind, wp_get, wp_ret|by apply wp_ret].
  - by apply wp_ret.
Qed.

Lemma wp_write_partition_statistics m root id spec ms Q :
  (∀ r m', agree_except (λ p, p = obj_path root (OPartStats id)) m m' → Q (Ret (Ok r)) m') →
  wp m (write_partition_statistics root id spec ms) Q.
Proof.
  intros HQ. unfold write_partition_statistics.
  destruct spec as [spec|]; [|by apply wp_ret, HQ, agree_refl].
  destruct (is_unpartitioned spec); [by apply wp_ret, HQ, agree_refl|].
  apply wp_bind, wp_read_data_entries. intros l.
  destruct (write_partition_stats_parquet spec l) as [d|]; [|by apply wp_ret, HQ, agree_refl].
  apply wp_bind, wp_put; [|intros e _]; apply wp_ret, HQ; [|apply agree_refl].
  by apply agree_insert.
Qed.

(** The inherited manifests are the same in contents that agree on the table. *)
Lemma previous_in_agree m m' root meta op :
  table_ok m root meta → agree_on root (snap_ids meta) m m' →
  previous_in m' meta op = previous_in m meta op.
Proof.
  intros Hok Hag. unfold previous_in. destruct (inherits op); [|done].
  destruct (last (im_snapshots meta)) as [s|] eqn:Hl; [|done].
  assert (Hs : s ∈ im_snapshots meta) by (apply last_Some_elem_of in Hl; done).
  pose proof (ok_snapshots _ _ _ Hok) as Hall. rewrite Forall_forall in Hall.
  destruct (Hall s Hs) as (Hp & l & El & Hl').
  assert (El' : read_obj read_manifest_list_typed m' (sn_manifest_list s) = Ok l).
  { rewrite <- El. unfold read_obj.
    rewrite Hp, (Hag (sn_snapshot_id s)); [done|by apply list_elem_of_fmap_2|set_solver]. }
  rewrite El, El'. apply list_fmap_ext. intros i pc Hi.
  rewrite Forall_forall in Hl'. destruct (Hl' pc) as (j & Hj & [[-> _]|[-> _]]);
    [by eapply list_elem_of_lookup_2| |];
    cbn [fst snd]; by rewrite (Hag j Hj) by set_solver.
Qed.

(** The parts of a commit, as functions of its inputs. *)
Section Parts.
Context (root warehouse : string) (meta : IcebergMetadata) (sn : NewSnapshot).
Let id := ns_snapshot_id sn.

Definition commit_seq : Z := add_i64 (im_last_sequence_number meta) 1.
Definition committed_files : list DataFileEntry := (commit_files warehouse meta (ns_files sn)).1.
Definition commit_spec : option PartitionSpec := partition_spec_of meta.
Definition manifest_bytes : bytes :=
  write_manifest_file committed_files id commit_seq (table_schema_json meta)
    (json_to_string (JArr (im_partition_specs meta))) (wrap 8 (im_format_version meta)) commit_spec.
Definition committed_deletes : list EqualityDeleteFile :=
  absolute_delete root <$> ns_equality_delete_files sn.
Definition delete_bytes : bytes := write_equality_delete_manifest committed_deletes id commit_seq.
Definition delete_manifests : list (string * Z * Z) :=
  match committed_deletes with
  | [] => []
  | _ => [(obj_path root (ODeletes id), Zlen delete_bytes, 1)]
  end.
Definition added_rows : Z :=
  foldl (λ n f, add_i64 n (as_i64 (df_record_count f))) 0 committed_files.
Definition all_manifests m : list (string * Z * Z) :=
  previous_in (<[obj_path root (OManifest id) := manifest_bytes]> m) meta (ns_operation sn)
  ++ [(obj_path root (OManifest id), Zlen manifest_bytes, 0)] ++ delete_manifests.
Definition list_bytes m : bytes :=
  write_manifest_list_multi_typed (all_manifests m) id commit_seq added_rows.

(** What holds after the commit's objects are written. *)
Record built (now : Z) m (a : CommitArtifacts) (m' : gmap string bytes) : Prop := {
  built_id : sn_snapshot_id (ca_snapshot a) = id;
  built_list : sn_manifest_list (ca_snapshot a) = obj_path root (OList id);
  built_snapshot_seq : sn_sequence_number (ca_snapshot a) = commit_seq;
  built_seq : ca_last_sequence_number a = commit_seq;
  built_rows : ca_next_row_id a = (commit_files warehouse meta (ns_files sn)).2;
  built_now : ca_last_updated_ms a = now;
  built_props : ca_extra_properties a = ns_extra_properties sn;
  built_patch : match ns_iceberg_schema sn with
                | None => ca_schema_patch a = None
                | Some u => ca_schema_patch a = schema_patch_of meta u ∧ is_Some (schema_patch_of meta u)
                end;
  built_agree : agree_except (commit_objects root id) m m';
  built_manifest : m' !! obj_path root (OManifest id) = Some manifest_bytes;
  built_deletes : committed_deletes ≠ [] → m' !! obj_path root (ODeletes id) = Some delete_bytes;
  built_manifest_list : m' !! obj_path root (OList id) = Some (list_bytes m);
}.

(** The schema update, when there is one, does not index a non-object. *)
Definition patch_applies : Prop :=
  match ns_iceberg_schema sn with Some u => is_Some (schema_patch_of meta u) | None => True end.

End Parts.

Lemma agree_trans X m m1 m2 : agree_except X m m1 → agree_except X m1 m2 → agree_except X m m2.
Proof. intros H12 H23 p Hp. by rewrite H23, H12. Qed.

Lemma agree_weaken (X Y : string → Prop) m m' :
  (∀ p, X p → Y p) → agree_except X m m' → agree_except Y m m'.
Proof. intros HXY Hag p Hp. apply Hag. naive_solver. Qed.

(** Lookups of other objects through the statistics writes. *)
Lemma agree_single root o o' m m' :
  o ≠ o' → agree_except (λ p, p = obj_path root o') m m' →
  m' !! obj_path root o = m !! obj_path root o.
Proof. intros Hne Hag. apply Hag. by apply obj_ne. Qed.

(** Writing the delete manifest, when there are deletes. *)
Lemma wp_delete_manifest root meta sn l m :
  let id := ns_snapshot_id sn in
  wp m (match committed_deletes root sn with
        | [] => mret l
        | _ => put_ (obj_path root (ODeletes id)) (delete_bytes root meta sn);;
               mret (l ++ [(obj_path root (ODeletes id), Zlen (delete_bytes root meta sn), 1)])
        end)
    (λ o m', match o with
     | Ret (Ok ms) => ms = l ++ delete_manifests root meta sn ∧
         agree_except (λ p, p = obj_path root (ODeletes id)) m m' ∧
         (committed_deletes root sn ≠ [] → m' !! obj_path root (ODeletes id) = Some (delete_bytes root meta sn))
     | Ret (Err _) => ¬ puts_succeed S ∧ agree_except (λ p, p = obj_path root (ODeletes id)) m m'
     | Panic => False
     end).
Proof.
  cbv zeta. unfold delete_manifests. destruct (committed_deletes root sn) eqn:E.
  - apply wp_ret. rewrite app_nil_r. split_and!; [done|apply agree_refl|done].
  - apply wp_bind, wp_put_; [apply wp_ret|done]. split_and!; [done|by apply agree_insert|].
    intros _. apply lookup_insert_eq.
Qed.

Lemma wp_build_commit m root warehouse meta sn now Q :
  patch_applies meta sn →
  (∀ a m', built root warehouse meta sn now m a m' → Q (Ret (Ok a)) m') →
  (∀ e m', ¬ puts_succeed S → agree_except (commit_objects root (ns_snapshot_id sn)) m m' →
    Q (Ret (Err e)) m') →
  wp m (build_commit root warehouse meta sn now) Q.
Proof.
  intros Hpatch HO HE. unfold build_commit.
  change (tm_partition_spec (to_table_metadata meta)) with (commit_spec meta).
  set (id := ns_snapshot_id sn) in *.
  destruct (commit_files warehouse meta (ns_files sn)) as [fs rows] eqn:Hfs.
  assert (Hcf : fs = committed_files warehouse meta sn) by (unfold committed_files; by rewrite Hfs).
  set (mb := write_manifest_file _ _ _ _ _ _ _).
  assert (Hmb : mb = manifest_bytes warehouse meta sn) by (subst mb; rewrite Hcf; reflexivity).
  set (X := commit_objects root id).
  assert (HX : ∀ o, o ∈ [OManifest id; ODeletes id; OList id; OPuffin id; OPartStats id] →
    X (obj_path root o)) by (intros o Ho; by apply commit_object).
  change (manifest_file_path root id) with (obj_path root (OManifest id)).
  change (del_manifest_path root id) with (obj_path root (ODeletes id)).
  change (manifest_list_path root id) with (obj_path root (OList id)).
  apply wp_bind, wp_put_; [|intros e He; by apply HE]. set (m1 := <[_ := mb]> m).
  assert (Ha1 : agree_except X m m1) by (apply agree_insert; [apply HX; set_solver|apply agree_refl]).
  assert (Hl1 : m1 !! obj_path root (OManifest id) = Some mb) by apply lookup_insert_eq.
  apply wp_bind, wp_previous_manifests. set (prev := previous_in m1 meta (ns_operation sn)).
  change (absolute_delete root <$> ns_equality_delete_files sn) with (committed_deletes root sn).
  apply wp_bind. eapply wp_mono.
  { apply (wp_delete_manifest root meta sn (prev ++ [(obj_path root (OManifest id), Zlen mb, 0)]) m1). }
  intros o m2 Ho. destruct o as [[ms|e]|]; [|destruct Ho as [He Ha2]; apply HE; [done|];
    eapply agree_trans; [exact Ha1|]; eapply agree_weaken; [|exact Ha2]; intros p ->; apply HX; set_solver|done].
  destruct Ho as (Hms & Ha2 & Hd2).
  assert (Ha2' : agree_except X m m2).
  { eapply agree_trans; [exact Ha1|]. eapply agree_weaken; [|exact Ha2]. intros p ->. apply HX. set_solver. }
  assert (Hl2 : m2 !! obj_path root (OManifest id) = Some mb).
  { rewrite <- Hl1. by apply (agree_single root (OManifest id) (ODeletes id)). }
  assert (Hall : ms = all_manifests root warehouse meta sn m).
  { rewrite Hms. unfold all_manifests. rewrite <- Hmb, <- app_assoc. done. }
  apply wp_bind, wp_put_; [|intros e He; by apply HE].
  set (m3 := <[obj_path root (OList id) := _]> m2).
  assert (Ha3 : agree_except X m m3) by (apply agree_insert; [apply HX; set_solver|done]).
  apply wp_bind, wp_outcome.
  assert (∃ pt, match ns_iceberg_schema sn with
     | Some u => p ← or_panic (schema_patch_of meta u); Ret (Ok (Some p))
     | None => Ret (Ok None) end = Ret (Ok pt) ∧
     match ns_iceberg_schema sn with
     | None => pt = None
     | Some u => pt = schema_patch_of meta u ∧ is_Some (schema_patch_of meta u)
     end) as (pt & -> & Hpt).
  { unfold patch_applies in Hpatch. destruct (ns_iceberg_schema sn) as [u|]; [|by exists None].
    destruct Hpatch as [p Hp]. rewrite Hp. exists (Some p). by eauto. }
  apply wp_bind, wp_write_statistics. intros st m4 Ha4.
  apply wp_bind, wp_write_partition_statistics. intros pst m5 Ha5. apply wp_ret, HO.
  assert (Hother : ∀ o, o ∈ [OManifest id; ODeletes id] → m5 !! obj_path root o = m2 !! obj_path root o).
  { intros o Ho. rewrite (agree_single root o (OPartStats id) m4 m5); [|set_solver|done].
    rewrite (agree_single root o (OPuffin id) m3 m4); [|set_solver|done].
    apply lookup_insert_ne, obj_ne. set_solver. }
  split; try done.
  - cbn. by rewrite Hfs.
  - eapply agree_trans; [exact Ha3|]. eapply agree_trans; eapply agree_weaken; [|exact Ha4| |exact Ha5];
      intros p ->; apply HX; set_solver.
  - fold id. rewrite Hother by set_solver. by rewrite Hl2, Hmb.
  - intros Hne. fold id. rewrite Hother by set_solver. by apply Hd2.
  - fold id. rewrite (agree_single root (OList id) (OPartStats id) m4 m5) by done.
    rewrite (agree_single root (OList id) (OPuffin id) m3 m4) by done.
    subst m3. rewrite lookup_insert_eq, Hall. unfold list_bytes, added_rows. by rewrite <- Hcf.
Qed.
End Build.

(* ------------------------------------------------------------------ *)
(** ** Reading a table after a commit                                  *)
(* ------------------------------------------------------------------ *)

Section After.
Context `{AvroLaws} `{SerdeLaws} `{JsonLib}.
Implicit Types m : gmap string bytes.

(** Row-id assignment keeps entries typed. *)
Lemma assign_row_ids_typed n fs :
  fits_i64 n → Forall entry_typed fs → Forall entry_typed (assign_row_ids n fs).1.
Proof.
  intros Hn Hall. revert n Hn. induction Hall as [|f fs Hf _ IH]; intros n Hn; [constructor|].
  cbn [assign_row_ids]. destruct (df_first_row_id f) eqn:Ef.
  - specialize (IH n Hn). destruct (assign_row_ids n fs). by constructor.
  - specialize (IH _ (as_i64_fits (n + as_i64 (df_record_count f)))).
    unfold add_i64. destruct (assign_row_ids _ fs). constructor; [|done].
    destruct Hf as (? & ? & _). by split_and!.
Qed.

Lemma commit_files_typed warehouse meta fs :
  fits_i64 (im_next_row_id meta) → Forall entry_typed fs →
  Forall entry_typed (commit_files warehouse meta fs).1.
Proof.
  intros Hn Hall. unfold commit_files.
  assert (Habs : Forall entry_typed (absolute_file warehouse <$> fs))
    by (apply Forall_fmap; eapply Forall_impl; [exact Hall|]; by intros f Hf).
  destruct (3 <=? _); [by apply assign_row_ids_typed|done].
Qed.

Lemma added_rows_fits warehouse meta sn : fits_i64 (added_rows warehouse meta sn).
Proof.
  unfold added_rows. assert (Hz : fits_i64 0) by (by vm_compute). revert Hz. generalize 0.
  induction (committed_files warehouse meta sn) as [|f fs IH]; intros n Hn; [done|].
  cbn [foldl]. apply IH, as_i64_fits.
Qed.

(** What the commit needs of its inputs: a fresh id, integers in range, texts the
    Avro library parses, objects smaller than the address space. *)
Record commit_input m (root warehouse : string) (meta : IcebergMetadata) (sn : NewSnapshot) : Prop := {
  in_fresh : ns_snapshot_id sn ∉ snap_ids meta;
  in_id : fits_i64 (ns_snapshot_id sn);
  in_rows : fits_i64 (im_next_row_id meta);
  in_files : Forall entry_typed (ns_files sn);
  in_deletes : Forall delete_typed (ns_equality_delete_files sn);
  in_entry_schema : parse_schema (build_manifest_entry_schema (commit_spec meta)) =
    Some (manifest_entry_schema (commit_spec meta));
  in_delete_schema : parse_schema MANIFEST_ENTRY_SCHEMA_STR = Some (manifest_entry_schema None);
  in_list_schema : parse_schema MANIFEST_LIST_SCHEMA_STR = Some manifest_list_schema;
  in_manifest_size : Zlen (manifest_bytes warehouse meta sn) < 2 ^ 63;
  in_delete_size : Zlen (delete_bytes root meta sn) < 2 ^ 63;
  in_list_size : Zlen (list_bytes root warehouse meta sn m) < 2 ^ 63;
}.

Lemma commit_input_agree m m' root warehouse meta sn :
  table_ok m root meta → agree_on root (snap_ids meta) m m' →
  commit_input m root warehouse meta sn → commit_input m' root warehouse meta sn.
Proof.
  intros Hok Hag Hin. split; try apply Hin.
  pose proof (in_list_size _ _ _ _ _ Hin) as Hsz. revert Hsz. unfold list_bytes, all_manifests.
  set (p := obj_path root (OManifest (ns_snapshot_id sn))). set (mb := manifest_bytes _ _ _).
  assert (Hfresh : ∀ mm, agree_on root (snap_ids meta) mm (<[p := mb]> mm)).
  { intros mm i Hi o Ho. apply lookup_insert_ne. intros E. apply obj_path_inj in E.
    apply (in_fresh _ _ _ _ _ Hin). assert (i = ns_snapshot_id sn) as <- by set_solver. done. }
  rewrite (previous_in_agree m (<[p := mb]> m) root meta) by done.
  rewrite (previous_in_agree m (<[p := mb]> m') root meta); [done|done|].
  intros i Hi o Ho. by rewrite (Hfresh m' i Hi o Ho), (Hag i Hi o Ho).
Qed.

(** The manifests a commit inherits, and what they list. *)
Definition inherited m (meta : IcebergMetadata) (op : SnapshotOperation) (ms : list (string * Z)) : Prop :=
  if inherits op then manifests_in m meta None = Ok ms else ms = [].

Lemma inherited_exists m root meta op :
  table_ok m root meta → ∃ ms, inherited m meta op ms ∧
    Forall (manifest_ok m root (snap_ids meta)) ms.
Proof.
  intros Hok. unfold inherited. destruct (inherits op); [|by exists []].
  destruct (last (im_snapshots meta)) as [s|] eqn:Hl.
  - assert (Hs : s ∈ im_snapshots meta) by (apply last_Some_elem_of in Hl; done).
    pose proof (ok_snapshots _ _ _ Hok) as Hall. rewrite Forall_forall in Hall.
    destruct (Hall s Hs) as (_ & ms & E & Hms). exists ms. split; [|done].
    by apply (listing_of_snapshot m root meta s ms Hok Hs E).
  - exists []. unfold manifests_in. by rewrite (ok_current _ _ _ Hok), Hl.
Qed.

Lemma fresh_agree root ids id m m' :
  id ∉ ids → agree_except (commit_objects root id) m m' → agree_on root ids m m'.
Proof.
  intros Hf Hag i Hi o Ho. apply Hag, not_commit_object. intros Hin.
  assert (i = id); [|by subst]. set_solver.
Qed.

(** The inherited entries of the new list are the previous ones. *)
Lemma previous_in_paths m m1 root meta op ms :
  table_ok m root meta → agree_on root (snap_ids meta) m m1 → inherited m meta op ms →
  (λ x : string * Z * Z, (x.1.1, x.2)) <$> previous_in m1 meta op = ms.
Proof.
  intros Hok Hag. unfold inherited, previous_in. destruct (inherits op); [|by intros ->].
  unfold manifests_in. rewrite (ok_current _ _ _ Hok).
  destruct (last (im_snapshots meta)) as [s|] eqn:Hl; cbn; [|by intros [= <-]].
  assert (Hs : s ∈ im_snapshots meta) by (apply last_Some_elem_of in Hl; done).
  rewrite find_snapshot by (done || apply Hok).
  pose proof (ok_snapshots _ _ _ Hok) as Hall. rewrite Forall_forall in Hall.
  destruct (Hall s Hs) as (Hp & _). unfold read_obj.
  rewrite Hp, (Hag (sn_snapshot_id s)); [|by apply list_elem_of_fmap_2|set_solver].
  destruct (m !! _) as [lb|]; [|done]. cbn. destruct (read_manifest_list_typed lb) as [l|]; [|done].
  intros [= <-]. rewrite <- list_fmap_compose. rewrite <- (list_fmap_id l) at 2.
  apply list_fmap_ext. by intros i [].
Qed.

Lemma apply_commit_spec meta a meta' :
  apply_commit meta a = Some meta' →
  im_snapshots meta' = im_snapshots meta ++ [ca_snapshot a] ∧
  im_current_snapshot_id meta' = Some (sn_snapshot_id (ca_snapshot a)) ∧
  im_last_sequence_number meta' = ca_last_sequence_number a ∧
  im_format_version meta' = im_format_version meta ∧
  im_next_row_id meta' =
    (if 3 <=? im_format_version meta then ca_next_row_id a else im_next_row_id meta).
Proof.
  unfold apply_commit. destruct (ca_schema_patch a) as [p|]; cbn.
  - destruct (patch_first_schema _ _); [|done]. cbn. by intros [= <-].
  - by intros [= <-].
Qed.

(** The manifests of the new snapshot. *)
Definition new_manifests (root : string) (sn : NewSnapshot) (ms : list (string * Z)) : list (string * Z) :=
  ms ++ [(obj_path root (OManifest (ns_snapshot_id sn)), 0)] ++
  match committed_deletes root sn with
  | [] => []
  | _ => [(obj_path root (ODeletes (ns_snapshot_id sn)), 1)]
  end.

Section OneCommit.
Context (m m' : gmap string bytes) (root warehouse : string) (meta meta' : IcebergMetadata).
Context (sn : NewSnapshot) (now : Z) (a : CommitArtifacts) (ms : list (string * Z)).
Context (Hok : table_ok m root meta) (Hin : commit_input m root warehouse meta sn).
Context (Hb : built root warehouse meta sn now m a m') (Ha : apply_commit meta a = Some meta').
Context (Hms : inherited m meta (ns_operation sn) ms).
Context (Hmsok : Forall (manifest_ok m root (snap_ids meta)) ms).
#[local] Notation id := (ns_snapshot_id sn).

Lemma commit_agrees : agree_on root (snap_ids meta) m m'.
Proof. eapply fresh_agree; [apply Hin|apply Hb]. Qed.

Lemma commit_seq_fits : fits_i64 (commit_seq meta).
Proof. apply as_i64_fits. Qed.

Lemma new_manifest_read :
  read_obj read_manifest_file m' (obj_path root (OManifest id)) =
    Ok (read_back (commit_seq meta) (commit_spec meta) <$> committed_files warehouse meta sn).
Proof.
  unfold read_obj. rewrite (built_manifest _ _ _ _ _ _ _ _ Hb). cbn.
  unfold manifest_bytes. rewrite read_written_manifest; [done|apply Hin|apply Hin|apply commit_seq_fits| |apply Hin].
  by apply commit_files_typed; apply Hin.
Qed.

Lemma new_deletes_read :
  committed_deletes root sn ≠ [] →
  read_obj read_equality_delete_manifest m' (obj_path root (ODeletes id)) =
    Ok (delete_back (commit_seq meta) <$> committed_deletes root sn).
Proof.
  intros Hne. unfold read_obj. rewrite (built_deletes _ _ _ _ _ _ _ _ Hb Hne). cbn.
  unfold delete_bytes. rewrite read_written_deletes; [done|apply Hin|apply Hin|apply commit_seq_fits| |apply Hin].
  apply Forall_fmap. eapply Forall_impl; [apply Hin|]. intros d (? & ? & ? & ?). by split_and!.
Qed.

Lemma manifest_ok_content mm ids pc : manifest_ok mm root ids pc → fits_i32 pc.2.
Proof. by intros (? & _ & [[-> _]|[-> _]]). Qed.

Lemma previous_typed l :
  (λ x : string * Z * Z, (x.1.1, x.2)) <$> previous_in l meta (ns_operation sn) = ms →
  Forall list_entry_typed (previous_in l meta (ns_operation sn)).
Proof.
  intros E. apply Forall_forall. intros x Hx. split.
  - revert Hx. unfold previous_in. repeat case_match; try (intros []%not_elem_of_nil).
    intros (pc & -> & _)%list_elem_of_fmap. apply as_i64_fits.
  - assert (Hx' : (x.1.1, x.2) ∈ ms) by (rewrite <- E; by apply (list_elem_of_fmap_2 (λ x, (x.1.1, x.2)))).
    rewrite Forall_forall in Hmsok. apply (manifest_ok_content m (snap_ids meta) (x.1.1, x.2)).
    by apply Hmsok.
Qed.

Lemma new_list_read :
  read_obj read_manifest_list_typed m' (obj_path root (OList id)) = Ok (new_manifests root sn ms).
Proof.
  unfold read_obj. rewrite (built_manifest_list _ _ _ _ _ _ _ _ Hb). cbn.
  assert (Hag1 : agree_on root (snap_ids meta) m
      (<[obj_path root (OManifest id) := manifest_bytes warehouse meta sn]> m)).
  { eapply fresh_agree; [apply Hin|]. apply agree_insert; [apply commit_object; set_solver|apply agree_refl]. }
  pose proof (previous_in_paths _ _ _ _ _ _ Hok Hag1 Hms) as Hprev.
  unfold list_bytes. rewrite read_written_list;
    [|apply Hin|apply Hin|apply commit_seq_fits|apply added_rows_fits| |apply Hin].
  - unfold all_manifests, new_manifests, delete_manifests. rewrite !fmap_app. rewrite Hprev.
    by destruct (committed_deletes root sn).
  - unfold all_manifests. apply Forall_app; split; [by apply previous_typed|].
    pose proof (in_manifest_size _ _ _ _ _ Hin). pose proof (in_delete_size _ _ _ _ _ Hin).
    constructor; [split; cbn; unfold fits_i64, fits_i32; lia|].
    unfold delete_manifests. destruct (committed_deletes root sn); repeat constructor; cbn;
      unfold fits_i64, fits_i32; lia.
Qed.

Lemma new_manifests_ok : Forall (manifest_ok m' root (snap_ids meta')) (new_manifests root sn ms).
Proof.
  destruct (apply_commit_spec _ _ _ Ha) as (Hsn & _).
  assert (Hids : snap_ids meta' = snap_ids meta ++ [id])
    by (unfold snap_ids; rewrite Hsn, fmap_app; cbn; by rewrite (built_id _ _ _ _ _ _ _ _ Hb)).
  rewrite Hids. apply Forall_app; split; [|constructor].
  - eapply Forall_impl; [exact Hmsok|]. intros pc. apply manifest_ok_agree; [apply commit_agrees|set_solver].
  - exists id. split; [set_solver|]. left. split; [done|]. eexists. apply new_manifest_read.
  - destruct (committed_deletes root sn) eqn:E; [constructor|]. apply Forall_singleton.
    exists id. split; [set_solver|]. right. split; [done|]. eexists. apply new_deletes_read. by rewrite E.
Qed.

Lemma commit_table_ok : table_ok m' root meta'.
Proof.
  destruct (apply_commit_spec _ _ _ Ha) as (Hsn & Hcur & _).
  pose proof (built_id _ _ _ _ _ _ _ _ Hb) as Hid.
  assert (Hids : snap_ids meta' = snap_ids meta ++ [id])
    by (unfold snap_ids; rewrite Hsn, fmap_app; cbn; by rewrite Hid).
  split.
  - rewrite Hids. apply NoDup_app. split_and!; [apply Hok| |apply NoDup_singleton].
    intros x Hx ->%list_elem_of_singleton. by apply (in_fresh _ _ _ _ _ Hin).
  - by rewrite Hcur, Hsn, last_snoc.
  - rewrite Hsn. apply Forall_app. split; [|apply Forall_singleton].
    + pose proof (ok_snapshots _ _ _ Hok) as Hall. rewrite Forall_forall in Hall |- *.
      intros s Hs. apply (snapshot_ok_agree m _ _ (snap_ids meta)); [by apply list_elem_of_fmap_2|apply commit_agrees| |by apply Hall].
      rewrite Hids. set_solver.
    + split; [by rewrite Hid, (built_list _ _ _ _ _ _ _ _ Hb)|]. exists (new_manifests root sn ms).
      rewrite (built_list _ _ _ _ _ _ _ _ Hb). split; [apply new_list_read|apply new_manifests_ok].
Qed.

(** Manifests of the table read the same before and after. *)
Lemma kept_entries {A} (wanted : Z → bool) (read : bytes → AilakeResult (list A)) l :
  Forall (manifest_ok m root (snap_ids meta)) l →
  entries_in wanted read m' l = entries_in wanted read m l.
Proof.
  intros Hl. apply entries_in_agree. eapply Forall_impl; [exact Hl|].
  intros pc (i & Hi & [[-> _]|[-> _]]) _; apply (commit_agrees i Hi); set_solver.
Qed.

Lemma new_listing : manifests_in m' meta' None = Ok (new_manifests root sn ms).
Proof.
  destruct (apply_commit_spec _ _ _ Ha) as (Hsn & _).
  destruct (listing_of_snapshot m' root meta' (ca_snapshot a) (new_manifests root sn ms)) as [_ Hl].
  - apply commit_table_ok.
  - rewrite Hsn. set_solver.
  - rewrite (built_list _ _ _ _ _ _ _ _ Hb). apply new_list_read.
  - apply Hl. by rewrite Hsn, last_snoc.
Qed.

Lemma commit_lists_files old :
  entries_in (λ c, c =? 0) read_manifest_file m ms = Ok old →
  files_in m' meta' None =
    Ok (old ++ (read_back (commit_seq meta) (commit_spec meta) <$> committed_files warehouse meta sn)).
Proof.
  intros Hold. unfold files_in. rewrite new_listing. cbn [mbind result_bind]. unfold new_manifests.
  apply entries_in_app; [by rewrite kept_entries|].
  assert (Hnew : entries_in (λ c, c =? 0) read_manifest_file m' [(obj_path root (OManifest id), 0)] =
    Ok (read_back (commit_seq meta) (commit_spec meta) <$> committed_files warehouse meta sn)).
  { unfold entries_in. cbn [try_map fst snd]. change (0 =? 0) with true. cbv iota.
    rewrite new_manifest_read. cbn. by rewrite app_nil_r. }
  rewrite <- (app_nil_r (read_back _ _ <$> _)). apply entries_in_app; [done|].
  by destruct (committed_deletes root sn).
Qed.

Lemma commit_lists_deletes old :
  entries_in (λ c, c =? 1) read_equality_delete_manifest m ms = Ok old →
  deletes_in m' meta' None =
    Ok (old ++ (delete_back (commit_seq meta) <$> committed_deletes root sn)).
Proof.
  intros Hold. unfold deletes_in. rewrite new_listing. cbn [mbind result_bind]. unfold new_manifests.
  apply entries_in_app; [by rewrite kept_entries|].
  rewrite <- (app_nil_l (delete_back _ <$> _)). apply entries_in_app; [done|].
  destruct (committed_deletes root sn) eqn:E; [done|]. rewrite <- E.
  unfold entries_in. cbn [try_map fst snd]. change (1 =? 1) with true. cbv iota.
  rewrite new_deletes_read by by rewrite E. cbn. by rewrite app_nil_r.
Qed.

(** Older snapshots list what they listed. *)
Lemma commit_keeps_snapshot sid :
  sid ∈ snap_ids meta →
  files_in m' meta' (Some sid) = files_in m meta (Some sid) ∧
  deletes_in m' meta' (Some sid) = deletes_in m meta (Some sid).
Proof.
  intros (s & -> & Hs)%list_elem_of_fmap. destruct (apply_commit_spec _ _ _ Ha) as (Hsn & _).
  pose proof (ok_snapshots _ _ _ Hok) as Hall. rewrite Forall_forall in Hall.
  destruct (Hall s Hs) as (Hp & l & El & Hl).
  destruct (listing_of_snapshot m root meta s l Hok Hs El) as [E1 _].
  destruct (listing_of_snapshot m' root meta' s l) as [E2 _].
  - apply commit_table_ok.
  - rewrite Hsn. set_solver.
  - rewrite <- El. unfold read_obj. rewrite Hp.
    rewrite (commit_agrees (sn_snapshot_id s)); [done|by apply list_elem_of_fmap_2|set_solver].
  - unfold files_in, deletes_in. rewrite E1, E2. cbn [mbind result_bind]. by rewrite !kept_entries.
Qed.

End OneCommit.

(** Listing a well-formed table never fails. *)
Lemma entries_exist {A} (wanted : Z → bool) (read : bytes → AilakeResult (list A)) m l :
  Forall (λ pc, wanted pc.2 = true → ∃ es, read_obj read m pc.1 = Ok es) l →
  ∃ es, entries_in wanted read m l = Ok es.
Proof.
  unfold entries_in. induction 1 as [|pc l Hpc _ [es IH]]; [by exists []|]. cbn [try_map].
  destruct (wanted pc.2).
  - destruct (Hpc eq_refl) as [es' ->]. destruct (try_map _ l); [eauto|done].
  - destruct (try_map _ l); [eauto|done].
Qed.

Lemma table_listable m root ids l :
  Forall (manifest_ok m root ids) l →
  (∃ fs, entries_in (λ c, c =? 0) read_manifest_file m l = Ok fs) ∧
  (∃ ds, entries_in (λ c, c =? 1) read_equality_delete_manifest m l = Ok ds).
Proof.
  intros Hl. split; apply entries_exist; (eapply Forall_impl; [exact Hl|]);
    intros pc (i & _ & [(-> & E)|(-> & E)]); try done; by intros.
Qed.

End After.

(* ------------------------------------------------------------------ *)
(** ** Row ids                                                         *)
(* ------------------------------------------------------------------ *)

Definition fresh_rows (f : DataFileEntry) : Z :=
  match df_first_row_id f with None => df_record_count f | Some _ => 0 end.

Lemma as_i64_id n : fits_i64 n → as_i64 n = n.
Proof.
  unfold fits_i64, as_i64, signed. intros Hn.
  destruct (decide (0 ≤ n)) as [H0|H0].
  - rewrite wrap_id by (unfold fits; lia). by rewrite decide_True by lia.
  - unfold wrap. rewrite <- (Z.mod_unique n (2 ^ 64) (-1) (n + 2 ^ 64)) by lia.
    rewrite decide_False by lia. lia.
Qed.

Lemma fresh_rows_nonneg fs : Forall (λ f, 0 ≤ df_record_count f) fs → 0 ≤ sum_by fresh_rows fs.
Proof.
  intros Hall. apply sum_by_nonneg. intros f Hf. rewrite Forall_forall in Hall.
  unfold fresh_rows. destruct (df_first_row_id f); [lia|by apply Hall].
Qed.

Lemma assign_row_ids_spec n fs :
  0 ≤ n → Forall (λ f, 0 ≤ df_record_count f) fs → n + sum_by fresh_rows fs < 2 ^ 63 →
  let '(fs', n') := assign_row_ids n fs in
  n' = n + sum_by fresh_rows fs ∧ length fs' = length fs ∧
  ∀ i f, fs !! i = Some f → fs' !! i = Some
    match df_first_row_id f with
    | Some _ => f
    | None => set_first_row_id f (n + sum_by fresh_rows (take i fs))
    end.
Proof.
  intros Hn Hall. revert n Hn. induction Hall as [|f fs Hf Hfs IH]; intros n Hn Hlt.
  { cbn. split_and!; [lia|done|]. intros i f Hf. by rewrite lookup_nil in Hf. }
  pose proof (fresh_rows_nonneg fs Hfs) as Hnn. cbn [assign_row_ids sum_by] in Hlt |- *.
  destruct (df_first_row_id f) as [k|] eqn:Ek.
  - assert (Hfr : fresh_rows f = 0) by (unfold fresh_rows; by rewrite Ek).
    specialize (IH n Hn ltac:(lia)). destruct (assign_row_ids n fs) as [fs' n'].
    destruct IH as (-> & Hlen & Hi). split_and!; [lia|by cbn; rewrite Hlen|].
    intros [|i] g; simpl; [intros [= <-]; by rewrite Ek|]. intros Hg. rewrite (Hi i g Hg).
    rewrite Hfr. by rewrite Z.add_0_l.
  - assert (Hfr : fresh_rows f = df_record_count f) by (unfold fresh_rows; by rewrite Ek).
    unfold add_i64. rewrite !as_i64_id by (unfold fits_i64; rewrite ?as_i64_id by (unfold fits_i64; lia); lia).
    specialize (IH (n + df_record_count f) ltac:(lia) ltac:(lia)).
    destruct (assign_row_ids (n + df_record_count f) fs) as [fs' n'].
    destruct IH as (-> & Hlen & Hi). split_and!; [lia|by cbn; rewrite Hlen|].
    intros [|i] g; simpl; [intros [= <-]; rewrite Ek; by rewrite Z.add_0_r|].
    intros Hg. rewrite (Hi i g Hg), Hfr. by rewrite Z.add_assoc.
Qed.

Lemma sum_take_mono fs i j f :
  Forall (λ f, 0 ≤ df_record_count f) fs → fs !! i = Some f → (i < j)%nat →
  sum_by fresh_rows (take i fs) + fresh_rows f ≤ sum_by fresh_rows (take j fs).
Proof.
  intros Hall Hi Hij. rewrite <- (take_drop i (take j fs)), sum_by_app, take_take.
  replace (i `min` j)%nat with i by lia.
  assert (Hd : drop i (take j fs) = f :: drop (Datatypes.S i) (take j fs))
    by (apply drop_S; by rewrite lookup_take_lt).
  rewrite Hd. cbn [sum_by].
  assert (0 ≤ sum_by fresh_rows (drop (Datatypes.S i) (take j fs))); [|lia].
  apply fresh_rows_nonneg. by apply Forall_drop, Forall_take.
Qed.

(** C26: row lineage.  Files without a first row id get consecutive blocks starting
    at the table's counter, so the blocks of a commit do not overlap, lie below the
    new counter and above every block given out before; files that bring an id keep
    it. *)
Theorem row_ids_disjoint (n : Z) (fs : list DataFileEntry) :
  0 ≤ n → Forall (λ f, 0 ≤ df_record_count f) fs → n + sum_by fresh_rows fs < 2 ^ 63 →
  let '(fs', n') := assign_row_ids n fs in
  n' = n + sum_by fresh_rows fs ∧
  (∀ i f id, fs !! i = Some f → df_first_row_id f = Some id → fs' !! i = Some f) ∧
  (∀ i f, fs !! i = Some f → df_first_row_id f = None →
    ∃ id, fs' !! i = Some (set_first_row_id f id) ∧ n ≤ id ∧ id + df_record_count f ≤ n') ∧
  (∀ i j f g idf idg, (i < j)%nat →
    fs !! i = Some f → df_first_row_id f = None → df_first_row_id <$> fs' !! i = Some (Some idf) →
    fs !! j = Some g → df_first_row_id g = None → df_first_row_id <$> fs' !! j = Some (Some idg) →
    idf + df_record_count f ≤ idg).
Proof.
  intros Hn Hall Hlt. pose proof (assign_row_ids_spec n fs Hn Hall Hlt) as Hs.
  destruct (assign_row_ids n fs) as [fs' n']. destruct Hs as (-> & Hlen & Hi).
  split_and!; [done| | |].
  - intros i f id Hf Eid. by rewrite (Hi i f Hf), Eid.
  - intros i f Hf Enone. exists (n + sum_by fresh_rows (take i fs)). rewrite (Hi i f Hf), Enone.
    assert (Hfr : fresh_rows f = df_record_count f) by (unfold fresh_rows; by rewrite Enone).
    pose proof (sum_take_mono fs i (length fs) f Hall Hf (lookup_lt_Some _ _ _ Hf)) as Hm.
    rewrite firstn_all in Hm. pose proof (fresh_rows_nonneg (take i fs) ltac:(by apply Forall_take)).
    split_and!; [done|lia|lia].
  - intros i j f g idf idg Hij Hf Ef Hf' Hg Eg Hg'. rewrite (Hi i f Hf), Ef in Hf'.
    rewrite (Hi j g Hg), Eg in Hg'. injection Hf' as <-. injection Hg' as <-.
    assert (Hfr : fresh_rows f = df_record_count f) by (unfold fresh_rows; by rewrite Ef).
    pose proof (sum_take_mono fs i j f Hall Hf Hij). lia.
Qed.
