(* ===== verification/HadoopTheorems.v ===== *)
(** * The Hadoop catalog keeps its tables

    The version hint names the current metadata; a commit publishes by writing the
    next metadata object and then the hint.  Over stores with reliable reads: a
    commit adds exactly its snapshot, older snapshots stay readable, a commit that
    fails is invisible; loading, creation, evolution and dropping. *)

From S2P Require Import Prelude Core Store Effects Avro Manifest ManifestTheorems Json Puffin FileFormat Catalog CatalogTheorems.

(* ------------------------------------------------------------------ *)
(** ** The version hint                                                *)
(* ------------------------------------------------------------------ *)

Fixpoint all_digits (s : string) : bool :=
  match s with
  | EmptyString => true
  | String c s => match digit_value c with Some _ => true | None => false end && all_digits s
  end.

Lemma pretty_N_go_all_digits n s : all_digits s = true → all_digits (pretty_N_go n s) = true.
Proof.
  revert s. induction (N.lt_wf_0 n) as [n _ IH]; intros s Hs.
  destruct (decide (n = 0)%N) as [->|Hne]; [done|].
  rewrite pretty_N_go_step by lia. apply IH; [apply N.div_lt; lia|].
  cbn [all_digits]. rewrite pretty_N_char_value by (apply N.mod_lt; lia). by rewrite Hs.
Qed.

Lemma to_string_digits z : 0 ≤ z → all_digits (to_string z) = true.
Proof.
  intros Hz. unfold to_string.
  assert (E : pretty z = pretty (Z.to_N z)) by (destruct z; [done|done|lia]).
  rewrite E. unfold pretty, pretty_N. case_decide; [done|]. by apply pretty_N_go_all_digits.
Qed.

Lemma digit_plain c :
  match digit_value c with Some _ => true | None => false end = true →
  is_space c = false ∧ in_range 0 127 (Z.of_N (Ascii.N_of_ascii c)) = true.
Proof.
  unfold digit_value, is_space, in_range. case_decide; [|done]. intros _.
  split; [|by rewrite andb_true_iff, !Z.leb_le; lia].
  rewrite orb_false_iff, andb_false_iff, !Z.leb_gt, Z.eqb_neq. lia.
Qed.

Lemma digits_utf8 s : all_digits s = true → utf8_valid (as_bytes s) = true.
Proof.
  induction s as [|c s IH]; [done|]. cbn [all_digits as_bytes utf8_valid]. intros [Hc Hs]%andb_prop.
  apply digit_plain in Hc as [_ Hc]. rewrite Hc. by apply IH.
Qed.

Lemma digits_trim s : all_digits s = true → trim s = s.
Proof.
  intros Hs. unfold trim.
  assert (E : trim_start s = s).
  { destruct s as [|c s]; [done|]. cbn in Hs |- *. apply andb_prop in Hs as [Hc _].
    by destruct (digit_plain c Hc) as [-> _]. }
  rewrite E. clear E. induction s as [|c s IH]; [done|]. cbn [all_digits] in Hs.
  apply andb_prop in Hs as [Hc Hs]. cbn [trim_end]. rewrite IH by done.
  destruct (digit_plain c Hc) as [-> _]. by destruct s.
Qed.

(** The hint written for a version names it. *)
Lemma parse_version_to_string n : fits 32 n → parse_version (as_bytes (to_string n)) = n.
Proof.
  intros [Hn1 Hn2]. pose proof (to_string_digits n Hn1) as Hd.
  unfold parse_version, from_utf8. rewrite digits_utf8 by done. cbn [default].
  unfold id. rewrite of_as_bytes, digits_trim by done.
  unfold parse_u32. rewrite parse_to_string by (unfold U32_MAX; lia). done.
Qed.

(* ------------------------------------------------------------------ *)
(** ** Well-formed metadata                                            *)
(* ------------------------------------------------------------------ *)

#[local] Notation wf_list l := (Forall (λ j, json_wf j = true) l).

Record meta_wf (meta : IcebergMetadata) : Prop := {
  wf_schemas : wf_list (im_schemas meta);
  wf_specs : wf_list (im_partition_specs meta);
  wf_snapshot_log : wf_list (im_snapshot_log meta);
  wf_metadata_log : wf_list (im_metadata_log meta);
  wf_sort_orders : wf_list (im_sort_orders meta);
  wf_refs : map_Forall (λ _ j, json_wf j = true) (im_refs meta);
}.

(** The JSON library reads back the metadata it wrote. *)
Class MetaLaws `{MetaLib} : Prop := {
  meta_roundtrip meta : meta_wf meta →
    ∃ json, to_json meta = Ok json ∧ utf8_valid (as_bytes json) = true ∧ from_json json = Ok meta;
}.

Lemma mapM_wf (f : Json → option Json) l l' :
  (∀ x y, json_wf x = true → f x = Some y → json_wf y = true) →
  wf_list l → mapM f l = Some l' → wf_list l'.
Proof.
  intros Hf Hl E. apply mapM_Some in E. induction E as [|x y l l' Hxy _ IH]; [constructor|].
  inversion Hl; subst. constructor; eauto.
Qed.

Lemma remap_field_wf ids pf pf' : json_wf pf = true → remap_field ids pf = Some pf' → json_wf pf' = true.
Proof.
  intros Hpf. unfold remap_field. destruct (json_str _) as [name|]; [|by intros [= <-]].
  destruct (ids !! name); [|by intros [= <-]]. by apply json_set_wf.
Qed.

Lemma remap_spec_wf ids spec spec' :
  json_wf spec = true → remap_spec ids spec = Some spec' → json_wf spec' = true.
Proof.
  intros Hs. unfold remap_spec. pose proof (json_index_wf "fields" spec Hs) as Hv.
  destruct (json_array (json_index "fields" spec)) as [fields|] eqn:Ea.
  - destruct (mapM (remap_field ids) fields) as [fields'|] eqn:Em; [|done]. cbn.
    apply json_set_wf; [|done]. apply json_arr_wf.
    eapply mapM_wf; [|by eapply json_array_wf|exact Em]. apply remap_field_wf.
  - cbn. by apply json_set_wf.
Qed.

Lemma schema_patch_wf meta u p :
  meta_wf meta → schema_patch_of meta u = Some p → wf_list (pt_remapped_partition_specs p).
Proof.
  intros Hwf. unfold schema_patch_of. destruct (mapM _ _) as [specs|] eqn:E; [|done].
  cbn. intros [= <-]. cbn. eapply mapM_wf; [apply remap_spec_wf|apply (wf_specs _ Hwf)|exact E].
Qed.

(** Applying a commit whose new schema is well formed. *)
Lemma apply_commit_wf meta a meta' :
  meta_wf meta →
  match ca_schema_patch a with
  | Some p => wf_list (pt_new_schema_fields p) ∧ wf_list (pt_remapped_partition_specs p)
  | None => True
  end →
  apply_commit meta a = Some meta' → meta_wf meta'.
Proof.
  intros Hwf Hp. unfold apply_commit. destruct (ca_schema_patch a) as [p|]; cbn.
  - destruct Hp as [Hf Hs]. destruct (patch_first_schema _ _) as [schemas|] eqn:E; [|done].
    cbn. intros [= <-]. split; cbn; try apply Hwf; [|done].
    pose proof (wf_schemas _ Hwf) as Hsc. unfold patch_first_schema in E.
    destruct (im_schemas meta) as [|s rest]; [by injection E as <-|].
    destruct (json_set _ _ s) as [s'|] eqn:Es; [|done]. injection E as <-.
    inversion Hsc; subst. constructor; [|done]. eapply json_set_wf; [|done|exact Es]. by apply json_arr_wf.
  - intros [= <-]. split; cbn; apply Hwf.
Qed.

(* ------------------------------------------------------------------ *)
(** ** Field ids                                                       *)
(* ------------------------------------------------------------------ *)

Definition field_id (f : Json) : option Z := json_i64 (json_index "id" f).
Definition schema_field_list (schema : Json) : list Json :=
  default [] (json_array (json_index "fields" schema)).

Lemma rename_field_id rn f f' :
  rename_field rn f = Some f' → field_id f' = field_id f ∧ (json_wf f = true → json_wf f' = true).
Proof.
  unfold rename_field. case_bool_decide; [|by intros [= <-]]. intros E. split.
  - unfold field_id, json_index. by rewrite (json_get_set_ne "id" "name" _ _ _ ltac:(done) E).
  - intros Hf. by apply (json_set_wf "name" (JStr rn.2) f f').
Qed.

Lemma apply_renames_ids rns fs fs' :
  apply_renames rns fs = Some fs' →
  field_id <$> fs' = field_id <$> fs ∧ (wf_list fs → wf_list fs').
Proof.
  unfold apply_renames. revert fs. induction rns as [|rn rns IH]; intros fs; cbn [foldl].
  { by intros [= <-]. }
  destruct (mapM (rename_field rn) fs) as [fs1|] eqn:E1; cbn.
  - rewrite E1. intros E. destruct (IH fs1 E) as [-> Hwf]. split.
    + apply mapM_Some in E1. clear -E1. induction E1 as [|f f' fs fs' Hf _ IH]; [done|].
      rewrite !fmap_cons. f_equal; [apply (rename_field_id _ _ _ Hf)|done].
    + intros Hfs. apply Hwf. eapply mapM_wf; [|exact Hfs|exact E1].
      intros x y Hx Hxy. by apply (rename_field_id _ _ _ Hxy).
  - rewrite E1. intros E. exfalso. clear -E. induction rns; [done|by apply IHrns].
Qed.

Definition add_wf (add : AddColumnRequest) : Prop :=
  (∀ d, ac_initial_default add = Some d → json_wf d = true) ∧
  (∀ d, ac_write_default add = Some d → json_wf d = true).

Lemma set_opt_spec k v f :
  k ≠ "id" → (∀ x, v = Some x → json_wf x = true) → json_wf f = true →
  field_id (set_opt k v f) = field_id f ∧ json_wf (set_opt k v f) = true.
Proof.
  intros Hk Hv Hf. unfold set_opt. destruct v as [x|]; [|done].
  destruct (json_set k x f) as [f'|] eqn:E; [|done]. split.
  - unfold field_id, json_index. by rewrite (json_get_set_ne "id" k x f f').
  - eapply json_set_wf; [by apply Hv|done|exact E].
Qed.

Lemma added_field_spec id add :
  fits_i32 id → add_wf add →
  field_id (added_field id add) = Some id ∧ json_wf (added_field id add) = true.
Proof.
  intros Hid [Hi Hw]. unfold added_field. cbv zeta. set (f0 := json_object _).
  assert (H0 : field_id f0 = Some id ∧ json_wf f0 = true).
  { split; [|by apply json_object_wf]. unfold field_id.
    change (json_index "id" f0) with (JInt id). unfold json_i64.
    by rewrite decide_True by (unfold fits_i32 in Hid; lia). }
  destruct H0 as [E0 W0].
  edestruct (set_opt_spec "initial-default" (ac_initial_default add ∪ ac_write_default add) f0) as [E1 W1];
    [done| |done|].
  { intros x Hx. destruct (ac_initial_default add) as [d|] eqn:E1, (ac_write_default add) as [w|] eqn:E2;
      (injection Hx as <- || done); eauto. }
  edestruct (set_opt_spec "write-default" (ac_write_default add)) as [E2 W2]; [done|exact Hw|exact W1|].
  edestruct (set_opt_spec "doc" (JStr <$> ac_doc add)) as [E3 W3]; [done| |exact W2|].
  { intros x. destruct (ac_doc add); [by intros [= <-]|done]. }
  by rewrite E3, E2, E1, E0.
Qed.

Lemma as_i32_id n : fits_i32 n → as_i32 n = n.
Proof.
  unfold fits_i32, as_i32, signed. intros Hn. destruct (decide (0 ≤ n)) as [H0|H0].
  - rewrite wrap_id by (unfold fits; lia). by rewrite decide_True by lia.
  - unfold wrap. rewrite <- (Z.mod_unique n (2 ^ 32) (-1) (n + 2 ^ 32)) by lia.
    rewrite decide_False by lia. lia.
Qed.

Lemma add_fields_spec last adds :
  fits_i32 last → fits_i32 (last + Zlen adds) → Forall add_wf adds →
  let '(fs, last') := add_fields last adds in
  field_id <$> fs = Some <$> seqZ (last + 1) (Zlen adds) ∧ wf_list fs ∧ last' = last + Zlen adds.
Proof.
  intros Hl Hn Hall. revert last Hl Hn. unfold fits_i32.
  induction Hall as [|add adds Ha _ IH]; intros last Hl Hn; [cbn; split_and!; [done|done|lia]|].
  cbn [length] in Hn. cbn [add_fields].
  rewrite as_i32_id by (unfold fits_i32; lia). specialize (IH (last + 1) ltac:(lia) ltac:(lia)).
  destruct (add_fields (last + 1) adds) as [fs last']. destruct IH as (E & W & ->).
  destruct (added_field_spec (last + 1) add ltac:(unfold fits_i32; lia) Ha) as [Ef Wf].
  cbn [length]. split_and!; [|by constructor|lia].
  rewrite seqZ_cons, !fmap_cons, Ef, E by lia. do 3 f_equal; lia.
Qed.

(* ------------------------------------------------------------------ *)
(** ** Loading and saving                                              *)
(* ------------------------------------------------------------------ *)

Section Hadoop.
Context {S : Type} `{ReliableReads S}.
Context `{AvroLaws} `{SerdeLaws} `{JsonLib} `{BincodeLib} `{MetaLaws}.
Implicit Types m : gmap string bytes.

(** The hint of [root] names version [v], whose object holds [meta]. *)
Definition stored m (root : string) (v : Z) (meta : IcebergMetadata) : Prop :=
  ∃ hint json,
    m !! obj_path root OHint = Some hint ∧ parse_version hint = v ∧
    m !! obj_path root (OMeta v) = Some (as_bytes json) ∧
    utf8_valid (as_bytes json) = true ∧ from_json json = Ok meta.

Lemma stored_agree m m' root v meta :
  m' !! obj_path root OHint = m !! obj_path root OHint →
  m' !! obj_path root (OMeta v) = m !! obj_path root (OMeta v) →
  stored m root v meta → stored m' root v meta.
Proof. intros E1 E2 (hint & json & ?). exists hint, json. by rewrite E1, E2. Qed.

Lemma wp_current_version m root Q :
  Q (Ret (Ok (match m !! obj_path root OHint with Some b => parse_version b | None => 0 end))) m →
  wp m (current_version root) Q.
Proof.
  intros HQ. apply wp_bind, wp_get, wp_ret. revert HQ.
  change (version_hint_path root) with (obj_path root OHint). by destruct (m !! obj_path root OHint).
Qed.

Lemma wp_load m root v meta Q :
  stored m root v meta → Q (Ret (Ok meta)) m → wp m (load_raw_metadata root) Q.
Proof.
  intros (hint & json & Hh & Hv & Hm & Hu & Hj) HQ.
  apply wp_bind, wp_current_version. rewrite Hh, Hv.
  apply wp_bind, wp_get_. change (versioned_metadata_path root v) with (obj_path root (OMeta v)).
  rewrite Hm. cbn. apply wp_bind, wp_result. unfold from_utf8. rewrite Hu. cbn.
  apply wp_result. by rewrite of_as_bytes, Hj.
Qed.

Definition current_in m (root : string) : Z :=
  match m !! obj_path root OHint with Some b => parse_version b | None => 0 end.

(** Saving publishes the next version, or changes at most its unpublished object. *)
Lemma wp_save m root meta' :
  meta_wf meta' → fits 32 (current_in m root + 1) →
  wp m (save_metadata root meta') (λ o m',
    match o with
    | Ret (Ok _) => stored m' root (current_in m root + 1) meta' ∧
        agree_except (λ p, p = obj_path root (OMeta (current_in m root + 1)) ∨ p = obj_path root OHint) m m'
    | Ret (Err _) => ¬ puts_succeed S ∧
        agree_except (λ p, p = obj_path root (OMeta (current_in m root + 1))) m m'
    | Panic => False
    end).
Proof.
  intros Hwf Hn. destruct (meta_roundtrip meta' Hwf) as (json & Hj & Hu & Hf).
  set (v := current_in m root) in *.
  apply wp_bind, wp_current_version. fold (current_in m root). fold v.
  rewrite wrap_id by done. apply wp_bind, wp_result. rewrite Hj.
  change (versioned_metadata_path root (v + 1)) with (obj_path root (OMeta (v + 1))).
  change (version_hint_path root) with (obj_path root OHint).
  apply wp_bind, wp_put_; [|intros e He; split; [done|apply agree_refl]].
  apply wp_put_; [|intros e He; split; [done|by apply agree_insert]].
  split.
  - exists (as_bytes (to_string (v + 1))), json. rewrite lookup_insert_eq.
    rewrite lookup_insert_ne by by apply obj_ne. rewrite lookup_insert_eq.
    by rewrite parse_version_to_string.
  - do 2 (apply agree_insert; [naive_solver|]). apply agree_refl.
Qed.

(* ------------------------------------------------------------------ *)
(** ** Commits                                                         *)
(* ------------------------------------------------------------------ *)

(** A published, well-formed table. *)
Record table m (root : string) (v : Z) (meta : IcebergMetadata) : Prop := {
  t_stored : stored m root v meta;
  t_ok : table_ok m root meta;
  t_wf : meta_wf meta;
}.

(** The schema update of a commit, when present, is made of objects. *)
Definition schema_update_ok (meta : IcebergMetadata) (sn : NewSnapshot) : Prop :=
  match ns_iceberg_schema sn with
  | None => True
  | Some u => wf_list (su_fields u) ∧ is_Some (schema_patch_of meta u) ∧
      is_Some (patch_first_schema (su_fields u) (im_schemas meta))
  end.

(** What is kept of the current listing: all of it, or nothing. *)
Definition kept {A} (op : SnapshotOperation) (current : AilakeResult (list A)) (old : list A) : Prop :=
  if inherits op then current = Ok old else old = [].

(** The table after a commit of [sn]. *)
Record committed m (root warehouse : string) (v : Z) (meta : IcebergMetadata) (sn : NewSnapshot) m'
    (meta' : IcebergMetadata) : Prop := {
  c_table : table m' root (v + 1) meta';
  c_ids : snap_ids meta' = snap_ids meta ++ [ns_snapshot_id sn];
  c_seq : im_last_sequence_number meta' = commit_seq meta;
  c_rows : im_next_row_id meta' = (commit_files warehouse meta (ns_files sn)).2;
  c_files old : kept (ns_operation sn) (files_in m meta None) old →
    files_in m' meta' None =
      Ok (old ++ (read_back (commit_seq meta) (commit_spec meta) <$> committed_files warehouse meta sn));
  c_deletes old : kept (ns_operation sn) (deletes_in m meta None) old →
    deletes_in m' meta' None = Ok (old ++ (delete_back (commit_seq meta) <$> committed_deletes root sn));
  c_history sid : sid ∈ snap_ids meta →
    files_in m' meta' (Some sid) = files_in m meta (Some sid) ∧
    deletes_in m' meta' (Some sid) = deletes_in m meta (Some sid);
  c_frame : agree_except (λ p, ∃ o, p = obj_path root o) m m';
}.

(** The table as it was: same metadata, same listings. *)
Definition same_listings m (root : string) (v : Z) (meta : IcebergMetadata) m' : Prop :=
  table m' root v meta ∧
  ∀ sid, files_in m' meta sid = files_in m meta sid ∧ deletes_in m' meta sid = deletes_in m meta sid.

(** And no object outside the catalog was touched. *)
Definition unchanged m (root : string) (v : Z) (meta : IcebergMetadata) m' : Prop :=
  same_listings m root v meta m' ∧ agree_except (λ p, ∃ o, p = obj_path root o) m m'.

Lemma meta_objects_agree root ids v m m' :
  agree_except (λ p, p = obj_path root (OMeta v) ∨ p = obj_path root OHint) m m' → agree_on root ids m m'.
Proof.
  intros Hag i Hi o Ho. apply Hag. intros [E|E]; apply obj_path_inj in E as ->; set_solver.
Qed.

Lemma apply_commit_exists meta sn root warehouse now m a m' :
  schema_update_ok meta sn → built root warehouse meta sn now m a m' → meta_wf meta →
  ∃ meta', apply_commit meta a = Some meta' ∧ meta_wf meta'.
Proof.
  intros Hu Hb Hwf. pose proof (built_patch _ _ _ _ _ _ _ _ Hb) as Hp. unfold schema_update_ok in Hu.
  assert (∃ meta', apply_commit meta a = Some meta') as [meta' Ha].
  { unfold apply_commit. destruct (ns_iceberg_schema sn) as [u|]; [|rewrite Hp; eauto].
    destruct Hp as [Hp [p Ep]]. rewrite Hp, Ep. destruct Hu as (_ & _ & [sch Esch]).
    unfold schema_patch_of in Ep. destruct (mapM _ _); [|done]. injection Ep as <-. cbn.
    rewrite Esch. cbn. eauto. }
  exists meta'. split; [done|]. eapply apply_commit_wf; [done| |done].
  destruct (ns_iceberg_schema sn) as [u|]; [|by rewrite Hp].
  destruct Hp as [Hp [p Ep]]. rewrite Hp, Ep. split; [|by eapply schema_patch_wf].
  unfold schema_patch_of in Ep. destruct (mapM _ _); [|done]. injection Ep as <-. apply Hu.
Qed.

Section OneCommit.
Context m (root warehouse : string) (v : Z) (meta : IcebergMetadata) (sn : NewSnapshot) (now : Z).
Context (Ht : table m root v meta) (Hin : commit_input m root warehouse meta sn).
Context (Hu : schema_update_ok meta sn) (Hv : fits 32 (v + 1)).

Lemma stored_current : current_in m root = v.
Proof. unfold current_in. destruct (t_stored _ _ _ _ Ht) as (hint & json & -> & <- & _). done. Qed.

(** From the objects written to the metadata published. *)
Lemma built_committed a m1 meta' m2 :
  built root warehouse meta sn now m a m1 → apply_commit meta a = Some meta' → meta_wf meta' →
  stored m2 root (v + 1) meta' →
  agree_except (λ p, p = obj_path root (OMeta (v + 1)) ∨ p = obj_path root OHint) m1 m2 →
  committed m root warehouse v meta sn m2 meta'.
Proof.
  intros Hb Ha Hwf Hst Hag.
  destruct (inherited_exists m root meta (ns_operation sn) (t_ok _ _ _ _ Ht)) as (ms & Hms & Hmsok).
  pose proof (commit_table_ok _ _ _ _ _ _ _ _ _ _ (t_ok _ _ _ _ Ht) Hin Hb Ha Hms Hmsok) as Hok1.
  destruct (listings_agree m1 m2 root meta' Hok1 (meta_objects_agree _ _ _ _ _ Hag)) as [Hok2 Hl].
  destruct (apply_commit_spec _ _ _ Ha) as (Hsn & _ & Hseq & _ & Hrow).
  split; try done.
  - unfold snap_ids. rewrite Hsn, fmap_app. cbn. by rewrite (built_id _ _ _ _ _ _ _ _ Hb).
  - by rewrite Hseq, (built_seq _ _ _ _ _ _ _ _ Hb).
  - rewrite Hrow, (built_rows _ _ _ _ _ _ _ _ Hb). unfold commit_files. by destruct (3 <=? _).
  - intros old Hold. rewrite (proj1 (Hl None)). eapply commit_lists_files; try done; [apply Ht|].
    unfold kept, inherited in *. destruct (inherits _); [|by subst].
    unfold files_in in Hold. by rewrite Hms in Hold.
  - intros old Hold. rewrite (proj2 (Hl None)). eapply commit_lists_deletes; try done; [apply Ht|].
    unfold kept, inherited in *. destruct (inherits _); [|by subst].
    unfold deletes_in in Hold. by rewrite Hms in Hold.
  - intros sid Hsid. destruct (Hl (Some sid)) as [-> ->].
    eapply commit_keeps_snapshot; try done. apply Ht.
  - eapply agree_trans; eapply agree_weaken; [|apply Hb| |exact Hag]; intros p.
    + intros (o & _ & ->). eauto.
    + intros [->| ->]; eauto.
Qed.

(** What an unpublished commit leaves behind is not part of the table. *)
Lemma unpublished_unchanged m' :
  agree_except (λ p, commit_objects root (ns_snapshot_id sn) p ∨ p = obj_path root (OMeta (v + 1))) m m' →
  unchanged m root v meta m'.
Proof.
  intros Hag.
  assert (Hon : agree_on root (snap_ids meta) m m').
  { intros i Hi o Ho. apply Hag. intros [HX|E].
    - revert HX. apply not_commit_object. intros Hc. apply (in_fresh _ _ _ _ _ Hin).
      assert (i = ns_snapshot_id sn) as <- by set_solver. done.
    - apply obj_path_inj in E as ->. set_solver. }
  destruct (listings_agree m m' root meta (t_ok _ _ _ _ Ht) Hon) as [Hok Hl].
  split; [|eapply agree_weaken; [|exact Hag]; intros p [(o & _ & ->)| ->]; eauto].
  split; [|done]. split; [|done|apply Ht].
  eapply stored_agree; [| |apply Ht]; apply Hag; intros [HX|E];
    try (revert HX; apply not_commit_object; set_solver); apply obj_path_inj in E; try done.
  injection E. lia.
Qed.

Lemma wp_commit_locked :
  wp m (commit_locked root warehouse sn now) (λ o m',
    match o with
    | Ret (Ok r) => r = ns_snapshot_id sn ∧ ∃ meta', committed m root warehouse v meta sn m' meta'
    | Ret (Err _) => ¬ puts_succeed S ∧ unchanged m root v meta m'
    | Panic => False
    end).
Proof.
  apply wp_bind. eapply wp_load; [apply Ht|]. apply wp_bind, wp_bind.
  apply wp_build_commit.
  { unfold patch_applies, schema_update_ok in *. destruct (ns_iceberg_schema sn); [apply Hu|done]. }
  2:{ intros e m' He Hag. split; [done|]. apply unpublished_unchanged.
      eapply agree_weaken; [|exact Hag]. naive_solver. }
  intros a m1 Hb. destruct (apply_commit_exists _ _ _ _ _ _ _ _ Hu Hb (t_wf _ _ _ _ Ht)) as (meta' & Ha & Hwf).
  apply wp_bind, wp_outcome. rewrite Ha. apply wp_ret.
  assert (Hcur : current_in m1 root = v).
  { rewrite <- stored_current. unfold current_in.
    rewrite (built_agree _ _ _ _ _ _ _ _ Hb); [done|]. apply not_commit_object. set_solver. }
  apply wp_bind. eapply wp_mono; [apply (wp_save m1 root meta' Hwf); by rewrite Hcur|].
  rewrite Hcur. intros o m2 Ho. destruct o as [[[]|e]|]; [| |done].
  - apply wp_ret. split; [apply Hb|]. exists meta'. destruct Ho as [Hst Hag]. by eapply built_committed.
  - destruct Ho as [He Hag]. split; [done|]. apply unpublished_unchanged.
    eapply agree_trans; eapply agree_weaken; [|apply Hb| |exact Hag]; naive_solver.
Qed.

End OneCommit.

(** ** With the lock *)

(** Contents that differ in the lock object only. *)
Definition but_lock (root : string) m m' : Prop := agree_except (λ p, p = obj_path root OLock) m m'.

Lemma but_lock_agree root ids m m' : but_lock root m m' → agree_on root ids m m'.
Proof. intros Hag i Hi o Ho. apply Hag, obj_ne. set_solver. Qed.

Lemma table_but_lock root v meta m m' :
  but_lock root m m' → table m root v meta → unchanged m root v meta m'.
Proof.
  intros Hag Ht.
  destruct (listings_agree m m' root meta (t_ok _ _ _ _ Ht) (but_lock_agree _ _ _ _ Hag)) as [Hok Hl].
  split; [|eapply agree_weaken; [|exact Hag]; intros p ->; eauto].
  split; [|done]. split; [|done|apply Ht].
  eapply stored_agree; [| |apply Ht]; by apply Hag, obj_ne.
Qed.

Lemma unchanged_trans root v meta m m1 m2 :
  unchanged m root v meta m1 → unchanged m1 root v meta m2 → unchanged m root v meta m2.
Proof.
  intros [[_ Hl1] Hf1] [[Ht2 Hl2] Hf2]. split; [|by eapply agree_trans]. split; [done|]. intros sid.
  destruct (Hl1 sid) as [<- <-]. apply Hl2.
Qed.

Lemma committed_but_lock root warehouse v meta sn m m0 m1 m2 meta' :
  but_lock root m m0 → but_lock root m1 m2 → table m root v meta →
  committed m0 root warehouse v meta sn m1 meta' → committed m root warehouse v meta sn m2 meta'.
Proof.
  intros Ha Hb Ht Hc. destruct (table_but_lock _ _ _ _ _ Ha Ht) as [[_ Hl0] _].
  destruct (table_but_lock _ _ _ _ _ Hb (c_table _ _ _ _ _ _ _ _ Hc)) as [[Ht2 Hl2] _].
  split; try apply Hc; [done|..].
  - intros old. rewrite <- (proj1 (Hl0 None)), (proj1 (Hl2 None)). apply (c_files _ _ _ _ _ _ _ _ Hc).
  - intros old. rewrite <- (proj2 (Hl0 None)), (proj2 (Hl2 None)). apply (c_deletes _ _ _ _ _ _ _ _ Hc).
  - intros sid Hsid. destruct (Hl0 (Some sid)) as [<- <-]. destruct (Hl2 (Some sid)) as [-> ->].
    by apply (c_history _ _ _ _ _ _ _ _ Hc).
  - eapply agree_trans; [|eapply agree_trans; [apply (c_frame _ _ _ _ _ _ _ _ Hc)|]];
      (eapply agree_weaken; [|exact Ha || exact Hb]); intros p ->; eauto.
Qed.

Context `{!LockStore S} `{!LockLaws S}.

(** The outcomes of [commit_snapshot] once the lock is taken. *)
Definition commit_outcome m (root warehouse : string) (v : Z) (meta : IcebergMetadata) (sn : NewSnapshot)
    m' (released : AilakeResult unit) (o : outcome AilakeError Z) : Prop :=
  (∃ meta', committed m root warehouse v meta sn m' meta' ∧
     o = Ret (match released with Ok _ => Ok (ns_snapshot_id sn) | Err e => Err e end)) ∨
  (¬ puts_succeed S ∧ unchanged m root v meta m' ∧ ∃ e, o = Ret (Err e)).

Lemma commit_snapshot_outcome s root warehouse v meta sn now :
  store_inv s → table (view s) root v meta → commit_input (view s) root warehouse meta sn →
  schema_update_ok meta sn → fits 32 (v + 1) →
  (try_acquire_lock s (obj_path root OLock)).2 = Ok true →
  let '(s', o) := commit_snapshot root warehouse sn now s in
  store_inv s' ∧ ∃ s1, store_inv s1 ∧
    commit_outcome (view s) root warehouse v meta sn (view s')
      (release_lock s1 (obj_path root OLock)).2 o.
Proof.
  intros Hi Ht Hin Hu Hv Hl. unfold commit_snapshot, io_try, io_op.
  unfold mbind, io_bind. change (commit_lock_path root) with (obj_path root OLock).
  pose proof (acquire_frame s (obj_path root OLock) Hi) as Hacq.
  destruct (try_acquire_lock s (obj_path root OLock)) as [s0 r0]. cbn in Hl. subst r0.
  destruct Hacq as [Hi0 Hag0]. cbn [io_result negb].
  assert (Hbl0 : but_lock root (view s) (view s0)) by (intros q Hq; by apply Hag0).
  destruct (table_but_lock _ _ _ _ _ Hbl0 Ht) as [[Ht0 Hl0] _].
  assert (Hin0 : commit_input (view s0) root warehouse meta sn)
    by (eapply commit_input_agree; [apply Ht|by apply but_lock_agree|done]).
  destruct (wp_run s0 (view s0) _ _ (wp_commit_locked _ _ _ _ _ _ now Ht0 Hin0 Hu Hv) ltac:(done))
    as (m1 & [Hi1 Hv1] & HQ).
  destruct (commit_locked root warehouse sn now s0) as [s1 o]. cbn [fst snd] in *. subst m1.
  destruct o as [result|]; [|done].
  pose proof (release_frame s1 (obj_path root OLock) Hi1) as Hrel.
  destruct (release_lock s1 (obj_path root OLock)) as [s2 rel] eqn:Er. destruct Hrel as [Hi2 Hag2].
  assert (Hbl2 : but_lock root (view s1) (view s2)) by (intros q Hq; by apply Hag2).
  split; [done|]. exists s1. split; [done|]. rewrite Er. cbn [snd].
  destruct result as [r|e]; [left|right].
  - destruct HQ as (-> & meta' & Hc). exists meta'. split; [by eapply committed_but_lock|by destruct rel].
  - destruct HQ as [Hp Hunc]. split; [done|]. split; [|eauto].
    eapply unchanged_trans; [by apply table_but_lock|]. eapply unchanged_trans; [exact Hunc|].
    apply table_but_lock; [done|apply Hunc].
Qed.

(** What the listings of a published table return. *)
Lemma list_files_table s root v meta sid :
  store_inv s → table (view s) root v meta →
  (list_files root sid s).2 = Ret (files_in (view s) meta sid).
Proof.
  intros Hi Ht.
  assert (Hwp : wp (view s) (list_files root sid) (λ o _, o = Ret (files_in (view s) meta sid)))
    by (apply wp_bind; eapply wp_load; [apply Ht|]; by apply wp_list_files).
  by destruct (wp_run s (view s) _ _ Hwp ltac:(done)) as (? & _ & ?).
Qed.

Lemma list_deletes_table s root v meta sid :
  store_inv s → table (view s) root v meta →
  (list_equality_deletes root sid s).2 = Ret (deletes_in (view s) meta sid).
Proof.
  intros Hi Ht.
  assert (Hwp : wp (view s) (list_equality_deletes root sid) (λ o _, o = Ret (deletes_in (view s) meta sid)))
    by (apply wp_bind; eapply wp_load; [apply Ht|]; by apply wp_list_deletes).
  by destruct (wp_run s (view s) _ _ Hwp ltac:(done)) as (? & _ & ?).
Qed.

(** The current listing of a well-formed table exists. *)
Lemma current_listing m root v meta :
  table m root v meta → (∃ fs, files_in m meta None = Ok fs) ∧ (∃ ds, deletes_in m meta None = Ok ds).
Proof.
  intros Ht. destruct (inherited_exists m root meta Append (t_ok _ _ _ _ Ht)) as (ms & Hms & Hok).
  unfold files_in, deletes_in. cbn in Hms. rewrite Hms. by eapply table_listable.
Qed.

(** The commit may start: the table is published and the inputs are in range. *)
Record commit_ready (s : S) (root warehouse : string) (v : Z) (meta : IcebergMetadata)
    (sn : NewSnapshot) : Prop := {
  r_inv : store_inv s;
  r_table : table (view s) root v meta;
  r_input : commit_input (view s) root warehouse meta sn;
  r_schema : schema_update_ok meta sn;
  r_version : fits 32 (v + 1);
  r_lock : (try_acquire_lock s (obj_path root OLock)).2 = Ok true;
}.

(** The lock of the table can be taken and released. *)
Definition lock_works (root : string) : Prop :=
  ∀ s : S, store_inv s → (try_acquire_lock s (obj_path root OLock)).2 = Ok true ∧
    (release_lock s (obj_path root OLock)).2 = Ok tt.

(** A commit as a program over contents. *)
Lemma wp_commit m root warehouse v meta sn now Q :
  table m root v meta → commit_input m root warehouse meta sn → schema_update_ok meta sn →
  fits 32 (v + 1) → lock_works root →
  (∀ m' meta', committed m root warehouse v meta sn m' meta' → Q (Ret (Ok (ns_snapshot_id sn))) m') →
  (∀ e m', ¬ puts_succeed S → unchanged m root v meta m' → Q (Ret (Err e)) m') →
  wp m (commit_snapshot root warehouse sn now) Q.
Proof.
  intros Ht Hin Hu Hv Hl HO HE s [Hi <-].
  pose proof (commit_snapshot_outcome s root warehouse v meta sn now Hi Ht Hin Hu Hv (proj1 (Hl s Hi))) as Hc.
  destruct (commit_snapshot root warehouse sn now s) as [s' o].
  destruct Hc as (Hi' & s1 & Hi1 & Ho). exists s', o, (view s'). split; [done|]. split; [done|].
  destruct Ho as [(meta' & Hc & ->)|(Hn & Hun & e & ->)]; [|by apply HE].
  rewrite (proj2 (Hl s1 Hi1)). by eapply HO.
Qed.

(** Whether the lock of the table is granted. *)
Definition granted (s : S) (root : string) : Prop :=
  (try_acquire_lock s (obj_path root OLock)).2 = Ok true.
#[export] Instance granted_dec s root : Decision (granted s root).
Proof.
  unfold granted. destruct (try_acquire_lock s (obj_path root OLock)).2 as [[|]|]; [by left|by right..].
Defined.

(** A commit that is not granted the lock. *)
Lemma commit_refused s root warehouse v meta sn now :
  store_inv s → table (view s) root v meta → ¬ granted s root →
  ∃ s' e, commit_snapshot root warehouse sn now s = (s', Ret (Err e)) ∧ store_inv s' ∧
    unchanged (view s) root v meta (view s').
Proof.
  intros Hi Ht Hl. unfold commit_snapshot, io_try, io_op, mbind, io_bind, granted in *.
  change (commit_lock_path root) with (obj_path root OLock).
  pose proof (acquire_frame s (obj_path root OLock) Hi) as Hacq.
  destruct (try_acquire_lock s (obj_path root OLock)) as [s0 r0]. destruct Hacq as [Hi0 Hag0].
  assert (Hun : unchanged (view s) root v meta (view s0)).
  { apply table_but_lock; [|done]. intros q Hq. by apply Hag0. }
  destruct r0 as [[|]|e]; cbn in Hl |- *; [done|by exists s0, CatalogError|by exists s0, e].
Qed.

(** The same on any lock: a commit that reports an error may have happened when it was
    the release of the lock that failed. *)
Lemma wp_commit_any m root warehouse v meta sn now Q :
  table m root v meta → commit_input m root warehouse meta sn → schema_update_ok meta sn →
  fits 32 (v + 1) →
  (∀ r m' meta', committed m root warehouse v meta sn m' meta' → Q (Ret r) m') →
  (∀ e m', unchanged m root v meta m' → Q (Ret (Err e)) m') →
  wp m (commit_snapshot root warehouse sn now) Q.
Proof.
  intros Ht Hin Hu Hv HO HE s [Hi <-]. destruct (decide (granted s root)) as [Hl|Hl].
  - pose proof (commit_snapshot_outcome s root warehouse v meta sn now Hi Ht Hin Hu Hv Hl) as Hc.
    destruct (commit_snapshot root warehouse sn now s) as [s' o].
    destruct Hc as (Hi' & s1 & Hi1 & Ho). exists s', o, (view s'). split; [done|]. split; [done|].
    destruct Ho as [(meta' & Hc & ->)|(_ & Hun & e & ->)]; [by eapply HO|by apply HE].
  - destruct (commit_refused s root warehouse v meta sn now Hi Ht Hl) as (s' & e & E & Hi' & Hun).
    eexists s', _, (view s'). split; [exact E|]. split; [done|]. by apply HE.
Qed.

(** C3: on a store whose reads and writes work, a commit returns its snapshot id,
    and the next listing has the files that were there (for an append or delete; none
    for an overwrite or replace) followed by the committed ones with the commit's
    sequence number; the equality deletes likewise. *)
Theorem commit_then_list (s : S) (root warehouse : string) (v : Z) (meta : IcebergMetadata)
    (sn : NewSnapshot) (now : Z) :
  commit_ready s root warehouse v meta sn → puts_succeed S →
  (∀ s1, store_inv s1 → (release_lock s1 (obj_path root OLock)).2 = Ok tt) →
  let '(s', o) := commit_snapshot root warehouse sn now s in
  let keep {A} (l : list A) := if inherits (ns_operation sn) then l else [] in
  o = Ret (Ok (ns_snapshot_id sn)) ∧
  ∃ files deletes,
    (list_files root None s).2 = Ret (Ok files) ∧
    (list_equality_deletes root None s).2 = Ret (Ok deletes) ∧
    (list_files root None s').2 = Ret (Ok (keep files ++
      (read_back (commit_seq meta) (commit_spec meta) <$> committed_files warehouse meta sn))) ∧
    (list_equality_deletes root None s').2 = Ret (Ok (keep deletes ++
      (delete_back (commit_seq meta) <$> committed_deletes root sn))).
Proof.
  intros [Hi Ht Hin Hu Hv Hl] Hput Hrel.
  pose proof (commit_snapshot_outcome s root warehouse v meta sn now Hi Ht Hin Hu Hv Hl) as Hc.
  destruct (commit_snapshot root warehouse sn now s) as [s' o].
  destruct Hc as (Hi' & s1 & Hi1 & [(meta' & Hc & ->)|(Hn & _)]); [|done].
  rewrite Hrel by done. split; [done|].
  destruct (current_listing _ _ _ _ Ht) as [[fs Hfs] [ds Hds]]. exists fs, ds.
  rewrite (list_files_table s root v meta), (list_deletes_table s root v meta) by done.
  rewrite (list_files_table s' root (v + 1) meta'), (list_deletes_table s' root (v + 1) meta') by (done || apply Hc).
  rewrite Hfs, Hds. split_and!; [done|done| |]; f_equal.
  - apply (c_files _ _ _ _ _ _ _ _ Hc). unfold kept. by destruct (inherits _).
  - apply (c_deletes _ _ _ _ _ _ _ _ Hc). unfold kept. by destruct (inherits _).
Qed.


(** ** Histories *)

(** Any number of commits one after the other, successful or not. *)
Inductive commit_history (root warehouse : string) : S → S → Prop :=
| history_start s : commit_history root warehouse s s
| history_commit s1 s2 s3 v meta sn now o :
    commit_history root warehouse s1 s2 →
    commit_ready s2 root warehouse v meta sn →
    commit_snapshot root warehouse sn now s2 = (s3, o) →
    commit_history root warehouse s1 s3.

Lemma stored_fun m root v v' meta meta' :
  stored m root v meta → stored m root v' meta' → v = v' ∧ meta = meta'.
Proof.
  intros (h1 & j1 & E1 & <- & F1 & _ & G1) (h2 & j2 & E2 & <- & F2 & _ & G2).
  rewrite E1 in E2. injection E2 as <-. rewrite F1 in F2. injection F2 as F2.
  apply as_bytes_inj in F2 as <-. rewrite G1 in G2. by injection G2 as <-.
Qed.

(** What a history preserves. *)
Definition extends m (meta : IcebergMetadata) m' (meta' : IcebergMetadata) : Prop :=
  snap_ids meta `prefix_of` snap_ids meta' ∧
  ∀ sid, sid ∈ snap_ids meta →
    files_in m' meta' (Some sid) = files_in m meta (Some sid) ∧
    deletes_in m' meta' (Some sid) = deletes_in m meta (Some sid).

Lemma extends_trans m1 meta1 m2 meta2 m3 meta3 :
  extends m1 meta1 m2 meta2 → extends m2 meta2 m3 meta3 → extends m1 meta1 m3 meta3.
Proof.
  intros [Hp Hl] [Hp' Hl']. split; [by etrans|]. intros sid Hsid.
  destruct (Hl sid Hsid) as [<- <-]. apply Hl'. destruct Hp as [k ->]. set_solver.
Qed.

Lemma history_extends root warehouse s s' v meta :
  store_inv s → table (view s) root v meta → commit_history root warehouse s s' →
  store_inv s' ∧ ∃ v' meta', table (view s') root v' meta' ∧ extends (view s) meta (view s') meta'.
Proof.
  intros Hi Ht Hh. revert Hi v meta Ht.
  induction Hh as [s|s1 s2 s3 v2 meta2 sn now o _ IH [Hi2 Ht2 Hin Hu Hv Hl] Hc]; intros Hi v meta Ht.
  { split; [done|]. exists v, meta. split; [done|]. by split. }
  destruct (IH Hi v meta Ht) as (_ & v' & meta' & Ht' & Hex).
  destruct (stored_fun _ _ _ _ _ _ (t_stored _ _ _ _ Ht2) (t_stored _ _ _ _ Ht')) as [-> ->].
  pose proof (commit_snapshot_outcome s2 root warehouse v' meta' sn now Hi2 Ht2 Hin Hu Hv Hl) as Hout.
  rewrite Hc in Hout. destruct Hout as (Hi3 & s' & _ & [(meta3 & Hcm & _)|(_ & [[Ht3 Hun] _] & _)]).
  - split; [done|]. exists (v' + 1), meta3. split; [apply Hcm|]. eapply extends_trans; [exact Hex|].
    split; [rewrite (c_ids _ _ _ _ _ _ _ _ Hcm); by eexists|apply Hcm].
  - split; [done|]. exists v', meta'. split; [done|]. eapply extends_trans; [exact Hex|].
    split; [done|]. intros sid _. apply Hun.
Qed.

(** C5: snapshots are immutable.  After any history of commits, successful or not, a
    snapshot of the table lists the data files and the equality deletes it listed
    before. *)
Theorem snapshots_immutable (s s' : S) (root warehouse : string) (v : Z) (meta : IcebergMetadata)
    (sid : Z) :
  store_inv s → table (view s) root v meta → commit_history root warehouse s s' →
  sid ∈ snap_ids meta →
  (list_files root (Some sid) s').2 = (list_files root (Some sid) s).2 ∧
  (list_equality_deletes root (Some sid) s').2 = (list_equality_deletes root (Some sid) s).2.
Proof.
  intros Hi Ht Hh Hsid.
  destruct (history_extends root warehouse s s' v meta Hi Ht Hh) as (Hi' & v' & meta' & Ht' & _ & Hl).
  rewrite (list_files_table s root v meta), (list_deletes_table s root v meta) by done.
  rewrite (list_files_table s' root v' meta'), (list_deletes_table s' root v' meta') by done.
  destruct (Hl sid Hsid) as [-> ->]. done.
Qed.

(** ** Schema evolution *)

(** What an evolution needs: renames applied to objects, ids within 32 bits, and no
    schema yet under the next id. *)
Record evolution_input (meta : IcebergMetadata) (ev : SchemaEvolution) (schema : Json)
    (renamed : list Json) : Prop := {
  ei_current : current_schema meta = Some schema;
  ei_renamed : apply_renames (ev_renames ev) (schema_field_list schema) = Some renamed;
  ei_adds : Forall add_wf (ev_adds ev);
  ei_last : fits_i32 (im_last_column_id meta);
  ei_ids : fits_i32 (im_last_column_id meta + Zlen (ev_adds ev));
  ei_schema_id : fits_i32 (im_current_schema_id meta + 1);
  ei_fresh : Forall (λ s, has_id "schema-id" (im_current_schema_id meta + 1) s = false) (im_schemas meta);
}.

Lemma find_fresh {A} (p : A → bool) l x : Forall (λ y, p y = false) l → p x = true → List.find p (l ++ [x]) = Some x.
Proof. intros Hl Hx. induction Hl as [|y l Hy _ IH]; cbn; [by rewrite Hx|]. by rewrite Hy. Qed.

Lemma find_wf (p : Json → bool) l x : wf_list l → List.find p l = Some x → json_wf x = true.
Proof.
  intros Hl E. apply find_some in E as [Hx _]. apply list_elem_of_In in Hx.
  rewrite Forall_forall in Hl. by apply Hl.
Qed.

Lemma evolved_spec meta ev schema renamed now added last' :
  meta_wf meta → evolution_input meta ev schema renamed →
  add_fields (im_last_column_id meta) (ev_adds ev) = (added, last') →
  let meta' := evolved meta (renamed ++ added) last' (ev_extra_properties ev) now in
  meta_wf meta' ∧ im_current_schema_id meta' = im_current_schema_id meta + 1 ∧
  im_last_column_id meta' = im_last_column_id meta + Zlen (ev_adds ev) ∧
  ∃ schema', current_schema meta' = Some schema' ∧
    field_id <$> schema_field_list schema' =
      (field_id <$> schema_field_list schema) ++
      (Some <$> seqZ (im_last_column_id meta + 1) (Zlen (ev_adds ev))).
Proof.
  intros Hwf [Hc Hr Ha Hl Hi Hs Hf] Hadd. cbv zeta.
  pose proof (add_fields_spec _ _ Hl Hi Ha) as Hsp. rewrite Hadd in Hsp. destruct Hsp as (Eids & Wadd & ->).
  destruct (apply_renames_ids _ _ _ Hr) as [Eren Wren].
  assert (Wr : wf_list renamed).
  { apply Wren. unfold schema_field_list.
    pose proof (find_wf _ _ _ (wf_schemas _ Hwf) Hc) as Wsch.
    destruct (json_array _) as [l|] eqn:El; [|constructor]. eapply json_array_wf; [|exact El].
    by apply json_index_wf. }
  assert (Wall : wf_list (renamed ++ added)) by by apply Forall_app.
  split_and!.
  - split; cbn; try apply Hwf. apply Forall_app. split; [apply Hwf|]. apply Forall_singleton.
    unfold schema_json. apply json_object_wf. cbn [forallb snd]. by rewrite json_arr_wf.
  - cbn. by apply as_i32_id.
  - done.
  - exists (schema_json (im_current_schema_id meta + 1) (renamed ++ added)). split.
    + unfold current_schema. cbn [im_schemas im_current_schema_id evolved]. rewrite as_i32_id by done.
      apply find_fresh; [done|]. unfold has_id.
      change (json_index "schema-id" (schema_json _ _)) with (JInt (im_current_schema_id meta + 1)).
      unfold json_i64. rewrite decide_True by (unfold fits_i32 in Hs; lia). by apply bool_decide_eq_true.
    + change (schema_field_list (schema_json _ _)) with (renamed ++ added).
      by rewrite fmap_app, Eren, Eids.
Qed.

(** Evolving the schema of a table keeps the ids of its columns, gives the added
    columns the next ids in order, publishes the result as the current schema, and
    changes no listing. *)
Theorem evolve_schema_ids (s : S) (root : string) (v : Z) (meta : IcebergMetadata)
    (ev : SchemaEvolution) (now : Z) (schema : Json) (renamed : list Json) :
  store_inv s → table (view s) root v meta → fits 32 (v + 1) → puts_succeed S →
  evolution_input meta ev schema renamed →
  let '(s', o) := evolve_schema root ev now s in
  o = Ret (Ok (im_current_schema_id meta + 1)) ∧
  (∃ meta' schema', table (view s') root (v + 1) meta' ∧
    im_last_column_id meta' = im_last_column_id meta + Zlen (ev_adds ev) ∧
    current_schema meta' = Some schema' ∧
    field_id <$> schema_field_list schema' =
      (field_id <$> schema_field_list schema) ++
      (Some <$> seqZ (im_last_column_id meta + 1) (Zlen (ev_adds ev)))) ∧
  ∀ sid, (list_files root sid s').2 = (list_files root sid s).2.
Proof.
  intros Hi Ht Hv Hput Hev.
  destruct (add_fields (im_last_column_id meta) (ev_adds ev)) as [added last'] eqn:Hadd.
  destruct (evolved_spec _ _ _ _ now _ _ (t_wf _ _ _ _ Ht) Hev Hadd) as (Wf & Eid & Elast & schema' & Esch & Eids).
  set (meta' := evolved meta (renamed ++ added) last' (ev_extra_properties ev) now) in *.
  assert (Hwp : wp (view s) (evolve_schema root ev now) (λ o m',
    o = Ret (Ok (im_current_schema_id meta + 1)) ∧ stored m' root (v + 1) meta' ∧
    agree_except (λ p, p = obj_path root (OMeta (v + 1)) ∨ p = obj_path root OHint) (view s) m')).
  { apply wp_bind. eapply wp_load; [apply Ht|]. apply wp_bind, wp_result.
    rewrite (ei_current _ _ _ _ Hev). cbn [ok_or]. apply wp_bind, wp_outcome.
    fold (schema_field_list schema). rewrite (ei_renamed _ _ _ _ Hev). cbn [or_panic].
    rewrite Hadd. fold meta'. apply wp_bind.
    eapply wp_mono; [apply (wp_save (view s) root meta' Wf); by rewrite (stored_current _ _ _ _ Ht)|].
    rewrite (stored_current _ _ _ _ Ht). intros o m' Ho.
    destruct o as [[[]|e]|]; [|by destruct Ho as [Hn _]|done].
    apply wp_ret. rewrite Eid. split; [done|exact Ho].
    all: done. }
  destruct (wp_run s (view s) _ _ Hwp ltac:(done)) as (m' & [Hi' Hm'] & Ho & Hst & Hag).
  destruct (evolve_schema root ev now s) as [s' o]. cbn [fst snd] in *. subst m'.
  destruct (listings_agree (view s) (view s') root meta (t_ok _ _ _ _ Ht) (meta_objects_agree _ _ _ _ _ Hag))
    as [Hok Hl].
  assert (Ht' : table (view s') root (v + 1) meta') by (split; [done|by destruct Hok|done]).
  split_and!; [done|by exists meta', schema'|].
  intros sid. rewrite (list_files_table s root v meta), (list_files_table s' root (v + 1) meta') by done.
  f_equal. rewrite <- (proj1 (Hl sid)). done.
Qed.

End Hadoop.
