(* ===== verification/HadoopExamples.v ===== *)
(** * The catalog on concrete tables

    Libraries built from the serializer of [ManifestExamples] that meet the JSON,
    [bincode] and metadata laws, a decision procedure for well-formed tables, the
    witnesses of the catalog theorems on an in-memory store, and runs on stores with
    injected faults. *)

From stdpp Require Import countable.
From S2P Require Import Prelude Core Store Effects Avro Manifest ManifestTheorems ManifestExamples Json Puffin FileFormat Catalog CatalogTheorems HadoopTheorems.

(* ------------------------------------------------------------------ *)
(** ** Trees of JSON values and of metadata                            *)
(* ------------------------------------------------------------------ *)

Fixpoint json_tree (v : Json) : gen_tree Z :=
  match v with
  | JNull => GenNode 0 []
  | JBool b => GenNode 1 [GenLeaf (if b then 1 else 0)]
  | JInt n => GenNode 2 [GenLeaf n]
  | JDec m e => GenNode 3 [GenLeaf m; GenLeaf e]
  | JStr s => GenNode 4 [to_tree s]
  | JArr l => GenNode 5 (map json_tree l)
  | JObj fs => GenNode 6 (map (λ kv, GenNode 0 [to_tree kv.1; json_tree kv.2]) fs)
  end.

Fixpoint tree_json (t : gen_tree Z) : option Json :=
  match t with
  | GenNode 0 _ => Some JNull
  | GenNode 1 [GenLeaf b] => Some (JBool (b =? 1))
  | GenNode 2 [GenLeaf n] => Some (JInt n)
  | GenNode 3 [GenLeaf m; GenLeaf e] => Some (JDec m e)
  | GenNode 4 [s] => s ← of_tree s; Some (JStr s)
  | GenNode 5 ts => l ← mapM tree_json ts; Some (JArr l)
  | GenNode 6 ts =>
      fs ← mapM (λ t, match t with
                      | GenNode _ [k; v] => k ← of_tree k; v ← tree_json v; Some (k, v)
                      | _ => None
                      end) ts;
      Some (JObj fs)
  | _ => None
  end.

Fixpoint tree_json_tree (v : Json) : tree_json (json_tree v) = Some v.
Proof.
  destruct v as [|b|n|m e|s|l|fs]; cbn [json_tree tree_json]; try done.
  - by destruct b.
  - by rewrite of_to_tree.
  - assert (E : mapM tree_json (map json_tree l) = Some l).
    { induction l as [|x l IH]; [done|]. cbn. rewrite (tree_json_tree x). cbn. by rewrite IH. }
    by rewrite E.
  - match goal with |- context [mapM ?f ?ts] => assert (E : mapM f ts = Some fs) end.
    { induction fs as [|[k x] fs IH]; [done|]. cbn [map mapM fst snd]. rewrite of_to_tree.
      cbn [mbind option_bind]. rewrite (tree_json_tree x). cbn [mbind option_bind]. by rewrite IH. }
    by rewrite E.
Qed.

#[export] Instance tree_Json : Tree Json := {|
  to_tree := json_tree; of_tree := tree_json; of_to_tree := tree_json_tree |}.

#[export] Instance tree_map {A} `{Tree A} : Tree (gmap string A).
Proof.
  refine (tree_iso (λ m : gmap string A, map_to_list m : list (string * A))
    (λ l : list (string * A), Some (list_to_map l : gmap string A)) _).
  intros m. by rewrite list_to_map_to_list.
Defined.

#[export] Instance tree_blobref : Tree BlobRef.
Proof.
  refine (tree_iso (λ b, (br_blob_type b, br_snapshot_id b, br_sequence_number b, br_fields b, br_offset b, br_length b))
    (λ '(a, b, c, d, e, f), Some (mk_blobref a b c d e f)) _). by intros [].
Defined.
#[export] Instance tree_statref : Tree IcebergStatisticsRef.
Proof.
  refine (tree_iso (λ r, (sr_snapshot_id r, sr_statistics_path r, sr_file_size_in_bytes r,
      sr_file_footer_size_in_bytes r, sr_blob_file_references r))
    (λ '(a, b, c, d, e), Some (mk_statref a b c d e)) _). by intros [].
Defined.
#[export] Instance tree_pstatref : Tree IcebergPartitionStatsRef.
Proof.
  refine (tree_iso (λ r, (pr_snapshot_id r, pr_statistics_path r, pr_file_size_in_bytes r))
    (λ '(a, b, c), Some (mk_pstatref a b c)) _). by intros [].
Defined.
#[export] Instance tree_snapshot : Tree IcebergSnapshot.
Proof.
  refine (tree_iso (λ s, (sn_snapshot_id s, sn_parent_snapshot_id s, sn_sequence_number s,
      sn_timestamp_ms s, sn_manifest_list s, sn_summary s, sn_schema_id s))
    (λ '(a, b, c, d, e, f, g), Some (mk_snap a b c d e f g)) _). by intros [].
Defined.
#[export] Instance tree_meta : Tree IcebergMetadata.
Proof.
  refine (tree_iso
    (λ m, ((im_format_version m, im_table_uuid m, im_location m, im_last_sequence_number m,
            im_next_row_id m, im_last_updated_ms m, im_last_column_id m, im_schemas m),
           (im_current_schema_id m, im_partition_specs m, im_default_spec_id m,
            im_last_partition_id m, im_properties m, im_current_snapshot_id m, im_snapshots m),
           (im_snapshot_log m, im_metadata_log m, im_sort_orders m, im_default_sort_order_id m,
            im_refs m, im_statistics m, im_partition_statistics m)))
    (λ '((a, b, c, d, e, f, g, h), (i, j, k, l, m, n, o), (p, q, r, s, t, u, v)),
      Some (mk_meta a b c d e f g h i j k l m n o p q r s t u v)) _). by intros [].
Defined.
#[export] Instance tree_vstat : Tree VectorStatEntry.
Proof.
  refine (tree_iso (λ e, (vs_path e, vs_centroid e, vs_radius e)) (λ '(a, b, c), Some (mk_vstat a b c)) _).
  by intros [].
Defined.
#[export] Instance tree_bloom : Tree BM25BloomEntry.
Proof.
  refine (tree_iso (λ e, (be_path e, be_bytes e)) (λ '(a, b), Some (mk_bloom a b)) _). by intros [].
Defined.

(* ------------------------------------------------------------------ *)
(** ** The libraries                                                   *)
(* ------------------------------------------------------------------ *)

Lemma as_of_ascii b : Forall (λ x, 0 ≤ x < 128) b → as_bytes (of_bytes b) = b.
Proof.
  induction 1 as [|x b Hx _ IH]; [done|]. cbn. rewrite IH, Ascii.N_ascii_embedding by lia.
  f_equal. lia.
Qed.

Lemma ascii_utf8 b : Forall (λ x, 0 ≤ x < 128) b → utf8_valid b = true.
Proof.
  induction 1 as [|x b Hx _ IH]; [done|]. cbn [utf8_valid]. unfold in_range at 1.
  rewrite (proj2 (Z.leb_le 0 x)), (proj2 (Z.leb_le x 127)) by lia. done.
Qed.

#[export] Instance tree_json_lib : JsonLib := {|
  json_to_string v := of_bytes (serialize v);
  json_from_slice := deserialize;
|}.
#[export] Instance tree_json_laws : JsonLaws.
Proof.
  constructor. intros v _. cbn [json_from_slice json_to_string tree_json_lib].
  rewrite as_of_ascii by apply serialize_ascii. apply deserialize_serialize.
Qed.

#[export] Instance tree_bincode : BincodeLib := {|
  stats_serialize l := Ok (serialize l);
  stats_deserialize b := ok_or (deserialize b) BincodeError;
  blooms_serialize l := Ok (serialize l);
  blooms_deserialize b := ok_or (deserialize b) BincodeError;
|}.
#[export] Instance tree_bincode_laws : BincodeLaws.
Proof.
  constructor; cbn [stats_serialize blooms_serialize stats_deserialize blooms_deserialize tree_bincode];
    intros l b E; apply Ok_inj in E as <-; by rewrite deserialize_serialize.
Qed.

#[export] Instance tree_meta_lib : MetaLib := {|
  to_json m := Ok (of_bytes (serialize m));
  from_json s := ok_or (deserialize (as_bytes s)) JsonError;
  parquet_partition_stats col rows := Ok (serialize (col, rows));
|}.
#[export] Instance tree_meta_laws : MetaLaws.
Proof.
  constructor. intros m _. exists (of_bytes (serialize m)). split; [done|].
  pose proof (serialize_ascii m) as Ha. rewrite as_of_ascii by done. split; [by apply ascii_utf8|].
  cbn [from_json tree_meta_lib]. by rewrite as_of_ascii, deserialize_serialize.
Qed.

(* ------------------------------------------------------------------ *)
(** ** Deciding that a table is well formed                            *)
(* ------------------------------------------------------------------ *)

Definition manifest_okb (m : gmap string bytes) (root : string) (ids : list Z) (pc : string * Z) : bool :=
  existsb (λ id,
    (bool_decide (pc = (obj_path root (OManifest id), 0)) && is_ok (read_obj read_manifest_file m pc.1)) ||
    (bool_decide (pc = (obj_path root (ODeletes id), 1)) &&
     is_ok (read_obj read_equality_delete_manifest m pc.1))) ids.

Definition snapshot_okb (m : gmap string bytes) (root : string) (ids : list Z) (s : IcebergSnapshot) : bool :=
  String.eqb (sn_manifest_list s) (obj_path root (OList (sn_snapshot_id s))) &&
  match read_obj read_manifest_list_typed m (sn_manifest_list s) with
  | Ok ms => forallb (manifest_okb m root ids) ms
  | Err _ => false
  end.

Definition meta_wfb (meta : IcebergMetadata) : bool :=
  forallb json_wf (im_schemas meta) && forallb json_wf (im_partition_specs meta) &&
  forallb json_wf (im_snapshot_log meta) && forallb json_wf (im_metadata_log meta) &&
  forallb json_wf (im_sort_orders meta) && bool_decide (im_refs meta = ∅).

Definition table_okb (m : gmap string bytes) (root : string) (meta : IcebergMetadata) : bool :=
  bool_decide (NoDup (snap_ids meta)) &&
  bool_decide (im_current_snapshot_id meta = sn_snapshot_id <$> last (im_snapshots meta)) &&
  forallb (snapshot_okb m root (snap_ids meta)) (im_snapshots meta).

(** The version and metadata the hint leads to. *)
Definition published (m : gmap string bytes) (root : string) : option (Z * IcebergMetadata) :=
  hint ← m !! obj_path root OHint;
  let v := parse_version hint in
  b ← m !! obj_path root (OMeta v);
  meta ← to_option (from_json (of_bytes b));
  if bool_decide (as_bytes (of_bytes b) = b) && utf8_valid b && table_okb m root meta && meta_wfb meta
  then Some (v, meta) else None.

Lemma is_ok_exists {A} (r : AilakeResult A) : is_ok r = true → ∃ a, r = Ok a.
Proof. destruct r; [eauto|done]. Qed.

Lemma manifest_okb_spec m root ids pc : manifest_okb m root ids pc = true → manifest_ok m root ids pc.
Proof.
  unfold manifest_okb. intros (id & Hid & Hb)%existsb_exists. exists id.
  split; [by apply list_elem_of_In|]. apply orb_true_iff in Hb as [Hb|Hb]; [left|right];
    apply andb_prop in Hb as [E%bool_decide_eq_true Hr%is_ok_exists]; done.
Qed.

Lemma forallb_Forall {A} (f : A → bool) (P : A → Prop) l :
  (∀ x, f x = true → P x) → forallb f l = true → Forall P l.
Proof. intros HP. induction l; cbn; [by constructor|]. intros [??]%andb_prop. constructor; auto. Qed.

Lemma published_table m root v meta : published m root = Some (v, meta) → table m root v meta.
Proof.
  unfold published. destruct (m !! obj_path root OHint) as [hint|] eqn:Hh; [|done]. cbn [mbind option_bind].
  destruct (m !! obj_path root (OMeta _)) as [b|] eqn:Hb; [|done]. cbn [mbind option_bind].
  destruct (from_json (of_bytes b)) as [meta0|] eqn:Hj; [|done]. cbn [to_option mbind option_bind].
  destruct (_ && _ && _ && _) eqn:Hc; [|done]. intros [= <- <-].
  apply andb_prop in Hc as [Hc Hwf]. apply andb_prop in Hc as [Hc Hok].
  apply andb_prop in Hc as [Hbb%bool_decide_eq_true Hu]. split.
  - exists hint, (of_bytes b). by rewrite Hbb.
  - unfold table_okb in Hok. apply andb_prop in Hok as [Hok Hs]. apply andb_prop in Hok as [Hnd Hcur].
    split; [by apply bool_decide_eq_true in Hnd|by apply bool_decide_eq_true in Hcur|].
    eapply forallb_Forall; [|exact Hs]. intros s Hsb. unfold snapshot_okb in Hsb.
    apply andb_prop in Hsb as [Hp%String.eqb_eq Hm].
    destruct (read_obj _ _ _) as [ms|] eqn:Er; [|done]. split; [done|]. exists ms. split; [done|].
    eapply forallb_Forall; [|exact Hm]. apply manifest_okb_spec.
  - unfold meta_wfb in Hwf. repeat (apply andb_prop in Hwf as [Hwf ?]).
    split; try (eapply forallb_Forall; [|eassumption]; done).
    match goal with Hr : bool_decide (im_refs _ = ∅) = true |- _ => apply bool_decide_eq_true in Hr as -> end.
    apply map_Forall_empty.
Qed.

(* ------------------------------------------------------------------ *)
(** ** A table with one snapshot                                       *)
(* ------------------------------------------------------------------ *)

Definition warehouse : string := "wh".
Definition root : string := table_root (hadoop_new "wh/") (mk_ident "ns" "docs").

Definition policy : VectorStoragePolicy :=
  {| column_name := "embedding"; policy_dim := 2; policy_metric := Cosine; policy_precision := F16;
     pq := None; keep_raw_for_reranking := true; pre_normalize := false; hnsw_m := Some 16;
     hnsw_ef_construction := None; ivf_residual := false; embedding_model := None;
     modality := Some Text; partition_by := None; partition_value := None;
     partition_column_type := None; partition_fields := [] |}.

Definition new_file (path : string) (rows : Z) : DataFileEntry :=
  mk_file path rows 2048 (Some "AAAA") (Some 1065353216) (Some 512) (Some 900) (Some "embedding")
    (Some 2) [] Ready None None None None None None (Some "{}") 0.

Definition new_snapshot (id : Z) (op : SnapshotOperation) (files : list DataFileEntry)
    (dels : list EqualityDeleteFile) (schema : option IcebergSchemaUpdate) : NewSnapshot :=
  mk_newsnap id None files op schema ∅ [] dels.

Definition empty_store : MemStore := mk_mem ∅ 0 0.
Definition table_store : MemStore :=
  (create_table root (mk_tprops policy ∅ 3 None) 1000 "uuid" empty_store).1.
Definition one_snapshot : MemStore :=
  (commit_snapshot root warehouse
    (new_snapshot 11 Append [new_file "a.parquet" 5; new_file "b.parquet" 7]
      [mk_eqdel "d1.avro" [1] 1 40 None 0] None) 2000 table_store).1.

Definition meta_of (s : MemStore) : IcebergMetadata :=
  match published (view s) root with
  | Some (_, meta) => meta
  | None => metadata_new "" policy 2 None [] 0 ""
  end.

(* ------------------------------------------------------------------ *)
(** ** Witnesses                                                       *)
(* ------------------------------------------------------------------ *)

(** An append with a delete file, on the table with one snapshot. *)
Definition second : NewSnapshot :=
  new_snapshot 12 Append [new_file "c.parquet" 4] [mk_eqdel "d2.avro" [1] 1 40 None 0] None.

Ltac ready_fields :=
  first [ eval_done | by repeat constructor | repeat constructor; eval_done ].

Lemma one_snapshot_table : table (view one_snapshot) root 2 (meta_of one_snapshot).
Proof. apply published_table. vm_compute. reflexivity. Qed.

Lemma second_input : commit_input (view one_snapshot) root warehouse (meta_of one_snapshot) second.
Proof.
  split.
  - vm_compute. intros Hin. by apply list_elem_of_singleton in Hin.
  - by vm_compute.
  - by vm_compute.
  - repeat constructor; by vm_compute.
  - repeat constructor; by vm_compute.
  - vm_compute; reflexivity.
  - vm_compute; reflexivity.
  - vm_compute; reflexivity.
  - vm_compute; reflexivity.
  - vm_compute; reflexivity.
  - vm_compute; reflexivity.
Qed.

Lemma second_ready : commit_ready one_snapshot root warehouse 2 (meta_of one_snapshot) second.
Proof.
  split; [exact I|apply one_snapshot_table|apply second_input|exact I|by vm_compute|reflexivity].
Qed.

Lemma mem_release (s1 : MemStore) :
  store_inv s1 → (release_lock s1 (obj_path root OLock)).2 = Ok tt.
Proof. by intros _. Qed.

Lemma commit_then_list_witness :
  commit_ready one_snapshot root warehouse 2 (meta_of one_snapshot) second ∧
  let '(s', o) := commit_snapshot root warehouse second 3000 one_snapshot in
  let keep {A} (l : list A) := if inherits (ns_operation second) then l else [] in
  o = Ret (Ok (ns_snapshot_id second)) ∧
  ∃ files deletes,
    (list_files root None one_snapshot).2 = Ret (Ok files) ∧
    (list_equality_deletes root None one_snapshot).2 = Ret (Ok deletes) ∧
    (list_files root None s').2 = Ret (Ok (keep files ++
      (read_back (commit_seq (meta_of one_snapshot)) (commit_spec (meta_of one_snapshot)) <$>
        committed_files warehouse (meta_of one_snapshot) second))) ∧
    (list_equality_deletes root None s').2 = Ret (Ok (keep deletes ++
      (delete_back (commit_seq (meta_of one_snapshot)) <$> committed_deletes root second))).
Proof.
  split; [exact second_ready|].
  pose proof (commit_then_list one_snapshot root warehouse 2 (meta_of one_snapshot) second 3000
    second_ready mem_puts_succeed mem_release) as X. exact X.
Defined.

(** A store that takes so many writes and refuses the rest. *)
Record WriteBudget : Type := mk_budget { wb_store : MemStore; wb_writes : Z }.
Definition budgeted {A} (b : WriteBudget) (op : MemStore → MemStore * AilakeResult A) : WriteBudget * AilakeResult A :=
  let '(s, r) := op (wb_store b) in (mk_budget s (wb_writes b), r).

#[local] Instance budget_store : Store WriteBudget := {|
  st_now b := st_now (wb_store b);
  st_get b p := budgeted b (λ s, st_get s p);
  st_get_range b p x y := budgeted b (λ s, st_get_range s p x y);
  st_put b p d :=
    if decide (wb_writes b ≤ 0) then (b, Err StoreError)
    else let '(s, r) := st_put (wb_store b) p d in (mk_budget s (wb_writes b - 1), r);
  st_list b p := budgeted b (λ s, st_list s p);
  st_file_size b p := budgeted b (λ s, st_file_size s p);
  st_exists b p := budgeted b (λ s, st_exists s p);
  st_delete b p := budgeted b (λ s, st_delete s p);
|}.
#[local] Instance budget_laws : StoreLaws WriteBudget.
Proof.
  refine {| view b := view (wb_store b); store_inv _ := True |}; intros [s n] p.
  - intros _. pose proof (get_law s p I) as Hg. cbn in *. done.
  - intros d _. cbn. by case_decide.
  - intros _. pose proof (delete_law s p I) as Hg. unfold st_delete, budget_store, budgeted. cbn [wb_store].
    destruct (st_delete s p). cbn in *. by destruct Hg.
Defined.
#[local] Instance budget_reliable : ReliableReads WriteBudget.
Proof. by constructor. Qed.
#[local] Instance budget_lock : LockStore WriteBudget := {|
  try_acquire_lock b p := budgeted b (λ s, try_acquire_lock s p);
  release_lock b p := budgeted b (λ s, release_lock s p);
  renew_lock b p := budgeted b (λ s, renew_lock s p);
|}.
#[local] Instance budget_lock_laws : LockLaws WriteBudget.
Proof. by constructor. Qed.

(** The commit of [second] when its third write fails: a manifest has been written, and
    the commit returns an error. *)
Definition short_of_writes : WriteBudget := mk_budget one_snapshot 2.
Definition commit_short : WriteBudget * outcome AilakeError Z :=
  commit_snapshot root warehouse second 3000 short_of_writes.

Definition fails {A} (o : outcome AilakeError A) : bool := match o with Ret (Err _) => true | _ => false end.


Lemma second_history :
  commit_history root warehouse one_snapshot (commit_snapshot root warehouse second 3000 one_snapshot).1.
Proof.
  pose proof (history_commit root warehouse one_snapshot one_snapshot _ 2 (meta_of one_snapshot) second 3000 _
    (history_start root warehouse one_snapshot) second_ready (surjective_pairing _)) as X. exact X.
Qed.

Lemma first_id : 11 ∈ snap_ids (meta_of one_snapshot).
Proof. vm_compute. constructor. Qed.

Lemma snapshots_immutable_witness :
  let s' := (commit_snapshot root warehouse second 3000 one_snapshot).1 in
  (list_files root (Some 11) s').2 = (list_files root (Some 11) one_snapshot).2 ∧
  (list_equality_deletes root (Some 11) s').2 = (list_equality_deletes root (Some 11) one_snapshot).2.
Proof.
  pose proof (snapshots_immutable one_snapshot (commit_snapshot root warehouse second 3000 one_snapshot).1
    root warehouse 2 (meta_of one_snapshot) 11 I one_snapshot_table second_history first_id) as X. exact X.
Defined.

Definition add_lang : SchemaEvolution :=
  mk_evolution [] [mk_add "lang" "string" false (Some (JStr "en")) None None] ∅.

Lemma add_lang_input :
  evolution_input (meta_of one_snapshot) add_lang
    (default JNull (current_schema (meta_of one_snapshot))) [].
Proof.
  split.
  - vm_compute. reflexivity.
  - vm_compute. reflexivity.
  - constructor; [|constructor]. split; [by intros d [= <-]|by intros d].
  - by vm_compute.
  - by vm_compute.
  - by vm_compute.
  - apply (forallb_Forall (λ s, negb (has_id "schema-id" (im_current_schema_id (meta_of one_snapshot) + 1) s))).
    + intros x. by destruct (has_id _ _ x).
    + vm_compute. reflexivity.
Qed.

Lemma next_version_fits : fits 32 (2 + 1).
Proof. by vm_compute. Qed.

Lemma evolve_schema_ids_witness :
  let meta := meta_of one_snapshot in
  let schema := default JNull (current_schema meta) in
  let '(s', o) := evolve_schema root add_lang 4000 one_snapshot in
  o = Ret (Ok (im_current_schema_id meta + 1)) ∧
  (∃ meta' schema', table (view s') root (2 + 1) meta' ∧
    im_last_column_id meta' = im_last_column_id meta + Zlen (ev_adds add_lang) ∧
    current_schema meta' = Some schema' ∧
    field_id <$> schema_field_list schema' =
      (field_id <$> schema_field_list schema) ++
      (Some <$> seqZ (im_last_column_id meta + 1) (Zlen (ev_adds add_lang)))) ∧
  ∀ sid, (list_files root sid s').2 = (list_files root sid one_snapshot).2.
Proof.
  intros meta schema.
  pose proof (evolve_schema_ids one_snapshot root 2 (meta_of one_snapshot) add_lang 4000
    (default JNull (current_schema (meta_of one_snapshot))) [] I
    one_snapshot_table next_version_fits mem_puts_succeed add_lang_input) as X. exact X.
Defined.

Lemma row_ids_disjoint_witness :
  let fs := [new_file "a" 5; set_first_row_id (new_file "b" 9) 3; new_file "c" 7] in
  (assign_row_ids 100 fs).2 = 112 ∧ df_first_row_id <$> (assign_row_ids 100 fs).1 = [Some 100; Some 3; Some 105].
Proof.
  pose proof (row_ids_disjoint 100 [new_file "a" 5; set_first_row_id (new_file "b" 9) 3; new_file "c" 7]
    ltac:(lia) ltac:(repeat constructor; by vm_compute) ltac:(by vm_compute)) as (E & _).
  split; [exact E|]. vm_compute. reflexivity.
Defined.

Lemma puffin_roundtrip_witness :
  let stats := [mk_vstat "a.parquet" [1065353216; 0] 0] in
  let blooms := [mk_bloom "a.parquet" [1; 2; 255]] in
  ∃ r, write_stats stats blooms 11 = Ok r ∧
    read_vector_stats (pr_bytes r) = Ret (Ok stats) ∧ read_bm25_blooms (pr_bytes r) = Ret (Ok blooms).
Proof.
  eexists. split; [reflexivity|].
  refine (puffin_roundtrip [mk_vstat "a.parquet" [1065353216; 0] 0] [mk_bloom "a.parquet" [1; 2; 255]] 11 _ eq_refl _ _);
    vm_compute; reflexivity.
Defined.

Lemma puffin_footer_panics_witness :
  let data := as_bytes "PFAc" ++ [255; 0; 0; 0] ++ as_bytes "PFAc" in
  read_vector_stats data = Panic ∧ read_bm25_blooms data = Panic.
Proof.
  refine (puffin_footer_panics (as_bytes "PFAc" ++ [255; 0; 0; 0] ++ as_bytes "PFAc") [255; 0; 0; 0] _ _ _);
    vm_compute; (done || reflexivity).
Defined.

(* ------------------------------------------------------------------ *)
(** ** Faults                                                          *)
(* ------------------------------------------------------------------ *)

(** The store whose [n]-th read fails. *)
Definition flaky (n : Z) (s : MemStore) : FailStore MemStore :=
  default (fail_store_new s) (with_fail_get_nth (fail_store_new s) n).

Definition paths (o : outcome AilakeError (list DataFileEntry)) : option (list string) :=
  match o with Ret (Ok l) => Some (df_path <$> l) | _ => None end.

(** One failed read loses files.  The third read of an append is that of the
    previous manifest list; when it fails the commit still succeeds, and the files
    committed before are no longer part of the table. *)
Theorem append_read_fault_drops_files :
  paths (list_files root None (flaky 0 one_snapshot)).2 = Some ["a.parquet"; "b.parquet"] ∧
  let '(s', o) := commit_snapshot root warehouse second 3000 (flaky 3 one_snapshot) in
  o = Ret (Ok 12) ∧ paths (list_files root None s').2 = Some ["c.parquet"].
Proof. vm_compute. done. Qed.

(** One failed read resets a table.  When the read of the version hint fails,
    [create_table] takes an existing table for a new one, succeeds, and leaves it
    without snapshots. *)
Theorem create_table_fault_resets :
  let '(s', o) := create_table root (mk_tprops policy ∅ 3 None) 5000 "uuid2" (flaky 1 one_snapshot) in
  o = Ret (Ok tt) ∧ paths (list_files root None s').2 = Some [] ∧
  (create_table root (mk_tprops policy ∅ 3 None) 5000 "uuid2" (flaky 0 one_snapshot)).2 = Ret (Err CatalogError).
Proof. vm_compute. done. Qed.

(** The schema a table writer sends with each of its commits. *)
Definition writer_schema : IcebergSchemaUpdate :=
  mk_supdate [schema_field_json 1 "id" "int"; schema_field_json 2 "embedding" "binary"] 2 "[]".

Definition current_field_ids (s : MemStore) : list (option Z) :=
  match current_schema (meta_of s) with Some sch => field_id <$> schema_field_list sch | None => [] end.

(** Field ids are reused.  A commit that carries the writer's schema sets the
    last column id back to the writer's, although the schema has been evolved since:
    the next added column gets the id of an existing one. *)
Theorem schema_commit_reuses_field_id :
  let add name := mk_evolution [] [mk_add name "string" false None None None] ∅ in
  let s1 := (commit_snapshot root warehouse (new_snapshot 12 Append [] [] (Some writer_schema)) 1 one_snapshot).1 in
  let s2 := (evolve_schema root (add "lang") 2 s1).1 in
  let s3 := (commit_snapshot root warehouse (new_snapshot 13 Append [] [] (Some writer_schema)) 3 s2).1 in
  let s4 := (evolve_schema root (add "topic") 4 s3).1 in
  current_field_ids s2 = [Some 1; Some 2; Some 3] ∧
  current_field_ids s4 = [Some 1; Some 2; Some 3; Some 3].
Proof. vm_compute. done. Qed.
