(* ===== verification/DeletesTheorems.v ===== *)
(** * What deletions hide

    The filter of equality deletes as a predicate on rows, what [delete_where] and
    [delete_rows] do to a Hadoop table and to the filters and bitmaps read from it
    afterwards, and the deletions that hide too much or too little. *)

From S2P Require Import Prelude Core FileFormat Store Effects Json Avro Manifest ManifestTheorems.
From S2P Require Import Puffin Catalog CatalogTheorems HadoopTheorems Arrow Deletes.

(* ------------------------------------------------------------------ *)
(** ** Predicates                                                      *)
(* ------------------------------------------------------------------ *)

Section Predicates.
Context {PL : ParquetLib} {AL : ArrowLib}.

(** A predicate on one column. *)
Lemma values_match_singleton col values (b : RecordBatch) row :
  values_match {[col := values]} b row = default false (column_matches b row col values).
Proof.
  unfold values_match. rewrite map_to_list_singleton. cbn [row_matches_go].
  by destruct (column_matches b row col values) as [[|]|].
Qed.

Lemma predicate_of_snoc pairs col val :
  predicate_of (pairs ++ [(col, val)]) =
  <[col := {[val]} ∪ default ∅ (predicate_of pairs !! col)]> (predicate_of pairs).
Proof. unfold predicate_of. by rewrite foldl_app. Qed.

Lemma predicate_of_column col texts :
  texts ≠ [] → predicate_of (pair col <$> texts) = {[col := list_to_set texts]}.
Proof.
  induction texts as [|x texts IH] using rev_ind; [done|]. intros _.
  rewrite fmap_app. cbn [fmap list_fmap]. rewrite predicate_of_snoc.
  destruct (decide (texts = [])) as [->|Hne].
  { unfold predicate_of. cbn [foldl fmap list_fmap]. rewrite lookup_empty. cbn [default].
    rewrite insert_empty. cbn. done. }
  rewrite IH by done. rewrite lookup_singleton_eq. cbn [default]. unfold id.
  rewrite insert_singleton_eq. f_equal. rewrite list_to_set_app_L. cbn [list_to_set]. set_solver.
Qed.

(** What [should_delete_row] answers, and where it answers. *)
Lemma should_delete_row_value f (b : RecordBatch) row seq x :
  should_delete_row f b row seq = Some x → x = deleted_by_value f b row seq.
Proof.
  induction f as [|[delete_seq cols] f IH]; cbn; [congruence|]. rewrite (Z.ltb_antisym delete_seq seq).
  destruct (delete_seq <=? seq); cbn; [done|]. unfold row_matches. destruct (_ || _); [|done]. cbn.
  destruct (values_match cols b row); cbn; [congruence|done].
Qed.

Lemma should_delete_row_in f (b : RecordBatch) row seq :
  row_in b row = true → should_delete_row f b row seq = Some (deleted_by_value f b row seq).
Proof.
  intros Hr. induction f as [|[delete_seq cols] f IH]; cbn; [done|]. rewrite (Z.ltb_antisym delete_seq seq).
  unfold row_matches. rewrite Hr. destruct (delete_seq <=? seq); cbn; [done|].
  by destruct (values_match cols b row).
Qed.

Lemma deleted_by_value_app f g (b : RecordBatch) row seq :
  deleted_by_value (f ++ g) b row seq = deleted_by_value f b row seq || deleted_by_value g b row seq.
Proof. apply existsb_app. Qed.

(** An equality delete on a column whose type the filter does not read (boolean,
    date, timestamp, binary, …) hides every row that has a value in that column,
    whatever the values of the delete are. *)
Theorem unreadable_column_hides_all (filter : EqualityDeleteFilter) dseq col texts (b : RecordBatch) i row seq :
  (dseq, predicate_of (pair col <$> texts)) ∈ filter → texts ≠ [] → seq < dseq →
  index_of b col = Some i → readable_type (column_type b i) = false → is_null b i row = false →
  deleted_by_value filter b row seq = true.
Proof.
  intros Hin Hne Hseq Hi Ht Hn. apply existsb_exists. eexists. split; [by apply list_elem_of_In|].
  cbn beta iota. rewrite (proj2 (Z.ltb_lt _ _) Hseq), predicate_of_column by done. cbn [andb].
  rewrite values_match_singleton. unfold column_matches. rewrite Hi. cbn. by rewrite Hn, Ht.
Qed.

End Predicates.

(* ------------------------------------------------------------------ *)
(** ** Reading delete files                                            *)
(* ------------------------------------------------------------------ *)

Section Reading.
Context {S : Type} `{ReliableReads S} `{AvroLib} `{FloatText}.
Implicit Types m : gmap string bytes.

(** The filter the contents of a store give. *)
Definition filter_in m (ds : list EqualityDeleteFile) : AilakeResult EqualityDeleteFilter :=
  try_map (λ d,
    b ← ok_or (m !! ed_path d) StoreError;
    pairs ← match read_equality_delete_values b with Ok ps => Ok ps | Err _ => Err CatalogError end;
    Ok (ed_sequence_number d, predicate_of pairs)) ds.

Lemma wp_from_files m ds Q : Q (Ret (filter_in m ds)) m → wp m (from_files ds) Q.
Proof.
  apply wp_map_result. intros d R HR. apply wp_bind, wp_get_.
  destruct (m !! ed_path d) as [b|]; [|done]. cbn [ok_or]. apply wp_bind, wp_result.
  cbn in HR |- *. destruct (read_equality_delete_values b); [by apply wp_ret|done].
Qed.

Lemma from_files_run s ds : store_inv s → (from_files ds s).2 = Ret (filter_in (view s) ds).
Proof.
  intros Hi. destruct (wp_run s (view s) (from_files ds) (λ o _, o = Ret (filter_in (view s) ds))) as (m' & _ & E);
    [by apply wp_from_files|done|exact E].
Qed.

Lemma filter_in_agree m m' ds :
  Forall (λ d, m' !! ed_path d = m !! ed_path d) ds → filter_in m' ds = filter_in m ds.
Proof.
  induction 1 as [|d ds Hd _ IH]; [done|]. unfold filter_in in *. cbn [try_map].
  by rewrite Hd, IH.
Qed.

Lemma try_map_app {E A B} (g : A → result E B) xs ys zs :
  try_map g xs = Ok zs →
  try_map g (xs ++ ys) = match try_map g ys with Ok ws => Ok (zs ++ ws) | Err e => Err e end.
Proof.
  intros Hg%try_map_Ok. induction Hg as [|x z xs zs Hx _ IH]; cbn [app]; [by destruct (try_map g ys)|].
  cbn [try_map]. rewrite Hx, IH. by destruct (try_map g ys).
Qed.

End Reading.

(* ------------------------------------------------------------------ *)
(** ** The Avro writer                                                 *)
(* ------------------------------------------------------------------ *)

(** Names the Avro specification allows. *)
Definition name_char (first : bool) (c : Ascii.ascii) : bool :=
  let n := Z.of_N (Ascii.N_of_ascii c) in
  in_range 65 90 n || in_range 97 122 n || (n =? 95) || (negb first && in_range 48 57 n).
Fixpoint name_chars (s : string) : bool :=
  match s with EmptyString => true | String c s => name_char false c && name_chars s end.
Definition avro_name (s : string) : bool :=
  match s with EmptyString => false | String c s => name_char true c && name_chars s end.

Definition value_of_type (ty : string) (v : Value) : Prop :=
  match v with
  | VInt n => ty = "int" ∧ fits_i32 n
  | VLong n => ty = "long" ∧ fits_i64 n
  | VFloat _ => ty = "float"
  | VDouble _ => ty = "double"
  | VString _ => ty = "string"
  | _ => False
  end.

(** Records that fit their schema are written, and read back. *)
Class AvroWriterLaws `{AvroLib} `{AvroWriterLib} : Prop := {
  eq_writer_ok col ty fid vs :
    avro_name col = true → Forall (value_of_type ty) vs →
    ∃ d, avro_writer (eq_delete_schema col ty fid) ((λ v, VRecord [(col, v)]) <$> vs) = Ok d ∧
         avro_reader d = Ok ((λ v, VRecord [(col, v)]) <$> vs);
}.

Section DeleteFiles.
Context `{AvroWriterLaws} `{FloatText}.

(** The texts a delete of [values] compares with. *)
Definition delete_texts (iceberg_type : string) (values : list string) : list string :=
  omap (λ v, eq_value_text (eq_avro_value (eq_avro_type iceberg_type) v)) values.

(** A typed value has a text. *)
Lemma typed_text ty v : value_of_type ty v → is_Some (eq_value_text v).
Proof. destruct v; cbn; eauto; done. Qed.

Definition values_typed (iceberg_type : string) (values : list string) : Prop :=
  Forall (λ v, value_of_type (eq_avro_type iceberg_type)
                 (eq_avro_value (eq_avro_type iceberg_type) v)) values.

(** The delete file, and the pairs a scan reads from it. *)
Lemma delete_file_written col fid ty values :
  avro_name col = true → values_typed ty values →
  ∃ d, write_equality_delete_avro col fid ty values = Ok d ∧
    read_equality_delete_values d = Ok (pair col <$> delete_texts ty values).
Proof.
  intros Hcol Hall. unfold write_equality_delete_avro.
  destruct (eq_writer_ok col (eq_avro_type ty) fid (eq_avro_value (eq_avro_type ty) <$> values))
    as (d & Hw & Hr); [done|by apply Forall_fmap|].
  rewrite <- list_fmap_compose in Hw, Hr. exists d. split; [exact Hw|].
  unfold read_equality_delete_values. rewrite Hr. cbn [mbind result_bind]. f_equal.
  unfold delete_texts. clear -Hall. induction Hall as [|v values Hv _ IH]; [done|].
  cbn [fmap list_fmap mbind list_bind omap list_omap] in IH |- *. destruct (typed_text _ _ Hv) as [t Ht].
  cbn [record_texts compose omap list_omap]. rewrite Ht. cbn. f_equal. exact IH.
Qed.

Lemma delete_texts_nonempty ty values : values ≠ [] → values_typed ty values → delete_texts ty values ≠ [].
Proof.
  intros Hne Hall. destruct Hall as [|v values Hv _]; [done|]. unfold delete_texts. cbn [omap list_omap].
  destruct (typed_text _ _ Hv) as [t ->]. done.
Qed.

End DeleteFiles.

(* ------------------------------------------------------------------ *)
(** ** Deleting by value                                               *)
(* ------------------------------------------------------------------ *)

(** No colon, no protocol. *)
Lemma contains_byte (p s : string) x : contains p s = true → x ∈ as_bytes p → x ∈ as_bytes s.
Proof.
  rewrite contains_spec. intros (u & v & ->) Hx. rewrite !as_bytes_app. set_solver.
Qed.

Lemma digits_bytes s x : all_digits s = true → x ∈ as_bytes s → 48 ≤ x ≤ 57.
Proof.
  induction s as [|c s IH]; cbn [all_digits as_bytes]; [by intros _ ?%elem_of_nil|].
  intros [Hc Hs]%andb_prop [->|Hx]%elem_of_cons; [|by apply IH].
  unfold digit_value in Hc. by case_decide.
Qed.

Lemma eq_del_relative snap : 0 ≤ snap → is_absolute (eq_del_rel_path snap) = false.
Proof.
  intros Hs. unfold is_absolute. apply orb_false_iff. split.
  - unfold eq_del_rel_path. unfold starts_with. apply bool_decide_eq_false. by intros [t Ht].
  - apply not_true_iff_false. intros Hc. apply (contains_byte _ _ 58) in Hc; [|vm_compute; by left].
    unfold eq_del_rel_path in Hc. rewrite !as_bytes_app, !elem_of_app in Hc.
    destruct Hc as [Hc|[Hc|Hc]].
    + revert Hc. apply (bool_decide_unpack _). by vm_compute.
    + apply digits_bytes in Hc; [lia|]. by apply to_string_digits.
    + revert Hc. apply (bool_decide_unpack _). by vm_compute.
Qed.

(** A name in the metadata directory that no catalog object has. *)
Lemma foreign_not_obj root name c o :
  head (as_bytes name) = Some c → c = 100 ∨ c = 101 → root +:+ "/metadata/" +:+ name ≠ obj_path root o.
Proof.
  intros Hc Hcc. rewrite obj_path_parts. intros E%string_app_inj_l.
  apply (string_app_inj_l "/metadata/" _ (obj_prefix o +:+ obj_suffix o)) in E.
  assert (Hd : ∀ id, as_bytes (to_string id) ≠ [] ∧
    ∀ x, head (as_bytes (to_string id)) = Some x → 45 ≤ x ≤ 57).
  { intros id. assert (Hne : to_string id ≠ "").
    { intros Heq. destruct (decide (0 ≤ id)).
      - pose proof (parse_to_string (Z.max id 0) id ltac:(lia)) as Hp. by rewrite Heq in Hp.
      - destruct id; [lia|lia|]. by cbn in Heq. }
    destruct (decide (0 ≤ id)) as [Hid|Hid].
    - pose proof (to_string_digits id Hid) as Hall. destruct (to_string id) as [|k s]; [done|].
      split; [done|]. intros x [= <-].
      pose proof (digits_bytes _ (Z.of_N (Ascii.N_of_ascii k)) Hall ltac:(by left)). lia.
    - destruct id; [lia|lia|]. split; [done|]. intros x. cbn. intros [= <-]. lia. }
  rewrite E, as_bytes_app in Hc.
  destruct o as [id|id|id|id|id|id| |]; cbn [obj_prefix obj_suffix] in Hc;
    try (cbn in Hc; injection Hc as <-; lia);
    destruct (Hd id) as [Hn Hx]; destruct (as_bytes (to_string id)) as [|x l]; try done;
    cbn in Hc; injection Hc as ->; specialize (Hx c eq_refl); lia.
Qed.

Lemma eq_del_not_obj root snap o : root +:+ "/" +:+ eq_del_rel_path snap ≠ obj_path root o.
Proof. apply (foreign_not_obj root ("eq-del-" +:+ to_string snap +:+ ".avro") 101); [done|by right]. Qed.

Lemma dv_not_obj root snap o : dv_file_path root snap ≠ obj_path root o.
Proof. apply (foreign_not_obj root ("dv-" +:+ to_string snap +:+ ".dvd") 100); [done|by left]. Qed.

Section HadoopDeletes.
Context {S : Type} `{ReliableReads S} `{!LockStore S} `{!LockLaws S}.
Context `{AvroLaws} `{SerdeLaws} `{JsonLib} `{BincodeLib} `{MetaLaws}.
Context (root warehouse : string).
Implicit Types m : gmap string bytes.

#[local] Instance catalog : CatalogProvider S := hadoop_provider root warehouse.

(** Objects that are not the catalog's do not matter to a table. *)
Lemma table_frame v meta m m' :
  (∀ o, m' !! obj_path root o = m !! obj_path root o) → table m root v meta → same_listings m root v meta m'.
Proof.
  intros Hag Ht. assert (Hon : agree_on root (snap_ids meta) m m') by (intros i Hi o Ho; apply Hag).
  destruct (listings_agree m m' root meta (t_ok _ _ _ _ Ht) Hon) as [Hok Hl].
  split; [|done]. split; [|done|apply Ht]. eapply stored_agree; [| |apply Ht]; apply Hag.
Qed.

Lemma commit_input_frame v meta m m' sn :
  (∀ o, m' !! obj_path root o = m !! obj_path root o) → table m root v meta →
  commit_input m root warehouse meta sn → commit_input m' root warehouse meta sn.
Proof.
  intros Hag Ht. apply commit_input_agree; [apply Ht|]. intros i Hi o Ho. apply Hag.
Qed.

Lemma wp_load_table m v meta Q :
  table m root v meta → Q (Ret (Ok (to_table_metadata meta))) m → wp m cp_load_table Q.
Proof. intros Ht HQ. apply wp_bind. eapply wp_load; [apply Ht|]. by apply wp_ret. Qed.

Lemma wp_cp_list_files m v meta sid Q :
  table m root v meta → Q (Ret (files_in m meta sid)) m → wp m (cp_list_files sid) Q.
Proof. intros Ht HQ. apply wp_bind. eapply wp_load; [apply Ht|]. by apply wp_list_files. Qed.

Lemma wp_cp_list_deletes m v meta sid Q :
  table m root v meta → Q (Ret (deletes_in m meta sid)) m → wp m (cp_list_equality_deletes sid) Q.
Proof. intros Ht HQ. apply wp_bind. eapply wp_load; [apply Ht|]. by apply wp_list_deletes. Qed.

Section ByValue.
Context `{!AvroWriterLib} `{!AvroWriterLaws} `{FloatText} {PL : ParquetLib} {AL : ArrowLib}.

Definition eq_del_path (snap : Z) : string := root +:+ "/" +:+ eq_del_rel_path snap.

Definition delete_snapshot (meta : IcebergMetadata) (col : string) (values : list string) (snap : Z)
    (d : bytes) : NewSnapshot :=
  plain_snapshot snap (im_current_snapshot_id meta) [] Delete
    [mk_eqdel (eq_del_rel_path snap) [(column_field (to_table_metadata meta) col).1]
       (Zlen values) (Zlen d) (Some (col, values)) 0].

(** What [delete_where] needs: a published table at its own location, values of the
    column's type, a fresh id, and a store and lock that work. *)
Record delete_ready (s : S) (v : Z) (meta : IcebergMetadata) (col : string) (values : list string)
    (snap : Z) : Prop := {
  dr_inv : store_inv s;
  dr_table : table (view s) root v meta;
  dr_location : trim_end_slashes (im_location meta) = root;
  dr_column : avro_name col = true;
  dr_values : values ≠ [];
  dr_typed : values_typed (column_field (to_table_metadata meta) col).2 values;
  dr_id : 0 ≤ snap;
  dr_input d : write_equality_delete_avro col (column_field (to_table_metadata meta) col).1
      (column_field (to_table_metadata meta) col).2 values = Ok d →
    commit_input (view s) root warehouse meta (delete_snapshot meta col values snap d);
  dr_version : fits 32 (v + 1);
  dr_lock : lock_works root;
  dr_puts : puts_succeed S;
}.

Lemma wp_delete_where s v meta col values snap now :
  delete_ready s v meta col values snap →
  wp (view s) (delete_where col values snap now) (λ o m', o = Ret (Ok tt) ∧
    ∃ d meta', read_equality_delete_values d =
        Ok (pair col <$> delete_texts (column_field (to_table_metadata meta) col).2 values) ∧
      committed (<[eq_del_path snap := d]> (view s)) root warehouse v meta
        (delete_snapshot meta col values snap d) m' meta').
Proof.
  intros [Hi Ht Hloc Hcol Hne Hty Hid Hin Hv Hlock Hput].
  destruct (delete_file_written col (column_field (to_table_metadata meta) col).1 _ values Hcol Hty)
    as (d & Hw & Hr).
  specialize (Hin d Hw). unfold delete_where. destruct values as [|val values]; [done|].
  apply wp_bind. eapply wp_load_table; [exact Ht|].
  change (tm_location (to_table_metadata meta)) with (im_location meta). rewrite Hloc.
  destruct (column_field (to_table_metadata meta) col) as [fid ty] eqn:Ef. cbn [fst snd] in *.
  apply wp_bind, wp_result. rewrite Hw. fold (eq_del_path snap).
  apply wp_bind, wp_put_; [|by intros e He].
  set (m1 := <[eq_del_path snap := d]> (view s)).
  assert (Hag : ∀ o, m1 !! obj_path root o = view s !! obj_path root o).
  { intros o. apply lookup_insert_ne, eq_del_not_obj. }
  destruct (table_frame _ _ _ _ Hag Ht) as [Ht1 _].
  apply wp_bind. eapply (wp_commit m1 root warehouse v meta); [done| |done|done|done| |].
  - eapply commit_input_frame; [exact Hag|done|]. revert Hin. unfold delete_snapshot. by rewrite Ef.
  - intros m' meta' Hc. apply wp_ret. split; [done|]. exists d, meta'. split; [done|].
    revert Hc. unfold delete_snapshot. rewrite Ef. done.
  - by intros e m' He.
Qed.

(** The filter built from the table's delete files after the commit. *)
Lemma filter_after m d v meta col values snap m' meta' ds f0 texts :
  0 ≤ snap →
  committed (<[eq_del_path snap := d]> m) root warehouse v meta
    (delete_snapshot meta col values snap d) m' meta' →
  read_equality_delete_values d = Ok (pair col <$> texts) → texts ≠ [] →
  deletes_in (<[eq_del_path snap := d]> m) meta None = Ok ds → filter_in m ds = Ok f0 →
  Forall (λ e, ed_path e ≠ eq_del_path snap ∧ ∀ o, ed_path e ≠ obj_path root o) ds →
  ∃ ds', deletes_in m' meta' None = Ok ds' ∧
    filter_in m' ds' = Ok (f0 ++ [(commit_seq meta, {[col := list_to_set texts]})]).
Proof.
  intros Hid Hc Hd Hne Hds Hf0 Hall.
  assert (Hp : m' !! eq_del_path snap = Some d).
  { rewrite (c_frame _ _ _ _ _ _ _ _ Hc) by (intros [o Ho]; by apply eq_del_not_obj in Ho).
    apply lookup_insert_eq. }
  eexists. split; [by apply (c_deletes _ _ _ _ _ _ _ _ Hc ds)|].
  assert (Hold : filter_in m' ds = Ok f0).
  { rewrite <- Hf0. apply filter_in_agree. eapply Forall_impl; [exact Hall|]. intros e [He Ho].
    rewrite (c_frame _ _ _ _ _ _ _ _ Hc) by (intros [o Hx]; by apply (Ho o)).
    by apply lookup_insert_ne. }
  unfold filter_in in *. rewrite (try_map_app _ _ _ _ Hold).
  unfold committed_deletes, delete_snapshot, plain_snapshot. cbn [ns_equality_delete_files fmap list_fmap try_map].
  unfold absolute_delete. cbn [ed_path delete_back]. rewrite eq_del_relative by done.
  cbn [ed_path delete_back ed_sequence_number]. fold (eq_del_path snap). rewrite Hp. cbn [ok_or mbind result_bind].
  rewrite Hd. cbn [mbind result_bind]. by rewrite predicate_of_column.
Qed.

(** Deleting by value hides exactly the right rows.  After [delete_where] the data
    files are listed as before, and the filter a scan builds hides, besides the rows
    that were hidden, those of files committed earlier whose column has one of the
    values (a null never has); files committed later are not touched. *)
Theorem delete_where_hides s v meta col values snap now f0 :
  delete_ready s v meta col values snap →
  (∃ ds, (cp_list_equality_deletes None s).2 = Ret (Ok ds) ∧
    (from_files ds s).2 = Ret (Ok f0) ∧
    Forall (λ d, ed_path d ≠ eq_del_path snap ∧ ∀ o, ed_path d ≠ obj_path root o) ds) →
  let '(s', o) := delete_where col values snap now s in
  let texts := delete_texts (column_field (to_table_metadata meta) col).2 values in
  o = Ret (Ok tt) ∧
  (cp_list_files None s').2 = (cp_list_files None s).2 ∧
  ∃ ds' f1, (cp_list_equality_deletes None s').2 = Ret (Ok ds') ∧
    (from_files ds' s').2 = Ret (Ok f1) ∧
    ∀ b row seq, deleted_by_value f1 b row seq =
      deleted_by_value f0 b row seq ||
      ((seq <? commit_seq meta) && default false (column_matches b row col (list_to_set texts))).
Proof.
  intros Hr (ds & Hds & Hf0 & Hpaths). pose proof Hr as [Hi Ht Hloc Hcol Hne Hty Hid Hin Hv Hlock Hput].
  destruct (wp_run s (view s) _ _ (wp_delete_where s v meta col values snap now Hr) ltac:(done))
    as (m' & [Hi' Hm'] & Ho & d & meta' & Hd & Hc).
  destruct (delete_where col values snap now s) as [s' o]. cbn [fst snd] in *. subst m'. cbv zeta.
  set (m1 := <[eq_del_path snap := d]> (view s)) in *.
  assert (Hag : ∀ o, m1 !! obj_path root o = view s !! obj_path root o).
  { intros ob. apply lookup_insert_ne, eq_del_not_obj. }
  destruct (table_frame _ _ _ _ Hag Ht) as [Ht1 Hl1].
  assert (Ht' : table (view s') root (v + 1) meta') by apply Hc.
  change (cp_list_equality_deletes None s).2 with (list_equality_deletes root None s).2 in Hds.
  rewrite (list_deletes_table s root v meta) in Hds by done. injection Hds as Hds.
  change (cp_list_files None s').2 with (list_files root None s').2.
  change (cp_list_files None s).2 with (list_files root None s).2.
  rewrite (list_files_table s root v meta), (list_files_table s' root (v + 1) meta') by done.
  change (cp_list_equality_deletes None s').2 with (list_equality_deletes root None s').2.
  rewrite (list_deletes_table s' root (v + 1) meta') by done.
  destruct (current_listing _ _ _ _ Ht1) as [[fs Hfs] _].
  split; [done|]. split.
  { f_equal. rewrite <- (proj1 (Hl1 None)).
    rewrite (c_files _ _ _ _ _ _ _ _ Hc fs) by done. rewrite Hfs. f_equal.
    unfold committed_files, commit_files. cbn. destruct (3 <=? _); by rewrite app_nil_r. }
  destruct (filter_after (view s) d v meta col values snap (view s') meta' ds f0
    (delete_texts (column_field (to_table_metadata meta) col).2 values)) as (ds' & Hds' & Hf1).
  { done. } { exact Hc. } { done. } { by apply delete_texts_nonempty. }
  { rewrite <- Hds. apply (proj2 (Hl1 None)). }
  { rewrite (from_files_run s) in Hf0 by done. by injection Hf0. }
  { done. }
  eexists ds', _. rewrite Hds'. split; [done|]. rewrite from_files_run, Hf1 by done. split; [done|].
  intros b row seq. rewrite deleted_by_value_app. f_equal. cbn. by rewrite values_match_singleton, orb_false_r.
Qed.

End ByValue.

(* ------------------------------------------------------------------ *)
(** ** Deleting by position                                            *)
(* ------------------------------------------------------------------ *)

Section ByPosition.
Context `{!ReliableRanges S} `{RoaringLaws}.

Lemma wp_catch {A} m (prog : IO S A) Q :
  wp m prog (λ o m', match o with Ret r => Q (Ret (Ok r)) m' | Panic => Q Panic m' end) →
  wp m (io_catch prog) Q.
Proof.
  intros Hp s Hs. destruct (Hp s Hs) as (s' & o & m' & E & Hs' & HQ). unfold io_catch. rewrite E.
  destruct o as [r|]; by eexists s', _, m'.
Qed.

(** The bitmap of a vector in the contents of a store. *)
Definition vector_in m (dv : DeletionVector) : option Bitmap :=
  d ← m !! dv_path dv;
  b ← slice d (dv_offset dv) (wrap 64 (dv_offset dv + dv_length dv));
  match rb_deserialize b with Ok bm => Some bm | Err _ => None end.

Lemma wp_load_deletion_vector m dv Q :
  (∀ r, match vector_in m dv with Some b => r = Ok b | None => ∃ e, r = Err e end → Q (Ret r) m) →
  wp m (load_deletion_vector dv) Q.
Proof.
  intros HQ. apply wp_bind, wp_get_range. intros r Hr. unfold vector_in in HQ.
  destruct (m !! dv_path dv) as [d|]; cbn in Hr, HQ; [|destruct Hr as [e ->]; apply HQ; eauto].
  destruct (slice d _ _) as [b|]; cbn in Hr, HQ; [|destruct Hr as [e ->]; apply HQ; eauto]. subst r.
  destruct (rb_deserialize b) as [bm|]; cbn in HQ; [apply wp_ret; by apply HQ|].
  apply wp_outcome, HQ. eauto.
Qed.

Definition bitmap_in m (f : DataFileEntry) : Bitmap :=
  default rb_new (dv ← df_deletion_vector f; vector_in m dv).

Lemma wp_existing_bitmap m f Q : Q (Ret (Ok (bitmap_in m f))) m → wp m (existing_bitmap f) Q.
Proof.
  unfold existing_bitmap, bitmap_in. destruct (df_deletion_vector f) as [dv|]; [|by apply wp_ret]. intros HQ.
  apply wp_bind, wp_catch, wp_load_deletion_vector. intros r Hr. apply wp_ret. cbn in HQ.
  destruct (vector_in m dv); [by subst r|by destruct Hr as [e ->]].
Qed.

Lemma contains_inserts ids b x :
  rb_contains (foldl rb_insert b ids) x = bool_decide (x ∈ ids) || rb_contains b x.
Proof.
  revert b. induction ids as [|i ids IH]; intros b; cbn [foldl]; [done|].
  rewrite IH, rb_contains_insert. rewrite !(bool_decide_ext (x ∈ i :: ids) (x = i ∨ x ∈ ids)) by apply elem_of_cons.
  rewrite bool_decide_or. by destruct (bool_decide (x ∈ ids)), (bool_decide (x = i)).
Qed.

(** A written vector can be loaded. *)
Lemma written_vector b snap p card :
  ∃ d off len, write_single_dv b snap = Ok (d, off, len) ∧
    (Zlen d < 2 ^ 64 → ∀ m, m !! p = Some d →
      ∃ b', vector_in m (mk_dv p off len card) = Some b' ∧ ∀ x, rb_contains b' x = rb_contains b x).
Proof.
  destruct (rb_roundtrip b) as (blob & Hs & b' & Hd & Hb). unfold write_single_dv. rewrite Hs.
  cbn [mbind result_bind]. eexists _, _, _. split; [reflexivity|]. intros Hlt m Hp. exists b'. split; [|done].
  unfold vector_in. cbn [dv_path dv_offset dv_length]. rewrite Hp. cbn [mbind option_bind].
  assert (Hb4 : length PUFFIN_MAGIC = 4%nat) by done. rewrite !length_app in Hlt.
  rewrite (wrap_id 64) by (unfold fits; lia). rewrite slice_mid by lia. cbn. by rewrite Hd.
Qed.

(** What a listing says of a file's rows. *)
Definition file_key (f : DataFileEntry) : string * option DeletionVector := (df_path f, df_deletion_vector f).

Lemma assign_row_ids_keys n fs : file_key <$> (assign_row_ids n fs).1 = file_key <$> fs.
Proof.
  revert n. induction fs as [|f fs IH]; intros n; [done|]. cbn [assign_row_ids].
  destruct (df_first_row_id f).
  - specialize (IH n). destruct (assign_row_ids n fs). cbn in IH |- *. by rewrite IH.
  - specialize (IH (add_i64 n (as_i64 (df_record_count f)))). destruct (assign_row_ids _ fs).
    cbn in IH |- *. by rewrite IH.
Qed.

Lemma commit_files_keys meta fs :
  file_key <$> (commit_files warehouse meta fs).1 = file_key ∘ absolute_file warehouse <$> fs.
Proof.
  rewrite list_fmap_compose. unfold commit_files. destruct (3 <=? _); [apply assign_row_ids_keys|done].
Qed.

Definition rows_snapshot (meta : IcebergMetadata) (fs : list DataFileEntry) (i : nat)
    (target : DataFileEntry) (snap : Z) (dv : DeletionVector) : NewSnapshot :=
  plain_snapshot snap (im_current_snapshot_id meta) (<[i := set_deletion_vector dv target]> fs) Replace [].

(** What [delete_rows] needs: a published V3 table at its own location that lists the
    target, whose deletion vector, if it has one, can be loaded and holds the positions
    [b0]; and a store and lock that work. *)
Record rows_ready (s : S) (v : Z) (meta : IcebergMetadata) (file_path : string) (row_ids : list Z)
    (snap : Z) (fs : list DataFileEntry) (i : nat) (target : DataFileEntry) (b0 : Bitmap) : Prop := {
  rr_inv : store_inv s;
  rr_table : table (view s) root v meta;
  rr_location : trim_end_slashes (im_location meta) = root;
  rr_format : 3 ≤ im_format_version meta;
  rr_rows : row_ids ≠ [];
  rr_files : (cp_list_files None s).2 = Ret (Ok fs);
  rr_target : list_find (is_target file_path) fs = Some (i, target);
  rr_bitmap : match df_deletion_vector target with
              | Some dv => vector_in (view s) dv = Some b0
              | None => b0 = rb_new
              end;
  rr_written d off len : write_single_dv (foldl rb_insert b0 row_ids) snap = Ok (d, off, len) →
    Zlen d < 2 ^ 64 ∧
    commit_input (view s) root warehouse meta (rows_snapshot meta fs i target snap
      (mk_dv (dv_file_path root snap) off len (as_i64 (rb_len (foldl rb_insert b0 row_ids)))));
  rr_version : fits 32 (v + 1);
  rr_lock : lock_works root;
  rr_puts : puts_succeed S;
}.

Lemma wp_delete_rows s v meta file_path row_ids snap now fs i target b0 :
  rows_ready s v meta file_path row_ids snap fs i target b0 →
  wp (view s) (delete_rows file_path row_ids snap now) (λ o m', o = Ret (Ok tt) ∧
    ∃ d dv b' meta', 
      vector_in (<[dv_file_path root snap := d]> (view s)) dv = Some b' ∧
      dv_path dv = dv_file_path root snap ∧
      (∀ x, rb_contains b' x = bool_decide (x ∈ row_ids) || rb_contains b0 x) ∧
      committed (<[dv_file_path root snap := d]> (view s)) root warehouse v meta
        (rows_snapshot meta fs i target snap dv) m' meta').
Proof.
  intros [Hi Ht Hloc Hfmt Hne Hfs Htg Hb0 Hw Hv Hlock Hput].
  unfold delete_rows. destruct row_ids as [|r rs]; [done|]. set (row_ids := r :: rs) in *. clearbody row_ids.
  apply wp_bind. eapply wp_load_table; [exact Ht|].
  change (tm_location (to_table_metadata meta)) with (im_location meta). rewrite Hloc.
  rewrite decide_False by (cbn; lia).
  apply wp_bind. eapply wp_cp_list_files; [exact Ht|].
  change (cp_list_files None s).2 with (list_files root None s).2 in Hfs.
  rewrite (list_files_table s root v meta) in Hfs by done. injection Hfs as ->. rewrite Htg.
  apply wp_bind, wp_existing_bitmap.
  assert (bitmap_in (view s) target = b0) as ->.
  { unfold bitmap_in. destruct (df_deletion_vector target) as [dv|]; [|done]. cbn. by rewrite Hb0. }
  set (b1 := foldl rb_insert b0 row_ids) in *. set (dp := dv_file_path root snap) in *.
  destruct (written_vector b1 snap dp (as_i64 (rb_len b1))) as (d & off & len & Ed & Hload).
  destruct (Hw d off len Ed) as [Hlt Hin]. cbv zeta. apply wp_bind, wp_result. rewrite Ed.
  apply wp_bind, wp_put_; [|by intros e He].
  destruct (Hload Hlt _ (lookup_insert_eq (view s) dp d)) as (b' & Hvec & Hb').
  assert (Hag : ∀ o, <[dp := d]> (view s) !! obj_path root o = view s !! obj_path root o)
    by (intros o; apply lookup_insert_ne, dv_not_obj).
  apply wp_bind. eapply (wp_commit _ root warehouse v meta);
    [by eapply table_frame|by eapply commit_input_frame|done|done|done| |by intros e m' He].
  intros m' meta' Hc. apply wp_ret. split; [done|]. eexists d, _, b', meta'. split; [exact Hvec|].
  split; [done|]. split; [|exact Hc]. intros x. rewrite Hb'. unfold b1. apply contains_inserts.
Qed.

(** The listing and the vector after the commit. *)
Lemma rows_listing m v meta fs i target snap dv m' meta' :
  committed m root warehouse v meta (rows_snapshot meta fs i target snap dv) m' meta' →
  ∃ fs', files_in m' meta' None = Ok fs' ∧
    file_key <$> fs' = <[i := (df_path (absolute_file warehouse target), Some dv)]>
                         (file_key ∘ absolute_file warehouse <$> fs).
Proof.
  intros Hc. rewrite (c_files _ _ _ _ _ _ _ _ Hc []) by done. eexists. split; [done|].
  cbn [app]. rewrite <- list_fmap_compose. unfold committed_files.
  rewrite (list_fmap_ext _ file_key) by done.
  rewrite commit_files_keys. cbn [rows_snapshot plain_snapshot ns_files]. by rewrite list_fmap_insert.
Qed.

Lemma rows_vector m v meta sn m' meta' dv snap :
  committed m root warehouse v meta sn m' meta' → dv_path dv = dv_file_path root snap →
  vector_in m' dv = vector_in m dv.
Proof.
  intros Hc Hp. unfold vector_in. rewrite (c_frame _ _ _ _ _ _ _ _ Hc); [done|].
  rewrite Hp. intros [ob Hob]. by apply dv_not_obj in Hob.
Qed.

(** After [delete_rows] the table lists the same files; the target carries a
    vector that loads to the bitmap it had with the row ids added, and the other files
    keep theirs. *)
Theorem delete_rows_hides s v meta file_path row_ids snap now fs i target b0 :
  rows_ready s v meta file_path row_ids snap fs i target b0 →
  let '(s', o) := delete_rows file_path row_ids snap now s in
  o = Ret (Ok tt) ∧
  ∃ fs' dv b', (cp_list_files None s').2 = Ret (Ok fs') ∧
    file_key <$> fs' = <[i := (df_path (absolute_file warehouse target), Some dv)]>
                         (file_key ∘ absolute_file warehouse <$> fs) ∧
    (load_deletion_vector dv s').2 = Ret (Ok b') ∧
    ∀ x, rb_contains b' x = bool_decide (x ∈ row_ids) || rb_contains b0 x.
Proof.
  intros Hr. destruct (wp_run s (view s) _ _ (wp_delete_rows s v meta file_path row_ids snap now fs i target b0 Hr)
    ltac:(split; [apply Hr|done])) as (m' & [Hi' Hm'] & Ho & d & dv & b' & meta' & Hvec & Hp & Hb & Hc).
  destruct (delete_rows file_path row_ids snap now s) as [s' o]. cbn [fst snd] in *. subst m'.
  split; [done|]. change (cp_list_files None s').2 with (list_files root None s').2.
  rewrite (list_files_table s' root (v + 1) meta') by (done || apply Hc).
  destruct (rows_listing _ _ _ _ _ _ _ _ _ _ Hc) as (fs' & -> & Hkeys).
  exists fs', dv, b'. split_and!; [done|done| |done].
  destruct (wp_run s' (view s') (load_deletion_vector dv) (λ o _, o = Ret (Ok b'))) as (m0 & _ & E); [|done|exact E].
  apply wp_load_deletion_vector. intros r. rewrite (rows_vector _ _ _ _ _ _ _ snap Hc Hp), Hvec. by intros ->.
Qed.

(** [delete_rows] commits a replacement of the table without its equality
    deletes, so the filter a scan builds afterwards hides no row: what [delete_where]
    had deleted is back. *)
Theorem delete_rows_revives `{!AvroWriterLib} `{FloatText} {PL : ParquetLib} {AL : ArrowLib}
    s v meta file_path row_ids snap now fs i target b0 :
  rows_ready s v meta file_path row_ids snap fs i target b0 →
  let '(s', o) := delete_rows file_path row_ids snap now s in
  ∃ ds f, (cp_list_equality_deletes None s').2 = Ret (Ok ds) ∧ (from_files ds s').2 = Ret (Ok f) ∧
    ∀ b row seq, deleted_by_value f b row seq = false.
Proof.
  intros Hr. destruct (wp_run s (view s) _ _ (wp_delete_rows s v meta file_path row_ids snap now fs i target b0 Hr)
    ltac:(split; [apply Hr|done])) as (m' & [Hi' Hm'] & Ho & d & dv & b' & meta' & Hvec & Hp & Hb & Hc).
  destruct (delete_rows file_path row_ids snap now s) as [s' o]. cbn [fst snd] in *. subst m'.
  change (cp_list_equality_deletes None s').2 with (list_equality_deletes root None s').2.
  rewrite (list_deletes_table s' root (v + 1) meta') by (done || apply Hc).
  rewrite (c_deletes _ _ _ _ _ _ _ _ Hc []) by done. exists [], []. by rewrite from_files_run.
Qed.

End ByPosition.
End HadoopDeletes.
