(* ===== verification/SearchTheorems.v ===== *)
(** * What searches return

    Admission control never asks for more than the process budget.  A strict search
    only reads, and returns no row hidden by a deletion vector or an equality delete;
    composed with [delete_where] and [delete_rows] on a Hadoop table this says that
    deleted rows are gone.  Without fusion, the results are the best of everything the
    files returned.  Text search does not look at deletion vectors. *)

From S2P Require Import Prelude Core Footer FileFormat Store Effects IndexLoader Json Avro Manifest.
From S2P Require Import ManifestTheorems Puffin Bloom Catalog CatalogTheorems HadoopTheorems Arrow.
From S2P Require Import Deletes DeletesTheorems Floats Ranking Bm25 Search.

(* ------------------------------------------------------------------ *)
(** ** Admission                                                       *)
(* ------------------------------------------------------------------ *)

Lemma budget_units_range size : 0 ≤ size → 1 ≤ file_search_budget_units size ≤ PROCESS_FILE_SEARCH_BUDGET_UNITS.
Proof. unfold file_search_budget_units, PROCESS_FILE_SEARCH_BUDGET_UNITS. lia. Qed.

Lemma budget_fold sizes total :
  0 ≤ total ≤ PROCESS_FILE_SEARCH_BUDGET_UNITS → Forall (λ n, 0 ≤ n) sizes →
  foldl (λ total units, Z.min (saturating_add 32 total units) PROCESS_FILE_SEARCH_BUDGET_UNITS) total
    (file_search_budget_units <$> sizes) =
  Z.min (total + sum_by file_search_budget_units sizes) PROCESS_FILE_SEARCH_BUDGET_UNITS.
Proof.
  intros Ht Hall. revert total Ht. induction Hall as [|n sizes Hn Hall IH]; intros total Ht; cbn [foldl fmap list_fmap].
  - cbn. unfold PROCESS_FILE_SEARCH_BUDGET_UNITS in *. lia.
  - pose proof (budget_units_range n Hn) as Hu.
    assert (Hnn : 0 ≤ sum_by file_search_budget_units sizes).
    { clear -Hall. induction Hall as [|x l Hx _ IH]; cbn; [lia|]. pose proof (budget_units_range x Hx). lia. }
    unfold saturating_add. rewrite (Z.min_r (2 ^ 32 - 1)) by (unfold PROCESS_FILE_SEARCH_BUDGET_UNITS in *; lia).
    rewrite IH by (unfold PROCESS_FILE_SEARCH_BUDGET_UNITS in *; lia).
    cbn [sum_by]. unfold PROCESS_FILE_SEARCH_BUDGET_UNITS in *. lia.
Qed.

(** Admission by file size.  A file asks for between one permit and the whole
    budget, so an acquire can always be granted; below the budget the permits cover
    the file and not a quantum more; and the estimate for a set of files is the sum of
    what they ask for, capped at the budget. *)
Theorem search_budget_bounds (size : Z) (sizes : list Z) :
  fits 64 size → Forall (fits 64) sizes →
  let units := file_search_budget_units size in
  1 ≤ units ≤ PROCESS_FILE_SEARCH_BUDGET_UNITS ∧
  (units < PROCESS_FILE_SEARCH_BUDGET_UNITS →
    size ≤ units * FILE_SEARCH_BUDGET_QUANTUM_BYTES ∧
    (1 < units → (units - 1) * FILE_SEARCH_BUDGET_QUANTUM_BYTES < size)) ∧
  estimate_file_search_budget_bytes sizes =
    Z.min (sum_by file_search_budget_units sizes) PROCESS_FILE_SEARCH_BUDGET_UNITS *
      FILE_SEARCH_BUDGET_QUANTUM_BYTES.
Proof.
  intros Hs Hall units. split; [by apply budget_units_range, Hs|]. split.
  - intros Hu. subst units. unfold file_search_budget_units, saturating_add in *.
    set (Q := FILE_SEARCH_BUDGET_QUANTUM_BYTES) in *. assert (HQ : Q = 16777216) by done.
    unfold PROCESS_FILE_SEARCH_BUDGET_UNITS in *. unfold fits in Hs. clearbody Q. subst Q.
    destruct (decide (size + (16777216 - 1) < 2 ^ 64)).
    + rewrite (Z.min_r _ (size + _)) in * by lia.
      pose proof (Z.div_mod (size + (16777216 - 1)) 16777216 ltac:(lia)).
      pose proof (Z.mod_pos_bound (size + (16777216 - 1)) 16777216 ltac:(lia)). lia.
    + rewrite (Z.min_l _ (size + _)) in * by lia. exfalso.
      change ((2 ^ 64 - 1) / 16777216) with 1099511627775 in Hu. lia.
  - unfold estimate_file_search_budget_bytes. rewrite budget_fold; [done|done|].
    eapply Forall_impl; [exact Hall|]. intros n Hn. apply Hn.
Qed.

(* ------------------------------------------------------------------ *)
(** ** Programs that only read                                         *)
(* ------------------------------------------------------------------ *)

Section Safe.
Context {S : Type} `{StoreLaws S}.

(** The program ends, leaves the contents alone, and what it returns satisfies [P]. *)
Definition safe {A} (m : gmap string bytes) (prog : IO S A) (P : A → Prop) : Prop :=
  wp m prog (λ o m', m' = m ∧ ∀ a, o = Ret (Ok a) → P a).

Lemma safe_ret {A} m (a : A) (P : A → Prop) : P a → safe m (mret a) P.
Proof. intros HP. apply wp_ret. split; [done|]. by intros a' [= <-]. Qed.

Lemma safe_outcome {A} m (o : outcome AilakeError A) (P : A → Prop) :
  (∀ a, o = Ret (Ok a) → P a) → safe m (io_outcome o) P.
Proof. intros HP. by apply wp_outcome. Qed.

Lemma safe_result {A} m (r : AilakeResult A) (P : A → Prop) : (∀ a, r = Ok a → P a) → safe m (io_result r) P.
Proof. intros HP. apply wp_result. split; [done|]. intros a [= ->]. by apply HP. Qed.

Lemma safe_err {A} m e (P : A → Prop) : safe m (io_err e) P.
Proof. apply wp_err. by split. Qed.

Lemma safe_bind {A B} m (prog : IO S A) (k : A → IO S B) (P : A → Prop) (R : B → Prop) :
  safe m prog P → (∀ a, P a → safe m (k a) R) → safe m (prog ≫= k) R.
Proof.
  intros Hp Hk. apply wp_bind. eapply wp_mono; [exact Hp|]. intros o m' [-> HP].
  destruct o as [[a|e]|]; [apply Hk; by apply HP|by split..].
Qed.

Lemma safe_mono {A} m (prog : IO S A) (P R : A → Prop) : safe m prog P → (∀ a, P a → R a) → safe m prog R.
Proof. intros Hp HPR. eapply wp_mono; [exact Hp|]. intros o m' [-> HP]. split; [done|]. eauto. Qed.

Lemma safe_catch {A} m (prog : IO S A) (P : A → Prop) :
  safe m prog P → safe m (io_catch prog) (λ r, ∀ a, r = Ok a → P a).
Proof.
  intros Hp. apply wp_catch. eapply wp_mono; [exact Hp|]. intros o m' [-> HP].
  destruct o as [r|]; [|by split]. split; [done|]. intros r' [= <-] a ->. by apply HP.
Qed.

Lemma safe_map {A B} m (f : A → IO S B) (P : A → B → Prop) xs :
  (∀ x, x ∈ xs → safe m (f x) (P x)) → safe m (io_map f xs) (Forall2 P xs).
Proof.
  induction xs as [|x xs IH]; intros Hf; cbn [io_map]; [by apply safe_ret|].
  eapply safe_bind; [apply Hf; by left|]. intros y Hy. cbn beta in Hy.
  eapply safe_bind; [apply IH; intros; apply Hf; by right|]. intros ys Hys. apply safe_ret. by constructor.
Qed.

Context `{!ReliableReads S}.

Lemma safe_get m p : safe m (get_ p) (λ d, m !! p = Some d).
Proof. apply wp_get_. split; [done|]. destruct (m !! p); by intros a [= ->]. Qed.

Lemma safe_io_get m p : safe m (io_get p) (λ _, True).
Proof. by apply wp_get. Qed.
Lemma safe_io_file_size m p : safe m (io_file_size p) (λ _, True).
Proof. by apply wp_file_size. Qed.

Context `{!ReliableRanges S}.

Lemma safe_get_range m p a b : safe m (get_range_ p a b) (λ _, True).
Proof. by apply wp_get_range. Qed.

Lemma safe_io_get_range m p a b : safe m (io_get_range p a b) (λ _, True).
Proof.
  intros s [Hi <-]. pose proof (range_reliable s p a b Hi) as Hr. unfold io_get_range, io_op.
  destruct (st_get_range s p a b) as [s' r]. destruct Hr as (Hi' & Hv & _). by eexists s', _, (view s).
Qed.

End Safe.

(** Steps through a program of which nothing but reading matters. *)
Ltac reads :=
  repeat first
    [ apply safe_ret; exact I
    | apply safe_err
    | apply safe_io_get | apply safe_io_file_size | apply safe_io_get_range | apply safe_get_range
    | apply safe_outcome; intros; exact I
    | apply safe_result; intros; exact I
    | eapply safe_mono; [apply safe_get|intros; exact I]
    | eapply safe_mono; [eapply (safe_catch _ _ (λ _, True))|intros; exact I]
    | eapply (safe_bind _ _ _ (λ _, True)); [|intros ? _]
    | progress (unfold file_size_, range_or_tail, get_range_)
    | case_match ].

(* ------------------------------------------------------------------ *)
(** ** Visible rows                                                    *)
(* ------------------------------------------------------------------ *)

Section Visible.
Context {S : Type} `{ReliableReads S} `{!ReliableRanges S} `{!CatalogProvider S}.
Context `{RoaringLib} `{AvroLib} `{AvroWriterLib} `{FloatText} `{JsonLib} `{BincodeLib} `{Bm25Lib} `{TextLib} `{SerdeLib}.
Context {PL : ParquetLib} {IL : IndexLib} {AL : ArrowLib} {QL : QueryLib} `{SortLaws} `{Kernels}.
Context (split : Split).
Implicit Types m : gmap string bytes.

(** What the catalog answers while the contents are [m]. *)
Record catalog_at m (meta : TableMetadata) (fs : list DataFileEntry) (ds : list EqualityDeleteFile) : Prop := {
  ca_load : safe m cp_load_table (λ x, x = meta);
  ca_files : safe m (cp_list_files None) (λ x, x = fs);
  ca_deletes : safe m (cp_list_equality_deletes None) (λ x, x = ds);
}.

Definition not_in_dv m (f : DataFileEntry) (row : Z) : Prop :=
  ∀ dv, df_deletion_vector f = Some dv →
    ∃ bm, vector_in m dv = Some bm ∧ rb_contains bm (wrap 32 row) = false.

(** No equality delete of the filter hides the row of the stored file. *)
Definition not_hidden m (meta : TableMetadata) (col : string) (dim : Z) (flt : EqualityDeleteFilter)
    (f : DataFileEntry) (row : Z) : Prop :=
  flt = [] ∨
  ∃ d batch vs, m !! df_path f = Some d ∧ read_filled (mk_reader d col) dim meta = Ok (batch, vs) ∧
    deleted_by_value flt batch row (df_sequence_number f) = false.

Definition row_visible m meta col dim flt f row : Prop :=
  not_in_dv m f row ∧ not_hidden m meta col dim flt f row.

Lemma safe_load_primary m path : safe m (load_primary_index path) (λ _, True).
Proof. unfold load_primary_index, resolve_ailk_offset. reads. Qed.

Lemma safe_bm25_stats m path : safe m (load_bm25_stats path) (λ _, True).
Proof. unfold load_bm25_stats. reads. Qed.

Lemma safe_bloom_map m meta : safe m (load_bloom_map meta) (λ _, True).
Proof. unfold load_bloom_map. reads. Qed.

Lemma safe_from_files m ds : safe m (from_files ds) (λ f, filter_in m ds = Ok f).
Proof. apply wp_from_files. split; [done|]. by intros f [= ->]. Qed.

Lemma outcome_bind_Ok {E A B} (o : outcome E A) (k : A → outcome E B) b :
  o ≫= k = Ret (Ok b) → ∃ a, o = Ret (Ok a) ∧ k a = Ret (Ok b).
Proof. destruct o as [[a|e]|]; [eauto|done|done]. Qed.

Lemma mapM_fst {A B} (g : Z * A → option B) (hits : list (Z * A)) rows :
  mapM (λ hit, (λ d, (hit.1, d)) <$> g hit) hits = Some rows → fst <$> rows = fst <$> hits.
Proof.
  intros Hm%mapM_Some. induction Hm as [|hit row hits rows Hr _ IH]; [done|]. cbn. rewrite IH. f_equal.
  by apply fmap_Some in Hr as (d & _ & ->).
Qed.

(** In strict mode the filter is the snapshot's. *)
Lemma safe_delete_filter m meta fs ds :
  catalog_at m meta fs ds → safe m (load_delete_filter true) (λ f, filter_in m ds = Ok f).
Proof.
  intros Hc. eapply safe_bind; [apply safe_catch, (ca_deletes _ _ _ _ Hc)|]. intros r Hr.
  destruct r as [[|e es]|e]; [|specialize (Hr _ eq_refl) as <-|apply safe_err].
  { specialize (Hr [] eq_refl) as <-. by apply safe_ret. }
  eapply safe_bind; [apply safe_catch, safe_from_files|]. intros [f|e'] Hf; [|apply safe_err].
  apply safe_ret. by apply Hf.
Qed.

Lemma safe_dv m entry :
  safe m (load_dv true entry) (λ dv, ∀ row, dv_hides dv row = false → not_in_dv m entry row).
Proof.
  unfold load_dv. destruct (df_deletion_vector entry) as [dv|] eqn:Edv.
  - eapply safe_bind.
    { apply (safe_catch _ _ (λ bm, vector_in m dv = Some bm)). apply wp_load_deletion_vector. intros r Hr.
      split; [done|]. intros bm [= ->]. destruct (vector_in m dv); [congruence|by destruct Hr]. }
    intros [bm|e] Hbm; [|apply safe_err]. apply safe_ret. intros row Hrow dv' E. rewrite Edv in E.
    injection E as <-. exists bm. split; [by apply Hbm|done].
  - apply safe_ret. intros row _ dv'. by rewrite Edv.
Qed.

(** The rows of an outcome. *)
Definition outcome_rows (o : FileSearchOutcome) : list (Z * string) :=
  ((λ r, (sr_row_id r, sr_file_path r)) <$> fo_results o) ++
  ((λ c : Z * f32bits * string * string, (c.1.1.1, c.1.2)) <$> fo_candidates o).

Lemma add_row_rows path config batch o row :
  outcome_rows (add_row path config batch o row) ≡ₚ (row.1, path) :: outcome_rows o.
Proof.
  destruct row as [row_id d]. unfold add_row, outcome_rows. destruct (hybrid config); cbn.
  - rewrite fmap_app. cbn. solve_Permutation.
  - rewrite fmap_app. cbn. solve_Permutation.
Qed.

Lemma add_rows_rows path config batch o rows :
  outcome_rows (foldl (add_row path config batch) o rows) ≡ₚ
  ((λ row : Z * f32bits, (row.1, path)) <$> rows) ++ outcome_rows o.
Proof.
  revert o. induction rows as [|row rows IH]; intros o; cbn [foldl]; [done|].
  rewrite IH, add_row_rows. cbn. solve_Permutation.
Qed.

Lemma rows_kept_filter keep rows kept :
  rows_kept keep rows = Some kept → kept = filter (λ row : Z * f32bits, keep row.1 = Some true) rows.
Proof.
  revert kept. induction rows as [|row rows IH]; intros kept; cbn [rows_kept]; [by intros [= <-]|].
  rewrite filter_cons. destruct (keep row.1) as [k|]; [|done]. cbn.
  destruct (rows_kept keep rows) as [kept'|]; [|done]. cbn. intros [= <-]. rewrite <- (IH kept' eq_refl).
  destruct k; by case_decide.
Qed.

Lemma kept_rows_visible dv flt batch seq matching rows (P : Z → Prop) path config o :
  (∀ row, row_kept dv flt batch seq matching row = Some true → P row) → Forall (λ p, P p.1 ∧ p.2 = path) (outcome_rows o) →
  ∀ kept hits : list (Z * f32bits),
  rows_kept (row_kept dv flt batch seq matching) rows = Some kept → fst <$> hits = fst <$> kept →
  Forall (λ p, P p.1 ∧ p.2 = path) (outcome_rows (foldl (add_row path config batch) o hits)).
Proof.
  intros HP Ho kept hits Hkept Hhits. rewrite add_rows_rows. apply Forall_app. split; [|done].
  assert (Hall : Forall P (fst <$> hits)).
  { rewrite Hhits, (rows_kept_filter _ _ _ Hkept). apply Forall_fmap, Forall_forall.
    intros row [Hk _]%list_elem_of_filter. by apply HP. }
  apply Forall_fmap. rewrite Forall_fmap in Hall. eapply Forall_impl; [exact Hall|]. by intros row Hr.
Qed.

Definition file_visible m meta col dim flt f (o : FileSearchOutcome) : Prop :=
  Forall (λ p, row_visible m meta col dim flt f p.1 ∧ p.2 = df_path f) (outcome_rows o).

Lemma row_kept_dv dv flt batch seq matching row :
  row_kept dv flt batch seq matching row = Some true → dv_hides dv row = false.
Proof. unfold row_kept. by destruct (dv_hides dv row). Qed.

Lemma row_kept_deletes dv flt b seq matching row :
  row_kept dv flt (Some b) seq matching row = Some true → deleted_by_value flt b row seq = false.
Proof.
  unfold row_kept. destruct (dv_hides dv row); [done|]. destruct (should_delete_row flt b row seq) as [x|] eqn:E; [|done].
  rewrite <- (should_delete_row_value _ _ _ _ _ E). by destruct x.
Qed.

Section File.
Context m (meta : TableMetadata) (col : string) (dim : Z) (flt : EqualityDeleteFilter) (f : DataFileEntry).
Context (dv : option Bitmap) (Hdv : ∀ row, dv_hides dv row = false → not_in_dv m f row).
Context (d : bytes) (Hd : m !! df_path f = Some d).

Lemma scan_file_visible query k metric config matching o :
  scan_file split f query k metric meta config flt dv matching (mk_reader d col) dim = Ret (Ok o) →
  file_visible m meta col dim flt f o.
Proof.
  unfold scan_file. destruct (read_filled (mk_reader d col) dim meta) as [[batch vs]|] eqn:Er; [|done].
  cbn [mbind outcome_bind]. destruct (flat_search _ _ _ _ _) as [hits|]; [|done].
  cbn [or_panic mbind outcome_bind]. destruct (rows_kept _ hits) as [kept|] eqn:Ek; [|done].
  cbn [or_panic mbind outcome_bind]. intros [= <-].
  eapply kept_rows_visible; [|by constructor|exact Ek|reflexivity].
  intros row Hk. split; [by eapply Hdv, row_kept_dv|]. right. exists d, batch, vs.
  split_and!; [done..|by eapply row_kept_deletes].
Qed.

Lemma search_index_visible query k metric config matching o :
  search_index f query k metric meta config col flt dv matching (mk_reader d col) dim = Ret (Ok o) →
  file_visible m meta col dim flt f o.
Proof.
  unfold search_index. destruct (load_any_index_for_column _ _) as [[index|]|]; [|done..].
  cbn [mbind outcome_bind]. set (hits := index_search _ _ _ _).
  intros Ho. apply outcome_bind_Ok in Ho as (pd & Hpd & Ho). apply outcome_bind_Ok in Ho as (kept & Hkept & Ho).
  apply outcome_bind_Ok in Ho as (rows & Hrows & Ho).
  unfold or_panic in Hkept. destruct (rows_kept _ hits) as [kept'|] eqn:Ek; [|done]. injection Hkept as ->.
  injection Ho as <-. unfold or_panic in Hrows. destruct (mapM _ _) as [rows'|] eqn:Em; [|done]. injection Hrows as ->.
  eapply (kept_rows_visible dv flt (fst <$> pd) (df_sequence_number f) matching hits);
    [|by constructor|exact Ek|by eapply mapM_fst].
  intros row Hk. split; [by eapply Hdv, row_kept_dv|]. destruct (decide (flt = [])) as [|Hne]; [by left|]. right.
  rewrite (bool_decide_false (flt = [])) in Hpd by done. cbn [negb] in Hpd. rewrite orb_true_r in Hpd.
  destruct (read_filled (mk_reader d col) dim meta) as [[batch vs]|] eqn:Er; [|done].
  cbn in Hpd. injection Hpd as <-. exists d, batch, vs. split_and!; [done..|]. by eapply row_kept_deletes.
Qed.

End File.

Lemma safe_one_file m meta col dim flt entry query k metric config :
  strict_deletes config = true →
  safe m (search_one_file split entry query k metric meta config col dim flt)
    (file_visible m meta col dim flt entry).
Proof.
  intros Hstrict. unfold search_one_file. rewrite Hstrict.
  eapply safe_bind; [apply safe_dv|]. intros dv Hdv. cbn beta in Hdv.
  eapply (safe_bind _ _ _ (λ fast, fast ≠ None → flt = [])).
  { destruct (fast_path_eligible _ _ _ _ _) eqn:E; [|by apply safe_ret].
    eapply safe_bind; [apply safe_catch, safe_load_primary|]. intros r _. apply safe_ret. intros _.
    unfold fast_path_eligible in E. rewrite !andb_true_iff in E. apply (bool_decide_eq_true_1 (flt = [])), E. }
  intros [index|] Hfast.
  - apply safe_ret. apply Forall_forall. unfold outcome_rows. cbn [fo_results fo_candidates fmap list_fmap].
    rewrite app_nil_r, <- list_fmap_compose. intros p (row & -> & Hrow)%list_elem_of_fmap.
    apply list_elem_of_filter in Hrow as [Hrow _]. cbn. split; [|done].
    split; [by apply Hdv|left; by apply Hfast].
  - eapply safe_bind; [apply safe_get|]. intros d Hd. cbn beta in Hd.
    eapply (safe_bind _ _ _ (λ _, True)); [reads|]. intros matching _.
    case_bool_decide; [apply safe_ret; constructor|].
    destruct (_ || _); apply safe_outcome; intros o Ho; [by eapply scan_file_visible|by eapply search_index_visible].
Qed.

(* ------------------------------------------------------------------ *)
(** ** Aggregation                                                     *)
(* ------------------------------------------------------------------ *)

Lemma fused_in h stats cands r :
  r ∈ hybrid_fuse h stats cands →
  (sr_row_id r, sr_file_path r) ∈ (λ c : Z * f32bits * string * string, (c.1.1.1, c.1.2)) <$> cands.
Proof.
  unfold hybrid_fuse. set (wb := sort_by _ _). set (fused := match hy_fusion h with Rrf => _ | Linear => _ end).
  clearbody fused. intros Hr. apply elem_of_lookup_zip_with in Hr as (i & c & x & -> & Hc & _).
  apply list_elem_of_lookup_2 in Hc. subst wb. rewrite sort_by_perm in Hc.
  apply list_elem_of_fmap in Hc as (c' & -> & Hc'). apply list_elem_of_fmap. by exists c'.
Qed.

Lemma select_in rs k r : r ∈ select_search_top_k rs k → r ∈ rs.
Proof.
  intros Hr. destruct (select_search_topk rs k) as ((rest & Hp & _) & _). rewrite Hp. apply elem_of_app. by left.
Qed.

(** Every aggregated row is a row of some file's outcome. *)
Definition acc_rows (acc : FlatScanStats * list SearchResult * list (Z * f32bits * string * string))
    : list (Z * string) :=
  ((λ r, (sr_row_id r, sr_file_path r)) <$> acc.1.2) ++
  ((λ c : Z * f32bits * string * string, (c.1.1.1, c.1.2)) <$> acc.2).

Lemma aggregate_rows k hyb acc o p :
  p ∈ acc_rows (aggregate k hyb acc o) → p ∈ acc_rows acc ∨ p ∈ outcome_rows o.
Proof.
  destruct acc as [[stats results] cands]. unfold aggregate, acc_rows, outcome_rows. cbn.
  rewrite !elem_of_app. intros [(r & -> & Hr)%list_elem_of_fmap|Hp].
  - assert (Hr' : r ∈ results ++ fo_results o) by (destruct hyb; [done|by eapply select_in]).
    apply elem_of_app in Hr' as [Hr'|Hr']; [left; left|right; left]; apply list_elem_of_fmap; eauto.
  - rewrite fmap_app, elem_of_app in Hp. tauto.
Qed.

Lemma aggregate_all_rows k hyb outcomes acc (P : Z * string → Prop) :
  Forall P (acc_rows acc) → Forall (λ o, Forall P (outcome_rows o)) outcomes →
  Forall P (acc_rows (foldl (aggregate k hyb) acc outcomes)).
Proof.
  intros Ha Ho. revert acc Ha. induction Ho as [|o outcomes Hp _ IH]; intros acc Ha; cbn [foldl]; [done|].
  apply IH, Forall_forall. intros p Hin. rewrite Forall_forall in Ha, Hp.
  destruct (aggregate_rows _ _ _ _ _ Hin); auto.
Qed.

(* ------------------------------------------------------------------ *)
(** ** Whole searches                                                  *)
(* ------------------------------------------------------------------ *)

Lemma in_partition_in pv fs f : f ∈ in_partition pv fs → f ∈ fs.
Proof. destruct pv; [|done]. by intros [_ ?]%list_elem_of_filter. Qed.

Lemma filter_opt_in {A} (g : A → option bool) xs ys x : filter_opt g xs = Some ys → x ∈ ys → x ∈ xs.
Proof.
  revert ys. induction xs as [|y xs IH]; intros ys; cbn [filter_opt]; [by intros [= <-]|].
  intros Hf. apply bind_Some in Hf as (b & _ & Hf). apply bind_Some in Hf as (zs & Ez & Hf).
  destruct b; injection Hf as <-; rewrite ?elem_of_cons; naive_solver.
Qed.

Lemma safe_surviving m meta config query metric fs :
  safe m (surviving config meta query metric fs) (λ files, ∀ f, f ∈ files → f ∈ fs).
Proof.
  unfold surviving. set (files := prune _ _ _ _).
  assert (Hfiles : ∀ f, f ∈ files → f ∈ fs)
    by (intros f [_ Hf]%list_elem_of_filter; by eapply in_partition_in).
  destruct (hybrid config) as [h|]; [|by apply safe_ret].
  eapply safe_bind; [apply safe_bloom_map|]. intros bm _. case_bool_decide; [by apply safe_ret|].
  apply safe_outcome. unfold bloom_prune. intros a Ha. destruct (bool_decide _ || _); cbn in Ha.
  { by injection Ha as <-. }
  destruct (filter_opt _ files) as [kept|] eqn:E; [|done]. injection Ha as <-. intros f Hf.
  apply Hfiles. by eapply filter_opt_in.
Qed.

Definition visible_result m meta col dim flt (fs : list DataFileEntry) (r : SearchResult) : Prop :=
  ∃ f, f ∈ fs ∧ sr_file_path r = df_path f ∧ row_visible m meta col dim flt f (sr_row_id r).

Lemma safe_search m meta fs ds query config col dim :
  catalog_at m meta fs ds → strict_deletes config = true →
  safe m (search split query config col dim)
    (λ x, ∃ flt, filter_in m ds = Ok flt ∧ Forall (visible_result m meta col dim flt fs) x.2).
Proof.
  intros Hc Hstrict. unfold search, search_inner. destruct (_ <? _); [apply safe_err|].
  eapply safe_bind; [apply (ca_files _ _ _ _ Hc)|]. intros fs' ->.
  eapply safe_bind; [apply (ca_load _ _ _ _ Hc)|]. intros meta' ->.
  eapply (safe_bind _ _ _ (λ _, True)); [by apply safe_result|]. intros _ _.
  eapply safe_bind; [apply safe_surviving|]. intros files Hfiles. rewrite Hstrict.
  eapply safe_bind; [by eapply safe_delete_filter|]. intros flt Hflt.
  eapply (safe_bind _ _ _ (λ _, True)).
  { destruct (hybrid config) as [h|]; [destruct (hy_text_columns h)|]; [by apply safe_ret|apply safe_bm25_stats|by apply safe_ret]. }
  intros stats _. eapply safe_bind.
  { apply (safe_map _ _ (λ f o, file_visible m meta col dim flt f o)). intros f _. by apply safe_one_file. }
  intros outcomes Hout. set (P := λ p : Z * string, ∃ f, f ∈ fs ∧ p.2 = df_path f ∧ row_visible m meta col dim flt f p.1).
  pose proof (aggregate_all_rows (Z.to_nat (top_k config)) (negb (is_none (hybrid config))) outcomes
    (mk_scan_stats 0 0 0, [], []) P) as Hagg.
  destruct (foldl _ _ _) as [[st results] cands]. apply safe_ret. exists flt. split; [done|]. cbn [snd].
  assert (Hall : Forall P (acc_rows (st, results, cands))).
  { apply Hagg; [constructor|]. apply Forall_forall. intros o Ho. apply list_elem_of_lookup in Ho as [i Ho].
    destruct (Forall2_lookup_r _ _ _ _ _ Hout Ho) as (f & Hf & Hv). eapply Forall_impl; [exact Hv|].
    intros p [Hp Hpath]. exists f. split; [by eapply Hfiles, list_elem_of_lookup_2|done]. }
  rewrite Forall_forall in Hall. apply Forall_forall. intros r Hr%select_in.
  apply (Hall (sr_row_id r, sr_file_path r)). apply elem_of_app.
  destruct (hybrid config) as [h|]; [apply elem_of_app in Hr as [Hr|Hr]|]; [left| |left].
  - apply list_elem_of_fmap. eauto.
  - right. by eapply fused_in.
  - apply list_elem_of_fmap. eauto.
Qed.

(** C17: a strict search returns no deleted row.  On any catalog that answers from the
    contents of the store, it leaves the contents alone, and when it returns results the
    equality deletes of the snapshot could be read and every result is a row of a
    listed file that neither the file's deletion vector nor an equality delete hides. *)
Theorem search_hides_deleted s meta fs ds query config col dim :
  store_inv s → catalog_at (view s) meta fs ds → strict_deletes config = true →
  let '(s', o) := search split query config col dim s in
  view s' = view s ∧
  ∀ stats res, o = Ret (Ok (stats, res)) →
    ∃ flt, filter_in (view s) ds = Ok flt ∧ Forall (visible_result (view s) meta col dim flt fs) res.
Proof.
  intros Hi Hc Hstrict.
  destruct (wp_run s (view s) _ _ (safe_search (view s) meta fs ds query config col dim Hc Hstrict) ltac:(done))
    as (m' & [_ Hv] & -> & Hres).
  destruct (search split query config col dim s) as [s' o]. split; [done|]. intros stats res ->.
  apply (Hres (stats, res) eq_refl).
Qed.

(** Dropping losers after every file loses nothing.  Without fusion the results of a
    search are the best [k] of everything the files returned, in order: their
    distances are the [k] smallest. *)
Theorem incremental_topk (outcomes : list FileSearchOutcome) (k : nat) :
  let all := mjoin (fo_results <$> outcomes) in
  let '(_, results, _) := foldl (aggregate k false) (mk_scan_stats 0 0 0, [], []) outcomes in
  let res := select_search_top_k results k in
  (∃ rest, all ≡ₚ res ++ rest) ∧
  result_key <$> res = take k (merge_sort Z.le (result_key <$> all)).
Proof.
  cbv zeta.
  assert (Hgen : ∀ acc, covers result_key k (acc.1.2 ++ mjoin (fo_results <$> outcomes))
    (foldl (aggregate k false) acc outcomes).1.2).
  { induction outcomes as [|o outcomes IH]; intros [[stats results] cands]; cbn [foldl].
    - cbn. rewrite app_nil_r. apply covers_refl.
    - eapply covers_trans; [|apply IH]. cbn. rewrite app_assoc.
      apply covers_app; [apply select_search_topk|apply covers_refl]. }
  specialize (Hgen (mk_scan_stats 0 0 0, [], [])). cbn [fst snd app] in Hgen.
  destruct (foldl _ _ _) as [[stats results] cands]. cbn [fst snd] in Hgen.
  pose proof (topk_covers _ _ _ _ _ Hgen (select_search_topk results k)) as Ht.
  split; [destruct Ht as ((rest & Hp & _) & _); eauto|by apply topk_keys in Ht].
Qed.

End Visible.

(* ------------------------------------------------------------------ *)
(** ** Deleting, then searching                                        *)
(* ------------------------------------------------------------------ *)

Section HadoopSearch.
Context {S : Type} `{ReliableReads S} `{!LockStore S} `{!LockLaws S} `{!ReliableRanges S}.
Context `{AvroLaws} `{SerdeLaws} `{JsonLib} `{BincodeLib} `{MetaLaws}.
Context (root warehouse : string).
Context `{RoaringLaws} `{!AvroWriterLib} `{!AvroWriterLaws} `{FloatText} `{Bm25Lib} `{TextLib}.
Context {PL : ParquetLib} {IL : IndexLib} {AL : ArrowLib} {QL : QueryLib} `{SortLaws} `{Kernels}.
Context (split : Split).
Implicit Types m : gmap string bytes.

#[local] Instance hadoop_catalog : CatalogProvider S := catalog root warehouse.

Lemma hadoop_catalog_at m v meta fs ds :
  table m root v meta → files_in m meta None = Ok fs → deletes_in m meta None = Ok ds →
  catalog_at m (to_table_metadata meta) fs ds.
Proof.
  intros Ht Hf Hd. split.
  - eapply wp_load_table; [exact Ht|]. split; [done|]. by intros a [= <-].
  - eapply wp_cp_list_files; [exact Ht|]. rewrite Hf. split; [done|]. by intros a [= <-].
  - eapply wp_cp_list_deletes; [exact Ht|]. rewrite Hd. split; [done|]. by intros a [= <-].
Qed.

(** C15: rows deleted by value are not found.  After [delete_where], a strict search
    that returns results returns only rows whose column, in the file as a scan reads
    it, is null, missing or different from every deleted value; rows of files
    committed afterwards excepted. *)
Theorem deleted_value_not_found s v meta col values snap now query config vcol dim :
  delete_ready root warehouse s v meta col values snap →
  (∃ ds f0, (cp_list_equality_deletes None s).2 = Ret (Ok ds) ∧ (from_files ds s).2 = Ret (Ok f0) ∧
    Forall (λ d, ed_path d ≠ eq_del_path root snap ∧ ∀ o, ed_path d ≠ obj_path root o) ds) →
  strict_deletes config = true →
  let texts := delete_texts (column_field (to_table_metadata meta) col).2 values in
  let '(s1, o1) := delete_where col values snap now s in
  let '(s2, o2) := search split query config vcol dim s1 in
  o1 = Ret (Ok tt) ∧
  ∀ stats res, o2 = Ret (Ok (stats, res)) →
    Forall (λ r, ∃ tm f d batch vs,
      (cp_load_table s1).2 = Ret (Ok tm) ∧ sr_file_path r = df_path f ∧
      view s1 !! df_path f = Some d ∧ read_filled (mk_reader d vcol) dim tm = Ok (batch, vs) ∧
      (df_sequence_number f < commit_seq meta →
        default false (column_matches batch (sr_row_id r) col (list_to_set texts)) = false)) res.
Proof.
  intros Hr (ds & f0 & Hds & Hf0 & Hpaths) Hstrict texts.
  destruct (wp_run s (view s) _ _ (wp_delete_where _ _ s v meta col values snap now Hr)
    ltac:(split; [apply Hr|done])) as (m' & [Hi' Hm'] & Ho & d & meta' & Hd & Hc).
  destruct (delete_where col values snap now s) as [s1 o1]. cbn [fst snd] in *. subst m'.
  assert (Ht' : table (view s1) root (v + 1) meta') by apply Hc.
  destruct (current_listing _ _ _ _ Ht') as [[fs Hfs] _].
  assert (Hflt : ∃ ds', deletes_in (view s1) meta' None = Ok ds' ∧
    filter_in (view s1) ds' = Ok (f0 ++ [(commit_seq meta, {[col := list_to_set texts]})])).
  { eapply (filter_after _ _ (view s) d v meta col values snap); [apply Hr|exact Hc|exact Hd| | | |exact Hpaths].
    - apply delete_texts_nonempty; apply Hr.
    - change (cp_list_equality_deletes None s).2 with (list_equality_deletes root None s).2 in Hds.
      rewrite (list_deletes_table s root v meta) in Hds by apply Hr. injection Hds as <-.
      assert (Hag : ∀ o, <[eq_del_path root snap := d]> (view s) !! obj_path root o = view s !! obj_path root o)
        by (intros o; apply lookup_insert_ne, eq_del_not_obj).
      apply (table_frame root v meta _ _ Hag (dr_table _ _ _ _ _ _ _ _ Hr)).
    - rewrite (from_files_run s) in Hf0 by apply Hr. by injection Hf0. }
  destruct Hflt as (ds' & Hds' & Hflt).
  pose proof (hadoop_catalog_at _ _ _ _ _ Ht' Hfs Hds') as Hcat.
  destruct (wp_run s1 (view s1) _ _ (safe_search split (view s1) _ fs ds' query config vcol dim Hcat Hstrict)
    ltac:(done)) as (m2 & _ & _ & Hres).
  destruct (search split query config vcol dim s1) as [s2 o2]. cbn [fst snd] in Hres. split; [done|].
  intros stats res ->. destruct (Hres _ eq_refl) as (flt & Hflt' & Hall). rewrite Hflt in Hflt'. injection Hflt' as <-.
  eapply Forall_impl; [exact Hall|]. intros r (f & Hf & Hp & _ & [Hnil|(fd & batch & vs & Hfd & Hrd & Hdel)]).
  { by destruct f0. }
  exists (to_table_metadata meta'), f, fd, batch, vs. split_and!; [|done..|].
  - destruct (wp_run s1 (view s1) cp_load_table (λ o _, o = Ret (Ok (to_table_metadata meta')))) as (m3 & _ & E);
      [by eapply wp_load_table|done|exact E].
  - intros Hseq. rewrite deleted_by_value_app in Hdel. apply orb_false_iff in Hdel as [_ Hdel]. cbn in Hdel.
    rewrite (proj2 (Z.ltb_lt _ _) Hseq), orb_false_r in Hdel. cbn in Hdel. by rewrite values_match_singleton in Hdel.
Qed.

(** C16: rows deleted by position are not found.  On a target without a deletion vector,
    or with one that can be loaded (one that cannot is silently taken for empty), after
    [delete_rows] on a store and lock that work, a strict search that returns results
    returns no deleted row of the target, and none that its earlier vector hid. *)
Theorem deleted_row_not_found s v meta file_path row_ids snap now fs i target b0 query config vcol dim :
  rows_ready root warehouse s v meta file_path row_ids snap fs i target b0 →
  strict_deletes config = true →
  (∀ j f, j ≠ i → fs !! j = Some f →
    df_path (absolute_file warehouse f) ≠ df_path (absolute_file warehouse target)) →
  let '(s1, o1) := delete_rows file_path row_ids snap now s in
  let '(s2, o2) := search split query config vcol dim s1 in
  o1 = Ret (Ok tt) ∧
  ∀ stats res, o2 = Ret (Ok (stats, res)) →
    Forall (λ r, sr_file_path r = df_path (absolute_file warehouse target) →
      wrap 32 (sr_row_id r) ∉ row_ids ∧ rb_contains b0 (wrap 32 (sr_row_id r)) = false) res.
Proof.
  intros Hr Hstrict Huniq.
  destruct (wp_run s (view s) _ _ (wp_delete_rows _ _ s v meta file_path row_ids snap now fs i target b0 Hr)
    ltac:(split; [apply Hr|done])) as (m' & [Hi' Hm'] & Ho & d & dv & b' & meta' & Hvec & Hp & Hb & Hc).
  destruct (delete_rows file_path row_ids snap now s) as [s1 o1]. cbn [fst snd] in *. subst m'.
  assert (Ht' : table (view s1) root (v + 1) meta') by apply Hc.
  destruct (rows_listing _ _ _ _ _ _ _ _ _ _ _ _ Hc) as (fs' & Hfs' & Hkeys).
  destruct (current_listing _ _ _ _ Ht') as [_ [ds' Hds']].
  pose proof (hadoop_catalog_at _ _ _ _ _ Ht' Hfs' Hds') as Hcat.
  destruct (wp_run s1 (view s1) _ _ (safe_search split (view s1) _ fs' ds' query config vcol dim Hcat Hstrict)
    ltac:(done)) as (m2 & _ & _ & Hres).
  destruct (search split query config vcol dim s1) as [s2 o2]. cbn [fst snd] in Hres. split; [done|].
  intros stats res ->. destruct (Hres _ eq_refl) as (flt & _ & Hall).
  eapply Forall_impl; [exact Hall|]. intros r (f & Hf & Hpath & Hdv & _) Htarget.
  assert (Hkey : df_deletion_vector f = Some dv).
  { apply list_elem_of_lookup in Hf as [j Hj]. apply (f_equal (.!! j)) in Hkeys.
    rewrite list_lookup_fmap, Hj in Hkeys. destruct (decide (j = i)) as [->|Hne].
    - symmetry in Hkeys. apply list_lookup_insert_Some in Hkeys as [(_ & E & _)|[? _]]; [|done].
      by injection E as _ E.
    - rewrite list_lookup_insert_ne, list_lookup_fmap in Hkeys by done.
      destruct (fs !! j) as [g|] eqn:Eg; [|done]. cbn in Hkeys. injection Hkeys as E _.
      destruct (Huniq j g Hne Eg). rewrite <- Htarget, Hpath. symmetry. exact E. }
  destruct (Hdv dv Hkey) as (bm & Hbm & Hnot). rewrite (rows_vector _ _ _ _ _ _ _ _ _ snap Hc Hp), Hvec in Hbm.
  injection Hbm as <-. rewrite Hb in Hnot. apply orb_false_iff in Hnot as [Hn1 Hn2].
  split; [by apply bool_decide_eq_false in Hn1|done].
Qed.
End HadoopSearch.

(* ------------------------------------------------------------------ *)
(** ** Text search                                                     *)
(* ------------------------------------------------------------------ *)

Definition strip_vector (f : DataFileEntry) : DataFileEntry :=
  mk_file (df_path f) (df_record_count f) (df_file_size_bytes f) (df_centroid_b64 f) (df_radius f)
    (df_hnsw_offset f) (df_hnsw_len f) (df_vector_column f) (df_vector_dim f)
    (df_extra_vector_indexes f) (df_index_status f) (df_index_error f) (df_batch_id f)
    (df_embedding_model f) (df_partition_value f) None (df_first_row_id f)
    (df_column_stats f) (df_sequence_number f).

Section TextSearch.
Context {S : Type} `{Store S} `{AvroLib} `{AvroWriterLib} `{FloatText} `{Bm25Lib} `{TextLib}.
Context {PL : ParquetLib} {IL : IndexLib} {AL : ArrowLib} {QL : QueryLib}.
Implicit Types C : CatalogProvider S.

Lemma io_map_fmap {A B D} (f : B → IO S D) (g : A → B) xs s :
  io_map f (g <$> xs) s = io_map (λ x, f (g x)) xs s.
Proof.
  revert s. induction xs as [|x xs IH]; intros s; [done|]. cbn [fmap list_fmap io_map].
  unfold mbind, io_bind. destruct (f (g x) s) as [s1 [[y|e]|]]; [|done|done]. fold (fmap g xs). by rewrite IH.
Qed.

Lemma in_partition_strip pv fs : in_partition pv (strip_vector <$> fs) = strip_vector <$> in_partition pv fs.
Proof.
  destruct pv as [pv|]; [|done]. cbn. induction fs as [|f fs IH]; [done|]. cbn [fmap list_fmap].
  rewrite !filter_cons. change (df_partition_value (strip_vector f)) with (df_partition_value f).
  case_decide; cbn [fmap list_fmap]; by rewrite IH.
Qed.

(** Text search ignores deletion vectors.  A catalog that forgot every deletion
    vector would get the same results in every state, so rows deleted by position are
    still found by text. *)
Theorem search_text_ignores_vectors C1 C2 query_text text_columns k partition strict s :
  (∀ s, @cp_list_files S C2 None s =
    let '(s', o) := @cp_list_files S C1 None s in
    (s', match o with Ret (Ok fs) => Ret (Ok (strip_vector <$> fs)) | _ => o end)) →
  (∀ s, @cp_load_table S C2 s = @cp_load_table S C1 s) →
  (∀ s, @cp_list_equality_deletes S C2 None s = @cp_list_equality_deletes S C1 None s) →
  search_text_with_options (CatalogProvider0 := C2) query_text text_columns k partition strict s =
  search_text_with_options (CatalogProvider0 := C1) query_text text_columns k partition strict s.
Proof.
  intros Hf Hl Hd. unfold search_text_with_options. destruct text_columns as [|c cs]; [done|].
  destruct (_ <? _); [done|]. unfold mbind at 1 6, io_bind at 1 6. rewrite Hf.
  destruct (@cp_list_files S C1 None s) as [s1 [[fs|e]|]]; [|done|done].
  unfold mbind at 1 5, io_bind at 1 5. rewrite Hl.
  destruct (@cp_load_table S C1 s1) as [s2 [[meta|e]|]]; [|done|done].
  unfold mbind at 1 4, io_bind at 1 4. destruct (load_bm25_stats _ s2) as [s3 [[stats|e]|]]; [|done|done].
  unfold mbind at 1 3, io_bind at 1 3.
  assert (Hdel : load_delete_filter (CatalogProvider0 := C2) strict s3 =
                 load_delete_filter (CatalogProvider0 := C1) strict s3).
  { unfold load_delete_filter, mbind at 1 3, io_bind at 1 3. unfold io_catch. by rewrite Hd. }
  rewrite Hdel. destruct (load_delete_filter (CatalogProvider0 := C1) strict s3) as [s4 [[flt|e]|]]; [|done|done].
  unfold mbind at 1 2, io_bind at 1 2. by rewrite in_partition_strip, io_map_fmap.
Qed.

End TextSearch.

(* ------------------------------------------------------------------ *)
(** ** Sessions                                                        *)
(* ------------------------------------------------------------------ *)

Section Sessions.
Context `{SerdeLib} {PL : ParquetLib} {IL : IndexLib} {QL : QueryLib} `{UnstableSort} `{Kernels}.
Context (split : Split).

(** A session panics where a search would not.  When a file's stored centroid has
    another dimension than the query, as for every file of a session on a secondary
    column of another dimension, [search_query] panics; the pruner of [search] keeps
    the file. *)
Theorem search_query_panics (session : SearchSession) query config shard c :
  shard ∈ ss_shards session → decode_centroid (ls_entry shard) (ss_metric session) = Some c →
  length (centroid_values c) ≠ length query →
  search_query split session query config = None ∧
  prune_keeps query (ss_metric session) (pruning_threshold config) (ls_entry shard) = true.
Proof.
  intros Hin Hc Hlen. split.
  - unfold search_query. destruct (mapM _ _) as [parts|] eqn:Em; [|done]. exfalso.
    apply mapM_Some in Em. apply list_elem_of_lookup in Hin as [i Hi].
    destruct (Forall2_lookup_l _ _ _ _ _ Em Hi) as (rs & _ & Hrs). revert Hrs.
    unfold shard_results, shard_pruned. rewrite Hc. unfold compute_distance, cosine_distance,
      euclidean_distance, dot_product, same_dim. rewrite !decide_False by lia.
    by destruct (ss_metric session).
  - unfold prune_keeps. rewrite Hc. by rewrite decide_False.
Qed.

Context {S : Type} `{ReliableReads S}.

(** A file that is neither indexed nor being indexed is left out of a session. *)
Lemma session_drops_foreign m vector_column dim load_raw entry d :
  m !! df_path entry = Some d → df_index_status entry ≠ Indexing →
  is_ailake_file (mk_reader d vector_column) = false →
  wp m (load_shard vector_column dim load_raw entry) (λ o m', m' = m ∧ o = Ret (Ok [])).
Proof.
  intros Hd Hs Ha. apply wp_bind, wp_get_. rewrite Hd. cbn [ok_or].
  destruct (df_index_status entry) eqn:E; [|done|]; rewrite Ha; by apply wp_ret.
Qed.

End Sessions.
