(* ===== verification/Compaction.v ===== *)
(** * Compaction

    Models [ailake-query/src/compaction.rs] without its deferred variant: the planner,
    the executor's two merges ([compact], [compact_incremental]) and the whole pass
    [run]; with them the entries of new files and the idempotency keys of
    [ailake-catalog/src/provider.rs], the retry check of [write_batch_idempotent] in
    [ailake-query/src/writer.rs], and [FtsConfig::from_table_props] of
    [ailake-fts/src/builder.rs].

    Source files are read concurrently there; the reads change nothing, so the model
    reads them in order (of several failing reads it reports the first in the list).
    The clock and the snapshot id are arguments.  Concatenation of record batches,
    insertion into a loaded HNSW graph and the extraction of column statistics are the
    interface [CompactLib]. *)

From Stdlib Require Import Floats.SpecFloat.
From S2P Require Import Prelude Core Footer IvfPq FileFormat Store Effects Json Manifest Puffin Catalog Arrow.
From S2P Require Import Deletes Floats Ranking Bm25 Search ColumnStats.

(* ------------------------------------------------------------------ *)
(** ** Interface                                                       *)
(* ------------------------------------------------------------------ *)

Class CompactLib {PL : ParquetLib} {IL : IndexLib} {AL : ArrowLib} : Type := {
  (** [arrow_select::concat::concat_batches] with the schema of the first argument;
      a batch with fewer columns panics. *)
  concat_batches : RecordBatch → list RecordBatch → outcome AilakeError RecordBatch;
  (** [HnswIndex::insert_node]. *)
  hnsw_insert_node : HnswIndex → Z → vec32 → HnswIndex;
  (** The Parquet footer and the JSON text of [ColumnStats]. *)
  #[global] compact_stats :: StatsLib;
}.

(* ------------------------------------------------------------------ *)
(** ** Entries of new files                                            *)
(* ------------------------------------------------------------------ *)

Record VectorIndexInfo : Type := mk_vinfo {
  vi_column : string;
  vi_dim : Z;
  vi_hnsw_offset : Z;
  vi_hnsw_len : Z;
}.

Section Entries.
Context `{SerdeLib}.

Definition encode_centroid_b64 (c : Centroid) : string :=
  base64_encode (mjoin (to_le 4 <$> centroid_values c)).

Definition make_multi_column_data_file_entry (path : string) (record_count file_size_bytes : Z)
    (primary_centroid : Centroid) (primary_index : VectorIndexInfo) (extra : list ExtraVectorIndex)
    : DataFileEntry :=
  mk_file path record_count file_size_bytes (Some (encode_centroid_b64 primary_centroid))
    (Some (centroid_radius primary_centroid)) (Some (vi_hnsw_offset primary_index))
    (Some (vi_hnsw_len primary_index)) (Some (vi_column primary_index)) (Some (vi_dim primary_index))
    extra Ready None None None None None None None 0.

Definition make_data_file_entry (path : string) (record_count file_size_bytes : Z) (centroid : Centroid)
    (index : VectorIndexInfo) : DataFileEntry :=
  make_multi_column_data_file_entry path record_count file_size_bytes centroid index [].

(** [entry.first_row_id = …; entry.batch_id = …; entry.column_stats = …]. *)
Definition with_lineage (f : DataFileEntry) (first_row_id : option Z) (batch_id column_stats : option string)
    : DataFileEntry :=
  mk_file (df_path f) (df_record_count f) (df_file_size_bytes f) (df_centroid_b64 f) (df_radius f)
    (df_hnsw_offset f) (df_hnsw_len f) (df_vector_column f) (df_vector_dim f)
    (df_extra_vector_indexes f) (df_index_status f) (df_index_error f) batch_id
    (df_embedding_model f) (df_partition_value f) (df_deletion_vector f) first_row_id
    column_stats (df_sequence_number f).
End Entries.

(* ------------------------------------------------------------------ *)
(** ** Idempotency keys                                                *)
(* ------------------------------------------------------------------ *)

Section BatchIds.
Context `{JsonLib}.

(** [serde_json::from_str::<Vec<String>>]. *)
Definition parse_string_list (raw : string) : option (list string) :=
  v ← json_from_slice (as_bytes raw); l ← json_array v; mapM json_str l.

Definition batch_ids (f : DataFileEntry) : list string :=
  match df_batch_id f with
  | None => []
  | Some raw => default [raw] (parse_string_list raw)
  end.

(** First occurrences, in order. *)
Fixpoint dedup_from (seen : gset string) (ids : list string) : list string :=
  match ids with
  | [] => []
  | id :: ids => if decide (id ∈ seen) then dedup_from seen ids else id :: dedup_from ({[id]} ∪ seen) ids
  end.

Definition merge_batch_ids (sources : list DataFileEntry) : option string :=
  match dedup_from ∅ (sources ≫= batch_ids) with
  | [] => None
  | ids => Some (json_to_string (JArr (JStr <$> ids)))
  end.

(** The check of [write_batch_idempotent]: some listed file has this key. *)
Definition already_written (existing : list DataFileEntry) (batch_id : string) : bool :=
  existsb (λ f, existsb (λ id, String.eqb id batch_id) (batch_ids f)) existing.

End BatchIds.

(* ------------------------------------------------------------------ *)
(** ** The planner                                                     *)
(* ------------------------------------------------------------------ *)

Inductive CompactionIndexStrategy : Type := Auto | ForceHnsw | ForceIvfPq.

Record CompactionConfig : Type := mk_compaction {
  min_files_to_compact : Z;
  target_file_size_bytes : Z;
  index_strategy : CompactionIndexStrategy;
  max_files_per_pass : Z;
}.
Definition compaction_default : CompactionConfig := mk_compaction 4 (128 * 1024 * 1024) Auto 20.

(** [sort_unstable_by_key(|f| f.file_size_bytes)]. *)
Definition sort_by_size `{UnstableSort} (files : list DataFileEntry) : list DataFileEntry :=
  sort_unstable_by (λ a b, df_file_size_bytes a ?= df_file_size_bytes b) files.

Definition plan `{UnstableSort} (config : CompactionConfig) (files : list DataFileEntry) : list DataFileEntry :=
  let foreign := filter (λ f, is_foreign f = true) files in
  let natives := filter (λ f, is_foreign f = false) files in
  let size_candidates := filter (λ f, df_file_size_bytes f < target_file_size_bytes config) natives in
  let enough := min_files_to_compact config <=? Zlen size_candidates in
  match foreign, enough with
  | [], false => []
  | _, _ =>
      let size_candidates := if enough then size_candidates else [] in
      take (Z.to_nat (max_files_per_pass config)) (sort_by_size foreign ++ sort_by_size size_candidates)
  end.

(* ------------------------------------------------------------------ *)
(** ** The executor's configuration                                    *)
(* ------------------------------------------------------------------ *)

Definition comma : Ascii.ascii := Ascii.ascii_of_nat 44.

Definition fts_config_default : FtsConfig := mk_fts ["chunk_text"] "default" 50000000.

Definition from_table_props (props : gmap string string) : option FtsConfig :=
  if decide (props !! "ailake.fts.enabled" = Some "true") then
    let text_columns := match props !! "ailake.fts.text-columns" with
                        | Some s => if String.eqb s "" then ["chunk_text"] else split comma s
                        | None => ["chunk_text"]
                        end in
    let tokenizer := default "default" (props !! "ailake.fts.tokenizer") in
    Some (mk_fts text_columns tokenizer (fts_writer_heap_bytes fts_config_default))
  else None.

Record CompactionExecutor : Type := mk_executor {
  ex_policy : VectorStoragePolicy;
  ex_index_strategy : CompactionIndexStrategy;
  ex_fts_config : option FtsConfig;
}.
Definition executor_new (policy : VectorStoragePolicy) : CompactionExecutor := mk_executor policy Auto None.

Definition with_effective_fts (ex : CompactionExecutor) (table_props : gmap string string) : CompactionExecutor :=
  match ex_fts_config ex with
  | Some _ => ex
  | None =>
      match from_table_props table_props with
      | Some cfg => mk_executor (ex_policy ex) (ex_index_strategy ex) (Some cfg)
      | None => ex
      end
  end.

(* ------------------------------------------------------------------ *)
(** ** Merging                                                         *)
(* ------------------------------------------------------------------ *)

(** The last of the files with the most rows. *)
Fixpoint max_rows_from (i best : nat) (best_rows : Z) (files : list DataFileEntry) : nat :=
  match files with
  | [] => best
  | f :: files =>
      if best_rows <=? df_record_count f then max_rows_from (S i) i (df_record_count f) files
      else max_rows_from (S i) best best_rows files
  end.
Definition dominant_index (files : list DataFileEntry) : nat :=
  match files with
  | [] => O
  | f :: files => max_rows_from 1 0 (df_record_count f) files
  end.

(** [n as f64] and [(dom as f64 / total as f64) < 0.40]. *)
Definition f64_of_u64 (n : Z) : spec_float := binary_normalize 53 1024 n 0 false.
Definition DOMINANT_RATIO : spec_float := SFdiv 53 1024 (f64_of_u64 4) (f64_of_u64 10).
Definition below_ratio (dom_rows total_rows : Z) : bool :=
  SFltb (SFdiv 53 1024 (f64_of_u64 dom_rows) (f64_of_u64 total_rows)) DOMINANT_RATIO.

(** [Iterator::min] of the row ids that are set. *)
Definition min_first_row_id (files : list DataFileEntry) : option Z :=
  match omap df_first_row_id files with
  | [] => None
  | id :: ids => Some (foldl Z.min id ids)
  end.

Section Executor.
Context {S : Type} `{Store S} `{RoaringLib} `{SerdeLib} `{JsonLib}.
Context {PL : ParquetLib} {IL : IndexLib} {AL : ArrowLib} {QL : QueryLib} {CL : CompactLib}.
Context `{UnstableSort} `{!CatalogProvider S}.

(** [AilakeFileWriter::new], and its builders. *)
Definition writer_new (p : VectorStoragePolicy) : AilakeFileWriter :=
  mk_writer p (IHnsw HnswConfig_default) None None None.
Definition with_index_type (w : AilakeFileWriter) (t : IndexType) : AilakeFileWriter :=
  mk_writer (w_policy w) t (w_shared_codebook w) (w_fts_config w) (w_prebuilt_fts_blob w).
Definition with_prebuilt_fts_blob (w : AilakeFileWriter) (blob : bytes) : AilakeFileWriter :=
  mk_writer (w_policy w) (w_index_type w) (w_shared_codebook w) (w_fts_config w) (Some blob).

(** [ailake_fts::merge_fts_blobs]. *)
Definition merge_fts_blobs (cfg : FtsConfig) (merged_batch : RecordBatch) : AilakeResult bytes :=
  build_fts_blob_from_batch cfg merged_batch.

(** The blob of the merged rows, left out when it cannot be built. *)
Definition attach_fts (ex : CompactionExecutor) (w : AilakeFileWriter) (merged_batch : RecordBatch)
    : AilakeFileWriter :=
  match ex_fts_config ex with
  | Some cfg => match merge_fts_blobs cfg merged_batch with
                | Ok blob => with_prebuilt_fts_blob w blob
                | Err _ => w
                end
  | None => w
  end.

(** Rows without those a deletion vector masks. *)
Definition drop_deleted (dv : option DeletionVector) (pair : RecordBatch * list vec32)
    : IO S (RecordBatch * list vec32) :=
  match dv with
  | Some dv => bitmap ← load_deletion_vector dv; io_result (filter_deleted_rows pair.1 pair.2 bitmap)
  | None => mret pair
  end.

(** One file of [read_files_parallel]. *)
Definition read_file (ex : CompactionExecutor) (entry : DataFileEntry) : IO S (RecordBatch * list vec32) :=
  b ← get_ (df_path entry);
  pair ← io_result (read_parquet (mk_reader b (column_name (ex_policy ex))) (policy_dim (ex_policy ex)));
  drop_deleted (df_deletion_vector entry) pair.

Definition read_files_parallel (ex : CompactionExecutor) (files : list DataFileEntry)
    : IO S (list (RecordBatch * list vec32)) :=
  io_map (read_file ex) files.

(** Store the merged file, check it, and describe it for the catalog. *)
Definition store_merged (ex : CompactionExecutor) (files : list DataFileEntry) (output_path : string)
    (record_count : Z) (all_embeddings : list vec32) (file_bytes : bytes) (first_row_id : option Z)
    : IO S DataFileEntry :=
  let p := ex_policy ex in
  let column_stats := column_stats_json file_bytes [column_name p] in
  put_ output_path file_bytes;;
  let centroid := compute_centroid_and_radius all_embeddings (policy_metric p) in
  let reader := mk_reader file_bytes (column_name p) in
  header ← io_outcome (read_header reader);
  ailk_start ← io_outcome (ailk_offset reader);
  io_outcome (verify_integrity reader);;
  let entry := make_data_file_entry output_path record_count (Zlen file_bytes) centroid
    (mk_vinfo (column_name p) (policy_dim p) (wrap 64 (ailk_start + Header.hnsw_offset header))
       (Header.hnsw_len header)) in
  mret (with_lineage entry first_row_id (merge_batch_ids files) column_stats).

(** The writer [compact] uses. *)
Definition compact_writer (ex : CompactionExecutor) (n : Z) (merged_batch : RecordBatch) : AilakeFileWriter :=
  let base := writer_new (ex_policy ex) in
  let base := match ex_index_strategy ex with
              | Auto => with_index_type base IAuto
              | ForceHnsw => base
              | ForceIvfPq => with_index_type base (IIvfPq (ivf_for_dataset (policy_dim (ex_policy ex)) n))
              end in
  attach_fts ex base merged_batch.

Definition compact (ex : CompactionExecutor) (files : list DataFileEntry) (output_path : string)
    : IO S DataFileEntry :=
  match files with
  | [] => io_err CatalogError
  | _ =>
      pairs ← read_files_parallel ex files;
      match pairs with
      | [] => io_panic
      | (first, _) :: _ =>
          let all_embeddings := mjoin pairs.*2 in
          merged_batch ← io_outcome (concat_batches first pairs.*1);
          let writer := compact_writer ex (Zlen all_embeddings) merged_batch in
          file_bytes ← io_result (write writer merged_batch all_embeddings);
          store_merged ex files output_path (num_rows merged_batch) all_embeddings file_bytes
            (min_first_row_id files)
      end
  end.

(** One file of the incremental merge: rows, vectors, whether it is the dominant one,
    and its bytes when it is and has an index. *)
Record ReadFile : Type := mk_read {
  rf_batch : RecordBatch;
  rf_vecs : list vec32;
  rf_is_dom : bool;
  rf_retained : option bytes;
}.

Definition read_for_incremental (ex : CompactionExecutor) (dom_path : string) (entry : DataFileEntry)
    : IO S ReadFile :=
  let is_dom := String.eqb (df_path entry) dom_path in
  b ← get_ (df_path entry);
  let reader := mk_reader b (column_name (ex_policy ex)) in
  let has_index := is_ailake_file reader in
  raw ← io_result (read_parquet reader (policy_dim (ex_policy ex)));
  '(batch, vecs) ← drop_deleted (df_deletion_vector entry) raw;
  mret (mk_read batch vecs is_dom (if is_dom && has_index then Some b else None)).

(** The loop that sets the dominant file apart: its rows, vectors and bytes, and the
    rows and vectors of the others. *)
Definition separate_step
    (acc : option RecordBatch * list vec32 * option bytes * list RecordBatch * list vec32) (r : ReadFile) :=
  let '(dom_batch, dom_vecs, dom_bytes, other_batches, other_vecs) := acc in
  if rf_is_dom r then (Some (rf_batch r), rf_vecs r, rf_retained r, other_batches, other_vecs)
  else (dom_batch, dom_vecs, dom_bytes, other_batches ++ [rf_batch r], other_vecs ++ rf_vecs r).
Definition separate (raw : list ReadFile) :=
  foldl separate_step (None, [], None, [], []) raw.

(** The dominant graph with the other vectors under the row ids after its own. *)
Definition extend_index (hnsw : HnswIndex) (dom_count : Z) (other_vecs : list vec32) : HnswIndex :=
  foldl (λ h '(j, v), hnsw_insert_node h (wrap 64 (dom_count + j)) v) hnsw
    (zip (seqZ 0 (Zlen other_vecs)) other_vecs).

(** From the dominant file's rows and graph to the stored file. *)
Definition merge_incremental (ex : CompactionExecutor) (files : list DataFileEntry) (output_path : string)
    (dom_batch : RecordBatch) (dom_vecs : list vec32) (hnsw : HnswIndex) (other_batches : list RecordBatch)
    (other_vecs : list vec32) (first_row_id : option Z) : IO S DataFileEntry :=
  let hnsw := quantize_to_f16 (extend_index hnsw (num_rows dom_batch) other_vecs) in
  merged_batch ← io_outcome (concat_batches dom_batch (dom_batch :: other_batches));
  let all_embeddings := dom_vecs ++ other_vecs in
  let writer := attach_fts ex (writer_new (ex_policy ex)) merged_batch in
  file_bytes ← io_result (write_with_prebuilt_hnsw writer merged_batch all_embeddings hnsw);
  store_merged ex files output_path (num_rows merged_batch) all_embeddings file_bytes first_row_id.

Definition compact_incremental (ex : CompactionExecutor) (files : list DataFileEntry) (output_path : string)
    : IO S DataFileEntry :=
  match files !! dominant_index files with
  | None => io_err CatalogError
  | Some dom =>
      let total_rows := foldl (λ n f, wrap 64 (n + df_record_count f)) 0 files in
      match ex_index_strategy ex, df_deletion_vector dom, below_ratio (df_record_count dom) total_rows with
      | (Auto | ForceHnsw), None, false =>
          raw ← io_map (read_for_incremental ex (df_path dom)) files;
          let '(dom_batch, dom_vecs, dom_bytes, other_batches, other_vecs) := separate raw in
          match dom_batch, dom_bytes with
          | Some dom_batch, Some dom_bytes =>
              index ← io_catch (io_outcome (load_index (mk_reader dom_bytes (column_name (ex_policy ex)))));
              match index with
              | Ok hnsw => merge_incremental ex files output_path dom_batch dom_vecs hnsw other_batches
                             other_vecs (df_first_row_id dom)
              | Err _ => compact ex files output_path
              end
          | _, _ => compact ex files output_path
          end
      | _, _, _ => compact ex files output_path
      end
  end.

(* ------------------------------------------------------------------ *)
(** ** The whole pass                                                  *)
(* ------------------------------------------------------------------ *)

Definition build_replace_file_list (to_compact : list DataFileEntry) (merged : DataFileEntry)
    : IO S (list DataFileEntry) :=
  current_files ← cp_list_files None;
  mret (filter (λ f, df_path f ∉ df_path <$> to_compact) current_files ++ [merged]).

(** Errors are only logged. *)
Definition delete_old_files (files : list DataFileEntry) : IO S unit :=
  io_map (λ entry, io_delete (df_path entry)) files;; mret tt.

(** From the merged file to the committed snapshot. *)
Definition commit_merged (to_compact : list DataFileEntry) (merged : DataFileEntry) (snap_id now : Z) : IO S Z :=
  files ← build_replace_file_list to_compact merged;
  meta ← io_catch cp_load_table;
  let parent_snapshot_id := match meta with Ok m => tm_current_snapshot_id m | Err _ => None end in
  cp_commit_snapshot (plain_snapshot snap_id parent_snapshot_id files Replace []) now.

Definition compacted_path (output_prefix : string) (ts : Z) : string :=
  output_prefix +:+ "/compacted-" +:+ to_string ts +:+ ".parquet".

(** Planning and merging: the files to replace and the merged one, if any. *)
Definition run_merge (ex : CompactionExecutor) (planner : CompactionConfig) (output_prefix : string) (ts : Z)
    : IO S (option (list DataFileEntry * DataFileEntry)) :=
  all_files ← cp_list_files None;
  match plan planner all_files with
  | [] => mret None
  | to_compact =>
      meta ← io_catch cp_load_table;
      let meta_props := match meta with Ok m => tm_properties m | Err _ => ∅ end in
      let executor := with_effective_fts ex meta_props in
      merged ← compact_incremental executor to_compact (compacted_path output_prefix ts);
      mret (Some (to_compact, merged))
  end.

(** Committing the replacement and retiring the merged files. *)
Definition run_commit (to_compact : list DataFileEntry) (merged : DataFileEntry) (snap_id now : Z)
    : IO S (option DataFileEntry) :=
  commit_merged to_compact merged snap_id now;;
  (if cp_retires_files_physically then delete_old_files to_compact else mret tt);;
  mret (Some merged).

Definition run (ex : CompactionExecutor) (planner : CompactionConfig) (output_prefix : string)
    (ts snap_id now : Z) : IO S (option DataFileEntry) :=
  r ← run_merge ex planner output_prefix ts;
  match r with
  | None => mret None
  | Some (to_compact, merged) => run_commit to_compact merged snap_id now
  end.

End Executor.
