(* ===== verification/Jobs.v ===== *)
(** * Index jobs

    Models [ailake-query/src/index_jobs.rs]: the durable record of a deferred index
    build, and the claims workers take on it.  A handle is the job's id with the fencing
    token of its claim; its clones share the token, so an operation is a program over
    the token and the store ([Local]).

    The clock is the store's.  The JSON codecs of serde and the texts of errors are the
    interface [JobSerde]; the fenced locks of the store trait are the class
    [FencedLocks]. *)

From S2P Require Import Prelude Core IvfPq FileFormat Store Effects Catalog Ranking Deletes.

(* ------------------------------------------------------------------ *)
(** ** Programs with state of their own                                *)
(* ------------------------------------------------------------------ *)

Definition Local (L S A : Type) : Type := IO (L * S) A.

Section LocalOps.
Context {L S : Type}.

Definition on_store {A} (prog : IO S A) : IO (L * S) A :=
  λ '(l, s), let '(s, o) := prog s in ((l, s), o).
Definition get_local : IO (L * S) L := λ ls, (ls, Ret (Ok ls.1)).
Definition modify_local (f : L → L) : IO (L * S) unit := λ '(l, s), ((f l, s), Ret (Ok tt)).
Definition set_local (l : L) : IO (L * S) unit := modify_local (λ _, l).
End LocalOps.

Definition now_ms {S} `{Store S} : IO S Z := λ s, (s, Ret (Ok (st_now s))).

(** The fenced lock methods of the store trait. *)
Class FencedLocks (S : Type) : Type := {
  try_acquire_lock_fenced : S → string → S * AilakeResult (option Z);
  release_lock_fenced : S → string → Z → S * AilakeResult unit;
  renew_lock_fenced : S → string → Z → S * AilakeResult bool;
  check_lock_fence : S → string → Z → S * AilakeResult bool;
}.
(** The default methods of the trait. *)
Definition fenced_defaults {S} `{!LockStore S} : FencedLocks S := {|
  try_acquire_lock_fenced := try_acquire_lock_fenced_default;
  release_lock_fenced := release_lock_fenced_default;
  renew_lock_fenced := renew_lock_fenced_default;
  check_lock_fence := check_lock_fence_default;
|}.

(* ------------------------------------------------------------------ *)
(** ** Records                                                         *)
(* ------------------------------------------------------------------ *)

Definition JOBS_PREFIX : string := "metadata/index-jobs".
Definition MAX_ATTEMPTS : Z := 3.

Inductive IndexAlgorithm : Type := Hnsw | IvfPq | MultiHnsw.

Section Records.
Context {PL : ParquetLib} {IL : IndexLib}.

Record IndexJobRecord : Type := mk_job {
  jr_id : string;
  jr_table : string;
  jr_file_path : string;
  jr_algorithm : IndexAlgorithm;
  jr_ivf_config : option IvfPqConfig;
  jr_status : string;
  jr_progress : Z;
  jr_attempts : Z;
  jr_created_at : Z;
  jr_updated_at : Z;
  jr_error : option string;
  jr_cancel_requested : bool;
  jr_multi_policies : option (list VectorStoragePolicy);
  jr_payload_path : option string;
}.

(** What one operation changes of a record. *)
Definition with_progress (r : IndexJobRecord) (status : string) (progress attempts : Z) (error : option string)
    (cancel_requested : bool) : IndexJobRecord :=
  mk_job (jr_id r) (jr_table r) (jr_file_path r) (jr_algorithm r) (jr_ivf_config r) status progress attempts
    (jr_created_at r) (jr_updated_at r) error cancel_requested (jr_multi_policies r) (jr_payload_path r).
Definition with_updated_at (r : IndexJobRecord) (now : Z) : IndexJobRecord :=
  mk_job (jr_id r) (jr_table r) (jr_file_path r) (jr_algorithm r) (jr_ivf_config r) (jr_status r) (jr_progress r)
    (jr_attempts r) (jr_created_at r) now (jr_error r) (jr_cancel_requested r) (jr_multi_policies r)
    (jr_payload_path r).
Definition with_payload (r : IndexJobRecord) (policies : list VectorStoragePolicy) (payload_path : string)
    : IndexJobRecord :=
  mk_job (jr_id r) (jr_table r) (jr_file_path r) (jr_algorithm r) (jr_ivf_config r) (jr_status r) (jr_progress r)
    (jr_attempts r) (jr_created_at r) (jr_updated_at r) (jr_error r) (jr_cancel_requested r) (Some policies)
    (Some payload_path).

Class JobSerde : Type := {
  record_to_vec : IndexJobRecord → option bytes;
  record_from_slice : bytes → option IndexJobRecord;
  payload_to_vec : list VectorStoragePolicy * list (list vec32) → option bytes;
  payload_from_slice : bytes → option (list VectorStoragePolicy * list (list vec32));
  (** [AilakeError::to_string]. *)
  error_text : AilakeError → string;
}.
Class JobSerdeLaws `{!JobSerde} : Prop := {
  record_roundtrip r b : record_to_vec r = Some b → record_from_slice b = Some r;
  payload_roundtrip p b : payload_to_vec p = Some b → payload_from_slice b = Some p;
}.
End Records.

Definition record_path (id : string) : string := JOBS_PREFIX +:+ "/" +:+ id +:+ ".json".
Definition run_lock_path (id : string) : string := JOBS_PREFIX +:+ "/" +:+ id +:+ ".run.lock".
Definition cancel_path (id : string) : string := JOBS_PREFIX +:+ "/" +:+ id +:+ ".cancel".
Definition payload_path (id : string) : string := JOBS_PREFIX +:+ "/" +:+ id +:+ ".payload.json".
Definition table_key (table : TableIdent) : string := ti_namespace table +:+ "." +:+ ti_name table.

(* ------------------------------------------------------------------ *)
(** ** Handles                                                         *)
(* ------------------------------------------------------------------ *)

Section Handles.
Context {S : Type} `{Store S} `{!FencedLocks S}.
Context {PL : ParquetLib} {IL : IndexLib} `{!JobSerde}.

(** Programs of a handle: the token of its claim, and the store. *)
Abbreviation JobIO A := (Local (option Z) S A) (only parsing).

Definition job_record (id : string) : IO S IndexJobRecord :=
  b ← get_ (record_path id); io_result (ok_or (record_from_slice b) StoreError).

Definition job_write (id : string) (record : IndexJobRecord) : IO S unit :=
  now ← now_ms;
  data ← io_result (ok_or (record_to_vec (with_updated_at record now)) StoreError);
  put_ (record_path id) data.

Definition job_create (id : string) (table : TableIdent) (file_path : string) (algorithm : IndexAlgorithm)
    (ivf_config : option IvfPqConfig) : IO S unit :=
  now ← now_ms;
  job_write id (mk_job id (table_key table) file_path algorithm ivf_config "queued" 0 0 now now None false None None).

Definition job_create_multi (id : string) (table : TableIdent) (file_path : string)
    (policies : list VectorStoragePolicy) (embeddings : list (list vec32)) : IO S unit :=
  job_create id table file_path MultiHnsw None;;
  payload ← io_result (ok_or (payload_to_vec (policies, embeddings)) StoreError);
  put_ (payload_path id) payload;;
  record ← job_record id;
  job_write id (with_payload record policies (payload_path id)).

Definition multi_payload (record : IndexJobRecord) : IO S (list VectorStoragePolicy * list (list vec32)) :=
  path ← io_result (ok_or (jr_payload_path record) StoreError);
  b ← get_ path;
  io_result (ok_or (payload_from_slice b) StoreError).

Definition write_fenced (id : string) (record : IndexJobRecord) : JobIO unit :=
  fence ← get_local;
  match fence with
  | None => io_err StoreError
  | Some fence =>
      valid ← on_store (io_try (λ s, check_lock_fence s (run_lock_path id) fence));
      if negb valid then io_err StoreError
      else on_store (job_write id record)
  end.

Definition release_claim (id : string) : JobIO unit :=
  fence ← get_local;
  set_local None;;
  match fence with
  | Some fence => on_store (io_try (λ s, release_lock_fenced s (run_lock_path id) fence))
  | None => mret tt
  end.

Definition renew_claim (id : string) : JobIO bool :=
  fence ← get_local;
  match fence with
  | None => mret false
  | Some fence => on_store (io_try (λ s, renew_lock_fenced s (run_lock_path id) fence))
  end.

Definition is_cancel_requested (id : string) : IO S bool :=
  record ← job_record id;
  if jr_cancel_requested record then mret true
  else r ← io_exists (cancel_path id); io_result r.

Definition try_claim (id : string) : JobIO bool :=
  fence ← on_store (io_try (λ s, try_acquire_lock_fenced s (run_lock_path id)));
  match fence with
  | None => mret false
  | Some fence =>
      set_local (Some fence);;
      record ← on_store (job_record id);
      if String.eqb (jr_status record) "succeeded" || String.eqb (jr_status record) "cancelled" ||
         (MAX_ATTEMPTS <=? jr_attempts record) then
        release_claim id;; mret false
      else
        cancelled ← on_store (is_cancel_requested id);
        if cancelled : bool then
          write_fenced id (with_progress record "cancelled" (jr_progress record) (jr_attempts record)
                             (Some "cancelled before execution") true);;
          release_claim id;; mret false
        else
          r ← io_catch (write_fenced id (with_progress record "running" (jr_progress record)
                                           (jr_attempts record + 1) None (jr_cancel_requested record)));
          match r with
          | Err error => io_catch (release_claim id);; io_err error
          | Ok _ => mret true
          end
  end.

Definition update_progress (id : string) (progress : Z) : JobIO unit :=
  record ← on_store (job_record id);
  if String.eqb (jr_status record) "running" then
    write_fenced id (with_progress record (jr_status record) (Z.min progress 99) (jr_attempts record)
                       (jr_error record) (jr_cancel_requested record))
  else mret tt.

Definition succeed (id : string) : JobIO unit :=
  record ← on_store (job_record id);
  write_fenced id (with_progress record "succeeded" 100 (jr_attempts record) None (jr_cancel_requested record)).

Definition mark_cancelled (id reason : string) : JobIO unit :=
  record ← on_store (job_record id);
  let record := with_progress record "cancelled" (jr_progress record) (jr_attempts record) (Some reason) true in
  fence ← get_local;
  match fence with
  | Some _ => write_fenced id record
  | None => on_store (job_write id record)
  end.

(** Whether the caller should retry. *)
Definition fail_or_retry (id error : string) : JobIO bool :=
  record ← on_store (job_record id);
  if (jr_attempts record <? MAX_ATTEMPTS) && negb (jr_cancel_requested record) then
    write_fenced id (with_progress record "queued" 0 (jr_attempts record) (Some error) (jr_cancel_requested record));;
    mret true
  else
    write_fenced id (with_progress record "failed" (jr_progress record) (jr_attempts record) (Some error)
                       (jr_cancel_requested record));;
    mret false.

Definition request_cancel (id : string) : IO S IndexJobRecord :=
  record ← job_record id;
  if existsb (String.eqb (jr_status record)) ["succeeded"; "failed"; "cancelled"] then io_err InvalidArgument
  else
    let record := with_progress record (jr_status record) (jr_progress record) (jr_attempts record)
                    (jr_error record) true in
    put_ (cancel_path id) [];;
    job_write id record;;
    mret record.

Definition retry (id : string) : IO S IndexJobRecord :=
  record ← job_record id;
  if negb (existsb (String.eqb (jr_status record)) ["failed"; "cancelled"]) then io_err InvalidArgument
  else
    let record := with_progress record "queued" 0 0 None false in
    io_delete (cancel_path id);;
    job_write id record;;
    mret record.

Definition recover_after_restart (id : string) : IO S bool :=
  record ← job_record id;
  if negb (String.eqb (jr_status record) "running") then mret (String.eqb (jr_status record) "queued")
  else if MAX_ATTEMPTS <=? jr_attempts record then
    job_write id (with_progress record "failed" (jr_progress record) (jr_attempts record)
                    (Some "worker stopped after the retry limit was reached") (jr_cancel_requested record));;
    mret false
  else
    cancelled ← is_cancel_requested id;
    let record :=
      if cancelled : bool
      then with_progress record "cancelled" (jr_progress record) (jr_attempts record)
             (Some "cancelled while the previous worker stopped") true
      else with_progress record "queued" (jr_progress record) (jr_attempts record)
             (Some "worker recovered after process restart") (jr_cancel_requested record) in
    job_write id record;;
    mret (String.eqb (jr_status record) "queued").

Definition load_index_job (id : string) : IO S IndexJobRecord := job_record id.

(** [path.ends_with(".json")], and one object of the listing. *)
Definition read_job (path : string) : IO S (list IndexJobRecord) :=
  if negb (ends_with ".json" path) then mret []
  else
    r ← io_get path;
    mret (match r with Ok b => option_list (record_from_slice b) | Err _ => [] end).

(** The records, newest first. *)
Definition list_index_jobs : IO S (list IndexJobRecord) :=
  r ← io_op (λ s, st_list s JOBS_PREFIX);
  paths ← io_result r;
  records ← io_map read_job paths;
  mret (sort_by (λ a b, jr_created_at b ?= jr_created_at a) (mjoin records)).

End Handles.
