(* ===== verification/Writer.v ===== *)
(** * The table writer

    Models [ailake-query/src/writer.rs] up to the background index builds (see
    [Deferred]): the session state of [TableWriter], the blocking and deferred
    [write_batch] variants, the BM25 statistics and Bloom filters kept along, and
    [commit].  [PartitionDef::apply] of [ailake-core/src/schema.rs] is part of it, and
    [make_data_file_entry_indexing] of [ailake-catalog/src/provider.rs].

    A method is a program over the writer, the tasks it has spawned and the store
    ([Session]), so what a failing call leaves behind in the writer is visible.  The
    session's UUID, the ids of jobs and of snapshots are arguments.  The clock is the
    store's. *)

From S2P Require Import Prelude Core Footer IvfPq FileFormat Store Effects Json Manifest Puffin Catalog ArrowSchema Arrow.
From S2P Require Import Deletes Floats Ranking Bloom Bm25 Search ColumnStats Compaction Jobs.

(* ------------------------------------------------------------------ *)
(** ** Interfaces                                                      *)
(* ------------------------------------------------------------------ *)

Class WriterLib {PL : ParquetLib} {IL : IndexLib} : Type := {
  batch_schema : RecordBatch → list ArrowField;
  (** [IvfPqIndex::train_codebook]. *)
  train_codebook : list vec32 → VectorMetric → IvfPqConfig → AilakeResult IvfPqCodebook;
  (** The bits [BloomFilter::with_capacity] computes for a capacity at one percent. *)
  bloom_bits : Z → Z;
}.

(* ------------------------------------------------------------------ *)
(** ** Partition values                                                *)
(* ------------------------------------------------------------------ *)

(** [strip_prefix("truncate[")], [strip_suffix(']')], [parse::<usize>]. *)
Definition truncate_width (pf : PartitionDef) : option Z :=
  rest ← strip_prefix "truncate[" (pd_transform pf);
  if ends_with "]" rest then parse_u64 (String.substring 0 (String.length rest - 1) rest) else None.

(** [raw.chars().take(w)]: a character is a byte and its continuation bytes. *)
Definition is_continuation (c : Ascii.ascii) : bool :=
  let n := Z.of_N (Ascii.N_of_ascii c) in (128 <=? n) && (n <? 192).
Fixpoint take_chars (w : Z) (s : string) : string :=
  match s with
  | EmptyString => EmptyString
  | String c s =>
      if is_continuation c then String c (take_chars w s)
      else if w <=? 0 then EmptyString
      else String c (take_chars (w - 1) s)
  end.

(** [n - n.rem_euclid(w)] on [i64]; a panic for a zero width, and for the remainder of
    the least integer by -1. *)
Definition round_down (n w : Z) : option Z :=
  if (w =? 0) || ((n =? - 2 ^ 63) && (w =? -1)) then None
  else Some (as_i64 (n - n `mod` Z.abs w)).

Definition is_integer_type (t : string) : bool := existsb (String.eqb t) ["int"; "long"; "integer"].

(** [PartitionDef::apply]; [None] is a panic. *)
Definition partition_apply (pf : PartitionDef) (raw : string) : option string :=
  match truncate_width pf with
  | Some w =>
      match (if is_integer_type (pd_column_type pf) then parse_signed 64 raw else None) with
      | Some n => r ← round_down n (as_i64 w); Some (to_string r)
      | None => Some (take_chars w raw)
      end
  | None => Some raw
  end.

Definition apply_partition_transforms (policy : VectorStoragePolicy) (raw : option string)
    : outcome AilakeError (option string) :=
  match raw with
  | None => Ret (Ok None)
  | Some raw =>
      match partition_fields policy with
      | [] => Ret (Ok (Some raw))
      | fields =>
          let parts := split unit_sep raw in
          transformed ← or_panic (mapM (λ '(i, pf), partition_apply pf (default "" (parts !! i)))
                                    (zip (seq 0 (length fields)) fields));
          Ret (Ok (Some (join (String unit_sep "") transformed)))
      end
  end.

(* ------------------------------------------------------------------ *)
(** ** Entries                                                         *)
(* ------------------------------------------------------------------ *)

Section IndexingEntries.
Context `{SerdeLib}.

Definition make_data_file_entry_indexing (path : string) (record_count file_size_bytes : Z)
    (centroid : Centroid) (column : string) (dim : Z) : DataFileEntry :=
  mk_file path record_count file_size_bytes (Some (encode_centroid_b64 centroid))
    (Some (centroid_radius centroid)) None None (Some column) (Some dim) [] Indexing None
    None None None None None None 0.
End IndexingEntries.

(** [entry.batch_id = …; entry.embedding_model = …; entry.partition_value = …;
    entry.column_stats = …]. *)
Definition tag_entry (policy : VectorStoragePolicy) (batch_id partition_value column_stats : option string)
    (f : DataFileEntry) : DataFileEntry :=
  mk_file (df_path f) (df_record_count f) (df_file_size_bytes f) (df_centroid_b64 f) (df_radius f)
    (df_hnsw_offset f) (df_hnsw_len f) (df_vector_column f) (df_vector_dim f)
    (df_extra_vector_indexes f) (df_index_status f) (df_index_error f) batch_id
    (to_property_value <$> embedding_model policy) partition_value (df_deletion_vector f)
    (df_first_row_id f) column_stats (df_sequence_number f).
Definition with_extra (extra : list ExtraVectorIndex) (f : DataFileEntry) : DataFileEntry :=
  mk_file (df_path f) (df_record_count f) (df_file_size_bytes f) (df_centroid_b64 f) (df_radius f)
    (df_hnsw_offset f) (df_hnsw_len f) (df_vector_column f) (df_vector_dim f)
    extra (df_index_status f) (df_index_error f) (df_batch_id f) (df_embedding_model f)
    (df_partition_value f) (df_deletion_vector f) (df_first_row_id f) (df_column_stats f) (df_sequence_number f).

(* ------------------------------------------------------------------ *)
(** ** The writer's state                                              *)
(* ------------------------------------------------------------------ *)

Section State.
Context {PL : ParquetLib} {IL : IndexLib}.

Record MultiVectorBatch : Type := mk_multi {
  mb_policy : VectorStoragePolicy;
  mb_embeddings : list vec32;
}.

Record TableWriter : Type := mk_tw {
  tw_policy : VectorStoragePolicy;
  tw_table : TableIdent;
  tw_part_counter : Z;
  tw_session_id : string;
  tw_pending_files : list DataFileEntry;
  tw_parent_snapshot_id : option Z;
  tw_captured_schema : option (list ArrowField);
  tw_extra_vec_policies : list VectorStoragePolicy;
  tw_cached_ivf_codebook : option IvfPqCodebook;
  tw_bm25_text_column : option string;
  tw_pending_blooms : list (string * bytes);
  tw_fts_config : option FtsConfig;
}.

Definition tw_new (policy : VectorStoragePolicy) (table : TableIdent) (session_id : string) : TableWriter :=
  mk_tw policy table 0 session_id [] None None [] None None [] None.

(** The arguments of a background build. *)
Record IndexTask : Type := mk_task {
  it_job : string;
  it_policy : VectorStoragePolicy;
  it_file_path : string;
  it_algorithm : IndexAlgorithm;
  it_ivf : option IvfPqConfig;
  it_multi : option (list VectorStoragePolicy * list (list vec32));
}.

Definition with_counter (n : Z) (w : TableWriter) : TableWriter :=
  mk_tw (tw_policy w) (tw_table w) n (tw_session_id w) (tw_pending_files w) (tw_parent_snapshot_id w)
    (tw_captured_schema w) (tw_extra_vec_policies w) (tw_cached_ivf_codebook w) (tw_bm25_text_column w)
    (tw_pending_blooms w) (tw_fts_config w).
Definition with_pending (files : list DataFileEntry) (w : TableWriter) : TableWriter :=
  mk_tw (tw_policy w) (tw_table w) (tw_part_counter w) (tw_session_id w) files (tw_parent_snapshot_id w)
    (tw_captured_schema w) (tw_extra_vec_policies w) (tw_cached_ivf_codebook w) (tw_bm25_text_column w)
    (tw_pending_blooms w) (tw_fts_config w).
Definition with_schema (s : list ArrowField) (w : TableWriter) : TableWriter :=
  mk_tw (tw_policy w) (tw_table w) (tw_part_counter w) (tw_session_id w) (tw_pending_files w)
    (tw_parent_snapshot_id w) (Some s) (tw_extra_vec_policies w) (tw_cached_ivf_codebook w) (tw_bm25_text_column w)
    (tw_pending_blooms w) (tw_fts_config w).
Definition with_extra_policies (extra : list VectorStoragePolicy) (w : TableWriter) : TableWriter :=
  mk_tw (tw_policy w) (tw_table w) (tw_part_counter w) (tw_session_id w) (tw_pending_files w)
    (tw_parent_snapshot_id w) (tw_captured_schema w) extra (tw_cached_ivf_codebook w) (tw_bm25_text_column w)
    (tw_pending_blooms w) (tw_fts_config w).
Definition with_codebook (c : IvfPqCodebook) (w : TableWriter) : TableWriter :=
  mk_tw (tw_policy w) (tw_table w) (tw_part_counter w) (tw_session_id w) (tw_pending_files w)
    (tw_parent_snapshot_id w) (tw_captured_schema w) (tw_extra_vec_policies w) (Some c) (tw_bm25_text_column w)
    (tw_pending_blooms w) (tw_fts_config w).
Definition with_blooms (b : list (string * bytes)) (w : TableWriter) : TableWriter :=
  mk_tw (tw_policy w) (tw_table w) (tw_part_counter w) (tw_session_id w) (tw_pending_files w)
    (tw_parent_snapshot_id w) (tw_captured_schema w) (tw_extra_vec_policies w) (tw_cached_ivf_codebook w)
    (tw_bm25_text_column w) b (tw_fts_config w).

(** The builders. *)
Definition with_bm25 (column : string) (w : TableWriter) : TableWriter :=
  mk_tw (tw_policy w) (tw_table w) (tw_part_counter w) (tw_session_id w) (tw_pending_files w)
    (tw_parent_snapshot_id w) (tw_captured_schema w) (tw_extra_vec_policies w) (tw_cached_ivf_codebook w)
    (Some column) (tw_pending_blooms w) (tw_fts_config w).
Definition with_fts_config (cfg : FtsConfig) (w : TableWriter) : TableWriter :=
  mk_tw (tw_policy w) (tw_table w) (tw_part_counter w) (tw_session_id w) (tw_pending_files w)
    (tw_parent_snapshot_id w) (tw_captured_schema w) (tw_extra_vec_policies w) (tw_cached_ivf_codebook w)
    (tw_bm25_text_column w) (tw_pending_blooms w) (Some cfg).
Definition with_parent_snapshot (id : option Z) (w : TableWriter) : TableWriter :=
  mk_tw (tw_policy w) (tw_table w) (tw_part_counter w) (tw_session_id w) (tw_pending_files w) id
    (tw_captured_schema w) (tw_extra_vec_policies w) (tw_cached_ivf_codebook w)
    (tw_bm25_text_column w) (tw_pending_blooms w) (tw_fts_config w).

(** [validate_embedding_dim_for_policy]: the first offending vector decides. *)
Fixpoint validate_embedding_dim (embeddings : list vec32) (policy : VectorStoragePolicy) : AilakeResult unit :=
  match embeddings with
  | [] => Ok tt
  | emb :: embeddings =>
      let actual := wrap 32 (Zlen emb) in
      if negb (actual =? policy_dim policy) then
        Err (ModelMismatch (default ("dim=" +:+ to_string (policy_dim policy))
                              (to_property_value <$> embedding_model policy))
               (policy_dim policy) ("dim=" +:+ to_string actual) actual)
      else if negb (forallb is_finite emb) then Err CatalogError
      else validate_embedding_dim embeddings policy
  end.

(** [{:05}]. *)
Fixpoint zeros (n : nat) : string := match n with O => "" | S n => String (Ascii.ascii_of_nat 48) (zeros n) end.
Definition pad5 (n : Z) : string := zeros (5 - String.length (to_string n)) +:+ to_string n.
Definition part_path (session_id : string) (part_num : Z) : string :=
  "data/part-" +:+ session_id +:+ "-" +:+ pad5 part_num +:+ ".parquet".

End State.

(* ------------------------------------------------------------------ *)
(** ** Writing batches                                                 *)
(* ------------------------------------------------------------------ *)

Section Methods.
Context {S : Type} `{Store S} `{SerdeLib} `{JsonLib} `{TextLib} `{UnstableSort} `{Bm25Lib}.
Context {PL : ParquetLib} {IL : IndexLib} {AL : ArrowLib} {CL : CompactLib} {WL : WriterLib}.
Context `{!JobSerde} `{!CatalogProvider S}.

(** Programs of a session: the writer and the tasks it has spawned, and the store. *)
Abbreviation Session A := (Local (TableWriter * list IndexTask) S A) (only parsing).

Definition this : Session TableWriter := λ ls, (ls, Ret (Ok ls.1.1)).
Definition update (f : TableWriter → TableWriter) : Session unit := modify_local (λ '(w, ts), (f w, ts)).
Definition spawn (t : IndexTask) : Session unit := modify_local (λ '(w, ts), (w, ts ++ [t])).

Definition capture_schema (batch : RecordBatch) (w : TableWriter) : TableWriter :=
  with_schema (merge_schema (tw_captured_schema w) (batch_schema batch)) w.

(** [self.part_counter.fetch_add(1)]. *)
Definition next_part_path : Session string :=
  w ← this;
  update (with_counter (wrap 32 (tw_part_counter w + 1)));;
  mret (part_path (tw_session_id w) (tw_part_counter w)).

Definition push_pending (entry : DataFileEntry) : Session unit :=
  update (λ w, with_pending (tw_pending_files w ++ [entry]) w).

Definition ensure_deferred_supported : Session unit :=
  if cp_supports_in_place_rewrite then mret tt else io_err CatalogError.

(** The cells of a text column; none when the batch lacks it or it is no [Utf8] column. *)
Definition text_cells (batch : RecordBatch) (column : string) : option (list (option string)) :=
  i ← index_of batch column;
  match column_type batch i with
  | Utf8 => Some ((λ row, if is_null batch i row then None else Some (value_text batch i row)) <$>
                    seqZ 0 (num_rows batch))
  | _ => None
  end.

(** Statistics that cannot be read start again from nothing. *)
Definition update_bm25_stats_from_batch (column : option string) (batch : RecordBatch) : IO S unit :=
  match (c ← column; text_cells batch c) with
  | None => mret tt
  | Some cells =>
      let texts := cells ≫= option_list in
      r ← io_get BM25_STATS_FILE;
      let stats := match r with
                   | Ok b => match idf_from_bytes b with Ok st => st | Err _ => idf_default end
                   | Err _ => idf_default
                   end in
      b ← io_result (idf_to_bytes (merge_batch stats texts));
      put_ BM25_STATS_FILE b
  end.

(** [build_bloom_for_file] for the writer's text column. *)
Definition add_bloom (batch : RecordBatch) (file_path : string) : Session unit :=
  w ← this;
  match (c ← tw_bm25_text_column w; text_cells batch c) with
  | None => mret tt
  | Some cells =>
      b ← io_outcome (or_panic (build_bloom_for_file (bloom_bits (Z.max (num_rows batch * 10) 128)) cells));
      update (with_blooms (tw_pending_blooms w ++ [(file_path, b)]))
  end.

Definition update_text_index (batch : RecordBatch) (file_path : string) : Session unit :=
  w ← this;
  match tw_bm25_text_column w with
  | None => mret tt
  | Some _ =>
      on_store (update_bm25_stats_from_batch (tw_bm25_text_column w) batch);;
      add_bloom batch file_path
  end.

(** The values every entry of the session carries. *)
Definition tagged (batch_id column_stats : option string) (entry : DataFileEntry) : Session DataFileEntry :=
  w ← this;
  pv ← io_outcome (apply_partition_transforms (tw_policy w) (partition_value (tw_policy w)));
  mret (tag_entry (tw_policy w) batch_id pv column_stats entry).

(** Store a file with its index, and describe it. *)
Definition stage_indexed (file_path : string) (n : Z) (file_bytes : bytes) (batch_id : option string) : Session unit :=
  w ← this;
  let p := tw_policy w in
  let column_stats := column_stats_json file_bytes [column_name p] in
  on_store (put_ file_path file_bytes);;
  let reader := mk_reader file_bytes (column_name p) in
  header ← io_outcome (read_header reader);
  ailk_start ← io_outcome (ailk_offset reader);
  centroid ← io_outcome (get_centroid reader);
  entry ← tagged batch_id column_stats
    (make_data_file_entry file_path n (Zlen file_bytes) centroid
       (mk_vinfo (column_name p) (policy_dim p) (wrap 64 (ailk_start + Header.hnsw_offset header))
          (Header.hnsw_len header)));
  push_pending entry.

Definition with_fts (cfg : option FtsConfig) (fw : AilakeFileWriter) : AilakeFileWriter :=
  match cfg with
  | Some cfg => mk_writer (w_policy fw) (w_index_type fw) (w_shared_codebook fw) (Some cfg) (w_prebuilt_fts_blob fw)
  | None => fw
  end.
Definition with_shared_ivf_codebook (cb : IvfPqCodebook) (fw : AilakeFileWriter) : AilakeFileWriter :=
  mk_writer (w_policy fw) (w_index_type fw) (Some cb) (w_fts_config fw) (w_prebuilt_fts_blob fw).

Definition write_batch_with_id (batch : RecordBatch) (embeddings : list vec32) (batch_id : option string)
    : Session unit :=
  w ← this;
  io_result (validate_embedding_dim embeddings (tw_policy w));;
  update (capture_schema batch);;
  file_path ← next_part_path;
  file_bytes ← io_result (write (with_fts (tw_fts_config w) (writer_new (tw_policy w))) batch embeddings);
  stage_indexed file_path (Zlen embeddings) file_bytes batch_id;;
  update_text_index batch file_path.

Definition tw_write_batch (batch : RecordBatch) (embeddings : list vec32) : Session unit :=
  write_batch_with_id batch embeddings None.

Definition write_batch_idempotent (batch : RecordBatch) (embeddings : list vec32) (batch_id : string) : Session unit :=
  existing ← on_store (cp_list_files None);
  if already_written existing batch_id then mret tt
  else write_batch_with_id batch embeddings (Some batch_id).

Definition write_batch_ivf_pq (batch : RecordBatch) (embeddings : list vec32) (ivf_config : IvfPqConfig)
    : Session unit :=
  update (capture_schema batch);;
  file_path ← next_part_path;
  w ← this;
  codebook ← match tw_cached_ivf_codebook w with
             | Some cb => mret cb
             | None =>
                 cb ← io_result (train_codebook embeddings (policy_metric (tw_policy w)) ivf_config);
                 update (with_codebook cb);; mret cb
             end;
  file_bytes ← io_result (write (with_shared_ivf_codebook codebook
                                   (with_index_type (writer_new (tw_policy w)) (IIvfPq ivf_config)))
                            batch embeddings);
  stage_indexed file_path (Zlen embeddings) file_bytes None.

(** The IVF-PQ configuration of a batch, when the hardware recommends one. *)
Definition auto_config (policy : VectorStoragePolicy) (n : Z) : option IvfPqConfig :=
  if recommend_ivf_pq n then
    let cfg := ivf_for_dataset (policy_dim policy) n in
    Some (if ivf_residual policy then with_residual cfg else cfg)
  else None.

Definition write_batch_auto (batch : RecordBatch) (embeddings : list vec32) : Session unit :=
  w ← this;
  match auto_config (tw_policy w) (Zlen embeddings) with
  | Some cfg => write_batch_ivf_pq batch embeddings cfg
  | None => tw_write_batch batch embeddings
  end.

(* ------------------------------------------------------------------ *)
(** ** Several vector columns                                          *)
(* ------------------------------------------------------------------ *)

(** [&file_bytes[start..start + HEADER_SIZE]], decoded. *)
Definition header_of_section (file_bytes : bytes) (start : Z) : outcome AilakeError Header.AilakeHeader :=
  b ← or_panic (slice file_bytes start (start + HEADER_SIZE)); Ret (Header.from_bytes b).

(** The columns after the first become the session's extra columns, once. *)
Definition capture_extra (columns : list MultiVectorBatch) (w : TableWriter) : TableWriter :=
  match tw_extra_vec_policies w, columns with
  | [], _ :: (_ :: _) as rest => with_extra_policies (mb_policy <$> rest) w
  | _, _ => w
  end.

(** The catalog's record of an extra column. *)
Definition extra_index (reader : AilakeFileReader) (col : MultiVectorBatch) : IO S ExtraVectorIndex :=
  let p := mb_policy col in
  col_ailk_start ← io_outcome (ailk_offset_for_column reader (column_name p));
  col_header ← io_outcome (header_of_section (r_bytes reader) col_ailk_start);
  col_centroid ← io_outcome (get_centroid (mk_reader (r_bytes reader) (column_name p)));
  mret (mk_evi (column_name p) (policy_dim p) (wrap 64 (col_ailk_start + Header.hnsw_offset col_header))
          (Header.hnsw_len col_header) (Some (encode_centroid_b64 col_centroid)) (Some (centroid_radius col_centroid))).

(** Validation of every column. *)
Fixpoint validate_columns (columns : list MultiVectorBatch) : AilakeResult unit :=
  match columns with
  | [] => Ok tt
  | c :: columns => validate_embedding_dim (mb_embeddings c) (mb_policy c);; validate_columns columns
  end.

Definition column_batches (columns : list MultiVectorBatch) : list VectorColumnBatch :=
  (λ c, mk_column (mb_policy c) (mb_embeddings c)) <$> columns.

Definition write_batch_multi (batch : RecordBatch) (columns : list MultiVectorBatch) : Session unit :=
  update (capture_schema batch);;
  update (capture_extra columns);;
  match columns with
  | [] => io_err InvalidArgument
  | primary :: extras =>
      io_result (validate_columns columns);;
      file_path ← next_part_path;
      w ← this;
      let p := mb_policy primary in
      file_bytes ← io_result (write_multi (with_fts (tw_fts_config w) (writer_new p)) batch (column_batches columns));
      let column_stats := column_stats_json file_bytes ((column_name ∘ mb_policy) <$> columns) in
      on_store (put_ file_path file_bytes);;
      let reader := mk_reader file_bytes (column_name p) in
      primary_ailk_start ← io_outcome (ailk_offset reader);
      primary_centroid ← io_outcome (get_centroid reader);
      primary_header ← io_outcome (header_of_section file_bytes primary_ailk_start);
      extra ← on_store (io_map (extra_index reader) extras);
      entry ← tagged None column_stats
        (make_multi_column_data_file_entry file_path (Zlen (mb_embeddings primary)) (Zlen file_bytes)
           primary_centroid
           (mk_vinfo (column_name p) (policy_dim p)
              (wrap 64 (primary_ailk_start + Header.hnsw_offset primary_header)) (Header.hnsw_len primary_header))
           extra);
      push_pending entry
  end.

(* ------------------------------------------------------------------ *)
(** ** Deferred indexing                                               *)
(* ------------------------------------------------------------------ *)

(** Store a file without an index, and stage it as being indexed. *)
Definition stage_parquet_only (p : VectorStoragePolicy) (batch : RecordBatch) (embeddings : list vec32)
    (file_path : string) (extra : list ExtraVectorIndex) : Session unit :=
  parquet_bytes ← io_result (write_parquet_only (writer_new p) batch embeddings);
  let column_stats := column_stats_json parquet_bytes [column_name p] in
  on_store (put_ file_path parquet_bytes);;
  let centroid := compute_centroid_and_radius embeddings (policy_metric p) in
  entry ← tagged None column_stats
    (with_extra extra
       (make_data_file_entry_indexing file_path (Zlen embeddings) (Zlen parquet_bytes) centroid (column_name p)
          (policy_dim p)));
  push_pending entry.

Definition write_batch_deferred (batch : RecordBatch) (embeddings : list vec32) (job_id : string) : Session unit :=
  ensure_deferred_supported;;
  w ← this;
  io_result (validate_embedding_dim embeddings (tw_policy w));;
  update (capture_schema batch);;
  file_path ← next_part_path;
  stage_parquet_only (tw_policy w) batch embeddings file_path [];;
  on_store (job_create job_id (tw_table w) file_path Hnsw None);;
  spawn (mk_task job_id (tw_policy w) file_path Hnsw None None);;
  update_text_index batch file_path.

Definition write_batch_ivf_pq_deferred (batch : RecordBatch) (embeddings : list vec32) (ivf_config : IvfPqConfig)
    (job_id : string) : Session unit :=
  ensure_deferred_supported;;
  update (capture_schema batch);;
  file_path ← next_part_path;
  w ← this;
  stage_parquet_only (tw_policy w) batch embeddings file_path [];;
  on_store (job_create job_id (tw_table w) file_path IvfPq (Some ivf_config));;
  spawn (mk_task job_id (tw_policy w) file_path IvfPq (Some ivf_config) None).

Definition write_batch_auto_deferred (batch : RecordBatch) (embeddings : list vec32) (job_id : string) : Session unit :=
  w ← this;
  match auto_config (tw_policy w) (Zlen embeddings) with
  | Some cfg => write_batch_ivf_pq_deferred batch embeddings cfg job_id
  | None => write_batch_deferred batch embeddings job_id
  end.

Definition write_batch_multi_deferred (batch : RecordBatch) (columns : list MultiVectorBatch) (job_id : string)
    : Session unit :=
  ensure_deferred_supported;;
  match columns with
  | [] => io_err InvalidArgument
  | primary :: extras =>
      update (capture_schema batch);;
      update (capture_extra columns);;
      file_path ← next_part_path;
      w ← this;
      stage_parquet_only (mb_policy primary) batch (mb_embeddings primary) file_path
        ((λ c, let col_centroid := compute_centroid_and_radius (mb_embeddings c) (policy_metric (mb_policy c)) in
               mk_evi (column_name (mb_policy c)) (policy_dim (mb_policy c)) 0 0
                 (Some (encode_centroid_b64 col_centroid)) (Some (centroid_radius col_centroid))) <$> extras);;
      let payload := (mb_policy <$> columns, mb_embeddings <$> columns) in
      on_store (job_create_multi job_id (tw_table w) file_path payload.1 payload.2);;
      spawn (mk_task job_id (tw_policy w) file_path MultiHnsw None (Some payload))
  end.

(* ------------------------------------------------------------------ *)
(** ** Committing                                                      *)
(* ------------------------------------------------------------------ *)

Definition extra_policy_props (ep : VectorStoragePolicy) (props : gmap string string) : gmap string string :=
  let props := <["ailake.dim-" +:+ column_name ep := to_string (policy_dim ep)]> props in
  let props := <["ailake.metric-" +:+ column_name ep := metric_str (policy_metric ep)]> props in
  match modality ep with
  | Some m => <["ailake.modality-" +:+ column_name ep := modality_as_str m]> props
  | None => props
  end.

Definition commit_props (w : TableWriter) : gmap string string :=
  let props : gmap string string :=
    match tw_fts_config w with
    | Some cfg => <["ailake.fts.tokenizer" := fts_tokenizer cfg]>
                    (<["ailake.fts.text-columns" := join "," (fts_text_columns cfg)]>
                       {["ailake.fts.enabled" := "true"]})
    | None => ∅
    end in
  foldl (λ props ep, extra_policy_props ep props) props (tw_extra_vec_policies w).

Definition commit_snapshot_of (w : TableWriter) (snap_id : Z) : NewSnapshot :=
  mk_newsnap snap_id (tw_parent_snapshot_id w) (tw_pending_files w) Append
    ((λ s, arrow_schema_to_iceberg_update s (tw_policy w) (tw_extra_vec_policies w)) <$> tw_captured_schema w)
    (commit_props w) (tw_pending_blooms w) [].

Definition tw_commit (w : TableWriter) (snap_id now : Z) : IO S Z :=
  match tw_pending_files w with
  | [] =>
      meta ← io_catch cp_load_table;
      mret (match meta with Ok m => default 0 (tm_current_snapshot_id m) | Err _ => 0 end)
  | _ => cp_commit_snapshot (commit_snapshot_of w snap_id) now
  end.

End Methods.
