(* ===== verification/MemTable.v ===== *)
(** * Buffers in memory

    [ailake-query/src/mem_table.rs]: [MemTableWriter] gathers micro-batches and writes
    them as one file when a threshold of bytes, rows or age is reached;
    [WorkingMemoryBuffer] keeps an agent's most recent entries, searches them and drains
    them to a table.  [MemTableTheorems] has the properties. *)

From S2P Require Import Prelude Core FileFormat Store Effects Json Manifest Catalog ArrowSchema Arrow Arrays.
From S2P Require Import Deletes Floats Ranking Bloom Bm25 Search Compaction Jobs Writer.

(* ------------------------------------------------------------------ *)
(** ** Micro-batches                                                   *)
(* ------------------------------------------------------------------ *)

(** The interval is in milliseconds. *)
Record MemTableConfig : Type := mk_mtconfig {
  flush_size_bytes : Z;
  flush_max_rows : Z;
  flush_interval : Z;
}.
Definition default_mtconfig : MemTableConfig := mk_mtconfig (64 * 1024 * 1024) 100000 30000.

Section Buffer.
Context {PL : ParquetLib}.

Record MemTableWriter : Type := mk_mt {
  mt_pending_batches : list RecordBatch;
  mt_pending_embeddings : list vec32;
  mt_buffered_bytes : Z;
  mt_last_flush : Z;
}.

Definition mt_new (now : Z) : MemTableWriter := mk_mt [] [] 0 now.

Definition buffered_rows (mt : MemTableWriter) : Z := Zlen (mt_pending_embeddings mt).

Definition is_full (config : MemTableConfig) (mt : MemTableWriter) : bool :=
  (flush_size_bytes config <=? mt_buffered_bytes mt) || (flush_max_rows config <=? buffered_rows mt).

(** The bytes of a micro-batch's embeddings, in [usize]. *)
Definition row_bytes (policy : VectorStoragePolicy) (embeddings : list vec32) : Z :=
  wrap 64 (wrap 64 (Zlen embeddings * policy_dim policy) * bytes_per_element (policy_precision policy)).

Definition push_rows (policy : VectorStoragePolicy) (batch : RecordBatch) (embeddings : list vec32)
    (mt : MemTableWriter) : MemTableWriter :=
  mk_mt (mt_pending_batches mt ++ [batch]) (mt_pending_embeddings mt ++ embeddings)
    (wrap 64 (mt_buffered_bytes mt + row_bytes policy embeddings)) (mt_last_flush mt).

Definition touch (now : Z) (mt : MemTableWriter) : MemTableWriter :=
  mk_mt (mt_pending_batches mt) (mt_pending_embeddings mt) (mt_buffered_bytes mt) now.
Definition without_batches (mt : MemTableWriter) : MemTableWriter :=
  mk_mt [] (mt_pending_embeddings mt) (mt_buffered_bytes mt) (mt_last_flush mt).

End Buffer.

(** What one flush takes from the outside: a session id, a job id, a snapshot id, the
    instant and the commit's clock. *)
Record FlushIds : Type := mk_flush_ids {
  fi_session : string;
  fi_job : string;
  fi_snapshot : Z;
  fi_instant : Z;
  fi_now : Z;
}.

Section Flushing.
Context {S : Type} `{Store S} `{SerdeLib} `{JsonLib} `{TextLib} `{UnstableSort} `{Bm25Lib}.
Context {PL : ParquetLib} {IL : IndexLib} {AL : ArrowLib} {CL : CompactLib} {WL : WriterLib}.
Context `{!JobSerde} `{!CatalogProvider S}.
Context (config : MemTableConfig) (policy : VectorStoragePolicy) (table : TableIdent).

(** Programs of a buffer: it and the tasks spawned, and the store. *)
Abbreviation Buffering A := (Local (MemTableWriter * list IndexTask) S A) (only parsing).

Definition buffer : Buffering MemTableWriter := λ ls, (ls, Ret (Ok ls.1.1)).
Definition rebuffer (f : MemTableWriter → MemTableWriter) : Buffering unit :=
  modify_local (λ '(mt, ts), (f mt, ts)).

(** A writer of its own, which is dropped at the end; its tasks go on. *)
Definition with_new_writer {A} (w : TableWriter) (prog : Local (TableWriter * list IndexTask) S A) : Buffering A :=
  λ '((mt, ts), s), let '((_, ts', s'), o) := prog ((w, []), s) in (((mt, ts ++ ts'), s'), o).

Definition flush (ids : FlushIds) : Buffering Z :=
  mt ← buffer;
  match mt_pending_embeddings mt with
  | [] => rebuffer (touch (fi_instant ids));; mret 0
  | _ =>
      merged ← match mt_pending_batches mt with
               | [] => io_panic
               | [b] => rebuffer without_batches;; mret b
               | first :: _ => io_outcome (concat_batches first (mt_pending_batches mt))
               end;
      rebuffer (λ _, mk_mt [] [] 0 (fi_instant ids));;
      with_new_writer (tw_new policy table (fi_session ids))
        (write_batch_deferred merged (mt_pending_embeddings mt) (fi_job ids);;
         w ← this;
         on_store (tw_commit w (fi_snapshot ids) (fi_now ids)))
  end.

Definition insert (batch : RecordBatch) (embeddings : list vec32) (ids : FlushIds) : Buffering (option Z) :=
  rebuffer (push_rows policy batch embeddings);;
  mt ← buffer;
  if is_full config mt then id ← flush ids; mret (Some id) else mret None.

(** [now] is the instant at which the age is taken. *)
Definition flush_if_due (now : Z) (ids : FlushIds) : Buffering (option Z) :=
  mt ← buffer;
  match mt_pending_embeddings mt with
  | [] => rebuffer (touch (fi_instant ids));; mret None
  | _ =>
      if flush_interval config <=? Z.max 0 (now - mt_last_flush mt)
      then id ← flush ids; mret (Some id) else mret None
  end.

End Flushing.

(* ------------------------------------------------------------------ *)
(** ** Working memory                                                  *)
(* ------------------------------------------------------------------ *)

Record WorkingMemoryEntry : Type := mk_wme {
  wm_text : string;
  wm_embedding : vec32;
  wm_importance : f32bits;
}.

Record WorkingMemoryBuffer : Type := mk_wmb {
  wm_max_rows : Z;
  wm_entries : list WorkingMemoryEntry;
}.

Definition wm_new (max_rows : Z) : WorkingMemoryBuffer := mk_wmb (Z.max max_rows 1) [].
Definition wm_len (wm : WorkingMemoryBuffer) : Z := Zlen (wm_entries wm).
Definition wm_is_full (wm : WorkingMemoryBuffer) : bool := wm_max_rows wm <=? wm_len wm.

(** [f32::clamp(0.0, 1.0)]: a NaN stays. *)
Definition clamp01 (x : f32bits) : f32bits :=
  if f32_lt x F32_ZERO then F32_ZERO else if f32_gt x F32_ONE then F32_ONE else x.

Definition wm_push (text : string) (embedding : vec32) (importance : f32bits) (wm : WorkingMemoryBuffer)
    : WorkingMemoryBuffer :=
  let entries := if wm_max_rows wm <=? wm_len wm then tail (wm_entries wm) else wm_entries wm in
  mk_wmb (wm_max_rows wm) (entries ++ [mk_wme text embedding (clamp01 importance)]).

Definition l2_norm (v : vec32) : f32bits := f32_sqrt (f32_sum ((λ x, f32_mul x x) <$> v)).

(** [2^-23]. *)
Definition F32_EPSILON : f32bits := 872415232.

(** [zip] stops at the shorter vector. *)
Definition wm_distance (query : vec32) (e : WorkingMemoryEntry) : f32bits :=
  let q_norm := l2_norm query in
  let v_norm := l2_norm (wm_embedding e) in
  let dot := f32_sum (zip_with f32_mul query (wm_embedding e)) in
  let cos_sim := if f32_lt (f32_mul q_norm v_norm) F32_EPSILON then F32_ZERO
                 else f32_div dot (f32_mul q_norm v_norm) in
  f32_sub F32_ONE cos_sim.

Section WorkingMemory.
Context `{UnstableSort}.

(** Indices are those of entries, so looking them up does not panic. *)
Definition wm_search (query : vec32) (top_k : nat) (wm : WorkingMemoryBuffer) : list (f32bits * WorkingMemoryEntry) :=
  match wm_entries wm, top_k with
  | [], _ | _, O => []
  | entries, _ =>
      let scored := imap (λ i e, (wm_distance query e, i)) entries in
      let scored := sort_unstable_by (λ a b : f32bits * nat, default Eq (partial_cmp a.1 b.1)) scored in
      omap (λ '(dist, idx), e ← entries !! idx; Some (dist, e)) (take top_k scored)
  end.
End WorkingMemory.

Section Draining.
Context {S : Type} `{Store S} `{SerdeLib} `{JsonLib} `{TextLib} `{UnstableSort} `{Bm25Lib}.
Context {PL : ParquetLib} {IL : IndexLib} {AL : ArrowLib} {CL : CompactLib} {WL : WriterLib} {RL : ArrayLib}.
Context `{!JobSerde} `{!CatalogProvider S}.

Definition memory_fields : list ArrowField :=
  [mk_afield "chunk_text" ArrowTy.Utf8 false; mk_afield "importance_score" ArrowTy.Float32 false].

Definition memory_batch (entries : list WorkingMemoryEntry) : AilakeResult RecordBatch :=
  batch_new memory_fields [string_array (wm_text <$> entries); f32_array (wm_importance <$> entries)].

(** Programs on a buffer and the caller's writer. *)
Definition drain_to_table : Local (WorkingMemoryBuffer * (TableWriter * list IndexTask)) S unit :=
  λ '((wm, wts), s),
    match wm_entries wm with
    | [] => (((wm, wts), s), Ret (Ok tt))
    | entries =>
        match memory_batch entries with
        | Err e => (((wm, wts), s), Ret (Err e))
        | Ok batch =>
            let '((wts, s), o) := tw_write_batch batch (wm_embedding <$> entries) (wts, s) in
            match o with
            | Ret (Ok _) => (((mk_wmb (wm_max_rows wm) [], wts), s), Ret (Ok tt))
            | _ => (((wm, wts), s), o)
            end
        end
    end.
End Draining.
