(* ===== verification/Decay.v ===== *)
(** * Memory decay

    [ailake-query/src/memory_decay.rs]: a job that recomputes the [recency_weight]
    column of every file from its [last_accessed_at] column, writes each file anew under
    a fresh path, and replaces the old files in one commit.  [DecayTheorems] has the
    properties. *)

From S2P Require Import Prelude Core Footer FileFormat Store Effects Json Manifest Catalog ArrowSchema Arrow Arrays.
From S2P Require Import Deletes Floats Ranking Bm25 Search Cdc Compaction Writer.

Definition LAST_ACCESSED_COL : string := "last_accessed_at".
Definition RECENCY_WEIGHT_COL : string := "recency_weight".

(** What the job uses of timestamps, and [f32::exp]. *)
Inductive TimeUnit : Type := Microsecond | Nanosecond.
Class DecayLib {PL : ParquetLib} {RL : ArrayLib} : Type := {
  (** Downcasts to [TimestampMicrosecondArray] and [TimestampNanosecondArray]. *)
  timestamp_unit : ArrayRef → option TimeUnit;
  timestamp_value : ArrayRef → Z → Z;
  f32_exp : f32bits → f32bits;
}.

(* ------------------------------------------------------------------ *)
(** ** Dates                                                           *)
(* ------------------------------------------------------------------ *)

(** [&s[a..b]] for [b] within the text: [None] is the panic off a character boundary. *)
Definition char_boundary (s : string) (i : nat) : bool :=
  match String.get i s with Some c => negb (is_continuation c) | None => true end.
Definition str_slice (s : string) (a b : nat) : option string :=
  if char_boundary s a && char_boundary s b then Some (String.substring a (b - a) s) else None.

(** The Julian day number, with the truncating divisions of [i64], less that of the epoch. *)
Definition days_from_civil (y m d : Z) : Z :=
  let a := Z.quot (14 - m) 12 in
  let y2 := y + 4800 - a in
  let m2 := m + 12 * a - 3 in
  let jdn := d + Z.quot (153 * m2 + 2) 5 + 365 * y2 + Z.quot y2 4 - Z.quot y2 100 + Z.quot y2 400 - 32045 in
  jdn - 2440588.

(** [None] is a panic. *)
Definition parse_iso_date_days (s : string) : option (option Z) :=
  if decide (String.length s < 10)%nat then Some None
  else
    ys ← str_slice s 0 4;
    match parse_signed 64 ys with
    | None => Some None
    | Some y =>
        ms ← str_slice s 5 7;
        match parse_signed 64 ms with
        | None => Some None
        | Some m =>
            ds ← str_slice s 8 10;
            match parse_signed 64 ds with
            | None => Some None
            | Some d => Some (Some (days_from_civil y m d))
            end
        end
    end.

(** From the seconds of the clock. *)
Definition current_day_since_epoch (now_secs : Z) : Z := Z.quot (as_i64 now_secs) 86400.

(* ------------------------------------------------------------------ *)
(** ** Weights                                                         *)
(* ------------------------------------------------------------------ *)

Section Weights.
Context {PL : ParquetLib} {AL : ArrowLib} {RL : ArrayLib} {DL : DecayLib}.

Definition units_per_day (u : TimeUnit) : Z :=
  match u with Nanosecond => 86400 * 1000000000 | Microsecond => 86400 * 1000000 end.

(** [(today_day - day).max(0) as f32]. *)
Definition age (today_day day : Z) : f32bits := f32_of_int (Z.max (today_day - day) 0).

Definition rows_of_array (a : ArrayRef) : list Z := seqZ 0 (array_len a).

Definition days_old_vec (col : ArrayRef) (today_day : Z) : outcome AilakeError (list f32bits) :=
  match timestamp_unit col with
  | Some u =>
      Ret (Ok ((λ i, if array_is_null col i then F32_ZERO
                     else age today_day (Z.quot (timestamp_value col i) (units_per_day u))) <$> rows_of_array col))
  | None =>
      match array_type col with
      | ArrowTy.Utf8 =>
          match mapM (λ i, if array_is_null col i then Some F32_ZERO
                           else day ← parse_iso_date_days (array_text col i);
                                Some (age today_day (default today_day day))) (rows_of_array col) with
          | Some days => Ret (Ok days)
          | None => Panic
          end
      | _ => Ret (Err CatalogError)
      end
  end.

Definition decay_field : ArrowField := mk_afield RECENCY_WEIGHT_COL ArrowTy.Float32 false.

(** [(-lambda * d).exp()]. *)
Definition recency (lambda d : f32bits) : f32bits := f32_exp (f32_mul (f32_neg lambda) d).

Definition apply_decay (batch : RecordBatch) (today_day : Z) (lambda : f32bits) : outcome AilakeError RecordBatch :=
  let fields := schema_of batch in
  match field_index fields LAST_ACCESSED_COL with
  | None => Ret (Err CatalogError)
  | Some i =>
      days_old ← days_old_vec (column batch i) today_day;
      let new_weight_array := f32_array (recency lambda <$> days_old) in
      match field_index fields RECENCY_WEIGHT_COL with
      | Some pos =>
          Ret (batch_new (<[pos := decay_field]> fields) (<[pos := new_weight_array]> (columns batch)))
      | None => Ret (batch_new (fields ++ [decay_field]) (columns batch ++ [new_weight_array]))
      end
  end.

End Weights.

(* ------------------------------------------------------------------ *)
(** ** The job                                                         *)
(* ------------------------------------------------------------------ *)

Section Job.
Context {S : Type} `{Store S} `{RoaringLib} `{SerdeLib}.
Context {PL : ParquetLib} {IL : IndexLib} {AL : ArrowLib} {QL : QueryLib} {CL : CompactLib} {RL : ArrayLib} {DL : DecayLib}.
Context `{!CatalogProvider S} (policy : VectorStoragePolicy) (decay_lambda : f32bits).

Definition decayed_path (millis idx : Z) : string :=
  "data/decayed-" +:+ to_string millis +:+ "-" +:+ pad5 idx +:+ ".parquet".

(** The policy of a further column: metric and precision of the first. *)
Definition secondary_policy (col : string) (dim : Z) : VectorStoragePolicy :=
  {| column_name := col; policy_dim := dim; policy_metric := policy_metric policy;
     policy_precision := policy_precision policy; pq := None; keep_raw_for_reranking := false;
     pre_normalize := false; hnsw_m := None; hnsw_ef_construction := None; ivf_residual := false;
     embedding_model := None; modality := None; partition_by := None; partition_value := None;
     partition_column_type := None; partition_fields := [] |}.

(** The vectors of the further columns that can be read. *)
Definition extra_embeddings (entry : DataFileEntry) (orig_bytes : bytes) : list (string * Z * list vec32) :=
  omap (λ xi, match read_parquet (mk_reader orig_bytes (evi_column xi)) (evi_dim xi) with
              | Ok (_, embs) => Some (evi_column xi, evi_dim xi, embs)
              | Err _ => None
              end) (df_extra_vector_indexes entry).

Definition decayed_bytes (batch : RecordBatch) (embeddings : list vec32) (extra : list (string * Z * list vec32))
    : AilakeResult bytes :=
  match extra with
  | [] => write (writer_new policy) batch embeddings
  | _ =>
      write_multi (writer_new policy) batch
        (mk_column policy embeddings :: ((λ x, mk_column (secondary_policy x.1.1 x.1.2) x.2) <$> extra))
  end.

(** The index of a further column in the new file, where it can be found. *)
Definition new_extra_index (new_bytes : bytes) (col : string) (dim : Z) : outcome AilakeError (option ExtraVectorIndex) :=
  let xr := mk_reader new_bytes col in
  match ailk_offset_for_column xr col with
  | Panic => Panic
  | Ret (Err _) => Ret (Ok None)
  | Ret (Ok xailk) =>
      match read_header_for_column xr col with
      | Panic => Panic
      | Ret (Err _) => Ret (Ok None)
      | Ret (Ok xhdr) =>
          Ret (Ok (Some (mk_evi col dim (wrap 64 (xailk + Header.hnsw_offset xhdr)) (Header.hnsw_len xhdr) None None)))
      end
  end.

(** The entry keeps the deletion vector of the old one. *)
Definition with_vector_of (old f : DataFileEntry) : DataFileEntry :=
  match df_deletion_vector old with Some dv => set_deletion_vector dv f | None => f end.

(** [None]: the file is carried forward as it is. *)
Definition decay_file (today_day : Z) (new_path : string) (entry : DataFileEntry) : IO S (option DataFileEntry) :=
  file_bytes ← get_ (df_path entry);
  let reader := mk_reader file_bytes (column_name policy) in
  if negb (is_ailake_file reader) then mret None
  else
    match read_parquet reader (policy_dim policy) with
    | Err _ => mret None
    | Ok (batch, embeddings) =>
        match field_index (schema_of batch) LAST_ACCESSED_COL with
        | None => mret None
        | Some _ =>
            updated_batch ← io_outcome (apply_decay batch today_day decay_lambda);
            let extra := extra_embeddings entry file_bytes in
            new_bytes ← io_result (decayed_bytes updated_batch embeddings extra);
            put_ new_path new_bytes;;
            let centroid := compute_centroid_and_radius embeddings (policy_metric policy) in
            let new_reader := mk_reader new_bytes (column_name policy) in
            header ← io_outcome (read_header new_reader);
            ailk_start ← io_outcome (ailk_offset new_reader);
            new_extra ← io_map (λ x : string * Z * list vec32, io_outcome (new_extra_index new_bytes x.1.1 x.1.2)) extra;
            let new_entry := make_multi_column_data_file_entry new_path (num_rows updated_batch) (Zlen new_bytes) centroid
              (mk_vinfo (column_name policy) (policy_dim policy) (wrap 64 (ailk_start + Header.hnsw_offset header))
                 (Header.hnsw_len header)) (omap id new_extra) in
            mret (Some (with_vector_of entry new_entry))
        end
    end.

(** The new entries, the paths retired and the number of files rewritten; [millis] is
    the clock when that number had been rewritten. *)
Definition decay_state : Type := list DataFileEntry * list string * Z.

Definition decay_step (today_day : Z) (millis : Z → Z) (st : decay_state) (entry : DataFileEntry) : IO S decay_state :=
  let '(new_entries, retired_paths, updated) := st in
  r ← decay_file today_day (decayed_path (millis updated) updated) entry;
  match r with
  | None => mret (new_entries ++ [entry], retired_paths, updated)
  | Some new_entry => mret (new_entries ++ [new_entry], retired_paths ++ [df_path entry], updated + 1)
  end.

Fixpoint decay_files (today_day : Z) (millis : Z → Z) (st : decay_state) (files : list DataFileEntry) : IO S decay_state :=
  match files with
  | [] => mret st
  | entry :: files => st ← decay_step today_day millis st entry; decay_files today_day millis st files
  end.

Definition decay_run (now_secs : Z) (millis : Z → Z) (snap_id now : Z) : IO S Z :=
  files ← cp_list_files None;
  match files with
  | [] => mret 0
  | _ =>
      '(new_entries, retired_paths, updated) ←
        decay_files (current_day_since_epoch now_secs) millis ([], [], 0) files;
      if updated =? 0 then mret 0
      else
        meta ← io_catch cp_load_table;
        let parent_snapshot_id := match meta with Ok m => tm_current_snapshot_id m | Err _ => None end in
        cp_commit_snapshot (plain_snapshot snap_id parent_snapshot_id new_entries Overwrite []) now;;
        (if cp_retires_files_physically then io_map io_delete retired_paths;; mret tt else mret tt);;
        mret updated
  end.

End Job.
