(* ===== verification/Migration.v ===== *)
(** * Re-embedding and backfill

    The two jobs that rewrite a table's files with new vectors: [migration.rs] replaces
    the embedding column by one of another model, file by file with a commit each or in
    a single cutover; [backfill.rs] adds a vector column to the files that lack it.  The
    embedding function, the clocks and the snapshot ids are arguments; the callbacks
    that report progress are not represented. *)

From S2P Require Import Prelude Core Footer FileFormat Store Effects Json Manifest Catalog ArrowSchema Arrow Arrays.
From S2P Require Import Deletes Floats Ranking Bm25 Search Cdc ColumnStats Compaction Writer Decay.

(* ------------------------------------------------------------------ *)
(** ** Policies from table properties                                  *)
(* ------------------------------------------------------------------ *)

Section Properties.
Context (props : gmap string string).

Definition metric_property : VectorMetric :=
  let s := default "cosine" (props !! "ailake.vector-metric") in
  if String.eqb s "euclidean" then Euclidean
  else if String.eqb s "dotproduct" || String.eqb s "dot_product" then DotProduct
  else if String.eqb s "normalizedcosine" || String.eqb s "normalized_cosine" then NormalizedCosine
  else Cosine.

Definition precision_property : VectorPrecision :=
  let s := default "f16" (props !! "ailake.vector-precision") in
  if String.eqb s "f32" then F32 else if String.eqb s "i8" then I8 else F16.

Definition dim_property : AilakeResult Z := ok_or (props !! "ailake.vector-dim" ≫= parse_u32) InvalidArgument.

(** Both jobs keep the raw vectors and set nothing else. *)
Definition property_policy (column : string) (dim : Z) (model : option EmbeddingModelInfo) : VectorStoragePolicy :=
  {| column_name := column; policy_dim := dim; policy_metric := metric_property;
     policy_precision := precision_property; pq := None; keep_raw_for_reranking := true;
     pre_normalize := bool_decide (props !! "ailake.pre-normalize" = Some "true");
     hnsw_m := props !! "ailake.hnsw-m" ≫= parse_u32;
     hnsw_ef_construction := props !! "ailake.hnsw-ef-construction" ≫= parse_u32;
     ivf_residual := false; embedding_model := model; modality := None; partition_by := None;
     partition_value := None; partition_column_type := None; partition_fields := [] |}.

Definition new_policy_from_metadata (new_column : string) (new_model : option EmbeddingModelInfo)
    : AilakeResult VectorStoragePolicy :=
  dim ← dim_property; Ok (property_policy new_column dim new_model).

Definition primary_policy_from_props : AilakeResult VectorStoragePolicy :=
  dim ← dim_property;
  Ok (property_policy (default "embedding" (props !! "ailake.vector-column")) dim None).

End Properties.

(* ------------------------------------------------------------------ *)
(** ** Texts and their vectors                                         *)
(* ------------------------------------------------------------------ *)

(** [slice::chunks], by the length of the slice. *)
Fixpoint chunks_of {A} (fuel n : nat) (l : list A) : list (list A) :=
  match fuel, l with
  | S fuel, _ :: _ => take n l :: chunks_of fuel n (drop n l)
  | _, _ => []
  end.

(** [texts.chunks(0)] panics. *)
Definition embed_in_batches (embed_fn : list string → AilakeResult (list vec32)) (texts : list string) (batch_size : nat)
    : outcome AilakeError (list vec32) :=
  if decide (batch_size = O) then Panic
  else
    Ret (match try_map embed_fn (chunks_of (length texts) batch_size texts) with
         | Ok vecs => Ok (mjoin vecs)
         | Err e => Err e
         end).

Section Columns.
Context {PL : ParquetLib} {AL : ArrowLib} {RL : ArrayLib}.

(** Nulls are empty texts. *)
Definition extract_string_column (batch : RecordBatch) (column_name : string) : AilakeResult (list string) :=
  match field_index (schema_of batch) column_name with
  | None => Err InvalidArgument
  | Some i =>
      let arr := column batch i in
      match array_type arr with
      | ArrowTy.Utf8 => Ok ((λ i, if array_is_null arr i then "" else array_text arr i) <$> rows_of_array arr)
      | _ => Err InvalidArgument
      end
  end.
End Columns.

(* ------------------------------------------------------------------ *)
(** ** One commit per file                                             *)
(* ------------------------------------------------------------------ *)

Section Each.
Context {S : Type} `{Store S} `{!CatalogProvider S}.
Context (rewrite : nat → DataFileEntry → IO S (option DataFileEntry)).
Context (snapshot : nat → option Z → list DataFileEntry → NewSnapshot) (now : nat → Z).

(** The loop of both jobs: the entry at [idx] is replaced in the running list of all
    files, which is committed as a whole; [None] is a file that is skipped. *)
Fixpoint each_file (idx : nat) (todo current_files : list DataFileEntry) (parent_snap : option Z) : IO S unit :=
  match todo with
  | [] => mret tt
  | entry :: todo =>
      r ← rewrite idx entry;
      match r with
      | None => each_file (Datatypes.S idx) todo current_files parent_snap
      | Some new_entry =>
          let current_files := <[idx := new_entry]> current_files in
          let snap := snapshot idx parent_snap current_files in
          cp_commit_snapshot snap (now idx);;
          each_file (Datatypes.S idx) todo current_files (Some (ns_snapshot_id snap))
      end
  end.
End Each.

(** A file's clock, snapshot id and commit time. *)
Record RunClock : Type := mk_clock {
  rc_millis : nat → Z;
  rc_snap_id : nat → Z;
  rc_now : nat → Z;
}.

(* ------------------------------------------------------------------ *)
(** ** Migration                                                       *)
(* ------------------------------------------------------------------ *)

Inductive MigrationStrategy : Type := AtomicReplace | DualWriteThenCutover.

Record MigrationJob : Type := mk_migration {
  mj_old_column : string;
  mj_new_column : string;
  mj_text_column : string;
  mj_embed_fn : list string → AilakeResult (list vec32);
  mj_strategy : MigrationStrategy;
  mj_batch_size : nat;
  mj_new_model : option EmbeddingModelInfo;
}.

Section Migration.
Context {S : Type} `{Store S} `{RoaringLib} `{SerdeLib} `{JsonLib}.
Context {PL : ParquetLib} {IL : IndexLib} {AL : ArrowLib} {QL : QueryLib} {RL : ArrayLib}.
Context `{!CatalogProvider S} (job : MigrationJob) (clock : RunClock).

Definition read_file_texts (policy : VectorStoragePolicy) (entry : DataFileEntry) : IO S (RecordBatch * list string) :=
  b ← get_ (df_path entry);
  '(batch, _) ← io_result (read_parquet (mk_reader b (mj_old_column job)) (policy_dim policy));
  texts ← io_result (extract_string_column batch (mj_text_column job));
  match df_deletion_vector entry with
  | Some dv => bitmap ← load_deletion_vector dv; io_result (filter_deleted_rows batch texts bitmap)
  | None => mret (batch, texts)
  end.

Definition migrated_path (millis : Z) (idx : nat) : string :=
  "data/migrated-" +:+ to_string millis +:+ "-" +:+ pad5 (Z.of_nat idx) +:+ ".parquet".

Definition write_new_file (policy : VectorStoragePolicy) (file_path : string) (batch : RecordBatch) (embeddings : list vec32)
    : IO S DataFileEntry :=
  file_bytes ← io_result (write (writer_new policy) batch embeddings);
  put_ file_path file_bytes;;
  let centroid := compute_centroid_and_radius embeddings (policy_metric policy) in
  let reader := mk_reader file_bytes (column_name policy) in
  header ← io_outcome (read_header reader);
  ailk_start ← io_outcome (ailk_offset reader);
  mret (make_data_file_entry file_path (Zlen embeddings) (Zlen file_bytes) centroid
    (mk_vinfo (column_name policy) (policy_dim policy) (wrap 64 (ailk_start + Header.hnsw_offset header))
       (Header.hnsw_len header))).

(** One file, re-embedded. *)
Definition migrate_file (policy : VectorStoragePolicy) (idx : nat) (entry : DataFileEntry) : IO S DataFileEntry :=
  '(batch, texts) ← read_file_texts policy entry;
  embeddings ← io_outcome (embed_in_batches (mj_embed_fn job) texts (mj_batch_size job));
  write_new_file policy (migrated_path (rc_millis clock idx) idx) batch embeddings.

Definition migration_snapshot (policy : VectorStoragePolicy) (snap_id : Z) (parent : option Z) (files : list DataFileEntry)
    : NewSnapshot :=
  mk_newsnap snap_id parent files Replace None {["ailake.vector-column" := column_name policy]} [] [].

Definition run_atomic_replace : IO S unit :=
  table_meta ← cp_load_table;
  old_files ← cp_list_files (tm_current_snapshot_id table_meta);
  policy ← io_result (new_policy_from_metadata (tm_properties table_meta) (mj_new_column job) (mj_new_model job));
  each_file (λ idx entry, new_entry ← migrate_file policy idx entry; mret (Some new_entry))
    (λ idx, migration_snapshot policy (rc_snap_id clock idx)) (rc_now clock) 0 old_files old_files
    (tm_current_snapshot_id table_meta).

(** The first phase of the cutover: every file is written before any is replaced. *)
Fixpoint write_all (policy : VectorStoragePolicy) (idx : nat) (old_files : list DataFileEntry) : IO S (list DataFileEntry) :=
  match old_files with
  | [] => mret []
  | entry :: old_files =>
      new_entry ← migrate_file policy idx entry;
      rest ← write_all policy (Datatypes.S idx) old_files;
      mret (new_entry :: rest)
  end.

Definition run_dual_write : IO S unit :=
  table_meta ← cp_load_table;
  old_files ← cp_list_files (tm_current_snapshot_id table_meta);
  policy ← io_result (new_policy_from_metadata (tm_properties table_meta) (mj_new_column job) (mj_new_model job));
  new_entries ← write_all policy 0 old_files;
  cp_commit_snapshot (migration_snapshot policy (rc_snap_id clock 0) (tm_current_snapshot_id table_meta) new_entries)
    (rc_now clock 0);;
  mret tt.

Definition migration_run : IO S unit :=
  match mj_strategy job with
  | AtomicReplace => run_atomic_replace
  | DualWriteThenCutover => run_dual_write
  end.

End Migration.

(* ------------------------------------------------------------------ *)
(** ** Backfill                                                        *)
(* ------------------------------------------------------------------ *)

Record VectorColSpec : Type := mk_colspec {
  vcs_column_name : string;
  vcs_dim : Z;
  vcs_metric : VectorMetric;
  vcs_precision : VectorPrecision;
  vcs_pre_normalize : bool;
  vcs_hnsw_m : option Z;
  vcs_hnsw_ef_construction : option Z;
}.

Record BackfillJob : Type := mk_backfill {
  bj_text_column : string;
  bj_new_col : VectorColSpec;
  bj_embed_fn : list string → AilakeResult (list vec32);
  bj_batch_size : nat;
}.

Definition colspec_policy (c : VectorColSpec) : VectorStoragePolicy :=
  {| column_name := vcs_column_name c; policy_dim := vcs_dim c; policy_metric := vcs_metric c;
     policy_precision := vcs_precision c; pq := None; keep_raw_for_reranking := true;
     pre_normalize := vcs_pre_normalize c; hnsw_m := vcs_hnsw_m c;
     hnsw_ef_construction := vcs_hnsw_ef_construction c; ivf_residual := false; embedding_model := None;
     modality := None; partition_by := None; partition_value := None; partition_column_type := None;
     partition_fields := [] |}.

Section Backfill.
Context {S : Type} `{Store S} `{RoaringLib} `{SerdeLib} `{JsonLib}.
Context {PL : ParquetLib} {IL : IndexLib} {AL : ArrowLib} {QL : QueryLib} {RL : ArrayLib}.
Context `{!CatalogProvider S} (job : BackfillJob) (clock : RunClock).

Definition read_batch_texts_and_embeddings (b : bytes) (vector_column : string) (dim : Z)
    : AilakeResult (RecordBatch * list string * list vec32) :=
  '(batch, primary_embeddings) ← read_parquet (mk_reader b vector_column) dim;
  texts ← extract_string_column batch (bj_text_column job);
  Ok (batch, texts, primary_embeddings).

Definition backfill_path (millis : Z) (idx : nat) : string :=
  "data/backfill-" +:+ to_string millis +:+ "-" +:+ pad5 (Z.of_nat idx) +:+ ".parquet".

Definition write_backfilled_file (primary new : VectorStoragePolicy) (file_path : string) (batch : RecordBatch)
    (primary_embeddings new_embeddings : list vec32) : IO S DataFileEntry :=
  file_bytes ← io_result (write_multi (writer_new primary) batch
    [mk_column primary primary_embeddings; mk_column new new_embeddings]);
  put_ file_path file_bytes;;
  let reader := mk_reader file_bytes (column_name primary) in
  primary_ailk_offset ← io_outcome (ailk_offset reader);
  primary_header ← io_outcome (read_header reader);
  new_ailk_offset ← io_outcome (ailk_offset_for_column reader (column_name new));
  new_header ← io_outcome (read_header_for_column reader (column_name new));
  let primary_centroid := compute_centroid_and_radius primary_embeddings (policy_metric primary) in
  let new_centroid := compute_centroid_and_radius new_embeddings (policy_metric new) in
  let extra := [mk_evi (column_name new) (policy_dim new) (wrap 64 (new_ailk_offset + Header.hnsw_offset new_header))
                  (Header.hnsw_len new_header) (Some (encode_centroid_b64 new_centroid)) (Some (centroid_radius new_centroid))] in
  mret (make_multi_column_data_file_entry file_path (Zlen new_embeddings) (Zlen file_bytes) primary_centroid
    (mk_vinfo (column_name primary) (policy_dim primary) (wrap 64 (primary_ailk_offset + Header.hnsw_offset primary_header))
       (Header.hnsw_len primary_header)) extra).

(** The rows a deletion vector leaves, with their texts and vectors. *)
Definition surviving_rows (entry : DataFileEntry) (batch : RecordBatch) (texts : list string) (primary_embeddings : list vec32)
    : IO S (RecordBatch * list string * list vec32) :=
  match df_deletion_vector entry with
  | Some dv =>
      bitmap ← load_deletion_vector dv;
      '(batch, combined) ← io_result (filter_deleted_rows batch (zip texts primary_embeddings) bitmap);
      mret (batch, combined.*1, combined.*2)
  | None => mret (batch, texts, primary_embeddings)
  end.

(** [None]: the file has the column already. *)
Definition backfill_file (primary new : VectorStoragePolicy) (idx : nat) (entry : DataFileEntry) : IO S (option DataFileEntry) :=
  file_bytes ← get_ (df_path entry);
  let reader := mk_reader file_bytes (column_name primary) in
  if has_column_footer reader (column_name new) then mret None
  else
    '(batch, texts, primary_embeddings) ←
      io_result (read_batch_texts_and_embeddings file_bytes (column_name primary) (policy_dim primary));
    '(batch, texts, primary_embeddings) ← surviving_rows entry batch texts primary_embeddings;
    new_embeddings ← io_outcome (embed_in_batches (bj_embed_fn job) texts (bj_batch_size job));
    new_entry ← write_backfilled_file primary new (backfill_path (rc_millis clock idx) idx) batch primary_embeddings new_embeddings;
    mret (Some new_entry).

Definition backfill_run : IO S unit :=
  table_meta ← cp_load_table;
  files ← cp_list_files (tm_current_snapshot_id table_meta);
  let new_policy := colspec_policy (bj_new_col job) in
  primary_policy ← io_result (primary_policy_from_props (tm_properties table_meta));
  each_file (backfill_file primary_policy new_policy)
    (λ idx parent files, plain_snapshot (rc_snap_id clock idx) parent files Overwrite []) (rc_now clock) 0 files files
    (tm_current_snapshot_id table_meta).

End Backfill.
