(* ===== verification/Deferred.v ===== *)
(** * Background index builds

    Models the rest of [ailake-query/src/writer.rs]: the builds that give a deferred
    file its index and patch its catalog entry, the worker that runs them under a claim
    ([spawn_index_job]), their resumption after a restart, and [create_or_open]; with
    [compact_deferred] and [run_deferred] of [ailake-query/src/compaction.rs].

    A spawned task is data ([IndexTask]); running it is a program over the shared
    codebook cell of its session, the token of its claim and the store.  Sleeps are left
    out, and so is the heartbeat, which only extends the lease.  The ids of the commits
    of a build are an argument, counted down by the attempts left. *)

From S2P Require Import Prelude Core Footer IvfPq FileFormat Store Effects Json Manifest Puffin Catalog ArrowSchema Arrow.
From S2P Require Import Deletes Floats Ranking Bloom Bm25 Search ColumnStats Compaction Jobs Writer.

(* ------------------------------------------------------------------ *)
(** ** Patching the catalog                                            *)
(* ------------------------------------------------------------------ *)

Definition with_index (status : IndexStatus) (error : option string) (offset len : option Z)
    (extra : list ExtraVectorIndex) (f : DataFileEntry) : DataFileEntry :=
  mk_file (df_path f) (df_record_count f) (df_file_size_bytes f) (df_centroid_b64 f) (df_radius f)
    offset len (df_vector_column f) (df_vector_dim f) extra status error (df_batch_id f)
    (df_embedding_model f) (df_partition_value f) (df_deletion_vector f) (df_first_row_id f)
    (df_column_stats f) (df_sequence_number f).

(** The index is at this place. *)
Definition mark_ready (offset len : Z) (f : DataFileEntry) : DataFileEntry :=
  with_index Ready (df_index_error f) (Some offset) (Some len) (df_extra_vector_indexes f) f.
Definition mark_failed (reason : string) (f : DataFileEntry) : DataFileEntry :=
  with_index Failed (Some reason) (df_hnsw_offset f) (df_hnsw_len f) (df_extra_vector_indexes f) f.

(** The first extra columns get their places. *)
Definition place_extra (offsets : list (Z * Z)) (extra : list ExtraVectorIndex) : list ExtraVectorIndex :=
  imap (λ i xi, match offsets !! i with
                | Some (off, len) => mk_evi (evi_column xi) (evi_dim xi) off len (evi_centroid_b64 xi) (evi_radius xi)
                | None => xi
                end) extra.
Definition mark_multi_ready (offset len : Z) (extra_offsets : list (Z * Z)) (f : DataFileEntry) : DataFileEntry :=
  with_index Ready (df_index_error f) (Some offset) (Some len)
    (place_extra extra_offsets (df_extra_vector_indexes f)) f.

(** [for f in &mut files { if f.path == file_path { …; break; } }]. *)
Fixpoint patch_first (file_path : string) (patch : DataFileEntry → DataFileEntry) (files : list DataFileEntry)
    : list DataFileEntry :=
  match files with
  | [] => []
  | f :: files => if String.eqb (df_path f) file_path then patch f :: files
                  else f :: patch_first file_path patch files
  end.

Definition is_ready (file_path : string) (f : DataFileEntry) : bool :=
  String.eqb (df_path f) file_path && bool_decide (df_index_status f = Ready).

(** [Store::validate_location]. *)
Class LocationCheck : Type := { validate_location : string → AilakeResult unit }.

Section Builds.
Context {S : Type} `{Store S} `{!FencedLocks S} `{RoaringLib} `{SerdeLib} `{JsonLib} `{TextLib} `{UnstableSort} `{Bm25Lib}.
Context {PL : ParquetLib} {IL : IndexLib} {AL : ArrowLib} {QL : QueryLib} {CL : CompactLib} {WL : WriterLib}.
Context `{!JobSerde} `{!CatalogProvider S} `{!LocationCheck}.

(** Programs of a claimed job, of the task that runs it, and programs that spawn tasks. *)
Abbreviation JobIO A := (Local (option Z) S A) (only parsing).
Abbreviation TaskIO A := (Local (option IvfPqCodebook) (option Z * S) A) (only parsing).
Abbreviation Spawning A := (Local (list IndexTask) S A) (only parsing).

Definition patch_index_failed (file_path reason : string) (snap_id : Z) : IO S unit :=
  table_meta ← io_catch cp_load_table;
  match table_meta with
  | Err _ => mret tt
  | Ok table_meta =>
      files ← io_catch (cp_list_files None);
      match files with
      | Err _ => mret tt
      | Ok files =>
          now ← now_ms;
          io_catch (cp_commit_snapshot
            (plain_snapshot snap_id (tm_current_snapshot_id table_meta)
               (patch_first file_path (mark_failed reason) files) Replace []) now);;
          mret tt
      end
  end.

(** The retry loop that marks the file ready, [n] attempts at most. *)
Fixpoint patch_ready (n : nat) (ids : nat → Z) (file_path : string) (patch : DataFileEntry → DataFileEntry)
    : IO S unit :=
  match n with
  | O => mret tt
  | Datatypes.S n =>
      table_meta ← cp_load_table;
      files ← cp_list_files None;
      if existsb (is_ready file_path) files then mret tt
      else
        now ← now_ms;
        cp_commit_snapshot
          (plain_snapshot (ids n) (tm_current_snapshot_id table_meta) (patch_first file_path patch files) Replace [])
          now;;
        verify ← cp_list_files None;
        if existsb (is_ready file_path) verify then mret tt else patch_ready n ids file_path patch
  end.

Definition checkpoint_index_job (id : string) (progress : Z) : JobIO unit :=
  cancelled ← on_store (is_cancel_requested id);
  if cancelled : bool then io_err InvalidArgument else update_progress id progress.

(** Wait until the table has a snapshot, [n] looks at most. *)
Fixpoint wait_committed (n : nat) (id : string) (progress : Z) : JobIO bool :=
  match n with
  | O => mret false
  | Datatypes.S n =>
      checkpoint_index_job id progress;;
      meta ← on_store (io_catch cp_load_table);
      match meta with
      | Ok meta => if is_none (tm_current_snapshot_id meta) then wait_committed n id progress else mret true
      | Err _ => wait_committed n id progress
      end
  end.

(** Offset and length of the primary index of a file. *)
Definition index_place (file_bytes : bytes) (column : string) : outcome AilakeError (Z * Z) :=
  let full_reader := mk_reader file_bytes column in
  header ← read_header full_reader;
  ailk_start ← ailk_offset full_reader;
  Ret (Ok (wrap 64 (ailk_start + Header.hnsw_offset header), Header.hnsw_len header)).

Definition WAIT_LOOKS : nat := 120.
Definition PATCH_ATTEMPTS : nat := 50.

Definition build_and_patch_index (ids : nat → Z) (policy : VectorStoragePolicy) (file_path id : string) : JobIO unit :=
  parquet_bytes ← on_store (get_ file_path);
  '(batch, embeddings) ← io_result (read_parquet (mk_reader parquet_bytes (column_name policy)) (policy_dim policy));
  checkpoint_index_job id 10;;
  full_bytes ← io_result (write (writer_new policy) batch embeddings);
  checkpoint_index_job id 55;;
  '(offset, len) ← io_outcome (index_place full_bytes (column_name policy));
  io_outcome (verify_integrity (mk_reader full_bytes (column_name policy)));;
  on_store (put_ file_path full_bytes);;
  checkpoint_index_job id 70;;
  committed ← wait_committed WAIT_LOOKS id 75;
  if negb committed then io_err StoreError
  else
    on_store (patch_ready PATCH_ATTEMPTS ids file_path (mark_ready offset len));;
    checkpoint_index_job id 95.

(** [codebook_cell.get_or_try_init(…)]. *)
Definition shared_codebook (embeddings : list vec32) (metric : VectorMetric) (config : IvfPqConfig)
    : TaskIO IvfPqCodebook :=
  cell ← get_local;
  match cell with
  | Some cb => mret cb
  | None => cb ← io_result (train_codebook embeddings metric config); set_local (Some cb);; mret cb
  end.

Definition build_ivf_pq_and_patch_index (ids : nat → Z) (policy : VectorStoragePolicy) (file_path : string)
    (ivf_config : IvfPqConfig) (id : string) : TaskIO unit :=
  parquet_bytes ← on_store (on_store (get_ file_path));
  '(batch, embeddings) ← io_result (read_parquet (mk_reader parquet_bytes (column_name policy)) (policy_dim policy));
  on_store (checkpoint_index_job id 10);;
  codebook ← shared_codebook embeddings (policy_metric policy) ivf_config;
  on_store (checkpoint_index_job id 45);;
  full_bytes ← io_result (write (with_shared_ivf_codebook codebook
                                   (with_index_type (writer_new policy) (IIvfPq ivf_config))) batch embeddings);
  on_store (checkpoint_index_job id 65);;
  '(offset, len) ← io_outcome (index_place full_bytes (column_name policy));
  on_store (on_store (put_ file_path full_bytes));;
  on_store (checkpoint_index_job id 75);;
  committed ← on_store (wait_committed WAIT_LOOKS id 80);
  on_store (checkpoint_index_job id 95);;
  if negb committed then io_err StoreError
  else on_store (on_store (patch_ready PATCH_ATTEMPTS ids file_path (mark_ready offset len))).

(** Offset and length of an extra column's index. *)
Definition extra_place (full_bytes : bytes) (p : VectorStoragePolicy) : outcome AilakeError (Z * Z) :=
  let col_reader := mk_reader full_bytes (column_name p) in
  col_ailk_start ← ailk_offset_for_column col_reader (column_name p);
  col_header ← read_header_for_column col_reader (column_name p);
  Ret (Ok (wrap 64 (col_ailk_start + Header.hnsw_offset col_header), Header.hnsw_len col_header)).

Definition build_and_patch_multi_index (ids : nat → Z) (policies : list VectorStoragePolicy) (file_path : string)
    (all_embeddings : list (list vec32)) (id : string) : JobIO unit :=
  match policies with
  | [] => io_panic
  | primary :: extras =>
      parquet_bytes ← on_store (get_ file_path);
      '(batch, _) ← io_result (read_parquet (mk_reader parquet_bytes (column_name primary)) (policy_dim primary));
      checkpoint_index_job id 10;;
      full_bytes ← io_result (write_multi (writer_new primary) batch
                                (zip_with mk_column policies all_embeddings));
      checkpoint_index_job id 60;;
      '(offset, len) ← io_outcome (index_place full_bytes (column_name primary));
      extra_offsets ← io_map (λ p, io_outcome (extra_place full_bytes p)) extras;
      on_store (put_ file_path full_bytes);;
      checkpoint_index_job id 70;;
      committed ← wait_committed WAIT_LOOKS id 80;
      checkpoint_index_job id 95;;
      if negb committed then io_err StoreError
      else on_store (patch_ready PATCH_ATTEMPTS ids file_path (mark_multi_ready offset len extra_offsets))
  end.

(* ------------------------------------------------------------------ *)
(** ** Workers                                                         *)
(* ------------------------------------------------------------------ *)

Definition build_task (ids : nat → Z) (t : IndexTask) : TaskIO unit :=
  match it_algorithm t, it_ivf t, it_multi t with
  | Hnsw, None, None => on_store (build_and_patch_index ids (it_policy t) (it_file_path t) (it_job t))
  | IvfPq, Some config, None =>
      build_ivf_pq_and_patch_index ids (it_policy t) (it_file_path t) config (it_job t)
  | MultiHnsw, None, Some (policies, embeddings) =>
      on_store (build_and_patch_multi_index ids policies (it_file_path t) embeddings (it_job t))
  | _, _, _ => io_err InvalidArgument
  end.

(** What a worker does after a failed build; whether it tries again. *)
Definition after_failure (t : IndexTask) (error : AilakeError) (snap_id : Z) : JobIO bool :=
  let id := it_job t in
  cancelled ← on_store (io_catch (is_cancel_requested id));
  match cancelled with
  | Ok true =>
      io_catch (mark_cancelled id (error_text error));;
      io_catch (release_claim id);;
      mret false
  | _ =>
      retry ← io_catch (fail_or_retry id (error_text error));
      let retry := match retry with Ok b => b | Err _ => false end in
      (if retry then mret tt else on_store (patch_index_failed (it_file_path t) (error_text error) snap_id));;
      io_catch (release_claim id);;
      mret retry
  end.

(** The loop of [spawn_index_job], [fuel] rounds of it; whether it ended. *)
Fixpoint run_index_job (fuel : nat) (ids : nat → nat → Z) (t : IndexTask) : TaskIO bool :=
  match fuel with
  | O => mret false
  | Datatypes.S fuel =>
      claimed ← on_store (io_catch (try_claim (it_job t)));
      match claimed with
      | Ok true =>
          result ← io_catch (build_task (ids fuel) t);
          match result with
          | Ok _ =>
              on_store (io_catch (succeed (it_job t)));;
              on_store (io_catch (release_claim (it_job t)));;
              mret true
          | Err error =>
              again ← on_store (after_failure t error (ids fuel PATCH_ATTEMPTS));
              if again : bool then run_index_job fuel ids t else mret true
          end
      | _ => mret true
      end
  end.

(** A spawned task, from its own handle and a codebook cell. *)
Definition run_task (fuel : nat) (ids : nat → nat → Z) (t : IndexTask) (cell : option IvfPqCodebook)
    : IO S (bool * option IvfPqCodebook) :=
  λ s, let '((cell, (_, s)), o) := run_index_job fuel ids t (cell, (None, s)) in
       (s, ended ← o; Ret (Ok (ended, cell))).

(* ------------------------------------------------------------------ *)
(** ** After a restart                                                 *)
(* ------------------------------------------------------------------ *)

(** An operation on a handle made for the occasion. *)
Definition with_handle {A} (prog : JobIO A) : IO S A :=
  λ s, let '((_, s), o) := prog (None, s) in (s, o).

Definition spawn_task (t : IndexTask) : Spawning unit := modify_local (λ ts, ts ++ [t]).

(** One job of [resume_index_jobs]. *)
Definition resume_job (policy : VectorStoragePolicy) (record : IndexJobRecord) : Spawning unit :=
  if negb (existsb (String.eqb (jr_status record)) ["queued"; "running"]) then mret tt
  else
    let id := jr_id record in
    recovered ← on_store (recover_after_restart id);
    if negb recovered then mret tt
    else
      current ← on_store (job_record id);
      match jr_algorithm current with
      | Hnsw => spawn_task (mk_task id policy (jr_file_path current) Hnsw None None)
      | IvfPq =>
          match jr_ivf_config current with
          | None => on_store (with_handle (fail_or_retry id "recovered IVF-PQ job has no configuration"));; mret tt
          | Some config => spawn_task (mk_task id policy (jr_file_path current) IvfPq (Some config) None)
          end
      | MultiHnsw =>
          payload ← on_store (io_catch (multi_payload current));
          match payload with
          | Ok payload => spawn_task (mk_task id policy (jr_file_path current) MultiHnsw None (Some payload))
          | Err error => on_store (with_handle (fail_or_retry id (error_text error)));; mret tt
          end
      end.

(** A file being indexed without a job gets one. *)
Definition adopt_file (policy : VectorStoragePolicy) (table : TableIdent) (known_paths : gset string)
    (uuid : string) (file : DataFileEntry) : Spawning unit :=
  if negb (bool_decide (df_index_status file = Indexing)) || bool_decide (df_path file ∈ known_paths) then mret tt
  else
    on_store (job_create uuid table (df_path file) Hnsw None);;
    spawn_task (mk_task uuid policy (df_path file) Hnsw None None).

Definition resume_index_jobs (policy : VectorStoragePolicy) (table : TableIdent) (uuids : nat → string)
    : Spawning unit :=
  jobs ← on_store list_index_jobs;
  let mine := filter (λ r, jr_table r = table_key table) in
  io_map (resume_job policy) (mine jobs);;
  files ← on_store (cp_list_files None);
  jobs ← on_store list_index_jobs;
  let known_paths : gset string := list_to_set (jr_file_path <$> mine jobs) in
  io_map (λ '(i, f), adopt_file policy table known_paths (uuids i) f) (imap pair files);;
  mret tt.

(** The dimension in the table's properties against the policy's. *)
Definition check_table_dim (policy : VectorStoragePolicy) (meta : TableMetadata) : AilakeResult unit :=
  match (s ← tm_properties meta !! "ailake.vector-dim"; parse_u32 s) with
  | Some stored_dim =>
      if stored_dim =? policy_dim policy then Ok tt
      else Err (ModelMismatch (default ("dim=" +:+ to_string stored_dim)
                                 (to_property_value <$> embedding_model policy))
                  stored_dim ("dim=" +:+ to_string (policy_dim policy)) (policy_dim policy))
  | None => Ok tt
  end.

Definition create_or_open (policy : VectorStoragePolicy) (table : TableIdent) (format_version : Z)
    (session_id table_uuid : string) (uuids : nat → string) : Spawning TableWriter :=
  existing ← on_store (io_catch cp_load_table);
  match existing with
  | Ok existing_meta =>
      io_result (validate_location (tm_location existing_meta));;
      io_result (check_table_dim policy existing_meta)
  | Err _ =>
      now ← on_store now_ms;
      on_store (cp_create_table (mk_tprops policy ∅ format_version (partition_column_type policy)) now table_uuid);;
      created_meta ← on_store cp_load_table;
      io_result (validate_location (tm_location created_meta))
  end;;
  meta ← on_store (io_catch cp_load_table);
  let parent := match meta with Ok m => tm_current_snapshot_id m | Err _ => None end in
  resume_index_jobs policy table uuids;;
  mret (with_parent_snapshot parent (tw_new policy table session_id)).

(* ------------------------------------------------------------------ *)
(** ** Deferred compaction                                             *)
(* ------------------------------------------------------------------ *)

Definition compact_deferred (ex : CompactionExecutor) (table : TableIdent) (files : list DataFileEntry)
    (output_path uuid : string) : Spawning DataFileEntry :=
  match files with
  | [] => io_err CatalogError
  | _ =>
      pairs ← on_store (read_files_parallel ex files);
      match pairs with
      | [] => io_panic
      | (first, _) :: _ =>
          let p := ex_policy ex in
          let all_embeddings := mjoin pairs.*2 in
          merged_batch ← io_outcome (concat_batches first pairs.*1);
          parquet_bytes ← io_result (write_parquet_only (writer_new p) merged_batch all_embeddings);
          let column_stats := column_stats_json parquet_bytes [column_name p] in
          on_store (put_ output_path parquet_bytes);;
          let centroid := compute_centroid_and_radius all_embeddings (policy_metric p) in
          let entry := make_data_file_entry_indexing output_path (num_rows merged_batch) (Zlen parquet_bytes)
                         centroid (column_name p) (policy_dim p) in
          on_store (job_create uuid table output_path Hnsw None);;
          spawn_task (mk_task uuid p output_path Hnsw None None);;
          mret (with_lineage entry (min_first_row_id files) (merge_batch_ids files) column_stats)
      end
  end.

Definition run_deferred (ex : CompactionExecutor) (planner : CompactionConfig) (table : TableIdent)
    (output_prefix : string) (ts snap_id now : Z) (uuid : string) : Spawning (option DataFileEntry) :=
  if negb cp_supports_in_place_rewrite then io_err CatalogError
  else
    all_files ← on_store (cp_list_files None);
    match plan planner all_files with
    | [] => mret None
    | to_compact =>
        merged ← compact_deferred ex table to_compact (compacted_path output_prefix ts) uuid;
        on_store (run_commit to_compact merged snap_id now)
    end.

End Builds.
