(* ===== verification/CompactionTheorems.v ===== *)
(** * What compaction preserves

    The planner's choice and the end of repeated passes; the idempotency keys of a
    merged file; and the table: whatever fails on the way, the rows a scan can see
    after a pass are those before it. *)

From S2P Require Import Prelude Core Footer FileFormat FileTheorems Store Effects Json Avro Manifest.
From S2P Require Import ManifestTheorems Puffin Catalog CatalogTheorems HadoopTheorems Arrow Deletes DeletesTheorems.
From S2P Require Import Floats Ranking Bm25 Search Compaction.

(* ------------------------------------------------------------------ *)
(** ** Lists                                                           *)
(* ------------------------------------------------------------------ *)

(** Removing by path what was chosen leaves the rest. *)
Lemma survivors_perm (chosen left files : list DataFileEntry) :
  NoDup (df_path <$> files) → chosen ++ left ≡ₚ files →
  filter (λ f, df_path f ∉ df_path <$> chosen) files ≡ₚ left.
Proof.
  intros Hnd Hp. rewrite <- Hp. rewrite <- Hp, fmap_app in Hnd. apply NoDup_app in Hnd as (_ & Hdis & _).
  rewrite filter_app, (filter_none _ chosen), (filter_all _ left); [done|..].
  - intros f Hf Hin. apply (Hdis _ Hin). by apply list_elem_of_fmap_2.
  - intros f Hf Hin. by apply Hin, list_elem_of_fmap_2.
Qed.

(* ------------------------------------------------------------------ *)
(** ** Planning                                                        *)
(* ------------------------------------------------------------------ *)

Section Planning.
Context `{SortLaws}.
Implicit Types files : list DataFileEntry.

Lemma sort_by_size_spec files :
  sort_by_size files ≡ₚ files ∧ StronglySorted (by_key df_file_size_bytes) (sort_by_size files).
Proof. by apply sort_law. Qed.

(** The candidates the planner cuts to size, and what it never considers. *)
Definition native_candidates (config : CompactionConfig) files : list DataFileEntry :=
  filter (λ f, df_file_size_bytes f < target_file_size_bytes config) (filter (λ f, is_foreign f = false) files).
Definition considered (config : CompactionConfig) files : list DataFileEntry :=
  if min_files_to_compact config <=? Zlen (native_candidates config files)
  then native_candidates config files else [].

Lemma plan_take config files :
  plan config files = take (Z.to_nat (max_files_per_pass config))
    (sort_by_size (filter (λ f, is_foreign f = true) files) ++ sort_by_size (considered config files)).
Proof.
  unfold plan, considered. fold (native_candidates config files).
  destruct (filter (λ f, is_foreign f = true) files) as [|f foreign] eqn:Ef; [|done].
  destruct (_ <=? _); [done|].
  assert (E : sort_by_size [] = []) by (apply Permutation_nil; symmetry; apply sort_by_size_spec).
  rewrite E. cbn [app]. by rewrite take_nil.
Qed.

Lemma filter_split {A} (P : A → Prop) `{∀ x, Decision (P x)} (Q : A → Prop) `{∀ x, Decision (Q x)} l :
  (∀ x, x ∈ l → (P x ↔ ¬ Q x)) → filter P l ++ filter Q l ≡ₚ l.
Proof.
  induction l as [|x l IH]; intros Hpq; [done|]. rewrite !filter_cons.
  assert (Hx : P x ↔ ¬ Q x) by (apply Hpq; by left).
  specialize (IH ltac:(intros y Hy; apply Hpq; by right)).
  repeat case_decide; try tauto; cbn; [by rewrite IH|]. by rewrite <- Permutation_middle, IH.
Qed.

(** What was not considered: the large native files, or all native files. *)
Lemma considered_split config files :
  ∃ ignored, filter (λ f, is_foreign f = true) files ++ considered config files ++ ignored ≡ₚ files ∧
    Forall (λ g, is_foreign g = false ∧
      (considered config files = [] ∨ target_file_size_bytes config ≤ df_file_size_bytes g)) ignored.
Proof.
  assert (Hsplit : filter (λ f, is_foreign f = true) files ++ filter (λ f, is_foreign f = false) files ≡ₚ files).
  { apply filter_split. intros f _. by destruct (is_foreign f). }
  unfold considered. destruct (_ <=? _).
  - exists (filter (λ f, target_file_size_bytes config ≤ df_file_size_bytes f) (filter (λ f, is_foreign f = false) files)).
    split.
    + etrans; [|exact Hsplit]. apply Permutation_app_head. unfold native_candidates. apply filter_split. lia.
    + apply Forall_forall. intros g. rewrite !list_elem_of_filter. naive_solver.
  - exists (filter (λ f, is_foreign f = false) files). split; [done|].
    apply Forall_forall. intros g. rewrite list_elem_of_filter. naive_solver.
Qed.

Lemma considered_native config files f :
  f ∈ considered config files → is_foreign f = false ∧ df_file_size_bytes f < target_file_size_bytes config ∧
    min_files_to_compact config ≤ Zlen (native_candidates config files).
Proof.
  unfold considered. destruct (_ <=? _) eqn:E; [|by intros ?%elem_of_nil]. apply Z.leb_le in E.
  unfold native_candidates at 1. rewrite !list_elem_of_filter. naive_solver.
Qed.

Lemma in_take {A} n (l : list A) x : x ∈ take n l → x ∈ l.
Proof. intros Hx. rewrite <- (take_drop n l). apply elem_of_app. by left. Qed.
Lemma in_drop {A} n (l : list A) x : x ∈ drop n l → x ∈ l.
Proof. intros Hx. rewrite <- (take_drop n l). apply elem_of_app. by right. Qed.

Lemma sorted_cut {A} (key : A → Z) n l x y :
  StronglySorted (by_key key) l → x ∈ take n l → y ∈ drop n l → key x ≤ key y.
Proof.
  intros Hs Hx Hy. rewrite <- (take_drop n l) in Hs. by eapply (StronglySorted_app_1_elem_of (by_key key)).
Qed.

Lemma plan_perm config files : ∃ left, plan config files ++ left ≡ₚ files.
Proof.
  rewrite plan_take. set (n := Z.to_nat _). destruct (considered_split config files) as (ignored & Hperm & _).
  eexists (drop n _ ++ ignored). rewrite app_assoc, take_drop, <- app_assoc.
  by rewrite !(proj1 (sort_by_size_spec _)).
Qed.

(** What the planner picks.  The chosen files are files of the table, at most
    [max_files_per_pass] of them; a file is chosen because it is foreign, or because it
    is below the target size and there are enough such files; foreign files come first,
    and of two files of the same kind the smaller one is taken. *)
Theorem plan_selects config files :
  ∃ left, plan config files ++ left ≡ₚ files ∧
    Zlen (plan config files) ≤ Z.max 0 (max_files_per_pass config) ∧
    (∀ f, f ∈ plan config files → is_foreign f = true ∨
       df_file_size_bytes f < target_file_size_bytes config ∧
       min_files_to_compact config ≤ Zlen (native_candidates config files)) ∧
    ∀ f g, f ∈ plan config files → g ∈ left →
      (is_foreign g = true → is_foreign f = true) ∧
      (is_foreign f = is_foreign g → df_file_size_bytes f ≤ df_file_size_bytes g).
Proof.
  rewrite plan_take. set (n := Z.to_nat _).
  destruct (considered_split config files) as (ignored & Hperm & Hign).
  destruct (sort_by_size_spec (filter (λ f, is_foreign f = true) files)) as [PF SF].
  destruct (sort_by_size_spec (considered config files)) as [PC SC].
  set (F := sort_by_size (filter _ _)) in *. set (C := sort_by_size (considered config files)) in *.
  assert (HF : ∀ f, f ∈ F → is_foreign f = true).
  { intros f. rewrite PF, list_elem_of_filter. tauto. }
  assert (HC : ∀ f, f ∈ C → is_foreign f = false ∧ df_file_size_bytes f < target_file_size_bytes config ∧
    min_files_to_compact config ≤ Zlen (native_candidates config files)).
  { intros f. rewrite PC. apply considered_native. }
  exists (drop n (F ++ C) ++ ignored). split_and!.
  - rewrite app_assoc, take_drop, <- app_assoc, PF, PC. done.
  - rewrite length_take. lia.
  - intros f Hf%in_take. apply elem_of_app in Hf as [Hf|Hf]; [left; auto|right; by apply HC].
  - rewrite take_app, drop_app. intros f g. rewrite !elem_of_app. rewrite Forall_forall in Hign.
    intros Hf Hg. assert (Hk : f ∈ take n F ∧ is_foreign f = true ∨ f ∈ take (n - length F) C ∧ f ∈ C).
    { destruct Hf as [Hf|Hf]; [left|right]; (split; [done|]); [apply HF|]; by eapply in_take. }
    destruct Hg as [[Hg|Hg]|Hg].
    + assert (Hgf : is_foreign g = true) by exact (HF _ (in_drop _ _ _ Hg)). rewrite Hgf.
      destruct Hk as [[Ht ->]|[Ht _]]; [split; [done|]; intros _; by apply (sorted_cut df_file_size_bytes n F)|].
      assert (n < length F)%nat by (apply list_elem_of_lookup in Hg as [i Hi%lookup_lt_Some]; rewrite length_drop in Hi; lia).
      replace (n - length F)%nat with O in Ht by lia. by apply elem_of_nil in Ht.
    + destruct (HC g) as [Hgn _]; [exact (in_drop _ _ _ Hg)|]. rewrite Hgn.
      destruct Hk as [[Ht ->]|[Ht _]]; [done|]. split; [done|]. intros _. by apply (sorted_cut df_file_size_bytes (n - length F) C).
    + destruct (Hign g Hg) as [Hgn Hsz]. rewrite Hgn. destruct Hk as [[Ht ->]|[_ Hfc]]; [done|].
      split; [done|]. intros _. destruct (HC f Hfc) as (_ & ? & _). destruct Hsz as [Hsz|?]; [|lia].
      rewrite PC, Hsz in Hfc. by apply elem_of_nil in Hfc.
Qed.

(* ------------------------------------------------------------------ *)
(** ** Repeated passes                                                 *)
(* ------------------------------------------------------------------ *)

(** The listing [build_replace_file_list] makes of the current one. *)
Definition next_files (to_compact : list DataFileEntry) (merged : DataFileEntry) files : list DataFileEntry :=
  filter (λ f, df_path f ∉ df_path <$> to_compact) files ++ [merged].

(** Passes until the plan is empty, at most [n]. *)
Fixpoint passes (n : nat) (config : CompactionConfig) (merge : list DataFileEntry → DataFileEntry) files :=
  match n with
  | O => files
  | S n =>
      match plan config files with
      | [] => files
      | to_compact => passes n config merge (next_files to_compact (merge to_compact) files)
      end
  end.

Definition foreign_count files : nat := length (filter (λ f, is_foreign f = true) files).

Lemma filter_filter_le {A} (P Q : A → Prop) `{∀ x, Decision (P x)} `{∀ x, Decision (Q x)} l :
  (length (filter P (filter Q l)) ≤ length (filter P l))%nat.
Proof.
  induction l as [|x l IH]; [done|]. rewrite !filter_cons. destruct (decide (Q x)); [rewrite filter_cons|];
    destruct (decide (P x)); cbn; lia.
Qed.

Lemma filter_true_id {A} (l : list A) : filter (λ _, True) l = l.
Proof. induction l as [|x l IH]; [done|]. rewrite filter_cons, decide_True by done. by rewrite IH. Qed.

Lemma next_files_perm (P : DataFileEntry → Prop) `{∀ f, Decision (P f)} chosen left files merged :
  chosen ++ left ≡ₚ files →
  (length (filter P (next_files chosen merged files)) + length (filter P chosen)
    ≤ length (filter P files) + length (filter P [merged]))%nat.
Proof.
  intros Hp. unfold next_files. rewrite filter_app, length_app, <- Hp, !filter_app, !length_app.
  rewrite (filter_none _ chosen) by (intros f Hf Hin; by apply Hin, list_elem_of_fmap_2). cbn [app filter list_filter length]. pose proof (filter_filter_le P (λ f, df_path f ∉ df_path <$> chosen) left).
  lia.
Qed.

(** A pass that merges two files, or repairs one foreign file, makes progress. *)
Lemma plan_progress config files :
  2 ≤ min_files_to_compact config → 2 ≤ max_files_per_pass config → plan config files ≠ [] →
  (2 ≤ length (plan config files) + foreign_count (plan config files))%nat.
Proof.
  intros Hmin Hmax Hne. unfold foreign_count. destruct (plan config files) as [|f fs] eqn:Ep; [done|].
  destruct (is_foreign f) eqn:Ef; [rewrite filter_cons, decide_True by done; cbn; lia|].
  destruct fs as [|g fs]; [|cbn; lia]. exfalso. clear Hne. rewrite plan_take in Ep.
  destruct (sort_by_size_spec (filter (λ f, is_foreign f = true) files)) as [PF _].
  destruct (sort_by_size_spec (considered config files)) as [PC _].
  set (F := sort_by_size (filter _ _)) in *. set (C := sort_by_size (considered config files)) in *.
  assert (Hl : length (take (Z.to_nat (max_files_per_pass config)) (F ++ C)) = 1%nat) by by rewrite Ep.
  rewrite length_take, length_app in Hl.
  assert (Hf : f ∈ F ++ C) by (eapply in_take; rewrite Ep; by left). apply elem_of_app in Hf as [Hf|Hf].
  - rewrite PF, list_elem_of_filter, Ef in Hf. by destruct Hf.
  - rewrite PC in Hf. apply considered_native in Hf as Hc. destruct Hc as (_ & _ & Hn).
    assert (HC : length C = length (native_candidates config files)).
    { rewrite PC. clear -Hf. revert Hf. unfold considered. destruct (_ <=? _); [done|by intros ?%elem_of_nil]. }
    lia.
Qed.

(** C19: compaction converges.  With the thresholds at two or more, repeated passes
    reach a table with nothing left to compact, after no more passes than there are
    files plus foreign files, whatever the sizes of the merged files are. *)
Theorem compaction_converges config merge files :
  2 ≤ min_files_to_compact config → 2 ≤ max_files_per_pass config →
  (∀ fs, is_foreign (merge fs) = false) →
  plan config (passes (length files + foreign_count files) config merge files) = [].
Proof.
  intros Hmin Hmax Hm. remember (length files + foreign_count files)%nat as n eqn:Hn.
  assert (Hle : (length files + foreign_count files ≤ n)%nat) by lia. clear Hn.
  revert files Hle. induction n as [|n IH]; intros files Hle; cbn [passes].
  { destruct files; [|cbn in Hle; lia]. destruct (plan_perm config []) as [left Hp].
    symmetry in Hp. apply Permutation_nil in Hp. by apply app_eq_nil in Hp as [-> _]. }
  destruct (plan config files) as [|f fs] eqn:Ep; [done|]. apply IH.
  destruct (plan_perm config files) as [left Hp]. rewrite Ep in Hp.
  pose proof (next_files_perm (λ _, True) _ _ _ (merge (f :: fs)) Hp) as Hlen.
  pose proof (next_files_perm (λ f, is_foreign f = true) _ _ _ (merge (f :: fs)) Hp) as Hfor.
  rewrite !filter_true_id in Hlen. unfold foreign_count in *.
  pose proof (plan_progress config files Hmin Hmax ltac:(by rewrite Ep)) as Hpr. rewrite Ep in Hpr.
  unfold foreign_count in Hpr. rewrite (filter_cons _ (merge _)), decide_False, filter_nil in Hfor by by rewrite Hm.
  cbn [length] in Hlen, Hfor, Hpr. lia.
Qed.

End Planning.

(* ------------------------------------------------------------------ *)
(** ** Idempotency keys                                                *)
(* ------------------------------------------------------------------ *)

Section Keys.
Context `{JsonLaws}.

Lemma dedup_from_spec seen ids :
  NoDup (dedup_from seen ids) ∧ ∀ x, x ∈ dedup_from seen ids ↔ x ∈ ids ∧ x ∉ seen.
Proof.
  revert seen. induction ids as [|id ids IH]; intros seen; cbn [dedup_from].
  { split; [constructor|]. intros x. rewrite elem_of_nil. tauto. }
  case_decide as Hid.
  - destruct (IH seen) as [Hn Hx]. split; [done|]. intros x. rewrite Hx, elem_of_cons.
    split; [tauto|]. intros [[->|?] ?]; tauto.
  - destruct (IH ({[id]} ∪ seen)) as [Hn Hx]. split.
    + constructor; [|done]. rewrite Hx. set_solver.
    + intros x. rewrite elem_of_cons, Hx, elem_of_cons. destruct (decide (x = id)) as [->|]; set_solver.
Qed.

Lemma parse_printed_list ids : parse_string_list (json_to_string (JArr (JStr <$> ids))) = Some ids.
Proof.
  unfold parse_string_list. rewrite json_roundtrip; [by apply mapM_fmap_Some|].
  cbn. induction ids as [|id ids IH]; [done|exact IH].
Qed.

(** The keys of a merged file, decoded. *)
Lemma merged_batch_ids merged sources :
  df_batch_id merged = merge_batch_ids sources → batch_ids merged = dedup_from ∅ (sources ≫= batch_ids).
Proof.
  unfold batch_ids at 1. intros ->. unfold merge_batch_ids.
  destruct (dedup_from ∅ _) as [|id ids] eqn:E; [done|]. by rewrite parse_printed_list.
Qed.

Lemma already_written_spec fs id : already_written fs id = true ↔ id ∈ fs ≫= batch_ids.
Proof.
  unfold already_written. rewrite existsb_exists, list_elem_of_bind. split.
  - intros (f & Hf & (id' & Hid & ->%String.eqb_eq)%existsb_exists). exists f.
    split; by apply list_elem_of_In.
  - intros (f & Hid & Hf). exists f. split; [by apply list_elem_of_In|]. apply existsb_exists.
    exists id. split; [by apply list_elem_of_In|apply String.eqb_refl].
Qed.

(** Compaction keeps the idempotency keys.  Replacing some files of a table by one
    that carries their merged keys does not change which batches count as written, so a
    retried batch is still recognised. *)
Theorem merge_keeps_keys (files chosen left : list DataFileEntry) merged id :
  NoDup (df_path <$> files) → chosen ++ left ≡ₚ files → df_batch_id merged = merge_batch_ids chosen →
  already_written (next_files chosen merged files) id = already_written files id.
Proof.
  intros Hnd Hp Hm. apply eq_true_iff_eq. rewrite !already_written_spec. unfold next_files.
  rewrite (survivors_perm _ _ _ Hnd Hp), <- Hp, !bind_app, !elem_of_app. cbn [mbind list_bind].
  rewrite app_nil_r, (merged_batch_ids _ _ Hm). destruct (dedup_from_spec ∅ (chosen ≫= batch_ids)) as [_ Hx].
  rewrite Hx. set_solver.
Qed.

(** A key that is itself the text of a JSON list is read as that list: the batch
    written under it is not recognised when it is retried. *)
Lemma list_key_not_found f ids :
  df_batch_id f = Some (json_to_string (JArr (JStr <$> ids))) →
  json_to_string (JArr (JStr <$> ids)) ∉ ids →
  already_written [f] (json_to_string (JArr (JStr <$> ids))) = false.
Proof.
  intros Hf Hn. apply not_true_iff_false. rewrite already_written_spec. cbn [mbind list_bind].
  rewrite app_nil_r. unfold batch_ids. by rewrite Hf, parse_printed_list.
Qed.

End Keys.
