(* ===== verification/CompactionRows.v ===== *)
(** * The rows a merge writes

    The rows of a file are its named cells with their vectors; a deletion vector hides
    some.  What the Arrow and Parquet libraries promise of batches and written files,
    and, from it, that the two merges of the executor write at most their output, and
    there exactly the rows that the deletion vectors of their sources leave.  Equality
    deletes play no part here: [left_by_dv] and [rows_left_by_dvs] count a row deleted by
    value. *)

From S2P Require Import Prelude Core Footer FileFormat FileTheorems Store Effects Json Avro Manifest.
From S2P Require Import ManifestTheorems Puffin Catalog CatalogTheorems HadoopTheorems Arrow Deletes DeletesTheorems.
From S2P Require Import Floats Ranking Bm25 Search Compaction CompactionTheorems.

(* ------------------------------------------------------------------ *)
(** ** Rows                                                            *)
(* ------------------------------------------------------------------ *)

(** Named cells, and the vector. *)
Abbreviation Row := (list (string * option string) * list f32bits)%type (only parsing).

Section Rows.
Context {PL : ParquetLib} {AL : ArrowLib}.

Definition cell (b : RecordBatch) (row : Z) (i : nat) : option string :=
  if is_null b i row then None else Some (value_text b i row).
Definition named_row (b : RecordBatch) (row : Z) : list (string * option string) :=
  imap (λ i name, (name, cell b row i)) (field_names b).
Definition named_rows (b : RecordBatch) : list (list (string * option string)) :=
  named_row b <$> seqZ 0 (num_rows b).

Lemma named_rows_length b : 0 ≤ num_rows b → Zlen (named_rows b) = num_rows b.
Proof. intros Hn. unfold named_rows. rewrite length_fmap, length_seqZ. lia. Qed.

(** The rows at positions that are not hidden. *)
Definition keep_rows {A} (hides : Z → bool) (rows : list A) : list A :=
  (filter (λ ir : Z * A, hides ir.1 = false) (zip (seqZ 0 (Zlen rows)) rows)).*2.

Lemma keep_rows_none {A} (hides : Z → bool) (rows : list A) : (∀ i, hides i = false) → keep_rows hides rows = rows.
Proof.
  intros Hh. unfold keep_rows. rewrite filter_all by (intros; apply Hh).
  apply snd_zip. rewrite length_seqZ. lia.
Qed.

(** Selection by a mask, from position [i] on. *)
Lemma mask_rows {A} (hides : Z → bool) (xs : list A) i :
  (zip xs ((λ k, negb (hides k)) <$> seqZ i (Zlen xs)) ≫= λ '(v, k), if (k : bool) then [v] else []) =
  (filter (λ ir : Z * A, hides ir.1 = false) (zip (seqZ i (Zlen xs)) xs)).*2.
Proof.
  revert i. induction xs as [|x xs IH]; intros i; [done|].
  rewrite seqZ_cons by (cbn; lia). cbn [length]. rewrite fmap_cons. cbn [zip zip_with].
  replace (Z.pred (Z.of_nat (Datatypes.S (length xs)))) with (Zlen xs) by lia.
  rewrite filter_cons, bind_cons, IH. cbn [fst].
  destruct (hides i); cbn; [by rewrite decide_False|by rewrite decide_True].
Qed.

Lemma kept_rows_mask (hides : Z → bool) n i :
  kept_rows i ((λ k, negb (hides k)) <$> seqZ i (Z.of_nat n)) =
  filter (λ k, hides k = false) (seqZ i (Z.of_nat n)).
Proof.
  revert i. induction n as [|n IH]; intros i; [done|]. rewrite seqZ_cons by lia.
  replace (Z.pred (Z.of_nat (Datatypes.S n))) with (Z.of_nat n) by lia.
  cbn [fmap list_fmap kept_rows]. rewrite filter_cons.
  replace (Z.succ i) with (i + 1) by lia. rewrite IH. destruct (hides i); cbn; [by rewrite decide_False|by rewrite decide_True].
Qed.

Context `{!ArrowLaws}.

(** A filtered batch has the rows the mask keeps. *)
Lemma filtered_rows b (hides : Z → bool) b' :
  filter_record_batch b ((λ k, negb (hides k)) <$> seqZ 0 (num_rows b)) = Ok b' →
  named_rows b' = named_row b <$> filter (λ k, hides k = false) (seqZ 0 (num_rows b)).
Proof.
  intros Hf. pose proof (num_rows_nonneg b) as Hn.
  destruct (filter_law b ((λ k, negb (hides k)) <$> seqZ 0 (num_rows b))) as (b2 & E & Hnames & Hrows & Hcells).
  { rewrite length_fmap, length_seqZ. lia. }
  rewrite Hf in E. injection E as <-. set (n := Z.to_nat (num_rows b)).
  assert (En : num_rows b = Z.of_nat n) by lia. rewrite En in *. rewrite kept_rows_mask in *.
  unfold named_rows. rewrite Hrows. set (ks := filter _ _) in *. clearbody ks. clear -Hnames Hcells.
  apply list_eq. intros k. rewrite !list_lookup_fmap. destruct (ks !! k) as [row|] eqn:Ek.
  - rewrite lookup_seqZ_lt by (apply lookup_lt_Some in Ek; lia). cbn. f_equal.
    unfold named_row. rewrite Hnames. apply imap_ext. intros i name _. unfold cell.
    destruct (Hcells i k row Ek) as (_ & Hnull & Htext). rewrite Z.add_0_l. by rewrite Hnull, Htext.
  - rewrite lookup_seqZ_ge; [done|]. apply lookup_ge_None in Ek. lia.
Qed.

End Rows.

(** Indices and parallel values filtered together. *)
Lemma zip_filtered {A B} (f : Z → A) (hides : Z → bool) (l : list Z) (e : list B) :
  length l = length e →
  zip (f <$> filter (λ k, hides k = false) l) (filter (λ ir : Z * B, hides ir.1 = false) (zip l e)).*2 =
  (filter (λ ir : Z * (A * B), hides ir.1 = false) (zip l (zip (f <$> l) e))).*2 ∧
  length (filter (λ ir : Z * B, hides ir.1 = false) (zip l e)) = length (filter (λ k, hides k = false) l).
Proof.
  revert e. induction l as [|i l IH]; intros [|x e] Hl; try done. injection Hl as Hl.
  destruct (IH e Hl) as [E1 E2]. cbn [zip zip_with fmap list_fmap]. rewrite !filter_cons. cbn [fst].
  destruct (hides i); [by rewrite !decide_False|]. rewrite !decide_True by done.
  cbn [fmap list_fmap zip zip_with length fst snd]. split; [by f_equal|by f_equal].
Qed.

(* ------------------------------------------------------------------ *)
(** ** What the libraries promise                                      *)
(* ------------------------------------------------------------------ *)

Section Laws.
Context {PL : ParquetLib} {IL : IndexLib} {AL : ArrowLib} {QL : QueryLib} {CL : CompactLib}.

(** Filtering keeps the schema; batches of one schema are concatenated row by row. *)
Class CompactLaws : Type := {
  same_schema : RecordBatch → RecordBatch → Prop;
  filter_schema b mask b' : filter_record_batch b mask = Ok b' → same_schema b b';
  same_schema_refl b : same_schema b b;
  same_schema_sym b b' : same_schema b b' → same_schema b' b;
  same_schema_trans b1 b2 b3 : same_schema b1 b2 → same_schema b2 b3 → same_schema b1 b3;
  same_schema_names b b' : same_schema b b' → field_names b' = field_names b;
  concat_rows first bs b : Forall (same_schema first) bs → concat_batches first bs = Ret (Ok b) →
    same_schema first b ∧ named_rows b = mjoin (named_rows <$> bs);
}.

(** A file written with its raw vectors is read back, the vectors as their precision
    stores them; what is spliced between row groups and footer does not matter. *)
Class ReadBackLaws {LW : ParquetLaws PL} : Type := {
  stored_vector : VectorStoragePolicy → vec32 → vec32;
  read_written p b e extra body f dim :
    arrow_write p b e (base_kv p (num_rows b) ++ extra) = Ok f →
    keep_raw_for_reranking p = true → policy_precision p ≠ I8 → column_name p ∉ field_names b →
    Zlen e = num_rows b → 0 < num_rows b →
    ∃ b', read_parquet (mk_reader (row_groups p b e ++ body ++
              parquet_tail p b e (base_kv p (num_rows b) ++ extra)) (column_name p)) dim =
            Ok (b', stored_vector p <$> e) ∧
      named_rows b' = named_rows b ∧ num_rows b' = num_rows b;
}.

End Laws.

(* ------------------------------------------------------------------ *)
(** ** The rows of a table                                             *)
(* ------------------------------------------------------------------ *)

Section Contents.
Context {PL : ParquetLib} {IL : IndexLib} {AL : ArrowLib} {QL : QueryLib} `{RoaringLib}.
Implicit Types m : gmap string bytes.

(** The rows of a data file; none when the file has no vector for every row. *)
Definition raw_rows (p : VectorStoragePolicy) (d : bytes) : option (list Row) :=
  match read_parquet (mk_reader d (column_name p)) (policy_dim p) with
  | Ok (b, e) => if decide (Zlen e = num_rows b) then Some (zip (named_rows b) e) else None
  | Err _ => None
  end.

(** The rows of a listed file that its deletion vector does not hide, whatever the
    equality deletes of the table say. *)
Definition left_by_dv m (p : VectorStoragePolicy) (k : string * option DeletionVector) : option (list Row) :=
  d ← m !! k.1; rows ← raw_rows p d;
  match k.2 with
  | None => Some rows
  | Some dv => bm ← vector_in m dv; Some (keep_rows (dv_hides (Some bm)) rows)
  end.

(** Those of a listing. *)
Definition rows_left_by_dvs m (p : VectorStoragePolicy) (fs : list DataFileEntry) : option (list Row) :=
  mjoin <$> mapM (λ f, left_by_dv m p (file_key f)) fs.

Lemma contents_cons m p f fs rows :
  rows_left_by_dvs m p (f :: fs) = Some rows ↔
  ∃ r rs, left_by_dv m p (file_key f) = Some r ∧ rows_left_by_dvs m p fs = Some rs ∧ rows = r ++ rs.
Proof.
  unfold rows_left_by_dvs. cbn [mapM].
  destruct (left_by_dv m p (file_key f)) as [r|], (mapM (λ f, left_by_dv m p (file_key f)) fs) as [rs|]; cbn;
    (split; [intros [= <-]; eauto|intros (r' & rs' & [= <-] & [= <-] & ->); done]).
Qed.

Lemma contents_app m p fs gs rows1 rows2 :
  rows_left_by_dvs m p fs = Some rows1 → rows_left_by_dvs m p gs = Some rows2 →
  rows_left_by_dvs m p (fs ++ gs) = Some (rows1 ++ rows2).
Proof.
  intros Hf Hg. revert rows1 Hf. induction fs as [|f fs IH]; intros rows1 Hf; [by injection Hf as <-|].
  apply contents_cons in Hf as (r & rs & Hr & Hrs & ->). cbn [app]. apply contents_cons.
  exists r, (rs ++ rows2). by rewrite (IH rs Hrs), app_assoc.
Qed.

(** A listing in another order has the same rows in another order. *)
Lemma contents_perm m p fs gs rows :
  fs ≡ₚ gs → rows_left_by_dvs m p fs = Some rows → ∃ rows', rows_left_by_dvs m p gs = Some rows' ∧ rows' ≡ₚ rows.
Proof.
  intros Hp. revert rows. induction Hp as [|f fs gs _ IH|f g fs|fs gs hs _ IH1 _ IH2]; intros rows Hr.
  - eauto.
  - apply contents_cons in Hr as (r & rs & Hf & Hfs & ->). destruct (IH rs Hfs) as (rs' & Hgs & Hp).
    exists (r ++ rs'). split; [apply contents_cons; eauto|by rewrite Hp].
  - apply contents_cons in Hr as (r1 & rs & H1 & Hr & ->). apply contents_cons in Hr as (r2 & rs' & H2 & Hr & ->).
    exists (r2 ++ r1 ++ rs'). split; [apply contents_cons; eexists r2, _; rewrite contents_cons; eauto 10|].
    by rewrite !app_assoc, (Permutation_app_comm r2 r1).
  - destruct (IH1 rows Hr) as (rows1 & Hr1 & P1). destruct (IH2 rows1 Hr1) as (rows2 & Hr2 & P2).
    exists rows2. split; [done|by rewrite P2].
Qed.

(** Only paths and deletion vectors matter. *)
Lemma contents_keys m p fs gs : file_key <$> fs = file_key <$> gs → rows_left_by_dvs m p fs = rows_left_by_dvs m p gs.
Proof.
  intros E. unfold rows_left_by_dvs. f_equal. revert gs E.
  induction fs as [|f fs IH]; intros [|g gs] E; try done. rewrite !fmap_cons in E.
  assert (E1 : file_key f = file_key g) by congruence. assert (E2 : file_key <$> fs = file_key <$> gs) by congruence.
  cbn [mapM]. by rewrite E1, (IH gs E2).
Qed.

(** And only the objects they name. *)
Definition key_agrees m m' (f : DataFileEntry) : Prop :=
  m' !! df_path f = m !! df_path f ∧
  ∀ dv, df_deletion_vector f = Some dv → m' !! dv_path dv = m !! dv_path dv.

Lemma contents_agree m m' p fs : Forall (key_agrees m m') fs → rows_left_by_dvs m' p fs = rows_left_by_dvs m p fs.
Proof.
  intros Hall. unfold rows_left_by_dvs. f_equal. induction Hall as [|f fs [Hp Hdv] _ IH]; [done|].
  cbn [mapM]. rewrite IH. unfold left_by_dv, file_key. cbn [fst snd]. rewrite Hp.
  destruct (df_deletion_vector f) as [dv|]; [|done]. unfold vector_in. by rewrite (Hdv dv).
Qed.

End Contents.

(* ------------------------------------------------------------------ *)
(** ** Written files                                                   *)
(* ------------------------------------------------------------------ *)

Section Written.
Context {PL : ParquetLib} {IL : IndexLib} {AL : ArrowLib} {QL : QueryLib} {LW : ParquetLaws PL}.

(** A Parquet file of [b] and [e] with something spliced in front of its footer. *)
Definition spliced (p : VectorStoragePolicy) (b : RecordBatch) (e : list vec32) (f : bytes) : Prop :=
  Zlen e = num_rows b ∧ ∃ extra body f0, arrow_write p b e (base_kv p (num_rows b) ++ extra) = Ok f0 ∧
    f = row_groups p b e ++ body ++ parquet_tail p b e (base_kv p (num_rows b) ++ extra).

Lemma write_batch_arrow p b e kv f n :
  write_batch_with_kv p b e kv = Ok (f, n) →
  arrow_write p b e (base_kv p (num_rows b) ++ kv) = Ok f ∧ Zlen e = num_rows b.
Proof.
  unfold write_batch_with_kv. destruct (Zlen e =? num_rows b) eqn:E; [|done]. cbn [negb].
  rewrite bind_Ok. intros (buf & Hbuf & [= <- _]). split; [done|]. by apply Z.eqb_eq.
Qed.

(** Row groups of the first pass and footer of the second. *)
Lemma two_passes p b e kv f1 n1 f2 n2 s1 s2 body :
  write_batch p b e = Ok (f1, n1) → write_batch_with_kv p b e kv = Ok (f2, n2) →
  parquet_footer_start f1 = Ok s1 → parquet_footer_start f2 = Ok s2 →
  spliced p b e (take (Z.to_nat s1) f1 ++ body ++ drop (Z.to_nat s2) f2).
Proof.
  intros H1 H2 Hs1 Hs2. destruct (write_batch_arrow _ _ _ _ _ _ H2) as [Ha Hl].
  apply write_batch_layout in H1 as (_ & -> & Hf1). apply write_batch_layout in H2 as (_ & E2 & Hf2).
  rewrite footer_start_of_tail in Hs1 by done. injection Hs1 as <-. rewrite E2 in Hs2 |- *.
  rewrite footer_start_of_tail in Hs2 by done. injection Hs2 as <-.
  rewrite !Nat2Z.id, take_app_length, drop_app_length. split; [done|]. eauto.
Qed.

Lemma write_spliced w b e f : write w b e = Ok f → spliced (w_policy w) b e f.
Proof.
  unfold write, write_multi. cbn [col_policy col_embeddings].
  rewrite bind_Ok. intros ([f1 n1] & H1 & Hf). apply bind_Ok in Hf as (s1 & Hs1 & Hf).
  apply bind_Ok in Hf as ([[ss kvs] off] & _ & Hf). apply bind_Ok in Hf as ([f2 n2] & H2 & Hf).
  apply bind_Ok in Hf as (s2 & Hs2 & Hf). injection Hf as <-. rewrite app_assoc with (l := mjoin _).
  by eapply two_passes.
Qed.

Lemma prebuilt_spliced w b e hnsw f : write_with_prebuilt_hnsw w b e hnsw = Ok f → spliced (w_policy w) b e f.
Proof.
  unfold write_with_prebuilt_hnsw. rewrite bind_Ok. intros ([f1 n1] & H1 & Hf).
  apply bind_Ok in Hf as (s1 & Hs1 & Hf). apply bind_Ok in Hf as (idx & _ & Hf).
  apply bind_Ok in Hf as (sec & _ & Hf). apply bind_Ok in Hf as ([f2 n2] & H2 & Hf).
  apply bind_Ok in Hf as (s2 & Hs2 & Hf). injection Hf as <-. rewrite app_assoc with (l := sec).
  by eapply two_passes.
Qed.

(** Its rows, read back: the vectors as their precision stores them. *)
Lemma spliced_stored_rows `{!ArrowLaws} `{!ReadBackLaws} p b e f :
  spliced p b e f → keep_raw_for_reranking p = true → policy_precision p ≠ I8 →
  column_name p ∉ field_names b → 0 < num_rows b →
  raw_rows p f = Some (zip (named_rows b) (stored_vector p <$> e)).
Proof.
  intros (Hl & extra & body & f0 & Ha & ->) Hraw Hprec Hcol Hn.
  destruct (read_written p b e extra body f0 (policy_dim p) Ha Hraw Hprec Hcol Hl Hn) as (b' & Hr & Hrows & Hnum).
  unfold raw_rows. rewrite Hr, decide_True by (rewrite length_fmap; lia). by rewrite Hrows.
Qed.

Lemma spliced_rows `{!ArrowLaws} `{!ReadBackLaws} p b e f :
  spliced p b e f → keep_raw_for_reranking p = true → policy_precision p ≠ I8 →
  column_name p ∉ field_names b → 0 < num_rows b → Forall (λ v, stored_vector p v = v) e →
  raw_rows p f = Some (zip (named_rows b) e).
Proof.
  intros Hs Hraw Hprec Hcol Hn Hst. rewrite (spliced_stored_rows p b e f) by done. do 2 f_equal.
  clear -Hst. induction Hst as [|v e Hv _ IH]; [done|]. rewrite fmap_cons. by rewrite Hv, IH.
Qed.

End Written.

(* ------------------------------------------------------------------ *)
(** ** Concatenation                                                   *)
(* ------------------------------------------------------------------ *)

Lemma zip_mjoin {A B} (ps : list (list A * list B)) :
  Forall (λ p, length p.1 = length p.2) ps →
  zip (mjoin ps.*1) (mjoin ps.*2) = mjoin ((λ p, zip p.1 p.2) <$> ps).
Proof.
  induction 1 as [|[a b] ps Hl _ IH]; [done|]. rewrite !fmap_cons, !mjoin_cons.
  cbn [fst snd] in *. by rewrite zip_with_app, <- IH.
Qed.

Section Concat.
Context {PL : ParquetLib} {IL : IndexLib} {AL : ArrowLib} {QL : QueryLib} {CL : CompactLib} `{!ArrowLaws} `{!CompactLaws}.

(** The rows of several batches with their vectors. *)
Definition pair_rows (pair : RecordBatch * list vec32) : list Row := zip (named_rows pair.1) pair.2.

Lemma merged_rows first (pairs : list (RecordBatch * list vec32)) merged :
  Forall (same_schema first) pairs.*1 → Forall (λ pr, Zlen pr.2 = num_rows pr.1) pairs →
  concat_batches first pairs.*1 = Ret (Ok merged) →
  field_names merged = field_names first ∧ Zlen (mjoin pairs.*2) = num_rows merged ∧
  zip (named_rows merged) (mjoin pairs.*2) = mjoin (pair_rows <$> pairs).
Proof.
  intros Hs Hl Hc. destruct (concat_rows _ _ _ Hs Hc) as [Hm Hrows]. split; [by apply same_schema_names|].
  set (ps := (λ pr : RecordBatch * list vec32, (named_rows pr.1, pr.2)) <$> pairs).
  assert (E1 : named_rows <$> pairs.*1 = ps.*1) by by unfold ps; rewrite <- !list_fmap_compose.
  assert (E2 : pairs.*2 = ps.*2) by by unfold ps; rewrite <- list_fmap_compose.
  assert (Hps : Forall (λ p, length p.1 = length p.2) ps).
  { apply Forall_fmap. eapply Forall_impl; [exact Hl|]. intros [b e] Hbe. cbn in *.
    pose proof (named_rows_length b (num_rows_nonneg b)). lia. }
  assert (Hz : zip (named_rows merged) (mjoin pairs.*2) = mjoin (pair_rows <$> pairs)).
  { rewrite Hrows, E1, E2, zip_mjoin by done. unfold ps. by rewrite <- list_fmap_compose. }
  split; [|done]. rewrite <- (named_rows_length merged) by apply num_rows_nonneg. f_equal.
  rewrite Hrows, E1, E2. clear -Hps. induction Hps as [|[a b] ps Hab _ IH]; [done|].
  rewrite !fmap_cons, !mjoin_cons, !length_app. cbn [fst snd] in *. lia.
Qed.

End Concat.

(* ------------------------------------------------------------------ *)
(** ** The two merges                                                  *)
(* ------------------------------------------------------------------ *)

Section Merges.
Context {S : Type} `{ReliableReads S} `{!ReliableRanges S} `{RoaringLaws} `{SerdeLib} `{JsonLib}.
Context {PL : ParquetLib} {IL : IndexLib} {AL : ArrowLib} {QL : QueryLib} {CL : CompactLib}.
Context {LW : ParquetLaws PL} `{!ArrowLaws} `{!CompactLaws} `{!ReadBackLaws}.
Implicit Types m : gmap string bytes.
Implicit Types p : VectorStoragePolicy.

(** Dropping masked rows from a batch and values that go with its rows. *)
Lemma filter_deleted_pairs {T} (b0 : RecordBatch) (e0 : list T) bm b e :
  filter_deleted_rows b0 e0 bm = Ok (b, e) → Zlen e0 = num_rows b0 →
  Zlen e = num_rows b ∧ zip (named_rows b) e = keep_rows (dv_hides (Some bm)) (zip (named_rows b0) e0) ∧
  field_names b = field_names b0.
Proof.
  unfold filter_deleted_rows. intros Hf Hl. destruct (rb_is_empty bm) eqn:Ee.
  { injection Hf as <- <-. split_and!; [done| |done].
    rewrite keep_rows_none; [done|]. intros i. by apply rb_is_empty_spec. }
  revert Hf. set (hides := dv_hides (Some bm)). change (λ i, negb (rb_contains bm (wrap 32 i))) with (λ i, negb (hides i)).
  destruct (filter_record_batch _ _) as [b'|] eqn:Ef; [|done]. intros [= <- <-].
  pose proof (num_rows_nonneg b0) as Hn. pose proof (filtered_rows _ _ _ Ef) as Hrows.
  pose proof (named_rows_length b' (num_rows_nonneg b')) as Hlen. split_and!.
  - rewrite <- Hl in Hrows |- *. rewrite mask_rows.
    destruct (zip_filtered (named_row b0) hides (seqZ 0 (Zlen e0)) e0) as [_ E2]; [rewrite length_seqZ; lia|].
    rewrite <- Hlen, Hrows, !length_fmap. by rewrite E2.
  - rewrite <- Hl in Hrows |- *. rewrite mask_rows.
    destruct (zip_filtered (named_row b0) hides (seqZ 0 (Zlen e0)) e0) as [E1 _]; [rewrite length_seqZ; lia|].
    rewrite Hrows, E1. unfold keep_rows, named_rows. rewrite length_zip, length_fmap, length_seqZ, <- Hl.
    by replace (Z.of_nat (Z.to_nat (Zlen e0) `min` length e0)) with (Zlen e0) by lia.
  - destruct (filter_law b0 ((λ k, negb (hides k)) <$> seqZ 0 (num_rows b0))) as (b2 & E & Hnames & _).
    { rewrite length_fmap, length_seqZ. lia. }
    rewrite Ef in E. by injection E as <-.
Qed.

Lemma filter_deleted_spec (b0 : RecordBatch) (e0 : list vec32) bm b e :
  filter_deleted_rows b0 e0 bm = Ok (b, e) →
  same_schema b0 b ∧ (Zlen e0 = num_rows b0 →
    Zlen e = num_rows b ∧ pair_rows (b, e) = keep_rows (dv_hides (Some bm)) (pair_rows (b0, e0))).
Proof.
  intros Hf. split.
  - revert Hf. unfold filter_deleted_rows. destruct (rb_is_empty bm); [intros [= <- <-]; apply same_schema_refl|].
    destruct (filter_record_batch _ _) as [b'|] eqn:Ef; [|done]. intros [= <- _]. by eapply filter_schema.
  - intros Hl. by destruct (filter_deleted_pairs _ _ _ _ _ Hf Hl) as (? & ? & _).
Qed.

(** Every readable file has columns of one schema, the vector column apart. *)
Definition one_schema m p (files : list DataFileEntry) : Prop :=
  ∃ b0, column_name p ∉ field_names b0 ∧
    Forall (λ f, ∀ d b e, m !! df_path f = Some d →
      read_parquet (mk_reader d (column_name p)) (policy_dim p) = Ok (b, e) → same_schema b0 b) files.

(** What reading a source file yields. *)
Definition source_read m p b0 (f : DataFileEntry) (pr : RecordBatch * list vec32) : Prop :=
  same_schema b0 pr.1 ∧ ∀ rows, left_by_dv m p (file_key f) = Some rows →
    Zlen pr.2 = num_rows pr.1 ∧ pair_rows pr = rows.

Lemma wp_drop_deleted m (f : DataFileEntry) p b0 d braw eraw Q :
  same_schema b0 braw → m !! df_path f = Some d →
  read_parquet (mk_reader d (column_name p)) (policy_dim p) = Ok (braw, eraw) →
  (∀ r, (∀ pr, r = Ok pr → source_read m p b0 f pr) → Q (Ret r) m) →
  wp m (drop_deleted (df_deletion_vector f) (braw, eraw)) Q.
Proof.
  intros Hs Hd Hr HQ.
  assert (Hvis : ∀ rows, left_by_dv m p (file_key f) = Some rows → Zlen eraw = num_rows braw ∧
    match df_deletion_vector f with
    | None => rows = pair_rows (braw, eraw)
    | Some dv => ∃ bm, vector_in m dv = Some bm ∧ rows = keep_rows (dv_hides (Some bm)) (pair_rows (braw, eraw))
    end).
  { intros rows. unfold left_by_dv, file_key, raw_rows. cbn [fst snd]. rewrite Hd. cbn [mbind option_bind]. rewrite Hr.
    case_decide; [|done]. cbn [mbind option_bind]. destruct (df_deletion_vector f) as [dv|]; [|by intros [= <-]].
    destruct (vector_in m dv) as [bm|]; [|done]. cbn. intros [= <-]. eauto. }
  unfold drop_deleted. destruct (df_deletion_vector f) as [dv|].
  - apply wp_bind, wp_load_deletion_vector. intros r Hbm.
    destruct (vector_in m dv) as [bm|]; [subst r|by destruct Hbm as [e ->]; apply HQ].
    apply wp_result, HQ. intros [b e] He. cbn [fst snd] in He.
    destruct (filter_deleted_spec _ _ _ _ _ He) as [Hs' Hrows].
    split; [cbn; by eapply same_schema_trans|]. intros rows Hv. destruct (Hvis rows Hv) as (Hl & bm' & [= <-] & ->).
    by apply Hrows.
  - apply wp_ret, HQ. intros pr [= <-]. split; [done|]. intros rows Hv. by destruct (Hvis rows Hv) as [? ->].
Qed.

Lemma wp_read_file m ex f b0 Q :
  (∀ d b e, m !! df_path f = Some d →
    read_parquet (mk_reader d (column_name (ex_policy ex))) (policy_dim (ex_policy ex)) = Ok (b, e) → same_schema b0 b) →
  (∀ r, (∀ pr, r = Ok pr → source_read m (ex_policy ex) b0 f pr) → Q (Ret r) m) →
  wp m (read_file ex f) Q.
Proof.
  intros Hs HQ. apply wp_bind, wp_get_. destruct (m !! df_path f) as [d|] eqn:Ed; [|by apply HQ]. cbn [ok_or].
  apply wp_bind, wp_result. destruct (read_parquet _ _) as [[b e]|err] eqn:Er; [|by apply HQ].
  by eapply wp_drop_deleted; [eapply Hs| | |].
Qed.

(** The entry of a merged file. *)
Record merged_entry (files : list DataFileEntry) (out : string) (entry : DataFileEntry) : Prop := {
  me_key : file_key entry = (out, None);
  me_native : is_foreign entry = false;
  me_keys : df_batch_id entry = merge_batch_ids files;
  me_partition : df_partition_value entry = None;
}.

(** The merge writes at most the output; when it succeeds, the output has the rows. *)
Definition merge_post m p (files : list DataFileEntry) (out : string)
    (o : outcome AilakeError DataFileEntry) m' : Prop :=
  agree_except (λ q, q = out) m m' ∧
  ∀ entry, o = Ret (Ok entry) → merged_entry files out entry ∧
    ∀ rows, rows_left_by_dvs m p files = Some rows → rows ≠ [] → Forall (λ r : Row, stored_vector p r.2 = r.2) rows →
      ∃ rows', left_by_dv m' p (out, None) = Some rows' ∧ rows' ≡ₚ rows.

Lemma merge_failed m p files out (o : outcome AilakeError DataFileEntry) :
  (∀ entry, o ≠ Ret (Ok entry)) → merge_post m p files out o m.
Proof. intros Ho. split; [apply agree_refl|]. intros entry E. by apply Ho in E. Qed.

Lemma wp_store_merged m ex files out n e file first_row Q :
  (∀ o m', (m' = m ∨ m' = <[out := file]> m) →
    (∀ entry, o = Ret (Ok entry) → m' = <[out := file]> m ∧ merged_entry files out entry) → Q o m') →
  wp m (store_merged ex files out n e file first_row) Q.
Proof.
  intros HQ. apply wp_bind, wp_put_; [|intros err _; apply HQ; [by left|done]].
  assert (HE : ∀ err, Q (Ret (Err err)) (<[out := file]> m)) by (intros err; apply HQ; [by right|done]).
  assert (HP : Q Panic (<[out := file]> m)) by (apply HQ; [by right|done]).
  apply wp_bind, wp_outcome. destruct (read_header _) as [[header|]|]; [|done..].
  apply wp_bind, wp_outcome. destruct (ailk_offset _) as [[start|]|]; [|done..].
  apply wp_bind, wp_outcome. destruct (verify_integrity _) as [[[]|]|]; [|done..].
  apply wp_ret, HQ; [by right|]. intros entry [= <-]. split; [done|]. by split.
Qed.

(** From what was read to what the output holds. *)
Lemma stored_rows m p out merged e file rows b0 :
  keep_raw_for_reranking p = true → policy_precision p ≠ I8 → column_name p ∉ field_names b0 →
  field_names merged = field_names b0 → spliced p merged e file →
  zip (named_rows merged) e ≡ₚ rows → Zlen e = num_rows merged → rows ≠ [] →
  Forall (λ r : Row, stored_vector p r.2 = r.2) rows →
  ∃ rows', left_by_dv (<[out := file]> m) p (out, None) = Some rows' ∧ rows' ≡ₚ rows.
Proof.
  intros Hraw Hprec Hcol Hnames Hsp Hz Hl Hne Hst. exists (zip (named_rows merged) e). split; [|done].
  assert (Hzl : length (zip (named_rows merged) e) = length e).
  { pose proof (named_rows_length merged (num_rows_nonneg merged)). rewrite length_zip. lia. }
  unfold left_by_dv. cbn [fst snd]. rewrite lookup_insert_eq. cbn [mbind option_bind].
  rewrite (spliced_rows p merged e file); try done; [by rewrite Hnames| |].
  - assert (Hr : length rows ≠ 0%nat) by by destruct rows. rewrite <- Hz, Hzl in Hr. lia.
  - rewrite <- Hz in Hst. assert (E : (zip (named_rows merged) e).*2 = e).
    { apply snd_zip. pose proof (named_rows_length merged (num_rows_nonneg merged)). lia. }
    rewrite <- E. by apply Forall_fmap.
Qed.

(** The rows read from the sources, in order. *)
Lemma sources_rows m p b0 files pairs rows :
  Forall2 (source_read m p b0) files pairs → rows_left_by_dvs m p files = Some rows →
  Forall (same_schema b0) pairs.*1 ∧ Forall (λ pr, Zlen pr.2 = num_rows pr.1) pairs ∧
  mjoin (pair_rows <$> pairs) = rows.
Proof.
  intros Hf. revert rows. induction Hf as [|f pr files pairs [Hs Hv] _ IH]; intros rows Hr.
  { injection Hr as <-. by repeat split. }
  apply contents_cons in Hr as (r & rs & Hr & Hrs & ->). destruct (IH rs Hrs) as (IH1 & IH2 & IH3).
  destruct (Hv r Hr) as [Hl <-]. rewrite !fmap_cons, mjoin_cons, IH3. split; [by constructor|]. split; [by constructor|done].
Qed.

Lemma sources_schema m p b0 files pairs :
  Forall2 (source_read m p b0) files pairs → Forall (same_schema b0) pairs.*1.
Proof. induction 1 as [|f pr files pairs [Hs _] _ IH]; constructor; done. Qed.

Lemma compact_writer_policy ex n b : w_policy (compact_writer ex n b) = ex_policy ex.
Proof.
  unfold compact_writer, attach_fts. destruct (ex_fts_config ex) as [cfg|]; [destruct (merge_fts_blobs cfg b)|];
    by destruct (ex_index_strategy ex).
Qed.

Lemma attach_fts_policy ex w b : w_policy (attach_fts ex w b) = w_policy w.
Proof. unfold attach_fts. destruct (ex_fts_config ex) as [cfg|]; [by destruct (merge_fts_blobs cfg b)|done]. Qed.

(** A policy whose files can be read back. *)
Definition raw_policy p : Prop := keep_raw_for_reranking p = true ∧ policy_precision p ≠ I8.

(** Concatenating, writing and storing rows that were read in the order [pairs]. *)
Lemma wp_write_merged m ex files out first (pairs : list (RecordBatch * list vec32)) bs es b0
    (wr : RecordBatch → AilakeResult bytes) first_row Q :
  bs = pairs.*1 → es = mjoin pairs.*2 → raw_policy (ex_policy ex) → column_name (ex_policy ex) ∉ field_names b0 →
  Forall (same_schema b0) pairs.*1 → same_schema b0 first →
  (∀ merged file, wr merged = Ok file → spliced (ex_policy ex) merged (mjoin pairs.*2) file) →
  (∀ rows, rows_left_by_dvs m (ex_policy ex) files = Some rows →
    Forall (λ pr, Zlen pr.2 = num_rows pr.1) pairs ∧ mjoin (pair_rows <$> pairs) ≡ₚ rows) →
  (∀ o m', merge_post m (ex_policy ex) files out o m' → Q o m') →
  wp m (merged_batch ← io_outcome (concat_batches first bs);
        file_bytes ← io_result (wr merged_batch);
        store_merged ex files out (num_rows merged_batch) es file_bytes first_row) Q.
Proof.
  intros -> -> [Hraw Hprec] Hcol Hs Hfirst Hwr Hrows HQ.
  assert (Hf : Forall (same_schema first) pairs.*1).
  { eapply Forall_impl; [exact Hs|]. intros b Hb. eapply same_schema_trans; [|exact Hb]. by apply same_schema_sym. }
  apply wp_bind, wp_outcome. destruct (concat_batches first pairs.*1) as [[merged|err]|] eqn:Ec;
    [|by apply HQ, merge_failed..].
  apply wp_bind, wp_result. destruct (wr merged) as [file|err] eqn:Ew; [|by apply HQ, merge_failed].
  apply wp_store_merged. intros o m' Hm' Ho. apply HQ. split.
  { destruct Hm' as [->| ->]; [apply agree_refl|]. by apply agree_insert; [|apply agree_refl]. }
  intros entry He. destruct (Ho entry He) as [-> Hent]. split; [done|]. intros rows Hc Hne Hst.
  destruct (Hrows rows Hc) as [Hl Hp]. destruct (merged_rows _ _ _ Hf Hl Ec) as (Hn & Hlen & Hz).
  eapply (stored_rows m (ex_policy ex) out merged (mjoin pairs.*2)); try done; [|by apply Hwr|by rewrite Hz].
  rewrite Hn. by apply same_schema_names.
Qed.

Lemma wp_compact m ex files out Q :
  raw_policy (ex_policy ex) → one_schema m (ex_policy ex) files →
  (∀ o m', merge_post m (ex_policy ex) files out o m' → Q o m') →
  wp m (compact ex files out) Q.
Proof.
  intros Hraw (b0 & Hcol & Hsch) HQ. unfold compact. destruct files as [|f0 files]; [by apply wp_err, HQ, merge_failed|].
  set (fs := f0 :: files) in *. apply wp_bind.
  eapply (wp_map_rel m (read_file ex) (source_read m (ex_policy ex) b0)).
  - intros f R Hin HR. apply (wp_read_file m ex f b0); [|done]. rewrite Forall_forall in Hsch. by apply Hsch.
  - intros pairs Hp. destruct pairs as [|[first e] pairs]; [by inversion Hp|].
    pose proof (sources_schema _ _ _ _ _ Hp) as Hs. set (prs := (first, e) :: pairs) in *.
    eapply (wp_write_merged m ex fs out first prs _ _ b0
      (λ merged, write (compact_writer ex (Zlen (mjoin prs.*2)) merged) merged (mjoin prs.*2))); try done.
    + by inversion Hs.
    + intros merged file Hw%write_spliced. by rewrite compact_writer_policy in Hw.
    + intros rows Hrows. destruct (sources_rows _ _ _ _ _ _ Hp Hrows) as (_ & Hl & ->). done.
  - intros err. by apply HQ, merge_failed.
Qed.

(** ** The incremental merge *)

Definition read_pair (r : ReadFile) : RecordBatch * list vec32 := (rf_batch r, rf_vecs r).

Lemma separate_others acc l :
  Forall (λ r, rf_is_dom r = false) l →
  let '(db, dv, dby, ob, ov) := acc in
  foldl separate_step acc l = (db, dv, dby, ob ++ (read_pair <$> l).*1, ov ++ mjoin (read_pair <$> l).*2).
Proof.
  intros Hl. revert acc. induction Hl as [|r l Hr _ IH]; intros [[[[db dv] dby] ob] ov]; cbn [foldl].
  { by rewrite !app_nil_r. }
  unfold separate_step at 2. rewrite Hr. rewrite (IH (db, dv, dby, _, _)).
  rewrite !fmap_cons, mjoin_cons. cbn [read_pair fst snd]. by rewrite <- !app_assoc.
Qed.

Lemma separate_split l1 r l2 :
  Forall (λ r, rf_is_dom r = false) l1 → rf_is_dom r = true → Forall (λ r, rf_is_dom r = false) l2 →
  separate (l1 ++ r :: l2) = (Some (rf_batch r), rf_vecs r, rf_retained r,
    (read_pair <$> l1 ++ l2).*1, mjoin (read_pair <$> l1 ++ l2).*2).
Proof.
  intros Hl1 Hr Hl2. unfold separate. rewrite foldl_app, (separate_others (None, [], None, [], []) l1 Hl1).
  cbn [foldl]. unfold separate_step at 2. rewrite Hr.
  rewrite (separate_others (_, _, _, _, _) l2 Hl2). rewrite !fmap_app, join_app. done.
Qed.

Lemma wp_read_for_incremental m ex dom_path f b0 Q :
  (∀ d b e, m !! df_path f = Some d →
    read_parquet (mk_reader d (column_name (ex_policy ex))) (policy_dim (ex_policy ex)) = Ok (b, e) → same_schema b0 b) →
  (∀ r, (∀ rf, r = Ok rf → rf_is_dom rf = String.eqb (df_path f) dom_path ∧
      source_read m (ex_policy ex) b0 f (read_pair rf)) → Q (Ret r) m) →
  wp m (read_for_incremental ex dom_path f) Q.
Proof.
  intros Hs HQ. apply wp_bind, wp_get_. destruct (m !! df_path f) as [d|] eqn:Ed; [|by apply HQ]. cbn [ok_or].
  apply wp_bind, wp_result. destruct (read_parquet _ _) as [[b e]|err] eqn:Er; [|by apply HQ].
  apply wp_bind. eapply wp_drop_deleted; [by eapply Hs|done|done|].
  intros [[b' e']|err] Hr; [|by apply HQ]. apply wp_ret, HQ. intros rf [= <-]. split; [done|]. by apply Hr.
Qed.

(** With the dominant file first, the sources are a permutation of the files. *)
Lemma dominant_first m p b0 files i dom raw dom_path :
  files !! i = Some dom → NoDup (df_path <$> files) → dom_path = df_path dom →
  Forall2 (λ f rf, rf_is_dom rf = String.eqb (df_path f) dom_path ∧ source_read m p b0 f (read_pair rf)) files raw →
  ∃ r others, separate raw = (Some (rf_batch r), rf_vecs r, rf_retained r,
      (read_pair <$> others).*1, mjoin (read_pair <$> others).*2) ∧
    ∃ fs, dom :: fs ≡ₚ files ∧ Forall2 (source_read m p b0) (dom :: fs) (read_pair <$> r :: others).
Proof.
  intros Hi Hnd -> Hf. apply list_elem_of_split_length in Hi as (l1 & l2 & -> & _).
  apply Forall2_app_inv_l in Hf as (r1 & r2 & F1 & F2 & ->). inversion F2 as [|? r ? r3 [Hr Hs] F3]; subst.
  rewrite fmap_app, fmap_cons in Hnd. apply NoDup_app in Hnd as (_ & Hd1 & Hd2).
  apply NoDup_cons in Hd2 as [Hd2 _].
  assert (Hne : ∀ l rs, df_path dom ∉ df_path <$> l →
    Forall2 (λ f rf, rf_is_dom rf = String.eqb (df_path f) (df_path dom) ∧ source_read m p b0 f (read_pair rf)) l rs →
    Forall (λ r, rf_is_dom r = false) rs ∧ Forall2 (source_read m p b0) l (read_pair <$> rs)).
  { intros l rs Hn Hl. induction Hl as [|f rf l rs [Hdom Hsr] _ IH]; [done|].
    rewrite fmap_cons, elem_of_cons in Hn. destruct IH as [IH1 IH2]; [tauto|]. split; constructor; try done.
    rewrite Hdom. apply String.eqb_neq. intros E. apply Hn. by left. }
  destruct (Hne l1 r1) as [N1 S1]; [intros Hin; by apply (Hd1 _ Hin); left|done|].
  destruct (Hne l2 r3) as [N3 S3]; [done|done|].
  exists r, (r1 ++ r3). split; [apply separate_split; [done|by rewrite Hr, String.eqb_refl|done]|].
  exists (l1 ++ l2). split; [by rewrite Permutation_middle|]. rewrite fmap_cons, fmap_app. constructor; [done|].
  by apply Forall2_app.
Qed.

Lemma wp_merge_incremental m ex files out r others hnsw b0 first_row Q :
  raw_policy (ex_policy ex) → column_name (ex_policy ex) ∉ field_names b0 →
  Forall (same_schema b0) (read_pair <$> r :: others).*1 →
  (∀ rows, rows_left_by_dvs m (ex_policy ex) files = Some rows →
    Forall (λ pr, Zlen pr.2 = num_rows pr.1) (read_pair <$> r :: others) ∧
    mjoin (pair_rows <$> (read_pair <$> r :: others)) ≡ₚ rows) →
  (∀ o m', merge_post m (ex_policy ex) files out o m' → Q o m') →
  wp m (merge_incremental ex files out (rf_batch r) (rf_vecs r) hnsw (read_pair <$> others).*1
          (mjoin (read_pair <$> others).*2) first_row) Q.
Proof.
  intros Hraw Hcol Hs Hrows HQ. unfold merge_incremental. cbv zeta.
  set (h := quantize_to_f16 _). clearbody h.
  apply (wp_write_merged m ex files out (rf_batch r) (read_pair <$> r :: others)
    (rf_batch r :: (read_pair <$> others).*1) (rf_vecs r ++ mjoin (read_pair <$> others).*2) b0
    (λ merged, write_with_prebuilt_hnsw (attach_fts ex (writer_new (ex_policy ex)) merged) merged
       (rf_vecs r ++ mjoin (read_pair <$> others).*2) h)); [done|done|done|done|done| | |done|done].
  - by inversion Hs.
  - intros merged file Hw%prebuilt_spliced. by rewrite attach_fts_policy in Hw.
Qed.

Lemma wp_compact_incremental m ex files out Q :
  raw_policy (ex_policy ex) → one_schema m (ex_policy ex) files → NoDup (df_path <$> files) →
  (∀ o m', merge_post m (ex_policy ex) files out o m' → Q o m') →
  wp m (compact_incremental ex files out) Q.
Proof.
  intros Hraw Hone Hnd HQ. pose proof (wp_compact m ex files out Q Hraw Hone HQ) as Hfull.
  destruct Hone as (b0 & Hcol & Hsch). unfold compact_incremental.
  destruct (files !! dominant_index files) as [dom|] eqn:Ed; [|by apply wp_err, HQ, merge_failed].
  destruct (ex_index_strategy ex); [| |done];
    (destruct (df_deletion_vector dom); [done|]; destruct (below_ratio _ _); [done|]).
  all: apply wp_bind; eapply (wp_map_rel m _ (λ f rf, rf_is_dom rf = String.eqb (df_path f) (df_path dom) ∧
    source_read m (ex_policy ex) b0 f (read_pair rf)));
    [intros f R Hin HR; apply (wp_read_for_incremental m ex (df_path dom) f b0); [|done];
       rewrite Forall_forall in Hsch; by apply Hsch| |intros err; by apply HQ, merge_failed].
  all: intros raw Hf; destruct (dominant_first _ _ _ _ _ _ _ _ Ed Hnd eq_refl Hf) as (r & others & Hsep & fs & Hperm & Hsrc);
    rewrite Hsep; destruct (rf_retained r) as [dom_bytes|]; [|done].
  all: apply wp_bind, wp_catch, wp_outcome; destruct (load_index _) as [[hnsw|err]|]; [|done|by apply HQ, merge_failed].
  all: eapply wp_merge_incremental; [done|exact Hcol|exact (sources_schema _ _ _ _ _ Hsrc)| |done].
  all: intros rows Hrows; symmetry in Hperm; destruct (contents_perm _ _ _ _ _ Hperm Hrows) as (rows' & Hrows' & Hp);
    by destruct (sources_rows _ _ _ _ _ _ Hsrc Hrows') as (_ & Hl & ->).
Qed.

End Merges.
