(* ===== verification/CdcRows.v ===== *)
(** * Change capture: rows and batches

    Rows are read column by column: [named_cells] gives the cells of a row under given
    names.  Taking, splitting and joining batches move rows, and the batch of changes has
    a row for every record, with its envelope. *)

From S2P Require Import Prelude Core FileFormat Store Effects Json Manifest Catalog ArrowSchema Arrow Arrays.
From S2P Require Import Deletes DeletesTheorems Search CompactionRows Cdc.

(* ------------------------------------------------------------------ *)
(** ** Integers                                                        *)
(* ------------------------------------------------------------------ *)

Lemma dedup_cons x y l : dedup (x :: y :: l) = if x =? y then dedup (y :: l) else x :: dedup (y :: l).
Proof. done. Qed.

Lemma dedup_elem l x : x ∈ dedup l ↔ x ∈ l.
Proof.
  induction l as [|y l IH]; [done|]. destruct l as [|z l]; [done|]. rewrite dedup_cons.
  destruct (Z.eqb_spec y z) as [->|Hne]; [rewrite IH|rewrite elem_of_cons, IH]; rewrite !elem_of_cons; naive_solver.
Qed.

Lemma dedup_NoDup l : StronglySorted Z.le l → NoDup (dedup l).
Proof.
  induction l as [|y l IH]; [constructor|]. intros Hs. inversion Hs as [|? ? Hs' Hy]; subst.
  specialize (IH Hs'). destruct l as [|z l]; [apply NoDup_singleton|]. rewrite dedup_cons.
  destruct (Z.eqb_spec y z) as [->|Hne]; [done|]. apply NoDup_cons. split; [|done]. rewrite dedup_elem. intros Hin.
  apply StronglySorted_inv in Hs' as [_ Hz]. inversion Hy as [|? ? Hyz _]; subst.
  apply elem_of_cons in Hin as [->|Hin]; [done|]. rewrite Forall_forall in Hz. specialize (Hz y Hin). lia.
Qed.

Lemma sort_dedup_elem l x : x ∈ sort_dedup l ↔ x ∈ l.
Proof. unfold sort_dedup. by rewrite dedup_elem, merge_sort_Permutation. Qed.

Lemma sort_dedup_NoDup l : NoDup (sort_dedup l).
Proof. apply dedup_NoDup, (StronglySorted_merge_sort Z.le). Qed.

Lemma all_deleted_elem dv eq x : x ∈ all_deleted dv eq ↔ x ∈ dv ∨ x ∈ eq.
Proof.
  unfold all_deleted. rewrite sort_dedup_elem, elem_of_app, list_elem_of_filter.
  destruct (decide (x ∈ dv)); tauto.
Qed.

(* ------------------------------------------------------------------ *)
(** ** Outcomes of loops                                               *)
(* ------------------------------------------------------------------ *)

Lemma outcome_map_ok {A B} (P : A → B → Prop) (f : A → outcome AilakeError B) xs :
  (∀ x, x ∈ xs → ∃ y, f x = Ret (Ok y) ∧ P x y) → ∃ ys, outcome_map f xs = Ret (Ok ys) ∧ Forall2 P xs ys.
Proof.
  induction xs as [|x xs IH]; intros Hf; [by exists []; split; [done|constructor]|].
  destruct (Hf x) as (y & Ey & Hy); [by left|]. destruct IH as (ys & Eys & Hys); [intros z Hz; apply Hf; by right|].
  exists (y :: ys). cbn [outcome_map]. rewrite Ey. cbn. rewrite Eys. split; [done|by constructor].
Qed.

(* ------------------------------------------------------------------ *)
(** ** Cells                                                           *)
(* ------------------------------------------------------------------ *)

Section Cells.
Context {PL : ParquetLib} {AL : ArrowLib} {RL : ArrayLib}.

(** The value of a named column in a row. *)
Definition cell_of (b : RecordBatch) (name : string) (row : Z) : option string :=
  i ← field_index (schema_of b) name; array_cell (column b i) row.
Definition named_cells (ns : list string) (b : RecordBatch) (row : Z) : list (string * option string) :=
  (λ n, (n, cell_of b n row)) <$> ns.

(** The columns a batch has, each name once, with their types. *)
Definition shaped (types : gmap string ArrowTy.t) (b : RecordBatch) : Prop :=
  NoDup (af_name <$> schema_of b) ∧
  ∀ n t, types !! n = Some t ↔ ∃ f, f ∈ schema_of b ∧ af_name f = n ∧ af_type f = t.

Lemma field_index_Some fs n i :
  field_index fs n = Some i ↔ ∃ f, fs !! i = Some f ∧ af_name f = n ∧ ∀ j g, fs !! j = Some g → (j < i)%nat → af_name g ≠ n.
Proof.
  unfold field_index. split.
  - destruct (list_find _ fs) as [[j f]|] eqn:E; [|done]. intros [= ->]. apply list_find_Some in E. eauto.
  - intros (f & Hi & Hn & Hj). assert (list_find (λ f, af_name f = n) fs = Some (i, f)) as ->; [|done].
    by apply list_find_Some.
Qed.

Lemma field_index_None fs n : field_index fs n = None ↔ n ∉ af_name <$> fs.
Proof.
  unfold field_index. rewrite fmap_None, list_find_None, Forall_forall, list_elem_of_fmap.
  split; [intros Hf (f & -> & Hin); by apply (Hf f)|intros Hn f Hin <-; apply Hn; eauto].
Qed.

(** With each name once, any field of the name is its first. *)
Lemma field_index_at fs i f : NoDup (af_name <$> fs) → fs !! i = Some f → field_index fs (af_name f) = Some i.
Proof.
  intros Hnd Hi. apply field_index_Some. exists f. split; [done|]. split; [done|]. intros j g Hj Hlt E.
  rewrite NoDup_alt in Hnd. assert (i = j); [|lia]. apply (Hnd i j (af_name f)); rewrite list_lookup_fmap.
  - by rewrite Hi.
  - rewrite Hj. cbn. by rewrite E.
Qed.

Lemma array_cells_lookup a k : array_cells a !! k = if decide (Z.of_nat k < array_len a) then Some (array_cell a (Z.of_nat k)) else None.
Proof.
  unfold array_cells. rewrite list_lookup_fmap. case_decide.
  - rewrite lookup_seqZ_lt by lia. done.
  - by rewrite lookup_seqZ_ge by lia.
Qed.

(** A cell, from the list of cells. *)
Lemma array_cell_at a cells k c : array_cells a = cells → cells !! k = Some c → array_cell a (Z.of_nat k) = c.
Proof. intros <- Hk. rewrite array_cells_lookup in Hk. case_decide; [by injection Hk|done]. Qed.

Context `{!ArrayLaws}.

Lemma array_cells_length a : Zlen (array_cells a) = array_len a.
Proof. unfold array_cells. rewrite length_fmap, length_seqZ. pose proof (array_len_nonneg a). lia. Qed.

Lemma column_at b i : (i < num_columns b)%nat → ∃ f, schema_of b !! i = Some f ∧ column_fits (num_rows b) f (column b i).
Proof. intros Hi. destruct (lookup_lt_is_Some_2 (schema_of b) i Hi) as [f Hf]. exists f. split; [done|]. by apply column_is. Qed.

(** [b'] has the given rows of [b]. *)
Definition selects (b b' : RecordBatch) (rows : list Z) : Prop :=
  schema_of b' = schema_of b ∧ num_rows b' = Zlen rows ∧
  ∀ n k row, rows !! k = Some row → cell_of b' n (Z.of_nat k) = cell_of b n row.

Lemma selects_shaped types b b' rows : selects b b' rows → shaped types b → shaped types b'.
Proof. intros (Hs & _ & _). unfold shaped. by rewrite Hs. Qed.

Lemma selects_cells ns b b' rows :
  selects b b' rows → named_cells ns b' <$> seqZ 0 (num_rows b') = named_cells ns b <$> rows.
Proof.
  intros (_ & Hn & Hc). apply list_eq. intros k. rewrite !list_lookup_fmap, Hn.
  destruct (rows !! k) as [row|] eqn:Ek.
  - rewrite lookup_seqZ_lt by (apply lookup_lt_Some in Ek; lia). cbn. f_equal. unfold named_cells.
    apply list_fmap_ext. intros i n _. f_equal. rewrite Z.add_0_l. by apply Hc.
  - rewrite lookup_seqZ_ge; [done|]. apply lookup_ge_None in Ek. lia.
Qed.

(** Taking rows of every column. *)
Lemma take_columns b rows :
  (0 < num_columns b)%nat → Forall (λ r, 0 ≤ r < num_rows b) rows →
  ∃ cols b', outcome_map (λ col, take_array col rows) (columns b) = Ret (Ok cols) ∧
    batch_new (schema_of b) cols = Ok b' ∧ selects b b' rows.
Proof.
  intros Hne Hr.
  destruct (outcome_map_ok (λ a a', array_type a' = array_type a ∧ array_len a' = Zlen rows ∧
      array_cells a' = array_cell a <$> rows) (λ col, take_array col rows) (columns b)) as (cols & E & Hc).
  { intros a Ha. apply list_elem_of_fmap in Ha as (i & -> & Hi%elem_of_seq).
    destruct (column_at b i) as (f & _ & Ht & Hl & _); [lia|].
    destruct (take_array_ok (column b i) rows) as (a' & Ea & Ha); [by rewrite Hl|]. eauto. }
  assert (Hlk : ∀ i a', cols !! i = Some a' → (i < num_columns b)%nat ∧ array_type a' = array_type (column b i) ∧
      array_len a' = Zlen rows ∧ array_cells a' = array_cell (column b i) <$> rows).
  { intros i a' Hi. destruct (Forall2_lookup_r _ _ _ _ _ Hc Hi) as (a & Ha & Hp). unfold columns in Ha.
    apply list_lookup_fmap_Some in Ha as (j & -> & Hj). apply lookup_seq in Hj as [-> Hj]. done. }
  assert (Hlen : length cols = num_columns b).
  { rewrite <- (Forall2_length _ _ _ Hc). unfold columns. by rewrite length_fmap, length_seq. }
  destruct (batch_new_ok (schema_of b) cols (Zlen rows)) as (b' & Eb & Hs & Hn & Hcol).
  { intros ->. cbn in Hlen. lia. }
  { apply Forall2_same_length_lookup_2; [by rewrite Hlen|]. intros i f a' Hf Ha.
    destruct (Hlk i a' Ha) as (_ & Ht & Hl & Hcells). destruct (column_is b i f Hf) as ((Hft & Hfl & Hnull) & _).
    split; [by rewrite Ht|]. split; [done|]. intros Hnn. specialize (Hnull Hnn). rewrite Hcells. intros Hin.
    apply list_elem_of_fmap in Hin as (r & Er & Hin). apply Hnull. rewrite Forall_forall in Hr. specialize (Hr r Hin).
    unfold array_cells. apply list_elem_of_fmap. exists r. split; [done|]. apply elem_of_seqZ. lia. }
  exists cols, b'. split; [done|]. split; [done|]. split; [done|]. split; [done|]. intros n k row Hk.
  unfold cell_of. rewrite Hs. destruct (field_index (schema_of b) n) as [i|] eqn:Ei; [|done]. cbn.
  apply field_index_Some in Ei as (f & Hf & _). destruct (lookup_lt_is_Some_2 cols i) as [a' Ha].
  { rewrite Hlen. by apply lookup_lt_Some in Hf. }
  rewrite (Hcol i a' Ha). destruct (Hlk i a' Ha) as (_ & _ & _ & Hcells).
  apply (array_cell_at a' _ k _ Hcells). rewrite list_lookup_fmap, Hk. done.
Qed.

Lemma take_rows_ok b rows :
  (0 < num_columns b)%nat → Forall (λ r, 0 ≤ r < num_rows b) rows →
  ∃ b', take_rows b rows = Ret (Ok b') ∧ selects b b' rows.
Proof.
  intros Hne Hr. destruct rows as [|r rows].
  - exists (batch_new_empty (schema_of b)). split; [done|]. destruct (batch_new_empty_is (schema_of b)) as [Hs Hn].
    split; [done|]. split; [done|]. by intros n k row ?.
  - destruct (take_columns b (r :: rows) Hne Hr) as (cols & b' & E & Eb & Hs). exists b'. split; [|done].
    unfold take_rows. rewrite E. cbn. by rewrite Eb.
Qed.

(** The rows of a batch, one batch each. *)
Lemma split_batch_ok b :
  (0 < num_columns b)%nat → num_rows b ≤ 2 ^ 32 → 0 ≤ num_rows b →
  ∃ bs, split_batch b = Ret (Ok bs) ∧ Forall2 (λ i b', selects b b' [i]) (seqZ 0 (num_rows b)) bs.
Proof.
  intros Hne Hn H0. apply outcome_map_ok. intros i Hi%elem_of_seqZ. unfold split_row.
  rewrite wrap_id by (unfold fits; lia).
  destruct (take_columns b [i] Hne) as (cols & b' & E & Eb & Hs); [by repeat constructor; lia|].
  exists b'. rewrite E. cbn. by rewrite Eb.
Qed.

End Cells.

(* ------------------------------------------------------------------ *)
(** ** The union schema                                                *)
(* ------------------------------------------------------------------ *)

Section Union.
Context {PL : ParquetLib} {AL : ArrowLib} {RL : ArrayLib}.
Context (types : gmap string ArrowTy.t).

Definition typed (f : ArrowField) : Prop := types !! af_name f = Some (af_type f).

(** The fields collected from those seen so far. *)
Definition collected (seen fields : list ArrowField) : Prop :=
  NoDup (af_name <$> fields) ∧ Forall typed fields ∧
  ∀ g, g ∈ seen → ∃ f, f ∈ fields ∧ af_name f = af_name g ∧ (af_nullable g = true → af_nullable f = true).

Lemma names_insert (fields : list ArrowField) i f g :
  fields !! i = Some g → af_name f = af_name g → af_name <$> <[i := f]> fields = af_name <$> fields.
Proof. intros Hi Hn. rewrite list_fmap_insert, Hn. apply list_insert_id. by rewrite list_lookup_fmap, Hi. Qed.

Lemma union_field_collects seen fields f :
  typed f → collected seen fields → collected (seen ++ [f]) (union_field fields f).
Proof.
  intros Hf (Hnd & Hty & Hin). unfold union_field. destruct (field_index fields (af_name f)) as [i|] eqn:Ei.
  - apply field_index_Some in Ei as (g & Hg & Hn & _). rewrite Hg.
    destruct (af_nullable f && negb (af_nullable g)) eqn:Eb.
    + split; [by rewrite (names_insert fields i (nullable_field f) g)|]. split; [by apply Forall_insert|].
      intros h [Hh| ->%list_elem_of_singleton]%elem_of_app.
      * destruct (Hin h Hh) as (f' & Hf' & En & Enull). apply list_elem_of_lookup in Hf' as [j Hj].
        destruct (decide (i = j)) as [->|Hne].
        { exists (nullable_field f). rewrite Hg in Hj. injection Hj as <-.
          split; [|cbn; split; [by rewrite <- Hn|done]]. apply list_elem_of_lookup. exists j.
          apply list_lookup_insert_eq. by apply lookup_lt_Some in Hg. }
        { exists f'. split; [|done]. apply list_elem_of_lookup. exists j. by rewrite list_lookup_insert_ne. }
      * exists (nullable_field f). split; [|done]. apply list_elem_of_lookup. exists i.
        apply list_lookup_insert_eq. by apply lookup_lt_Some in Hg.
    + split; [done|]. split; [done|]. intros h [Hh| ->%list_elem_of_singleton]%elem_of_app; [by apply Hin|].
      exists g. split; [by eapply list_elem_of_lookup_2|]. split; [done|]. destruct (af_nullable f), (af_nullable g); done.
  - apply field_index_None in Ei. split; [|split].
    + rewrite fmap_app. apply NoDup_app. split; [done|]. split; [|apply NoDup_singleton].
      intros n Hn ->%list_elem_of_singleton. done.
    + apply Forall_app. by split; [|constructor].
    + intros h [Hh| ->%list_elem_of_singleton]%elem_of_app; [|exists f; split; [set_solver|done]].
      destruct (Hin h Hh) as (f' & Hf' & E). exists f'. split; [set_solver|done].
Qed.

Lemma union_fields_collect seen fields fs :
  Forall typed fs → collected seen fields → collected (seen ++ fs) (foldl union_field fields fs).
Proof.
  revert seen fields. induction fs as [|f fs IH]; intros seen fields Hfs Hc; cbn [foldl]; [by rewrite app_nil_r|].
  inversion Hfs; subst. replace (seen ++ f :: fs) with ((seen ++ [f]) ++ fs) by by rewrite <- app_assoc.
  by apply IH, union_field_collects.
Qed.

Lemma shaped_typed b : shaped types b → Forall typed (schema_of b).
Proof. intros [_ Ht]. apply Forall_forall. intros f Hf. apply Ht. eauto. Qed.

(** The union of records of one shape: that shape, nullable where one of them is. *)
Lemma union_schema_shape recs :
  recs ≠ [] → Forall (λ rec, shaped types (cr_row rec)) recs →
  let U := union_schema recs in
  NoDup (af_name <$> U) ∧ Forall typed U ∧
  (∀ n t, types !! n = Some t → ∃ f, f ∈ U ∧ af_name f = n) ∧
  ∀ rec g f, rec ∈ recs → g ∈ schema_of (cr_row rec) → f ∈ U → af_name f = af_name g →
    af_nullable f = false → af_nullable g = false.
Proof.
  intros Hne Hall. cbv zeta. unfold union_schema.
  set (fields := foldl (λ fields rec, foldl union_field fields (schema_of (cr_row rec))) [] recs).
  assert (Hc : collected (recs ≫= (schema_of ∘ cr_row)) fields).
  { subst fields. clear Hne. assert (H0 : collected [] []) by (split; [constructor|split; [constructor|intros g ?%elem_of_nil; done]]).
    change (recs ≫= (schema_of ∘ cr_row)) with ([] ++ (recs ≫= (schema_of ∘ cr_row))).
    revert H0. generalize (@nil ArrowField) at 1 3. generalize (@nil ArrowField).
    induction Hall as [|rec recs Hr _ IH]; intros fields seen H0; cbn [foldl]; [by rewrite app_nil_r|].
    rewrite bind_cons, app_assoc. apply IH. by apply union_fields_collect; [apply shaped_typed|]. }
  assert (Hm : foldl mark_missing fields recs = fields).
  { destruct Hc as (_ & Hty & _). clearbody fields. clear Hne. induction Hall as [|rec recs [_ Hr] _ IH]; [done|].
    cbn [foldl]. assert (mark_missing fields rec = fields) as ->; [|done]. unfold mark_missing.
    rewrite <- (list_fmap_id fields) at 2. apply list_fmap_ext. intros i f Hf.
    rewrite Forall_forall in Hty. assert (Ht : typed f) by by apply Hty, (list_elem_of_lookup_2 _ i).
    unfold typed in Ht. apply Hr in Ht as (g & Hg & Hn & _).
    assert (has_field (schema_of (cr_row rec)) (af_name f) = true) as ->; [|done]. apply existsb_exists.
    exists g. split; [by apply list_elem_of_In|]. by apply String.eqb_eq. }
  rewrite Hm. clear Hm. destruct Hc as (Hnd & Hty & Hin). split; [done|]. split; [done|].
  assert (Hsrc : ∀ rec g, rec ∈ recs → g ∈ schema_of (cr_row rec) → g ∈ recs ≫= (schema_of ∘ cr_row)).
  { intros rec g Hrec Hg. apply list_elem_of_bind. by exists rec. }
  split.
  - intros n t Ht. destruct recs as [|rec recs]; [done|]. inversion Hall as [|? ? [_ Hr] _]; subst.
    apply Hr in Ht as (g & Hg & <- & _). destruct (Hin g) as (f & Hf & Hn & _); [by apply (Hsrc rec); [left|]|].
    exists f. done.
  - intros rec g f Hrec Hg Hf Hn Hnn. destruct (Hin g) as (f' & Hf' & Hn' & Hnull); [by apply (Hsrc rec)|].
    assert (f' = f) as ->; [|by destruct (af_nullable g); [rewrite Hnull in Hnn|]].
    apply list_elem_of_lookup in Hf as [i Hi]. apply list_elem_of_lookup in Hf' as [j Hj].
    rewrite NoDup_alt in Hnd. assert (i = j) as <-; [|by rewrite Hi in Hj; injection Hj].
    apply (Hnd i j (af_name f)); rewrite list_lookup_fmap; [by rewrite Hi|rewrite Hj; cbn; congruence].
Qed.

End Union.

(* ------------------------------------------------------------------ *)
(** ** The batch of changes                                            *)
(* ------------------------------------------------------------------ *)

Section Build.
Context {PL : ParquetLib} {AL : ArrowLib} {RL : ArrayLib} `{!ArrayLaws}.
Context (types : gmap string ArrowTy.t).

Definition envelope_names : list string := af_name <$> envelope_fields.
(** No column of the table is called like one of the envelope. *)
Definition no_envelope : Prop := Forall (λ n, types !! n = None) envelope_names.

(** A single row of the table's shape. *)
Definition row_record (rec : ChangeRecord) : Prop := shaped types (cr_row rec) ∧ num_rows (cr_row rec) = 1.

Lemma field_index_of_type b n t : shaped types b → types !! n = Some t →
  ∃ i f, field_index (schema_of b) n = Some i ∧ schema_of b !! i = Some f ∧ af_name f = n ∧ af_type f = t.
Proof.
  intros [Hnd Ht] Hn. apply Ht in Hn as (f & Hf & <- & <-). apply list_elem_of_lookup in Hf as [i Hi].
  exists i, f. split; [by apply field_index_at|done].
Qed.

(** A record in the order and with the nullability of the union schema. *)
Lemma normalize_ok U rec :
  NoDup (af_name <$> U) → Forall (typed types) U → (∀ n t, types !! n = Some t → ∃ f, f ∈ U ∧ af_name f = n) →
  (∀ g f, g ∈ schema_of (cr_row rec) → f ∈ U → af_name f = af_name g → af_nullable f = false → af_nullable g = false) →
  U ≠ [] → row_record rec →
  ∃ rec', normalize_to_schema U rec = Ret (Ok rec') ∧ schema_of (cr_row rec') = U ∧ num_rows (cr_row rec') = 1 ∧
    (∀ n, cell_of (cr_row rec') n 0 = cell_of (cr_row rec) n 0) ∧ rec' = with_row rec (cr_row rec').
Proof.
  intros Hnd Hty Hin Hnull HU [Hsh Hn]. unfold normalize_to_schema.
  destruct (schema_eq (cr_row rec) U) eqn:Es.
  { exists rec. split; [done|]. split; [by apply schema_eq_is|]. split; [done|]. split; [done|]. by destruct rec. }
  destruct (outcome_map_ok (λ f a, ∃ i g, field_index (schema_of (cr_row rec)) (af_name f) = Some i ∧
      schema_of (cr_row rec) !! i = Some g ∧ af_name g = af_name f ∧ af_type g = af_type f ∧ a = column (cr_row rec) i)
    (λ field, match field_index (schema_of (cr_row rec)) (af_name field) with
      | Some idx => Ret (Ok (column (cr_row rec) idx))
      | None => null_array_for (af_type field) (num_rows (cr_row rec))
      end) U) as (cols & E & Hcols).
  { intros f Hf. rewrite Forall_forall in Hty. specialize (Hty f Hf).
    destruct (field_index_of_type _ _ _ Hsh Hty) as (i & g & Ei & Hg & Eg & Etg). rewrite Ei. eauto 10. }
  rewrite E. cbn [mbind outcome_bind].
  destruct (batch_new_ok U cols 1) as (b & Eb & Hs & Hnb & Hcol).
  { intros ->. by inversion Hcols; subst. }
  { apply Forall2_same_length_lookup_2; [by eapply Forall2_length|]. intros k f a Hf Ha.
    destruct (Forall2_lookup_lr _ _ _ _ _ _ Hcols Hf Ha) as (i & g & Ei & Hg & Eg & Etg & ->).
    destruct (column_is _ i g Hg) as ((Hct & Hcl & Hcn) & _). split; [by rewrite Hct|]. split; [by rewrite Hcl|].
    intros Hfn. apply Hcn. eapply (Hnull g f); try done; by eapply list_elem_of_lookup_2. }
  rewrite Eb. exists (with_row rec b). split; [done|]. split; [done|]. split; [done|]. split; [|done].
  intros n. cbn [with_row cr_row]. unfold cell_of. rewrite Hs. destruct (field_index U n) as [k|] eqn:Ek.
  - apply field_index_Some in Ek as (f & Hf & <- & _). destruct (Forall2_lookup_l _ _ _ _ _ Hcols Hf) as (a & Ha & i & g & Ei & _ & _ & _ & ->).
    cbn [mbind option_bind]. rewrite (Hcol k _ Ha), Ei. done.
  - apply field_index_None in Ek. destruct (field_index (schema_of (cr_row rec)) n) as [i|] eqn:Ei; [|done]. exfalso.
    apply field_index_Some in Ei as (g & Hg & <- & _). destruct Hsh as [_ Hsh].
    destruct (Hin (af_name g) (af_type g)) as (f & Hf & Ef); [apply Hsh; exists g; split; [by eapply list_elem_of_lookup_2|done]|].
    apply Ek. rewrite <- Ef. by apply list_elem_of_fmap_2.
Qed.

(** A list of one-row arrays has as many cells as arrays. *)
Lemma joined_cells (arrs : list ArrayRef) :
  Forall (λ a, array_len a = 1) arrs → mjoin (array_cells <$> arrs) = (λ a, array_cell a 0) <$> arrs.
Proof.
  induction 1 as [|a arrs Ha _ IH]; [done|]. rewrite !fmap_cons, mjoin_cons, IH. unfold array_cells. by rewrite Ha.
Qed.

(** The cells of one column of normalised records. *)
Lemma joined_column U recs i f :
  recs ≠ [] → Forall (λ rec, schema_of (cr_row rec) = U ∧ num_rows (cr_row rec) = 1) recs → U !! i = Some f →
  ∃ a, concat_arrays ((λ rec, column (cr_row rec) i) <$> recs) = Ok a ∧ column_fits (Zlen recs) f a ∧
    array_cells a = (λ rec, array_cell (column (cr_row rec) i) 0) <$> recs.
Proof.
  intros Hne Hall Hf.
  assert (Hcol : Forall (λ rec, column_fits 1 f (column (cr_row rec) i)) recs).
  { eapply Forall_impl; [exact Hall|]. intros rec [Hs Hn]. rewrite <- Hn. apply column_is. by rewrite Hs. }
  destruct (concat_arrays_ok (af_type f) ((λ rec, column (cr_row rec) i) <$> recs)) as (a & Ea & Hta & Hcells).
  { by destruct recs. } { apply Forall_fmap. eapply Forall_impl; [exact Hcol|]. by intros rec [Ht _]. }
  rewrite joined_cells in Hcells.
  2: { apply Forall_fmap. eapply Forall_impl; [exact Hcol|]. by intros rec (_ & Hl & _). }
  rewrite <- list_fmap_compose in Hcells. exists a. split; [done|]. split; [|done]. split; [done|].
  split; [rewrite <- array_cells_length, Hcells; by rewrite length_fmap|]. intros Hnn. rewrite Hcells.
  intros (rec & E & Hrec)%list_elem_of_fmap. rewrite Forall_forall in Hcol. destruct (Hcol rec Hrec) as (_ & Hl & Hnull).
  apply (Hnull Hnn). unfold array_cells. rewrite Hl. rewrite E. by apply list_elem_of_singleton.
Qed.

Lemma envelope_fits recs : Forall2 (column_fits (Zlen recs)) envelope_fields (envelope_columns recs).
Proof.
  assert (Hsome : ∀ {A} (h : A → string) (l : list A), None ∉ Some ∘ h <$> l).
  { intros A h l Hin. by apply list_elem_of_fmap in Hin as (x & ? & _). }
  unfold envelope_fields, envelope_columns. constructor; [|repeat constructor].
  - destruct (string_array_is (ChangeType.as_str ∘ cr_change_type <$> recs)) as (Ht & Hl & Hc).
    split; [done|]. rewrite length_fmap in Hl. split; [done|]. intros _. rewrite Hc, <- list_fmap_compose. apply Hsome.
  - apply int64_array_is.
  - by destruct (int64_array_is (cr_snapshot_id <$> recs)) as (_ & -> & _); rewrite length_fmap.
  - intros _. destruct (int64_array_is (cr_snapshot_id <$> recs)) as (_ & _ & ->). apply Hsome.
  - apply int64_array_is.
  - by destruct (int64_array_is (cr_sequence_number <$> recs)) as (_ & -> & _); rewrite length_fmap.
  - intros _. destruct (int64_array_is (cr_sequence_number <$> recs)) as (_ & _ & ->). apply Hsome.
  - apply int64_array_is.
  - by destruct (int64_array_is (cr_timestamp_ms <$> recs)) as (_ & -> & _); rewrite length_fmap.
  - intros _. destruct (int64_array_is (cr_timestamp_ms <$> recs)) as (_ & _ & ->). apply Hsome.
Qed.

(** A row of the returned batch says what a record says. *)
Definition says (b : RecordBatch) (k : nat) (rec : ChangeRecord) : Prop :=
  (∀ n, n ∉ envelope_names → cell_of b n (Z.of_nat k) = cell_of (cr_row rec) n 0) ∧
  cell_of b "_change_type" (Z.of_nat k) = Some (ChangeType.as_str (cr_change_type rec)) ∧
  cell_of b "_snapshot_id" (Z.of_nat k) = Some (to_string (cr_snapshot_id rec)) ∧
  cell_of b "_sequence_number" (Z.of_nat k) = Some (to_string (cr_sequence_number rec)) ∧
  cell_of b "_commit_timestamp" (Z.of_nat k) = Some (to_string (cr_timestamp_ms rec)).

Lemma field_index_app_l fs gs n i : field_index fs n = Some i → field_index (fs ++ gs) n = Some i.
Proof.
  intros (f & Hf & Hn & Hj)%field_index_Some. apply field_index_Some. exists f.
  split; [by apply lookup_app_l_Some|]. split; [done|]. intros j g Hg Hlt. apply (Hj j); [|done].
  rewrite lookup_app_l in Hg; [done|]. apply lookup_lt_Some in Hf. lia.
Qed.

Lemma field_index_app_r fs gs n i :
  n ∉ af_name <$> fs → field_index gs n = Some i → field_index (fs ++ gs) n = Some (length fs + i)%nat.
Proof.
  intros Hn (f & Hf & E & Hj)%field_index_Some. apply field_index_Some. exists f.
  split; [rewrite lookup_app_r by lia; rewrite <- Hf; f_equal; lia|]. split; [done|]. intros j g Hg Hlt.
  destruct (decide (j < length fs)%nat).
  - rewrite lookup_app_l in Hg by done. intros <-. apply Hn. apply list_elem_of_fmap_2. by eapply list_elem_of_lookup_2.
  - rewrite lookup_app_r in Hg by lia. apply (Hj (j - length fs)%nat g Hg). lia.
Qed.

(** An envelope column of the returned batch. *)
Lemma envelope_cell b U bases recs n i l k rec :
  schema_of b = U ++ envelope_fields → length bases = length U →
  (∀ j a, (bases ++ envelope_columns recs) !! j = Some a → column b j = a) →
  n ∉ af_name <$> U → field_index envelope_fields n = Some i →
  (∃ a, envelope_columns recs !! i = Some a ∧ array_cells a = l) → l !! k = Some rec →
  cell_of b n (Z.of_nat k) = rec.
Proof.
  intros Hs Hl Hcol Hn Hi (a & Ha & Hcells) Hk. unfold cell_of. rewrite Hs.
  rewrite (field_index_app_r _ _ _ i) by done. cbn [mbind option_bind].
  rewrite (Hcol _ a); [by eapply array_cell_at|]. rewrite lookup_app_r by lia.
  rewrite <- Ha. f_equal. lia.
Qed.

Lemma build_change_batch_ok recs :
  no_envelope → types ≠ ∅ → Forall row_record recs →
  ∃ b, build_change_batch recs = Ret (Ok b) ∧ num_rows b = Zlen recs ∧
    ∀ k rec, recs !! k = Some rec → says b k rec.
Proof.
  intros Henv Hne Hall. destruct recs as [|r0 rest].
  { exists (batch_new_empty envelope_fields). split; [done|]. split; [apply batch_new_empty_is|]. by intros k rec ?. }
  unfold build_change_batch. set (recs := r0 :: rest) in *. assert (Hrne : recs ≠ []) by done. clearbody recs.
  set (U := union_schema recs).
  destruct (union_schema_shape types recs Hrne) as (Hnd & Hty & Hin & Hnull).
  { eapply Forall_impl; [exact Hall|]. by intros rec [Hs _]. }
  fold U in Hnd, Hty, Hin, Hnull. clearbody U.
  assert (HU : U ≠ []).
  { intros ->. apply Hne, map_eq. intros n. rewrite lookup_empty. destruct (types !! n) as [t|] eqn:Et; [|done].
    destruct (Hin n t Et) as (f & Hf & _). by apply elem_of_nil in Hf. }
  destruct (outcome_map_ok (λ rec rec', schema_of (cr_row rec') = U ∧ num_rows (cr_row rec') = 1 ∧
      (∀ n, cell_of (cr_row rec') n 0 = cell_of (cr_row rec) n 0) ∧ rec' = with_row rec (cr_row rec'))
    (normalize_to_schema U) recs) as (recs' & E & Hrecs).
  { intros rec Hrec. rewrite Forall_forall in Hall.
    apply normalize_ok; [done|done|done| |done|by apply Hall]. intros g f Hg Hf. by apply Hnull with rec. }
  rewrite E. cbn [mbind outcome_bind].
  assert (Hlen : length recs' = length recs) by by symmetry; eapply Forall2_length.
  assert (Hall' : Forall (λ rec, schema_of (cr_row rec) = U ∧ num_rows (cr_row rec) = 1) recs').
  { clear -Hrecs. induction Hrecs as [|rec rec' recs recs' (Hs & Hn & _) _ IH]; by constructor. }
  assert (Hne' : recs' ≠ []) by (intros ->; by destruct recs).
  destruct (outcome_map_ok (λ i a, ∃ f, U !! i = Some f ∧ column_fits (Zlen recs') f a ∧
      array_cells a = (λ rec, array_cell (column (cr_row rec) i) 0) <$> recs')
    (λ i, Ret (match concat_arrays ((λ rec, column (cr_row rec) i) <$> recs') with Ok a => Ok a | Err _ => Err ArrowError end))
    (seq 0 (length U))) as (bases & Eb & Hbases).
  { intros i Hi%elem_of_seq. destruct (lookup_lt_is_Some_2 U i) as [f Hf]; [lia|].
    destruct (joined_column U recs' i f Hne' Hall' Hf) as (a & Ea & Hfit & Hcells). rewrite Ea.
    exists a. split; [done|]. eauto. }
  rewrite Eb. cbn [mbind outcome_bind].
  assert (Hblen : length bases = length U) by (rewrite <- (Forall2_length _ _ _ Hbases); apply length_seq).
  assert (Hbase : ∀ i a, bases !! i = Some a → ∃ f, U !! i = Some f ∧ column_fits (Zlen recs') f a ∧
      array_cells a = (λ rec, array_cell (column (cr_row rec) i) 0) <$> recs').
  { intros i a Ha. destruct (Forall2_lookup_r _ _ _ _ _ Hbases Ha) as (j & Hj & Hf).
    by apply lookup_seq in Hj as [-> _]. }
  destruct (batch_new_ok (U ++ envelope_fields) (bases ++ envelope_columns recs') (Zlen recs')) as (b & Ebn & Hs & Hn & Hcol).
  { by destruct bases. }
  { apply Forall2_app; [|apply envelope_fits]. apply Forall2_same_length_lookup_2; [done|]. intros i f a Hf Ha.
    destruct (Hbase i a Ha) as (g & Hg & Hfit & _). by replace f with g by congruence. }
  rewrite Ebn. exists b. split; [done|]. split; [by rewrite Hn, Hlen|]. intros k rec Hk.
  destruct (Forall2_lookup_l _ _ _ _ _ Hrecs Hk) as (rec' & Hk' & Hs' & _ & Hc & Er).
  assert (Hnot : ∀ n, n ∈ envelope_names → n ∉ af_name <$> U).
  { intros n Hn' (f & -> & Hf)%list_elem_of_fmap. unfold no_envelope in Henv. rewrite Forall_forall in Henv.
    specialize (Henv _ Hn'). rewrite Forall_forall in Hty. specialize (Hty f Hf). unfold typed in Hty. congruence. }
  split; [|split; [|split; [|split]]].
  2-5: eapply (envelope_cell b U bases recs'); [done|done|exact Hcol|apply Hnot; apply (bool_decide_unpack _); by vm_compute
    |vm_compute; reflexivity|eexists; split; [reflexivity|apply string_array_is || apply int64_array_is]
    |rewrite !list_lookup_fmap, Hk'; cbn; by rewrite Er].
  intros n Hnn. rewrite <- Hc. unfold cell_of at 1. rewrite Hs.
  destruct (field_index U n) as [i|] eqn:Ei.
  - rewrite (field_index_app_l _ _ _ i) by done. cbn [mbind option_bind].
    pose proof Ei as (f & Hf & _)%field_index_Some. destruct (lookup_lt_is_Some_2 bases i) as [a Ha].
    { rewrite Hblen. by eapply lookup_lt_Some. }
    rewrite (Hcol i a) by by apply lookup_app_l_Some. destruct (Hbase i a Ha) as (_ & _ & _ & Hcells).
    rewrite (array_cell_at a _ k (array_cell (column (cr_row rec') i) 0) Hcells) by by rewrite list_lookup_fmap, Hk'.
    unfold cell_of. by rewrite Hs', Ei.
  - assert (field_index (U ++ envelope_fields) n = None) as ->.
    { apply field_index_None. rewrite fmap_app, elem_of_app. intros [Hin'|Hin']; [|by apply Hnn].
      by apply field_index_None in Ei. }
    unfold cell_of. by rewrite Hs', Ei.
Qed.

End Build.

(* ------------------------------------------------------------------ *)
(** ** Rows of records                                                 *)
(* ------------------------------------------------------------------ *)

Lemma filter_ext_in {A} (P Q : A → Prop) `{∀ x, Decision (P x)} `{∀ x, Decision (Q x)} (l : list A) :
  (∀ x, x ∈ l → (P x ↔ Q x)) → filter P l = filter Q l.
Proof.
  induction l as [|x l IH]; intros Hl; [done|]. rewrite !filter_cons.
  rewrite IH by (intros y Hy; apply Hl; by right). specialize (Hl x ltac:(by left)).
  destruct (decide (P x)), (decide (Q x)); tauto || done.
Qed.

(** Selecting positions of a list, and its elements. *)
Lemma filter_positions {A B} (P : Z → Prop) (Q : A → Prop) `{∀ k, Decision (P k)} `{∀ x, Decision (Q x)}
    (f : Z → B) (g : A → B) (l : list A) i :
  (∀ k x, l !! k = Some x → (P (i + Z.of_nat k) ↔ Q x) ∧ f (i + Z.of_nat k) = g x) →
  f <$> filter P (seqZ i (Zlen l)) = g <$> filter Q l.
Proof.
  revert i. induction l as [|x l IH]; intros i Hl; [done|]. rewrite seqZ_cons by (cbn; lia).
  cbn [length]. replace (Z.pred (Z.of_nat (Datatypes.S (length l)))) with (Zlen l) by lia.
  destruct (Hl 0%nat x eq_refl) as [HP Hf]. rewrite Z.add_0_r in HP, Hf. rewrite !filter_cons.
  assert (E : f <$> filter P (seqZ (Z.succ i) (Zlen l)) = g <$> filter Q l).
  { apply IH. intros k y Hy. specialize (Hl (Datatypes.S k) y Hy).
    by replace (Z.succ i + Z.of_nat k) with (i + Z.of_nat (Datatypes.S k)) by lia. }
  destruct (decide (P i)) as [Hp|Hp], (decide (Q x)) as [Hq|Hq]; [|tauto|tauto|done].
  rewrite !fmap_cons. by rewrite Hf, E.
Qed.

Lemma as_str_inj c c' : ChangeType.as_str c = ChangeType.as_str c' → c = c'.
Proof. by destruct c, c'. Qed.

Section Records.
Context {PL : ParquetLib} {AL : ArrowLib} {RL : ArrayLib}.
Context (ns : list string).

Definition record_cells (rec : ChangeRecord) : list (string * option string) := named_cells ns (cr_row rec) 0.

(** The rows of a type, of a list of records and of the returned batch. *)
Definition record_rows (c : ChangeType.t) (recs : list ChangeRecord) : list (list (string * option string)) :=
  record_cells <$> filter (λ rec, cr_change_type rec = c) recs.
Definition change_rows (c : ChangeType.t) (b : RecordBatch) : list (list (string * option string)) :=
  named_cells ns b <$> filter (λ k, cell_of b "_change_type" k = Some (ChangeType.as_str c)) (seqZ 0 (num_rows b)).

Lemma change_rows_says c b recs :
  Forall (λ n, n ∉ envelope_names) ns → num_rows b = Zlen recs → (∀ k rec, recs !! k = Some rec → says b k rec) →
  change_rows c b = record_rows c recs.
Proof.
  intros Hns Hn Hsays. unfold change_rows, record_rows. rewrite Hn. apply filter_positions. intros k rec Hk.
  destruct (Hsays k rec Hk) as (Hcells & Hc & _). rewrite Z.add_0_l. split.
  - rewrite Hc. split; [by intros [= ?%as_str_inj]|by intros ->].
  - unfold named_cells, record_cells. apply Forall_fmap_ext_1. eapply Forall_impl; [exact Hns|].
    intros n Hnn. by rewrite (Hcells n Hnn).
Qed.

Lemma record_rows_app c l k : record_rows c (l ++ k) = record_rows c l ++ record_rows c k.
Proof. unfold record_rows. by rewrite filter_app, fmap_app. Qed.

End Records.

(* ------------------------------------------------------------------ *)
(** ** Rows by their arrays                                            *)
(* ------------------------------------------------------------------ *)

Section NamedRows.
Context {PL : ParquetLib} {AL : ArrowLib} {RL : ArrayLib} `{!ArrayLaws}.

Lemma named_row_fields b row :
  named_row b row = imap (λ i f, (af_name f, array_cell (column b i) row)) (schema_of b).
Proof.
  unfold named_row. rewrite schema_names, imap_fmap. apply imap_ext. intros i f Hf. unfold cell, array_cell.
  destruct (column_is b i f Hf) as (_ & _ & Hc). destruct (Hc row) as [-> ->]. done.
Qed.

End NamedRows.
