(* ===== verification/CdcTheorems.v ===== *)
(** * Change capture: what the stream says

    The four passes of the reader account for the rows of both snapshots, so that the
    inserted and deleted rows lead from the one to the other; a step that hides rows by
    vectors and by values is reported twice. *)

From S2P Require Import Prelude Core FileFormat Store Effects Json Manifest Catalog CatalogTheorems ArrowSchema Arrow Arrays.
From S2P Require Import Deletes DeletesTheorems Search CompactionRows Cdc CdcRows.

(* ------------------------------------------------------------------ *)
(** ** The four passes                                                 *)
(* ------------------------------------------------------------------ *)

(** Subtraction, equality and iteration of bitmaps. *)
Class BitmapOpsLaws `{RoaringLib} `{!BitmapOps} : Prop := {
  rb_eqb_spec a b : rb_eqb a b = true ↔ ∀ x, rb_contains a x = rb_contains b x;
  rb_iter_NoDup b : NoDup (rb_iter b);
  rb_iter_elem b x : x ∈ rb_iter b ↔ rb_contains b x = true;
  rb_contains_sub a b x : rb_contains (rb_sub a b) x = rb_contains a x && negb (rb_contains b x);
}.

(** A loop whose body succeeds on every item. *)
Lemma wp_map_ok {S} `{StoreLaws S} {A B} m (f : A → IO S B) (P : A → B → Prop) xs Q :
  (∀ x R, x ∈ xs → (∀ y, P x y → R (Ret (Ok y)) m) → wp m (f x) R) →
  (∀ ys, Forall2 P xs ys → Q (Ret (Ok ys)) m) → wp m (io_map f xs) Q.
Proof.
  revert Q. induction xs as [|x xs IH]; intros Q Hf HQ; [apply wp_ret, HQ; constructor|].
  cbn [io_map]. apply wp_bind, Hf; [by left|]. intros y Hy.
  apply wp_bind, IH; [intros z R Hz; apply Hf; by right|]. intros ys Hys. apply wp_ret, HQ. by constructor.
Qed.

(** Lists bound by pieces. *)
Lemma bind_split {A B} (P : A → Prop) `{∀ x, Decision (P x)} (l : list A) (h : A → list B) :
  l ≫= h ≡ₚ (filter P l ≫= h) ++ (filter (λ x, ¬ P x) l ≫= h).
Proof. by rewrite <- bind_app, filter_app_complement. Qed.

Lemma bind_nil {A B} (l : list A) (h : A → list B) : (∀ x, x ∈ l → h x = []) → l ≫= h = [].
Proof.
  induction l as [|x l IH]; intros Hh; [done|]. rewrite bind_cons, Hh by (by left). apply IH. intros y Hy. apply Hh. by right.
Qed.

Lemma bind_ext_in {A B} (l : list A) (g h : A → list B) : (∀ x, x ∈ l → g x = h x) → l ≫= g = l ≫= h.
Proof.
  induction l as [|x l IH]; intros Hh; [done|]. rewrite !bind_cons, Hh by (by left). f_equal. apply IH.
  intros y Hy. apply Hh. by right.
Qed.

Lemma bind_perm_ext {A B} (l : list A) (g h : A → list B) : (∀ x, x ∈ l → g x ≡ₚ h x) → l ≫= g ≡ₚ l ≫= h.
Proof.
  induction l as [|x l IH]; intros Hh; [done|]. rewrite !bind_cons, (Hh x) by (by left). f_equiv. apply IH.
  intros y Hy. apply Hh. by right.
Qed.

Lemma bind_app_fun {A B} (l : list A) (g h : A → list B) : l ≫= (λ x, g x ++ h x) ≡ₚ (l ≫= g) ++ (l ≫= h).
Proof.
  induction l as [|x l IH]; [done|]. rewrite !bind_cons, IH, <- !app_assoc. f_equiv. rewrite !app_assoc. f_equiv.
  apply Permutation_app_comm.
Qed.

(* ------------------------------------------------------------------ *)
(** ** Deletes of values, as the reader and as a scan see them         *)
(* ------------------------------------------------------------------ *)

Section PlainDeletes.
Context {PL : ParquetLib} {AL : ArrowLib} {RL : ArrayLib} `{!ArrayLaws}.

(** Delete files of one column each: the column, the values, the sequence number. *)
Definition filter_of (ds : list (string * list string * Z)) : EqualityDeleteFilter :=
  (λ '(col, texts, seq), (seq, {[col := list_to_set texts]})) <$> ds.
Definition predicates_of (ds : list (string * list string * Z)) : list (string * string * Z) :=
  ds ≫= λ '(col, texts, seq), (λ t, (col, t, seq)) <$> texts.

(** The column, if the batch has it, is of a readable type, and no null meets the text
    NULL. *)
Definition plain (b : RecordBatch) (d : string * list string * Z) : Prop :=
  ∀ i, field_index (schema_of b) d.1.1 = Some i →
    (∃ f, schema_of b !! i = Some f ∧ is_Some (readable_kind (af_type f))) ∧
    ("NULL" ∉ d.1.2 ∨ ∀ row, array_is_null (column b i) row = false).

Lemma index_of_field b name : index_of b name = field_index (schema_of b) name.
Proof.
  unfold index_of, field_index. rewrite schema_names. set (fs := schema_of b). clearbody fs. induction fs as [|f fs IH]; [done|].
  cbn. case_decide; [done|]. destruct (list_find _ (af_name <$> fs)) as [[i x]|], (list_find _ fs) as [[j y]|]; cbn in *; try done.
  by injection IH as ->.
Qed.

Lemma plain_column_matches b d row :
  plain b d → default false (column_matches b row d.1.1 (list_to_set d.1.2)) =
  from_option (λ i, bool_decide (array_value_to_string (column b i) row ∈ d.1.2)) false (field_index (schema_of b) d.1.1).
Proof.
  intros Hp. unfold column_matches. rewrite index_of_field. destruct (field_index _ _) as [i|] eqn:Ei; [|done]. cbn.
  destruct (Hp i Ei) as [(f & Hf & k & Hk) Hn]. destruct (column_is b i f Hf) as ((Hct & _) & Hkind & Hv).
  destruct (Hv row) as [-> ->]. rewrite (Hkind k Hk). unfold array_value_to_string. rewrite Hct.
  destruct (array_is_null (column b i) row) eqn:En.
  - symmetry. apply bool_decide_eq_false. destruct Hn as [Hn|Hn]; [done|]. by rewrite Hn in En.
  - destruct (af_type f); try done; injection Hk as <-; cbn; apply bool_decide_ext; apply elem_of_list_to_set.
Qed.

(** The filter of a scan hides the rows the reader matches. *)
Lemma plain_deletes_agree b fseq ds row :
  Forall (plain b) ds → 0 ≤ row < num_rows b → num_rows b ≤ 2 ^ 32 →
  deleted_by_value (filter_of ds) b row fseq =
  bool_decide (row ∈ find_equality_deleted_rows b fseq (predicates_of ds)).
Proof.
  intros Hp Hrow Hn. assert (E : row ∈ find_equality_deleted_rows b fseq (predicates_of ds) ↔
    row ∈ ds ≫= λ d, predicates_of [d] ≫= predicate_rows b fseq).
  { unfold find_equality_deleted_rows. rewrite sort_dedup_elem. unfold predicates_of.
    assert (Hassoc : ((ds ≫= λ '(col, texts, seq), (λ t, (col, t, seq)) <$> texts) ≫= predicate_rows b fseq) =
      ds ≫= λ d, ([d] ≫= λ '(col, texts, seq), (λ t, (col, t, seq)) <$> texts) ≫= predicate_rows b fseq); [|by rewrite Hassoc].
    clear. induction ds as [|d ds IH]; [done|]. rewrite !bind_cons, bind_app, IH. cbn [mbind list_bind]. by rewrite app_nil_r. }
  rewrite (bool_decide_ext _ _ E). clear E. induction Hp as [|[[col texts] seq] ds Hd _ IH]; [done|].
  change (filter_of ((col, texts, seq) :: ds)) with ((seq, {[col := list_to_set texts]} : gmap string (gset string)) :: filter_of ds).
  unfold deleted_by_value in *. cbn [existsb]. rewrite IH. clear IH.
  rewrite bind_cons, (bool_decide_ext _ _ (elem_of_app _ _ _)), bool_decide_or. f_equal. clear ds.
  rewrite values_match_singleton. pose proof (plain_column_matches b _ row Hd) as Em. cbn [fst snd] in Em. rewrite Em. clear Em.
  apply eq_bool_prop_intro. rewrite !andb_True, bool_decide_spec. unfold predicates_of. cbn [mbind list_bind].
  rewrite app_nil_r. rewrite list_elem_of_bind. split.
  - intros [Hlt Hm]. destruct (field_index (schema_of b) col) as [i|] eqn:Ei; [|done]. cbn in Hm. apply bool_decide_spec in Hm.
    exists (col, array_value_to_string (column b i) row, seq). split; [|by apply (list_elem_of_fmap_2 (λ t, (col, t, seq)))].
    unfold predicate_rows. rewrite Is_true_true, Z.ltb_lt in Hlt. rewrite (proj2 (Z.leb_gt _ _)) by lia. rewrite Ei.
    apply list_elem_of_fmap. exists row. split; [by rewrite wrap_id by (unfold fits; lia)|].
    apply list_elem_of_filter. split; [done|]. apply elem_of_seqZ. lia.
  - intros (p & Hin & (t & -> & Ht)%list_elem_of_fmap). unfold predicate_rows in Hin.
    destruct (Z.leb_spec seq fseq) as [Hle|Hlt]; [by apply elem_of_nil in Hin|].
    destruct (field_index (schema_of b) col) as [i|]; [|by apply elem_of_nil in Hin].
    apply list_elem_of_fmap in Hin as (j & -> & [<- Hj%elem_of_seqZ]%list_elem_of_filter).
    rewrite Is_true_true, Z.ltb_lt. split; [done|]. cbn. apply bool_decide_spec. rewrite wrap_id by (unfold fits; lia). done.
Qed.

End PlainDeletes.

Section Passes.
Context {S : Type} `{ReliableReads S} `{!ReliableRanges S} `{AvroLib} `{FloatText}.
Context `{RoaringLaws} `{!BitmapOps} `{!BitmapOpsLaws}.
Context {PL : ParquetLib} {IL : IndexLib} {AL : ArrowLib} {RL : ArrayLib} {QL : QueryLib} `{!ArrayLaws} `{!ArrowLaws}.
Context (m : gmap string bytes).
Context (end_snap : IcebergSnapshot) (vector_column : string) (dim : Z) (schema_fields : list SchemaField) (strict : bool).
Context (types : gmap string ArrowTy.t) (ns : list string).

(** The batch a file is read as. *)
Definition file_batch (f : DataFileEntry) : outcome AilakeError RecordBatch :=
  d ← Ret (ok_or (m !! df_path f) StoreError);
  '(b, e) ← Ret (read_parquet (mk_reader d vector_column) dim);
  b ← Ret (fill b schema_fields);
  if negb (Zlen e =? 0) && (0 <? dim) then append_vector_column b e vector_column dim else Ret (Ok b).

Lemma wp_read_batch f Q : Q (file_batch f) m → wp m (read_batch vector_column dim schema_fields f) Q.
Proof.
  intros HQ. unfold file_batch in HQ. apply wp_bind, wp_get_. destruct (m !! df_path f) as [d|]; [|done].
  cbn [ok_or mbind outcome_bind] in *. apply wp_bind, wp_result. destruct (read_parquet _ _) as [[b e]|]; [|done].
  cbn [mbind outcome_bind] in *. apply wp_bind, wp_result. destruct (fill b schema_fields) as [b'|]; [|done].
  cbn [mbind outcome_bind] in *. destruct (negb _ && _); [by apply wp_outcome|by apply wp_ret].
Qed.

(** The deletion vector of a file that can be loaded. *)
Definition dv_in (f : DataFileEntry) : option (option Bitmap) :=
  match df_deletion_vector f with None => Some None | Some dv => Some <$> vector_in m dv end.

Lemma wp_load_dv f bm Q : dv_in f = Some bm → Q (Ret (Ok bm)) m → wp m (Cdc.load_dv f strict) Q.
Proof.
  unfold dv_in, Cdc.load_dv. destruct (df_deletion_vector f) as [dv|]; [|intros [= <-]; apply wp_ret].
  destruct (vector_in m dv) as [b|] eqn:Ev; [|done]. intros [= <-] HQ.
  apply wp_bind, wp_catch, wp_load_deletion_vector. rewrite Ev. intros r ->. by apply wp_ret.
Qed.

(** What the files hold: a batch of the table's shape and a vector of its rows. *)
Context (batch_of : DataFileEntry → RecordBatch) (bitmap_of : DataFileEntry → option Bitmap).

Record holds_rows (f : DataFileEntry) : Prop := {
  hr_batch : file_batch f = Ret (Ok (batch_of f));
  hr_bitmap : dv_in f = Some (bitmap_of f);
  hr_shape : shaped types (batch_of f);
  hr_columns : (0 < num_columns (batch_of f))%nat;
  hr_rows : num_rows (batch_of f) < 2 ^ 32;
}.

Definition rows_of (f : DataFileEntry) : list Z := seqZ 0 (num_rows (batch_of f)).
Definition cells_at (f : DataFileEntry) (rows : list Z) : list (list (string * option string)) :=
  named_cells ns (batch_of f) <$> rows.

(** Records of one type with these rows, at the end snapshot. *)
Definition records_of (c : ChangeType.t) (rows : list (list (string * option string))) (recs : list ChangeRecord) : Prop :=
  Forall (row_record types) recs ∧ Forall (λ rec, rec = change_of end_snap c (cr_row rec)) recs ∧
  record_cells ns <$> recs = rows.

Lemma records_of_join {A} c (g : A → list (list (string * option string))) xs rss :
  Forall2 (λ x, records_of c (g x)) xs rss → records_of c (xs ≫= g) (mjoin rss).
Proof.
  induction 1 as [|x recs xs rss (Hr & Ht & Hc) _ (IH1 & IH2 & IH3)]; [repeat constructor|].
  split; [by apply Forall_app|]. split; [by apply Forall_app|]. by rewrite mjoin_cons, fmap_app, Hc, IH3.
Qed.

Lemma records_of_rows c rows recs c' : records_of c rows recs → record_rows ns c' recs = if decide (c = c') then rows else [].
Proof.
  intros (_ & Hty & <-). unfold record_rows. case_decide as Hc.
  - rewrite filter_all; [done|]. intros rec Hrec. rewrite Forall_forall in Hty. by rewrite (Hty rec Hrec).
  - rewrite filter_none; [done|]. intros rec Hrec. rewrite Forall_forall in Hty. by rewrite (Hty rec Hrec).
Qed.

(** The records of some rows of a file. *)
Lemma wp_changes_of c f b rows Q :
  holds_rows f → selects (batch_of f) b rows → Zlen rows ≤ 2 ^ 32 →
  (∀ recs, records_of c (cells_at f rows) recs → Q (Ret (Ok recs)) m) → wp m (changes_of end_snap c b) Q.
Proof.
  intros Hf Hb Hlen HQ. pose proof Hb as (Hs & Hn & Hcells).
  destruct (split_batch_ok b) as (bs & E & Hbs); [unfold num_columns; rewrite Hs; apply Hf|lia|lia|].
  unfold changes_of. rewrite E. apply wp_bind, wp_outcome, wp_ret, HQ.
  assert (Hsh : shaped types b) by (eapply selects_shaped; [done|apply Hf]). split; [|split].
  - apply Forall_fmap. clear -Hbs Hsh. generalize dependent (seqZ 0 (num_rows b)). intros idx Hbs.
    induction Hbs as [|i b' idx bs Hb' _ IH]; constructor; [|done]. split; [by eapply selects_shaped|apply Hb'].
  - apply Forall_fmap, Forall_true. done.
  - rewrite <- list_fmap_compose. transitivity (named_cells ns b <$> seqZ 0 (num_rows b));
    [|by apply selects_cells]. clear -Hbs. generalize dependent (seqZ 0 (num_rows b)). intros idx Hbs.
    induction Hbs as [|i b' idx bs (_ & _ & Hc) _ IH]; [done|]. rewrite !fmap_cons, IH. f_equal.
    unfold record_cells, named_cells. cbn. apply list_fmap_ext. intros j n _. f_equal. by apply (Hc n 0%nat).
Qed.

Lemma selects_refl b : 0 ≤ num_rows b → selects b b (seqZ 0 (num_rows b)).
Proof.
  intros Hn. split; [done|]. split; [rewrite length_seqZ; lia|]. intros n k row (-> & _)%lookup_seqZ. by rewrite Z.add_0_l.
Qed.

Lemma wp_take f rows Q :
  holds_rows f → Forall (λ r, 0 ≤ r < num_rows (batch_of f)) rows →
  (∀ b, selects (batch_of f) b rows → Q (Ret (Ok b)) m) → wp m (io_outcome (take_rows (batch_of f) rows)) Q.
Proof.
  intros Hf Hr HQ. destruct (take_rows_ok (batch_of f) rows) as (b & -> & Hb); [apply Hf|done|]. by apply wp_outcome, HQ.
Qed.

(** The rows that survive a file's vector. *)
Lemma wp_apply_dv f Q :
  holds_rows f →
  (∀ b, selects (batch_of f) b (filter (λ i, dv_hides (bitmap_of f) i = false) (rows_of f)) → Q (Ret (Ok b)) m) →
  wp m (io_outcome (apply_dv (batch_of f) (bitmap_of f))) Q.
Proof.
  intros Hf HQ. pose proof (num_rows_nonneg (batch_of f)) as Hn. pose proof (hr_rows f Hf) as Hlt.
  assert (Hall : (∀ i, dv_hides (bitmap_of f) i = false) → wp m (io_outcome (Ret (Ok (batch_of f)))) Q).
  { intros Hno. apply wp_outcome, HQ. unfold rows_of. rewrite filter_all by (intros i _; apply Hno). by apply selects_refl. }
  unfold apply_dv. destruct (bitmap_of f) as [bm|]; [|by apply Hall].
  destruct (rb_is_empty bm) eqn:Ee; [apply Hall; intros i; by apply (proj1 (rb_is_empty_spec bm))|].
  rewrite wrap_id by (unfold fits; lia).
  assert (E : filter (λ i, rb_contains bm i = false) (seqZ 0 (num_rows (batch_of f))) =
              filter (λ i, dv_hides (Some bm) i = false) (rows_of f)).
  { apply filter_ext_in. intros i Hi%elem_of_seqZ. unfold dv_hides. rewrite wrap_id by (unfold fits; lia). done. }
  rewrite E. apply wp_take; [done| |done]. apply Forall_forall. intros i [_ Hi%elem_of_seqZ]%list_elem_of_filter. lia.
Qed.

(** ** The passes over two listings *)

Lemma file_map_lookup fs p f :
  NoDup (df_path <$> fs) → file_map fs !! p = Some f ↔ f ∈ fs ∧ df_path f = p.
Proof.
  unfold file_map. induction fs as [|g fs IH] using rev_ind; intros Hnd.
  { cbn. rewrite lookup_empty, elem_of_nil. naive_solver. }
  rewrite fmap_app in Hnd. apply NoDup_app in Hnd as (Hnd & Hdis & _). rewrite foldl_app. cbn [foldl].
  rewrite elem_of_app, list_elem_of_singleton. destruct (decide (df_path g = p)) as [<-|Hne].
  - rewrite lookup_insert_eq. split; [intros [= ->]; tauto|]. intros [[Hf| ->] Hp]; [|done]. exfalso.
    apply (Hdis (df_path f)); [by apply list_elem_of_fmap_2|]. rewrite Hp. by left.
  - rewrite lookup_insert_ne, IH by done. naive_solver.
Qed.

Lemma file_map_known fs p : is_Some (file_map fs !! p) ↔ p ∈ df_path <$> fs.
Proof.
  unfold file_map. induction fs as [|g fs IH] using rev_ind.
  { cbn. rewrite lookup_empty. split; [by intros [? ?]|by intros ?%elem_of_nil]. }
  rewrite foldl_app, fmap_app, elem_of_app. cbn [foldl fmap list_fmap]. rewrite list_elem_of_singleton.
  destruct (decide (df_path g = p)) as [<-|Hne]; [rewrite lookup_insert_eq; split; eauto|].
  rewrite lookup_insert_ne, IH by done. split; [by left|]. intros [|]; [done|congruence].
Qed.

(** The values of a delete file as the reader collects them, and all new predicates. *)
Definition values_in (ed : EqualityDeleteFile) : AilakeResult (list (string * string)) :=
  match ed_inline_values ed with
  | Some (col, vals) => Ok (pair col <$> vals)
  | None => b ← ok_or (m !! ed_path ed) StoreError;
            match read_equality_delete_values b with Ok ps => Ok ps | Err _ => Err CatalogError end
  end.
Definition predicates_in (ds de : list EqualityDeleteFile) : AilakeResult (list (string * string * Z)) :=
  match try_map (λ ed, match values_in ed with
                       | Ok values => Ok ((λ '(col, val), (col, val, ed_sequence_number ed)) <$> values)
                       | Err e => Err e
                       end) (new_deletes ds de) with
  | Ok l => Ok (mjoin l)
  | Err e => Err e
  end.

Lemma wp_collect ds de Q :
  Q (Ret (predicates_in ds de)) m → wp m (collect_equality_predicates ds de) Q.
Proof.
  intros HQ. apply wp_bind. eapply (wp_map_result m _ (λ ed, match values_in ed with
    | Ok values => Ok ((λ '(col, val), (col, val, ed_sequence_number ed)) <$> values) | Err e => Err e end)).
  - intros ed R HR. apply wp_bind. unfold cdc_delete_values, values_in in *.
    destruct (ed_inline_values ed) as [[col vals]|]; [by apply wp_ret, wp_ret|].
    apply wp_bind, wp_get_. destruct (m !! ed_path ed) as [d|]; [|done]. cbn [ok_or mbind result_bind] in *.
    apply wp_result. destruct (read_equality_delete_values d); [by apply wp_ret|done].
  - unfold predicates_in in HQ. destruct (try_map _ _); [by apply wp_ret|done].
Qed.

Context (Fs Fe : list DataFileEntry) (predicates : list (string * string * Z)).

Definition diff_of (g f : DataFileEntry) : list Z := diff_dv (bitmap_of g) (bitmap_of f).
Definition matched (f : DataFileEntry) : list Z :=
  find_equality_deleted_rows (batch_of f) (df_sequence_number f) predicates.

Definition inserted_of (f : DataFileEntry) : list (list (string * option string)) :=
  if decide (df_path f ∈ df_path <$> Fs) then []
  else cells_at f (filter (λ i, dv_hides (bitmap_of f) i = false) (rows_of f)).
Definition removed_of (g : DataFileEntry) : list (list (string * option string)) :=
  if decide (df_path g ∈ df_path <$> Fe) then [] else cells_at g (rows_of g).
Definition by_position_of (f : DataFileEntry) : list (list (string * option string)) :=
  match file_map Fs !! df_path f with
  | Some g => if rb_eqb (dv_bitmap (bitmap_of g)) (dv_bitmap (bitmap_of f)) then [] else cells_at f (diff_of g f)
  | None => []
  end.
Definition by_value_of (f : DataFileEntry) : list (list (string * option string)) :=
  match file_map Fs !! df_path f with
  | Some g => cells_at f (all_deleted (diff_of g f) (matched f))
  | None => []
  end.

(** Newly deleted positions are rows of the file. *)
Definition positions_exist : Prop :=
  ∀ f g, f ∈ Fe → file_map Fs !! df_path f = Some g → Forall (λ i, 0 ≤ i < num_rows (batch_of f)) (diff_of g f).

Lemma matched_range f : holds_rows f → Forall (λ i, 0 ≤ i < num_rows (batch_of f)) (matched f).
Proof.
  intros Hf. pose proof (hr_rows f Hf) as Hlt. apply Forall_forall. intros i Hi.
  unfold matched, find_equality_deleted_rows in Hi. rewrite sort_dedup_elem in Hi.
  apply list_elem_of_bind in Hi as ([[col val] seq] & Hi & _). unfold predicate_rows in Hi.
  destruct (seq <=? _); [by apply elem_of_nil in Hi|]. destruct (field_index _ col); [|by apply elem_of_nil in Hi].
  apply list_elem_of_fmap in Hi as (j & -> & [_ Hj%elem_of_seqZ]%list_elem_of_filter).
  rewrite wrap_id by (unfold fits; lia). lia.
Qed.

Lemma sublist_short f rows : holds_rows f → NoDup rows → Forall (λ i, 0 ≤ i < num_rows (batch_of f)) rows → Zlen rows ≤ 2 ^ 32.
Proof.
  intros Hf Hnd Hr. pose proof (hr_rows f Hf) as Hlt. assert (Hs : rows ⊆+ rows_of f).
  { apply NoDup_submseteq; [done|]. intros i Hi. rewrite Forall_forall in Hr. apply elem_of_seqZ. specialize (Hr i Hi). lia. }
  apply submseteq_length in Hs. unfold rows_of in Hs. rewrite length_seqZ in Hs. lia.
Qed.

(** The records of the rows [rows] of a file that is read, a few of its positions taken. *)
Lemma wp_taken f rows Q :
  holds_rows f → NoDup rows → Forall (λ i, 0 ≤ i < num_rows (batch_of f)) rows →
  (∀ recs, records_of ChangeType.Delete (cells_at f rows) recs → Q (Ret (Ok recs)) m) →
  wp m (b ← io_outcome (take_rows (batch_of f) rows); changes_of end_snap ChangeType.Delete b) Q.
Proof.
  intros Hf Hnd Hr HQ. apply wp_bind, wp_take; [done|done|]. intros b Hb.
  eapply wp_changes_of; [done|exact Hb|by eapply sublist_short|done].
Qed.

Lemma records_of_nil c : records_of c [] [].
Proof. repeat constructor. Qed.

Lemma file_map_in fs p f : file_map fs !! p = Some f → f ∈ fs ∧ df_path f = p.
Proof.
  unfold file_map. induction fs as [|g fs IH] using rev_ind; [done|]. rewrite foldl_app. cbn [foldl].
  rewrite elem_of_app. destruct (decide (df_path g = p)) as [<-|Hne].
  - rewrite lookup_insert_eq. intros [= ->]. set_solver.
  - rewrite lookup_insert_ne by done. intros [Hf Hp]%IH. tauto.
Qed.

Context (Hfs : Forall holds_rows Fs) (Hfe : Forall holds_rows Fe) (Hpos : positions_exist).

Lemma start_file_holds f g : file_map Fs !! df_path f = Some g → holds_rows g.
Proof. intros [Hg _]%file_map_in. rewrite Forall_forall in Hfs. by apply Hfs. Qed.

Lemma wp_inserted f Q :
  f ∈ Fe → (∀ recs, records_of ChangeType.Insert (inserted_of f) recs → Q (Ret (Ok recs)) m) →
  wp m (inserted_rows end_snap vector_column dim schema_fields strict (file_map Fs) f) Q.
Proof.
  intros Hin HQ. rewrite Forall_forall in Hfe. specialize (Hfe f Hin). unfold inserted_rows, inserted_of in *.
  destruct (decide (is_Some _)) as [Hk|Hk]; rewrite file_map_known in Hk.
  - rewrite decide_True in HQ by done. apply wp_ret, HQ, records_of_nil.
  - rewrite decide_False in HQ by done. apply wp_bind. eapply wp_load_dv; [apply Hfe|].
    apply wp_bind, wp_read_batch. rewrite (hr_batch f Hfe). apply wp_bind, wp_apply_dv; [done|]. intros b Hb.
    eapply wp_changes_of; [done|exact Hb| |done]. eapply (sublist_short f); [done|apply NoDup_filter, NoDup_seqZ|].
    apply Forall_forall. intros i [_ Hi%elem_of_seqZ]%list_elem_of_filter. lia.
Qed.

Lemma wp_removed g Q :
  g ∈ Fs → (∀ recs, records_of ChangeType.Delete (removed_of g) recs → Q (Ret (Ok recs)) m) →
  wp m (removed_rows end_snap vector_column dim schema_fields (file_map Fe) g) Q.
Proof.
  intros Hin HQ. rewrite Forall_forall in Hfs. specialize (Hfs g Hin). unfold removed_rows, removed_of in *.
  destruct (decide (is_Some _)) as [Hk|Hk]; rewrite file_map_known in Hk.
  - rewrite decide_True in HQ by done. apply wp_ret, HQ, records_of_nil.
  - rewrite decide_False in HQ by done. apply wp_bind, wp_read_batch. rewrite (hr_batch g Hfs).
    eapply wp_changes_of; [done|apply selects_refl, num_rows_nonneg| |done].
    rewrite length_seqZ. pose proof (hr_rows g Hfs). lia.
Qed.

Lemma wp_by_position f Q :
  f ∈ Fe → (∀ recs, records_of ChangeType.Delete (by_position_of f) recs → Q (Ret (Ok recs)) m) →
  wp m (dv_deleted_rows end_snap vector_column dim schema_fields strict (file_map Fs) f) Q.
Proof.
  intros Hin HQ. pose proof Hfe as Hf. rewrite Forall_forall in Hf. specialize (Hf f Hin). unfold dv_deleted_rows, by_position_of in *.
  destruct (file_map Fs !! df_path f) as [g|] eqn:Eg; [|apply wp_ret, HQ, records_of_nil].
  apply wp_bind. eapply wp_load_dv; [apply hr_bitmap; by eapply start_file_holds|].
  apply wp_bind. eapply wp_load_dv; [apply Hf|]. destruct (rb_eqb _ _); [apply wp_ret, HQ, records_of_nil|].
  apply wp_bind, wp_read_batch. rewrite (hr_batch f Hf).
  apply wp_taken; [done|apply rb_iter_NoDup|by eapply Hpos|done].
Qed.

Lemma wp_by_value f Q :
  f ∈ Fe → (∀ recs, records_of ChangeType.Delete (by_value_of f) recs → Q (Ret (Ok recs)) m) →
  wp m (eq_deleted_rows end_snap vector_column dim schema_fields strict (file_map Fs) predicates f) Q.
Proof.
  intros Hin HQ. pose proof Hfe as Hf. rewrite Forall_forall in Hf. specialize (Hf f Hin). unfold eq_deleted_rows, by_value_of in *.
  destruct (file_map Fs !! df_path f) as [g|] eqn:Eg; [|apply wp_ret, HQ, records_of_nil].
  apply wp_bind. eapply wp_load_dv; [apply hr_bitmap; by eapply start_file_holds|].
  apply wp_bind. eapply wp_load_dv; [apply Hf|].
  apply wp_bind, wp_read_batch. rewrite (hr_batch f Hf).
  apply wp_taken; [done|apply sort_dedup_NoDup| |done]. apply Forall_forall. intros i Hi. rewrite all_deleted_elem in Hi.
  destruct Hi as [Hi|Hi].
  - pose proof (Hpos f g Hin Eg) as Hp. rewrite Forall_forall in Hp. by apply Hp.
  - pose proof (matched_range f Hf) as Hp. rewrite Forall_forall in Hp. by apply Hp.
Qed.

(** What the four passes find. *)
Definition deleted_in_pass : list (list (string * option string)) :=
  (Fs ≫= removed_of) ++ (Fe ≫= by_position_of) ++
  match predicates with [] => [] | _ => Fe ≫= by_value_of end.

Lemma wp_changes_between ds de Q :
  predicates_in ds de = Ok predicates →
  (∀ recs, Forall (row_record types) recs → Forall (λ rec, rec = change_of end_snap (cr_change_type rec) (cr_row rec)) recs →
    record_rows ns ChangeType.Insert recs = Fe ≫= inserted_of →
    record_rows ns ChangeType.Delete recs = deleted_in_pass → Q (Ret (Ok recs)) m) →
  wp m (changes_between end_snap vector_column dim schema_fields strict Fs Fe ds de) Q.
Proof.
  intros Hp HQ. unfold changes_between. cbv zeta.
  apply wp_bind. eapply (wp_map_ok m _ (λ f, records_of ChangeType.Insert (inserted_of f))).
  { intros f R Hin HR. by apply wp_inserted. }
  intros ins Hins%records_of_join. apply wp_bind. eapply (wp_map_ok m _ (λ f, records_of ChangeType.Delete (removed_of f))).
  { intros f R Hin HR. by apply wp_removed. }
  intros rem Hrem%records_of_join. apply wp_bind. eapply (wp_map_ok m _ (λ f, records_of ChangeType.Delete (by_position_of f))).
  { intros f R Hin HR. by apply wp_by_position. }
  intros pos Hdv%records_of_join. apply wp_bind, wp_collect. rewrite Hp. apply wp_bind.
  assert (Hlast : ∀ val, records_of ChangeType.Delete (match predicates with [] => [] | _ => Fe ≫= by_value_of end) (mjoin val) →
    wp m (mret (mjoin ins ++ mjoin rem ++ mjoin pos ++ mjoin val)) Q).
  { intros val Hval. apply wp_ret, HQ.
    - repeat apply Forall_app_2; [apply Hins|apply Hrem|apply Hdv|apply Hval].
    - repeat apply Forall_app_2; [destruct Hins as (_ & Hl & _)|destruct Hrem as (_ & Hl & _)|destruct Hdv as (_ & Hl & _)
        |destruct Hval as (_ & Hl & _)]; (eapply Forall_impl; [exact Hl|]; intros rec ->; done).
    - rewrite !record_rows_app, (records_of_rows _ _ _ _ Hins), (records_of_rows _ _ _ _ Hrem),
        (records_of_rows _ _ _ _ Hdv), (records_of_rows _ _ _ _ Hval). cbn. by rewrite app_nil_r.
    - rewrite !record_rows_app, (records_of_rows _ _ _ _ Hins), (records_of_rows _ _ _ _ Hrem),
        (records_of_rows _ _ _ _ Hdv), (records_of_rows _ _ _ _ Hval). done. }
  destruct predicates as [|p ps] eqn:Eps; [apply wp_ret; apply (Hlast []), records_of_nil|]. rewrite <- Eps in *.
  eapply (wp_map_ok m _ (λ f, records_of ChangeType.Delete (by_value_of f))).
  { intros f R Hin HR. by apply wp_by_value. }
  intros val Hval%records_of_join. by apply Hlast.
Qed.

(* ------------------------------------------------------------------ *)
(** ** The balance of a step                                           *)
(* ------------------------------------------------------------------ *)

(** The rows of a file that a scan with a filter shows. *)
Definition shown (flt : EqualityDeleteFilter) (f : DataFileEntry) (i : Z) : Prop :=
  dv_hides (bitmap_of f) i = false ∧ deleted_by_value flt (batch_of f) i (df_sequence_number f) = false.
#[local] Instance shown_dec flt f i : Decision (shown flt f i).
Proof. unfold shown. apply _. Defined.
Definition live_of (flt : EqualityDeleteFilter) (f : DataFileEntry) : list (list (string * option string)) :=
  cells_at f (filter (shown flt f) (rows_of f)).

Definition kept (f g : DataFileEntry) : Prop := f ∈ Fe ∧ file_map Fs !! df_path f = Some g.

(** What the balance of a step needs, in terms of what the reader matches; [clean_steps]
    gives it for the steps between two snapshots that are [clean]. *)
Record clean_step (fS fE : EqualityDeleteFilter) : Prop := {
  cl_start_paths : NoDup (df_path <$> Fs);
  cl_end_paths : NoDup (df_path <$> Fe);
  cl_added f i : f ∈ Fe → df_path f ∉ df_path <$> Fs → i ∈ rows_of f → dv_hides (bitmap_of f) i = false → shown fE f i;
  cl_removed g i : g ∈ Fs → df_path g ∉ df_path <$> Fe → i ∈ rows_of g → shown fS g i;
  cl_grows f g i : kept f g → i ∈ rows_of f → dv_hides (bitmap_of g) i = true → dv_hides (bitmap_of f) i = true;
  cl_equality f g i : kept f g → i ∈ rows_of f →
    deleted_by_value fE (batch_of f) i (df_sequence_number f) =
    deleted_by_value fS (batch_of g) i (df_sequence_number g) || bool_decide (i ∈ matched f);
  cl_fresh f g i : kept f g → i ∈ diff_of g f ∨ i ∈ matched f → shown fS g i;
  cl_one_kind : predicates = [] ∨ ∀ f g, kept f g → rb_eqb (dv_bitmap (bitmap_of g)) (dv_bitmap (bitmap_of f)) = true;
}.

Lemma same_batch f g : kept f g → batch_of g = batch_of f.
Proof.
  intros [Hf Hg]. pose proof (start_file_holds f g Hg) as Hhg. rewrite Forall_forall in Hfe.
  pose proof (hr_batch g Hhg) as Eg. pose proof (hr_batch f (Hfe f Hf)) as Ef. apply file_map_in in Hg as [_ Hp].
  unfold file_batch in Eg, Ef. rewrite Hp, Ef in Eg. congruence.
Qed.

Lemma diff_elem g f i : i ∈ diff_of g f ↔ rb_contains (dv_bitmap (bitmap_of f)) i = true ∧ rb_contains (dv_bitmap (bitmap_of g)) i = false.
Proof.
  unfold diff_of, diff_dv. rewrite rb_iter_elem, rb_contains_sub. rewrite andb_true_iff, negb_true_iff. done.
Qed.

Lemma dv_hides_bitmap bm i : 0 ≤ i < 2 ^ 32 → dv_hides bm i = rb_contains (dv_bitmap bm) i.
Proof.
  intros Hi. unfold dv_hides. destruct bm as [bm|]; cbn; [by rewrite wrap_id by (unfold fits; lia)|].
  by rewrite rb_contains_new.
Qed.

(** The rows reported as deleted from a file in both snapshots. *)
Lemma kept_deleted fS fE f g :
  clean_step fS fE → kept f g →
  ∃ D, NoDup D ∧ (∀ i, i ∈ D ↔ i ∈ diff_of g f ∨ i ∈ matched f) ∧
    by_position_of f ++ match predicates with [] => [] | _ => by_value_of f end = cells_at f D.
Proof.
  intros Hc [Hf Hg]. unfold by_position_of, by_value_of. rewrite Hg.
  assert (Heq : rb_eqb (dv_bitmap (bitmap_of g)) (dv_bitmap (bitmap_of f)) = true → diff_of g f = []).
  { intros Heq. apply elem_of_nil_inv. intros i [Hi Hn]%diff_elem. rewrite rb_eqb_spec in Heq. rewrite Heq in Hn. congruence. }
  destruct (cl_one_kind _ _ Hc) as [E|E].
  - exists (diff_of g f). split; [apply rb_iter_NoDup|]. split.
    + intros i. assert (matched f = []) as ->; [by unfold matched; rewrite E|]. set_solver.
    + rewrite E, app_nil_r. destruct (rb_eqb _ _) eqn:Eb; [|done]. by rewrite (Heq eq_refl).
  - rewrite (E f g) by done. specialize (Heq (E f g (conj Hf Hg))). destruct predicates as [|p ps] eqn:Eps.
    + exists []. split; [constructor|]. split; [|done]. intros i. rewrite Heq.
      assert (matched f = []) as ->; [by unfold matched; rewrite Eps|]. set_solver.
    + exists (all_deleted (diff_of g f) (matched f)). split; [apply sort_dedup_NoDup|].
      split; [intros i; apply all_deleted_elem|done].
Qed.

Lemma kept_balance fS fE f g :
  clean_step fS fE → kept f g →
  live_of fS g ≡ₚ live_of fE f ++ by_position_of f ++ match predicates with [] => [] | _ => by_value_of f end.
Proof.
  intros Hc Hk. destruct (kept_deleted fS fE f g Hc Hk) as (D & Hnd & HD & ->).
  pose proof Hk as [Hf Hg]. pose proof (same_batch f g Hk) as Hb. unfold live_of, cells_at, rows_of. rewrite Hb, <- fmap_app.
  pose proof Hfe as Hh. rewrite Forall_forall in Hh. specialize (Hh f Hf). pose proof (hr_rows f Hh) as Hlt.
  apply fmap_Permutation, NoDup_Permutation.
  - apply NoDup_filter, NoDup_seqZ.
  - apply NoDup_app. split; [apply NoDup_filter, NoDup_seqZ|]. split; [|done].
    intros i [[Hdv Hsd] Hi]%list_elem_of_filter HiD. apply HD in HiD. pose proof (proj1 (elem_of_seqZ _ _ _) Hi) as Hr.
    destruct HiD as [HiD|HiD].
    + apply diff_elem in HiD as [HiD _]. rewrite dv_hides_bitmap in Hdv by lia. congruence.
    + rewrite (cl_equality _ _ Hc f g i Hk Hi) in Hsd. apply orb_false_iff in Hsd as [_ Hsd].
      by apply bool_decide_eq_false in Hsd.
  - intros i. rewrite elem_of_app, !list_elem_of_filter, HD. unfold shown. split.
    + intros [[Hdv Hsd] Hi]. pose proof (proj1 (elem_of_seqZ _ _ _) Hi) as Hr.
      destruct (decide (i ∈ matched f)) as [Hm|Hm]; [tauto|].
      destruct (dv_hides (bitmap_of f) i) eqn:Edv.
      * right. left. apply diff_elem. rewrite !dv_hides_bitmap in * by lia. done.
      * left. split; [|done]. split; [done|]. rewrite (cl_equality _ _ Hc f g i Hk Hi), Hsd. by apply bool_decide_eq_false.
    + intros [[[Hdv Hsd] Hi]|Hi].
      * split; [|done]. rewrite (cl_equality _ _ Hc f g i Hk Hi) in Hsd. apply orb_false_iff in Hsd as [Hsd _].
        split; [|done]. destruct (dv_hides (bitmap_of g) i) eqn:Eg; [|done]. by rewrite (cl_grows _ _ Hc f g i Hk Hi Eg) in Hdv.
      * split; [by apply (cl_fresh _ _ Hc f g i Hk)|]. apply elem_of_seqZ. destruct Hi as [Hi|Hi].
        { pose proof (Hpos f g Hf Hg) as Hp. rewrite Forall_forall in Hp. specialize (Hp i Hi). lia. }
        { pose proof (matched_range f Hh) as Hp. rewrite Forall_forall in Hp. specialize (Hp i Hi). lia. }
Qed.

(** The files both snapshots have, and those only one has. *)
Definition in_start (f : DataFileEntry) : Prop := df_path f ∈ df_path <$> Fs.
Definition in_end (g : DataFileEntry) : Prop := df_path g ∈ df_path <$> Fe.
#[local] Instance in_start_dec f : Decision (in_start f).
Proof. unfold in_start. apply _. Defined.
#[local] Instance in_end_dec g : Decision (in_end g).
Proof. unfold in_end. apply _. Defined.
Definition start_of (f : DataFileEntry) : DataFileEntry := default f (file_map Fs !! df_path f).

Lemma start_of_kept f : f ∈ filter in_start Fe → file_map Fs !! df_path f = Some (start_of f) ∧ kept f (start_of f).
Proof.
  intros [Hk Hf]%list_elem_of_filter. apply file_map_known in Hk as [g Hg]. unfold start_of, kept. by rewrite Hg.
Qed.

Lemma kept_files fS fE : clean_step fS fE → filter in_end Fs ≡ₚ start_of <$> filter in_start Fe.
Proof.
  intros Hc. pose proof (cl_start_paths _ _ Hc) as Hns. pose proof (cl_end_paths _ _ Hc) as Hne.
  assert (Hp : ∀ f, f ∈ filter in_start Fe → start_of f ∈ Fs ∧ df_path (start_of f) = df_path f).
  { intros f Hf. apply file_map_in. by apply start_of_kept. }
  apply NoDup_Permutation.
  - apply NoDup_filter. exact (NoDup_fmap_1 _ _ Hns).
  - apply (NoDup_fmap_1 df_path). rewrite <- list_fmap_compose.
    assert ((df_path ∘ start_of) <$> filter in_start Fe = df_path <$> filter in_start Fe) as ->.
    { apply Forall_fmap_ext_1, Forall_forall. intros f Hf. by apply Hp. }
    eapply sublist_NoDup; [exact Hne|]. apply fmap_sublist, sublist_filter.
  - intros g. rewrite list_elem_of_filter, list_elem_of_fmap. split.
    + intros [(f & Hpath & Hf)%list_elem_of_fmap Hg]. exists f.
      assert (Hfg : file_map Fs !! df_path f = Some g) by (by apply file_map_lookup).
      unfold start_of. rewrite Hfg. split; [done|]. apply list_elem_of_filter. split; [|done].
      apply file_map_known. eauto.
    + intros (f & -> & Hf). destruct (Hp f Hf) as [Hg Hpath]. split; [|done]. unfold in_end. rewrite Hpath.
      apply list_elem_of_fmap_2. apply list_elem_of_filter in Hf as [_ Hf]. exact Hf.
Qed.

(** The rows of both snapshots and the reported ones balance. *)
Lemma step_balance fS fE :
  clean_step fS fE →
  (Fs ≫= live_of fS) ++ (Fe ≫= inserted_of) ≡ₚ (Fe ≫= live_of fE) ++ deleted_in_pass.
Proof.
  intros Hc. set (val := λ f, match predicates with [] => [] | _ => by_value_of f end).
  assert (Hval : match predicates with [] => [] | _ => Fe ≫= by_value_of end = Fe ≫= val).
  { unfold val. destruct predicates; [|done]. symmetry. by apply bind_nil. }
  unfold deleted_in_pass. rewrite Hval.
  rewrite (bind_split in_end Fs), (bind_split in_start Fe), (bind_split in_start Fe (live_of fE)).
  rewrite (bind_split in_end Fs removed_of), (bind_split in_start Fe by_position_of), (bind_split in_start Fe val).
  set (K := filter in_start Fe) in *. set (N := filter (λ f, ¬ in_start f) Fe). set (R := filter (λ g, ¬ in_end g) Fs).
  assert (HN : ∀ f, f ∈ N → f ∈ Fe ∧ df_path f ∉ df_path <$> Fs ∧ file_map Fs !! df_path f = None).
  { intros f [Hn Hf]%list_elem_of_filter. split; [done|]. split; [done|].
    apply eq_None_not_Some. by rewrite file_map_known. }
  rewrite (bind_nil K inserted_of), (bind_nil N by_position_of), (bind_nil N val), (bind_nil (filter in_end Fs) removed_of).
  2: { intros g [Hg _]%list_elem_of_filter. unfold removed_of. by rewrite decide_True. }
  2: { intros f Hf. unfold val, by_value_of. destruct (HN f Hf) as (_ & _ & ->). by destruct predicates. }
  2: { intros f Hf. unfold by_position_of. by destruct (HN f Hf) as (_ & _ & ->). }
  2: { intros f [Hf _]%list_elem_of_filter. unfold inserted_of. by rewrite decide_True. }
  rewrite (bind_ext_in N inserted_of (live_of fE)), (bind_ext_in R removed_of (live_of fS)).
  2: { intros g [Hg Hin]%list_elem_of_filter. unfold removed_of. rewrite decide_False by done. unfold live_of.
       rewrite filter_all; [done|]. intros i Hi. by apply (cl_removed _ _ Hc). }
  2: { intros f Hf. destruct (HN f Hf) as (Hin & Hn & _). unfold inserted_of. rewrite decide_False by done. unfold live_of.
       f_equal. apply filter_ext_in. intros i Hi. split; [by apply (cl_added _ _ Hc)|by intros [? _]]. }
  assert (HK : filter in_end Fs ≫= live_of fS ≡ₚ (K ≫= live_of fE) ++ (K ≫= by_position_of) ++ (K ≫= val)).
  { rewrite (kept_files fS fE Hc), list_fmap_bind, <- !bind_app_fun. apply bind_perm_ext. intros f Hf.
    by apply kept_balance, start_of_kept. }
  rewrite HK, !app_nil_r. cbn [app]. generalize (K ≫= live_of fE), (K ≫= by_position_of), (K ≫= val).
  generalize (R ≫= live_of fS), (N ≫= live_of fE). intros l1 l2 l3 l4 l5. solve_Permutation.
Qed.

End Passes.

(* ------------------------------------------------------------------ *)
(** ** Reading the changes                                             *)
(* ------------------------------------------------------------------ *)

Section Replay.
Context {S : Type} `{ReliableReads S} `{!ReliableRanges S} `{AvroLib} `{SerdeLib} `{JsonLib} `{FloatText}.
Context `{RoaringLaws} `{!BitmapOps} `{!BitmapOpsLaws}.
Context {PL : ParquetLib} {IL : IndexLib} {AL : ArrowLib} {RL : ArrayLib} {QL : QueryLib} `{!ArrayLaws} `{!ArrowLaws}.

(** What the files of the two snapshots hold, read with the settings of the table. *)
Record ChangeData : Type := mk_change_data {
  cd_types : gmap string ArrowTy.t;
  cd_batch : DataFileEntry → RecordBatch;
  cd_bitmap : DataFileEntry → option Bitmap;
  cd_start : list DataFileEntry;
  cd_end : list DataFileEntry;
  cd_start_filter : EqualityDeleteFilter;
  cd_end_filter : EqualityDeleteFilter;
  cd_predicates : list (string * string * Z);
}.

(** The rows of a listing that a scan shows, by the names [ns]. *)
Definition shown_rows (ns : list string) (cd : ChangeData) (fs : list DataFileEntry) (flt : EqualityDeleteFilter)
    : list (list (string * option string)) :=
  fs ≫= live_of ns (cd_batch cd) (cd_bitmap cd) flt.

(** The metadata [meta] of the table, its two snapshots, and their contents in [m]. *)
Record replayable (m : gmap string bytes) (meta : IcebergMetadata) (config : ChangeReaderConfig)
    (start_id end_id : Z) (end_snap : IcebergSnapshot) (cd : ChangeData) : Prop := {
  rp_ids : resolve_snapshots meta (rc_start_snapshot_id config) (rc_end_snapshot_id config) = Ok (start_id, end_id);
  rp_start : is_ok (Cdc.find_snapshot meta start_id) = true;
  rp_end : Cdc.find_snapshot meta end_id = Ok end_snap;
  rp_start_files : files_in m meta (Some start_id) = Ok (cd_start cd);
  rp_end_files : files_in m meta (Some end_id) = Ok (cd_end cd);
  rp_deletes : ∃ ds de, deletes_in m meta (Some start_id) = Ok ds ∧ deletes_in m meta (Some end_id) = Ok de ∧
    filter_in m ds = Ok (cd_start_filter cd) ∧ filter_in m de = Ok (cd_end_filter cd) ∧
    predicates_in m ds de = Ok (cd_predicates cd);
  rp_holds : Forall (holds_rows m (cdc_vector_column meta) (cdc_dim meta) (tm_schema_fields (to_table_metadata meta))
    (cd_types cd) (cd_batch cd) (cd_bitmap cd)) (cd_start cd ++ cd_end cd);
  rp_positions : positions_exist (cd_batch cd) (cd_bitmap cd) (cd_start cd) (cd_end cd);
  rp_envelope : no_envelope (cd_types cd);
  rp_columns : cd_types cd ≠ ∅;
}.

(** A delete file of one column: the column, its values and the sequence number. *)
Definition delete_holds (m : gmap string bytes) (ed : EqualityDeleteFile) (v : string * list string * Z) : Prop :=
  ed_inline_values ed = None ∧ values_in m ed = Ok (pair v.1.1 <$> v.1.2) ∧ v.2 = ed_sequence_number ed ∧ v.1.2 ≠ [].

(** The step is one the reader can tell apart.  Delete files are only added, each for one
    column of a readable type; a file in both snapshots keeps its sequence number, and its
    deletion vector only grows; rows of added files are not deleted by value, rows of
    removed files were not deleted at all; a row is hidden once, and by vectors or by
    values in the whole step. *)
Record clean (m : gmap string bytes) (meta : IcebergMetadata) (start_id end_id : Z) (cd : ChangeData)
    (new : list (string * list string * Z)) : Prop := {
  cn_start_paths : NoDup (df_path <$> cd_start cd);
  cn_end_paths : NoDup (df_path <$> cd_end cd);
  cn_deletes : ∃ ds added, deletes_in m meta (Some start_id) = Ok ds ∧
    deletes_in m meta (Some end_id) = Ok (ds ++ added) ∧
    Forall (λ ed, ed_path ed ∉ ed_path <$> ds) added ∧ Forall2 (delete_holds m) added new;
  cn_plain f g : kept (cd_start cd) (cd_end cd) f g → Forall (plain (cd_batch cd f)) new;
  cn_sequence f g : kept (cd_start cd) (cd_end cd) f g → df_sequence_number f = df_sequence_number g;
  cn_grows f g i : kept (cd_start cd) (cd_end cd) f g → i ∈ rows_of (cd_batch cd) f →
    dv_hides (cd_bitmap cd g) i = true → dv_hides (cd_bitmap cd f) i = true;
  cn_added f i : f ∈ cd_end cd → df_path f ∉ df_path <$> cd_start cd → i ∈ rows_of (cd_batch cd) f →
    deleted_by_value (cd_end_filter cd) (cd_batch cd f) i (df_sequence_number f) = false;
  cn_removed g i : g ∈ cd_start cd → df_path g ∉ df_path <$> cd_end cd → i ∈ rows_of (cd_batch cd) g →
    shown (cd_batch cd) (cd_bitmap cd) (cd_start_filter cd) g i;
  cn_once f g i : kept (cd_start cd) (cd_end cd) f g → i ∈ rows_of (cd_batch cd) f →
    dv_hides (cd_bitmap cd f) i = true ∧ dv_hides (cd_bitmap cd g) i = false ∨
    deleted_by_value (filter_of new) (cd_batch cd f) i (df_sequence_number f) = true →
    shown (cd_batch cd) (cd_bitmap cd) (cd_start_filter cd) g i;
  cn_one_kind : new = [] ∨ ∀ f g, kept (cd_start cd) (cd_end cd) f g →
    rb_eqb (dv_bitmap (cd_bitmap cd g)) (dv_bitmap (cd_bitmap cd f)) = true;
}.

(** What the filter of a scan and the reader make of the added delete files. *)
Lemma added_filter m ds added new fS fE :
  Forall2 (delete_holds m) added new → filter_in m ds = Ok fS → filter_in m (ds ++ added) = Ok fE →
  fE = fS ++ filter_of new.
Proof.
  intros Hnew HS%try_map_Ok HE%try_map_Ok. apply Forall2_app_inv_l in HE as (l1 & l & Hds1 & Hl & ->).
  assert (l1 = fS) as ->.
  { clear -HS Hds1. revert l1 Hds1. induction HS as [|ed x ds fS Hx _ IH]; intros l1 Hl1; inversion Hl1; subst; [done|].
    f_equal; [congruence|auto]. }
  f_equal. clear -Hnew Hl. revert l Hl.
  induction Hnew as [|ed [[col texts] seq] added new (Hin & Hv & Hseq & Hne) _ IH]; intros l Hl; [by inversion Hl|].
  inversion Hl as [|? y ? ys Hy Hys]; subst. cbn [fst snd] in *. subst seq.
  change (filter_of ((col, texts, ed_sequence_number ed) :: new)) with
    ((ed_sequence_number ed, {[col := list_to_set texts]} : gmap string (gset string)) :: filter_of new).
  assert (Eys : ys = filter_of new) by (by apply IH). rewrite Eys. f_equal. unfold values_in in Hv. rewrite Hin in Hv.
  destruct (m !! ed_path ed) as [d|]; [|done]. cbn [ok_or mbind result_bind] in Hv, Hy.
  destruct (read_equality_delete_values d) as [ps|]; [|done]. injection Hv as ->. injection Hy as <-.
  by rewrite predicate_of_column.
Qed.

Lemma added_predicates m ds added new preds :
  Forall2 (delete_holds m) added new → Forall (λ ed, ed_path ed ∉ ed_path <$> ds) added →
  predicates_in m ds (ds ++ added) = Ok preds → preds = predicates_of new.
Proof.
  intros Hnew Hfresh. unfold predicates_in, new_deletes. rewrite filter_app.
  rewrite filter_none by (intros ed Hed Hn; by apply Hn, list_elem_of_fmap_2).
  rewrite filter_all by (intros ed Hed; rewrite Forall_forall in Hfresh; by apply Hfresh). cbn [app].
  destruct (try_map _ added) as [l|] eqn:Hl; [|done]. intros [= <-]. clear Hfresh. apply try_map_Ok in Hl. revert l Hl.
  induction Hnew as [|ed [[col texts] seq] added new (Hin & Hv & Hseq & Hne) _ IH]; intros l Hl; [by inversion Hl|].
  inversion Hl as [|? y ? ys Hy Hys]; subst. cbn [fst snd] in *. subst seq. rewrite Hv in Hy. injection Hy as <-.
  rewrite mjoin_cons, (IH ys Hys). unfold predicates_of at 2. rewrite bind_cons. f_equal.
  by rewrite <- list_fmap_compose.
Qed.

(** A clean step meets the conditions of [step_balance]. *)
Lemma clean_steps m meta config start_id end_id end_snap cd new :
  replayable m meta config start_id end_id end_snap cd → clean m meta start_id end_id cd new →
  clean_step (cd_batch cd) (cd_bitmap cd) (cd_start cd) (cd_end cd) (cd_predicates cd) (cd_start_filter cd) (cd_end_filter cd).
Proof.
  intros Hr Hc. pose proof (rp_holds _ _ _ _ _ _ _ Hr) as [Hhs Hhe]%Forall_app.
  destruct (rp_deletes _ _ _ _ _ _ _ Hr) as (ds0 & de & Hds0 & Hde & HfS & HfE & Hp).
  destruct (cn_deletes _ _ _ _ _ _ Hc) as (ds & added & Hds & Hadd & Hfresh & Hnew).
  rewrite Hds in Hds0. injection Hds0 as <-. rewrite Hadd in Hde. injection Hde as <-.
  pose proof (added_filter _ _ _ _ _ _ Hnew HfS HfE) as EfE. pose proof (added_predicates _ _ _ _ _ Hnew Hfresh Hp) as Ep.
  assert (Hrows : ∀ f g, kept (cd_start cd) (cd_end cd) f g → num_rows (cd_batch cd f) < 2 ^ 32).
  { intros f g [Hf _]. rewrite Forall_forall in Hhe. eapply hr_rows. by apply Hhe. }
  assert (Hm : ∀ f g i, kept (cd_start cd) (cd_end cd) f g → i ∈ rows_of (cd_batch cd) f →
    deleted_by_value (filter_of new) (cd_batch cd f) i (df_sequence_number f) =
    bool_decide (i ∈ matched (cd_batch cd) (cd_predicates cd) f)).
  { intros f g i Hk Hi%elem_of_seqZ. unfold matched. rewrite Ep. specialize (Hrows f g Hk).
    apply plain_deletes_agree; [by eapply (cn_plain _ _ _ _ _ _ Hc)|lia|lia]. }
  assert (Hrange : ∀ f g i, kept (cd_start cd) (cd_end cd) f g →
    i ∈ diff_of (cd_bitmap cd) g f ∨ i ∈ matched (cd_batch cd) (cd_predicates cd) f → i ∈ rows_of (cd_batch cd) f).
  { intros f g i [Hf Hg] Hi. apply elem_of_seqZ. destruct Hi as [Hi|Hi].
    - pose proof (rp_positions _ _ _ _ _ _ _ Hr f g Hf Hg) as Hpos. rewrite Forall_forall in Hpos. specialize (Hpos i Hi). lia.
    - rewrite Forall_forall in Hhe. assert (Hmr : Forall (λ j, 0 ≤ j < num_rows (cd_batch cd f)) (matched (cd_batch cd) (cd_predicates cd) f))
        by (eapply matched_range; by apply Hhe). rewrite Forall_forall in Hmr. specialize (Hmr i Hi). lia. }
  constructor; try apply Hc.
  - intros f i Hf Hn Hi Hdv. split; [done|]. by apply (cn_added _ _ _ _ _ _ Hc).
  - intros f g i Hk Hi. rewrite <- (Hm f g i Hk Hi), EfE. unfold deleted_by_value at 1. rewrite existsb_app. f_equal.
    rewrite (cn_sequence _ _ _ _ _ _ Hc f g Hk).
    assert (Eb : cd_batch cd g = cd_batch cd f) by (eapply same_batch; [exact Hhs|exact Hhe|exact Hk]). by rewrite Eb.
  - intros f g i Hk Hi. pose proof (Hrange f g i Hk Hi) as Hir. apply (cn_once _ _ _ _ _ _ Hc f g i Hk Hir).
    rewrite (Hm f g i Hk Hir), bool_decide_eq_true. destruct Hi as [Hi|Hi]; [left|by right].
    apply diff_elem in Hi. specialize (Hrows f g Hk). apply elem_of_seqZ in Hir.
    by rewrite !dv_hides_bitmap by lia.
  - destruct (cn_one_kind _ _ _ _ _ _ Hc) as [->|Hk]; [left; by rewrite Ep|by right].
Qed.

(** A batch with the rows of the four passes, each naming the end snapshot. *)
Definition reports (ns : list string) (cd : ChangeData) (end_snap : IcebergSnapshot) (b : RecordBatch) : Prop :=
  change_rows ns ChangeType.Insert b = cd_end cd ≫= inserted_of ns (cd_batch cd) (cd_bitmap cd) (cd_start cd) ∧
  change_rows ns ChangeType.Delete b =
    deleted_in_pass ns (cd_batch cd) (cd_bitmap cd) (cd_start cd) (cd_end cd) (cd_predicates cd) ∧
  ∀ k, 0 ≤ k < num_rows b → cell_of b "_snapshot_id" k = Some (to_string (sn_snapshot_id end_snap)).

(** Without update pairing, that batch is returned. *)
Lemma wp_read_changes m cp_load_raw_metadata meta order config start_id end_id end_snap cd ns Q :
  (∀ R, R (Ret (Ok meta)) m → wp m cp_load_raw_metadata R) →
  replayable m meta config start_id end_id end_snap cd →
  rc_coalesce_updates config = false → Forall (λ n, n ∉ envelope_names) ns →
  (∀ b, reports ns cd end_snap b → Q (Ret (Ok b)) m) →
  wp m (read_changes cp_load_raw_metadata order config) Q.
Proof.
  intros Hload [Hids Hstart Hend Hfs Hfe (ds & de & Hds & Hde & HfS & HfE & Hp) Hh Hpos Henv Hne] Hco Hns HQ.
  apply Forall_app in Hh as [Hhs Hhe].
  unfold read_changes. apply wp_bind, Hload, wp_bind, wp_result. rewrite Hids. apply wp_bind, wp_result.
  destruct (Cdc.find_snapshot meta start_id) as [ss|]; [|done]. apply wp_bind, wp_result. rewrite Hend. cbv zeta.
  apply wp_bind, wp_list_files. rewrite Hfs. apply wp_bind, wp_list_files. rewrite Hfe.
  apply wp_bind, wp_list_deletes. rewrite Hds. apply wp_bind, wp_list_deletes. rewrite Hde.
  apply wp_bind. eapply (wp_changes_between m); [exact Hhs|exact Hhe|exact Hpos|exact Hp|].
  intros recs Hrec Hend' Hins Hdel. apply wp_bind. rewrite Hco. cbn [andb]. apply wp_ret.
  destruct (build_change_batch_ok (cd_types cd) recs Henv Hne Hrec) as (b & Eb & Hnb & Hsays). rewrite Eb.
  apply wp_outcome, HQ. split; [by rewrite (change_rows_says _ _ _ recs)|]. split; [by rewrite (change_rows_says _ _ _ recs)|].
  intros k Hk. destruct (lookup_lt_is_Some_2 recs (Z.to_nat k)) as [rec Hrk]; [lia|].
  destruct (Hsays _ _ Hrk) as (_ & _ & Hid & _). rewrite Z2Nat.id in Hid by lia. rewrite Hid.
  rewrite Forall_forall in Hend'. by rewrite (Hend' rec (list_elem_of_lookup_2 _ _ _ Hrk)).
Qed.


(** C40: a row that a deletion vector hid is reported as deleted twice when values were
    deleted in the same interval: the pass over the delete files collects the positions
    of the vectors once more, for every file of both snapshots. *)
Theorem dv_delete_reported_twice s cp_load_raw_metadata meta order config start_id end_id end_snap cd ns f g i :
  store_inv s →
  (∀ Q, Q (Ret (Ok meta)) (view s) → wp (view s) cp_load_raw_metadata Q) →
  replayable (view s) meta config start_id end_id end_snap cd →
  rc_coalesce_updates config = false → Forall (λ n, n ∉ envelope_names) ns →
  cd_predicates cd ≠ [] → f ∈ cd_end cd → file_map (cd_start cd) !! df_path f = Some g →
  i ∈ diff_of (cd_bitmap cd) g f →
  ∃ b rest, (read_changes cp_load_raw_metadata order config s).2 = Ret (Ok b) ∧
    change_rows ns ChangeType.Delete b ≡ₚ
      named_cells ns (cd_batch cd f) i :: named_cells ns (cd_batch cd f) i :: rest.
Proof.
  intros Hi Hload Hr Hco Hns Hp Hf Hg Hdiff.
  destruct (wp_run s (view s) (read_changes cp_load_raw_metadata order config) (λ o m', ∃ b, o = Ret (Ok b) ∧ reports ns cd end_snap b))
    as (m' & _ & b & E & _ & Hdel & _); [by eapply wp_read_changes; eauto|done|].
  exists b. rewrite Hdel. set (row := named_cells ns (cd_batch cd f) i).
  assert (Hpos : row ∈ cd_end cd ≫= by_position_of ns (cd_batch cd) (cd_bitmap cd) (cd_start cd)).
  { apply list_elem_of_bind. exists f. split; [|done]. unfold by_position_of. rewrite Hg.
    destruct (rb_eqb _ _) eqn:Eb; [|by apply list_elem_of_fmap_2]. exfalso.
    apply diff_elem in Hdiff as [Hx Hy]. rewrite rb_eqb_spec in Eb. rewrite Eb in Hy. congruence. }
  assert (Hval : row ∈ cd_end cd ≫= by_value_of ns (cd_batch cd) (cd_bitmap cd) (cd_start cd) (cd_predicates cd)).
  { apply list_elem_of_bind. exists f. split; [|done]. unfold by_value_of. rewrite Hg. apply list_elem_of_fmap_2.
    apply all_deleted_elem. by left. }
  apply elem_of_Permutation in Hpos as [r1 H1']. apply elem_of_Permutation in Hval as [r2 H2'].
  exists ((cd_start cd ≫= removed_of ns (cd_batch cd) (cd_end cd)) ++ r1 ++ r2). split; [done|].
  unfold deleted_in_pass. destruct (cd_predicates cd) as [|p ps] eqn:Eps; [done|]. rewrite H1', H2'.
  generalize (cd_start cd ≫= removed_of ns (cd_batch cd) (cd_end cd)). clearbody row. clear. intros l. solve_Permutation.
Qed.

End Replay.
