(* ===== verification/CdcUpdates.v ===== *)
(** * Change capture: updates

    The pairing of deletes and inserts of one key into updates keeps the rows when the
    pairs come in the order of their deletes, and can lose updates when the hash map of
    keys yields another order. *)

From S2P Require Import Prelude Core FileFormat Json Catalog ArrowSchema Arrow Arrays Deletes Search Cdc CdcRows.

(* ------------------------------------------------------------------ *)
(** ** Pairing deletes with inserts                                    *)
(* ------------------------------------------------------------------ *)

Section Updates.
Context {PL : ParquetLib} {AL : ArrowLib} {RL : ArrayLib}.
Context (ns : list string).
Implicit Types (records : list ChangeRecord) (pairs : list (nat * nat)).

Definition is_type (records : list ChangeRecord) (c : ChangeType.t) (i : nat) : Prop :=
  cr_change_type <$> records !! i = Some c.
#[local] Instance is_type_dec records c i : Decision (is_type records c i).
Proof. unfold is_type. apply _. Defined.

(** The positions a key map lists are records of its type. *)
Lemma positions_typed c (keys : list string) records key i :
  length keys = length records →
  i ∈ default [] (positions_by_pk c (zip keys records) !! key) → is_type records c i.
Proof.
  intros Hl. unfold positions_by_pk.
  set (step := λ m '(i, (key, rec)), if decide (cr_change_type rec = c) then <[key := default [] (m !! key) ++ [i]]> m else m).
  assert (Hstep : ∀ l (m : gmap string (list nat)),
    (∀ key i, i ∈ default [] (m !! key) → is_type records c i) →
    (∀ i k rec, (i, (k, rec)) ∈ l → records !! i = Some rec) →
    ∀ key i, i ∈ default [] (foldl step m l !! key) → is_type records c i).
  { induction l as [|[j [k rec]] l IH]; intros m Hm Hin; [done|]. cbn [foldl]. apply IH; [|intros; eapply Hin; by right].
    intros key' i'. unfold step. case_decide as Hc; [|apply Hm]. destruct (decide (k = key')) as [<-|Hne].
    - rewrite lookup_insert_eq. cbn. rewrite elem_of_app, list_elem_of_singleton. intros [Hi| ->]; [by apply (Hm k)|].
      unfold is_type. rewrite (Hin j k rec) by (by left). cbn. by rewrite Hc.
    - rewrite lookup_insert_ne by done. apply Hm. }
  apply Hstep; [by intros k j ?%elem_of_nil|]. intros j k rec Hin.
  apply list_elem_of_lookup in Hin as [n Hn]. apply lookup_zip_Some in Hn as [Hj Hk].
  apply lookup_seq in Hj as [-> _]. by apply lookup_zip_Some in Hk as [_ Hrec].
Qed.

(** Pairs are a delete and an insert, no position is used twice, and only theirs are used. *)
Record paired (records : list ChangeRecord) (used : gset nat) (pairs : list (nat * nat)) : Prop := {
  pr_used : used = list_to_set (pairs.*1 ++ pairs.*2);
  pr_NoDup : NoDup pairs.*2;
  pr_deletes : Forall (is_type records ChangeType.Delete) pairs.*1;
  pr_inserts : Forall (is_type records ChangeType.Insert) pairs.*2;
}.

Lemma pair_delete_paired records inserts acc del_i :
  Forall (is_type records ChangeType.Insert) inserts → is_type records ChangeType.Delete del_i →
  paired records acc.1 acc.2 → paired records (pair_delete inserts acc del_i).1 (pair_delete inserts acc del_i).2.
Proof.
  intros Hins Hdel Hp. destruct acc as [used pairs]. unfold pair_delete. case_decide as Hu; [done|].
  destruct (List.find _ inserts) as [ins_i|] eqn:Ef; [|done]. apply List.find_some in Ef as [Hin Hn%bool_decide_eq_true].
  apply list_elem_of_In in Hin. rewrite Forall_forall in Hins. destruct Hp as [Hused Hnd Hd Hi]. cbn [fst snd] in *.
  constructor; rewrite ?fmap_app.
  - rewrite Hused, !list_to_set_app_L. cbn. set_solver.
  - apply NoDup_app. split; [done|]. split; [|apply NoDup_singleton]. intros x Hx ->%list_elem_of_singleton.
    apply Hn. rewrite Hused, elem_of_list_to_set, elem_of_app. by right.
  - apply Forall_app. by split; [|constructor].
  - apply Forall_app. split; [done|]. constructor; [by apply Hins|constructor].
Qed.

Lemma pair_up_paired records keys deletes inserts :
  (∀ key, Forall (is_type records ChangeType.Delete) (default [] (deletes !! key))) →
  (∀ key, Forall (is_type records ChangeType.Insert) (default [] (inserts !! key))) →
  paired records (pair_up keys deletes inserts).1 (pair_up keys deletes inserts).2.
Proof.
  intros Hd Hi. unfold pair_up. assert (H0' : paired records (∅, @nil (nat * nat)).1 (∅ : gset nat, @nil (nat * nat)).2).
  { split; cbn; [done|constructor|constructor|constructor]. }
  revert H0'. generalize (∅ : gset nat, @nil (nat * nat)).
  induction keys as [|key keys IH]; intros acc Hacc; [done|]. cbn [foldl]. apply IH. clear IH.
  specialize (Hd key). specialize (Hi key). revert acc Hacc.
  induction Hd as [|j ds Hj _ IH]; intros acc Hacc; [done|]. cbn [foldl]. by apply IH, pair_delete_paired.
Qed.

Lemma record_rows_cons c rec records :
  record_rows ns c (rec :: records) =
  (if decide (cr_change_type rec = c) then [record_cells ns rec] else []) ++ record_rows ns c records.
Proof. unfold record_rows. rewrite filter_cons. by case_decide. Qed.

Ltac settle := repeat case_decide; cbn [fst snd] in *; try (exfalso; intuition congruence); cbn [app].

(** The output loop, from position [i], when the pairs left are those of the deletes left
    in ascending order. *)
Lemma expand_keeps records used i rest pairs :
  drop i records = rest → StronglySorted lt pairs.*1 →
  Forall (λ d, (i ≤ d)%nat ∧ d ∈ used ∧ is_type records ChangeType.Delete d) pairs.*1 →
  Forall (is_type records ChangeType.Insert) pairs.*2 →
  (∀ j, (i ≤ j)%nat → j ∈ used → is_type records ChangeType.Delete j → j ∈ pairs.*1) →
  Forall (λ rec, cr_change_type rec = ChangeType.Insert ∨ cr_change_type rec = ChangeType.Delete) records →
  ∃ out, expand_pairs records used i rest pairs = Ret (Ok out) ∧
    record_rows ns ChangeType.Delete out ++ record_rows ns ChangeType.UpdateBefore out ≡ₚ
      record_rows ns ChangeType.Delete rest ∧
    record_rows ns ChangeType.Insert out ++ record_rows ns ChangeType.UpdateAfter out ≡ₚ
      (record_cells ns <$> (filter (λ jr : nat * ChangeRecord, jr.1 ∉ used ∧ cr_change_type jr.2 = ChangeType.Insert)
                              (zip (seq i (length rest)) rest)).*2) ++
      (record_cells ns <$> omap (λ p : nat * nat, records !! p.2) pairs).
Proof.
  intros Hrest Hs Hd Hi Hall Htypes. revert i pairs Hrest Hs Hd Hi Hall.
  induction rest as [|rec rest IH]; intros i pairs Hrest Hs Hd Hi Hall.
  { assert (pairs = []) as ->.
    { destruct pairs as [|[d x] pairs]; [done|]. inversion Hd as [|? ? (Hle & _ & Ht) _]; subst. exfalso.
      unfold is_type in Ht. rewrite lookup_ge_None_2 in Ht; [done|]. apply (f_equal length) in Hrest.
      rewrite length_drop in Hrest. cbn in Hrest. cbn in Hle. lia. }
    by exists []. }
  assert (Hri : records !! i = Some rec).
  { rewrite <- (Nat.add_0_r i), <- lookup_drop, Hrest. done. }
  assert (Hrest' : drop (Datatypes.S i) records = rest).
  { replace (Datatypes.S i) with (i + 1)%nat by lia. by rewrite <- drop_drop, Hrest. }
  assert (Ht : cr_change_type rec = ChangeType.Insert ∨ cr_change_type rec = ChangeType.Delete).
  { rewrite Forall_forall in Htypes. apply Htypes. by eapply list_elem_of_lookup_2. }
  assert (Hlater : ∀ ps, Forall (λ d, (i ≤ d)%nat ∧ d ∈ used ∧ is_type records ChangeType.Delete d) ps → i ∉ ps →
    Forall (λ d, (Datatypes.S i ≤ d)%nat ∧ d ∈ used ∧ is_type records ChangeType.Delete d) ps).
  { intros ps Hps Hn. rewrite Forall_forall in Hps |- *. intros d Hin. destruct (Hps d Hin) as (Hle & Hx).
    split; [|done]. destruct (decide (d = i)) as [->|]; [done|lia]. }
  cbn [expand_pairs length]. rewrite <- cons_seq. cbn [zip zip_with]. rewrite filter_cons, !(record_rows_cons _ rec). cbn [fst snd].
  destruct (decide (i ∈ used)) as [Hu|Hu].
  - destruct Ht as [Ht|Ht].
    + (* the insert of a pair *)
      assert (Hni : i ∉ pairs.*1).
      { intros Hin. rewrite Forall_forall in Hd. destruct (Hd i Hin) as (_ & _ & Hdt). unfold is_type in Hdt.
        rewrite Hri in Hdt. cbn in Hdt. congruence. }
      destruct (IH (Datatypes.S i) pairs Hrest' Hs (Hlater _ Hd Hni) Hi) as (out & Eout & P1 & P2).
      { intros j Hj. apply Hall. lia. }
      exists out. split; [|by settle].
      destruct pairs as [|[d x] pairs']; [done|]. rewrite decide_False; [done|]. intros ->. apply Hni. by left.
    + (* the delete of a pair *)
      assert (Hin : i ∈ pairs.*1) by (apply Hall; [done|done|]; unfold is_type; by rewrite Hri, <- Ht).
      destruct pairs as [|[d x] pairs']; [by apply elem_of_nil in Hin|].
      rewrite !fmap_cons in *. cbn [fst snd] in *. apply StronglySorted_inv in Hs as [Hs Hlt].
      assert (d = i) as ->.
      { apply elem_of_cons in Hin as [->|Hin]; [done|]. rewrite Forall_forall in Hlt. specialize (Hlt i Hin).
        inversion Hd as [|? ? (Hle & _) _]; subst. lia. }
      apply Forall_cons in Hd as [_ Hd]. apply Forall_cons in Hi as [Hx Hi].
      assert (Hni : i ∉ pairs'.*1) by (intros Hn; rewrite Forall_forall in Hlt; specialize (Hlt i Hn); lia).
      unfold is_type in Hx. destruct (records !! x) as [ins|] eqn:Ex; [|done].
      destruct (IH (Datatypes.S i) pairs' Hrest' Hs (Hlater _ Hd Hni) Hi) as (out & Eout & P1 & P2).
      { intros j Hj Hju Hjt. specialize (Hall j ltac:(lia) Hju Hjt). apply elem_of_cons in Hall as [->|]; [lia|done]. }
      rewrite (decide_True (P := i = i)) by done. rewrite Hri. cbn [or_panic mbind outcome_bind]. rewrite Eout.
      cbn [mbind outcome_bind]. eexists. split; [done|]. rewrite !record_rows_cons. cbn [with_type cr_change_type cr_row].
      cbn [omap list_omap snd]. rewrite Ex. rewrite !fmap_cons. settle.
      split; [by rewrite <- P1, Permutation_middle|]. by rewrite <- !Permutation_middle, P2.
  - (* a record of no pair *)
    assert (Hni : i ∉ pairs.*1) by (intros Hin; rewrite Forall_forall in Hd; by destruct (Hd i Hin) as (_ & ? & _)).
    destruct (IH (Datatypes.S i) pairs Hrest' Hs (Hlater _ Hd Hni) Hi) as (out & Eout & P1 & P2).
    { intros j Hj. apply Hall. lia. }
    rewrite Eout. cbn [mbind outcome_bind]. eexists. split; [done|]. rewrite !record_rows_cons.
    destruct Ht as [Ht|Ht].
    + settle. split; [done|by rewrite P2].
    + settle. split; [by rewrite P1|done].
Qed.

(** Records selected by position and type, through their positions. *)
Lemma records_at (R : nat → Prop) `{∀ j, Decision (R j)} c records i rest :
  drop i records = rest →
  (filter (λ jr : nat * ChangeRecord, R jr.1 ∧ cr_change_type jr.2 = c) (zip (seq i (length rest)) rest)).*2 =
  omap (λ j, records !! j) (filter (λ j, R j ∧ is_type records c j) (seq i (length rest))).
Proof.
  revert i. induction rest as [|rec rest IH]; intros i Hr; [done|].
  assert (Hri : records !! i = Some rec) by by rewrite <- (Nat.add_0_r i), <- lookup_drop, Hr.
  cbn [length]. rewrite <- cons_seq. cbn [zip zip_with]. rewrite !filter_cons. cbn [fst snd].
  assert (Ht : is_type records c i ↔ cr_change_type rec = c) by (unfold is_type; rewrite Hri; cbn; split; congruence).
  specialize (IH (Datatypes.S i)). rewrite <- (Nat.add_1_r i), <- drop_drop, Hr in IH. specialize (IH eq_refl).
  rewrite Nat.add_1_r in IH.
  repeat case_decide; [|tauto|tauto|done]. rewrite fmap_cons, IH. cbn [omap list_omap snd]. by rewrite Hri.
Qed.

(** The pairs the reader finds when the map of deletes is visited in the given order. *)
Definition pairs_found (order : list string → list string) (keys : list string) records : gset nat * list (nat * nat) :=
  let keyed := zip keys records in
  let deletes := positions_by_pk ChangeType.Delete keyed in
  pair_up (order (map_to_list deletes).*1) deletes (positions_by_pk ChangeType.Insert keyed).

Lemma pairs_found_paired order keys records used pairs :
  length keys = length records → pairs_found order keys records = (used, pairs) → paired records used pairs.
Proof.
  intros Hl E. pose proof (pair_up_paired records (order (map_to_list (positions_by_pk ChangeType.Delete (zip keys records))).*1)
    (positions_by_pk ChangeType.Delete (zip keys records)) (positions_by_pk ChangeType.Insert (zip keys records))) as Hp.
  unfold pairs_found in E. rewrite E in Hp. apply Hp; intros key; apply Forall_forall; intros i Hi;
    by eapply (positions_typed _ keys).
Qed.

(** C27: pairing keeps the rows when the pairs come in the order of their deletes: the
    deleted rows are those reported as deleted or as before an update, the inserted ones
    those reported as inserted or as after an update. *)
Theorem coalesce_keeps_rows order records pk_columns keys used pairs :
  Forall (λ rec, cr_change_type rec = ChangeType.Insert ∨ cr_change_type rec = ChangeType.Delete) records →
  try_map (λ rec, pk_key (cr_row rec) pk_columns) records = Ok keys →
  pairs_found order keys records = (used, pairs) → StronglySorted lt pairs.*1 →
  ∃ out, coalesce_updates order records pk_columns = Ret (Ok out) ∧
    record_rows ns ChangeType.Delete out ++ record_rows ns ChangeType.UpdateBefore out ≡ₚ
      record_rows ns ChangeType.Delete records ∧
    record_rows ns ChangeType.Insert out ++ record_rows ns ChangeType.UpdateAfter out ≡ₚ
      record_rows ns ChangeType.Insert records.
Proof.
  intros Htypes Hkeys Hp Hs. pose proof (try_map_length _ _ _ Hkeys) as Hl.
  destruct (pairs_found_paired order keys records used pairs ltac:(done) Hp) as [Hused Hnd Hd Hi].
  destruct (expand_keeps records used 0 records pairs) as (out & Eout & P1 & P2); [done|done| |done| |done|].
  { apply Forall_forall. intros d Hin. split; [lia|]. rewrite Forall_forall in Hd. split; [|by apply Hd].
    rewrite Hused, elem_of_list_to_set, elem_of_app. by left. }
  { intros j _ Hj Hjd. rewrite Hused, elem_of_list_to_set, elem_of_app in Hj. destruct Hj as [|Hj]; [done|].
    rewrite Forall_forall in Hi. specialize (Hi j Hj). unfold is_type in *. congruence. }
  exists out. split; [|split; [done|]].
  { unfold coalesce_updates. rewrite Hkeys. cbn [mbind outcome_bind]. unfold pairs_found in Hp. by rewrite Hp. }
  pose proof (records_at (λ j, j ∉ used) ChangeType.Insert records 0 records eq_refl) as Eun. cbn beta in Eun.
  rewrite P2, Eun, <- fmap_app.
  assert (E : omap (λ p : nat * nat, records !! p.2) pairs = omap (λ j, records !! j) pairs.*2).
  { clear. induction pairs as [|p pairs IH]; [done|]. cbn. by rewrite IH. }
  unfold record_rows. apply fmap_Permutation. rewrite E, <- omap_app.
  transitivity (omap (λ j, records !! j) (filter (λ j, True ∧ is_type records ChangeType.Insert j) (seq 0 (length records)))).
  - apply omap_Permutation, NoDup_Permutation.
    + apply NoDup_app. split; [apply NoDup_filter, NoDup_seq|]. split; [|done].
      intros j [[Hj _] _]%list_elem_of_filter Hin. apply Hj. rewrite Hused, elem_of_list_to_set, elem_of_app. by right.
    + apply NoDup_filter, NoDup_seq.
    + intros j. rewrite elem_of_app, !list_elem_of_filter. rewrite Forall_forall in Hd, Hi. split.
      * intros [[[_ Ht] Hj]|Hj]; [done|]. specialize (Hi j Hj). unfold is_type in Hi. split; [done|]. apply elem_of_seq.
        destruct (records !! j) eqn:Ej; [|done]. apply lookup_lt_Some in Ej. lia.
      * intros [[_ Ht] Hj]. destruct (decide (j ∈ used)) as [Hu|Hu]; [|by left]. right.
        rewrite Hused, elem_of_list_to_set, elem_of_app in Hu. destruct Hu as [Hu|]; [|done].
        specialize (Hd j Hu). unfold is_type in Hd. congruence.
  - rewrite <- (records_at (λ _, True) ChangeType.Insert records 0 records eq_refl). cbn beta. clear. generalize 0%nat. induction records as [|rec records IH]; intros i; [done|].
    cbn [length]. rewrite <- cons_seq. cbn [zip zip_with]. rewrite !filter_cons. cbn [fst snd].
    specialize (IH (Datatypes.S i)). settle; [|done]. rewrite fmap_cons. cbn [snd]. by rewrite IH.
Qed.

(** Pairing can lose an update.  When a delete of one key precedes that of another
    and each key was inserted again, a hash map that yields the second key first makes
    the reader report the second update only: neither row of the first key is in the
    stream. *)
Theorem coalesce_loses_update (order : list string → list string) (r1 r2 i1 i2 : ChangeRecord) pk_columns k1 k2 :
  k1 ≠ k2 → pk_key (cr_row r1) pk_columns = Ok k1 → pk_key (cr_row r2) pk_columns = Ok k2 →
  pk_key (cr_row i1) pk_columns = Ok k1 → pk_key (cr_row i2) pk_columns = Ok k2 →
  cr_change_type r1 = ChangeType.Delete → cr_change_type r2 = ChangeType.Delete →
  cr_change_type i1 = ChangeType.Insert → cr_change_type i2 = ChangeType.Insert →
  (∀ l, l ≡ₚ [k1; k2] → order l = [k2; k1]) →
  coalesce_updates order [i1; i2; r1; r2] pk_columns =
    Ret (Ok [with_type r2 ChangeType.UpdateBefore; with_type i2 ChangeType.UpdateAfter]).
Proof.
  intros Hne K1 K2 K3 K4 T1 T2 T3 T4 Horder. unfold coalesce_updates. cbn [try_map]. rewrite K1, K2, K3, K4.
  cbn [mbind outcome_bind]. set (keyed := zip _ _).
  assert (Hd : positions_by_pk ChangeType.Delete keyed = {[k1 := [2%nat]; k2 := [3%nat]]}).
  { unfold positions_by_pk, keyed. cbn [zip zip_with length seq foldl].
    rewrite (decide_False (P := cr_change_type i1 = _)), (decide_False (P := cr_change_type i2 = _)) by congruence.
    rewrite (decide_True (P := cr_change_type r1 = _)), (decide_True (P := cr_change_type r2 = _)) by done.
    rewrite lookup_empty, lookup_insert_ne, lookup_empty by done. cbn. by rewrite insert_insert_ne by done. }
  assert (Hi : positions_by_pk ChangeType.Insert keyed = {[k1 := [0%nat]; k2 := [1%nat]]}).
  { unfold positions_by_pk, keyed. cbn [zip zip_with length seq foldl].
    rewrite (decide_True (P := cr_change_type i1 = _)), (decide_True (P := cr_change_type i2 = _)) by done.
    rewrite (decide_False (P := cr_change_type r1 = _)), (decide_False (P := cr_change_type r2 = _)) by congruence.
    rewrite lookup_empty, lookup_insert_ne, lookup_empty by done. cbn. by rewrite insert_insert_ne by done. }
  rewrite Hd, Hi. rewrite Horder.
  2: { rewrite map_to_list_insert, map_to_list_singleton by (by rewrite lookup_singleton_ne). done. }
  unfold pair_up. cbn [foldl]. rewrite !lookup_insert_eq, !lookup_insert_ne, !lookup_singleton_eq by done. cbn [default foldl].
  done.
Qed.

(** Keys of several columns are joined with a bar, which the values may contain: rows
    with different keys can be paired, and so can a null and the text NULL. *)
Lemma pk_key_collides b1 b2 c1 c2 x y z :
  pk_part b1 c1 = Ok (x +:+ "|" +:+ y) → pk_part b1 c2 = Ok z →
  pk_part b2 c1 = Ok x → pk_part b2 c2 = Ok (y +:+ "|" +:+ z) →
  pk_key b1 [c1; c2] = pk_key b2 [c1; c2].
Proof.
  intros E1 E2 E3 E4. unfold pk_key. cbn [try_map]. rewrite E1, E2, E3, E4. cbn [mbind result_bind String.concat].
  by rewrite !string_app_assoc.
Qed.

End Updates.
