(* ===== verification/CompactionSafety.v ===== *)
(** * Compaction keeps the rows of a table

    A whole pass, whichever write fails in it, leaves a table with the rows its deletion
    vectors left.  Also what a pass does not keep: the equality deletes and the partition
    values. *)

From S2P Require Import Prelude Core Footer FileFormat FileTheorems Store Effects Json Avro Manifest.
From S2P Require Import ManifestTheorems Puffin Catalog CatalogTheorems HadoopTheorems Arrow Deletes DeletesTheorems.
From S2P Require Import Floats Ranking Bm25 Search Compaction CompactionTheorems CompactionRows.

(* ------------------------------------------------------------------ *)
(** ** The whole pass                                                  *)
(* ------------------------------------------------------------------ *)

Section Pass.
Context {S : Type} `{ReliableReads S} `{!ReliableRanges S} `{!LockStore S} `{!LockLaws S}.
Context `{AvroLaws} `{SerdeLaws} `{JsonLib} `{BincodeLib} `{MetaLaws} `{RoaringLaws} `{SortLaws}.
Context {PL : ParquetLib} {IL : IndexLib} {AL : ArrowLib} {QL : QueryLib} {CL : CompactLib}.
Context {LW : ParquetLaws PL} `{!ArrowLaws} `{!CompactLaws} `{!ReadBackLaws}.
Context (root warehouse : string).
Implicit Types m : gmap string bytes.

#[local] Instance pass_catalog : CatalogProvider S := catalog root warehouse.

(** Paths that a commit lists as they are. *)
Definition path_fixed (p : string) : Prop := is_absolute p = true ∨ is_absolute warehouse = false.

Lemma absolute_file_key f : path_fixed (df_path f) → file_key (absolute_file warehouse f) = file_key f.
Proof. unfold absolute_file, file_key. cbn. intros [->| ->]; [done|]. by destruct (is_absolute (df_path f)). Qed.

(** A path that is neither the catalog's nor the output's. *)
Definition data_path (out q : string) : Prop := (∀ o, q ≠ obj_path root o) ∧ q ≠ out.

(** Where a listed file and its deletion vector lie. *)
Definition well_placed (out : string) (fs : list DataFileEntry) (f : DataFileEntry) : Prop :=
  path_fixed (df_path f) ∧ data_path out (df_path f) ∧
  ∀ dv, df_deletion_vector f = Some dv → data_path out (dv_path dv) ∧ dv_path dv ∉ df_path <$> fs.

(** What a pass needs: a published table of readable files with one schema, in their
    own places, with at least one row left among the files to merge. *)
Record compaction_ready (s : S) (v : Z) (meta : IcebergMetadata) (ex : CompactionExecutor)
    (planner : CompactionConfig) (output_prefix : string) (ts snap : Z) (fs : list DataFileEntry)
    (rows : list Row) : Prop := {
  cr_inv : store_inv s;
  cr_table : table (view s) root v meta;
  cr_files : (cp_list_files None s).2 = Ret (Ok fs);
  cr_rows : rows_left_by_dvs (view s) (ex_policy ex) fs = Some rows;
  cr_paths : NoDup (df_path <$> fs);
  cr_places : Forall (well_placed (compacted_path output_prefix ts) fs) fs;
  cr_out : (∀ o, compacted_path output_prefix ts ≠ obj_path root o) ∧ path_fixed (compacted_path output_prefix ts);
  cr_schema : one_schema (view s) (ex_policy ex) (plan planner fs);
  cr_policy : raw_policy (ex_policy ex);
  cr_vectors : Forall (λ r : Row, stored_vector (ex_policy ex) r.2 = r.2) rows;
  cr_alive : plan planner fs ≠ [] → rows_left_by_dvs (view s) (ex_policy ex) (plan planner fs) ≠ Some [];
  cr_input to_compact merged :
    (run_merge ex planner output_prefix ts s).2 = Ret (Ok (Some (to_compact, merged))) →
    commit_input (view s) root warehouse meta
      (plain_snapshot snap (im_current_snapshot_id meta) (next_files to_compact merged fs) Replace []);
  cr_version : fits 32 (v + 1);
}.

Lemma effective_policy ex props : ex_policy (with_effective_fts ex props) = ex_policy ex.
Proof. unfold with_effective_fts. destruct (ex_fts_config ex); [done|]. by destruct (from_table_props props). Qed.

(** The rows of the files a plan picks and of those it leaves. *)
Lemma plan_rows planner m p fs rows :
  NoDup (df_path <$> fs) → rows_left_by_dvs m p fs = Some rows →
  ∃ live rest, rows_left_by_dvs m p (plan planner fs) = Some live ∧
    rows_left_by_dvs m p (filter (λ f, df_path f ∉ df_path <$> plan planner fs) fs) = Some rest ∧ live ++ rest ≡ₚ rows.
Proof.
  intros Hnd Hr. destruct (plan_perm planner fs) as [left Hp]. pose proof (survivors_perm _ _ _ Hnd Hp) as Hsv.
  symmetry in Hp. destruct (contents_perm _ _ _ _ _ Hp Hr) as (rows' & Hr' & Hrp).
  assert (∃ live rest, rows_left_by_dvs m p (plan planner fs) = Some live ∧ rows_left_by_dvs m p left = Some rest ∧ rows' = live ++ rest)
    as (live & rest & Hlive & Hrest & ->).
  { clear -Hr'. revert rows' Hr'. induction (plan planner fs) as [|f l IH]; intros rows' Hr'.
    - exists [], rows'. done.
    - cbn [app] in Hr'. apply contents_cons in Hr' as (r & rs & Hf & Hrs & ->).
      destruct (IH rs Hrs) as (live & rest & Hlive & Hrest & ->). exists (r ++ live), rest.
      rewrite contents_cons, app_assoc. split_and!; [eauto|done|done]. }
  symmetry in Hsv. destruct (contents_perm _ _ _ _ _ Hsv Hrest) as (rest' & Hrest' & Hrp').
  exists live, rest'. split_and!; [done|done|]. by rewrite Hrp', Hrp.
Qed.

(** Merging. *)
Lemma wp_run_merge m v meta ex planner prefix ts fs rows Q :
  table m root v meta → files_in m meta None = Ok fs → rows_left_by_dvs m (ex_policy ex) fs = Some rows →
  NoDup (df_path <$> fs) → one_schema m (ex_policy ex) (plan planner fs) → raw_policy (ex_policy ex) →
  Forall (λ r : Row, stored_vector (ex_policy ex) r.2 = r.2) rows →
  (plan planner fs ≠ [] → rows_left_by_dvs m (ex_policy ex) (plan planner fs) ≠ Some []) →
  (∀ o m', agree_except (λ q, q = compacted_path prefix ts) m m' →
    (∀ tc merged, o = Ret (Ok (Some (tc, merged))) → tc = plan planner fs ∧
      merged_entry tc (compacted_path prefix ts) merged ∧
      ∃ live, rows_left_by_dvs m (ex_policy ex) tc = Some live ∧
        ∃ rows', left_by_dv m' (ex_policy ex) (compacted_path prefix ts, None) = Some rows' ∧ rows' ≡ₚ live) →
    Q o m') →
  wp m (run_merge ex planner prefix ts) Q.
Proof.
  intros Ht Hfs Hrows Hnd Hone Hraw Hst Hne HQ. apply wp_bind. eapply wp_cp_list_files; [exact Ht|]. rewrite Hfs.
  destruct (plan_rows planner _ _ _ _ Hnd Hrows) as (live & rest & Hlive & _ & Hp).
  destruct (plan planner fs) as [|f l] eqn:Ep; [apply wp_ret, HQ; [apply agree_refl|done]|]. rewrite <- Ep in *.
  apply wp_bind, wp_catch. eapply wp_load_table; [exact Ht|]. apply wp_bind.
  set (ex' := with_effective_fts ex _). assert (Epol : ex_policy ex' = ex_policy ex) by apply effective_policy.
  apply wp_compact_incremental; rewrite ?Epol; [done|done| |].
  { destruct (plan_perm planner fs) as [left Hpp]. rewrite <- Hpp, fmap_app in Hnd. by apply NoDup_app in Hnd as [? _]. }
  intros o m' [Hag Ho]. destruct o as [[merged|err]|]; [|by apply HQ..].
  apply wp_ret, HQ; [done|]. intros tc merged' [= <- <-]. destruct (Ho merged eq_refl) as [Hent Hvis].
  split; [done|]. split; [done|]. exists live. split; [done|]. apply Hvis; [done| |].
  - intros ->. apply Hne; [by rewrite Ep|done].
  - rewrite <- Hp in Hst. by apply Forall_app in Hst as [? _].
Qed.

(** Retiring files touches only them. *)
Lemma wp_delete_old_files m (files : list DataFileEntry) Q :
  (∀ m', agree_except (λ q, q ∈ df_path <$> files) m m' → Q (Ret (Ok tt)) m') → wp m (delete_old_files files) Q.
Proof.
  intros HQ. apply wp_bind.
  assert (Hgen : ∀ R, (∀ l m', agree_except (λ q, q ∈ df_path <$> files) m m' → R (Ret (Ok l)) m') →
    wp m (io_map (λ entry, io_delete (df_path entry)) files) R); [|apply Hgen; intros l m' Hm'; by apply wp_ret, HQ].
  clear HQ. revert m. induction files as [|f files IH]; intros m R HR; [apply wp_ret, HR, agree_refl|].
  cbn [io_map]. rewrite fmap_cons in HR. apply wp_bind.
  assert (Hrest : ∀ r m1, agree_except (λ q, q = df_path f) m m1 →
    wp m1 (ys ← io_map (λ entry, io_delete (df_path entry)) files; mret (r :: ys)) R).
  { intros r m1 Hm1. apply wp_bind, IH. intros l m' Hm'. apply wp_ret, HR.
    eapply agree_trans; eapply agree_weaken; [|exact Hm1| |exact Hm']; set_solver. }
  apply wp_delete; [|intros err; apply Hrest, agree_refl]. apply Hrest. intros q Hq. by apply lookup_delete_ne.
Qed.

(** What a commit does to the paths, vectors and partition values of its files. *)
Definition listed_as (f : DataFileEntry) : string * option DeletionVector * option string :=
  (file_key f, df_partition_value f).

Lemma assign_row_ids_fmap {A} (g : DataFileEntry → A) n fs :
  (∀ f id, g (set_first_row_id f id) = g f) → g <$> (assign_row_ids n fs).1 = g <$> fs.
Proof.
  intros Hg. revert n. induction fs as [|f fs IH]; intros n; [done|]. cbn [assign_row_ids].
  destruct (df_first_row_id f).
  - specialize (IH n). destruct (assign_row_ids n fs). cbn in IH |- *. by rewrite IH.
  - specialize (IH (add_i64 n (as_i64 (df_record_count f)))). destruct (assign_row_ids _ fs).
    cbn in IH |- *. by rewrite IH, Hg.
Qed.

(** What a commit lists of its files, but for paths made absolute and row ids. *)
Lemma committed_fmap {A} (g : DataFileEntry → A) meta sn :
  (∀ f id, g (set_first_row_id f id) = g f) →
  (∀ f, f ∈ ns_files sn → g (absolute_file warehouse f) = g f) →
  g <$> committed_files warehouse meta sn = g <$> ns_files sn.
Proof.
  intros Hid Habs. unfold committed_files, commit_files.
  assert (Ea : g <$> (absolute_file warehouse <$> ns_files sn) = g <$> ns_files sn).
  { rewrite <- list_fmap_compose. apply list_fmap_ext. intros i f Hf. by apply Habs, (list_elem_of_lookup_2 _ i). }
  destruct (3 <=? _); [by rewrite assign_row_ids_fmap|done].
Qed.

Lemma stored_partition_none spec : stored_partition spec None = None.
Proof.
  unfold stored_partition. cbn [default]. change (split unit_sep "") with [""].
  assert (E : ∀ i, partition_part [""] i = None) by (intros [|[|i]]; done).
  assert (omap id (imap (λ i fd, stored_part fd (partition_part [""] i)) (spec_fields spec)) = []) as ->; [|done].
  rewrite (imap_ext _ (λ _ _, None)) by (intros i fd _; by rewrite E). generalize (spec_fields spec).
  intros l. induction l as [|fd l IH]; [done|]. cbn. exact IH.
Qed.

(** The listing after the commit of a replacement whose paths are fixed. *)
Lemma replaced_listing m v meta sn m' meta' :
  inherits (ns_operation sn) = false → ns_equality_delete_files sn = [] → committed m root warehouse v meta sn m' meta' →
  Forall (λ f, path_fixed (df_path f)) (ns_files sn) →
  ∃ fs', files_in m' meta' None = Ok fs' ∧ file_key <$> fs' = file_key <$> ns_files sn ∧
    Forall2 (λ f g, df_path g = df_path f ∧ (df_partition_value f = None → df_partition_value g = None)) (ns_files sn) fs' ∧
    deletes_in m' meta' None = Ok [].
Proof.
  intros Hop Hdels Hc Hfix.
  assert (Hk : ∀ A (cur : AilakeResult (list A)), kept (ns_operation sn) cur []) by (intros; unfold kept; by rewrite Hop).
  rewrite (c_files _ _ _ _ _ _ _ _ Hc []) by apply Hk. eexists. split; [done|].
  rewrite (c_deletes _ _ _ _ _ _ _ _ Hc []) by apply Hk. cbn [app].
  assert (E : listed_as <$> committed_files warehouse meta sn = listed_as <$> ns_files sn).
  { apply committed_fmap; [done|]. intros f Hf. unfold listed_as. rewrite Forall_forall in Hfix.
    by rewrite absolute_file_key by (by apply Hfix). }
  set (cf := committed_files _ _ _) in *. clearbody cf. set (files := ns_files sn) in *. clearbody files. split_and!.
  - rewrite <- list_fmap_compose. apply (f_equal (fmap fst)) in E. rewrite <- !list_fmap_compose in E. exact E.
  - clear -E. revert files E. induction cf as [|g cf IH]; intros [|f files] E; try done.
    rewrite !fmap_cons in E. assert (E1 : listed_as g = listed_as f) by congruence. constructor; [|apply IH; congruence].
    split; [cbn; unfold listed_as, file_key in E1; congruence|].
    intros Hf. cbn. assert (df_partition_value g = None) as -> by (unfold listed_as in E1; congruence).
    apply stored_partition_none.
  - unfold committed_deletes. by rewrite Hdels.
Qed.

Lemma committed_listing m v meta snap parent files op m' meta' :
  inherits op = false → committed m root warehouse v meta (plain_snapshot snap parent files op []) m' meta' →
  Forall (λ f, path_fixed (df_path f)) files →
  ∃ fs', files_in m' meta' None = Ok fs' ∧ file_key <$> fs' = file_key <$> files ∧
    Forall2 (λ f g, df_path g = df_path f ∧ (df_partition_value f = None → df_partition_value g = None)) files fs' ∧
    deletes_in m' meta' None = Ok [].
Proof. intros Hop Hc. by apply (replaced_listing m v meta (plain_snapshot snap parent files op []) m' meta'). Qed.

(** Objects that a change did not touch keep the rows of the files that use them. *)
Lemma untouched (X : string → Prop) m m' p (fs : list DataFileEntry) :
  agree_except X m m' →
  (∀ f, f ∈ fs → ¬ X (df_path f) ∧ ∀ dv, df_deletion_vector f = Some dv → ¬ X (dv_path dv)) →
  rows_left_by_dvs m' p fs = rows_left_by_dvs m p fs.
Proof.
  intros Hag Hx. apply contents_agree, Forall_forall. intros f Hf. destruct (Hx f Hf) as [Hp Hdv].
  split; [by apply Hag|]. intros dv Hd. by apply Hag, Hdv.
Qed.

(** The table after a pass that ended in [o]. *)
Definition pass_post p (rows : list Row) (tc : list DataFileEntry) (fs : list DataFileEntry)
    (dels : AilakeResult (list EqualityDeleteFile)) (o : outcome AilakeError (option DataFileEntry)) m' : Prop :=
  ∃ v' meta' fs' rows', table m' root v' meta' ∧ files_in m' meta' None = Ok fs' ∧
    rows_left_by_dvs m' p fs' = Some rows' ∧ rows' ≡ₚ rows ∧
    (fs' = fs ∧ deletes_in m' meta' None = dels ∨ deletes_in m' meta' None = Ok []) ∧
    ∀ merged, o = Ret (Ok (Some merged)) →
      file_key <$> fs' = file_key <$> next_files tc merged fs ∧ deletes_in m' meta' None = Ok [] ∧
      ∀ f, f ∈ fs' → df_path f = df_path merged → df_partition_value f = None.

Lemma unchanged_post p rows tc fs m v meta out e m' :
  unchanged m root v meta m' → files_in m meta None = Ok fs → rows_left_by_dvs m p fs = Some rows →
  Forall (well_placed out fs) fs → pass_post p rows tc fs (deletes_in m meta None) (Ret (Err e)) m'.
Proof.
  intros [[Ht Hl] Hag] Hfs Hrows Hpl. exists v, meta, fs, rows. split; [done|].
  rewrite (proj1 (Hl None)), (proj2 (Hl None)), Hfs. split; [done|]. split; [|by split; [|split; [left|]]].
  rewrite <- Hrows. eapply untouched; [exact Hag|]. intros f Hf. rewrite Forall_forall in Hpl.
  destruct (Hpl f Hf) as (_ & [Hp _] & Hdv). split; [intros [o Ho]; by apply (Hp o)|].
  intros dv Hd [o Ho]. destruct (Hdv dv Hd) as [[Hq _] _]. by apply (Hq o).
Qed.

Section Replacement.
Context m (v : Z) (meta : IcebergMetadata) (p : VectorStoragePolicy) (planner : CompactionConfig) (out : string).
Context (fs : list DataFileEntry) (rows live rows' : list Row) (merged : DataFileEntry).
Context (Hfs : files_in m meta None = Ok fs) (Hrows : rows_left_by_dvs m p fs = Some rows).
Context (Hnd : NoDup (df_path <$> fs)) (Hpl : Forall (well_placed out fs) fs).
Context (Hout : ∀ o, out ≠ obj_path root o) (Hfix : path_fixed out).
#[local] Notation tc := (plan planner fs).
Context (Hent : merged_entry tc out merged) (Hlive : rows_left_by_dvs m p tc = Some live).
Context (Hvis : left_by_dv m p (out, None) = Some rows') (Hperm : rows' ≡ₚ live).

Lemma chosen_listed f : f ∈ tc → f ∈ fs.
Proof. intros Hf. destruct (plan_perm planner fs) as [left Hp]. rewrite <- Hp. apply elem_of_app. by left. Qed.

Lemma replacement_rows : ∃ rest, rows_left_by_dvs m p (next_files tc merged fs) = Some (rest ++ rows') ∧ rest ++ rows' ≡ₚ rows.
Proof.
  destruct (plan_rows planner _ _ _ _ Hnd Hrows) as (live' & rest & E & Hrest & Hp).
  rewrite Hlive in E. injection E as <-. exists rest. split.
  - apply contents_app; [done|]. apply contents_cons. exists rows', []. rewrite (me_key _ _ _ Hent), app_nil_r. done.
  - by rewrite Hperm, Permutation_app_comm.
Qed.

(** Every file of the replacement lies where neither the commit nor the clean-up writes. *)
Lemma replacement_placed f :
  f ∈ next_files tc merged fs → path_fixed (df_path f) ∧
    (∀ q, q = df_path f ∨ (∃ dv, df_deletion_vector f = Some dv ∧ q = dv_path dv) →
      (∀ o, q ≠ obj_path root o) ∧ q ∉ df_path <$> tc).
Proof.
  rewrite Forall_forall in Hpl. intros Hf. apply elem_of_app in Hf as [Hf|Hf].
  - apply list_elem_of_filter in Hf as [Hn Hf]. destruct (Hpl f Hf) as (Hfx & [Hd _] & Hdv). split; [done|].
    intros q [->|(dv & Hv & ->)]; [done|]. destruct (Hdv dv Hv) as [[Hq _] Hnot]. split; [done|].
    intros (g & Eg & Hg)%list_elem_of_fmap. apply Hnot. rewrite Eg. by apply list_elem_of_fmap_2, chosen_listed.
  - apply list_elem_of_singleton in Hf as ->. pose proof (me_key _ _ _ Hent) as Ek. unfold file_key in Ek.
    injection Ek as Ep Ed. rewrite Ep, Ed. split; [done|]. intros q [->|(dv & [=] & _)]. split; [done|].
    intros (g & Eg & Hg)%list_elem_of_fmap. destruct (Hpl g (chosen_listed g Hg)) as (_ & [_ Hne] & _). by apply Hne.
Qed.

Lemma replaced_post snap parent m2 meta' m3 o :
  committed m root warehouse v meta (plain_snapshot snap parent (next_files tc merged fs) Replace []) m2 meta' →
  agree_except (λ q, q ∈ df_path <$> tc) m2 m3 →
  (∀ x, o = Ret (Ok (Some x)) → x = merged) → pass_post p rows tc fs (deletes_in m meta None) o m3.
Proof.
  intros Hc Hag Ho. destruct replacement_rows as (rest & Hr & Hp).
  destruct (committed_listing _ _ _ _ _ _ Replace _ _ eq_refl Hc) as (fs' & Hfs' & Hk & Hpart & Hdel).
  { apply Forall_forall. intros f Hf. by apply replacement_placed. }
  assert (Hobj : ∀ ob, m3 !! obj_path root ob = m2 !! obj_path root ob).
  { intros ob. apply Hag. intros (g & Eg & Hg)%list_elem_of_fmap. rewrite Forall_forall in Hpl.
    destruct (Hpl g (chosen_listed g Hg)) as (_ & [Hq _] & _). by apply (Hq ob). }
  destruct (table_frame root _ _ _ _ Hobj (c_table _ _ _ _ _ _ _ _ Hc)) as [Ht3 Hl3].
  exists (v + 1), meta', fs', (rest ++ rows'). destruct (Hl3 None) as [-> ->].
  split_and!; [done|done| |done|by right|].
  - rewrite (contents_keys _ _ _ _ Hk). rewrite <- Hr. transitivity (rows_left_by_dvs m2 p (next_files tc merged fs)).
    + eapply untouched; [exact Hag|]. intros f Hf. destruct (replacement_placed f Hf) as [_ Hq].
      split; [apply Hq; by left|]. intros dv Hd. apply Hq. right. eauto.
    + eapply untouched; [apply (c_frame _ _ _ _ _ _ _ _ Hc)|]. intros f Hf. destruct (replacement_placed f Hf) as [_ Hq].
      split; [intros [ob Hob]; by apply (proj1 (Hq _ (or_introl eq_refl)) ob)|].
      intros dv Hd [ob Hob]. by apply (proj1 (Hq _ (or_intror (ex_intro _ dv (conj Hd eq_refl)))) ob).
  - intros x Hx. rewrite (Ho x Hx). split_and!; [done|done|]. intros f Hf Hpath.
    apply list_elem_of_lookup in Hf as [i Hi]. destruct (Forall2_lookup_r _ _ _ _ _ Hpart Hi) as (g & Hg & Eg & Hnone).
    apply Hnone. apply list_elem_of_lookup_2 in Hg. pose proof (me_key _ _ _ Hent) as Ek. unfold file_key in Ek.
    injection Ek as Ep _. apply elem_of_app in Hg as [Hg|Hg].
    + apply list_elem_of_filter in Hg as [_ Hg]. rewrite Forall_forall in Hpl. destruct (Hpl g Hg) as (_ & [_ Hne] & _).
      destruct Hne. by rewrite <- Eg, Hpath.
    + apply list_elem_of_singleton in Hg as ->. apply (me_partition _ _ _ Hent).
Qed.

Lemma wp_run_commit snap now Q :
  table m root v meta →
  commit_input m root warehouse meta
    (plain_snapshot snap (im_current_snapshot_id meta) (next_files tc merged fs) Replace []) →
  fits 32 (v + 1) → (∀ o m', pass_post p rows tc fs (deletes_in m meta None) o m' → Q o m') →
  wp m (run_commit tc merged snap now) Q.
Proof.
  intros Ht Hin Hv HQ. apply wp_bind, wp_bind, wp_bind. eapply wp_cp_list_files; [exact Ht|]. rewrite Hfs. apply wp_ret.
  apply wp_bind, wp_catch. eapply wp_load_table; [exact Ht|].
  apply (wp_commit_any m root warehouse v meta); [done|exact Hin|done|done| |].
  - intros r m2 meta' Hc. destruct r as [id|err].
    + apply wp_bind, wp_delete_old_files. intros m3 Hag. apply wp_ret, HQ.
      eapply replaced_post; [exact Hc|exact Hag|]. by intros x [= <-].
    + apply HQ. eapply replaced_post; [exact Hc|apply agree_refl|done].
  - intros err m2 Hun. apply HQ. by eapply unchanged_post.
Qed.

End Replacement.

(** The end of a pass, from its beginning. *)
Lemma run_post s v meta ex planner prefix ts snap now fs rows :
  compaction_ready s v meta ex planner prefix ts snap fs rows →
  let '(s', o) := run ex planner prefix ts snap now s in
  store_inv s' ∧ pass_post (ex_policy ex) rows (plan planner fs) fs (deletes_in (view s) meta None) o (view s').
Proof.
  intros [Hi Ht Hfs Hrows Hnd Hpl [Hout Hfix] Hone Hraw Hst Hal Hin Hv].
  change (cp_list_files None s).2 with (list_files root None s).2 in Hfs.
  rewrite (list_files_table s root v meta) in Hfs by done. injection Hfs as Hfs.
  set (out := compacted_path prefix ts) in *.
  assert (Hmerge : wp (view s) (run_merge ex planner prefix ts) (λ o m',
    agree_except (λ q, q = out) (view s) m' ∧
    ∀ tc merged, o = Ret (Ok (Some (tc, merged))) → tc = plan planner fs ∧ merged_entry tc out merged ∧
      ∃ live, rows_left_by_dvs (view s) (ex_policy ex) tc = Some live ∧
        ∃ rows', left_by_dv m' (ex_policy ex) (out, None) = Some rows' ∧ rows' ≡ₚ live)).
  { by eapply wp_run_merge. }
  destruct (wp_run s (view s) _ _ Hmerge ltac:(done)) as (m1 & [Hi1 Hm1] & Hag & Ho). clear Hmerge.
  unfold run, mbind, io_bind. destruct (run_merge ex planner prefix ts s) as [s1 o1]. cbn [fst snd] in *. subst m1.
  assert (Hobj : ∀ ob, view s1 !! obj_path root ob = view s !! obj_path root ob).
  { intros ob. apply Hag. intros E. by apply (Hout ob). }
  destruct (table_frame root v meta _ _ Hobj Ht) as [Ht1 Hl1].
  assert (Hkeep : ∀ l, (∀ f, f ∈ l → f ∈ fs) → rows_left_by_dvs (view s1) (ex_policy ex) l = rows_left_by_dvs (view s) (ex_policy ex) l).
  { intros l Hl. eapply untouched; [exact Hag|]. intros f Hf. rewrite Forall_forall in Hpl.
    destruct (Hpl f (Hl f Hf)) as (_ & [_ Hp] & Hdv). split; [done|]. intros dv Hd. by apply Hdv. }
  assert (Hsame : ∀ o, (∀ x, o ≠ Ret (Ok (Some x))) →
    pass_post (ex_policy ex) rows (plan planner fs) fs (deletes_in (view s) meta None) o (view s1)).
  { intros o Hno. exists v, meta, fs, rows. split; [done|].
    rewrite (proj1 (Hl1 None)), (proj2 (Hl1 None)), Hfs. split; [done|].
    rewrite Hkeep by done. split; [done|]. split; [done|]. split; [by left|]. intros x Hx. by apply Hno in Hx. }
  destruct o1 as [[[[tc merged]|]|err]|]; [|by split; [|apply Hsame]..].
  destruct (Ho tc merged eq_refl) as (-> & Hent & live & Hlive & rows' & Hvis & Hp).
  assert (Hcommit : wp (view s1) (run_commit (plan planner fs) merged snap now)
    (λ o m', pass_post (ex_policy ex) rows (plan planner fs) fs (deletes_in (view s) meta None) o m')).
  { rewrite <- (proj2 (Hl1 None)). eapply (wp_run_commit (view s1) v meta (ex_policy ex) planner out fs rows live rows'); try done.
    - by rewrite (proj1 (Hl1 None)).
    - by rewrite Hkeep.
    - rewrite Hkeep; [done|]. intros f. apply chosen_listed.
    - eapply commit_input_frame; [exact Hobj|done|]. by apply Hin. }
  destruct (wp_run s1 (view s1) _ _ Hcommit ltac:(done)) as (m2 & [Hi2 Hm2] & Hpost).
  destruct (run_commit (plan planner fs) merged snap now s1) as [s2 o2]. cbn [fst snd] in *. by subst m2.
Qed.


(** C37: what a pass replaces.  When it returns a merged file, the table lists the
    files that were not picked and the merged one; no equality delete is left, so rows
    hidden by [delete_where] are back; and the merged file has no partition
    value, so a search restricted to a partition does not read it. *)
Theorem compaction_replaces s v meta ex planner prefix ts snap now fs rows merged :
  compaction_ready s v meta ex planner prefix ts snap fs rows →
  let '(s', o) := run ex planner prefix ts snap now s in
  o = Ret (Ok (Some merged)) →
  ∃ fs', (cp_list_files None s').2 = Ret (Ok fs') ∧
    file_key <$> fs' = file_key <$> next_files (plan planner fs) merged fs ∧
    (cp_list_equality_deletes None s').2 = Ret (Ok []) ∧
    ∀ pv f, f ∈ in_partition (Some pv) fs' → df_path f ≠ df_path merged.
Proof.
  intros Hr. pose proof (run_post s v meta ex planner prefix ts snap now fs rows Hr) as Hp.
  destruct (run ex planner prefix ts snap now s) as [s' o]. intros Ho.
  destruct Hp as (Hi & v' & meta' & fs' & rows' & Ht & Hfs & _ & _ & _ & Hx).
  destruct (Hx merged Ho) as (Hk & Hdel & Hpart). exists fs'.
  change (cp_list_files None s').2 with (list_files root None s').2.
  change (cp_list_equality_deletes None s').2 with (list_equality_deletes root None s').2.
  rewrite (list_files_table s' root v' meta'), (list_deletes_table s' root v' meta'), Hfs, Hdel by done.
  split_and!; [done..|]. intros pv f Hf Hpath. apply list_elem_of_filter in Hf as [Hpv Hf].
  by rewrite (Hpart f Hf Hpath) in Hpv.
Qed.

End Pass.
