(* ===== verification/LocalWp.v ===== *)
(** * Reasoning about programs with local state

    [wpl l m prog Q]: from local state [l] and any store whose contents are [m], the
    program ends with an outcome, a local state and contents that satisfy [Q].  The
    rules follow those of [Effects]. *)

From S2P Require Import Prelude Core FileFormat Store Effects Catalog Deletes DeletesTheorems Jobs.

Section Wpl.
Context {L S : Type} `{StoreLaws S}.
Implicit Types (m : gmap string bytes) (l : L).

Definition wpl {A} l m (prog : Local L S A) (Q : outcome AilakeError A → L → gmap string bytes → Prop) : Prop :=
  ∀ s, sees s m → ∃ s' l' o m', prog (l, s) = ((l', s'), o) ∧ sees s' m' ∧ Q o l' m'.

Lemma wpl_ret {A} l m (a : A) Q : Q (Ret (Ok a)) l m → wpl l m (mret a) Q.
Proof. intros HQ s Hs. by exists s, l, (Ret (Ok a)), m. Qed.

Lemma wpl_outcome {A} l m (o : outcome AilakeError A) Q : Q o l m → wpl l m (io_outcome o) Q.
Proof. intros HQ s Hs. by exists s, l, o, m. Qed.

Lemma wpl_result {A} l m (r : AilakeResult A) Q : Q (Ret r) l m → wpl l m (io_result r) Q.
Proof. apply (wpl_outcome l m (Ret r)). Qed.

Lemma wpl_err {A} l m e (Q : outcome AilakeError A → _) : Q (Ret (Err e)) l m → wpl l m (io_err e) Q.
Proof. apply (wpl_outcome l m (Ret (Err e))). Qed.

Lemma wpl_mono {A} l m (prog : Local L S A) (Q R : outcome AilakeError A → L → gmap string bytes → Prop) :
  wpl l m prog Q → (∀ o l' m', Q o l' m' → R o l' m') → wpl l m prog R.
Proof. intros Hp HQR s Hs. destruct (Hp s Hs) as (s' & l' & o & m' & ? & ? & ?). eauto 10. Qed.

Lemma wpl_bind {A B} l m (prog : Local L S A) (k : A → Local L S B) Q :
  wpl l m prog (λ o l' m', match o with
                           | Ret (Ok a) => wpl l' m' (k a) Q
                           | Ret (Err e) => Q (Ret (Err e)) l' m'
                           | Panic => Q Panic l' m'
                           end) →
  wpl l m (prog ≫= k) Q.
Proof.
  intros Hp s Hs. destruct (Hp s Hs) as (s1 & l1 & o & m1 & E & Hs1 & HQ).
  unfold mbind, io_bind. rewrite E. destruct o as [[a|e]|]; [by apply HQ|naive_solver..].
Qed.

Lemma wpl_catch {A} l m (prog : Local L S A) Q :
  wpl l m prog (λ o l' m', match o with Ret r => Q (Ret (Ok r)) l' m' | Panic => Q Panic l' m' end) →
  wpl l m (io_catch prog) Q.
Proof.
  intros Hp s Hs. destruct (Hp s Hs) as (s1 & l1 & o & m1 & E & Hs1 & HQ).
  unfold io_catch. rewrite E. destruct o; eauto 10.
Qed.

(** Store programs leave the local state. *)
Lemma wpl_store {A} l m (prog : IO S A) (Q : outcome AilakeError A → L → gmap string bytes → Prop) :
  wp m prog (λ o m', Q o l m') → wpl l m (on_store prog) Q.
Proof.
  intros Hp s Hs. destruct (Hp s Hs) as (s1 & o & m1 & E & Hs1 & HQ).
  unfold on_store. rewrite E. eauto 10.
Qed.

Lemma wpl_modify l m (f : L → L) Q : Q (Ret (Ok tt)) (f l) m → wpl l m (modify_local f) Q.
Proof. intros HQ s Hs. by exists s, (f l), (Ret (Ok tt)), m. Qed.

Lemma wpl_get l m Q : Q (Ret (Ok l)) l m → wpl l m get_local Q.
Proof. intros HQ s Hs. by exists s, l, (Ret (Ok l)), m. Qed.

(** From a run. *)
Lemma wpl_run {A} s l m (prog : Local L S A) Q :
  wpl l m prog Q → sees s m →
  ∃ m', sees (prog (l, s)).1.2 m' ∧ Q (prog (l, s)).2 (prog (l, s)).1.1 m'.
Proof. intros Hp Hs. destruct (Hp s Hs) as (s' & l' & o & m' & E & Hs' & HQ). rewrite E. eauto. Qed.

End Wpl.
