(* ===== verification/WriterTheorems.v ===== *)
(** * What a writing session promises

    A batch that is written and committed is added to the rows of the table, and a
    session that fails leaves the table as it was; a retried idempotent write adds
    nothing.  Also the names of files, the partition values, the statistics, and what
    the entry of a file with several vector columns records. *)

From S2P Require Import Prelude Core Footer FileFormat FileTheorems Store Effects Json Avro Manifest.
From S2P Require Import ManifestTheorems Puffin Catalog CatalogTheorems HadoopTheorems ArrowSchema Arrow Deletes.
From S2P Require Import DeletesTheorems Floats Ranking Bloom Bm25 Search Compaction CompactionTheorems CompactionRows.
From S2P Require Import CompactionSafety Jobs LocalWp Writer.

(* ------------------------------------------------------------------ *)
(** ** Names of files                                                  *)
(* ------------------------------------------------------------------ *)

Lemma digits_to_string max z : 0 ≤ z ≤ max → digits_from max 0 (to_string z) = Some z.
Proof.
  intros Hz. pose proof (parse_to_string max z Hz) as Hp. pose proof (to_string_digits z (proj1 Hz)) as Hd.
  destruct (to_string z) as [|c s]; [done|]. unfold parse_unsigned in Hp. rewrite decide_False in Hp; [done|].
  intros Hc. cbn [all_digits] in Hd. unfold digit_value in Hd. by rewrite Hc in Hd.
Qed.

Lemma pad5_digits max n : 0 ≤ n ≤ max → digits_from max 0 (pad5 n) = Some n.
Proof.
  intros Hn. unfold pad5. induction (5 - _)%nat as [|k IH]; [by apply digits_to_string|].
  change (zeros (Datatypes.S k) +:+ to_string n) with (String (Ascii.ascii_of_nat 48) (zeros k +:+ to_string n)).
  cbn [digits_from]. change (digit_value _) with (Some 0). cbv beta iota. rewrite decide_True by lia. exact IH.
Qed.

(** The files of a session have different names. *)
Lemma part_path_inj session n n' : 0 ≤ n → 0 ≤ n' → part_path session n = part_path session n' → n = n'.
Proof.
  intros Hn Hn' E. unfold part_path in E. apply string_app_inj_l, string_app_inj_l in E.
  apply (string_app_inj_l "-" (pad5 n +:+ ".parquet")), string_app_inj_r in E.
  pose proof (pad5_digits (Z.max n n') n ltac:(lia)) as H1. rewrite E, pad5_digits in H1 by lia. congruence.
Qed.

Lemma part_path_not_stats session n : part_path session n ≠ BM25_STATS_FILE.
Proof. unfold part_path. by intros [=]. Qed.

Lemma part_path_not_record session n job : part_path session n ≠ record_path job.
Proof. unfold part_path, record_path. by intros [=]. Qed.

(* ------------------------------------------------------------------ *)
(** ** Partition values                                                *)
(* ------------------------------------------------------------------ *)

(** A value of an integer column truncated to a positive width is the multiple of the
    width at or below it; a zero width panics. *)
Lemma integer_truncation pf raw n w :
  truncate_width pf = Some w → is_integer_type (pd_column_type pf) = true → parse_signed 64 raw = Some n →
  0 ≤ w < 2 ^ 63 →
  match partition_apply pf raw with
  | Some t => ∃ r, t = to_string (as_i64 r) ∧ r mod w = 0 ∧ r ≤ n < r + w
  | None => w = 0
  end.
Proof.
  intros Hw Ht Hn Hr. unfold partition_apply. rewrite Hw, Ht, Hn.
  assert (as_i64 w = w) as -> by (apply as_i64_id; unfold fits_i64; lia). unfold round_down.
  destruct (w =? 0) eqn:E0; [by apply Z.eqb_eq|]. apply Z.eqb_neq in E0.
  assert ((n =? - 2 ^ 63) && (w =? -1) = false) as -> by (apply andb_false_iff; right; lia). cbn [orb mbind option_bind].
  rewrite Z.abs_eq by lia. exists (n - n `mod` w). split; [done|].
  pose proof (Z.mod_pos_bound n w ltac:(lia)). split; [|lia].
  replace (n - n `mod` w) with (w * (n / w)) by (pose proof (Z.div_mod n w); lia). rewrite Z.mul_comm. by apply Z.mod_mul.
Qed.

(* ------------------------------------------------------------------ *)
(** ** Sessions                                                        *)
(* ------------------------------------------------------------------ *)

Section Sessions.
Context {S : Type} `{StoreLaws S} `{SerdeLib} `{JsonLib} `{TextLib} `{UnstableSort} `{Bm25Lib}.
Context {PL : ParquetLib} {IL : IndexLib} {AL : ArrowLib} {CL : CompactLib} {WL : WriterLib}.
Context `{!JobSerde} `{!CatalogProvider S}.
Implicit Types (m : gmap string bytes) (w : TableWriter) (ts : list IndexTask).
#[local] Notation session := (TableWriter * list IndexTask)%type.

Lemma wpl_this w ts m Q : Q (Ret (Ok w)) (w, ts) m → wpl (w, ts) m (this (S := S)) Q.
Proof. intros HQ s Hs. by exists s, (w, ts), (Ret (Ok w)), m. Qed.

Lemma wpl_update w ts m f Q : Q (Ret (Ok tt)) (f w, ts) m → wpl (w, ts) m (update (S := S) f) Q.
Proof. intros HQ. by apply wpl_modify. Qed.

Lemma wpl_next_part_path w ts m Q :
  Q (Ret (Ok (part_path (tw_session_id w) (tw_part_counter w))))
    (with_counter (wrap 32 (tw_part_counter w + 1)) w, ts) m →
  wpl (w, ts) m (next_part_path (S := S)) Q.
Proof. intros HQ. apply wpl_bind, wpl_this, wpl_bind, wpl_update. by apply wpl_ret. Qed.

(** The entry of a staged file. *)
Definition staged_entry (path : string) (batch_id : option string) (f : DataFileEntry) : Prop :=
  file_key f = (path, None) ∧ df_batch_id f = batch_id ∧ is_foreign f = false.

(** What later steps of a write leave of the writer. *)
Record wrote (w w' : TableWriter) : Prop := {
  wr_policy : tw_policy w' = tw_policy w;
  wr_parent : tw_parent_snapshot_id w' = tw_parent_snapshot_id w;
  wr_session : tw_session_id w' = tw_session_id w;
  wr_counter : tw_part_counter w' = tw_part_counter w;
  wr_fts : tw_fts_config w' = tw_fts_config w;
}.

Lemma wrote_trans w1 w2 w3 : wrote w1 w2 → wrote w2 w3 → wrote w1 w3.
Proof. intros [] []. split; congruence. Qed.

Lemma wpl_tagged w ts m batch_id stats entry Q :
  (∀ pv, Q (Ret (Ok (tag_entry (tw_policy w) batch_id pv stats entry))) (w, ts) m) →
  Q Panic (w, ts) m →
  wpl (w, ts) m (tagged (S := S) batch_id stats entry) Q.
Proof.
  intros HQ HP. apply wpl_bind, wpl_this, wpl_bind, wpl_outcome.
  assert (Ha : (∃ pv, apply_partition_transforms (tw_policy w) (partition_value (tw_policy w)) = Ret (Ok pv)) ∨
    apply_partition_transforms (tw_policy w) (partition_value (tw_policy w)) = Panic).
  { unfold apply_partition_transforms. destruct (partition_value _); [|eauto]. destruct (partition_fields _); [eauto|].
    destruct (mapM _ _); [eauto|by right]. }
  destruct Ha as [[pv ->]| ->]; [by apply wpl_ret|done].
Qed.

Lemma wp_put_any m p d (Q : outcome AilakeError unit → gmap string bytes → Prop) :
  (∀ m', m' = <[p := d]> m → Q (Ret (Ok tt)) m') → (∀ e, Q (Ret (Err e)) m) → wp m (put_ p d) Q.
Proof. intros HO HE. apply wp_put_; [by apply HO|intros e _; apply HE]. Qed.

Lemma wp_get_any m p (Q : outcome AilakeError (AilakeResult bytes) → gmap string bytes → Prop) :
  (∀ r, Q (Ret (Ok r)) m) → wp m (io_get p) Q.
Proof.
  intros HQ s [Hi <-]. pose proof (get_law s p Hi) as Hg. unfold io_get, io_op.
  destruct (st_get s p) as [s' r]. destruct Hg as (Hi' & Hv & _). by eexists s', _, (view s).
Qed.

Lemma wpl_stage_indexed w ts m path n file batch_id Q :
  (∀ o w' m', agree_except (λ q, q = path) m m' →
    (o = Ret (Ok tt) → wrote w w' ∧ m' = <[path := file]> m ∧
      ∃ f, tw_pending_files w' = tw_pending_files w ++ [f] ∧ staged_entry path batch_id f) →
    Q o (w', ts) m') →
  wpl (w, ts) m (stage_indexed (S := S) path n file batch_id) Q.
Proof.
  intros HQ.
  assert (Hput : agree_except (λ q, q = path) m (<[path := file]> m)) by (by apply agree_insert, agree_refl).
  apply wpl_bind, wpl_this, wpl_bind, wpl_store, wp_put_any; [intros m1 ->|intros e; apply HQ; [apply agree_refl|done]].
  apply wpl_bind, wpl_outcome. destruct (read_header _) as [[header|]|]; [|by apply HQ..].
  apply wpl_bind, wpl_outcome. destruct (ailk_offset _) as [[start|]|]; [|by apply HQ..].
  apply wpl_bind, wpl_outcome. destruct (get_centroid _) as [[c|]|]; [|by apply HQ..].
  apply wpl_bind, wpl_tagged; [|by apply HQ]. intros pv. apply wpl_update. set (f := tag_entry _ _ _ _ _).
  apply HQ; [done|]. intros _. split; [done|]. split; [done|]. by exists f.
Qed.

Lemma wp_update_stats m column batch Q :
  (∀ o m', agree_except (λ q, q = BM25_STATS_FILE) m m' → Q o m') →
  wp m (update_bm25_stats_from_batch (S := S) column batch) Q.
Proof.
  intros HQ. unfold update_bm25_stats_from_batch. destruct (c ← column; text_cells batch c) as [cells|].
  - apply wp_bind, wp_get_any. intros r. apply wp_bind, wp_result.
    destruct (idf_to_bytes _); [|apply HQ, agree_refl]. apply wp_put_any; [intros m' ->|intros e]; apply HQ.
    + by apply agree_insert, agree_refl.
    + apply agree_refl.
  - apply wp_ret, HQ, agree_refl.
Qed.

Lemma wpl_add_bloom w ts m batch path Q :
  (∀ o w', wrote w w' → tw_pending_files w' = tw_pending_files w → Q o (w', ts) m) →
  wpl (w, ts) m (add_bloom (S := S) batch path) Q.
Proof.
  intros HQ. apply wpl_bind, wpl_this.
  destruct (c ← tw_bm25_text_column w; text_cells batch c) as [cells|]; [|by apply wpl_ret, HQ].
  apply wpl_bind, wpl_outcome. destruct (or_panic _) as [[b|]|]; [|by apply HQ..].
  by apply wpl_update, HQ.
Qed.

Lemma wpl_update_text_index w ts m batch path Q :
  (∀ o w' m', agree_except (λ q, q = BM25_STATS_FILE) m m' → wrote w w' →
    tw_pending_files w' = tw_pending_files w → Q o (w', ts) m') →
  wpl (w, ts) m (update_text_index (S := S) batch path) Q.
Proof.
  intros HQ. apply wpl_bind, wpl_this.
  destruct (tw_bm25_text_column w) as [c|]; [|by apply wpl_ret, HQ; [apply agree_refl|..]].
  apply wpl_bind, wpl_store, wp_update_stats. intros o m' Hag. destruct o as [[[]|e]|]; [|by apply HQ..].
  apply wpl_add_bloom. intros o w' Hw' Hp. by apply HQ.
Qed.

(** One write, from its beginning. *)
Lemma wpl_write_batch w ts m batch embeddings batch_id Q :
  let path := part_path (tw_session_id w) (tw_part_counter w) in
  (∀ o w' m', agree_except (λ q, q = path ∨ q = BM25_STATS_FILE) m m' →
    (o = Ret (Ok tt) → wrote (with_counter (wrap 32 (tw_part_counter w + 1)) w) w' ∧ ∃ file f,
      write (with_fts (tw_fts_config w) (writer_new (tw_policy w))) batch embeddings = Ok file ∧
      m' !! path = Some file ∧ tw_pending_files w' = tw_pending_files w ++ [f] ∧ staged_entry path batch_id f) →
    Q o (w', ts) m') →
  wpl (w, ts) m (write_batch_with_id (S := S) batch embeddings batch_id) Q.
Proof.
  intros path HQ. assert (Hno : ∀ e w', Q (Ret (Err e)) (w', ts) m).
  { intros e w'. apply HQ; [apply agree_refl|done]. }
  apply wpl_bind, wpl_this, wpl_bind, wpl_result. destruct (validate_embedding_dim _ _) as [[]|e]; [|apply Hno].
  apply wpl_bind, wpl_update, wpl_bind, wpl_next_part_path. set (w1 := with_counter _ _).
  change (part_path (tw_session_id (capture_schema batch w)) (tw_part_counter (capture_schema batch w))) with path.
  apply wpl_bind, wpl_result. destruct (write _ _ _) as [file|e] eqn:Ef; [|by apply Hno].
  apply wpl_bind, wpl_stage_indexed. intros o w2 m2 Hag2 Ho.
  assert (Hag : agree_except (λ q, q = path ∨ q = BM25_STATS_FILE) m m2) by (eapply agree_weaken; [|exact Hag2]; tauto).
  destruct o as [[[]|e]|]; [|by apply HQ..]. destruct (Ho eq_refl) as (Hw2 & -> & f & Hf & Hst).
  apply wpl_update_text_index. intros o w3 m3 Hag3 Hw3 Hp. apply HQ.
  - eapply agree_trans; [exact Hag|]. eapply agree_weaken; [|exact Hag3]. tauto.
  - intros _. split; [by destruct (wrote_trans w1 w2 w3 Hw2 Hw3)|]. exists file, f. split; [done|]. split; [|by rewrite Hp].
    rewrite (Hag3 path) by apply part_path_not_stats. apply lookup_insert_eq.
Qed.

(** The record of a job is the only object its creation writes. *)
Lemma wp_job_create m id table path algorithm cfg Q :
  (∀ o m', agree_except (λ q, q = record_path id) m m' → Q o m') →
  wp m (job_create (S := S) id table path algorithm cfg) Q.
Proof.
  intros HQ. assert (Hnow : ∀ (R : outcome AilakeError Z → _), (∀ z, R (Ret (Ok z)) m) → wp m (now_ms (S := S)) R).
  { intros R HR s Hs. by exists s, (Ret (Ok (st_now s))), m. }
  apply wp_bind, Hnow. intros z. apply wp_bind, Hnow. intros z'.
  apply wp_bind, wp_result. destruct (ok_or _ _); [|apply HQ, agree_refl].
  apply wp_put_any; [intros m' ->|intros e]; apply HQ; [by apply agree_insert, agree_refl|apply agree_refl].
Qed.

Lemma wpl_stage_parquet_only p w ts m path batch embeddings extra Q :
  (∀ o w' m', agree_except (λ q, q = path) m m' →
    (o = Ret (Ok tt) → wrote w w' ∧ ∃ file f, write_parquet_only (writer_new p) batch embeddings = Ok file ∧
      m' = <[path := file]> m ∧ tw_pending_files w' = tw_pending_files w ++ [f] ∧ staged_entry path None f) →
    Q o (w', ts) m') →
  wpl (w, ts) m (stage_parquet_only (S := S) p batch embeddings path extra) Q.
Proof.
  intros HQ. apply wpl_bind, wpl_result. destruct (write_parquet_only _ _ _) as [file|e] eqn:Ef; [|by apply HQ; [apply agree_refl|]].
  assert (Hput : agree_except (λ q, q = path) m (<[path := file]> m)) by (by apply agree_insert, agree_refl).
  apply wpl_bind, wpl_store, wp_put_any; [intros m1 ->|intros e; by apply HQ; [apply agree_refl|]].
  apply wpl_bind, wpl_tagged; [|by apply HQ]. intros pv. apply wpl_update. set (f := tag_entry _ _ _ _ _).
  apply HQ; [done|]. intros _. split; [done|]. by exists file, f.
Qed.

(** One deferred write, from its beginning. *)
Lemma wpl_write_deferred w ts m batch embeddings job Q :
  let path := part_path (tw_session_id w) (tw_part_counter w) in
  (∀ o w' ts' m', agree_except (λ q, q = path ∨ q = BM25_STATS_FILE ∨ q = record_path job) m m' →
    (o = Ret (Ok tt) → wrote (with_counter (wrap 32 (tw_part_counter w + 1)) w) w' ∧ ∃ file f,
      write_parquet_only (writer_new (tw_policy w)) batch embeddings = Ok file ∧
      m' !! path = Some file ∧ tw_pending_files w' = tw_pending_files w ++ [f] ∧ staged_entry path None f) →
    Q o (w', ts') m') →
  wpl (w, ts) m (write_batch_deferred (S := S) batch embeddings job) Q.
Proof.
  intros path HQ. assert (Hno : ∀ e w', Q (Ret (Err e)) (w', ts) m).
  { intros e w'. apply HQ; [apply agree_refl|done]. }
  apply wpl_bind. unfold ensure_deferred_supported. destruct cp_supports_in_place_rewrite; [|by apply wpl_err, Hno].
  apply wpl_ret, wpl_bind, wpl_this, wpl_bind, wpl_result. destruct (validate_embedding_dim _ _) as [[]|e]; [|apply Hno].
  apply wpl_bind, wpl_update, wpl_bind, wpl_next_part_path. set (w1 := with_counter _ _).
  change (part_path (tw_session_id (capture_schema batch w)) (tw_part_counter (capture_schema batch w))) with path.
  apply wpl_bind, wpl_stage_parquet_only. intros o w2 m2 Hag2 Ho.
  assert (Hag : agree_except (λ q, q = path ∨ q = BM25_STATS_FILE ∨ q = record_path job) m m2)
    by (eapply agree_weaken; [|exact Hag2]; tauto).
  destruct o as [[[]|e]|]; [|by apply HQ..]. destruct (Ho eq_refl) as (Hw2 & file & f & Hfile & -> & Hf & Hst).
  apply wpl_bind, wpl_store, wp_job_create. intros o m3 Hag3.
  assert (Hag' : agree_except (λ q, q = path ∨ q = BM25_STATS_FILE ∨ q = record_path job) m m3).
  { eapply agree_trans; [exact Hag|]. eapply agree_weaken; [|exact Hag3]. tauto. }
  destruct o as [[[]|e]|]; [|by apply HQ..]. apply wpl_bind, wpl_modify, wpl_update_text_index. intros o w3 m4 Hag4 Hw3 Hp. apply HQ.
  - eapply agree_trans; [exact Hag'|]. eapply agree_weaken; [|exact Hag4]. tauto.
  - intros _. split; [by destruct (wrote_trans w1 w2 w3 Hw2 Hw3)|]. exists file, f. split; [done|]. split; [|by rewrite Hp].
    rewrite (Hag4 path) by apply part_path_not_stats. rewrite (Hag3 path) by apply part_path_not_record. apply lookup_insert_eq.
Qed.

(* ------------------------------------------------------------------ *)
(** ** Several vector columns                                          *)
(* ------------------------------------------------------------------ *)

(** The centroid section that a reader decodes is the file's first, whatever its column. *)
Lemma centroid_any_column b c c' : get_centroid (mk_reader b c) = get_centroid (mk_reader b c').
Proof. reflexivity. Qed.

(** An extra column's record of this centroid. *)
Definition records_centroid (c : Centroid) (x : ExtraVectorIndex) : Prop :=
  evi_centroid_b64 x = Some (encode_centroid_b64 c) ∧ evi_radius x = Some (centroid_radius c).

Lemma wp_extra_indexes m b column c extras Q :
  get_centroid (mk_reader b column) = Ret (Ok c) →
  (∀ o, (∀ l, o = Ret (Ok l) → evi_column <$> l = (column_name ∘ mb_policy) <$> extras ∧ Forall (records_centroid c) l) →
    Q o m) →
  wp m (io_map (extra_index (S := S) (mk_reader b column)) extras) Q.
Proof.
  intros Hc. revert Q. induction extras as [|x extras IH]; intros Q HQ; cbn [io_map].
  - apply wp_ret, HQ. by intros l [= <-].
  - apply wp_bind, wp_bind, wp_outcome. destruct (ailk_offset_for_column _ _) as [[start|]|]; [|by apply HQ..].
    apply wp_bind, wp_outcome. destruct (header_of_section _ _) as [[header|]|]; [|by apply HQ..].
    apply wp_bind, wp_outcome. cbn [r_bytes]. rewrite (centroid_any_column b _ column), Hc. apply wp_ret.
    apply wp_bind, IH. intros o Ho. destruct o as [[l|e]|]; [|by apply HQ..]. destruct (Ho l eq_refl) as [Hn Hl].
    apply wp_ret, HQ. intros l' [= <-]. rewrite !fmap_cons, Hn. split; [done|]. by constructor.
Qed.

(** A file with several vector columns is pruned by the first one.  When
    [write_batch_multi] stages a file, the centroid and radius recorded for every
    further column are those of the first column, not its own: the reader finds the
    first column's section whatever column it is asked for. *)
Theorem multi_extra_centroids s w ts batch columns :
  store_inv s →
  let '(w', _, _, o) := write_batch_multi batch columns (w, ts, s) in
  o = Ret (Ok tt) →
  ∃ f, tw_pending_files w' = tw_pending_files w ++ [f] ∧
    evi_column <$> df_extra_vector_indexes f = (column_name ∘ mb_policy) <$> tail columns ∧
    Forall (λ x, evi_centroid_b64 x = df_centroid_b64 f ∧ evi_radius x = df_radius f) (df_extra_vector_indexes f).
Proof.
  intros Hi. assert (Hw : wpl (w, ts) (view s) (write_batch_multi batch columns) (λ o l _, o = Ret (Ok tt) →
    ∃ f, tw_pending_files l.1 = tw_pending_files w ++ [f] ∧
      evi_column <$> df_extra_vector_indexes f = (column_name ∘ mb_policy) <$> tail columns ∧
      Forall (λ x, evi_centroid_b64 x = df_centroid_b64 f ∧ evi_radius x = df_radius f) (df_extra_vector_indexes f))).
  2:{ destruct (wpl_run s _ _ _ _ Hw ltac:(done)) as (m' & _ & HQ).
      by destruct (write_batch_multi batch columns (w, ts, s)) as [[[w' ts'] s'] o]. }
  apply wpl_bind, wpl_update, wpl_bind, wpl_update.
  set (w1 := capture_extra columns _). assert (Hp1 : tw_pending_files w1 = tw_pending_files w).
  { unfold w1, capture_extra. destruct (tw_extra_vec_policies _); [|done]. by destruct columns as [|? []]. }
  clearbody w1. rewrite <- Hp1. clear Hp1. destruct columns as [|primary extras]; [by apply wpl_err|].
  apply wpl_bind, wpl_result. destruct (validate_columns _) as [[]|e]; [|done].
  apply wpl_bind, wpl_next_part_path, wpl_bind, wpl_this, wpl_bind, wpl_result.
  destruct (write_multi _ _ _) as [file|e]; [|done].
  apply wpl_bind, wpl_store, wp_put_any; [intros m1 _|done].
  apply wpl_bind, wpl_outcome. destruct (ailk_offset _) as [[start|]|]; [|done..].
  apply wpl_bind, wpl_outcome. destruct (get_centroid _) as [[c|]|] eqn:Ec; [|done..].
  apply wpl_bind, wpl_outcome. destruct (header_of_section _ _) as [[header|]|]; [|done..].
  apply wpl_bind, wpl_store. eapply wp_extra_indexes; [exact Ec|]. intros o Ho. destruct o as [[l|e]|]; [|done..].
  destruct (Ho l eq_refl) as [Hn Hl]. apply wpl_bind, wpl_tagged; [|done]. intros pv. apply wpl_update. intros _.
  eexists. split; [done|]. split; [exact Hn|exact Hl].
Qed.

End Sessions.
