(* ===== verification/WriterSafety.v ===== *)
(** * Writing sessions add rows

    A session that writes some batches and commits adds exactly their rows to the
    table, or, where it fails, leaves its rows; older snapshots and the equality
    deletes are as before.  An idempotent write that is retried after any outcome is
    there once. *)

From S2P Require Import Prelude Core Footer FileFormat FileTheorems Store Effects Json Avro Manifest.
From S2P Require Import ManifestTheorems Puffin Catalog CatalogTheorems HadoopTheorems ArrowSchema Arrow Deletes.
From S2P Require Import DeletesTheorems Floats Ranking Bloom Bm25 Search Compaction CompactionTheorems CompactionRows.
From S2P Require Import CompactionSafety Jobs LocalWp Writer WriterTheorems.

(** With its index, under a key or none; or indexed by a job later. *)
Inductive WriteMode : Type := Indexed (batch_id : option string) | Background (job_id : string).
Definition mode_key (mode : WriteMode) : option string := match mode with Indexed id => id | Background _ => None end.

Section Table.
Context {S : Type} `{ReliableReads S} `{!LockStore S} `{!LockLaws S}.
Context `{AvroLaws} `{SerdeLaws} `{JsonLib} `{BincodeLib} `{MetaLaws} `{RoaringLaws}.
Context `{TextLib} `{UnstableSort} `{Bm25Lib}.
Context {PL : ParquetLib} {IL : IndexLib} {AL : ArrowLib} {QL : QueryLib} {CL : CompactLib} {WL : WriterLib}.
Context {LW : ParquetLaws PL} `{!ArrowLaws} `{!ReadBackLaws} `{!JobSerde}.
Context (root warehouse : string).
Implicit Types (m : gmap string bytes) (w : TableWriter) (ts : list IndexTask).
#[local] Notation session := (TableWriter * list IndexTask)%type.

#[local] Instance session_catalog : CatalogProvider S := catalog root warehouse.

(** A batch, its vectors and how they are written. *)
#[local] Notation call := (RecordBatch * list vec32 * WriteMode)%type.

Definition write_call : call → Local session S unit :=
  λ '(batch, embeddings, mode),
    match mode with
    | Indexed id => write_batch_with_id batch embeddings id
    | Background job => write_batch_deferred batch embeddings job
    end.

(** A session: some batches, then the commit. *)
Definition write_session (calls : list call) (snap now : Z) : Local session S Z :=
  io_map write_call calls;; w ← this; on_store (tw_commit w snap now).

(** The rows of the calls as the policy stores them. *)
Definition call_rows (p : VectorStoragePolicy) (c : call) : list Row :=
  zip (named_rows c.1.1) (stored_vector p <$> c.1.2).
Definition new_rows (p : VectorStoragePolicy) (calls : list call) : list Row := calls ≫= call_rows p.

Definition call_ok (p : VectorStoragePolicy) (c : call) : Prop :=
  column_name p ∉ field_names c.1.1 ∧ 0 < num_rows c.1.1.

(** The keys of the files of some calls. *)
Definition call_keys (calls : list call) : list (option string) := (λ c, mode_key c.2) <$> calls.

(** Where a session writes: statistics, its parts, and the records of jobs. *)
Definition session_path (session_id q : string) : Prop :=
  q = BM25_STATS_FILE ∨ (∃ n, q = part_path session_id n) ∨ ∃ job, q = record_path job.

(** A listed file that neither a commit nor the session overwrites. *)
Definition clear_of (session_id : string) (f : DataFileEntry) : Prop :=
  ∀ q, q = df_path f ∨ (∃ dv, df_deletion_vector f = Some dv ∧ q = dv_path dv) →
    ¬ session_path session_id q ∧ ∀ o, q ≠ obj_path root o.

(* ------------------------------------------------------------------ *)
(** ** Staged files                                                    *)
(* ------------------------------------------------------------------ *)

(** A file without an index is a Parquet file with nothing spliced in. *)
Lemma parquet_only_spliced p b e f : write_parquet_only (writer_new p) b e = Ok f → spliced p b e f.
Proof.
  unfold write_parquet_only. rewrite bind_Ok. intros ([f1 n1] & Hw & Hf). injection Hf as <-.
  destruct (write_batch_arrow _ _ _ _ _ _ Hw) as [Ha Hl].
  apply write_batch_layout in Hw as (_ & -> & _). split; [done|]. by exists [], [], (row_groups p b e ++ parquet_tail p b e (base_kv p (num_rows b) ++ [])).
Qed.

Record staged m w (rows : list Row) (ids : list (option string)) : Prop := {
  sg_rows : rows_left_by_dvs m (tw_policy w) (tw_pending_files w) = Some rows;
  sg_paths : Forall (λ f, ∃ i, 0 ≤ i < tw_part_counter w ∧ file_key f = (part_path (tw_session_id w) i, None))
               (tw_pending_files w);
  sg_ids : df_batch_id <$> tw_pending_files w = ids;
}.

(** The same writer, later. *)
Record later w w' : Prop := {
  lt_policy : tw_policy w' = tw_policy w;
  lt_parent : tw_parent_snapshot_id w' = tw_parent_snapshot_id w;
  lt_session : tw_session_id w' = tw_session_id w;
}.

Lemma staged_one m m' w w' rows ids c file f :
  staged m w rows ids → call_ok (tw_policy w) c → raw_policy (tw_policy w) →
  0 ≤ tw_part_counter w → tw_part_counter w + 1 < 2 ^ 32 →
  (∀ i, i ≠ tw_part_counter w → 0 ≤ i →
    m' !! part_path (tw_session_id w) i = m !! part_path (tw_session_id w) i) →
  wrote (with_counter (wrap 32 (tw_part_counter w + 1)) w) w' →
  spliced (tw_policy w) c.1.1 c.1.2 file →
  m' !! part_path (tw_session_id w) (tw_part_counter w) = Some file →
  tw_pending_files w' = tw_pending_files w ++ [f] →
  staged_entry (part_path (tw_session_id w) (tw_part_counter w)) (mode_key c.2) f →
  staged m' w' (rows ++ call_rows (tw_policy w) c) (ids ++ [mode_key c.2]).
Proof.
  intros [Hrows Hpaths Hids] [Hcol Hnum] [Hraw Hprec] Hc Hc1 Hag [Ep _ Es Ec _] Hf Hm Hpend (Hk & Hb & _).
  cbn in Ep, Es, Ec. unfold wrap in Ec. rewrite Z.mod_small in Ec by lia.
  assert (Hold : rows_left_by_dvs m' (tw_policy w) (tw_pending_files w) = Some rows).
  { rewrite <- Hrows. apply contents_agree. eapply Forall_impl; [exact Hpaths|].
    intros g (i & Hi & Hg). unfold file_key in Hg. injection Hg as Egp Egd. unfold key_agrees. rewrite Egp, Egd.
    split; [|done]. apply Hag; lia. }
  split.
  - rewrite Ep, Hpend. apply contents_app; [done|]. apply contents_cons.
    exists (call_rows (tw_policy w) c), []. rewrite app_nil_r. split; [|done]. rewrite Hk. unfold left_by_dv. cbn [fst snd].
    rewrite Hm. cbn. by rewrite (spliced_stored_rows _ _ _ _ Hf).
  - rewrite Hpend, Es, Ec. apply Forall_app. split.
    + eapply Forall_impl; [exact Hpaths|]. intros g (i & Hi & Hg). exists i. split; [lia|done].
    + apply Forall_singleton. exists (tw_part_counter w). split; [lia|done].
  - by rewrite Hpend, fmap_app, Hids, fmap_cons, Hb.
Qed.

(** One write of a session. *)
Lemma wpl_write_call c w ts m rows ids Q :
  staged m w rows ids → raw_policy (tw_policy w) → call_ok (tw_policy w) c →
  0 ≤ tw_part_counter w → tw_part_counter w + 1 < 2 ^ 32 →
  (∀ o w' ts' m', agree_except (session_path (tw_session_id w)) m m' →
    (o = Ret (Ok tt) → later w w' ∧ tw_part_counter w' = tw_part_counter w + 1 ∧
      staged m' w' (rows ++ call_rows (tw_policy w) c) (ids ++ [mode_key c.2])) →
    Q o (w', ts') m') →
  wpl (w, ts) m (write_call c) Q.
Proof.
  intros Hst Hraw Hok Hc Hc1 HQ. destruct c as [[b e] mode].
  assert (Hlater : ∀ w1, wrote (with_counter (wrap 32 (tw_part_counter w + 1)) w) w1 →
    later w w1 ∧ tw_part_counter w1 = tw_part_counter w + 1).
  { intros w1 [Ep Epar Es Ecnt _]. cbn in *. unfold wrap in Ecnt. rewrite Z.mod_small in Ecnt by lia. by split; [split|]. }
  destruct mode as [id|job]; cbn [write_call]; [apply wpl_write_batch|apply wpl_write_deferred].
  - intros o w1 m1 Hag Ho.
    apply HQ; [eapply agree_weaken; [|exact Hag]; unfold session_path; naive_solver|]. intros ->.
    destruct (Ho eq_refl) as (Hw & file & f & Hf & Hm & Hp & He). destruct (Hlater w1 Hw) as [Hl Ecnt].
    split; [done|]. split; [done|]. eapply staged_one; try done.
    + intros i Hi Hi0. apply Hag. intros [E|E]; [by apply part_path_inj in E|by apply part_path_not_stats in E].
    + apply write_spliced in Hf. by destruct (tw_fts_config w).
  - intros o w1 ts' m1 Hag Ho.
    apply HQ; [eapply agree_weaken; [|exact Hag]; unfold session_path; naive_solver|]. intros ->.
    destruct (Ho eq_refl) as (Hw & file & f & Hf & Hm & Hp & He). destruct (Hlater w1 Hw) as [Hl Ecnt].
    split; [done|]. split; [done|]. eapply staged_one; try done.
    + intros i Hi Hi0. apply Hag. intros [E|[E|E]];
        [by apply part_path_inj in E|by apply part_path_not_stats in E|by apply part_path_not_record in E].
    + by apply parquet_only_spliced in Hf.
Qed.

(** All the writes of a session. *)
Lemma wpl_write_calls calls w ts m rows ids Q :
  staged m w rows ids → raw_policy (tw_policy w) → Forall (call_ok (tw_policy w)) calls →
  0 ≤ tw_part_counter w → tw_part_counter w + Zlen calls < 2 ^ 32 →
  (∀ o w' ts' m', agree_except (session_path (tw_session_id w)) m m' →
    (∀ l, o = Ret (Ok l) → later w w' ∧ staged m' w' (rows ++ new_rows (tw_policy w) calls) (ids ++ call_keys calls)) →
    Q o (w', ts') m') →
  wpl (w, ts) m (io_map write_call calls) Q.
Proof.
  revert w ts m rows ids Q. induction calls as [|c calls IH]; intros w ts m rows ids Q Hst Hraw Hok Hc Hlen HQ.
  - apply wpl_ret, HQ; [apply agree_refl|]. intros l _. cbn. rewrite !app_nil_r. by split; [|].
  - apply Forall_cons in Hok as [Hc1 Hok]. cbn [length] in Hlen. cbn [io_map].
    eapply wpl_bind, wpl_write_call; [done..|lia|]. intros o w1 ts1 m1 Hag1 Ho.
    destruct o as [[[]|err]|]; [|by apply HQ..]. destruct (Ho eq_refl) as ([Ep Epar Es] & Ecnt & Hst1).
    apply wpl_bind, (IH w1 ts1 m1 _ _ _ Hst1); rewrite ?Ep, ?Ecnt; [done|done|lia|lia|].
    intros o w2 ts2 m2 Hag2 Ho2. rewrite Es in Hag2.
    assert (Hag' : agree_except (session_path (tw_session_id w)) m m2) by (by eapply agree_trans).
    destruct o as [[l|err]|]; [|by apply HQ..]. apply wpl_ret, HQ; [done|]. intros l' _.
    destruct (Ho2 l eq_refl) as [[F1 F2 F3] Hst2]. split; [split; congruence|].
    by rewrite <- !app_assoc in Hst2.
Qed.

(* ------------------------------------------------------------------ *)
(** ** The commit                                                      *)
(* ------------------------------------------------------------------ *)

(** The table after a session that ended in [o]: the files, rows and keys listed, the
    equality deletes and the older snapshots. *)
Definition session_post m0 (meta0 : IcebergMetadata) p (fs : list DataFileEntry) (ds : list EqualityDeleteFile)
    (rows new : list Row) (ids : list (option string)) (o : outcome AilakeError Z) m : Prop :=
  ∃ v meta added, table m root v meta ∧ files_in m meta None = Ok (fs ++ added) ∧ deletes_in m meta None = Ok ds ∧
    (∀ sid, sid ∈ snap_ids meta0 → files_in m meta (Some sid) = files_in m0 meta0 (Some sid)) ∧
    ((added = [] ∧ rows_left_by_dvs m p (fs ++ added) = Some rows ∧ ∀ r, o = Ret (Ok r) → ids = []) ∨
     (df_batch_id <$> added = ids ∧ rows_left_by_dvs m p (fs ++ added) = Some (rows ++ new))).

Lemma clear_contents session_id p m m' fs :
  Forall (clear_of session_id) fs →
  agree_except (λ q, session_path session_id q ∨ ∃ o, q = obj_path root o) m m' → rows_left_by_dvs m' p fs = rows_left_by_dvs m p fs.
Proof.
  intros Hpl Hag. eapply untouched; [exact Hag|]. intros f Hf. rewrite Forall_forall in Hpl. pose proof (Hpl f Hf) as Hc.
  split; [|intros dv Hdv].
  - destruct (Hc _ (or_introl eq_refl)) as [Hs Ho]. intros [E|[o E]]; [done|by apply (Ho o)].
  - destruct (Hc _ (or_intror (ex_intro _ dv (conj Hdv eq_refl)))) as [Hs Ho].
    intros [E|[o E]]; [done|by apply (Ho o)].
Qed.

(** The listing a commit of a session's files leaves. *)
Lemma append_listing m v meta w snap fs ds rows ids m' meta' :
  is_absolute warehouse = false → staged m w rows ids →
  (∀ n o, part_path (tw_session_id w) n ≠ obj_path root o) →
  files_in m meta None = Ok fs → deletes_in m meta None = Ok ds →
  committed m root warehouse v meta (commit_snapshot_of w snap) m' meta' →
  ∃ added, files_in m' meta' None = Ok (fs ++ added) ∧ deletes_in m' meta' None = Ok ds ∧
    df_batch_id <$> added = ids ∧ rows_left_by_dvs m' (tw_policy w) added = Some rows.
Proof.
  intros Hw [Hrows Hpaths Hids] Hobj Hfs Hds Hc. set (sn := commit_snapshot_of w snap) in *.
  rewrite (c_files _ _ _ _ _ _ _ _ Hc fs Hfs), (c_deletes _ _ _ _ _ _ _ _ Hc ds Hds).
  eexists. split; [done|]. split; [by rewrite app_nil_r|].
  assert (Hg : ∀ {A} (g : DataFileEntry → A), (∀ f id, g (set_first_row_id f id) = g f) →
    (∀ f, g (absolute_file warehouse f) = g f) → (∀ sq sp f, g (read_back sq sp f) = g f) →
    g <$> (read_back (commit_seq meta) (commit_spec meta) <$> committed_files warehouse meta sn) =
    g <$> tw_pending_files w).
  { intros A g Hg1 Hg2 Hg3. rewrite <- list_fmap_compose. transitivity (g <$> committed_files warehouse meta sn).
    - apply list_fmap_ext. intros i f _. apply Hg3.
    - by apply (committed_fmap warehouse g meta sn). }
  split; [by rewrite Hg|]. rewrite <- Hrows. erewrite contents_keys.
  - eapply untouched; [apply (c_frame _ _ _ _ _ _ _ _ Hc)|]. intros f Hf. rewrite Forall_forall in Hpaths.
    destruct (Hpaths f Hf) as (i & _ & Hk). unfold file_key in Hk. injection Hk as Ep Ed. rewrite Ep, Ed.
    split; [|done]. intros [o E]. by apply Hobj in E.
  - apply Hg; [done| |done]. intros f. apply absolute_file_key. by right.
Qed.

Section OneSession.
Context m (v : Z) (meta : IcebergMetadata) (w : TableWriter) (fs : list DataFileEntry)
  (ds : list EqualityDeleteFile) (rows new : list Row) (ids : list (option string)).
Context (Hfs : files_in m meta None = Ok fs) (Hds : deletes_in m meta None = Ok ds).
Context (Hrows : rows_left_by_dvs m (tw_policy w) fs = Some rows) (Hpl : Forall (clear_of (tw_session_id w)) fs).
Context (Hobj : ∀ q, session_path (tw_session_id w) q → ∀ o, q ≠ obj_path root o).
Context (Habs : is_absolute warehouse = false) (Ht : table m root v meta).
#[local] Notation post := (session_post m meta (tw_policy w) fs ds rows new ids).

(** What touches nothing but the session's own paths leaves the table. *)
Lemma quiet_listings m1 : agree_except (session_path (tw_session_id w)) m m1 → same_listings m root v meta m1.
Proof.
  intros Hag. apply table_frame; [|done]. intros o. apply Hag. intros E. by apply (Hobj _ E o).
Qed.

Lemma unchanged_session_post o m1 :
  same_listings m root v meta m1 →
  agree_except (λ q, session_path (tw_session_id w) q ∨ ∃ o, q = obj_path root o) m m1 →
  (∀ r, o = Ret (Ok r) → ids = []) → post o m1.
Proof.
  intros [Ht1 Hl] Hag Hids. exists v, meta, []. destruct (Hl None) as [E1 E2]. rewrite app_nil_r, E1, E2.
  split_and!; [done..|intros sid _; apply Hl|]. left. split; [done|]. split; [|done].
  by rewrite (clear_contents _ _ _ _ _ Hpl Hag).
Qed.

Lemma wp_session_commit m1 w1 snap now Q :
  agree_except (session_path (tw_session_id w)) m m1 → later w w1 → staged m1 w1 new ids →
  (tw_pending_files w1 ≠ [] → commit_input m root warehouse meta (commit_snapshot_of w1 snap) ∧
    schema_update_ok meta (commit_snapshot_of w1 snap)) →
  fits 32 (v + 1) → (∀ o m2, post o m2 → Q o m2) → wp m1 (tw_commit w1 snap now) Q.
Proof.
  intros Hag [Ep _ Es] Hst Hin Hv HQ. pose proof (quiet_listings m1 Hag) as [Ht1 Hl1].
  assert (Hwk : ∀ X, agree_except (session_path (tw_session_id w)) m m1 → agree_except (λ q, ∃ o, q = obj_path root o) m1 X →
    agree_except (λ q, session_path (tw_session_id w) q ∨ ∃ o, q = obj_path root o) m X).
  { intros X Ha Hb. eapply agree_trans; eapply agree_weaken; [|exact Ha| |exact Hb]; naive_solver. }
  unfold tw_commit. destruct (tw_pending_files w1) as [|f l] eqn:Epend.
  { apply wp_bind, wp_catch. eapply wp_load_table; [exact Ht1|]. apply wp_ret, HQ.
    apply unchanged_session_post; [done|by apply Hwk; [|apply agree_refl]|]. intros _ _.
    destruct Hst as [_ _ <-]. by rewrite Epend. }
  rewrite <- Epend in Hin. destruct Hin as [Hin Hsch]; [by rewrite Epend|].
  eapply (wp_commit_any m1 root warehouse v meta); [done| |done|done| |].
  - eapply commit_input_frame; [|exact Ht|done]. intros o. apply Hag. intros E. by apply (Hobj _ E o).
  - intros r m2 meta' Hc. apply HQ. destruct (Hl1 None) as [E1 E2]. rewrite Hfs in E1. rewrite Hds in E2.
    destruct (append_listing m1 v meta w1 snap fs ds new ids m2 meta' Habs Hst) as (added & Hf2 & Hd2 & Hid & Hadd);
      [|done..|].
    { intros n o. rewrite Es. apply Hobj. right. left. eauto. }
    exists (v + 1), meta', added. split_and!; [apply (c_table _ _ _ _ _ _ _ _ Hc)|done|done| |].
    + intros sid Hsid. rewrite (proj1 (c_history _ _ _ _ _ _ _ _ Hc sid Hsid)). apply Hl1.
    + right. split; [done|]. apply contents_app; [|by rewrite <- Ep].
      rewrite (clear_contents (tw_session_id w) _ m); [done..|]. apply Hwk; [done|]. apply (c_frame _ _ _ _ _ _ _ _ Hc).
  - intros err m2 [[Ht2 Hl2] Hag2]. apply HQ, unchanged_session_post; [|by apply Hwk|done].
    split; [done|]. intros sid. destruct (Hl2 sid) as [-> ->]. apply Hl1.
Qed.

End OneSession.

(* ------------------------------------------------------------------ *)
(** ** Whole sessions                                                  *)
(* ------------------------------------------------------------------ *)

(** What a session needs: a published table of readable files in their own places, a
    new writer on it, batches that Parquet can store with their vectors, and a commit
    in range. *)
Record session_ready (s : S) (v : Z) (meta : IcebergMetadata) w (calls : list call) (snap : Z)
    (fs : list DataFileEntry) (ds : list EqualityDeleteFile) (rows : list Row) : Prop := {
  rd_inv : store_inv s;
  rd_table : table (view s) root v meta;
  rd_files : (cp_list_files None s).2 = Ret (Ok fs);
  rd_deletes : (cp_list_equality_deletes None s).2 = Ret (Ok ds);
  rd_rows : rows_left_by_dvs (view s) (tw_policy w) fs = Some rows;
  rd_new : tw_pending_files w = [];
  rd_counter : 0 ≤ tw_part_counter w ∧ tw_part_counter w + Zlen calls < 2 ^ 32;
  rd_places : Forall (clear_of (tw_session_id w)) fs;
  rd_paths q : session_path (tw_session_id w) q → ∀ o, q ≠ obj_path root o;
  rd_warehouse : is_absolute warehouse = false;
  rd_policy : raw_policy (tw_policy w);
  rd_calls : Forall (call_ok (tw_policy w)) calls;
  rd_input s1 s2 w' ts' l : sees s1 (view s) → io_map write_call calls (w, [], s1) = ((w', ts', s2), Ret (Ok l)) →
    tw_pending_files w' ≠ [] →
    commit_input (view s) root warehouse meta (commit_snapshot_of w' snap) ∧
    schema_update_ok meta (commit_snapshot_of w' snap);
  rd_version : fits 32 (v + 1);
}.

Lemma session_run s v meta w calls snap now fs ds rows :
  session_ready s v meta w calls snap fs ds rows →
  let '((_, s'), o) := write_session calls snap now (w, [], s) in
  store_inv s' ∧
  session_post (view s) meta (tw_policy w) fs ds rows (new_rows (tw_policy w) calls) (call_keys calls) o (view s').
Proof.
  intros [Hi Ht Hfs Hds Hrows Hnew [Hc Hcl] Hpl Hobj Habs Hraw Hok Hin Hv].
  change (cp_list_files None s).2 with (list_files root None s).2 in Hfs.
  change (cp_list_equality_deletes None s).2 with (list_equality_deletes root None s).2 in Hds.
  rewrite (list_files_table s root v meta) in Hfs by done. injection Hfs as Hfs.
  rewrite (list_deletes_table s root v meta) in Hds by done. injection Hds as Hds.
  assert (Hwrites : wpl (w, []) (view s) (io_map write_call calls) (λ o l m',
    agree_except (session_path (tw_session_id w)) (view s) m' ∧ ∃ w' ts', l = (w', ts') ∧
    ∀ x, o = Ret (Ok x) → later w w' ∧ staged m' w' (new_rows (tw_policy w) calls) (call_keys calls))).
  { eapply (wpl_write_calls _ _ _ _ [] []); try done; [by split; rewrite Hnew|].
    intros o w' ts' m' Hag Ho. split; [done|]. by exists w', ts'. }
  destruct (wpl_run s _ _ _ _ Hwrites ltac:(done)) as (m1 & [Hi1 Hm1] & Hag & w1 & ts1 & El & Ho). clear Hwrites.
  unfold write_session, mbind, io_bind. destruct (io_map write_call calls (w, [], s)) as [[l1 s1] o1] eqn:Erun.
  cbn [fst snd] in *. subst m1 l1.
  destruct o1 as [[x|err]|].
  - destruct (Ho x eq_refl) as [Hlt Hst]. cbn.
    assert (Hcommit : wp (view s1) (tw_commit w1 snap now) (λ o m',
      session_post (view s) meta (tw_policy w) fs ds rows (new_rows (tw_policy w) calls) (call_keys calls) o m')).
    { eapply wp_session_commit; try done. by eapply (Hin s). }
    destruct (wp_run s1 (view s1) _ _ Hcommit ltac:(done)) as (m2 & [Hi2 Hm2] & Hpost).
    destruct (tw_commit w1 snap now s1) as [s2 o2]. cbn [fst snd] in *. by subst m2.
  - split; [done|]. eapply unchanged_session_post; try done; [by eapply quiet_listings|].
    eapply agree_weaken; [|exact Hag]. auto.
  - split; [done|]. eapply unchanged_session_post; try done; [by eapply quiet_listings|].
    eapply agree_weaken; [|exact Hag]. auto.
Qed.

(** C8: a writing session adds its rows or nothing.  In a store whose reads succeed and
    whose failed writes leave the object as it was, however a session of writes, with
    their indexes or deferred to jobs, and a commit ends (an invalid batch, a failing
    write, a panic, a lock that is not granted or not released), the table can be listed
    and read: the rows its deletion vectors leave are those before, or those before
    followed by the rows of all the batches; the latter whenever the session returns.
    Equality deletes and older snapshots are as before. *)
Theorem session_adds_rows s v meta w calls snap now fs ds rows :
  session_ready s v meta w calls snap fs ds rows →
  let '((_, s'), o) := write_session calls snap now (w, [], s) in
  let added := rows ++ new_rows (tw_policy w) calls in
  ∃ fs' rows', (cp_list_files None s').2 = Ret (Ok fs') ∧
    rows_left_by_dvs (view s') (tw_policy w) fs' = Some rows' ∧
    (rows' = rows ∨ rows' = added) ∧ (∀ r, o = Ret (Ok r) → rows' = added) ∧
    (cp_list_equality_deletes None s').2 = Ret (Ok ds) ∧
    ∀ sid, sid ∈ snap_ids meta → (cp_list_files (Some sid) s').2 = (cp_list_files (Some sid) s).2.
Proof.
  intros Hr. pose proof (session_run s v meta w calls snap now fs ds rows Hr) as Hp.
  destruct (write_session calls snap now (w, [], s)) as [[l s'] o].
  destruct Hp as (Hi & v' & meta' & added & Ht & Hfs & Hds & Hold & Hrows). destruct Hr as [Hi0 Ht0 _ _ _ _ _ _ _ _ _ _ _ _].
  assert (Hlist : ∀ s1 v1 meta1 sid, store_inv s1 → table (view s1) root v1 meta1 →
    (cp_list_files sid s1).2 = Ret (files_in (view s1) meta1 sid))
    by (intros s1 v1 meta1 sid; apply (list_files_table s1 root v1 meta1)).
  exists (fs ++ added). rewrite (Hlist s' v' meta'), Hfs by done.
  change (cp_list_equality_deletes None s').2 with (list_equality_deletes root None s').2.
  rewrite (list_deletes_table s' root v' meta'), Hds by done.
  destruct Hrows as [(-> & Hrows & Hids)|(Hids & Hrows)]; eexists; (split; [done|]); (split; [exact Hrows|]).
  - split_and!; [by left| |done|].
    + intros r Ho. destruct calls as [|c calls]; [by rewrite app_nil_r|]. by specialize (Hids r Ho).
    + intros sid Hsid. rewrite (Hlist s' v' meta'), (Hlist s v meta) by done. by rewrite Hold.
  - split_and!; [by right|done|done|]. intros sid Hsid.
    rewrite (Hlist s' v' meta'), (Hlist s v meta) by done. by rewrite Hold.
Qed.

(* ------------------------------------------------------------------ *)
(** ** Idempotent writes                                               *)
(* ------------------------------------------------------------------ *)

(** A session of one idempotent write. *)
Definition idempotent_session batch embeddings (id : string) (snap now : Z) : Local session S Z :=
  write_batch_idempotent batch embeddings id;; w ← this; on_store (tw_commit w snap now).

Lemma ready_same_view s s' v meta w calls snap fs ds rows :
  session_ready s v meta w calls snap fs ds rows → sees s' (view s) → session_ready s' v meta w calls snap fs ds rows.
Proof.
  intros [Hi Ht Hfs Hds Hrows Hnew Hc Hpl Hobj Habs Hraw Hok Hin Hv] [Hi' Hs'].
  change (cp_list_files None s).2 with (list_files root None s).2 in Hfs.
  change (cp_list_equality_deletes None s).2 with (list_equality_deletes root None s).2 in Hds.
  rewrite (list_files_table s root v meta) in Hfs by done. rewrite (list_deletes_table s root v meta) in Hds by done.
  split; try (rewrite ?Hs'; done).
  - change (cp_list_files None s').2 with (list_files root None s').2. by rewrite (list_files_table s' root v meta), Hs' by (rewrite ?Hs'; done).
  - change (cp_list_equality_deletes None s').2 with (list_equality_deletes root None s').2.
    by rewrite (list_deletes_table s' root v meta), Hs' by (rewrite ?Hs'; done).
Qed.

(** The files of the table after an idempotent write: the key is there, or the write
    happened in a session of its own. *)
Lemma idempotent_run s v meta w batch embeddings id snap now fs ds rows :
  session_ready s v meta w [(batch, embeddings, Indexed (Some id))] snap fs ds rows →
  let '(l, s', o) := idempotent_session batch embeddings id snap now (w, [], s) in
  (already_written fs id = true ∧ sees s' (view s) ∧ l = (w, []) ∧ ∃ r, o = Ret (Ok r)) ∨
  (already_written fs id = false ∧ store_inv s' ∧
   session_post (view s) meta (tw_policy w) fs ds rows (call_rows (tw_policy w) (batch, embeddings, Indexed (Some id)))
     [Some id] o (view s')).
Proof.
  intros Hr. pose proof Hr as [Hi Ht Hfs _ _ Hnew _ _ _ _ _ _ _ _].
  change (cp_list_files None s).2 with (list_files root None s).2 in Hfs.
  rewrite (list_files_table s root v meta) in Hfs by done. injection Hfs as Hfs.
  assert (Hlist : wp (view s) (cp_list_files None) (λ o m, o = Ret (Ok fs) ∧ m = view s)).
  { eapply wp_cp_list_files; [exact Ht|]. by rewrite Hfs. }
  destruct (Hlist s ltac:(done)) as (s1 & o1 & m1 & E1 & Hs1 & -> & ->).
  destruct (already_written fs id) eqn:Eid.
  - assert (Hload : wp (view s) (tw_commit w snap now) (λ o m, (∃ r, o = Ret (Ok r)) ∧ m = view s)).
    { unfold tw_commit. rewrite Hnew. apply wp_bind, wp_catch. eapply wp_load_table; [exact Ht|]. apply wp_ret. eauto. }
    destruct (Hload s1 Hs1) as (s2 & o2 & m2 & E2 & Hs2 & [r ->] & ->).
    unfold idempotent_session, write_batch_idempotent, mbind, io_bind, on_store. rewrite E1, Eid. cbn. rewrite E2.
    left. split_and!; [done..|eauto].
  - pose proof (ready_same_view _ s1 _ _ _ _ _ _ _ _ Hr Hs1) as Hr1.
    pose proof (session_run s1 v meta w _ snap now fs ds rows Hr1) as Hp. destruct Hs1 as [Hi1 Hv1]. rewrite Hv1 in Hp.
    assert (E : idempotent_session batch embeddings id snap now (w, [], s) =
      write_session [(batch, embeddings, Indexed (Some id))] snap now (w, [], s1)).
    { unfold idempotent_session, write_batch_idempotent, write_session, mbind, io_bind, on_store. rewrite E1, Eid.
      cbn [io_map write_call]. unfold mbind, io_bind.
      by destruct (write_batch_with_id _ _ _ _) as [l [[a|e]|]]. }
    rewrite E. destruct (write_session _ _ _ _) as [[l s'] o]. right. destruct Hp as [Hi' Hp].
    split; [done|]. split; [done|]. cbn in Hp. by rewrite app_nil_r in Hp.
Qed.

(** A key that a listed file has. *)
Lemma has_key (fs : list DataFileEntry) id f :
  parse_string_list id = None → f ∈ fs → df_batch_id f = Some id → already_written fs id = true.
Proof.
  intros Hid Hf Hb. apply already_written_spec, list_elem_of_bind. exists f. split; [|done].
  unfold batch_ids. rewrite Hb, Hid. by left.
Qed.

(** C9: an idempotent write that is retried is there once.  In a store whose reads
    succeed and whose failed writes leave the object as it was, take a session that
    writes a batch under a key the table does not have, ending anyhow: with an error, a
    panic, even after the commit with the release of the lock lost.  The key must not
    itself be the JSON of a list of texts (such a key is not recognised again).  A second
    session with the same key and batch, on the table as the first left it, that returns
    leaves the rows of the table followed by the batch's, once. *)
Theorem retry_writes_once s v meta w batch embeddings id snap now fs ds rows s1 l1 o1 v1 meta1 w1 snap1 now1 fs1 ds1 rows1 :
  session_ready s v meta w [(batch, embeddings, Indexed (Some id))] snap fs ds rows →
  parse_string_list id = None → already_written fs id = false →
  idempotent_session batch embeddings id snap now (w, [], s) = (l1, s1, o1) →
  session_ready s1 v1 meta1 w1 [(batch, embeddings, Indexed (Some id))] snap1 fs1 ds1 rows1 → tw_policy w1 = tw_policy w →
  let '(_, s2, o2) := idempotent_session batch embeddings id snap1 now1 (w1, [], s1) in
  ∀ r, o2 = Ret (Ok r) →
  ∃ fs2, (cp_list_files None s2).2 = Ret (Ok fs2) ∧
    rows_left_by_dvs (view s2) (tw_policy w) fs2 = Some (rows ++ call_rows (tw_policy w) (batch, embeddings, Indexed (Some id))).
Proof.
  intros Hr Hid Hno Hrun Hr1 Ep. pose proof (idempotent_run s v meta w batch embeddings id snap now fs ds rows Hr) as Hp.
  rewrite Hrun in Hp. destruct Hp as [(Hyes & _)|(_ & Hi1 & v2 & meta2 & added & Ht2 & Hf2 & _ & _ & Hx)]; [congruence|].
  pose proof Hr1 as [_ Ht1 Hfs1 _ Hrows1 _ _ _ _ _ _ _ _ _].
  assert (Hlist : ∀ s1 v1 meta1, store_inv s1 → table (view s1) root v1 meta1 →
    (cp_list_files None s1).2 = Ret (files_in (view s1) meta1 None))
    by (intros s3 v3 meta3; apply (list_files_table s3 root v3 meta3)).
  rewrite (Hlist s1 v2 meta2), Hf2 in Hfs1 by done. injection Hfs1 as <-. rewrite Ep in Hrows1.
  pose proof (idempotent_run s1 v1 meta1 w1 batch embeddings id snap1 now1 _ ds1 rows1 Hr1) as Hp1.
  destruct (idempotent_session batch embeddings id snap1 now1 (w1, [], s1)) as [[l2 s2] o2]. intros r Ho2. rewrite Ep in Hp1.
  destruct Hp1 as [(Hyes & [Hi2 Hs2] & _)|(Hn & Hi2 & v3 & meta3 & more & Ht3 & Hf3 & _ & _ & Hy)].
  - exists (fs ++ added). rewrite (Hlist s2 v1 meta1), Hs2 by (rewrite ?Hs2; done).
    pose proof (Hlist s1 v1 meta1 Hi1 Ht1) as E. rewrite (Hlist s1 v2 meta2), Hf2 in E by done. injection E as <-.
    split; [done|]. destruct Hx as [(-> & _)|(_ & Hx)]; [|done]. rewrite app_nil_r in Hyes. congruence.
  - exists ((fs ++ added) ++ more). rewrite (Hlist s2 v3 meta3), Hf3 by done. split; [done|].
    destruct Hx as [(-> & Hx & _)|(Hids & Hx)].
    + rewrite app_nil_r in *. destruct Hy as [(_ & _ & Hy)|(_ & Hy)]; [by specialize (Hy r Ho2)|]. congruence.
    + destruct added as [|f []]; [done| |done]. injection Hids as Hb.
      rewrite (has_key _ id f) in Hn; [done|done| |done]. apply elem_of_app. right. by left.
Qed.

End Table.
