(* ===== verification/MemTableTheorems.v ===== *)
(** * What the buffers keep

    A flush of [MemTable] moves the buffered rows to the table: after any operation the
    rows of the table and of the buffer together are those before with the rows pushed,
    or, where it fails, the buffered rows are lost; one vector of the wrong dimension is
    enough.  The working memory keeps the most recent entries, and its search is exact. *)

From Stdlib Require Import Sorting.Sorted.
From S2P Require Import Prelude Core Footer FileFormat FileTheorems Store Effects Json Avro Manifest.
From S2P Require Import ManifestTheorems Puffin Catalog CatalogTheorems HadoopTheorems ArrowSchema Arrow Arrays Deletes.
From S2P Require Import DeletesTheorems Floats Ranking Bloom Bm25 Search Compaction CompactionTheorems CompactionRows.
From S2P Require Import CompactionSafety Jobs LocalWp Writer WriterTheorems WriterSafety MemTable.

(* ------------------------------------------------------------------ *)
(** ** Micro-batches                                                   *)
(* ------------------------------------------------------------------ *)

Section Buffers.
Context {S : Type} `{ReliableReads S} `{!LockStore S} `{!LockLaws S}.
Context `{AvroLaws} `{SerdeLaws} `{JsonLib} `{BincodeLib} `{MetaLaws} `{RoaringLaws}.
Context `{TextLib} `{UnstableSort} `{Bm25Lib}.
Context {PL : ParquetLib} {IL : IndexLib} {AL : ArrowLib} {QL : QueryLib} {CL : CompactLib} {WL : WriterLib}.
Context {LW : ParquetLaws PL} `{!ArrowLaws} `{!ReadBackLaws} `{!CompactLaws} `{!JobSerde}.
Context (root warehouse : string) (config : MemTableConfig) (policy : VectorStoragePolicy) (ident : TableIdent).
Implicit Types (m : gmap string bytes) (mt : MemTableWriter) (ts : list IndexTask) (ids : FlushIds).

#[local] Instance buffer_catalog : CatalogProvider S := catalog root warehouse.

(** The operations on a buffer. *)
Inductive BufferOp : Type :=
  | Insert (batch : RecordBatch) (embeddings : list vec32)
  | FlushIfDue (now : Z)
  | Flush.

Definition run_op (op : BufferOp) ids : Local (MemTableWriter * list IndexTask) S (option Z) :=
  match op with
  | Insert batch embeddings => insert config policy ident batch embeddings ids
  | FlushIfDue now => flush_if_due config policy ident now ids
  | Flush => id ← flush policy ident ids; mret (Some id)
  end.

(** The buffer with the rows of the operation. *)
Definition pushed (op : BufferOp) mt : MemTableWriter :=
  match op with Insert batch embeddings => push_rows policy batch embeddings mt | _ => mt end.

(** The rows in a buffer, as a file of them is read. *)
Definition buffer_rows mt : list Row :=
  zip (mjoin (named_rows <$> mt_pending_batches mt)) (stored_vector policy <$> mt_pending_embeddings mt).

(** What a flush writes. *)
Definition merged_batch mt : outcome AilakeError RecordBatch :=
  match mt_pending_batches mt with
  | [] => Panic
  | [b] => Ret (Ok b)
  | first :: _ => concat_batches first (mt_pending_batches mt)
  end.

Definition one_buffer_schema mt : Prop :=
  match mt_pending_batches mt with [] => True | first :: _ => Forall (same_schema first) (mt_pending_batches mt) end.

Lemma merged_batch_rows mt b :
  one_buffer_schema mt → merged_batch mt = Ret (Ok b) →
  named_rows b = mjoin (named_rows <$> mt_pending_batches mt).
Proof.
  unfold one_buffer_schema, merged_batch. destruct (mt_pending_batches mt) as [|b1 [|b2 bs]]; intros Hs Hm; [done| |].
  - injection Hm as <-. cbn. by rewrite app_nil_r.
  - by apply (concat_rows _ _ _ Hs Hm).
Qed.

(** The one call of a flush. *)
Definition flush_call mt ids (b : RecordBatch) : RecordBatch * list vec32 * WriteMode :=
  (b, mt_pending_embeddings mt, Background (fi_job ids)).

Definition emptied ids : MemTableWriter := mk_mt [] [] 0 (fi_instant ids).

(** A flush, by cases. *)
Lemma flush_cases mt ts s ids :
  flush policy ident ids ((mt, ts), s) =
  match mt_pending_embeddings mt with
  | [] => (((touch (fi_instant ids) mt, ts), s), Ret (Ok 0))
  | _ =>
      match merged_batch mt with
      | Ret (Ok b) =>
          let '((_, ts', s'), o) := write_session root warehouse [flush_call mt ids b] (fi_snapshot ids) (fi_now ids)
                                      ((tw_new policy ident (fi_session ids), []), s) in
          (((emptied ids, ts ++ ts'), s'), o)
      | Ret (Err e) => (((mt, ts), s), Ret (Err e))
      | Panic => (((mt, ts), s), Panic)
      end
  end.
Proof.
  unfold flush, buffer, rebuffer, modify_local, merged_batch. unfold mbind, io_bind. cbn [fst snd].
  destruct (mt_pending_embeddings mt) as [|e es] eqn:Ee; [done|].
  assert (Hend : ∀ b mt1, (let '(s1, o1) := modify_local (S := S) (λ '(_, ts), (emptied ids, ts)) ((mt1, ts), s) in
    match o1 with
    | Ret (Ok _) => with_new_writer (tw_new policy ident (fi_session ids))
        (write_batch_deferred b (e :: es) (fi_job ids);; w ← this; on_store (tw_commit w (fi_snapshot ids) (fi_now ids))) s1
    | Ret (Err e) => (s1, Ret (Err e))
    | Panic => (s1, Panic)
    end) = let '((_, ts', s'), o) := write_session root warehouse [flush_call mt ids b] (fi_snapshot ids) (fi_now ids)
                                      ((tw_new policy ident (fi_session ids), []), s) in
          (((emptied ids, ts ++ ts'), s'), o)).
  { intros b mt1. unfold modify_local, with_new_writer, write_session, flush_call. rewrite Ee.
    cbn [io_map write_call]. unfold mbind, io_bind.
    by destruct (write_batch_deferred _ _ _ _) as [[[w' ts'] s'] [[a|err]|]]. }
  destruct (mt_pending_batches mt) as [|b1 [|b2 bs]]; [done|apply (Hend b1 (without_batches mt))|].
  destruct (concat_batches _ _) as [[b|err]|]; [apply (Hend b mt)|done..].
Qed.

(** A published table, and the session a flush would run on it. *)
Record flush_ready (s : S) (v : Z) (meta : IcebergMetadata) mt ids (fs : list DataFileEntry)
    (ds : list EqualityDeleteFile) (rows : list Row) : Prop := {
  fr_files : (cp_list_files None s).2 = Ret (Ok fs);
  fr_rows : rows_left_by_dvs (view s) policy fs = Some rows;
  fr_schema : one_buffer_schema mt;
  fr_session b : merged_batch mt = Ret (Ok b) →
    session_ready root warehouse s v meta (tw_new policy ident (fi_session ids)) [flush_call mt ids b]
      (fi_snapshot ids) fs ds rows;
}.

(** The rows of the table and of the buffer after an operation that began with [rows]
    and a buffer like [mt]. *)
Definition accounted (rows : list Row) mt (s' : S) mt' {A} (o : outcome AilakeError A) : Prop :=
  ∃ fs' rows', (cp_list_files None s').2 = Ret (Ok fs') ∧ rows_left_by_dvs (view s') policy fs' = Some rows' ∧
    (rows' ++ buffer_rows mt' = rows ++ buffer_rows mt ∨
     (rows' = rows ∧ mt_pending_batches mt' = [] ∧ mt_pending_embeddings mt' = [] ∧ ∀ r, o ≠ Ret (Ok r))).

Lemma flush_accounts s v meta mt ts ids fs ds rows :
  flush_ready s v meta mt ids fs ds rows →
  let '((mt', _, s'), o) := flush policy ident ids ((mt, ts), s) in accounted rows mt s' mt' o.
Proof.
  intros [Hfs Hrows Hsch Hses]. rewrite flush_cases.
  assert (Hkept : ∀ mt' (o : outcome AilakeError Z), buffer_rows mt' = buffer_rows mt → accounted rows mt s mt' o).
  { intros mt' o E. exists fs, rows. split_and!; [done..|]. left. by rewrite E. }
  destruct (mt_pending_embeddings mt) as [|e es]; [by apply Hkept|].
  destruct (merged_batch mt) as [[b|err]|] eqn:Em; [|by apply Hkept..].
  pose proof (session_run root warehouse _ _ _ _ _ _ (fi_now ids) _ _ _ (Hses b eq_refl)) as Hrun.
  destruct (write_session _ _ _ _ _ _) as [[[w' ts'] s'] o].
  destruct Hrun as (Hi' & v' & meta' & added & Ht' & Hf' & _ & _ & Hx).
  exists (fs ++ added). change (cp_list_files None s').2 with (list_files root None s').2.
  rewrite (list_files_table s' root v' meta'), Hf' by done.
  assert (Hnew : new_rows (tw_policy (tw_new policy ident (fi_session ids))) [flush_call mt ids b] = buffer_rows mt).
  { unfold new_rows, call_rows, buffer_rows, flush_call. cbn [mbind list_bind fst snd tw_new tw_policy].
    by rewrite app_nil_r, (merged_batch_rows mt b Hsch Em). }
  rewrite Hnew in Hx. destruct Hx as [(-> & Hc & Hno)|(_ & Hc)]; eexists; (split; [done|]); (split; [exact Hc|]).
  - right. split_and!; [done..|]. intros r Ho. by specialize (Hno r Ho).
  - left. unfold buffer_rows at 1. cbn. by rewrite app_nil_r.
Qed.

(** C14: nothing that is pushed is lost by an operation that returns.  Whatever buffer
    operation runs (an insert, which may flush; a flush; a timed flush), on a table and
    a session in order: the table can be read afterwards, and its rows followed by
    those of the buffer are the rows of the table before followed by those of the
    buffer with the pushed batch.  The only other outcome is an operation that fails
    with the buffer emptied and the rows not in the table. *)
Theorem buffer_accounts op s v meta mt ts ids fs ds rows :
  flush_ready s v meta (pushed op mt) ids fs ds rows →
  let '((mt', _, s'), o) := run_op op ids ((mt, ts), s) in accounted rows (pushed op mt) s' mt' o.
Proof.
  intros Hr. pose proof Hr as [Hfs Hrows _ _].
  assert (Hkept : ∀ mt' (o : outcome AilakeError (option Z)),
    buffer_rows mt' = buffer_rows (pushed op mt) → accounted rows (pushed op mt) s mt' o).
  { intros mt' o E. exists fs, rows. split_and!; [done..|]. left. by rewrite E. }
  pose proof (flush_accounts s v meta (pushed op mt) ts ids fs ds rows Hr) as Hf.
  assert (Hsome : let '((mt', _, s'), o) := (id ← flush policy ident ids; mret (Some id)) ((pushed op mt, ts), s) in
    accounted rows (pushed op mt) s' mt' o).
  { unfold mbind, io_bind. destruct (flush _ _ _ _) as [[[mt' ts'] s'] o].
    destruct Hf as (fs' & rows' & Hl & Hc & [Hx|(Hx1 & Hx2 & Hx3 & Hno)]); destruct o as [[a|err]|];
      exists fs', rows'; (split; [done|]); (split; [done|]);
      first [by left | by destruct (Hno a) | by right]. }
  destruct op as [batch embeddings|now|]; cbn [run_op pushed] in *.
  - unfold insert, buffer, rebuffer, modify_local. unfold mbind at 1 2, io_bind at 1 2. cbn [fst snd].
    destruct (is_full _ _); [exact Hsome|by apply Hkept].
  - unfold flush_if_due, buffer, rebuffer, modify_local. unfold mbind at 1, io_bind at 1. cbn [fst snd].
    destruct (mt_pending_embeddings mt); [by apply Hkept|]. destruct (_ <=? _); [exact Hsome|by apply Hkept].
  - exact Hsome.
Qed.

Lemma bad_vector_invalid embeddings p v :
  v ∈ embeddings → wrap 32 (Zlen v) ≠ policy_dim p → ∃ e, validate_embedding_dim embeddings p = Err e.
Proof.
  intros Hv Hd. induction embeddings as [|w embeddings IH]; [by apply not_elem_of_nil in Hv|].
  cbn [validate_embedding_dim]. destruct (Z.eqb_spec (wrap 32 (Zlen w)) (policy_dim p)) as [Ew|]; [|by eexists].
  destruct (negb (forallb _ _)); [by eexists|]. apply IH. apply elem_of_cons in Hv as [->|]; done.
Qed.

#[local] Arguments validate_embedding_dim : simpl never.

(** C39: one bad vector loses the buffer.  When any buffered vector has another length
    than the policy's dimension and the batches can be joined, a flush fails, the store
    is as it was, and the buffer is empty: the valid micro-batches that were
    waiting are in neither. *)
Theorem bad_vector_loses_buffer s mt ts ids b v :
  merged_batch mt = Ret (Ok b) → v ∈ mt_pending_embeddings mt → wrap 32 (Zlen v) ≠ policy_dim policy →
  ∃ e, flush policy ident ids ((mt, ts), s) = (((emptied ids, ts), s), Ret (Err e)).
Proof.
  intros Hm Hv Hd. rewrite flush_cases, Hm. destruct (bad_vector_invalid _ policy v Hv Hd) as [e He]. exists e.
  destruct (mt_pending_embeddings mt) as [|e1 es] eqn:Ee; [by apply not_elem_of_nil in Hv|].
  unfold write_session, flush_call. cbn [io_map write_call]. unfold write_batch_deferred. rewrite Ee.
  unfold mbind, io_bind, ensure_deferred_supported, this. cbn. rewrite He. by rewrite app_nil_r.
Qed.

End Buffers.

(* ------------------------------------------------------------------ *)
(** ** Working memory                                                  *)
(* ------------------------------------------------------------------ *)

#[local] Notation pushed_entry := (string * vec32 * f32bits)%type.
Definition entry_of (x : pushed_entry) : WorkingMemoryEntry := mk_wme x.1.1 x.1.2 (clamp01 x.2).
Definition push_all (xs : list pushed_entry) (wm : WorkingMemoryBuffer) : WorkingMemoryBuffer :=
  foldl (λ wm (x : pushed_entry), wm_push x.1.1 x.1.2 x.2 wm) wm xs.

(** The last [n] of a list. *)
Definition last_of {A} (n : Z) (l : list A) : list A := drop (length l - Z.to_nat n) l.

Lemma last_of_snoc {A} (n : Z) (l : list A) (x : A) :
  1 ≤ n →
  (if n <=? Zlen (last_of n l) then tail (last_of n l) else last_of n l) ++ [x] = last_of n (l ++ [x]).
Proof.
  intros Hn. unfold last_of. rewrite length_drop, length_app. cbn [length].
  destruct (Z.leb_spec n (Z.of_nat (length l - (length l - Z.to_nat n)))) as [Hl|Hl].
  - rewrite drop_app_le by lia. replace (length l + 1 - Z.to_nat n)%nat with (Datatypes.S (length l - Z.to_nat n)) by lia.
    f_equal. rewrite <- Nat.add_1_r, <- drop_drop. by destruct (drop _ l).
  - replace (length l - Z.to_nat n)%nat with O by lia. by replace (length l + 1 - Z.to_nat n)%nat with O by lia.
Qed.

(** Working memory keeps the most recent entries.  After any pushes the buffer
    holds the last [max_rows] entries pushed (one when [max_rows] is zero), oldest
    first; so it never has more. *)
Theorem working_memory_recent max_rows xs :
  wm_entries (push_all xs (wm_new max_rows)) = last_of (Z.max max_rows 1) (entry_of <$> xs).
Proof.
  assert (Hm : ∀ ys, wm_max_rows (push_all ys (wm_new max_rows)) = Z.max max_rows 1 ∧
    wm_entries (push_all ys (wm_new max_rows)) = last_of (Z.max max_rows 1) (entry_of <$> ys)); [|apply Hm].
  intros ys. induction ys as [|x ys IH] using rev_ind; [done|]. unfold push_all in *. rewrite foldl_app, fmap_app.
  cbn [foldl fmap list_fmap]. destruct IH as [Em Ee]. set (wm := foldl _ _ ys) in *. clearbody wm.
  unfold wm_push, wm_len. rewrite Em, Ee. cbn [wm_max_rows wm_entries].
  split; [done|]. by apply last_of_snoc; lia.
Qed.

Section Recall.
Context `{SortLaws}.

Lemma omap_all {A B} (g : A → B) (f : A → option B) (l : list A) :
  (∀ x, x ∈ l → f x = Some (g x)) → omap f l = g <$> l.
Proof.
  intros Hf. induction l as [|x l IH]; [done|]. cbn. rewrite (Hf x) by by left. cbn. f_equal. apply IH.
  intros y Hy. apply Hf. by right.
Qed.

(** Sorting everything and cutting is a choice of the best. *)
Lemma sorted_take_topk {A} (key : A → Z) k xs ys :
  ys ≡ₚ xs → StronglySorted (by_key key) ys → topk key k xs (take k ys).
Proof.
  intros Hp Hs. rewrite <- (take_drop k ys) in Hs. split; [|split].
  - exists (drop k ys). split; [by rewrite take_drop|]. apply Forall_forall. intros r Hr.
    assert (Hk : length (take k ys) = k).
    { rewrite length_take. destruct (decide (k ≤ length ys)%nat); [lia|]. rewrite drop_ge in Hr by lia. by apply elem_of_nil in Hr. }
    rewrite better_full; [lia|]. apply Forall_forall. intros x Hx.
    by eapply (StronglySorted_app_1_elem_of (by_key key)).
  - by eapply StronglySorted_app_1_l.
  - rewrite length_take. lia.
Qed.

(** The search of the working memory is exact.  When no distance is a NaN, the
    results are entries of the buffer with their cosine distances to the query, at
    most [k], and their distances are the [k] smallest, in order. *)
Theorem working_memory_search query k wm :
  let scored := (λ e, (wm_distance query e, e)) <$> wm_entries wm in
  Forall (λ p, is_nan p.1 = false) scored →
  (∃ rest, scored ≡ₚ wm_search query k wm ++ rest) ∧
  (λ p, f32_key p.1) <$> wm_search query k wm = take k (merge_sort Z.le ((λ p, f32_key p.1) <$> scored)).
Proof.
  intros scored Hn. set (key := λ p : f32bits * WorkingMemoryEntry, f32_key p.1).
  assert (Ht : topk key k scored (wm_search query k wm)).
  2:{ split; [destruct Ht as ((rest & Hp & _) & _); eauto|by apply (topk_keys key k)]. }
  unfold wm_search. destruct (wm_entries wm) as [|e0 es] eqn:Ee.
  { split; [by exists []|]. split; [constructor|cbn; lia]. }
  destruct k as [|k]; [split; [by apply (covers_zero key O _ [] scored)|]; split; [constructor|done]|].
  set (entries := e0 :: es) in *. set (numbered := imap (λ i e, (wm_distance query e, i)) entries).
  set (g := λ p : f32bits * nat, (p.1, default e0 (entries !! p.2))).
  assert (Hg : g <$> numbered = scored).
  { unfold numbered, scored. rewrite fmap_imap. apply list_eq. intros i.
    rewrite list_lookup_imap, list_lookup_fmap. unfold g. cbn. by destruct (entries !! i) as [e|] eqn:Ei; cbn; rewrite ?Ei. }
  assert (Hk : keyed (λ a b : f32bits * nat, default Eq (partial_cmp a.1 b.1)) (λ p, f32_key p.1) numbered).
  { intros x y Hx Hy. rewrite Forall_forall in Hn. unfold partial_cmp.
    apply (list_elem_of_fmap_2 g) in Hx. apply (list_elem_of_fmap_2 g) in Hy. rewrite Hg in Hx, Hy.
    apply Hn in Hx. apply Hn in Hy. cbn in Hx, Hy. by rewrite Hx, Hy. }
  destruct (sort_law _ _ _ Hk) as [Hp Hs]. set (sorted := sort_unstable_by _ numbered) in *.
  assert (Hin : ∀ p, p ∈ take (Datatypes.S k) sorted → is_Some (entries !! p.2)).
  { intros p Hpp%subseteq_take. rewrite Hp in Hpp. apply elem_of_lookup_imap in Hpp as (i & e & -> & Hi). by exists e. }
  rewrite (omap_all g) by (intros [d i] Hdi; destruct (Hin _ Hdi) as [e He]; unfold g; cbn in *; by rewrite He).
  rewrite fmap_take. apply sorted_take_topk; [by rewrite Hp, Hg|].
  clear -Hs. induction Hs as [|x xs _ IH Hx]; [constructor|]. cbn. constructor; [done|].
  apply Forall_fmap. eapply Forall_impl; [exact Hx|]. done.
Qed.
End Recall.
