(* ===== verification/DecayDates.v ===== *)
(** * Dates of memory decay

    The day number that [Decay] computes from an ISO date is the count of days since
    the epoch in the Gregorian calendar. *)

From S2P Require Import Prelude Core FileFormat FileTheorems Floats Manifest CatalogTheorems HadoopTheorems Writer Decay.

(** The Gregorian calendar. *)
Definition leap (y : Z) : bool := ((y `mod` 4 =? 0) && negb (y `mod` 100 =? 0)) || (y `mod` 400 =? 0).
Definition month_length (y m : Z) : Z :=
  if m =? 2 then (if leap y then 29 else 28)
  else if (m =? 4) || (m =? 6) || (m =? 9) || (m =? 11) then 30 else 31.

Definition valid_date (y m d : Z) : Prop := 0 ≤ y ∧ 1 ≤ m ≤ 12 ∧ 1 ≤ d ≤ month_length y m.

Definition next_date (y m d : Z) : Z * Z * Z :=
  if d <? month_length y m then (y, m, d + 1) else if m <? 12 then (y, m + 1, 1) else (y + 1, 1, 1).

(** Days before a month, counted from March. *)
Definition month_days (m2 : Z) : Z := (153 * m2 + 2) / 5.

(** The divisions of the formula, for dates after the year -4800. *)
Lemma days_from_civil_div y m d :
  0 ≤ y → 1 ≤ m ≤ 12 →
  let y2 := if m <=? 2 then y + 4799 else y + 4800 in
  let m2 := if m <=? 2 then m + 9 else m - 3 in
  days_from_civil y m d = d + month_days m2 + 365 * y2 + y2 / 4 - y2 / 100 + y2 / 400 - 32045 - 2440588.
Proof.
  intros Hy Hm. unfold days_from_civil. rewrite (Z.quot_div_nonneg (14 - m)) by lia.
  assert (Ha : (14 - m) / 12 = if m <=? 2 then 1 else 0)
    by (destruct (Z.leb_spec m 2); Z.to_euclidean_division_equations; lia).
  rewrite Ha. destruct (Z.leb_spec m 2); cbn zeta;
    rewrite !Z.quot_div_nonneg by lia; unfold month_days; repeat (f_equal; try lia).
Qed.

Lemma leap_spec y : leap y = true ↔ (y `mod` 4 = 0 ∧ y `mod` 100 ≠ 0) ∨ y `mod` 400 = 0.
Proof. unfold leap. rewrite orb_true_iff, andb_true_iff, negb_true_iff, !Z.eqb_eq, Z.eqb_neq. done. Qed.

Lemma year_step y :
  (y + 4800) / 4 - (y + 4800) / 100 + (y + 4800) / 400 =
  (y + 4799) / 4 - (y + 4799) / 100 + (y + 4799) / 400 + (if leap y then 1 else 0).
Proof.
  pose proof (leap_spec y) as Hl. destruct (leap y).
  - destruct (proj1 Hl eq_refl) as [[H4 H100]|H400]; Z.to_euclidean_division_equations; lia.
  - assert (Hn : ¬ ((y `mod` 4 = 0 ∧ y `mod` 100 ≠ 0) ∨ y `mod` 400 = 0)) by (intros X; by apply Hl in X).
    Z.to_euclidean_division_equations; lia.
Qed.

#[local] Ltac civil_month :=
  cbv [Z.leb Z.compare Pos.compare Pos.compare_cont Z.eqb Pos.eqb orb];
  repeat match goal with |- context [month_days ?x] => let v := eval vm_compute in (month_days x) in change (month_days x) with v end;
  try match goal with |- context [leap ?y] => destruct (leap y) end; lia.

(** The day after a date has the next number. *)
Lemma next_day y m d : valid_date y m d →
  let '(y', m', d') := next_date y m d in
  valid_date y' m' d' ∧ days_from_civil y' m' d' = days_from_civil y m d + 1.
Proof.
  intros (Hy & Hm & Hd). unfold next_date. destruct (Z.ltb_spec d (month_length y m)) as [Hlt|Hge].
  - split; [unfold valid_date; lia|]. rewrite !days_from_civil_div by lia. cbn zeta. lia.
  - assert (d = month_length y m) as -> by lia. destruct (Z.ltb_spec m 12) as [Hm12|Hm12].
    + assert (Hpos : ∀ y m, 28 ≤ month_length y m)
        by (intros y' m'; unfold month_length; repeat case_match; lia).
      pose proof (Hpos y (m + 1)). split; [unfold valid_date; lia|]. rewrite !days_from_civil_div by lia. cbn zeta.
      pose proof (year_step y) as Hs. unfold month_length. remember (m + 1) as m' eqn:Em.
      assert (Hcases : m = 1 ∨ m = 2 ∨ m = 3 ∨ m = 4 ∨ m = 5 ∨ m = 6 ∨ m = 7 ∨ m = 8 ∨ m = 9 ∨ m = 10 ∨ m = 11)
        by (clear -Hm Hm12; lia).
      destruct Hcases as [->|[->|[->|[->|[->|[->|[->|[->|[->|[->| ->]]]]]]]]]];
        match type of Em with _ = ?k + 1 => let v := eval vm_compute in (k + 1) in assert (m' = v) as -> by (rewrite Em; reflexivity) end;
        civil_month.
    + assert (m = 12) as -> by lia. split; [unfold valid_date; cbn; lia|].
      rewrite !days_from_civil_div by lia. unfold month_length. replace (y + 1 + 4799) with (y + 4800) by lia. civil_month.
Qed.

(** A number with four digits, and one with two. *)
Definition pad2 (n : Z) : string := zeros (2 - String.length (to_string n)) +:+ to_string n.
Definition pad4 (n : Z) : string := zeros (4 - String.length (to_string n)) +:+ to_string n.
Definition iso_date (y m d : Z) : string := pad4 y +:+ "-" +:+ pad2 m +:+ "-" +:+ pad2 d.

(** The days of the calendar, one after the other from a date. *)
Fixpoint after_days (n : nat) (date : Z * Z * Z) : Z * Z * Z :=
  match n with
  | O => date
  | S n => let '(y, m, d) := after_days n date in next_date y m d
  end.

(** Counting forward from a valid date. *)
Lemma days_after n y m d : valid_date y m d →
  let '(y', m', d') := after_days n (y, m, d) in
  valid_date y' m' d' ∧ days_from_civil y' m' d' = days_from_civil y m d + Z.of_nat n.
Proof.
  intros Hv. induction n as [|n IH]; cbn [after_days]; [split; [done|lia]|].
  destruct (after_days n (y, m, d)) as [[y' m'] d']. destruct IH as [Hv' E].
  pose proof (next_day y' m' d' Hv') as Hn. destruct (next_date y' m' d') as [[y2 m2] d2]. destruct Hn as [Hv2 E2].
  split; [done|]. rewrite E2, E. lia.
Qed.

Fixpoint plain_text (s : string) : bool :=
  match s with EmptyString => true | String c s => negb (is_continuation c) && plain_text s end.

(** The digits are read back; checked number by number. *)
Definition part_ok (width : nat) (pad : Z → string) (n : Z) : bool :=
  bool_decide (String.length (pad n) = width) && bool_decide (parse_signed 64 (pad n) = Some n) && plain_text (pad n).

Lemma all_parts width pad bound :
  forallb (part_ok width pad) (seqZ 0 bound) = true → ∀ n, 0 ≤ n < bound →
  String.length (pad n) = width ∧ parse_signed 64 (pad n) = Some n ∧ plain_text (pad n) = true.
Proof.
  intros Hall n Hn. rewrite forallb_forall in Hall. specialize (Hall n).
  assert (Hok : part_ok width pad n = true) by (apply Hall, list_elem_of_In, elem_of_seqZ; lia).
  unfold part_ok in Hok. rewrite !andb_true_iff, !bool_decide_eq_true in Hok. tauto.
Qed.

Lemma years_read n : 0 ≤ n < 10000 →
  String.length (pad4 n) = 4%nat ∧ parse_signed 64 (pad4 n) = Some n ∧ plain_text (pad4 n) = true.
Proof. apply all_parts. vm_compute. reflexivity. Qed.

Lemma days_read n : 0 ≤ n < 100 →
  String.length (pad2 n) = 2%nat ∧ parse_signed 64 (pad2 n) = Some n ∧ plain_text (pad2 n) = true.
Proof. apply all_parts. vm_compute. reflexivity. Qed.

Lemma two_chars s : String.length s = 2%nat → ∃ a b, s = String a (String b "").
Proof. destruct s as [|a [|b [|c s]]]; try done. by exists a, b. Qed.
Lemma four_chars s : String.length s = 4%nat → ∃ a b c d, s = String a (String b (String c (String d ""))).
Proof. destruct s as [|a [|b [|c [|d [|e s]]]]]; try done. by exists a, b, c, d. Qed.

(** A text that begins with a date is read as the day number of the date. *)
Lemma iso_date_read y m d rest :
  0 ≤ y ≤ 9999 → 0 ≤ m < 100 → 0 ≤ d < 100 → char_boundary rest 0 = true →
  parse_iso_date_days (iso_date y m d +:+ rest) = Some (Some (days_from_civil y m d)).
Proof.
  intros Hy Hm Hd Hr. destruct (years_read y ltac:(lia)) as (Ly & Py & Cy).
  destruct (days_read m ltac:(lia)) as (Lm & Pm & Cm). destruct (days_read d ltac:(lia)) as (Ld & Pd & Cd).
  unfold iso_date. destruct (four_chars _ Ly) as (a1 & a2 & a3 & a4 & Ey). destruct (two_chars _ Lm) as (b1 & b2 & Em).
  destruct (two_chars _ Ld) as (c1 & c2 & Ed). rewrite Ey in *. rewrite Em in *. rewrite Ed in *.
  cbn [plain_text] in Cy, Cm, Cd. rewrite !andb_true_iff in Cy, Cm, Cd.
  set (s := _ +:+ rest). assert (Es : s = String a1 (String a2 (String a3 (String a4 (String (Ascii.ascii_of_nat 45) (String b1 (String b2
    (String (Ascii.ascii_of_nat 45) (String c1 (String c2 rest)))))))))) by done.
  unfold parse_iso_date_days. rewrite decide_False by (rewrite Es; cbn; lia).
  assert (S1 : str_slice s 0 4 = Some (String a1 (String a2 (String a3 (String a4 ""))))).
  { unfold str_slice, char_boundary. rewrite Es. cbn [String.get]. by rewrite (proj1 Cy). }
  assert (S2 : str_slice s 5 7 = Some (String b1 (String b2 ""))).
  { unfold str_slice, char_boundary. rewrite Es. cbn [String.get]. by rewrite (proj1 Cm). }
  assert (S3 : str_slice s 8 10 = Some (String c1 (String c2 ""))).
  { unfold str_slice. assert (char_boundary s 10 = true) as -> by (rewrite Es; exact Hr).
    unfold char_boundary. rewrite Es. cbn [String.get]. rewrite (proj1 Cd). cbn. by destruct rest. }
  rewrite S1, S2, S3. cbn [mbind option_bind]. by rewrite Py, Pm, Pd.
Qed.

(** C30: a date is its number of days since the epoch.  Reading the ISO text of the
    date that lies [n] days after 1970-01-01 in the Gregorian calendar, up to the year
    9999, gives [n], whatever time of day follows it. *)
Theorem iso_date_counts_days n rest :
  char_boundary rest 0 = true →
  let '(y, m, d) := after_days n (1970, 1, 1) in
  y ≤ 9999 → parse_iso_date_days (iso_date y m d +:+ rest) = Some (Some (Z.of_nat n)).
Proof.
  intros Hr. pose proof (days_after n 1970 1 1 ltac:(by unfold valid_date)) as Hd.
  destruct (after_days n (1970, 1, 1)) as [[y m] d]. destruct Hd as [(Hy & Hm & Hdd) E]. intros Hy9.
  assert (month_length y m ≤ 31) by (unfold month_length; repeat case_match; lia).
  rewrite iso_date_read by (done || lia). rewrite E. do 2 f_equal.
Qed.

(** The day the code was written, and the last day of a leap year's February. *)
Lemma iso_date_counts_days_witness :
  after_days 789 (1970, 1, 1) = (1972, 2, 29) ∧ iso_date 1972 2 29 = "1972-02-29" ∧
  parse_iso_date_days ("1972-02-29" +:+ "T10:00:00Z") = Some (Some 789).
Proof.
  assert (E : after_days 789 (1970, 1, 1) = (1972, 2, 29)) by (vm_compute; reflexivity).
  split; [exact E|]. split; [vm_compute; reflexivity|].
  pose proof (iso_date_counts_days 789 "T10:00:00Z" eq_refl) as X. rewrite E in X. exact (X ltac:(lia)).
Defined.

(** A text that is no date: none, an error of the digits, or a panic within a
    character of three bytes. *)
Definition euro : string :=
  String (Ascii.ascii_of_nat 226) (String (Ascii.ascii_of_nat 130) (String (Ascii.ascii_of_nat 172) "")).
Example not_dates :
  parse_iso_date_days "2024-1-1" = Some None ∧ parse_iso_date_days "yesterday!" = Some None ∧
  parse_iso_date_days (euro +:+ euro +:+ euro +:+ euro) = None.
Proof. vm_compute. done. Qed.
