(* ===== verification/DecayTheorems.v ===== *)
(** * What memory decay keeps

    Recomputing the weights changes no other cell of a table, no vector and no deletion
    vector: whatever write of the job fails, the table can be read afterwards and its
    deletion vectors leave the rows they left, in order.  It forgets the equality
    deletes. *)

From S2P Require Import Prelude Core Footer FileFormat FileTheorems Store Effects Json Avro Manifest.
From S2P Require Import ManifestTheorems Puffin Catalog CatalogTheorems HadoopTheorems ArrowSchema Arrow Arrays Deletes.
From S2P Require Import DeletesTheorems Floats Ranking Bloom Bm25 Search Compaction CompactionTheorems CompactionRows.
From S2P Require Import CompactionSafety Cdc CdcRows Writer WriterTheorems Decay.

(* ------------------------------------------------------------------ *)
(** ** Batches                                                         *)
(* ------------------------------------------------------------------ *)

(** The cells of a row but for its weight. *)
Definition others (cells : list (string * option string)) : list (string * option string) :=
  filter (λ c, c.1 ≠ RECENCY_WEIGHT_COL) cells.

(** The same row, but for its weight. *)
Definition same_row (r r' : Row) : Prop := others r.1 = others r'.1 ∧ r.2 = r'.2.

Lemma others_insert cells i c :
  c.1 = RECENCY_WEIGHT_COL → (∀ d, cells !! i = Some d → d.1 = RECENCY_WEIGHT_COL) → others (<[i := c]> cells) = others cells.
Proof.
  intros Hc. revert i. induction cells as [|d cells IH]; intros i Hd; [done|]. unfold others in *.
  destruct i as [|i]; cbn [insert list_insert].
  - rewrite !filter_cons_False; [done| |]; intros X; apply X; [by apply Hd|done].
  - rewrite !filter_cons, IH by (intros e He; by apply (Hd e)). done.
Qed.

Lemma others_snoc cells c : c.1 = RECENCY_WEIGHT_COL → others (cells ++ [c]) = others cells.
Proof.
  intros Hc. unfold others. rewrite filter_app, filter_cons_False by (by intros X). apply app_nil_r.
Qed.

Section Batches.
Context {PL : ParquetLib} {AL : ArrowLib} {RL : ArrayLib} {DL : DecayLib} `{!ArrowLaws} `{!ArrayLaws}.

Lemma columns_fit b : Forall2 (column_fits (num_rows b)) (schema_of b) (columns b).
Proof.
  apply Forall2_same_length_lookup. split; [unfold columns, num_columns; by rewrite length_fmap, length_seq|].
  intros i f a Hf Ha. unfold columns in Ha. rewrite list_lookup_fmap in Ha.
  destruct (seq 0 (num_columns b) !! i) as [j|] eqn:Ej; [|done]. apply lookup_seq in Ej as [-> _].
  injection Ha as <-. by apply column_is.
Qed.

(** A batch built on fitting columns, where it is known that some column is there. *)
Lemma batch_new_fit fs cols n b :
  cols ≠ [] → Forall2 (column_fits n) fs cols → batch_new fs cols = Ok b →
  num_rows b = n ∧ schema_of b = fs ∧ ∀ row, named_row b row = zip_with (λ f a, (af_name f, array_cell a row)) fs cols.
Proof.
  intros Hne Hf Hb. destruct (batch_new_ok fs cols n Hne Hf) as (b' & Hb' & Hs & Hn & Hc).
  rewrite Hb in Hb'. injection Hb' as <-. split; [done|]. split; [done|]. intros row. rewrite named_row_fields, Hs.
  apply list_eq. intros i. rewrite list_lookup_imap, lookup_zip_with.
  destruct (fs !! i) as [f|] eqn:Ef; cbn; [|done].
  destruct (Forall2_lookup_l _ _ _ _ _ Hf Ef) as (a & Ha & _). rewrite Ha. cbn. by rewrite (Hc i a Ha).
Qed.

Lemma named_row_zip b row :
  named_row b row = zip_with (λ f a, (af_name f, array_cell a row)) (schema_of b) (columns b).
Proof.
  rewrite named_row_fields. apply list_eq. intros i. rewrite list_lookup_imap, lookup_zip_with.
  destruct (schema_of b !! i) as [f|] eqn:Ef; cbn; [|done]. unfold columns. rewrite list_lookup_fmap.
  assert (seq 0 (num_columns b) !! i = Some i) as -> by (apply lookup_seq; apply lookup_lt_Some in Ef; split; [lia|done]).
  done.
Qed.

Lemma days_old_length col today days :
  days_old_vec col today = Ret (Ok days) → Zlen days = array_len col.
Proof.
  pose proof (array_len_nonneg col) as Hn. unfold days_old_vec, rows_of_array. destruct (timestamp_unit col).
  - intros [= <-]. rewrite length_fmap, length_seqZ. lia.
  - destruct (array_type col); try done. destruct (mapM _ _) as [l|] eqn:E; [|done]. intros [= <-].
    apply mapM_Some, Forall2_length in E. rewrite length_seqZ in E. lia.
Qed.

(** The new batch: the same rows but for the weights, which are those of the ages. *)
Lemma apply_decay_spec b today lambda b' :
  apply_decay b today lambda = Ret (Ok b') →
  num_rows b' = num_rows b ∧ (∀ row, others (named_row b' row) = others (named_row b row)) ∧
  (∀ n, n ∉ field_names b → n ≠ RECENCY_WEIGHT_COL → n ∉ field_names b').
Proof.
  unfold apply_decay. destruct (field_index (schema_of b) LAST_ACCESSED_COL) as [i|] eqn:Ei; [|done].
  destruct (days_old_vec (column b i) today) as [[days|e]|] eqn:Ed; [|done..]. cbn [mbind].
  apply field_index_Some in Ei as (f & Hf & _). destruct (column_is b i f Hf) as [(_ & Hlen & _) _].
  apply days_old_length in Ed. rewrite Hlen in Ed.
  destruct (f32_array_is (recency lambda <$> days)) as (Hty & Hal & Hnn). rewrite length_fmap, Ed in Hal.
  set (w := f32_array _) in *. assert (Hw : column_fits (num_rows b) decay_field w) by (by split).
  pose proof (columns_fit b) as Hcols.
  destruct (field_index (schema_of b) RECENCY_WEIGHT_COL) as [pos|] eqn:Ep; intros [= Hb].
  - apply field_index_Some in Ep as (g & Hg & Eg & _).
    apply (batch_new_fit _ _ (num_rows b)) in Hb as (Hn & Hs & Hr).
    + split; [done|]. split.
      * intros row. rewrite Hr, named_row_zip, <- insert_zip_with. apply others_insert; [done|].
        intros d Hd. rewrite lookup_zip_with, Hg in Hd. cbn in Hd. destruct (columns b !! pos); [|done]. by injection Hd as <-.
      * intros n Hn1 Hn2. rewrite schema_names, Hs. rewrite schema_names in Hn1.
        by rewrite (names_insert _ _ _ g).
    + intros E%(f_equal length). rewrite length_insert in E. unfold columns, num_columns in E.
      rewrite length_fmap, length_seq in E. apply lookup_lt_Some in Hg. cbn in E. lia.
    + by apply Forall2_insert.
  - apply (batch_new_fit _ _ (num_rows b)) in Hb as (Hn & Hs & Hr).
    + split; [done|]. split.
      * intros row. rewrite Hr, named_row_zip, zip_with_app by (by eapply Forall2_length). by apply others_snoc.
      * intros n Hn1 Hn2. rewrite schema_names, Hs, fmap_app. rewrite schema_names in Hn1.
        intros [Hin|Hin]%elem_of_app; [done|]. by apply list_elem_of_singleton in Hin.
    + by destruct (columns b).
    + apply Forall2_app; [done|]. by constructor.
Qed.

End Batches.

(* ------------------------------------------------------------------ *)
(** ** Files                                                           *)
(* ------------------------------------------------------------------ *)

(** The names of the new files. *)
Lemma no_dash z : 0 ≤ z → no_char (Ascii.ascii_of_nat 45) (to_string z) = true.
Proof.
  intros Hz. assert (HN : ∀ n : N, no_char (Ascii.ascii_of_nat 45) (pretty n) = true).
  { intros n. unfold pretty, pretty_N. case_decide; [done|]. by apply pretty_N_go_no_char. }
  destruct z as [|p|p]; [apply (HN 0%N)|apply (HN (N.pos p))|lia].
Qed.

Lemma stamped_path_inj prefix a b i j :
  0 ≤ a → 0 ≤ b → 0 ≤ i → 0 ≤ j →
  prefix +:+ to_string a +:+ "-" +:+ pad5 i +:+ ".parquet" = prefix +:+ to_string b +:+ "-" +:+ pad5 j +:+ ".parquet" → i = j.
Proof.
  intros Ha Hb Hi Hj E. apply string_app_inj_l in E.
  change (to_string a +:+ String (Ascii.ascii_of_nat 45) (pad5 i +:+ ".parquet") =
          to_string b +:+ String (Ascii.ascii_of_nat 45) (pad5 j +:+ ".parquet")) in E.
  pose proof (split_once_app (Ascii.ascii_of_nat 45) (to_string a) (pad5 i +:+ ".parquet") (no_dash a Ha)) as E1.
  rewrite E, split_once_app in E1 by (by apply no_dash). injection E1 as _ E1. symmetry in E1. apply string_app_inj_r in E1.
  pose proof (pad5_digits (Z.max i j) i ltac:(lia)) as H1. rewrite E1, pad5_digits in H1 by lia. congruence.
Qed.

Lemma decayed_path_inj a b i j :
  0 ≤ a → 0 ≤ b → 0 ≤ i → 0 ≤ j → decayed_path a i = decayed_path b j → i = j.
Proof. apply stamped_path_inj. Qed.

Lemma keep_rows_Forall2 {A} (R : A → A → Prop) hides (xs ys : list A) :
  Forall2 R xs ys → Forall2 R (keep_rows hides xs) (keep_rows hides ys).
Proof.
  intros HR. unfold keep_rows. rewrite <- (Forall2_length _ _ _ HR). generalize (seqZ 0 (Zlen xs)) as l.
  induction HR as [|x y xs ys Hxy _ IH]; intros l; [destruct l; constructor|]. destruct l as [|i l]; [constructor|].
  cbn [zip_with]. rewrite !filter_cons. cbn [fst]. case_decide; cbn; [|apply IH]. constructor; [done|apply IH].
Qed.

Section Job.
Context {S : Type} `{ReliableReads S} `{!ReliableRanges S} `{!LockStore S} `{!LockLaws S}.
Context `{AvroLaws} `{SerdeLaws} `{JsonLib} `{BincodeLib} `{MetaLaws} `{RoaringLaws} `{SortLaws}.
Context {PL : ParquetLib} {IL : IndexLib} {AL : ArrowLib} {QL : QueryLib} {CL : CompactLib} {RL : ArrayLib} {DL : DecayLib}.
Context {LW : ParquetLaws PL} `{!ArrowLaws} `{!ArrayLaws} `{!ReadBackLaws}.
Context (root warehouse : string) (policy : VectorStoragePolicy) (lambda : f32bits).
Implicit Types m : gmap string bytes.

#[local] Instance decay_catalog : CatalogProvider S := catalog root warehouse.

Lemma write_multi_spliced w b c cs f :
  write_multi w b (c :: cs) = Ok f → spliced (col_policy c) b (col_embeddings c) f.
Proof.
  unfold write_multi. rewrite bind_Ok. intros ([f1 n1] & Hw1 & Hf). apply bind_Ok in Hf as (s1 & Hs1 & Hf).
  apply bind_Ok in Hf as ([[ss kvs] off] & _ & Hf). apply bind_Ok in Hf as ([f2 n2] & Hw2 & Hf).
  apply bind_Ok in Hf as (s2 & Hs2 & Hf). injection Hf as <-. rewrite app_assoc with (l := mjoin _).
  by eapply two_passes.
Qed.

Lemma decayed_bytes_spliced b e extra f : decayed_bytes policy b e extra = Ok f → spliced policy b e f.
Proof.
  unfold decayed_bytes. destruct extra; [by intros Hf%write_spliced|by intros Hf%write_multi_spliced].
Qed.

(** A stored file whose rows can be written again: no column has the name of the vector
    column, and storing its vectors does not change them. *)
Definition rewritable m (f : DataFileEntry) : Prop :=
  ∀ d b e, m !! df_path f = Some d → read_parquet (mk_reader d (column_name policy)) (policy_dim policy) = Ok (b, e) →
    column_name policy ∉ field_names b ∧ 0 < num_rows b ∧ Forall (λ v, stored_vector policy v = v) e.

(** The rows of the new file. *)
Lemma decayed_raw_rows b e today b' extra f d rows :
  raw_policy policy → column_name policy ≠ RECENCY_WEIGHT_COL →
  column_name policy ∉ field_names b → 0 < num_rows b → Forall (λ v, stored_vector policy v = v) e →
  read_parquet (mk_reader d (column_name policy)) (policy_dim policy) = Ok (b, e) →
  apply_decay b today lambda = Ret (Ok b') → decayed_bytes policy b' e extra = Ok f → raw_rows policy d = Some rows →
  ∃ rows', raw_rows policy f = Some rows' ∧ Forall2 same_row rows rows'.
Proof.
  intros [Hraw Hprec] Hw Hcol Hn Hst Hr Hd Hf. unfold raw_rows at 1. rewrite Hr.
  destruct (apply_decay_spec _ _ _ _ Hd) as (Hn' & Ho & Hnames). case_decide as Hl; [|done]. intros [= <-].
  exists (zip (named_rows b') e). split.
  - apply decayed_bytes_spliced in Hf. apply (spliced_rows policy b' e f Hf Hraw Hprec); [by apply Hnames|lia|done].
  - apply Forall2_same_length_lookup. unfold named_rows. rewrite Hn'. split.
    + by rewrite !length_zip_with, !length_fmap.
    + intros i r r' Hi Hi'. apply lookup_zip_with_Some in Hi as (c & v & -> & Hc & Hv).
      apply lookup_zip_with_Some in Hi' as (c' & v' & -> & Hc' & Hv').
      rewrite list_lookup_fmap in Hc, Hc'. destruct (seqZ 0 (num_rows b) !! i) as [row|]; [|done].
      injection Hc as <-. injection Hc' as <-. split; [symmetry; apply Ho|cbn; congruence].
Qed.

Lemma wp_new_extra m bytes (xs : list (string * Z * list vec32)) (Q : outcome AilakeError (list (option ExtraVectorIndex)) → gmap string (list Z) → Prop) :
  (∀ o, Q o m) →
  wp (S := S) m (io_map (λ x : string * Z * list vec32, io_outcome (new_extra_index bytes x.1.1 x.1.2)) xs) Q.
Proof.
  revert Q. induction xs as [|x xs IH]; intros Q HQ; cbn [io_map]; [by apply wp_ret|].
  apply wp_bind, wp_outcome. destruct (new_extra_index _ _ _) as [[i|e]|]; [|apply HQ..].
  apply wp_bind, IH. intros [[l|e]|]; [by apply wp_ret|apply HQ..].
Qed.

(** Rewriting one file touches only its new path; where it returns an entry, the entry
    has the old deletion vector and shows the old rows. *)
Lemma wp_decay_file m today path f Q :
  raw_policy policy → column_name policy ≠ RECENCY_WEIGHT_COL → rewritable m f → path ≠ df_path f →
  (∀ dv, df_deletion_vector f = Some dv → dv_path dv ≠ path) →
  (∀ o m', agree_except (λ q, q = path) m m' →
    (∀ g, o = Ret (Ok (Some g)) → file_key g = (path, df_deletion_vector f) ∧
      ∀ rows, left_by_dv m policy (file_key f) = Some rows →
        ∃ rows', left_by_dv m' policy (file_key g) = Some rows' ∧ Forall2 same_row rows rows') →
    (o = Ret (Ok None) → m' = m) → Q o m') →
  wp m (decay_file policy lambda today path f) Q.
Proof.
  intros Hraw Hw Hre Hpath Hdv HQ.
  assert (Hno : ∀ o, (∀ g, o ≠ Ret (Ok (Some g))) → Q o m).
  { intros o Ho. apply HQ; [apply agree_refl| |done]. intros g Hg. by apply Ho in Hg. }
  apply wp_bind, wp_get_. destruct (m !! df_path f) as [d|] eqn:Ed; [|by apply Hno]. cbn [ok_or].
  destruct (is_ailake_file _); [|by apply wp_ret, Hno]. cbn [negb].
  destruct (read_parquet _ _) as [[b e]|err] eqn:Er; [|by apply wp_ret, Hno].
  destruct (field_index _ _); [|by apply wp_ret, Hno]. destruct (Hre d b e Ed Er) as (Hcol & Hnum & Hst).
  apply wp_bind, wp_outcome. destruct (apply_decay b today lambda) as [[b'|err]|] eqn:Eb; [|by apply Hno..].
  apply wp_bind, wp_result. destruct (decayed_bytes _ _ _ _) as [file|err] eqn:Ef; [|by apply Hno].
  apply wp_bind, wp_put_any; [intros m1 ->|intros err; by apply Hno].
  assert (Hput : agree_except (λ q, q = path) m (<[path := file]> m)) by (by apply agree_insert, agree_refl).
  assert (Hbad : ∀ o, (∀ g, o ≠ Ret (Ok g)) → Q o (<[path := file]> m)).
  { intros o Ho. apply HQ; [done|intros g Hg; by apply Ho in Hg|intros Hg; by apply Ho in Hg]. }
  apply wp_bind, wp_outcome. destruct (read_header _) as [[header|]|]; [|by apply Hbad..].
  apply wp_bind, wp_outcome. destruct (ailk_offset _) as [[start|]|]; [|by apply Hbad..].
  apply wp_bind, wp_new_extra. intros [[extra|err]|]; [|by apply Hbad..].
  apply wp_ret, HQ; [done| |done]. intros g [= <-].
  assert (Ek : file_key (with_vector_of f (make_multi_column_data_file_entry path (num_rows b') (Zlen file)
    (compute_centroid_and_radius e (policy_metric policy)) (mk_vinfo (column_name policy) (policy_dim policy)
      (wrap 64 (start + Header.hnsw_offset header)) (Header.hnsw_len header)) (omap id extra))) =
    (path, df_deletion_vector f)).
  { unfold with_vector_of, file_key. by destruct (df_deletion_vector f). }
  split; [exact Ek|]. rewrite Ek. intros rows. unfold left_by_dv, file_key. cbn [fst snd]. rewrite Ed, lookup_insert_eq.
  cbn [mbind option_bind]. destruct (raw_rows policy d) as [all|] eqn:Ea; [|done]. cbn [mbind option_bind].
  destruct (decayed_raw_rows b e today b' _ file d all Hraw Hw Hcol Hnum Hst Er Eb Ef Ea) as (all' & -> & Hall).
  cbn [mbind option_bind]. destruct (df_deletion_vector f) as [dv|]; [|intros [= <-]; eauto].
  assert (vector_in (<[path := file]> m) dv = vector_in m dv) as ->.
  { unfold vector_in. by rewrite lookup_insert_ne by (intros E; by apply (Hdv dv)). }
  destruct (vector_in m dv) as [bm|]; [|done]. cbn [mbind option_bind]. intros [= <-]. eexists. split; [done|].
  by apply keep_rows_Forall2.
Qed.

(* ------------------------------------------------------------------ *)
(** ** All files                                                       *)
(* ------------------------------------------------------------------ *)

Section Loop.
Context (millis : Z → Z) (today : Z) m0 (fs : list DataFileEntry).
Context (Hraw : raw_policy policy) (Hw : column_name policy ≠ RECENCY_WEIGHT_COL).
Context (Hclock : ∀ i, 0 ≤ i → 0 ≤ millis i).
#[local] Notation new_path i := (decayed_path (millis i) i).

(** Where the job writes. *)
Definition fresh_path (q : string) : Prop := ∃ i, 0 ≤ i ∧ q = new_path i.

(** An object of a listed file. *)
Definition object_of (f : DataFileEntry) (q : string) : Prop :=
  q = df_path f ∨ ∃ dv, df_deletion_vector f = Some dv ∧ q = dv_path dv.

Context (Hnd : NoDup (df_path <$> fs)).
Context (Hplaces : Forall (λ f, ∀ q, object_of f q → ¬ fresh_path q) fs).
Context (Hre : Forall (rewritable m0) fs).

(** An entry of the new list: a file carried forward, or a rewritten one. *)
Definition entry_from (seen : list DataFileEntry) (retired : list string) (updated : Z) (g : DataFileEntry) : Prop :=
  (g ∈ seen ∧ df_path g ∉ retired) ∨
  ∃ i f, 0 ≤ i < updated ∧ f ∈ seen ∧ file_key g = (new_path i, df_deletion_vector f).

(** The state of the job after the files [seen], whose rows were [rows]. *)
Record decaying m (seen : list DataFileEntry) (rows : list Row) (st : decay_state) : Prop := {
  dg_frame : agree_except fresh_path m0 m;
  dg_rows : ∃ rows', rows_left_by_dvs m policy st.1.1 = Some rows' ∧ Forall2 same_row rows rows';
  dg_count : 0 ≤ st.2;
  dg_entries : Forall (entry_from seen st.1.2 st.2) st.1.1;
  dg_retired : st.1.2 ⊆ df_path <$> seen;
}.

Lemma new_path_inj i j : 0 ≤ i → 0 ≤ j → new_path i = new_path j → i = j.
Proof. intros Hi Hj. by apply decayed_path_inj; auto. Qed.

(** Objects of listed files are as they were. *)
Lemma old_objects m f : agree_except fresh_path m0 m → f ∈ fs → left_by_dv m policy (file_key f) = left_by_dv m0 policy (file_key f).
Proof.
  intros Hag Hf. rewrite Forall_forall in Hplaces. pose proof (Hplaces f Hf) as Hp.
  unfold left_by_dv, file_key. cbn [fst snd]. rewrite (Hag (df_path f)) by (apply Hp; by left).
  destruct (df_deletion_vector f) as [dv|] eqn:Ed; [|done].
  assert (vector_in m dv = vector_in m0 dv) as ->; [|done].
  unfold vector_in. by rewrite (Hag (dv_path dv)) by (apply Hp; right; eauto).
Qed.

(** Writing the next file leaves the entries so far. *)
Lemma entries_kept m m' seen st :
  agree_except (λ q, q = new_path st.2) m m' → 0 ≤ st.2 → seen ⊆ fs →
  Forall (entry_from seen st.1.2 st.2) st.1.1 → rows_left_by_dvs m' policy st.1.1 = rows_left_by_dvs m policy st.1.1.
Proof.
  intros Hag Hc Hsub Hents. eapply untouched; [exact Hag|]. intros g Hg. rewrite Forall_forall in Hents, Hplaces.
  assert (Hold : ∀ f q, f ∈ seen → object_of f q → q ≠ new_path st.2).
  { intros f q Hf Ho E. apply (Hplaces f (Hsub f Hf) q Ho). by exists st.2. }
  destruct (Hents g Hg) as [[Hin _]|(i & f & Hi & Hf & Ek)].
  - split; [apply (Hold g); [done|by left]|]. intros dv Hd. apply (Hold g); [done|right; eauto].
  - unfold file_key in Ek. injection Ek as Ep Ed. rewrite Ep, Ed. split.
    + intros E. apply new_path_inj in E; lia.
    + intros dv Hd. apply (Hold f); [done|right; eauto].
Qed.

Lemma entry_from_mono seen seen' retired retired' updated updated' g :
  entry_from seen retired updated g → seen ⊆ seen' → updated ≤ updated' →
  (g ∈ seen → df_path g ∉ retired → df_path g ∉ retired') → entry_from seen' retired' updated' g.
Proof.
  intros [[Hin Hn]|(i & f & Hi & Hf & Ek)] Hs Hu Hr; [left; auto|]. right. exists i, f. split; [lia|]. auto.
Qed.

Lemma wp_decay_step m seen f rest rows rf st Q :
  fs = seen ++ f :: rest → decaying m seen rows st → left_by_dv m0 policy (file_key f) = Some rf →
  (∀ o m', agree_except fresh_path m0 m' →
    (∀ st', o = Ret (Ok st') → decaying m' (seen ++ [f]) (rows ++ rf) st') → Q o m') →
  wp m (decay_step policy lambda today millis st f) Q.
Proof.
  intros Efs [Hag (rows' & Hrows & Hall) Hc Hents Hret] Hrf HQ. destruct st as [[ents retired] n]. cbn [fst snd] in *.
  assert (Hf : f ∈ fs) by (rewrite Efs; apply elem_of_app; right; by left).
  assert (Hseen : seen ⊆ fs) by (intros x Hx; rewrite Efs; apply elem_of_app; by left).
  assert (Hnew : ∀ g, g ∈ seen → df_path g ≠ df_path f).
  { intros g Hg E. rewrite Efs, fmap_app, fmap_cons in Hnd. apply NoDup_app in Hnd as (_ & Hdis & _).
    apply (Hdis (df_path g)); [by apply list_elem_of_fmap_2|]. rewrite E. by left. }
  pose proof (proj1 (Forall_forall _ _) Hplaces f Hf) as Hp. pose proof (proj1 (Forall_forall _ _) Hre f Hf) as Hrew.
  assert (Hfresh : fresh_path (new_path n)) by (by exists n).
  unfold decay_step. apply wp_bind, wp_decay_file; [done|done| | | |].
  - intros d b e Hd. apply Hrew. rewrite <- Hd. symmetry. apply Hag. apply Hp. by left.
  - intros E. apply (Hp (df_path f)); [by left|]. by rewrite <- E.
  - intros dv Hdv E. apply (Hp (dv_path dv)); [right; eauto|]. by rewrite E.
  - intros o m' Hag' Hsome Hnone.
    assert (Hag2 : agree_except fresh_path m0 m').
    { eapply agree_trans; [exact Hag|]. eapply agree_weaken; [|exact Hag']. by intros q ->. }
    assert (Hkeep : rows_left_by_dvs m' policy ents = Some rows') by (rewrite <- Hrows; by apply (entries_kept m m' seen (ents, retired, n))).
    destruct o as [[[g|]|err]|]; [| |by apply HQ..]; apply wp_ret, HQ; try done; intros st' [= <-]; split; cbn [fst snd]; try done.
    + destruct (Hsome g eq_refl) as [Ek Hg]. rewrite <- (old_objects m f Hag Hf) in Hrf.
      destruct (Hg rf Hrf) as (rf' & Hrf' & Hsame). exists (rows' ++ rf'). split; [|by apply Forall2_app].
      apply contents_app; [done|]. apply contents_cons. exists rf', []. by rewrite app_nil_r.
    + lia.
    + destruct (Hsome g eq_refl) as [Ek _]. apply Forall_app. split.
      * eapply Forall_impl; [exact Hents|]. intros x Hx. eapply entry_from_mono; [exact Hx|set_solver|lia|].
        intros Hin Hn [Hx'|Hx'%list_elem_of_singleton]%elem_of_app; [done|]. by apply (Hnew x).
      * apply Forall_singleton. right. exists n, f. split; [lia|]. split; [set_solver|done].
    + rewrite fmap_app. set_solver.
    + rewrite Hnone by done. rewrite Hnone in Hkeep by done. rewrite <- (old_objects m f Hag Hf) in Hrf.
      exists (rows' ++ rf). split.
      * apply contents_app; [done|]. apply contents_cons. exists rf, []. by rewrite app_nil_r.
      * apply Forall2_app; [done|]. apply Forall2_same_length_lookup. split; [done|]. intros i x y Hx Hy.
        rewrite Hx in Hy. injection Hy as <-. done.
    + apply Forall_app. split.
      * eapply Forall_impl; [exact Hents|]. intros x Hx. eapply entry_from_mono; [exact Hx|set_solver|lia|done].
      * apply Forall_singleton. left. split; [set_solver|]. intros Hin. apply Hret in Hin.
        apply list_elem_of_fmap in Hin as (g & E & Hg). by apply (Hnew g).
    + rewrite fmap_app. set_solver.
Qed.

Lemma wp_decay_files m seen todo rows rows2 st Q :
  fs = seen ++ todo → decaying m seen rows st → rows_left_by_dvs m0 policy todo = Some rows2 →
  (∀ o m', agree_except fresh_path m0 m' →
    (∀ st', o = Ret (Ok st') → decaying m' fs (rows ++ rows2) st') → Q o m') →
  wp m (decay_files policy lambda today millis st todo) Q.
Proof.
  revert m seen rows rows2 st. induction todo as [|f todo IH]; intros m seen rows rows2 st Efs Hd Hc HQ; cbn [decay_files].
  - injection Hc as <-. rewrite app_nil_r in *. subst seen. apply wp_ret, HQ; [apply Hd|]. by intros st' [= <-].
  - apply contents_cons in Hc as (rf & rs & Hrf & Hrs & ->). eapply wp_bind, wp_decay_step; [exact Efs|exact Hd|exact Hrf|].
    intros o m' Hag Ho. destruct o as [[st'|err]|]; [|by apply HQ..].
    eapply (IH m' (seen ++ [f]) (rows ++ rf)); [by rewrite <- app_assoc|by apply Ho|exact Hrs|].
    intros o m2 Hag2 Ho2. apply HQ; [done|]. intros st2 E. specialize (Ho2 st2 E). by rewrite <- app_assoc in Ho2.
Qed.

End Loop.

(* ------------------------------------------------------------------ *)
(** ** The whole job                                                   *)
(* ------------------------------------------------------------------ *)

(** What the job needs: a published table of readable files in their own places, whose
    rows can be written again, and a commit in range. *)
Record decay_ready (s : S) (v : Z) (meta : IcebergMetadata) (now_secs : Z) (millis : Z → Z) (snap : Z)
    (fs : list DataFileEntry) (rows : list Row) : Prop := {
  dy_inv : store_inv s;
  dy_table : table (view s) root v meta;
  dy_files : (cp_list_files None s).2 = Ret (Ok fs);
  dy_rows : rows_left_by_dvs (view s) policy fs = Some rows;
  dy_paths : NoDup (df_path <$> fs);
  dy_clock i : 0 ≤ i → 0 ≤ millis i;
  dy_places : Forall (λ f, path_fixed warehouse (df_path f) ∧
    (∀ q, object_of f q → ¬ fresh_path millis q ∧ ∀ o, q ≠ obj_path root o) ∧
    ∀ dv, df_deletion_vector f = Some dv → dv_path dv ∉ df_path <$> fs) fs;
  dy_out q : fresh_path millis q → path_fixed warehouse q ∧ ∀ o, q ≠ obj_path root o;
  dy_rewritable : Forall (rewritable (view s)) fs;
  dy_policy : raw_policy policy;
  dy_column : column_name policy ≠ RECENCY_WEIGHT_COL;
  dy_input s1 s2 st : sees s1 (view s) →
    decay_files policy lambda (current_day_since_epoch now_secs) millis ([], [], 0) fs s1 = (s2, Ret (Ok st)) →
    commit_input (view s) root warehouse meta (plain_snapshot snap (im_current_snapshot_id meta) st.1.1 Overwrite []);
  dy_version : fits 32 (v + 1);
}.

(** The table after the job. *)
Definition decay_post (rows : list Row) (ds : list EqualityDeleteFile) (o : outcome AilakeError Z) m : Prop :=
  ∃ v meta fs rows' ds', table m root v meta ∧ files_in m meta None = Ok fs ∧ rows_left_by_dvs m policy fs = Some rows' ∧
    Forall2 same_row rows rows' ∧ deletes_in m meta None = Ok ds' ∧
    (ds' = ds ∨ ds' = []) ∧ ∀ n, o = Ret (Ok n) → n ≠ 0 → ds' = [].

Lemma same_rows_refl (rows : list Row) : Forall2 same_row rows rows.
Proof. induction rows; constructor; done. Qed.

Section OneJob.
Context m0 (v : Z) (meta : IcebergMetadata) (millis : Z → Z) (fs : list DataFileEntry) (rows : list Row)
  (ds : list EqualityDeleteFile).
Context (Ht : table m0 root v meta) (Hfs : files_in m0 meta None = Ok fs) (Hds : deletes_in m0 meta None = Ok ds).
Context (Hrows : rows_left_by_dvs m0 policy fs = Some rows) (Hnd : NoDup (df_path <$> fs)).
Context (Hclock : ∀ i, 0 ≤ i → 0 ≤ millis i).
Context (Hplaces : Forall (λ f, path_fixed warehouse (df_path f) ∧
    (∀ q, object_of f q → ¬ fresh_path millis q ∧ ∀ o, q ≠ obj_path root o) ∧
    ∀ dv, df_deletion_vector f = Some dv → dv_path dv ∉ df_path <$> fs) fs).
Context (Hout : ∀ q, fresh_path millis q → path_fixed warehouse q ∧ ∀ o, q ≠ obj_path root o).

(** Changes to fresh paths and to the catalog, which lists what it did. *)
Lemma decay_unchanged o m :
  same_listings m0 root v meta m → agree_except (λ q, fresh_path millis q ∨ ∃ o, q = obj_path root o) m0 m →
  (∀ n, o = Ret (Ok n) → n = 0) → decay_post rows ds o m.
Proof.
  intros [Htm Hl] Hag Ho. exists v, meta, fs, rows, ds. destruct (Hl None) as [E1 E2]. rewrite E1, E2.
  split_and!; [done|done| |apply same_rows_refl|done|by left|].
  - rewrite <- Hrows. eapply untouched; [exact Hag|]. intros f Hf. rewrite Forall_forall in Hplaces.
    destruct (Hplaces f Hf) as (_ & Hq & _).
    assert (Hx : ∀ q, object_of f q → ¬ (fresh_path millis q ∨ ∃ o, q = obj_path root o)).
    { intros q Ho'. destruct (Hq q Ho') as [Hn1 Hn2]. intros [?|[ob E]]; [done|by apply (Hn2 ob)]. }
    split; [apply Hx; by left|]. intros dv Hd. apply Hx. right. eauto.
  - intros n Hn Hne. by destruct Hne; apply Ho.
Qed.

(** Where the entries of the new list lie. *)
Lemma entry_placed m st (g : DataFileEntry) :
  decaying millis m0 m fs rows st → g ∈ st.1.1 →
  path_fixed warehouse (df_path g) ∧
  ∀ q, object_of g q → (∀ o, q ≠ obj_path root o) ∧ q ∉ st.1.2.
Proof.
  intros [_ _ _ Hents Hret] Hg. rewrite Forall_forall in Hents, Hplaces.
  assert (Hdv : ∀ f dv, f ∈ fs → df_deletion_vector f = Some dv → dv_path dv ∉ st.1.2).
  { intros f dv Hf Hd Hin. destruct (Hplaces f Hf) as (_ & _ & Hn). by apply (Hn dv Hd), Hret. }
  destruct (Hents g Hg) as [[Hin Hn]|(i & f & Hi & Hf & Ek)].
  - destruct (Hplaces g Hin) as (Hfx & Hq & _). split; [done|]. intros q Ho. split; [by apply Hq|].
    destruct Ho as [->|(dv & Hd & ->)]; [done|by apply (Hdv g)].
  - unfold file_key in Ek. injection Ek as Ep Ed. destruct (Hplaces f Hf) as (_ & Hq & _).
    assert (Hfr : fresh_path millis (decayed_path (millis i) i)) by (exists i; split; [lia|done]).
    rewrite Ep. split; [by apply Hout|]. intros q [->|(dv & Hd & ->)].
    + rewrite Ep. split; [by apply Hout|]. intros Hin. apply Hret, list_elem_of_fmap in Hin as (x & E & Hx).
      destruct (Hplaces x Hx) as (_ & Hxq & _). destruct (Hxq (df_path x) (or_introl eq_refl)) as [Hnf _]. apply Hnf.
      by rewrite <- E.
    + rewrite Ed in Hd. split; [apply Hq; right; eauto|by apply (Hdv f)].
Qed.

Lemma decay_replaced m st snap parent m2 meta' m3 o :
  decaying millis m0 m fs rows st →
  committed m root warehouse v meta (plain_snapshot snap parent st.1.1 Overwrite []) m2 meta' →
  agree_except (λ q, q ∈ st.1.2) m2 m3 → decay_post rows ds o m3.
Proof.
  intros Hd Hc Hag. pose proof Hd as [_ (rows' & Hr & Hsame) _ _ _].
  destruct (committed_listing root warehouse _ _ _ _ _ _ Overwrite _ _ eq_refl Hc) as (fs' & Hfs' & Hk & _ & Hdel).
  { apply Forall_forall. intros g Hg. by apply (entry_placed m st). }
  assert (Hobj : ∀ ob, m3 !! obj_path root ob = m2 !! obj_path root ob).
  { intros ob. apply Hag. intros Hin. pose proof (dg_retired _ _ _ _ _ _ Hd) as Hret. apply Hret in Hin.
    apply list_elem_of_fmap in Hin as (x & E & Hx). rewrite Forall_forall in Hplaces.
    destruct (Hplaces x Hx) as (_ & Hq & _). by destruct (proj2 (Hq (df_path x) (or_introl eq_refl)) ob). }
  destruct (table_frame root _ _ _ _ Hobj (c_table _ _ _ _ _ _ _ _ Hc)) as [Ht3 Hl3].
  exists (v + 1), meta', fs', rows', []. destruct (Hl3 None) as [-> ->].
  split_and!; [done|done| |done|done|by right|done].
  rewrite (contents_keys _ _ _ _ Hk), <- Hr. transitivity (rows_left_by_dvs m2 policy st.1.1).
  - eapply untouched; [exact Hag|]. intros g Hg. destruct (entry_placed m st g Hd Hg) as [_ Hq].
    split; [apply Hq; by left|]. intros dv Hdv. apply Hq. right. eauto.
  - eapply untouched; [apply (c_frame _ _ _ _ _ _ _ _ Hc)|]. intros g Hg. destruct (entry_placed m st g Hd Hg) as [_ Hq].
    split; [intros [ob E]; by apply (proj1 (Hq _ (or_introl eq_refl)) ob)|].
    intros dv Hdv [ob E]. by apply (proj1 (Hq _ (or_intror (ex_intro _ dv (conj Hdv eq_refl)))) ob).
Qed.

Lemma wp_delete_paths m (paths : list string) (Q : outcome AilakeError (list (AilakeResult unit)) → gmap string bytes → Prop) :
  (∀ l m', agree_except (λ q, q ∈ paths) m m' → Q (Ret (Ok l)) m') → wp m (io_map io_delete paths) Q.
Proof.
  revert m Q. induction paths as [|p paths IH]; intros m Q HQ; cbn [io_map]; [apply wp_ret, HQ, agree_refl|].
  apply wp_bind. assert (Hrest : ∀ r m1, agree_except (λ q, q = p) m m1 →
    wp m1 (ys ← io_map io_delete paths; mret (r :: ys)) Q).
  { intros r m1 Hm1. apply wp_bind, IH. intros l m' Hm'. apply wp_ret, HQ.
    eapply agree_trans; eapply agree_weaken; [|exact Hm1| |exact Hm']; set_solver. }
  apply wp_delete; [|intros err; apply Hrest, agree_refl]. apply Hrest. intros q Hq. by apply lookup_delete_ne.
Qed.

(** From the new list to the end. *)
Lemma wp_decay_commit m st snap now Q :
  decaying millis m0 m fs rows st → same_listings m0 root v meta m →
  commit_input m root warehouse meta (plain_snapshot snap (im_current_snapshot_id meta) st.1.1 Overwrite []) →
  fits 32 (v + 1) → (∀ o m', decay_post rows ds o m' → Q o m') →
  wp m (if st.2 =? 0 then mret 0
        else
          meta ← io_catch cp_load_table;
          let parent_snapshot_id := match meta with Ok m => tm_current_snapshot_id m | Err _ => None end in
          cp_commit_snapshot (plain_snapshot snap parent_snapshot_id st.1.1 Overwrite []) now;;
          (if cp_retires_files_physically then io_map io_delete st.1.2;; mret tt else mret tt);;
          mret st.2) Q.
Proof.
  intros Hd [Htm Hl] Hin Hv HQ.
  assert (Hag : agree_except (λ q, fresh_path millis q ∨ ∃ o, q = obj_path root o) m0 m).
  { eapply agree_weaken; [|apply (dg_frame _ _ _ _ _ _ Hd)]. by left. }
  destruct (st.2 =? 0); [apply wp_ret, HQ, decay_unchanged; [done|done|by intros n [= <-]]|].
  apply wp_bind, wp_catch. eapply wp_load_table; [exact Htm|]. apply wp_bind.
  apply (wp_commit_any m root warehouse v meta); [done|exact Hin|done|done| |].
  - intros r m2 meta' Hc. destruct r as [id|err].
    + apply wp_bind, wp_bind, wp_delete_paths. intros l m3 Hag3. apply wp_ret, wp_ret, HQ. by eapply decay_replaced.
    + apply HQ. eapply decay_replaced; [exact Hd|exact Hc|apply agree_refl].
  - intros err m2 [[Ht2 Hl2] Hag2]. apply HQ, decay_unchanged.
    + split; [done|]. intros sid. destruct (Hl2 sid) as [-> ->]. apply Hl.
    + eapply agree_trans; [exact Hag|]. eapply agree_weaken; [|exact Hag2]. by right.
    + done.
Qed.

End OneJob.

(** C11: decay changes only the weights.  In a store whose reads succeed and whose failed
    writes leave the object as it was, whatever else fails in the job (the computation of
    a weight, a write, the commit, the lock, the deletion of the retired files), the table
    can be listed and read afterwards, and the rows its deletion vectors leave are those
    before, in their order: every cell but the recency weight, and the vector of the
    policy's column.  The equality deletes are those before or none, none when the job
    returns after rewriting a file, and then rows deleted by value are back. *)
Theorem decay_keeps_rows s v meta now_secs millis snap now fs rows ds :
  decay_ready s v meta now_secs millis snap fs rows → (cp_list_equality_deletes None s).2 = Ret (Ok ds) →
  let '(s', o) := decay_run policy lambda now_secs millis snap now s in
  ∃ fs' rows' ds', (cp_list_files None s').2 = Ret (Ok fs') ∧ rows_left_by_dvs (view s') policy fs' = Some rows' ∧
    Forall2 same_row rows rows' ∧
    (cp_list_equality_deletes None s').2 = Ret (Ok ds') ∧ (ds' = ds ∨ ds' = []) ∧
    ∀ n, o = Ret (Ok n) → n ≠ 0 → ds' = [].
Proof.
  intros [Hi Ht Hfs Hrows Hnd Hclock Hplaces Hout Hre Hraw Hw Hin Hv] Hds.
  change (cp_list_files None s).2 with (list_files root None s).2 in Hfs.
  rewrite (list_files_table s root v meta) in Hfs by done. injection Hfs as Hfs.
  change (cp_list_equality_deletes None s).2 with (list_equality_deletes root None s).2 in Hds.
  rewrite (list_deletes_table s root v meta) in Hds by done. injection Hds as Hds.
  set (today := current_day_since_epoch now_secs) in *.
  assert (Hplaces' : Forall (λ f, ∀ q, object_of f q → ¬ fresh_path millis q) fs).
  { eapply Forall_impl; [exact Hplaces|]. intros f (_ & Hq & _) q Ho. by apply Hq. }
  assert (Hstart : decaying millis (view s) (view s) [] [] ([], [], 0)).
  { split; cbn; [apply agree_refl|exists []; by split; [|constructor]|done|constructor|set_solver]. }
  assert (Hrun : wp (view s) (decay_run policy lambda now_secs millis snap now) (λ o m', decay_post rows ds o m')).
  { apply wp_bind. eapply wp_cp_list_files; [exact Ht|]. rewrite Hfs.
    assert (Hsame : ∀ m', agree_except (fresh_path millis) (view s) m' → same_listings (view s) root v meta m').
    { intros m' Hag. apply table_frame; [|done]. intros o. apply Hag. intros Hq. by apply (proj2 (Hout _ Hq) o). }
    destruct fs as [|f0 fs0] eqn:Efs; [apply wp_ret; eapply decay_unchanged; eauto using agree_refl; by intros n [= <-]|].
    rewrite <- Efs in *. clear f0 fs0 Efs. apply wp_bind. intros s1 Hs1.
    assert (Hfiles : wp (view s) (decay_files policy lambda today millis ([], [], 0) fs) (λ o m',
      agree_except (fresh_path millis) (view s) m' ∧
      ∀ st, o = Ret (Ok st) → decaying millis (view s) m' fs rows st)).
    { eapply (wp_decay_files millis today (view s) fs Hraw Hw Hclock Hnd Hplaces' Hre (view s) [] fs [] rows); done. }
    destruct (Hfiles s1 Hs1) as (s2 & o & m2 & E & Hs2 & Hag & Ho). exists s2, o, m2. split; [exact E|]. split; [done|].
    assert (Hag' : agree_except (λ q, fresh_path millis q ∨ ∃ ob, q = obj_path root ob) (view s) m2).
    { eapply agree_weaken; [|exact Hag]. by left. }
    destruct o as [[[[ents retired] n]|err]|]; [|by eapply decay_unchanged; eauto..].
    eapply (wp_decay_commit (view s) v meta millis fs rows ds Ht Hfs Hds Hrows Hnd Hclock Hplaces Hout m2 (ents, retired, n));
      [by apply Ho|by apply Hsame| |done|done].
    eapply commit_input_frame; [|exact Ht|].
    - intros ob. apply Hag. intros Hq. by apply (proj2 (Hout _ Hq) ob).
    - by apply (Hin s1 s2 (ents, retired, n)). }
  destruct (wp_run s (view s) _ _ Hrun ltac:(done)) as (m1 & [Hi1 Hm1] & Hpost). clear Hrun.
  destruct (decay_run policy lambda now_secs millis snap now s) as [s' o]. cbn [fst snd] in *. subst m1.
  destruct Hpost as (v' & meta' & fs' & rows' & ds' & Ht' & Hfs' & Hrows' & Hsame & Hds' & Hor & Hn).
  exists fs', rows', ds'. change (cp_list_files None s').2 with (list_files root None s').2.
  change (cp_list_equality_deletes None s').2 with (list_equality_deletes root None s').2.
  by rewrite (list_files_table s' root v' meta'), (list_deletes_table s' root v' meta'), Hfs', Hds' by done.
Qed.

End Job.
