(* ===== verification/MigrationTheorems.v ===== *)
(** * Re-embedding and backfill keep the rows

    What [Migration] does to the rows of a table: after a migration, however it ended,
    the files replaced hold the rows their deletion vectors left, each with the vector
    the model gives its text, and the others are as they were; a backfill leaves every
    row with its vector.  Both forget the equality deletes. *)

From S2P Require Import Prelude Core Footer FileFormat FileTheorems Store Effects Json Avro Manifest.
From S2P Require Import ManifestTheorems Puffin Catalog CatalogTheorems HadoopTheorems ArrowSchema Arrow Arrays Deletes.
From S2P Require Import DeletesTheorems Floats Ranking Bloom Bm25 Search Compaction CompactionTheorems CompactionRows.
From S2P Require Import CompactionSafety Cdc CdcRows Writer WriterTheorems Decay DecayTheorems Migration.

(* ------------------------------------------------------------------ *)
(** ** Batches of texts                                                *)
(* ------------------------------------------------------------------ *)

Lemma chunks_of_join {A} n fuel (l : list A) : n ≠ O → (length l ≤ fuel)%nat → mjoin (chunks_of fuel n l) = l.
Proof.
  intros Hn. revert l. induction fuel as [|fuel IH]; intros l Hl; [by destruct l; [|cbn in Hl; lia]|].
  destruct l as [|x l]; [done|]. cbn [chunks_of]. rewrite mjoin_cons, IH; [apply take_drop|].
  rewrite length_drop. cbn in *. lia.
Qed.

(** An embedding function that embeds each text by itself. *)
Definition embeds (embed_fn : list string → AilakeResult (list vec32)) (model : string → vec32) : Prop :=
  ∀ texts vecs, embed_fn texts = Ok vecs → vecs = model <$> texts.

Lemma embed_in_batches_spec embed_fn model texts n vecs :
  embeds embed_fn model → embed_in_batches embed_fn texts n = Ret (Ok vecs) → vecs = model <$> texts.
Proof.
  intros He. unfold embed_in_batches. case_decide as Hn; [done|].
  destruct (try_map _ _) as [vss|] eqn:E; [|done]. intros [= <-].
  rewrite <- (chunks_of_join n (length texts) texts) by done. generalize (chunks_of (length texts) n texts), E. clear -He.
  intros tss. revert vss. induction tss as [|ts tss IH]; intros vss E; cbn [try_map] in E; [by injection E as <-|].
  destruct (embed_fn ts) as [vs|] eqn:Evs; [|done]. destruct (try_map embed_fn tss) as [rest|]; [|done].
  injection E as <-. rewrite !mjoin_cons, fmap_app, <- (IH rest) by done. by rewrite (He ts vs Evs).
Qed.

(* ------------------------------------------------------------------ *)
(** ** The text of a row                                               *)
(* ------------------------------------------------------------------ *)

(** The first cell of the name; a null is the empty text. *)
Definition cell_text (name : string) (cells : list (string * option string)) : string :=
  default "" (list_find (λ c, c.1 = name) cells ≫= λ ic, ic.2.2).

Section Texts.
Context {PL : ParquetLib} {AL : ArrowLib} {RL : ArrayLib} `{!ArrowLaws} `{!ArrayLaws}.

Lemma list_find_imap_name {A} (f : nat → ArrowField → A) (fs : list ArrowField) name i g :
  field_index fs name = Some i → fs !! i = Some g →
  list_find (λ c : string * A, c.1 = name) (imap (λ i f0, (af_name f0, f i f0)) fs) = Some (i, (af_name g, f i g)).
Proof.
  intros Hi Hg. apply field_index_Some in Hi as (g' & Hg' & En & Hfirst). rewrite Hg in Hg'. injection Hg' as <-.
  apply list_find_Some. rewrite list_lookup_imap, Hg. split_and!; [done|done|].
  intros j [n x] Hj Hlt. rewrite list_lookup_imap in Hj. destruct (fs !! j) as [h|] eqn:Eh; [|done].
  injection Hj as <- _. by apply (Hfirst j h).
Qed.

Lemma extracted_texts b name texts :
  extract_string_column b name = Ok texts → texts = cell_text name <$> named_rows b.
Proof.
  unfold extract_string_column. destruct (field_index (schema_of b) name) as [i|] eqn:Ei; [|done].
  destruct (array_type _); try done. intros [= <-]. pose proof Ei as (g & Hg & _)%field_index_Some.
  destruct (column_is b i g Hg) as [(_ & Hlen & _) _]. unfold named_rows, rows_of_array. rewrite Hlen, <- list_fmap_compose.
  apply list_fmap_ext. intros _ row _. cbn. rewrite named_row_fields. unfold cell_text.
  rewrite (list_find_imap_name (λ i _, array_cell (column b i) row) _ name i g) by done. cbn.
  unfold array_cell. by destruct (array_is_null _ _).
Qed.

End Texts.

(** Rows kept together with something computed from each. *)
Lemma keep_rows_fmap {A B} (f : A → B) hides (rows : list A) : keep_rows hides (f <$> rows) = f <$> keep_rows hides rows.
Proof.
  unfold keep_rows. rewrite length_fmap. generalize (seqZ 0 (Zlen rows)) as l. induction rows as [|r rows IH]; intros l; [by destruct l|].
  destruct l as [|i l]; [done|]. cbn [fmap list_fmap zip zip_with]. rewrite !filter_cons. cbn [fst].
  case_decide; cbn; [|apply IH]. f_equal. apply IH.
Qed.

Lemma zip_fmap_self {A B} (f : A → B) (l : list A) : zip l (f <$> l) = (λ x, (x, f x)) <$> l.
Proof. induction l as [|x l IH]; [done|]. cbn. by rewrite IH. Qed.

(* ------------------------------------------------------------------ *)
(** ** One file                                                        *)
(* ------------------------------------------------------------------ *)

Section Jobs.
Context {S : Type} `{ReliableReads S} `{!ReliableRanges S} `{!LockStore S} `{!LockLaws S}.
Context `{AvroLaws} `{SerdeLaws} `{JsonLib} `{BincodeLib} `{MetaLaws} `{RoaringLaws} `{SortLaws}.
Context {PL : ParquetLib} {IL : IndexLib} {AL : ArrowLib} {QL : QueryLib} {RL : ArrayLib}.
Context {LW : ParquetLaws PL} `{!ArrowLaws} `{!ArrayLaws} `{!ReadBackLaws}.
Context (root warehouse : string).
Implicit Types m : gmap string bytes.

#[local] Instance job_catalog : CatalogProvider S := catalog root warehouse.

(** The rows a deletion vector hides, where it can be loaded. *)
Definition hiding m (dv : option DeletionVector) : option (Z → bool) :=
  match dv with Some dv => (λ bm, dv_hides (Some bm)) <$> vector_in m dv | None => Some (λ _, false) end.

Lemma visible_hiding m p k :
  left_by_dv m p k = (d ← m !! k.1; rows ← raw_rows p d; hides ← hiding m k.2; Some (keep_rows hides rows)).
Proof.
  unfold left_by_dv. destruct (m !! k.1) as [d|]; [|done]. cbn. destruct (raw_rows p d) as [rows|]; [|done]. cbn.
  destruct k.2 as [dv|]; cbn; [by destruct (vector_in m dv)|]. by rewrite keep_rows_none.
Qed.

(** Rows and values that go with them, without the hidden ones. *)
Lemma wp_survivors {T} m (dv : option DeletionVector) b (xs : list T) Q :
  Zlen xs = num_rows b →
  (∀ r, (∀ b' xs', r = Ok (b', xs') → Zlen xs' = num_rows b' ∧ field_names b' = field_names b ∧
     ∃ hides, hiding m dv = Some hides ∧ zip (named_rows b') xs' = keep_rows hides (zip (named_rows b) xs)) → Q (Ret r) m) →
  wp m (match dv with
        | Some dv => bitmap ← load_deletion_vector dv; io_result (filter_deleted_rows b xs bitmap)
        | None => mret (b, xs)
        end) Q.
Proof.
  intros Hl HQ. destruct dv as [dv|].
  - apply wp_bind, wp_load_deletion_vector. intros r Hr. destruct (vector_in m dv) as [bm|] eqn:Ev.
    + subst r. apply wp_result, HQ. intros b' xs' Hf.
      destruct (filter_deleted_pairs _ _ _ _ _ Hf Hl) as (Hl' & Hz & Hn). split; [done|]. split; [done|].
      exists (dv_hides (Some bm)). unfold hiding. by rewrite Ev.
    + destruct Hr as [e ->]. by apply HQ.
  - apply wp_ret, HQ. intros b' xs' [= <- <-]. split; [done|]. split; [done|]. exists (λ _, false).
    by rewrite keep_rows_none.
Qed.

(** The rows that the deletion vector of a file leaves, and what survives of its batch. *)
Lemma survivors_visible m p f d b e hides rows :
  m !! df_path f = Some d → read_parquet (mk_reader d (column_name p)) (policy_dim p) = Ok (b, e) →
  hiding m (df_deletion_vector f) = Some hides → left_by_dv m p (file_key f) = Some rows →
  Zlen e = num_rows b ∧ rows = keep_rows hides (zip (named_rows b) e).
Proof.
  intros Hd Hr Hh. rewrite visible_hiding. unfold file_key, raw_rows. cbn [fst snd]. rewrite Hd. cbn. rewrite Hr.
  case_decide; [|done]. rewrite Hh. cbn. by intros [= <-].
Qed.

Lemma survivors_rows {A B} b b' (e : list A) (xs : list B) hides (f : list (string * option string) → B) :
  Zlen e = num_rows b → Zlen xs = num_rows b' →
  zip (named_rows b') xs = keep_rows hides (zip (named_rows b) (f <$> named_rows b)) →
  xs = f <$> named_rows b' ∧ named_rows b' = (keep_rows hides (zip (named_rows b) e)).*1.
Proof.
  intros Hl Hl' Hz. rewrite zip_fmap_self, keep_rows_fmap in Hz.
  pose proof (named_rows_length b (num_rows_nonneg b)) as Hn. pose proof (named_rows_length b' (num_rows_nonneg b')) as Hn'.
  assert (E1 : named_rows b' = keep_rows hides (named_rows b)).
  { rewrite <- (fst_zip (named_rows b') xs) by lia. rewrite Hz, <- list_fmap_compose. apply list_fmap_id. }
  split; [|by rewrite <- keep_rows_fmap, fst_zip by lia].
  rewrite <- (snd_zip (named_rows b') xs) at 1 by lia. by rewrite Hz, E1, <- list_fmap_compose.
Qed.

Lemma shown_rows_positive b (rows : list Row) : named_rows b = rows.*1 → rows ≠ [] → 0 < num_rows b.
Proof.
  intros E Hne. pose proof (named_rows_length b (num_rows_nonneg b)) as Hn. rewrite E, length_fmap in Hn.
  destruct rows; [done|]. cbn in Hn. lia.
Qed.

(** What a job made of a file: an entry at its path without a deletion vector, for an
    object with a property. *)
Definition stands_at m (path : string) (good : bytes → Prop) (g : DataFileEntry) : Prop :=
  file_key g = (path, None) ∧ ∃ d, m !! path = Some d ∧ good d.

Section Reembed.
Context (job : MigrationJob) (clock : RunClock) (model : string → vec32).
Context (Hmodel : embeds (mj_embed_fn job) model).

(** A row with the vector of its text. *)
Definition reembedded (p : VectorStoragePolicy) (r : Row) : Row :=
  (r.1, stored_vector p (model (cell_text (mj_text_column job) r.1))).

(** The object has the rows that the deletion vector of [f] leaves, with their new vectors. *)
Definition shows_reembedded m (old new : VectorStoragePolicy) (f : DataFileEntry) (d : bytes) : Prop :=
  ∀ rows, left_by_dv m old (file_key f) = Some rows → rows ≠ [] → raw_rows new d = Some (reembedded new <$> rows).

#[local] Notation new_path idx := (migrated_path (rc_millis clock idx) idx).

Lemma wp_migrate_file m old new idx f Q :
  raw_policy new → column_name old = mj_old_column job → policy_dim old = policy_dim new →
  (∀ d b e, m !! df_path f = Some d → read_parquet (mk_reader d (column_name old)) (policy_dim old) = Ok (b, e) →
    column_name new ∉ field_names b) →
  (∀ o m', agree_except (λ q, q = new_path idx) m m' →
    (∀ g, o = Ret (Ok g) → stands_at m' (new_path idx) (shows_reembedded m old new f) g) → Q o m') →
  wp m (migrate_file job clock new idx f) Q.
Proof.
  intros [Hraw Hprec] Hcol Hdim Hname HQ.
  assert (Hno : ∀ e, Q (Ret (Err e)) m) by (intros e; by apply HQ; [apply agree_refl|]).
  assert (Hpan : Q Panic m) by (by apply HQ; [apply agree_refl|]).
  apply wp_bind, wp_bind, wp_get_. destruct (m !! df_path f) as [d|] eqn:Ed; [|by apply Hno]. cbn [ok_or].
  apply wp_bind, wp_result. rewrite <- Hcol, <- Hdim. destruct (read_parquet _ _) as [[b e]|err] eqn:Er; [|by apply Hno].
  apply wp_bind, wp_result. destruct (extract_string_column b _) as [texts|err] eqn:Et; [|by apply Hno].
  apply extracted_texts in Et. subst texts.
  apply wp_survivors; [rewrite length_fmap; apply named_rows_length, num_rows_nonneg|].
  intros [[b' texts]|err] Hs; [|by apply Hno]. destruct (Hs b' texts eq_refl) as (Hl & Hfn & hides & Hh & Hz). clear Hs.
  apply wp_bind, wp_outcome. destruct (embed_in_batches _ texts _) as [[es|err]|] eqn:Ee; [|by apply Hno|by apply Hpan].
  apply (embed_in_batches_spec _ model) in Ee; [|done]. subst es.
  apply wp_bind, wp_result. destruct (write _ b' _) as [file|err] eqn:Ef; [|by apply Hno].
  apply wp_bind, wp_put_any; [intros m1 ->|intros err; by apply Hno].
  assert (Hput : agree_except (λ q, q = new_path idx) m (<[new_path idx := file]> m)) by (by apply agree_insert, agree_refl).
  assert (Hbad : ∀ o, (∀ g, o ≠ Ret (Ok g)) → Q o (<[new_path idx := file]> m)).
  { intros o Ho. apply HQ; [done|intros g Hg; by apply Ho in Hg]. }
  apply wp_bind, wp_outcome. destruct (read_header _) as [[header|]|]; [|by apply Hbad..].
  apply wp_bind, wp_outcome. destruct (ailk_offset _) as [[start|]|]; [|by apply Hbad..].
  apply wp_ret, HQ; [done|]. intros g [= <-]. split; [done|]. exists file. rewrite lookup_insert_eq. split; [done|].
  intros rows Hrows Hne. destruct (survivors_visible m old f d b e hides rows Ed Er Hh Hrows) as [Hle ->].
  destruct (survivors_rows b b' e texts hides _ Hle Hl Hz) as [-> Hrows'].
  rewrite (spliced_stored_rows new b' (model <$> (cell_text (mj_text_column job) <$> named_rows b')) file).
  - rewrite <- !list_fmap_compose, zip_fmap_self, Hrows', <- list_fmap_compose. done.
  - by apply write_spliced in Ef.
  - done.
  - done.
  - rewrite Hfn. by eapply Hname.
  - by eapply shown_rows_positive.
Qed.
End Reembed.

Section Backfilling.
Context (job : BackfillJob) (clock : RunClock).

Lemma wp_surviving_rows m f b texts (e : list vec32) Q :
  (∀ r, (∀ b' texts' e', r = Ok (b', texts', e') → Zlen texts = num_rows b → Zlen e = num_rows b →
     field_names b' = field_names b ∧ Zlen e' = num_rows b' ∧
     ∃ hides, hiding m (df_deletion_vector f) = Some hides ∧
       zip (named_rows b') e' = keep_rows hides (zip (named_rows b) e)) → Q (Ret r) m) →
  wp m (surviving_rows f b texts e) Q.
Proof.
  intros HQ. unfold surviving_rows. destruct (df_deletion_vector f) as [dv|].
  - apply wp_bind, wp_load_deletion_vector. intros r Hr. destruct (vector_in m dv) as [bm|] eqn:Ev.
    2:{ destruct Hr as [err ->]. by apply HQ. }
    subst r. apply wp_bind, wp_result. destruct (filter_deleted_rows _ _ _) as [[b' combined]|err] eqn:Ef; [|by apply HQ].
    apply wp_ret, HQ. intros ? ? ? [= <- <- <-] Ht He.
    destruct (filter_deleted_pairs _ _ _ _ _ Ef) as (Hl' & Hz & Hn); [rewrite length_zip; lia|].
    split; [done|]. split; [by rewrite length_fmap|]. exists (dv_hides (Some bm)). unfold hiding. rewrite Ev. split; [done|].
    apply (f_equal (fmap (λ x, (x.1, x.2.2)))) in Hz. rewrite <- keep_rows_fmap in Hz.
    assert (Hsnd : ∀ (rs : list (list (string * option string))) (ts : list (string * vec32)),
      (λ x : list (string * option string) * (string * vec32), (x.1, x.2.2)) <$> zip rs ts = zip rs ts.*2).
    { clear. induction rs as [|r rs IH]; intros [|t ts]; try done. cbn. by rewrite IH. }
    rewrite !Hsnd, snd_zip in Hz by lia. exact Hz.
  - apply wp_ret, HQ. intros ? ? ? [= <- <- <-] Ht He. split; [done|]. split; [done|].
    exists (λ _, false). by rewrite keep_rows_none.
Qed.

(** The object has the new column, and the rows that the deletion vector of [f] leaves. *)
Definition shows_backfilled m (p new : VectorStoragePolicy) (f : DataFileEntry) (d : bytes) : Prop :=
  has_column_footer (mk_reader d (column_name p)) (column_name new) = true ∧
  ∀ rows, left_by_dv m p (file_key f) = Some rows → rows ≠ [] → raw_rows p d = Some rows.

Definition has_column m (p new : VectorStoragePolicy) (f : DataFileEntry) : Prop :=
  ∃ d, m !! df_path f = Some d ∧ has_column_footer (mk_reader d (column_name p)) (column_name new) = true.

(** A file written with two columns has a footer for the second. *)
Lemma second_column_footer w b c1 c2 f x :
  write_multi w b [c1; c2] = Ok f → column_name (col_policy c1) ≠ column_name (col_policy c2) →
  has_column_footer (mk_reader f x) (column_name (col_policy c2)) = true.
Proof.
  intros Hw Hne. apply write_multi_layout in Hw as (pls & Hpls & Hf & Hfit).
  apply Forall2_cons_inv_l in Hpls as (p1 & pls1 & _ & Hpls & ->). apply Forall2_cons_inv_l in Hpls as (p2 & pls2 & _ & Hpls & ->).
  apply Forall2_nil_inv_l in Hpls as ->. cbn [zip zip_with] in Hf, Hfit.
  unfold has_column_footer.
  erewrite (file_layout_kv (mk_reader f x)); [|exact Hf|exact Hfit|auto]. cbn [mbind result_bind].
  pose proof (file_kvs_column (col_policy c1) b (col_embeddings c1) [(c1, p1)] (c2, p2) [] (fts_section w b)) as Hk.
  cbn [app] in Hk. cbv zeta in Hk. cbn [fst] in Hk. rewrite Hk; [done|].
  change (NoDup [column_name (col_policy c1); column_name (col_policy c2)]). repeat constructor; set_solver.
Qed.

#[local] Notation new_path idx := (backfill_path (rc_millis clock idx) idx).

Lemma wp_backfill_file m p new idx f Q :
  raw_policy p → column_name p ≠ column_name new → rewritable p m f →
  (∀ o m', agree_except (λ q, q = new_path idx) m m' →
    (∀ g, o = Ret (Ok (Some g)) → stands_at m' (new_path idx) (shows_backfilled m p new f) g) →
    (o = Ret (Ok None) → m' = m ∧ has_column m p new f) → Q o m') →
  wp m (backfill_file job clock p new idx f) Q.
Proof.
  intros [Hraw Hprec] Hne Hre HQ.
  assert (Hno : ∀ e, Q (Ret (Err e)) m) by (intros e; by apply HQ; [apply agree_refl|..]).
  assert (Hpan : Q Panic m) by (by apply HQ; [apply agree_refl|..]).
  apply wp_bind, wp_get_. destruct (m !! df_path f) as [d|] eqn:Ed; [|by apply Hno]. cbn [ok_or].
  destruct (has_column_footer _ _) eqn:Efoot.
  { apply wp_ret, HQ; [apply agree_refl|done|]. intros _. split; [done|]. by exists d. }
  apply wp_bind, wp_result. unfold read_batch_texts_and_embeddings.
  destruct (read_parquet _ _) as [[b e]|err] eqn:Er; [|by apply Hno]. cbn [mbind result_bind].
  destruct (extract_string_column b _) as [texts|err] eqn:Et; [|by apply Hno]. cbn [mbind result_bind].
  apply extracted_texts in Et. destruct (Hre d b e Ed Er) as (Hcol & _ & Hst).
  apply wp_bind, wp_surviving_rows. intros [[[b' texts'] e']|err] Hs; [|by apply Hno].
  apply wp_bind, wp_outcome. destruct (embed_in_batches _ texts' _) as [[es|err]|] eqn:Ee; [|by apply Hno|by apply Hpan].
  apply wp_bind, wp_bind, wp_result. destruct (write_multi _ b' _) as [file|err] eqn:Ef; [|by apply Hno].
  apply wp_bind, wp_put_any; [intros m1 ->|intros err; by apply Hno].
  assert (Hput : agree_except (λ q, q = new_path idx) m (<[new_path idx := file]> m)) by (by apply agree_insert, agree_refl).
  assert (Hbad : ∀ o, (∀ g, o ≠ Ret (Ok g)) → Q o (<[new_path idx := file]> m)).
  { intros o Ho. apply HQ; [done|intros g Hg; by apply Ho in Hg|intros Hg; by apply Ho in Hg]. }
  apply wp_bind, wp_outcome. destruct (ailk_offset _) as [[start|]|]; [|by apply Hbad..].
  apply wp_bind, wp_outcome. destruct (read_header _) as [[header|]|]; [|by apply Hbad..].
  apply wp_bind, wp_outcome. destruct (ailk_offset_for_column _ _) as [[start2|]|]; [|by apply Hbad..].
  apply wp_bind, wp_outcome. destruct (read_header_for_column _ _) as [[header2|]|]; [|by apply Hbad..].
  apply wp_ret, wp_ret, HQ; [done| |done]. intros g [= <-]. split; [done|]. exists file. rewrite lookup_insert_eq.
  split; [done|]. split; [by eapply (second_column_footer _ b' (mk_column p e') (mk_column new es))|].
  intros rows Hrows Hnil.
  assert (Hle : Zlen e = num_rows b).
  { revert Hrows. rewrite visible_hiding. unfold file_key, raw_rows. cbn [fst snd]. rewrite Ed. cbn. rewrite Er. by case_decide. }
  destruct (Hs b' texts' e' eq_refl) as (Hfn & Hle' & hides & Hh & Hz); [|done|].
  { rewrite Et, length_fmap. apply named_rows_length, num_rows_nonneg. }
  destruct (survivors_visible m p f d b e hides rows Ed Er Hh Hrows) as [_ ->].
  assert (Hst' : Forall (λ v, stored_vector p v = v) e').
  { apply Forall_forall. intros v Hv. rewrite <- (snd_zip (named_rows b') e'), Hz in Hv.
    2:{ pose proof (named_rows_length b' (num_rows_nonneg b')). lia. }
    rewrite <- keep_rows_fmap, snd_zip in Hv. 2:{ pose proof (named_rows_length b (num_rows_nonneg b)). lia. }
    rewrite Forall_forall in Hst. apply Hst. unfold keep_rows in Hv.
    apply list_elem_of_fmap in Hv as ([i w] & -> & Hw). apply list_elem_of_filter in Hw as [_ Hw]. by apply elem_of_zip_r in Hw. }
  rewrite <- Hz in *. apply write_multi_spliced in Ef. cbn [col_policy col_embeddings] in Ef.
  rewrite (spliced_rows p b' e' file); [done..| | |done].
  - by rewrite Hfn.
  - eapply (shown_rows_positive b' (zip (named_rows b') e')); [|done].
    rewrite fst_zip; [done|]. pose proof (named_rows_length b' (num_rows_nonneg b')). lia.
Qed.

End Backfilling.

(* ------------------------------------------------------------------ *)
(** ** A commit per file                                               *)
(* ------------------------------------------------------------------ *)

Section Loop.
Context (rewrite : nat → DataFileEntry → IO S (option DataFileEntry)).
Context (snapshot : nat → option Z → list DataFileEntry → NewSnapshot) (now : nat → Z).

(** Every commit of the loop, as it runs from [s], is in range and has a fresh id. *)
Fixpoint commits_fit (idx : nat) (todo current : list DataFileEntry) (parent : option Z) (s : S) : Prop :=
  match todo with
  | [] => True
  | f :: todo =>
      match rewrite idx f s with
      | (s1, Ret (Ok (Some g))) =>
          let current := <[idx := g]> current in
          let snap := snapshot idx parent current in
          (∀ v meta, table (view s1) root v meta → commit_input (view s1) root warehouse meta snap ∧ fits 32 (v + 1)) ∧
          match cp_commit_snapshot snap (now idx) s1 with
          | (s2, Ret (Ok _)) => commits_fit (Datatypes.S idx) todo current (Some (ns_snapshot_id snap)) s2
          | _ => True
          end
      | (s1, Ret (Ok None)) => commits_fit (Datatypes.S idx) todo current parent s1
      | _ => True
      end
  end.

Context (m0 : gmap string bytes) (fs : list DataFileEntry) (ds : list EqualityDeleteFile).
Context (path : nat → string) (good : DataFileEntry → bytes → Prop) (skipped : DataFileEntry → Prop).
Context (Hinj : ∀ i j, path i = path j → i = j).
Context (Hout : ∀ i, path_fixed warehouse (path i) ∧ ∀ o, path i ≠ obj_path root o).
Context (Hplaces : Forall (λ f, path_fixed warehouse (df_path f) ∧
  ∀ q, object_of f q → (∀ i, q ≠ path i) ∧ ∀ o, q ≠ obj_path root o) fs).
Context (Hsnap : ∀ idx parent gs, let sn := snapshot idx parent gs in
  ns_files sn = gs ∧ ns_equality_delete_files sn = [] ∧ inherits (ns_operation sn) = false ∧ ns_iceberg_schema sn = None).

(** Where the loop writes. *)
Definition touched (q : string) : Prop := (∃ i, q = path i) ∨ ∃ o, q = obj_path root o.

Context (Hrewrite : ∀ m idx f Q, fs !! idx = Some f → agree_except touched m0 m →
  (∀ o m', agree_except (λ q, q = path idx) m m' →
    (∀ g, o = Ret (Ok (Some g)) → stands_at m' (path idx) (good f) g) →
    (o = Ret (Ok None) → m' = m ∧ skipped f) → Q o m') → wp m (rewrite idx f) Q).

(** The entry at [i] when the first [k] files have been handled. *)
Definition entry_now m (k i : nat) (f g : DataFileEntry) : Prop :=
  if decide (i < k)%nat then stands_at m (path i) (good f) g ∨ (file_key g = file_key f ∧ skipped f)
  else file_key g = file_key f.
Definition staged m (k : nat) (gs : list DataFileEntry) : Prop :=
  length gs = length fs ∧ ∀ i f g, fs !! i = Some f → gs !! i = Some g → entry_now m k i f g.

Lemma staged_keys m k gs gs' : file_key <$> gs' = file_key <$> gs → staged m k gs → staged m k gs'.
Proof.
  intros Ek [Hl Hs]. split; [apply (f_equal length) in Ek; rewrite !length_fmap in Ek; lia|]. intros i f g' Hf Hg'.
  apply (f_equal (.!! i)) in Ek. rewrite !list_lookup_fmap, Hg' in Ek.
  destruct (gs !! i) as [g|] eqn:Eg; [|done].
  assert (E : file_key g' = file_key g) by (cbn in Ek; congruence). specialize (Hs i f g Hf Eg).
  unfold entry_now, stands_at in *. by rewrite E.
Qed.

Lemma staged_agree (X : string → Prop) m m' k gs :
  agree_except X m m' → (∀ i, (i < k)%nat → ¬ X (path i)) → staged m k gs → staged m' k gs.
Proof.
  intros Hag HX [Hl Hs]. split; [done|]. intros i f g Hf Hg. specialize (Hs i f g Hf Hg). unfold entry_now in *.
  case_decide as Hi; [|done]. destruct Hs as [[Ek (d & Hd & Hgood)]|Hs]; [left|by right]. split; [done|]. exists d.
  split; [|done]. by rewrite Hag by auto.
Qed.

(** The next file is replaced, or skipped. *)
Lemma staged_insert m idx f g gs :
  fs !! idx = Some f → staged m idx gs → stands_at m (path idx) (good f) g → staged m (Datatypes.S idx) (<[idx := g]> gs).
Proof.
  intros Hf [Hl Hk] Hg. assert (Hlt : (idx < length fs)%nat) by (by eapply lookup_lt_Some).
  split; [by rewrite length_insert|]. intros i fi gi Hfi Hgi. unfold entry_now.
  destruct (decide (i = idx)) as [->|Hne].
  - rewrite list_lookup_insert_eq in Hgi by lia. injection Hgi as <-. rewrite decide_True by lia. left.
    rewrite Hf in Hfi. by injection Hfi as <-.
  - rewrite list_lookup_insert_ne in Hgi by done. specialize (Hk i fi gi Hfi Hgi). unfold entry_now in Hk.
    destruct (decide (i < idx)%nat); [rewrite decide_True by lia|rewrite decide_False by lia]; done.
Qed.

Lemma staged_skip m idx f gs :
  fs !! idx = Some f → skipped f → staged m idx gs → staged m (Datatypes.S idx) gs.
Proof.
  intros Hf Hskip [Hl Hk]. split; [done|]. intros i fi gi Hfi Hgi. specialize (Hk i fi gi Hfi Hgi). unfold entry_now in *.
  destruct (decide (i < idx)%nat); [by rewrite decide_True by lia|]. case_decide; [|done]. right.
  assert (i = idx) as -> by lia. rewrite Hf in Hfi. by injection Hfi as <-.
Qed.

Lemma staged_fixed m k gs : staged m k gs → Forall (λ g, path_fixed warehouse (df_path g)) gs.
Proof.
  intros [Hl Hs]. apply Forall_lookup. intros i g Hg. destruct (lookup_lt_is_Some_2 fs i) as [f Hf].
  { rewrite <- Hl. by eapply lookup_lt_Some. }
  specialize (Hs i f g Hf Hg). rewrite Forall_lookup in Hplaces. destruct (Hplaces i f Hf) as [Hfix _].
  assert (E : df_path g = path i ∨ df_path g = df_path f).
  { unfold entry_now, stands_at, file_key in Hs. case_decide; [destruct Hs as [[E _]|[E _]]|]; injection Hs || injection E; auto. }
  destruct E as [->| ->]; [apply Hout|done].
Qed.

(** The table when the first [k] files have been handled. *)
Definition table_staged m (k : nat) : Prop :=
  ∃ v meta ls ds', table m root v meta ∧ files_in m meta None = Ok ls ∧ staged m k ls ∧
    deletes_in m meta None = Ok ds' ∧ (ds' = ds ∨ ds' = []).

Definition loop_post (o : outcome AilakeError unit) m : Prop :=
  agree_except touched m0 m ∧ ∃ k, (k ≤ length fs)%nat ∧ table_staged m k ∧ (o = Ret (Ok tt) → k = length fs).

(** Objects of the catalog only. *)
#[local] Notation in_catalog := (λ q, ∃ ob, q = obj_path root ob).

Lemma table_staged_agree (X : string → Prop) m m' k :
  agree_except X m m' → (∀ ob, ¬ X (obj_path root ob)) → (∀ i, (i < k)%nat → ¬ X (path i)) →
  table_staged m k → table_staged m' k.
Proof.
  intros Hag Hcat Hnew (v & meta & ls & ds' & Ht & Hls & Hst & Hds & Hor).
  destruct (table_frame root v meta m m') as [Ht' Hl']; [intros ob; by apply Hag|exact Ht|].
  destruct (Hl' None) as [Hf' Hd']. exists v, meta, ls, ds'. rewrite Hf', Hd'. split_and!; try done.
  by eapply staged_agree.
Qed.

Lemma wp_stage_commit m idx k k0 parent gs :
  staged m k gs → table_staged m k0 →
  (∀ v meta, table m root v meta → commit_input m root warehouse meta (snapshot idx parent gs) ∧ fits 32 (v + 1)) →
  wp m (cp_commit_snapshot (snapshot idx parent gs) (now idx)) (λ o m', agree_except in_catalog m m' ∧
    (table_staged m' k ∨ (table_staged m' k0 ∧ ∃ e, o = Ret (Err e))) ∧ o ≠ Panic).
Proof.
  intros Hgs (v & meta & ls & ds' & Ht & Hls & Hst & Hds & Hor) Hin. destruct (Hin v meta Ht) as [Hcin Hver].
  destruct (Hsnap idx parent gs) as (Hfiles & Hdels & Hop & Hsch). set (snap := snapshot idx parent gs) in *.
  assert (Hcat : ∀ (j i : nat), (i < j)%nat → ¬ in_catalog (path i)) by (intros j i _ [ob E]; by apply (proj2 (Hout i) ob)).
  apply (wp_commit_any m root warehouse v meta); [done|done| |done| |].
  - unfold schema_update_ok. by rewrite Hsch.
  - intros r m2 meta2 Hc. split; [apply Hc|]. split; [|done]. left.
    destruct (replaced_listing root warehouse _ _ _ _ _ _ Hop Hdels Hc) as (ls' & Hls' & Hk & _ & Hds').
    { rewrite Hfiles. by eapply staged_fixed. }
    rewrite Hfiles in Hk. exists (v + 1), meta2, ls', []. split; [apply Hc|]. split; [done|]. split; [|by auto].
    eapply (staged_keys m2); [exact Hk|]. eapply staged_agree; [apply Hc|apply Hcat|done].
  - intros e m2 [[Ht2 Hl2] Hag2]. split; [done|]. split; [|done]. right. split; [|eauto].
    destruct (Hl2 None) as [Hf2 Hd2]. exists v, meta, ls, ds'. rewrite Hf2, Hd2. split_and!; try done.
    eapply staged_agree; [exact Hag2|apply Hcat|done].
Qed.

(** From the [idx]th file on. *)
Lemma run_each idx todo gs parent s m :
  sees s m → drop idx fs = todo → (idx ≤ length fs)%nat → agree_except touched m0 m → table_staged m idx → staged m idx gs →
  commits_fit idx todo gs parent s →
  let '(s', o) := each_file rewrite snapshot now idx todo gs parent s in ∃ m', sees s' m' ∧ loop_post o m'.
Proof.
  revert idx gs parent s m. induction todo as [|f todo IH]; intros idx gs parent s m Hs Hdrop Hidx Hag Htab Hgs Hfit.
  { exists m. split; [done|]. split; [done|]. exists idx. split; [done|]. split; [done|]. intros _.
    apply (f_equal length) in Hdrop. rewrite length_drop in Hdrop. cbn in Hdrop. lia. }
  assert (Hf : fs !! idx = Some f) by (rewrite <- (Nat.add_0_r idx), <- lookup_drop, Hdrop; done).
  assert (Hrest : drop (Datatypes.S idx) fs = todo) by (rewrite <- (Nat.add_1_r idx), <- drop_drop, Hdrop; done).
  assert (Hlt : (idx < length fs)%nat) by (by eapply lookup_lt_Some).
  destruct (Hrewrite m idx f (λ o m', agree_except (λ q, q = path idx) m m' ∧
    (∀ g, o = Ret (Ok (Some g)) → stands_at m' (path idx) (good f) g) ∧ (o = Ret (Ok None) → m' = m ∧ skipped f)) Hf Hag
    ltac:(by auto) s Hs) as (s1 & o & m1 & E & Hs1 & Hag1 & Hsome & Hnone).
  assert (Hag1' : agree_except touched m0 m1).
  { eapply agree_trans; [exact Hag|]. eapply agree_weaken; [|exact Hag1]. intros q ->. left. by exists idx. }
  assert (Htab1 : table_staged m1 idx).
  { eapply table_staged_agree; [exact Hag1| | |exact Htab].
    - intros ob Eq. by apply (proj2 (Hout idx) ob).
    - intros i Hi Eq. apply Hinj in Eq. lia. }
  cbn [each_file commits_fit] in Hfit |- *. unfold mbind at 1, io_bind at 1. rewrite E in Hfit |- *.
  assert (Hstop : ∀ s' m' k o', sees s' m' → agree_except touched m0 m' → table_staged m' k → (k ≤ length fs)%nat →
    o' ≠ Ret (Ok tt) → ∃ m'', sees s' m'' ∧ loop_post o' m'').
  { intros s' m' k o' Hs' Hag' Ht' Hk Ho'. exists m'. split; [done|]. split; [done|]. exists k. by split_and!. }
  destruct o as [[[g|]|err]|]; [| |by apply (Hstop s1 m1 idx)..].
  2:{ destruct (Hnone eq_refl) as [-> Hskip]. apply (IH (Datatypes.S idx) gs parent s1 m Hs1 Hrest Hlt Hag); [| |exact Hfit].
      - destruct Htab as (v & meta & ls & ds' & Ht & Hls & Hst & Hds & Hor). exists v, meta, ls, ds'. split_and!; try done.
        by apply (staged_skip m idx f).
      - by apply (staged_skip m idx f). }
  clear Hnone. specialize (Hsome g eq_refl). destruct Hfit as [Hin Hfit]. set (gs' := <[idx := g]> gs) in *.
  assert (Hgs' : staged m1 (Datatypes.S idx) gs').
  { apply (staged_insert m1 idx f); [done| |done]. eapply staged_agree; [exact Hag1| |done]. intros i Hi Eq. apply Hinj in Eq. lia. }
  rewrite (proj2 Hs1) in Hin. pose proof (wp_stage_commit m1 idx (Datatypes.S idx) idx parent gs' Hgs' Htab1 Hin s1 Hs1) as (s2 & o2 & m2 & E2 & Hs2 & Hag2 & Ho2 & Hp2).
  unfold mbind, io_bind. rewrite E2 in Hfit |- *.
  assert (Hag2' : agree_except touched m0 m2).
  { eapply agree_trans; [exact Hag1'|]. eapply agree_weaken; [|exact Hag2]. by right. }
  destruct o2 as [[id|err]|]; [|destruct Ho2 as [Ht2|[Ht2 _]]; (eapply (Hstop s2 m2); [done|done|exact Ht2|lia|done])|done].
  destruct Ho2 as [Htab2|[_ [e [=]]]].
  apply (IH (Datatypes.S idx) gs' _ s2 m2 Hs2 Hrest Hlt Hag2' Htab2); [|exact Hfit].
  eapply staged_agree; [exact Hag2| |done]. intros i _ [ob Eo]. by apply (proj2 (Hout i) ob).
Qed.

End Loop.

(** Listed files and what a job needs of them: a published table whose files are in
    their own places, apart from the new paths. *)
Record rewrite_ready (s : S) (v : Z) (meta : IcebergMetadata) (fs : list DataFileEntry) (ds : list EqualityDeleteFile)
    (path : nat → string) : Prop := {
  rr_inv : store_inv s;
  rr_table : table (view s) root v meta;
  rr_files : (cp_list_files None s).2 = Ret (Ok fs);
  rr_deletes : (cp_list_equality_deletes None s).2 = Ret (Ok ds);
  rr_places : Forall (λ f, path_fixed warehouse (df_path f) ∧
    ∀ q, object_of f q → (∀ i, q ≠ path i) ∧ ∀ o, q ≠ obj_path root o) fs;
  rr_out i : path_fixed warehouse (path i) ∧ ∀ o, path i ≠ obj_path root o;
}.

(** The store when a job has listed the table. *)
Definition listed (s : S) : S :=
  ((table_meta ← cp_load_table; cp_list_files (tm_current_snapshot_id table_meta)) s).1.

Lemma run_listed {A} s v meta fs ds path (k : TableMetadata → list DataFileEntry → IO S A) :
  rewrite_ready s v meta fs ds path →
  (table_meta ← cp_load_table; files ← cp_list_files (tm_current_snapshot_id table_meta); k table_meta files) s =
    k (to_table_metadata meta) fs (listed s) ∧ sees (listed s) (view s) ∧
  files_in (view s) meta None = Ok fs ∧ deletes_in (view s) meta None = Ok ds.
Proof.
  intros [Hi Ht Hfs Hds _ _].
  change (cp_list_files None s).2 with (list_files root None s).2 in Hfs.
  rewrite (list_files_table s root v meta) in Hfs by done. injection Hfs as Hfs.
  change (cp_list_equality_deletes None s).2 with (list_equality_deletes root None s).2 in Hds.
  rewrite (list_deletes_table s root v meta) in Hds by done. injection Hds as Hds.
  assert (Hcur : files_in (view s) meta (im_current_snapshot_id meta) = Ok fs).
  { rewrite <- Hfs. unfold files_in, manifests_in. by destruct (im_current_snapshot_id meta). }
  assert (Hload : wp (view s) cp_load_table (λ o m', o = Ret (Ok (to_table_metadata meta)) ∧ m' = view s)).
  { eapply wp_load_table; [exact Ht|done]. }
  destruct (Hload s (conj Hi eq_refl)) as (s1 & o1 & m1 & E1 & Hs1 & -> & ->).
  assert (Hlist : wp (view s) (cp_list_files (im_current_snapshot_id meta)) (λ o m', o = Ret (Ok fs) ∧ m' = view s)).
  { eapply wp_cp_list_files; [exact Ht|]. by rewrite Hcur. }
  destruct (Hlist s1 Hs1) as (s2 & o2 & m2 & E2 & Hs2 & -> & ->).
  unfold listed, mbind, io_bind. rewrite E1. change (tm_current_snapshot_id (to_table_metadata meta)) with (im_current_snapshot_id meta).
  rewrite E2. by split_and!.
Qed.

(* ------------------------------------------------------------------ *)
(** ** From entries to rows                                            *)
(* ------------------------------------------------------------------ *)

Lemma visible_agrees m m' p f : key_agrees m m' f → left_by_dv m' p (file_key f) = left_by_dv m p (file_key f).
Proof.
  intros [Hp Hdv]. rewrite !visible_hiding. unfold file_key. cbn [fst snd]. rewrite Hp.
  destruct (df_deletion_vector f) as [dv|]; [|done]. unfold hiding, vector_in. by rewrite (Hdv dv).
Qed.

(** Listings whose files show, one by one, a function of the rows. *)
Lemma contents_map (φ : Row → Row) m m' p p' fs gs rows :
  Forall2 (λ f g, ∀ r, left_by_dv m p (file_key f) = Some r → left_by_dv m' p' (file_key g) = Some (φ <$> r)) fs gs →
  rows_left_by_dvs m p fs = Some rows → rows_left_by_dvs m' p' gs = Some (φ <$> rows).
Proof.
  intros Hall. revert rows. induction Hall as [|f g fs gs Hfg _ IH]; intros rows Hr; [by injection Hr as <-|].
  apply contents_cons in Hr as (r & rs & Hf & Hrs & ->). apply contents_cons. exists (φ <$> r), (φ <$> rs).
  by rewrite fmap_app, (IH rs Hrs), (Hfg r Hf).
Qed.

Lemma contents_id m m' p fs gs rows :
  Forall2 (λ f g, ∀ r, left_by_dv m p (file_key f) = Some r → left_by_dv m' p (file_key g) = Some r) fs gs →
  rows_left_by_dvs m p fs = Some rows → rows_left_by_dvs m' p gs = Some rows.
Proof.
  intros Hall Hr. rewrite <- (list_fmap_id rows). eapply contents_map; [|exact Hr].
  eapply Forall2_impl; [exact Hall|]. intros f g Hfg r Hf. rewrite list_fmap_id. by apply Hfg.
Qed.

Lemma contents_split m p fs k rows :
  rows_left_by_dvs m p fs = Some rows →
  ∃ before after, rows_left_by_dvs m p (take k fs) = Some before ∧ rows_left_by_dvs m p (drop k fs) = Some after ∧ rows = before ++ after.
Proof.
  revert k rows. induction fs as [|f fs IH]; intros k rows Hr.
  - injection Hr as <-. rewrite take_nil, drop_nil. by exists [], [].
  - destruct k as [|k]; [by exists [], rows|]. apply contents_cons in Hr as (r & rs & Hf & Hrs & ->).
    destruct (IH k rs Hrs) as (before & after & Hb & Ha & ->). exists (r ++ before), after. rewrite app_assoc.
    split_and!; [|done|done]. cbn [take]. apply contents_cons. eauto.
Qed.

(** Every file shows some rows. *)
Definition all_shown m p (fs : list DataFileEntry) : Prop :=
  Forall (λ f, ∃ r, left_by_dv m p (file_key f) = Some r ∧ r ≠ []) fs.

Section Replaced.
Context (m0 : gmap string bytes) (fs : list DataFileEntry) (path : nat → string).
Context (Hplaces : Forall (λ f, path_fixed warehouse (df_path f) ∧
  ∀ q, object_of f q → (∀ i, q ≠ path i) ∧ ∀ o, q ≠ obj_path root o) fs).

Lemma files_agree m f : f ∈ fs → agree_except (touched path) m0 m → key_agrees m0 m f.
Proof.
  intros Hf Hag. rewrite Forall_forall in Hplaces. destruct (Hplaces f Hf) as [_ Hq].
  assert (Hsame : ∀ q, object_of f q → m !! q = m0 !! q).
  { intros q Ho. apply Hag. destruct (Hq q Ho) as [Hnew Hcat]. intros [[i E]|[o E]]; [by apply (Hnew i)|by apply (Hcat o)]. }
  split; [apply Hsame; by left|]. intros dv Hdv. apply Hsame. right. eauto.
Qed.

(** The rows after the first [k] files were replaced. *)
Lemma replaced_contents φ (good : DataFileEntry → bytes → Prop) (skipped : DataFileEntry → Prop) m old new k ls rows :
  agree_except (touched path) m0 m → staged fs path good skipped m k ls → (k ≤ length fs)%nat → all_shown m0 old fs →
  (∀ f d, good f d → ∀ r, left_by_dv m0 old (file_key f) = Some r → r ≠ [] → raw_rows new d = Some (φ <$> r)) →
  (∀ f, skipped f → ∀ r, left_by_dv m0 old (file_key f) = Some r → left_by_dv m0 new (file_key f) = Some (φ <$> r)) →
  rows_left_by_dvs m0 old fs = Some rows →
  ∃ before after, rows_left_by_dvs m0 old (take k fs) = Some before ∧ rows_left_by_dvs m0 old (drop k fs) = Some after ∧
    rows_left_by_dvs m new (take k ls) = Some (φ <$> before) ∧ rows_left_by_dvs m old (drop k ls) = Some after.
Proof.
  intros Hag [Hl Hst] Hk Hsh Hgood Hskip Hr. destruct (contents_split m0 old fs k rows Hr) as (before & after & Hb & Ha & _).
  exists before, after. split; [done|]. split; [done|]. unfold all_shown in Hsh. rewrite Forall_lookup in Hsh. split.
  - eapply contents_map; [|exact Hb]. apply Forall2_same_length_lookup. split; [rewrite !length_take; lia|].
    intros i f g Hf Hg. apply lookup_take_Some in Hf as [Hf Hi], Hg as [Hg _]. intros r Hv.
    specialize (Hst i f g Hf Hg). unfold entry_now in Hst. rewrite decide_True in Hst by done.
    destruct Hst as [[Ek (d & Hd & Hgd)]|[Ek Hsk]].
    + destruct (Hsh i f Hf) as (r' & Hv' & Hne). rewrite Hv in Hv'. injection Hv' as <-.
      rewrite Ek, visible_hiding. cbn [fst snd]. rewrite Hd. cbn. rewrite (Hgood f d Hgd r Hv Hne). cbn. by rewrite keep_rows_none.
    + rewrite Ek, (visible_agrees m0); [by apply Hskip|]. apply files_agree; [by eapply list_elem_of_lookup_2|done].
  - eapply contents_id; [|exact Ha]. apply Forall2_same_length_lookup. split; [rewrite !length_drop; lia|].
    intros i f g Hf Hg r Hv. rewrite lookup_drop in Hf, Hg. specialize (Hst _ f g Hf Hg). unfold entry_now in Hst.
    rewrite decide_False in Hst by lia. rewrite Hst, (visible_agrees m0); [done|].
    apply files_agree; [by eapply list_elem_of_lookup_2|done].
Qed.

End Replaced.

(* ------------------------------------------------------------------ *)
(** ** Migration                                                       *)
(* ------------------------------------------------------------------ *)

Section Migrate.
Context (job : MigrationJob) (clock : RunClock) (model : string → vec32).
Context (Hmodel : embeds (mj_embed_fn job) model).

#[local] Notation new_path := (λ idx, migrated_path (rc_millis clock idx) idx).

Lemma migrated_path_inj i j : (∀ i, 0 ≤ rc_millis clock i) → new_path i = new_path j → i = j.
Proof. intros Hclock E. apply stamped_path_inj in E; [lia|apply Hclock..|lia|lia]. Qed.

(** The loop's rewriting of a file. *)
Definition migrate_step (new : VectorStoragePolicy) (idx : nat) (f : DataFileEntry) : IO S (option DataFileEntry) :=
  g ← migrate_file job clock new idx f; mret (Some g).
Definition migrate_snapshot (new : VectorStoragePolicy) (idx : nat) (parent : option Z) (gs : list DataFileEntry) : NewSnapshot :=
  migration_snapshot new (rc_snap_id clock idx) parent gs.

(** The commits the strategy makes, from the listing on. *)
Definition migration_commits_fit (new : VectorStoragePolicy) (meta : IcebergMetadata) (fs : list DataFileEntry) (s : S) : Prop :=
  match mj_strategy job with
  | AtomicReplace =>
      commits_fit (migrate_step new) (migrate_snapshot new) (rc_now clock) 0 fs fs (im_current_snapshot_id meta) s
  | DualWriteThenCutover =>
      ∀ s1 es, write_all job clock new 0 fs s = (s1, Ret (Ok es)) → ∀ v meta', table (view s1) root v meta' →
        commit_input (view s1) root warehouse meta' (migrate_snapshot new 0 (im_current_snapshot_id meta) es) ∧ fits 32 (v + 1)
  end.

Record migration_ready (s : S) (v : Z) (meta : IcebergMetadata) (fs : list DataFileEntry) (ds : list EqualityDeleteFile)
    (old new : VectorStoragePolicy) (rows : list Row) : Prop := {
  mg_table : rewrite_ready s v meta fs ds new_path;
  mg_clock i : 0 ≤ rc_millis clock i;
  mg_policy : new_policy_from_metadata (tm_properties (to_table_metadata meta)) (mj_new_column job) (mj_new_model job) = Ok new;
  mg_precision : policy_precision new ≠ I8;
  mg_column : column_name old = mj_old_column job;
  mg_dim : policy_dim old = policy_dim new;
  mg_name : Forall (λ f, ∀ d b e, view s !! df_path f = Some d →
    read_parquet (mk_reader d (column_name old)) (policy_dim old) = Ok (b, e) → column_name new ∉ field_names b) fs;
  mg_rows : rows_left_by_dvs (view s) old fs = Some rows;
  mg_shown : all_shown (view s) old fs;
  mg_commits : migration_commits_fit new meta fs (listed s);
}.

Section Run.
Context (s0 : S) (v : Z) (meta : IcebergMetadata) (fs : list DataFileEntry) (ds : list EqualityDeleteFile).
Context (old new : VectorStoragePolicy) (rows : list Row) (Hready : migration_ready s0 v meta fs ds old new rows).
#[local] Notation good := (shows_reembedded job model (view s0) old new).

Lemma wp_migrate m idx f Q :
  f ∈ fs → agree_except (touched new_path) (view s0) m →
  (∀ o m', agree_except (λ q, q = new_path idx) m m' →
    (∀ g, o = Ret (Ok g) → stands_at m' (new_path idx) (good f) g) → Q o m') →
  wp m (migrate_file job clock new idx f) Q.
Proof.
  destruct Hready as [[_ _ _ _ Hplaces _] _ Hpol Hprec Hcol Hdim Hname _ _ _]. intros Hf Hag HQ.
  pose proof (files_agree (view s0) fs new_path Hplaces m f Hf Hag) as Hka. pose proof (visible_agrees _ _ old f Hka) as Hv.
  assert (Hraw : raw_policy new).
  { split; [|done]. unfold new_policy_from_metadata in Hpol. destruct (dim_property _); [|done]. by injection Hpol as <-. }
  apply (wp_migrate_file job clock model Hmodel m old new idx f); [done..| |].
  - rewrite Forall_forall in Hname. intros d b e. rewrite (proj1 Hka). by apply Hname.
  - intros o m' Hag' Ho. apply HQ; [done|]. intros g Eg. destruct (Ho g Eg) as [Ek (d & Hd & Hg)]. split; [done|].
    exists d. split; [done|]. intros r. rewrite <- Hv. by apply Hg.
Qed.

(** The first phase of the cutover writes new files only. *)
Lemma wp_write_all m idx todo Q :
  todo ⊆ fs → agree_except (touched new_path) (view s0) m →
  (∀ o m', agree_except (λ q, ∃ i, (idx ≤ i)%nat ∧ q = new_path i) m m' →
    (∀ es, o = Ret (Ok es) → length es = length todo ∧
      ∀ i f g, todo !! i = Some f → es !! i = Some g → stands_at m' (new_path (idx + i)%nat) (good f) g) → Q o m') →
  wp m (write_all job clock new idx todo) Q.
Proof.
  revert m idx Q. induction todo as [|f todo IH]; intros m idx Q Hsub Hag HQ; cbn [write_all].
  { apply wp_ret, HQ; [apply agree_refl|]. intros es [= <-]. done. }
  apply wp_bind, wp_migrate; [set_solver|done|]. intros o m1 Hag1 Ho.
  assert (Hag1' : agree_except (λ q, ∃ i, (idx ≤ i)%nat ∧ q = new_path i) m m1).
  { eapply agree_weaken; [|exact Hag1]. intros q ->. exists idx. by split. }
  destruct o as [[g|err]|]; [|by apply HQ..]. specialize (Ho g eq_refl).
  apply wp_bind, (IH m1 (Datatypes.S idx)); [set_solver| |].
  { eapply agree_trans; [exact Hag|]. eapply agree_weaken; [|exact Hag1]. intros q ->. left. by exists idx. }
  intros o m2 Hag2 Ho2.
  assert (Hag2' : agree_except (λ q, ∃ i, (idx ≤ i)%nat ∧ q = new_path i) m m2).
  { eapply agree_trans; [exact Hag1'|]. eapply agree_weaken; [|exact Hag2]. intros q (i & Hi & ->). exists i. split; [lia|done]. }
  destruct o as [[es|err]|]; [|by apply HQ..]. apply wp_ret, HQ; [done|]. intros ? [= <-].
  destruct (Ho2 es eq_refl) as [Hl Hes]. split; [cbn; lia|]. intros [|i] f' g' Hf Hg.
  - injection Hf as <-. injection Hg as <-. rewrite Nat.add_0_r. destruct Ho as [Ek (d & Hd & Hgood)]. split; [done|].
    exists d. split; [|done]. rewrite Hag2; [done|]. intros (i & Hi & E). apply migrated_path_inj in E; [lia|apply Hready].
  - rewrite <- Nat.add_succ_comm. by apply (Hes i).
Qed.

Lemma start_staged : table_staged fs ds new_path good (λ _, False) (view s0) 0 ∧ staged fs new_path good (λ _, False) (view s0) 0 fs.
Proof.
  destruct Hready as [Hrr _ _ _ _ _ _ _ _ _]. destruct (run_listed s0 v meta fs ds _ (λ _ _, mret tt) Hrr) as (_ & _ & Hfs & Hds).
  assert (Hst : staged fs new_path good (λ _, False) (view s0) 0 fs).
  { split; [done|]. intros i f g Hf Hg. rewrite Hf in Hg. injection Hg as <-. unfold entry_now. by rewrite decide_False by lia. }
  split; [|done]. exists v, meta, fs, ds. split_and!; [apply Hrr|done..|by left].
Qed.

(** The commits one by one. *)
Lemma atomic_run : mj_strategy job = AtomicReplace →
  let '(s', o) := migration_run job clock s0 in
  ∃ m', sees s' m' ∧ loop_post (view s0) fs ds new_path good (λ _, False) o m'.
Proof.
  intros Hs. pose proof Hready as [Hrr Hclock Hpol Hprec _ _ _ _ _ Hfit]. unfold migration_commits_fit in Hfit. rewrite Hs in Hfit.
  unfold migration_run. rewrite Hs. unfold run_atomic_replace. rewrite (proj1 (run_listed s0 v meta fs ds _ _ Hrr)).
  cbv beta. rewrite Hpol. change (io_result (Ok new)) with (mret (M := IO S) new). destruct (run_listed s0 v meta fs ds _ (λ _ _, mret tt) Hrr) as (_ & Hsees & _).
  destruct start_staged as [Htab Hst].
  apply (run_each (migrate_step new) (migrate_snapshot new) (rc_now clock) (view s0) fs ds new_path good (λ _, False)) with (m := view s0) (todo := fs);
    try done.
  - intros i j. by apply migrated_path_inj.
  - apply Hrr.
  - apply Hrr.
  - intros m idx f Q Hf Hag HQ. apply wp_bind, wp_migrate; [by eapply list_elem_of_lookup_2|done|].
    intros o m' Hag' Ho. destruct o as [[g|err]|]; [|by apply HQ..]. apply wp_ret, HQ; [done| |done]. intros ? [= <-]. by apply Ho.
  - lia.
Qed.

(** The single cutover. *)
Lemma cutover_run : mj_strategy job = DualWriteThenCutover →
  let '(s', o) := migration_run job clock s0 in
  ∃ m' k, sees s' m' ∧ agree_except (touched new_path) (view s0) m' ∧ (k = O ∨ k = length fs) ∧
    table_staged fs ds new_path good (λ _, False) m' k ∧ (o = Ret (Ok tt) → k = length fs).
Proof.
  intros Hs. pose proof Hready as [Hrr Hclock Hpol Hprec _ _ _ _ _ Hfit]. unfold migration_commits_fit in Hfit. rewrite Hs in Hfit.
  unfold migration_run. rewrite Hs. unfold run_dual_write. rewrite (proj1 (run_listed s0 v meta fs ds _ _ Hrr)).
  cbv beta. rewrite Hpol. change (io_result (Ok new)) with (mret (M := IO S) new). destruct (run_listed s0 v meta fs ds _ (λ _ _, mret tt) Hrr) as (_ & Hsees & _).
  destruct start_staged as [Htab Hst]. pose proof (wp_write_all (view s0) 0 fs) as Hw.
  destruct (Hw _ (λ x Hx, Hx) (agree_refl _ _) (λ o m' Ha Ho, conj Ha Ho) (listed s0) Hsees) as (s1 & o1 & m1 & E1 & Hs1 & Hag1 & Ho1).
  assert (Hag1' : agree_except (touched new_path) (view s0) m1).
  { eapply agree_weaken; [|exact Hag1]. intros q (i & _ & ->). left. by exists i. }
  assert (Htab1 : table_staged fs ds new_path good (λ _, False) m1 0).
  { eapply table_staged_agree; [exact Hag1| |lia|exact Htab]. intros ob (i & _ & E). by apply (proj2 (rr_out _ _ _ _ _ _ Hrr i) ob). }
  unfold mret, io_ret, mbind, io_bind. rewrite E1.
  destruct o1 as [[es|err]|]; [|by exists m1, O; split_and!; auto..]. destruct (Ho1 es eq_refl) as [Hl Hes].
  assert (Hst1 : staged fs new_path good (λ _, False) m1 (length fs) es).
  { split; [done|]. intros i f g Hf Hg. unfold entry_now. rewrite decide_True by (by eapply lookup_lt_Some). left. by apply (Hes i). }
  pose proof (Hfit s1 es E1) as Hin. rewrite (proj2 Hs1) in Hin.
  pose proof (wp_stage_commit (migrate_snapshot new) (rc_now clock) fs ds new_path good (λ _, False) (rr_out _ _ _ _ _ _ Hrr)
    (rr_places _ _ _ _ _ _ Hrr) ltac:(by intros) m1 0 (length fs) 0 (im_current_snapshot_id meta) es Hst1 Htab1 Hin s1 Hs1)
    as (s2 & o2 & m2 & E2 & Hs2 & Hag2 & Ho2 & Hp2).
  change (migration_snapshot new (rc_snap_id clock 0) (tm_current_snapshot_id (to_table_metadata meta)) es)
    with (migrate_snapshot new 0 (im_current_snapshot_id meta) es). rewrite E2.
  assert (Hag2' : agree_except (touched new_path) (view s0) m2).
  { eapply agree_trans; [exact Hag1'|]. eapply agree_weaken; [|exact Hag2]. by right. }
  destruct Ho2 as [Ht2|[Ht2 [e ->]]].
  - destruct o2 as [[id|e]|]; exists m2, (length fs); split_and!; auto.
  - exists m2, O. split_and!; auto. done.
Qed.

End Run.


End Migrate.

(* ------------------------------------------------------------------ *)
(** ** Backfill                                                        *)
(* ------------------------------------------------------------------ *)

Section BackfillRun.
Context (job : BackfillJob) (clock : RunClock).

#[local] Notation new_path := (λ idx, backfill_path (rc_millis clock idx) idx).
#[local] Notation new := (colspec_policy (bj_new_col job)).

Lemma backfill_path_inj i j : (∀ i, 0 ≤ rc_millis clock i) → new_path i = new_path j → i = j.
Proof. intros Hclock E. apply stamped_path_inj in E; [lia|apply Hclock..|lia|lia]. Qed.

Definition backfill_snapshot (idx : nat) (parent : option Z) (gs : list DataFileEntry) : NewSnapshot :=
  plain_snapshot (rc_snap_id clock idx) parent gs Overwrite [].

Record backfill_ready (s : S) (v : Z) (meta : IcebergMetadata) (fs : list DataFileEntry) (ds : list EqualityDeleteFile)
    (p : VectorStoragePolicy) (rows : list Row) : Prop := {
  bf_table : rewrite_ready s v meta fs ds new_path;
  bf_clock i : 0 ≤ rc_millis clock i;
  bf_policy : primary_policy_from_props (tm_properties (to_table_metadata meta)) = Ok p;
  bf_precision : policy_precision p ≠ I8;
  bf_column : column_name p ≠ vcs_column_name (bj_new_col job);
  bf_rewritable : Forall (rewritable p (view s)) fs;
  bf_rows : rows_left_by_dvs (view s) p fs = Some rows;
  bf_shown : all_shown (view s) p fs;
  bf_commits : commits_fit (backfill_file job clock p new) backfill_snapshot (rc_now clock) 0 fs fs
    (im_current_snapshot_id meta) (listed s);
}.

Lemma backfill_loop s v meta fs ds p rows :
  backfill_ready s v meta fs ds p rows →
  let '(s', o) := backfill_run job clock s in
  ∃ m', sees s' m' ∧ loop_post (view s) fs ds new_path (shows_backfilled (view s) p new) (has_column (view s) p new) o m'.
Proof.
  intros [Hrr Hclock Hpol Hprec Hcol Hre _ _ Hfit]. unfold backfill_run. rewrite (proj1 (run_listed s v meta fs ds _ _ Hrr)).
  cbv beta zeta. rewrite Hpol. change (io_result (Ok p)) with (mret (M := IO S) p).
  destruct (run_listed s v meta fs ds _ (λ _ _, mret tt) Hrr) as (_ & Hsees & Hfs & Hds).
  assert (Hst : staged fs new_path (shows_backfilled (view s) p new) (has_column (view s) p new) (view s) 0 fs).
  { split; [done|]. intros i f g Hf Hg. rewrite Hf in Hg. injection Hg as <-. unfold entry_now. by rewrite decide_False by lia. }
  assert (Hraw : raw_policy p).
  { split; [|done]. unfold primary_policy_from_props in Hpol. destruct (dim_property _); [|done]. by injection Hpol as <-. }
  apply (run_each (backfill_file job clock p new) backfill_snapshot (rc_now clock) (view s) fs ds new_path) with (m := view s) (todo := fs);
    try done.
  - intros i j. by apply backfill_path_inj.
  - apply Hrr.
  - apply Hrr.
  - intros m idx f Q Hf Hag HQ. apply list_elem_of_lookup_2 in Hf.
    pose proof (files_agree (view s) fs new_path (rr_places _ _ _ _ _ _ Hrr) m f Hf Hag) as Hka.
    pose proof (visible_agrees _ _ p f Hka) as Hv. rewrite Forall_forall in Hre.
    apply wp_backfill_file; [done..| |].
    + intros d b e. rewrite (proj1 Hka). by apply Hre.
    + intros o m' Hag' Hsome Hnone. apply HQ; [done| |].
      * intros g Eg. destruct (Hsome g Eg) as [Ek (d & Hd & Hfoot & Hg)]. split; [done|]. exists d. split; [done|].
        split; [done|]. intros r. rewrite <- Hv. by apply Hg.
      * intros Eo. destruct (Hnone Eo) as [-> (d & Hd & Hfoot)]. split; [done|]. exists d. by rewrite <- (proj1 Hka).
  - lia.
  - exists v, meta, fs, ds. split_and!; [apply Hrr|done..|by left].
Qed.


(** Running it again changes nothing. *)
Lemma backfilled_untouched s v meta fs ds path p :
  rewrite_ready s v meta fs ds path → primary_policy_from_props (tm_properties (to_table_metadata meta)) = Ok p →
  Forall (has_column (view s) p new) fs →
  let '(s', o) := backfill_run job clock s in o = Ret (Ok tt) ∧ view s' = view s.
Proof.
  intros Hrr Hpol Hall. unfold backfill_run. rewrite (proj1 (run_listed s v meta fs ds _ _ Hrr)).
  cbv beta zeta. rewrite Hpol. change (io_result (Ok p)) with (mret (M := IO S) p).
  destruct (run_listed s v meta fs ds _ (λ _ _, mret tt) Hrr) as (_ & Hsees & _).
  assert (Hloop : ∀ todo idx gs parent, Forall (has_column (view s) p new) todo →
    wp (view s) (each_file (backfill_file job clock p new) backfill_snapshot (rc_now clock) idx todo gs parent)
      (λ o m', o = Ret (Ok tt) ∧ m' = view s)).
  { induction todo as [|f todo IH]; intros idx gs parent Hf; [by apply wp_ret|]. inversion_clear Hf as [|? ? (d & Hd & Hfoot) Hrest].
    cbn [each_file]. apply wp_bind, wp_bind, wp_get_. rewrite Hd. cbn [ok_or]. rewrite Hfoot. apply wp_ret. by apply IH. }
  destruct (Hloop fs O fs (im_current_snapshot_id meta) Hall (listed s) Hsees) as (s' & o & m' & E & [_ Hv] & -> & ->).
  unfold mret, io_ret, mbind, io_bind.
  change (λ idx parent files, plain_snapshot (rc_snap_id clock idx) parent files Overwrite []) with backfill_snapshot.
  change (tm_current_snapshot_id (to_table_metadata meta)) with (im_current_snapshot_id meta). rewrite E. by rewrite Hv.
Qed.

End BackfillRun.
End Jobs.
