(* ===== verification/JobTheorems.v ===== *)
(** * What index jobs promise

    A worker stops within three builds: every round of its loop that starts a build takes
    one of the job's attempts, nothing it does gives one back, and a job is queued again
    only with an attempt left.
    Programs over a store with local state are related to its contents by [holds], and
    [keeps] is the case of a relation between the contents before and after. *)

From S2P Require Import Prelude Core Footer FileFormat FileTheorems Store Effects Json Avro Manifest Puffin Catalog.
From S2P Require Import CatalogTheorems HadoopTheorems ArrowSchema Arrow Deletes DeletesTheorems Floats Ranking Bloom.
From S2P Require Import Bm25 Search Compaction Jobs LocalWp Writer Deferred.

(* ------------------------------------------------------------------ *)
(** ** Programs over a store somewhere in their state                  *)
(* ------------------------------------------------------------------ *)

Class Holds (T : Type) : Type := { t_inv : T → Prop; t_view : T → gmap string bytes }.
#[export] Hint Mode Holds ! : typeclass_instances.
#[export] Instance holds_store {S} `{StoreLaws S} : Holds S := {| t_inv := store_inv; t_view := view |}.
#[export] Instance holds_pair {L T} `{Holds T} : Holds (L * T) :=
  {| t_inv lt := t_inv lt.2; t_view lt := t_view lt.2 |}.

(** The program ends in an outcome and contents that satisfy [Q]. *)
Definition holds {T} `{Holds T} {A} (m : gmap string bytes) (prog : IO T A)
    (Q : outcome AilakeError A → gmap string bytes → Prop) : Prop :=
  ∀ t, t_inv t → t_view t = m → t_inv (prog t).1 ∧ Q (prog t).2 (t_view (prog t).1).

Section Rules.
Context {T : Type} `{!Holds T}.
Implicit Types m : gmap string bytes.

Lemma holds_outcome {A} m (o : outcome AilakeError A) Q : Q o m → holds (T := T) m (io_outcome o) Q.
Proof. by intros HQ t Ht <-. Qed.
Lemma holds_ret {A} m (a : A) Q : Q (Ret (Ok a)) m → holds (T := T) m (mret a) Q.
Proof. by intros HQ t Ht <-. Qed.
Lemma holds_err {A} m e (Q : outcome AilakeError A → _) : Q (Ret (Err e)) m → holds (T := T) m (io_err e) Q.
Proof. by intros HQ t Ht <-. Qed.

Lemma holds_mono {A} m (prog : IO T A) (Q R : outcome AilakeError A → gmap string bytes → Prop) :
  holds m prog Q → (∀ o m', Q o m' → R o m') → holds m prog R.
Proof. intros Hp HQR t Ht Hm. destruct (Hp t Ht Hm). auto. Qed.

Lemma holds_bind {A B} m (prog : IO T A) (k : A → IO T B) Q :
  holds m prog (λ o m', match o with
                        | Ret (Ok a) => holds m' (k a) Q
                        | Ret (Err e) => Q (Ret (Err e)) m'
                        | Panic => Q Panic m'
                        end) →
  holds m (prog ≫= k) Q.
Proof.
  intros Hp t Ht Hm. destruct (Hp t Ht Hm) as [Ht' HQ]. unfold mbind, io_bind.
  destruct (prog t) as [t' [[a|e]|]]; [by apply HQ|done..].
Qed.

Lemma holds_catch {A} m (prog : IO T A) Q :
  holds m prog (λ o m', match o with Ret r => Q (Ret (Ok r)) m' | Panic => Q Panic m' end) →
  holds m (io_catch prog) Q.
Proof.
  intros Hp t Ht Hm. destruct (Hp t Ht Hm) as [Ht' HQ]. unfold io_catch. by destruct (prog t) as [t' [r|]].
Qed.

Lemma holds_on_store {L A} m (prog : IO T A) Q : holds m prog Q → holds (T := L * T) m (on_store prog) Q.
Proof.
  intros Hp [l t] Ht Hm. destruct (Hp t Ht Hm) as [Ht' HQ]. unfold on_store. by destruct (prog t) as [t' o].
Qed.

Lemma holds_get_local {L} m (Q : outcome AilakeError L → _) :
  (∀ l, Q (Ret (Ok l)) m) → holds (T := L * T) m get_local Q.
Proof. intros HQ [l t] Ht <-. split; [done|apply HQ]. Qed.
Lemma holds_set_local {L} m (l : L) Q : Q (Ret (Ok tt)) m → holds (T := L * T) m (set_local l) Q.
Proof. by intros HQ [l' t] Ht <-. Qed.

(** Changes of the contents along a preorder. *)
Context (R : gmap string bytes → gmap string bytes → Prop) `{!PreOrder R}.

Definition keeps {A} (prog : IO T A) : Prop := ∀ m, holds m prog (λ _ m', R m m').

Lemma keeps_outcome {A} (o : outcome AilakeError A) : keeps (io_outcome o).
Proof. intros m. by apply holds_outcome. Qed.
Lemma keeps_result {A} (r : AilakeResult A) : keeps (io_result r).
Proof. apply keeps_outcome. Qed.
Lemma keeps_err {A} e : keeps (io_err (A := A) e).
Proof. apply keeps_outcome. Qed.
Lemma keeps_panic {A} : keeps (io_panic (A := A)).
Proof. apply (keeps_outcome Panic). Qed.
Lemma keeps_ret {A} (a : A) : keeps (mret a).
Proof. apply (keeps_outcome (Ret (Ok a))). Qed.
Lemma keeps_bind {A B} (prog : IO T A) (k : A → IO T B) : keeps prog → (∀ a, keeps (k a)) → keeps (prog ≫= k).
Proof.
  intros Hp Hk m. apply holds_bind. eapply holds_mono; [apply Hp|]. intros o m1 Hm1. cbn in Hm1.
  destruct o as [[a|e]|]; [|done..]. eapply holds_mono; [apply Hk|]. intros o m2 Hm2. by transitivity m1.
Qed.
Lemma keeps_catch {A} (prog : IO T A) : keeps prog → keeps (io_catch prog).
Proof. intros Hp m. apply holds_catch. eapply holds_mono; [apply Hp|]. by intros [] m'. Qed.
Lemma keeps_map {A B} (f : A → IO T B) xs : (∀ x, keeps (f x)) → keeps (io_map f xs).
Proof.
  intros Hf. induction xs as [|x xs IH]; [apply keeps_ret|]. cbn [io_map].
  apply keeps_bind; [done|]. intros y. apply keeps_bind; [done|]. intros ys. apply keeps_ret.
Qed.
Lemma keeps_get_local {L} : ∀ m, holds (T := L * T) m get_local (λ _ m', R m m').
Proof. intros m. by apply holds_get_local. Qed.

End Rules.

Lemma keeps_on_store {L T} `{!Holds T} R {A} (prog : IO T A) : keeps R prog → keeps (T := L * T) R (on_store prog).
Proof. intros Hp m. apply holds_on_store, Hp. Qed.
Lemma keeps_local {L T} `{!Holds T} R `{!PreOrder R} : keeps (T := L * T) R get_local.
Proof. intros m. by apply holds_get_local. Qed.
Lemma keeps_set {L T} `{!Holds T} R `{!PreOrder R} (l : L) : keeps (T := L * T) R (set_local l).
Proof. intros m. by apply holds_set_local. Qed.

(** Programs over the store itself. *)
Lemma holds_wp {S} `{StoreLaws S} {A} m (prog : IO S A) Q : wp m prog Q → holds m prog Q.
Proof. intros Hp s Hi <-. by destruct (wp_run s (view s) prog Q Hp ltac:(done)) as (m' & [? <-] & ?). Qed.

(** Locks touch nothing but the lock object. *)
Class FencedLaws (S : Type) `{StoreLaws S} `{!FencedLocks S} : Prop := {
  fenced_acquire p m : holds m (io_op (λ s, try_acquire_lock_fenced s p))
    (λ _ m', agree_except (λ q, q = p) m m');
  fenced_release p f m : holds m (io_op (λ s, release_lock_fenced s p f)) (λ _ m', agree_except (λ q, q = p) m m');
  fenced_renew p f m : holds m (io_op (λ s, renew_lock_fenced s p f)) (λ _ m', agree_except (λ q, q = p) m m');
  fenced_check p f m : holds m (io_op (λ s, check_lock_fence s p f)) (λ _ m', agree_except (λ q, q = p) m m');
}.

(** The default fenced methods take the plain locks. *)
Lemma fenced_defaults_laws {S} `{LockLaws S} :
  (∀ (s : S) p, store_inv s → store_inv (renew_lock s p).1 ∧ ∀ q, q ≠ p → view (renew_lock s p).1 !! q = view s !! q) →
  @FencedLaws S _ _ fenced_defaults.
Proof.
  intros Hrenew. split; intros p.
  - intros m s Hi <-. pose proof (acquire_frame s p Hi) as Hf. cbn in *. unfold io_op, try_acquire_lock_fenced_default.
    destruct (try_acquire_lock s p) as [s' r]. destruct Hf as [Hi' Hf]. split; [done|]. intros q Hq. by apply Hf.
  - intros f m s Hi <-. pose proof (release_frame s p Hi) as Hf. cbn in *. unfold io_op, release_lock_fenced_default.
    destruct (release_lock s p) as [s' r]. destruct Hf as [Hi' Hf]. split; [done|]. intros q Hq. by apply Hf.
  - intros f m s Hi <-. pose proof (Hrenew s p Hi) as Hf. cbn in *. unfold io_op, renew_lock_fenced_default.
    destruct (renew_lock s p) as [s' r]. destruct Hf as [Hi' Hf]. split; [done|]. intros q Hq. by apply Hf.
  - intros f m s Hi <-. split; [done|]. apply agree_refl.
Qed.

(* ------------------------------------------------------------------ *)
(** ** Frames                                                          *)
(* ------------------------------------------------------------------ *)

(** A catalog whose operations change the contents along a preorder only. *)
Class CatalogFrame {S} `{StoreLaws S} `{!CatalogProvider S} (R : gmap string bytes → gmap string bytes → Prop) : Prop := {
  load_keeps : keeps (T := S) R cp_load_table;
  files_keep sid : keeps (T := S) R (cp_list_files sid);
  commit_keeps sn now : keeps (T := S) R (cp_commit_snapshot sn now);
}.

Create HintDb keeps discriminated.
#[export] Hint Constants Opaque : keeps.
#[export] Hint Resolve keeps_outcome keeps_result keeps_err keeps_panic keeps_ret keeps_catch
  keeps_on_store keeps_local keeps_set load_keeps files_keep commit_keeps : keeps.
#[export] Hint Extern 0 (PreOrder _) => apply _ : keeps.
#[export] Hint Extern 0 (CatalogFrame _) => apply _ : keeps.

(** Every step of a program, branch by branch. *)
Ltac keeps_steps :=
  repeat first
    [ solve [eauto 7 with keeps nocore]
    | match goal with
      | |- keeps _ (mbind _ _) => apply keeps_bind; [apply _| |intros ?]
      | |- keeps _ (io_map _ _) => apply keeps_map; [apply _|intros ?]
      | |- keeps _ (match ?x with _ => _ end) => destruct x
      end ].

Section StoreOps.
Context {S : Type} `{ReliableReads S} (R : gmap string bytes → gmap string bytes → Prop) `{!PreOrder R}.

Lemma keeps_get p : keeps (T := S) R (io_get p).
Proof. intros m. by apply holds_wp, wp_get. Qed.
Lemma keeps_get_ p : keeps (T := S) R (get_ p).
Proof. intros m. by apply holds_wp, wp_get_. Qed.
Lemma keeps_exists p : keeps (T := S) R (io_exists p).
Proof. intros m. by apply holds_wp, wp_exists. Qed.
Lemma keeps_put_ p d : (∀ m, R m (<[p := d]> m)) → keeps (T := S) R (put_ p d).
Proof. intros Hp m. by apply holds_wp, wp_put_. Qed.
Lemma keeps_now : keeps (T := S) R now_ms.
Proof. by intros m s Hi <-. Qed.
End StoreOps.
#[export] Hint Resolve keeps_get keeps_get_ keeps_exists keeps_now : keeps.

(* ------------------------------------------------------------------ *)
(** ** Attempts                                                        *)
(* ------------------------------------------------------------------ *)

Section Attempts.
Context {S : Type} `{ReliableReads S} `{!FencedLocks S} `{!FencedLaws S}.
Context {PL : ParquetLib} {IL : IndexLib} `{!JobSerde} `{!JobSerdeLaws}.
Implicit Types m : gmap string bytes.

(** The attempts the stored record of a job counts. *)
Definition attempts_at m (id : string) : option Z :=
  b ← m !! record_path id; jr_attempts <$> record_from_slice b.

(** They are never fewer. *)
Definition no_fewer (id : string) m m' : Prop :=
  ∀ n, attempts_at m id = Some n → ∃ n', attempts_at m' id = Some n' ∧ n ≤ n'.
#[export] Instance no_fewer_preorder id : PreOrder (no_fewer id).
Proof.
  split.
  - intros m n Hn. by exists n.
  - intros m1 m2 m3 H12 H23 n Hn. destruct (H12 n Hn) as (n2 & Hn2 & Hle).
    destruct (H23 n2 Hn2) as (n3 & Hn3 & Hle3). exists n3. split; [done|lia].
Qed.

Lemma same_attempts id m m' : m' !! record_path id = m !! record_path id → attempts_at m' id = attempts_at m id.
Proof. intros E. unfold attempts_at. by rewrite E. Qed.
Lemma no_fewer_same id m m' : m' !! record_path id = m !! record_path id → no_fewer id m m'.
Proof. intros E n Hn. exists n. by rewrite (same_attempts _ _ _ E). Qed.

(** The record is the same. *)
Definition same_record (id : string) m m' : Prop := m' !! record_path id = m !! record_path id.
#[export] Instance same_record_preorder id : PreOrder (same_record id).
Proof. unfold same_record. split; [done|]. intros m1 m2 m3 E1 E2. congruence. Qed.

(** An attempt is left. *)
Definition attempt_left (id : string) m : Prop := ∃ n, attempts_at m id = Some n ∧ n < MAX_ATTEMPTS.

Lemma attempt_left_same id m m' : same_record id m m' → attempt_left id m → attempt_left id m'.
Proof. intros E. unfold attempt_left. by rewrite (same_attempts id m m'). Qed.

Lemma record_not_lock id : record_path id ≠ run_lock_path id.
Proof.
  unfold record_path, run_lock_path. intros E%string_app_inj_l.
  apply (string_app_inj_l "/" (id +:+ ".json") (id +:+ ".run.lock")), string_app_inj_l in E. by vm_compute in E.
Qed.

Lemma holds_job_record id m Q :
  (∀ r, (∀ rec, r = Ok rec → attempts_at m id = Some (jr_attempts rec)) → Q (Ret r) m) →
  holds (T := S) m (job_record id) Q.
Proof.
  intros HQ. apply holds_wp, wp_bind, wp_get_. unfold attempts_at in HQ.
  destruct (m !! record_path id) as [b|]; cbn in *; [|by apply HQ]. apply wp_result, HQ.
  destruct (record_from_slice b) as [rec|]; [|done]. by intros ? [= ->].
Qed.

Lemma holds_job_write id rec m Q :
  (∀ o m', (o = Ret (Ok tt) ∧ attempts_at m' id = Some (jr_attempts rec)) ∨ ((∃ e, o = Ret (Err e)) ∧ m' = m) → Q o m') →
  holds (T := S) m (job_write id rec) Q.
Proof.
  intros HQ. apply holds_bind. apply (holds_mono _ _ (λ o m', (∃ n, o = Ret (Ok n)) ∧ m' = m)).
  { intros s Hi <-. split; [done|]. split; [eexists|]; done. }
  intros o m1 [[n ->] ->]. apply holds_wp, wp_bind, wp_result. destruct (record_to_vec _) as [b|] eqn:Eb; cbn.
  - apply wp_put_; intros; apply HQ; [left|right; eauto]. split; [done|]. unfold attempts_at. rewrite lookup_insert_eq.
    cbn. by rewrite (record_roundtrip _ _ Eb).
  - apply HQ. right. eauto.
Qed.

(** Writing a record that counts no fewer. *)
Lemma keeps_job_write id rec m n :
  attempts_at m id = Some n → n ≤ jr_attempts rec → holds (T := S) m (job_write id rec) (λ _ m', no_fewer id m m').
Proof.
  intros Hn Hle. apply holds_job_write. intros o m' [[_ E]|[_ ->]]; [|done].
  intros n' Hn'. eexists. split; [exact E|]. congruence.
Qed.

Lemma holds_write_fenced id rec m Q :
  (∀ o m', (o = Ret (Ok tt) ∧ attempts_at m' id = Some (jr_attempts rec)) ∨
           (o ≠ Ret (Ok tt) ∧ attempts_at m' id = attempts_at m id) → Q o m') →
  holds (T := option Z * S) m (write_fenced id rec) Q.
Proof.
  intros HQ. apply holds_bind, holds_get_local. intros [fence|]; [|by apply holds_err, HQ; right].
  apply holds_bind, holds_on_store, holds_bind. eapply holds_mono; [apply fenced_check|].
  intros o m1 Hag. cbn in Hag. assert (E1 : attempts_at m1 id = attempts_at m id)
    by (apply same_attempts, Hag, record_not_lock).
  destruct o as [[r|e]|]; [|by apply HQ; right..]. apply holds_outcome.
  destruct r as [[]|e]; cbn; [|by apply holds_err, HQ; right|by apply HQ; right].
  apply holds_on_store, holds_job_write. intros o m' [[-> E]|[[e ->] ->]]; apply HQ; [by left|by right].
Qed.

Lemma keeps_write_fenced id rec m n :
  attempts_at m id = Some n → n ≤ jr_attempts rec →
  holds (T := option Z * S) m (write_fenced id rec) (λ _ m', no_fewer id m m').
Proof.
  intros Hn Hle. apply holds_write_fenced. intros o m' [[_ E]|[_ E]] n' Hn'; rewrite E; eexists; split; [done|..].
  - assert (n' = n) as -> by congruence. done.
  - exact Hn'.
  - done.
Qed.

#[local] Notation keeps_job id := (keeps (T := option Z * S) (no_fewer id)).

(** Operations that read the record and write it back. *)
Lemma keeps_read_record {A} id (k : IndexJobRecord → IO (option Z * S) A) :
  (∀ rec m, attempts_at m id = Some (jr_attempts rec) → holds m (k rec) (λ _ m', no_fewer id m m')) →
  keeps_job id (record ← on_store (job_record id); k record).
Proof.
  intros Hk m. apply holds_bind, holds_on_store, holds_job_record. intros [rec|e] Hrec; [|done]. by apply Hk, Hrec.
Qed.

Lemma keeps_lock id (op : string → S → S * AilakeResult unit) p :
  p ≠ record_path id → (∀ m, holds m (io_op (op p)) (λ _ m', agree_except (λ q, q = p) m m')) →
  keeps (T := S) (same_record id) (io_try (op p)).
Proof.
  intros Hp Hop m. apply holds_bind. eapply holds_mono; [apply Hop|]. intros o m' Hag. cbn in Hag.
  assert (E : same_record id m m') by (by apply Hag).
  destruct o as [[r|e]|]; [by apply holds_outcome|done..].
Qed.

(** A release leaves the record alone. *)
Lemma release_same_record id : keeps (T := option Z * S) (same_record id) (release_claim id).
Proof.
  apply keeps_bind; [apply _|apply keeps_local; apply _|]. intros fence.
  apply keeps_bind; [apply _|apply keeps_set; apply _|]. intros _. destruct fence as [f|]; [|apply keeps_ret; apply _].
  apply keeps_on_store, (keeps_lock id (λ p s, release_lock_fenced s p f)); [|apply fenced_release].
  intros E. by apply (record_not_lock id).
Qed.

Lemma keeps_release id : keeps_job id (release_claim id).
Proof.
  intros m. eapply holds_mono; [apply release_same_record|]. intros o m' E. by apply no_fewer_same.
Qed.

Lemma keeps_is_cancel_requested R `{!PreOrder R} id : keeps (T := S) R (is_cancel_requested id).
Proof.
  apply keeps_bind; [done| |intros rec].
  - intros m. by apply holds_job_record.
  - destruct (jr_cancel_requested rec); [by apply keeps_ret|].
    apply keeps_bind; [done|by apply keeps_exists|]. intros r. by apply keeps_result.
Qed.

Lemma keeps_update_progress id progress : keeps_job id (update_progress id progress).
Proof.
  apply keeps_read_record. intros rec m Hrec. destruct (String.eqb _ _); [|by apply holds_ret].
  by eapply keeps_write_fenced.
Qed.

Lemma keeps_succeed id : keeps_job id (succeed id).
Proof. apply keeps_read_record. intros rec m Hrec. by eapply keeps_write_fenced. Qed.

Lemma keeps_mark_cancelled id reason : keeps_job id (mark_cancelled id reason).
Proof.
  apply keeps_read_record. intros rec m Hrec. apply holds_bind, holds_get_local. intros [f|].
  - by eapply keeps_write_fenced.
  - by eapply holds_on_store, keeps_job_write.
Qed.

(** A job is queued again only with an attempt left. *)
Lemma holds_fail_or_retry id error m :
  holds (T := option Z * S) m (fail_or_retry id error) (λ o m', no_fewer id m m' ∧ (o = Ret (Ok true) → attempt_left id m')).
Proof.
  apply holds_bind, holds_on_store, holds_job_record. intros [rec|e] Hrec; [|by split]. specialize (Hrec rec eq_refl).
  destruct (_ && _) eqn:Eg; apply holds_bind.
  - apply andb_prop in Eg as [Hlt%Z.ltb_lt _]. apply holds_write_fenced. intros o m' Ho.
    assert (Hk : no_fewer id m m').
    { intros n Hn. destruct Ho as [[_ ->]|[_ ->]]; eexists; (split; [done|]); [|done]. cbn.
      assert (n = jr_attempts rec) as -> by congruence. done. }
    destruct o as [[[]|e]|]; [|by split..]. apply holds_ret. split; [done|]. intros _.
    destruct Ho as [[_ E]|[? _]]; [|done]. by exists (jr_attempts rec).
  - eapply holds_mono; [by eapply keeps_write_fenced|]. intros o m' Hk; cbn in Hk.
    destruct o as [[[]|e]|]; [by apply holds_ret|by split..].
Qed.

Lemma keeps_fail_or_retry id error : keeps_job id (fail_or_retry id error).
Proof. intros m. eapply holds_mono; [apply holds_fail_or_retry|]. by intros o m' [? _]. Qed.

(** Giving up a claim. *)
Lemma holds_give_up {A} id m m1 (prog : IO (option Z * S) A) (P : gmap string bytes → Prop) :
  no_fewer id m m1 → keeps_job id prog →
  holds m1 (prog;; mret false) (λ o m', no_fewer id m m' ∧ (o = Ret (Ok true) → P m')).
Proof.
  intros Hm Hp. apply holds_bind. eapply holds_mono; [apply Hp|]. intros o m2 Hk. cbn in Hk.
  assert (Hk' : no_fewer id m m2) by (by transitivity m1). destruct o as [[a|e]|]; [by apply holds_ret|by split..].
Qed.

(** The rest of a claim, with the lock taken and the record read. *)
Lemma holds_claimed id rec m :
  attempts_at m id = Some (jr_attempts rec) →
  holds m
    (if String.eqb (jr_status rec) "succeeded" || String.eqb (jr_status rec) "cancelled" ||
        (MAX_ATTEMPTS <=? jr_attempts rec) then release_claim id;; mret false
     else
       cancelled ← on_store (is_cancel_requested (S := S) id);
       if cancelled : bool then
         write_fenced id (with_progress rec "cancelled" (jr_progress rec) (jr_attempts rec)
                            (Some "cancelled before execution") true);;
         release_claim id;; mret false
       else
         r ← io_catch (write_fenced id (with_progress rec "running" (jr_progress rec)
                                          (jr_attempts rec + 1) None (jr_cancel_requested rec)));
         match r with
         | Err error => io_catch (release_claim id);; io_err error
         | Ok _ => mret true
         end)
    (λ o m', no_fewer id m m' ∧ (o = Ret (Ok true) →
      jr_attempts rec < MAX_ATTEMPTS ∧ attempts_at m' id = Some (jr_attempts rec + 1))).
Proof.
  intros Hrec. set (P m' := jr_attempts rec < MAX_ATTEMPTS ∧ attempts_at m' id = Some (jr_attempts rec + 1)).
  destruct (_ || _) eqn:Ed; [by apply (holds_give_up _ _ _ _ P); [|apply keeps_release]|].
  apply orb_false_iff in Ed as [_ Hlt%Z.leb_gt].
  apply holds_bind, holds_on_store. eapply holds_mono; [by apply (keeps_is_cancel_requested eq)|].
  intros o m' <-. destruct o as [[[]|e]|]; [| |by split..].
  - apply holds_bind. eapply holds_mono; [by eapply keeps_write_fenced|]. intros o m' Hk. cbn in Hk.
    destruct o as [[[]|e]|]; [|by split..]. by apply (holds_give_up _ _ _ _ P); [|apply keeps_release].
  - apply holds_bind, holds_catch, holds_write_fenced. intros o m' Ho.
    assert (Hk : no_fewer id m m').
    { intros n Hn. destruct Ho as [[_ ->]|[_ ->]]; eexists; (split; [done|]); [|done]. cbn.
      assert (n = jr_attempts rec) as -> by congruence. lia. }
    destruct o as [[[]|e]|]; [apply holds_ret; split; [done|]; intros _; by destruct Ho as [[_ ?]|[? _]]| |by split].
    apply holds_bind, holds_catch. eapply holds_mono; [apply keeps_release|]. intros o m2 Hk2. cbn in Hk2.
    assert (Hk' : no_fewer id m m2) by (by transitivity m'). destruct o as [r|]; [by apply holds_err|by split].
Qed.

(** A claim takes an attempt. *)
Lemma holds_try_claim id m :
  holds m (try_claim (S := S) id)
    (λ o m', no_fewer id m m' ∧ (o = Ret (Ok true) →
      ∃ n, attempts_at m id = Some n ∧ n < MAX_ATTEMPTS ∧ attempts_at m' id = Some (n + 1))).
Proof.
  apply holds_bind, holds_on_store, holds_bind. eapply holds_mono; [apply fenced_acquire|].
  intros o m1 Hag. cbn in Hag. assert (E1 : attempts_at m1 id = attempts_at m id)
    by (apply same_attempts, Hag, record_not_lock).
  assert (Hk1 : no_fewer id m m1) by (intros n Hn; exists n; split; [congruence|lia]).
  destruct o as [[r|e]|]; [|by split..]. apply holds_outcome. destruct r as [[fence|]|e]; [|by apply holds_ret; split|by split].
  apply holds_bind, holds_set_local, holds_bind, holds_on_store, holds_job_record.
  intros [rec|e] Hrec; [|by split]. specialize (Hrec rec eq_refl).
  apply (holds_mono _ _ (λ o m', no_fewer id m1 m' ∧ (o = Ret (Ok true) →
    jr_attempts rec < MAX_ATTEMPTS ∧ attempts_at m' id = Some (jr_attempts rec + 1)))).
  2:{ intros o m' [Hk Ho]. split; [by transitivity m1|]. intros E. destruct (Ho E) as [Hlt Hm'].
      exists (jr_attempts rec). split; [congruence|done]. }
  by apply holds_claimed.
Qed.

End Attempts.

(* ------------------------------------------------------------------ *)
(** ** Workers                                                         *)
(* ------------------------------------------------------------------ *)

Section Workers.
Context {S : Type} `{ReliableReads S} `{!FencedLocks S} `{!FencedLaws S}.
Context `{RoaringLib} `{SerdeLib} `{JsonLib} `{TextLib} `{UnstableSort} `{Bm25Lib}.
Context {PL : ParquetLib} {IL : IndexLib} {AL : ArrowLib} {QL : QueryLib} {CL : CompactLib} {WL : WriterLib}.
Context `{!JobSerde} `{!JobSerdeLaws} `{!CatalogProvider S}.
Context (t : IndexTask) `{!CatalogFrame (S := S) (no_fewer (it_job t))}.
Context (Hpath : it_file_path t ≠ record_path (it_job t)).
Implicit Types m : gmap string bytes.
#[local] Notation id := (it_job t).
#[local] Notation keeps_job := (keeps (T := option Z * S) (no_fewer id)).
#[local] Notation keeps_task := (keeps (T := option IvfPqCodebook * (option Z * S)) (no_fewer id)).

Lemma keeps_put_file d : keeps (T := S) (no_fewer id) (put_ (it_file_path t) d).
Proof. apply keeps_put_; [apply _|]. intros m. by apply no_fewer_same, lookup_insert_ne. Qed.

Lemma keeps_checkpoint progress : keeps_job (checkpoint_index_job id progress).
Proof.
  apply keeps_bind; [apply _|apply keeps_on_store, keeps_is_cancel_requested; apply _|]. intros [].
  - apply keeps_err; apply _.
  - apply keeps_update_progress.
Qed.

Lemma keeps_wait n progress : keeps_job (wait_committed n id progress).
Proof.
  induction n as [|n IH]; [apply keeps_ret; apply _|]. cbn [wait_committed].
  apply keeps_bind; [apply _|apply keeps_checkpoint|]. intros _.
  apply keeps_bind; [apply _|by apply keeps_on_store, keeps_catch, load_keeps; apply _|].
  intros [meta|e]; [|done]. destruct (is_none _); [done|apply keeps_ret; apply _].
Qed.

#[local] Hint Resolve keeps_put_file keeps_checkpoint keeps_wait : keeps.

Lemma keeps_patch_ready n ids patch : keeps (T := S) (no_fewer id) (patch_ready n ids (it_file_path t) patch).
Proof. induction n as [|n IH]; cbn [patch_ready]; keeps_steps. Qed.
#[local] Hint Resolve keeps_patch_ready : keeps.

Lemma keeps_patch_failed reason snap : keeps (T := S) (no_fewer id) (patch_index_failed (it_file_path t) reason snap).
Proof. unfold patch_index_failed. keeps_steps. Qed.

Lemma keeps_build ids policy : keeps_job (build_and_patch_index ids policy (it_file_path t) id).
Proof. unfold build_and_patch_index. keeps_steps. Qed.

Lemma keeps_build_multi ids policies embeddings :
  keeps_job (build_and_patch_multi_index ids policies (it_file_path t) embeddings id).
Proof. unfold build_and_patch_multi_index. destruct policies; keeps_steps. Qed.

Lemma keeps_build_ivf ids policy config :
  keeps_task (build_ivf_pq_and_patch_index ids policy (it_file_path t) config id).
Proof. unfold build_ivf_pq_and_patch_index, shared_codebook. keeps_steps. Qed.

Lemma keeps_build_task ids : keeps_task (build_task ids t).
Proof.
  unfold build_task. destruct (it_algorithm t), (it_ivf t), (it_multi t) as [[]|];
    first [apply keeps_err; apply _ | apply keeps_on_store, keeps_build | apply keeps_build_ivf
          | apply keeps_on_store, keeps_build_multi].
Qed.

(** A caught program goes on, or panics. *)
Lemma holds_caught {T} `{!Holds T} {A B} m (prog : IO T A) (k : AilakeResult A → IO T B) Q :
  keeps (no_fewer id) prog → (∀ r m', no_fewer id m m' → holds m' (k r) Q) →
  (∀ m', no_fewer id m m' → Q Panic m') → holds m (io_catch prog ≫= k) Q.
Proof.
  intros Hp Hk HP. apply holds_bind, holds_catch. eapply holds_mono; [apply Hp|].
  intros [r|] m' Hm; [by apply Hk|by apply HP].
Qed.

(** The program keeps the attempts and does not fail. *)
Definition quiet {T} `{!Holds T} {A} (prog : IO T A) : Prop :=
  ∀ m, holds m prog (λ o m', no_fewer id m m' ∧ ∀ e, o ≠ Ret (Err e)).

Lemma quiet_ret {T} `{!Holds T} {A} (a : A) : quiet (T := T) (mret a).
Proof. intros m. by apply holds_ret. Qed.
Lemma quiet_bind {T} `{!Holds T} {A B} (prog : IO T A) (k : A → IO T B) :
  quiet prog → (∀ a, quiet (k a)) → quiet (prog ≫= k).
Proof.
  intros Hp Hk m. apply holds_bind. eapply holds_mono; [apply Hp|]. intros o m1 [Hm He].
  destruct o as [[a|e]|]; [|by destruct (He e)|done]. eapply holds_mono; [apply Hk|]. intros o m2 [Hm2 He2].
  split; [by transitivity m1|done].
Qed.
Lemma quiet_catch {T} `{!Holds T} {A} (prog : IO T A) : keeps (no_fewer id) prog → quiet (io_catch prog).
Proof. intros Hp m. apply holds_catch. eapply holds_mono; [apply Hp|]. by intros [] m'. Qed.
Lemma quiet_on_store {T L} `{!Holds T} {A} (prog : IO T A) : quiet prog → quiet (T := L * T) (on_store prog).
Proof. intros Hp m. by apply holds_on_store. Qed.

Lemma quiet_patch_failed reason snap : quiet (T := S) (patch_index_failed (it_file_path t) reason snap).
Proof.
  apply quiet_bind; [apply quiet_catch, load_keeps|]. intros [meta|e]; [|apply quiet_ret].
  apply quiet_bind; [apply quiet_catch, files_keep|]. intros [files|e]; [|apply quiet_ret].
  apply quiet_bind; [by intros m s Hi <-|]. intros now.
  apply quiet_bind; [apply quiet_catch, commit_keeps|]. intros r. apply quiet_ret.
Qed.

(** After a failed build the worker goes on only with an attempt left. *)
Lemma holds_after_failure error snap m :
  holds m (after_failure (S := S) t error snap) (λ o m', no_fewer id m m' ∧ (∀ e, o ≠ Ret (Err e)) ∧
    (o = Ret (Ok true) → attempt_left id m')).
Proof.
  assert (Hrel : ∀ m1 (b : bool), no_fewer id m m1 → (b = true → attempt_left id m1) →
    holds (T := option Z * S) m1 (io_catch (release_claim (S := S) id);; mret b) (λ o m', no_fewer id m m' ∧
      (∀ e, o ≠ Ret (Err e)) ∧ (o = Ret (Ok true) → attempt_left id m'))).
  { intros m1 b Hm Hb. apply holds_bind, holds_catch. eapply holds_mono; [apply release_same_record|].
    intros o m2 E. cbn in E. assert (Hm2 : no_fewer id m m2) by (transitivity m1; [done|by apply no_fewer_same]).
    destruct o as [r|]; [apply holds_ret|by split]. split; [done|]. split; [done|]. intros [= ->].
    eapply attempt_left_same; [exact E|by apply Hb]. }
  apply holds_bind. eapply holds_mono;
    [apply quiet_on_store, quiet_catch, keeps_is_cancel_requested; apply _|].
  intros o m1 [Hm1 He1]. destruct o as [[cancelled|e]|]; [|by destruct (He1 e)|by split].
  assert (Hretry : holds (T := option Z * S) m1 (retry ← io_catch (fail_or_retry (S := S) id (error_text error));
      let retry := match retry with Ok b => b | Err _ => false end in
      (if retry then mret tt else on_store (patch_index_failed (it_file_path t) (error_text error) snap));;
      io_catch (release_claim id);;
      mret retry) (λ o m', no_fewer id m m' ∧ (∀ e, o ≠ Ret (Err e)) ∧ (o = Ret (Ok true) → attempt_left id m'))).
  { apply holds_bind, holds_catch. eapply holds_mono; [apply holds_fail_or_retry|]. intros o m2 [Hm2 Hl].
    assert (Hmm : no_fewer id m m2) by (by transitivity m1). destruct o as [r|]; [|by split].
    destruct r as [[]|e]; cbn zeta; [apply holds_bind, holds_ret, Hrel; auto|..];
      (apply holds_bind; eapply holds_mono; [apply quiet_on_store, quiet_patch_failed|]; intros o m3 [Hm3 He3];
       assert (Hmm3 : no_fewer id m m3) by (by transitivity m2);
       destruct o as [[u|e']|]; [by apply Hrel|by destruct (He3 e')|by split]). }
  destruct cancelled as [[]|e]; [|exact Hretry..].
  apply holds_bind. eapply holds_mono; [apply quiet_catch, keeps_mark_cancelled|]. intros o m2 [Hm2 He2].
  assert (Hmm : no_fewer id m m2) by (by transitivity m1).
  destruct o as [[u|e]|]; [by apply Hrel|by destruct (He2 e)|by split].
Qed.

(** The loop, from contents in which the attempts left are at most the rounds. *)
Lemma holds_run_index_job fuel ids m :
  (0 < fuel)%nat → (∀ n, attempts_at m id = Some n → MAX_ATTEMPTS - n ≤ Z.of_nat fuel) →
  holds m (run_index_job (S := S) fuel ids t) (λ o _, o = Ret (Ok true) ∨ o = Panic).
Proof.
  revert m. induction fuel as [|fuel IH]; intros m Hf Hleft; [lia|]. cbn [run_index_job].
  apply holds_bind, holds_on_store, holds_catch. eapply holds_mono; [apply holds_try_claim|].
  intros o m1 [_ Hclaim]. destruct o as [r|]; [|by right].
  destruct r as [[]|e]; [|by apply holds_ret; left..]. destruct (Hclaim eq_refl) as (n & Hn & Hlt & Hn1). clear Hclaim.
  apply holds_bind, holds_catch. eapply holds_mono; [apply keeps_build_task|]. intros o m2 Hm2. cbn in Hm2.
  destruct o as [r|]; [|by right]. destruct r as [[]|error].
  - apply holds_bind, holds_on_store. eapply holds_mono; [apply (quiet_catch (succeed id)), keeps_succeed|].
    intros o m3 [_ He]. destruct o as [[r|e]|]; [|by destruct (He e)|by right].
    apply holds_bind, holds_on_store. eapply holds_mono; [apply (quiet_catch (release_claim id)), keeps_release|].
    intros o m4 [_ He4]. destruct o as [[r'|e]|]; [apply holds_ret; by left|by destruct (He4 e)|by right].
  - apply holds_bind, holds_on_store. eapply holds_mono; [apply holds_after_failure|].
    intros o m3 (Hm3 & He & Hl). destruct o as [[[]|e]|]; [|by apply holds_ret; left|by destruct (He e)|by right].
    assert (Hk : no_fewer id m1 m3) by (by transitivity m2). destruct (Hk (n + 1) Hn1) as (n3 & Hn3 & Hle).
    destruct (Hl eq_refl) as (n4 & Hn4 & Hlt4). assert (n4 = n3) as -> by congruence.
    pose proof (Hleft n Hn). apply IH; [lia|].
    intros n' Hn'. assert (n' = n3) as -> by congruence. lia.
Qed.

(** C20: a worker stops.  Each round of the loop that runs a job makes at most one build,
    and three rounds are always enough, fewer when the stored record already counts
    attempts (one when there is no record): the loop has then ended of itself, because a
    claim takes an attempt, no step of the worker gives one back, and a job is queued
    again only with an attempt left.  The store's reads succeed, its failed writes leave
    the object as it was, the lock's operations touch the lock object only and the
    catalog's do not lower the attempts of the record; writes, lock requests and
    commits may otherwise fail at will, and so may the build, which may also panic. *)
Theorem worker_stops fuel ids s cell :
  store_inv s → (0 < fuel)%nat → (∀ n, attempts_at (view s) id = Some n → 3 - n ≤ Z.of_nat fuel) →
  let '(s', o) := run_task fuel ids t cell s in
  store_inv s' ∧ ((∃ cell', o = Ret (Ok (true, cell'))) ∨ o = Panic).
Proof.
  intros Hi Hf Hn. pose proof (holds_run_index_job fuel ids (view s) Hf Hn (cell, (None, s)) Hi eq_refl) as Hr.
  unfold run_task.
  destruct (run_index_job fuel ids t (cell, (None, s))) as [[cell' [fence s']] o]. cbn in Hr.
  destruct Hr as [Hi' [-> | ->]].
  - split; [done|]. left. by exists cell'.
  - split; [done|]. by right.
Qed.

End Workers.

(* ------------------------------------------------------------------ *)
(** ** The Hadoop catalog touches only its own objects                 *)
(* ------------------------------------------------------------------ *)

Section HadoopFrame.
Context {S : Type} `{ReliableReads S} `{!LockStore S} `{!LockLaws S}.
Context `{AvroLib} `{SerdeLib} `{JsonLib} `{BincodeLib} `{MetaLib}.
Context (root warehouse : string) (R : gmap string bytes → gmap string bytes → Prop) `{!PreOrder R}.
Context (Hobj : ∀ m m', agree_except (λ q, ∃ o, q = obj_path root o) m m' → R m m').
#[local] Notation keeps := (keeps (T := S) R).

Lemma inserted o d m : R m (<[obj_path root o := d]> m).
Proof. apply Hobj, agree_insert, agree_refl. by exists o. Qed.

Lemma keeps_put_obj o d : keeps (put_ (obj_path root o) d).
Proof. apply keeps_put_; [done|]. intros m. apply inserted. Qed.
Lemma keeps_io_put_obj o d : keeps (io_put (obj_path root o) d).
Proof. intros m. apply holds_wp, wp_put; [apply inserted|done]. Qed.
Lemma keeps_file_size p : keeps (io_file_size p).
Proof. intros m. by apply holds_wp, wp_file_size. Qed.
#[local] Hint Resolve keeps_file_size : keeps.

Lemma keeps_load_raw : keeps (load_raw_metadata root).
Proof. unfold load_raw_metadata, current_version. keeps_steps. Qed.
#[local] Hint Resolve keeps_load_raw : keeps.

Lemma keeps_list_from meta sid : keeps (list_files_from_metadata meta sid).
Proof.
  unfold list_files_from_metadata, snapshot_manifests, read_manifests.
  destruct (union sid _); [destruct (List.find _ _)|]; keeps_steps.
Qed.
#[local] Hint Resolve keeps_list_from : keeps.

Lemma keeps_previous meta op : keeps (previous_manifests meta op).
Proof. unfold previous_manifests. keeps_steps. Qed.

Lemma keeps_statistics meta snap seq files blooms : keeps (write_statistics root meta snap seq files blooms).
Proof.
  unfold write_statistics. destruct (_ && _); [|keeps_steps]. destruct (write_stats _ _ _); [|keeps_steps].
  apply keeps_bind; [done|apply (keeps_io_put_obj (OPuffin snap))|]. intros r. keeps_steps.
Qed.

Lemma keeps_part_statistics snap spec ms : keeps (write_partition_statistics root snap spec ms).
Proof.
  unfold write_partition_statistics, read_data_entries. destruct spec as [spec|]; [|keeps_steps].
  destruct (is_unpartitioned spec); [keeps_steps|]. apply keeps_bind; [done|keeps_steps|]. intros entries.
  destruct (write_partition_stats_parquet _ _); [|keeps_steps].
  apply keeps_bind; [done|apply (keeps_io_put_obj (OPartStats snap))|]. intros r. keeps_steps.
Qed.

Lemma keeps_save meta : keeps (save_metadata root meta).
Proof.
  unfold save_metadata, current_version. apply keeps_bind; [done|keeps_steps|]. intros v.
  apply keeps_bind; [done|keeps_steps|]. intros json.
  apply keeps_bind; [done|apply (keeps_put_obj (OMeta _))|]. intros _. apply (keeps_put_obj OHint).
Qed.

Lemma keeps_build_commit meta sn now : keeps (build_commit root warehouse meta sn now).
Proof.
  unfold build_commit. destruct (commit_files warehouse meta (ns_files sn)) as [files next].
  apply keeps_bind; [done|apply (keeps_put_obj (OManifest _))|]. intros _.
  apply keeps_bind; [done|apply keeps_previous|]. intros prev. apply keeps_bind; [done| |].
  { destruct (absolute_delete root <$> _); [keeps_steps|].
    apply keeps_bind; [done|apply (keeps_put_obj (ODeletes _))|]. intros _. keeps_steps. }
  intros ms. apply keeps_bind; [done|apply (keeps_put_obj (OList _))|]. intros _.
  apply keeps_bind; [done|keeps_steps|]. intros patch. apply keeps_bind; [done|apply keeps_statistics|]. intros stats.
  apply keeps_bind; [done|apply keeps_part_statistics|]. intros pstats. keeps_steps.
Qed.

Lemma keeps_commit sn now : keeps (commit_snapshot root warehouse sn now).
Proof.
  assert (Hlock : ∀ m s, store_inv s → view s = m → R m (view (try_acquire_lock s (obj_path root OLock)).1)).
  { intros m s Hi <-. pose proof (acquire_frame s (obj_path root OLock) Hi) as Hf.
    destruct (try_acquire_lock s _) as [s' r]. apply Hobj. intros q Hq. apply Hf. intros ->. apply Hq. by exists OLock. }
  assert (Hbody : keeps (commit_locked root warehouse sn now)).
  { unfold commit_locked, commit_into_metadata. apply keeps_bind; [done|keeps_steps|]. intros meta.
    apply keeps_bind; [done| |].
    - apply keeps_bind; [done|apply keeps_build_commit|]. intros a. keeps_steps.
    - intros [meta' id]. apply keeps_bind; [done|apply keeps_save|]. intros _. keeps_steps. }
  intros m s Hi Hm. specialize (Hlock m s Hi Hm). pose proof (acquire_frame s (obj_path root OLock) Hi) as Hf.
  unfold commit_snapshot, io_try, io_op, mbind, io_bind. change (commit_lock_path root) with (obj_path root OLock).
  destruct (try_acquire_lock s (obj_path root OLock)) as [s1 r]. destruct Hf as [Hi1 _]. cbn in Hlock.
  destruct r as [[]|e]; [|by split..]. cbn. destruct (Hbody (view s1) s1 Hi1 eq_refl) as [Hi2 Hv2].
  destruct (commit_locked root warehouse sn now s1) as [s2 [res|]]; cbn in *; [|split; [done|by transitivity (view s1)]].
  pose proof (release_frame s2 (obj_path root OLock) Hi2) as Hf2. destruct (release_lock s2 _) as [s3 r3].
  destruct Hf2 as [Hi3 Hf3]. split; [done|]. transitivity (view s1); [done|]. transitivity (view s2); [done|].
  apply Hobj. intros q Hq. apply Hf3. intros ->. apply Hq. by exists OLock.
Qed.

Lemma hadoop_frame : @CatalogFrame S _ _ (hadoop_provider root warehouse) R.
Proof.
  split; [|intros sid|intros sn now; apply keeps_commit].
  - unfold cp_load_table, hadoop_provider, load_table. keeps_steps.
  - unfold cp_list_files, hadoop_provider, list_files. keeps_steps.
Qed.

End HadoopFrame.

(* ------------------------------------------------------------------ *)
(** ** Resuming                                                        *)
(* ------------------------------------------------------------------ *)

Section Resuming.
Context {S : Type} `{ReliableReads S} `{!FencedLocks S}.
Context {PL : ParquetLib} {IL : IndexLib} `{!JobSerde}.
Implicit Types m : gmap string bytes.

Definition stored_job m (id : string) : option IndexJobRecord := b ← m !! record_path id; record_from_slice b.

Lemma wp_job_record m id Q : Q (Ret (ok_or (stored_job m id) StoreError)) m → wp (S := S) m (job_record id) Q.
Proof.
  intros HQ. apply wp_bind, wp_get_. unfold stored_job in HQ.
  destruct (m !! record_path id) as [b|]; cbn in *; [|done]. by apply wp_result.
Qed.

(** Outside a claim a job cannot be failed or retried. *)
Lemma unclaimed_fails m id error Q :
  (∀ e, Q (Ret (Err e)) m) → wp (S := S) m (with_handle (fail_or_retry id error)) Q.
Proof.
  intros HQ. assert (Hw : wpl (None : option Z) m (fail_or_retry (S := S) id error) (λ o _ m', ∃ e, o = Ret (Err e) ∧ m' = m)).
  { apply wpl_bind, wpl_store, wp_job_record. destruct (stored_job m id) as [r|]; cbn; [|by eexists].
    destruct (_ && _); apply wpl_bind, wpl_bind, wpl_get, wpl_err; by eexists. }
  intros s Hs. destruct (Hw s Hs) as (s' & l' & o & m' & E & Hs' & e & -> & ->).
  unfold with_handle. rewrite E. eexists s', _, m. split; [done|]. split; [done|]. apply HQ.
Qed.

(** C38: a job whose payload is lost cannot be resumed.  The record of a build over
    several columns is stored before its payload; when the payload is not there, the
    resumption of the queued job neither fails the job nor puts it back: it reports the
    loss through a handle that has no claim, which is refused, and returns an error with
    the store as it was, so the next resumption meets the same job.  (The error is not
    caught on the way out of [create_or_open]: [table_blocked] runs it.)  Reads are
    assumed to work. *)
Theorem lost_payload_blocks (s : S) policy record ts :
  store_inv s → stored_job (view s) (jr_id record) = Some record →
  jr_status record = "queued" → jr_algorithm record = MultiHnsw →
  (∀ p, jr_payload_path record = Some p → view s !! p = None) →
  let '(_, s', o) := resume_job policy record (ts, s) in view s' = view s ∧ ∃ e, o = Ret (Err e).
Proof.
  intros Hi Hrec Hst Halg Hpay.
  assert (Hw : wpl ts (view s) (resume_job (S := S) policy record) (λ o _ m', m' = view s ∧ ∃ e, o = Ret (Err e))).
  { unfold resume_job. rewrite Hst. cbn [existsb negb orb String.eqb Ascii.eqb Bool.eqb].
    apply wpl_bind, wpl_store. apply wp_bind, wp_job_record. rewrite Hrec. cbn [ok_or]. rewrite Hst.
    apply wp_ret. cbn [String.eqb Ascii.eqb Bool.eqb negb].
    apply wpl_bind, wpl_store, wp_job_record. rewrite Hrec. cbn [ok_or]. rewrite Halg.
    apply wpl_bind, wpl_store, wp_catch, wp_bind, wp_result.
    destruct (jr_payload_path record) as [p|] eqn:Ep; cbn [ok_or].
    - apply wp_bind, wp_get_. rewrite (Hpay p eq_refl). cbn [ok_or].
      apply wpl_bind, wpl_store, unclaimed_fails. eauto.
    - apply wpl_bind, wpl_store, unclaimed_fails. eauto. }
  destruct (wpl_run s _ _ _ _ Hw ltac:(done)) as (m' & [_ <-] & ? & ?).
  by destruct (resume_job policy record (ts, s)) as [[ts' s'] o].
Qed.

End Resuming.
