(* ===== verification/QueryExamples.v ===== *)
(** * Queries on concrete tables

    Libraries that meet the laws the query theorems assume (record batches, bitmaps,
    the Avro writer of delete values, sorting, text), and the theorems applied with
    them to a table on an in-memory store. *)

From S2P Require Import Prelude Core Footer IvfPq FileFormat FileTheorems FileExamples Store Effects IndexLoader.
From S2P Require Import Avro Manifest ManifestTheorems ManifestExamples Json Puffin Bloom Catalog.
From S2P Require Import CatalogTheorems HadoopTheorems HadoopExamples Arrow Deletes DeletesTheorems.
From S2P Require Import Floats Ranking Bm25 Search SearchTheorems.

(* ------------------------------------------------------------------ *)
(** ** The index loader                                                *)
(* ------------------------------------------------------------------ *)

Definition toy_kvs : list (string * string) :=
  Eval vm_compute in match toy_parse toy_write with Ok (_, kvs) => kvs | Err _ => [] end.
Definition toy_tail_bytes : bytes := Eval vm_compute in parquet_tail (toy_policy "text") 2 [] toy_kvs.
Definition toy_body : bytes :=
  Eval vm_compute in take (length toy_write - length toy_tail_bytes) toy_write.
Definition toy_store : MemStore := mk_mem {["f.parquet" := toy_write]} 0 0.
Definition toy_loaded : AnyIndex :=
  Eval vm_compute in
    match (load_primary_index "f.parquet" toy_store).2 with Ret (Ok i) => i | _ => AnyHnsw [] end.

Lemma toy_bytes_ok : bytes_ok toy_write.
Proof. apply (bool_decide_unpack _). by vm_compute. Qed.

Lemma fast_path_equals_full_witness :
  (load_primary_index "f.parquet" toy_store).2 = Ret (Ok toy_loaded) ↔
  load_any_index_for_column {| r_bytes := toy_write; r_vector_column := "other" |} "other" = Ret (Ok toy_loaded).
Proof.
  refine (fast_path_equals_full toy_store "f.parquet" toy_write toy_body (toy_policy "text") 2 [] toy_kvs "other"
    toy_loaded I _ _ _ toy_bytes_ok _ _ _).
  - vm_compute. reflexivity.
  - vm_compute. reflexivity.
  - vm_compute. split; [discriminate|reflexivity].
  - vm_compute. reflexivity.
  - vm_compute. reflexivity.
  - eexists. vm_compute. reflexivity.
Defined.

Example fast_path_loads :
  match (load_primary_index "f.parquet" toy_store).2 with Ret (Ok (AnyHnsw _)) => true | _ => false end = true.
Proof. vm_compute. reflexivity. Qed.

(* ------------------------------------------------------------------ *)
(** ** Record batches                                                  *)
(* ------------------------------------------------------------------ *)

Record Column : Type := mk_col { c_name : string; c_type : DataType; c_vals : Z → option string }.
Record Batch : Type := mk_batch { b_rows : nat; b_cols : list Column }.

Definition batch_parquet : ParquetLib := {|
  RecordBatch := Batch;
  num_rows b := Z.of_nat (b_rows b);
  arrow_write _ _ _ _ := Err ParquetError;
  parquet_kvs _ := Err ParquetError;
  parquet_num_rows _ := Err ParquetError;
|}.

Definition scalar_text (v : option Scalar) : option string :=
  match v with
  | Some (SStr s) => Some s
  | Some (SInt n) => Some (to_string n)
  | Some _ => Some ""
  | None => None
  end.
Definition column_of (c : NewColumn) : Column := mk_col (nc_name c) (nc_type c) (λ _, scalar_text (nc_value c)).

Definition batch_arrow : @ArrowLib batch_parquet := {|
  field_names (b : @RecordBatch batch_parquet) := c_name <$> b_cols b;
  column_type (b : @RecordBatch batch_parquet) i := from_option c_type (OtherType 0) (b_cols b !! i);
  is_null (b : @RecordBatch batch_parquet) i row :=
    bool_decide (from_option (λ c, c_vals c row) None (b_cols b !! i) = None);
  has_nulls _ _ := true;
  value_text (b : @RecordBatch batch_parquet) i row :=
    default "" (from_option (λ c, c_vals c row) None (b_cols b !! i));
  filter_record_batch (b : @RecordBatch batch_parquet) mask :=
    if decide (Zlen mask = Z.of_nat (b_rows b)) then
      Ok (mk_batch (length (kept_rows 0 mask))
        ((λ c, mk_col (c_name c) (c_type c) (λ k, c_vals c (default 0 (kept_rows 0 mask !! Z.to_nat k)))) <$> b_cols b)
        : @RecordBatch batch_parquet)
    else Err ArrowError;
  with_columns (b : @RecordBatch batch_parquet) cols :=
    if decide (Forall (column_valid (Z.of_nat (b_rows b))) cols) then
      Ok (mk_batch (b_rows b) (b_cols b ++ (column_of <$> cols)) : @RecordBatch batch_parquet)
    else Err ArrowError;
  json_f64 _ := None;
  f64_as_f32 _ := 0;
|}.

Lemma batch_arrow_laws : @ArrowLaws batch_parquet batch_arrow.
Proof.
  constructor; cbn.
  - intros b. lia.
  - intros b cols Hv. rewrite decide_True by done. eexists. split; [done|]. cbn.
    split; [done|]. split; [by rewrite fmap_app, <- list_fmap_compose|]. rewrite length_fmap. split.
    + intros i Hi. unfold same_column. cbn. by rewrite lookup_app_l.
    + intros i c Hc. rewrite lookup_app_r by lia. replace (_ + i - _)%nat with i by lia.
      rewrite list_lookup_fmap, Hc. cbn. split; [done|]. intros row _. split.
      * by destruct (nc_value c) as [[]|].
      * by destruct (nc_value c) as [[]|].
  - intros b cols Hv. rewrite decide_False by done. eauto.
  - intros b mask Hm. rewrite decide_True by done. eexists. split; [done|]. cbn.
    split; [by rewrite <- list_fmap_compose|]. split; [done|]. intros i k row Hk.
    rewrite list_lookup_fmap. destruct (b_cols b !! i) as [c|]; [|done]. cbn. by rewrite Nat2Z.id, Hk.
Qed.
#[local] Existing Instances batch_parquet batch_arrow batch_arrow_laws.

(** Two rows and a column of labels. *)
Definition sample_batch : RecordBatch :=
  mk_batch 3 [mk_col "label" Utf8 (λ row, if row =? 0 then Some "spam" else if row =? 1 then Some "ham" else None);
              mk_col "seen" Boolean (λ row, Some "")].

Lemma fill_binary_fails_witness :
  fill sample_batch [mk_sfield 1 "label" false "string" None None; mk_sfield 9 "image_vec" false "binary" None None] = Err ArrowError.
Proof.
  apply (fill_binary_fails sample_batch
    [mk_sfield 1 "label" false "string" None None; mk_sfield 9 "image_vec" false "binary" None None]
    (mk_sfield 9 "image_vec" false "binary" None None)).
  - right. by left.
  - apply (bool_decide_unpack _). by vm_compute.
  - apply (bool_decide_unpack _). by vm_compute.
Defined.

Lemma unreadable_column_hides_all_witness :
  deleted_by_value [(5, predicate_of (pair "seen" <$> ["true"]))] sample_batch 2 3 = true.
Proof.
  apply (unreadable_column_hides_all [(5, predicate_of (pair "seen" <$> ["true"]))] 5 "seen" ["true"] sample_batch 1 2 3).
  - by left.
  - done.
  - lia.
  - vm_compute. reflexivity.
  - vm_compute. reflexivity.
  - vm_compute. reflexivity.
Defined.

(* ------------------------------------------------------------------ *)
(** ** The other libraries                                             *)
(* ------------------------------------------------------------------ *)

(** Selection and sorting by insertion. *)
#[local] Instance insertion_sort : UnstableSort := {|
  select_nth_unstable_by A cmp _ xs := sort_by cmp xs;
  sort_unstable_by A cmp xs := sort_by cmp xs;
|}.

#[local] Instance insertion_laws : SortLaws.
Proof.
  constructor; cbn.
  - intros A cmp key k xs Hk _. split; [apply sort_by_perm|]. intros x y Hx Hy.
    pose proof (sort_by_sorted cmp key xs Hk) as Hs. rewrite <- (take_drop k (sort_by cmp xs)) in Hs.
    by eapply (StronglySorted_app_1_elem_of (by_key key)).
  - intros A cmp key xs Hk. split; [apply sort_by_perm|by apply sort_by_sorted].
Qed.

(** A row that the batch has not, such as one an index of another file returns, ends the
    search when a delete that applies names a column of the batch. *)
Example row_outside_panics :
  should_delete_row [(5, predicate_of (pair "seen" <$> ["true"]))] sample_batch (num_rows sample_batch) 3 = None ∧
  should_delete_row [(5, predicate_of (pair "seen" <$> ["true"]))] sample_batch (num_rows sample_batch) 5 = Some false.
Proof. by vm_compute. Qed.

(** Bitmaps are sets. *)
#[local] Instance set_bitmap : RoaringLib := {|
  Bitmap := gset Z;
  rb_new := ∅;
  rb_insert b x := {[x]} ∪ b;
  rb_contains b x := bool_decide (x ∈ b);
  rb_len b := Z.of_nat (size b);
  rb_is_empty b := bool_decide (b = ∅);
  rb_serialize b := Ok (serialize (elements b));
  rb_deserialize d := match deserialize (A := list Z) d with
                      | Some l => Ok (list_to_set l)
                      | None => Err IoError
                      end;
|}.
#[local] Instance set_bitmap_laws : RoaringLaws.
Proof.
  constructor.
  - done.
  - intros b y x. cbn. rewrite <- bool_decide_or. apply bool_decide_ext. set_solver.
  - intros b. cbn. rewrite bool_decide_eq_true. split.
    + intros -> x. by apply bool_decide_eq_false.
    + intros Hb. apply set_eq. intros x. specialize (Hb x). rewrite bool_decide_eq_false in Hb. set_solver.
  - intros b. exists (serialize (elements (b : gset Z))). split; [done|].
    exists (list_to_set (elements (b : gset Z))). split.
    + cbn [rb_deserialize set_bitmap]. by rewrite deserialize_serialize.
    + intros x. apply bool_decide_ext. set_solver.
Qed.

(** Values of the delete files. *)
#[local] Instance scalar_writer : AvroWriterLib := {| avro_writer _ vs := scalar_records_write vs |}.
#[local] Instance scalar_writer_laws : AvroWriterLaws.
Proof.
  constructor. intros col ty fid vs _ Hall. cbn. unfold scalar_records_write.
  assert (Hm : ∃ cs, mapM (λ v, match v with
                   | VRecord [(col, v)] => c ← scalar_code v; Some (col, c)
                   | _ => None
                   end) ((λ v, VRecord [(col, v)]) <$> vs) = Some cs ∧
    (λ '(col, c), VRecord [(col, code_scalar c)]) <$> cs = (λ v, VRecord [(col, v)]) <$> vs).
  { induction Hall as [|v vs Hv _ (cs & Em & Ec)]; [by exists []|]. cbn [fmap list_fmap mapM].
    destruct v; try done; cbn [scalar_code mbind option_bind]; cbn in Em |- *; rewrite Em; cbn;
      eexists; (split; [done|]); cbn; by rewrite Ec. }
  destruct Hm as (cs & -> & Ec). eexists. split; [done|]. cbn [avro_reader spec_avro spec_reader].
  unfold scalar_records_read. by rewrite deserialize_serialize, Ec.
Qed.

#[local] Instance no_floats : FloatText := {|
  parse_f32 _ := None; parse_f64 _ := None; f32_to_string _ := ""; f64_to_string _ := "";
  from_utf8_lossy b := of_bytes b;
|}.
#[local] Existing Instance scalar_kernels.

(** Words between spaces. *)
Fixpoint split_words (acc s : string) : list string :=
  match s with
  | EmptyString => [acc]
  | String c s => if Ascii.eqb c (Ascii.ascii_of_nat 32) then acc :: split_words "" s else split_words (acc +:+ String c "") s
  end.
#[local] Instance ascii_text : TextLib := {| split_terms s := split_words "" s; to_lowercase s := s |}.

#[local] Instance no_ln : Bm25Lib := {|
  f32_ln x := x;
  idf_serialize _ := Err BincodeError;
  idf_deserialize _ := Err BincodeError;
  zstd_encode_all b := Ok b;
  zstd_decode_take b n := Ok (take (Z.to_nat n) b);
|}.

Definition batch_index : @IndexLib batch_parquet := {|
  IvfPqCodebook := unit; HnswIndex := bytes; PQCodebook := unit;
  normalize_l2 v := v;
  compute_centroid_and_radius vs m := mk_Centroid [] 0 m;
  HnswConfig_default := mk_HnswConfig 16 200 1000;
  recommend_ivf_pq _ := false;
  hnsw_build_bytes _ _ _ _ := Err BincodeError;
  hnsw_to_bytes i := Ok i;
  ivf_train_bytes _ _ _ _ := Err BincodeError;
  ivf_codebook_bytes _ _ _ := Err BincodeError;
  hnsw_from_bytes b := Ok b;
  quantize_to_f16 i := i;
  ivf_deserialize_from b :=
    Ok (mk_ivf_core 16 4 1 256 25 1 0 [] tt [b] [], Zlen b);
  hnsw_node_count i := Zlen i;
  build_fts_blob_from_batch _ (_ : @RecordBatch batch_parquet) := Err FtsError;
|}.
#[local] Existing Instance batch_index.

(** Every file holds [sample_batch] and three vectors. *)
Definition sample_vectors : list vec32 := [[F32_ONE; F32_ZERO]; [F32_ZERO; F32_ONE]; [F32_ONE; F32_ONE]].
#[local] Instance sample_query_lib : QueryLib := {|
  ColumnFilter := unit;
  read_parquet _ _ := Ok (sample_batch, sample_vectors);
  matching_row_ids _ _ := Ok ∅;
  hnsw_search _ _ _ _ := [];
  ivf_search _ _ _ := [];
  batch_slice b _ _ := b;
  FtsSearcher := unit;
  fts_from_blob _ := Err FtsError;
  fts_search _ _ _ := Ok [];
|}.

(* ------------------------------------------------------------------ *)
(** ** A table with two stored files                                   *)
(* ------------------------------------------------------------------ *)

(** The data files are in the store; the table lists them. *)
Definition docs_store : MemStore :=
  let s := (commit_snapshot root warehouse
    (new_snapshot 11 Append [new_file "a.parquet" 3; new_file "b.parquet" 3] [] None) 2000 table_store).1 in
  mk_mem (<["a.parquet" := [7]]> (<["b.parquet" := [7]]> (mem_objects s))) (mem_clock s) (mem_latency s).
Definition docs_meta : IcebergMetadata := meta_of docs_store.

Lemma docs_table : table (view docs_store) root 2 docs_meta.
Proof. apply published_table. vm_compute. reflexivity. Qed.

#[local] Instance docs_catalog : CatalogProvider MemStore := hadoop_provider root warehouse.

Definition labels : list string := ["spam"; "junk"].
Definition labels_file : bytes :=
  Eval vm_compute in
    match write_equality_delete_avro "label" 0 "string" labels with Ok d => d | Err _ => [] end.

Lemma label_field : column_field (to_table_metadata docs_meta) "label" = (0, "string").
Proof. vm_compute. reflexivity. Qed.

Lemma labels_input :
  commit_input (view docs_store) root warehouse docs_meta
    (delete_snapshot docs_meta "label" labels 12 labels_file).
Proof.
  split.
  - vm_compute. intros Hin. by apply list_elem_of_singleton in Hin.
  - by vm_compute.
  - by vm_compute.
  - constructor.
  - repeat constructor; by vm_compute.
  - vm_compute; reflexivity.
  - vm_compute; reflexivity.
  - vm_compute; reflexivity.
  - vm_compute; reflexivity.
  - vm_compute; reflexivity.
  - vm_compute; reflexivity.
Qed.

Lemma mem_lock_works : lock_works root (S := MemStore).
Proof. intros s Hs. split; [|by intros]. by vm_compute. Qed.

Lemma labels_ready : delete_ready root warehouse docs_store 2 docs_meta "label" labels 12.
Proof.
  split.
  - exact I.
  - apply docs_table.
  - vm_compute. reflexivity.
  - reflexivity.
  - done.
  - rewrite label_field. repeat constructor.
  - lia.
  - intros d Hd. rewrite label_field in Hd. vm_compute in Hd. injection Hd as <-. apply labels_input.
  - by vm_compute.
  - apply mem_lock_works.
  - apply mem_puts_succeed.
Qed.

Lemma docs_no_deletes :
  ∃ ds, (cp_list_equality_deletes None docs_store).2 = Ret (Ok ds) ∧
    (from_files ds docs_store).2 = Ret (Ok []) ∧
    Forall (λ d, ed_path d ≠ eq_del_path root 12 ∧ ∀ o, ed_path d ≠ obj_path root o) ds.
Proof. exists []. split; [vm_compute; reflexivity|]. split; [vm_compute; reflexivity|constructor]. Qed.

Lemma delete_where_hides_witness :
  delete_ready root warehouse docs_store 2 docs_meta "label" labels 12 ∧
  let '(s', o) := delete_where "label" labels 12 3000 docs_store in
  let texts := delete_texts (column_field (to_table_metadata docs_meta) "label").2 labels in
  o = Ret (Ok tt) ∧
  (cp_list_files None s').2 = (cp_list_files None docs_store).2 ∧
  ∃ ds' f1, (cp_list_equality_deletes None s').2 = Ret (Ok ds') ∧
    (from_files ds' s').2 = Ret (Ok f1) ∧
    ∀ b row seq, deleted_by_value f1 b row seq =
      deleted_by_value [] b row seq ||
      ((seq <? commit_seq docs_meta) && default false (column_matches b row "label" (list_to_set texts))).
Proof.
  split; [exact labels_ready|].
  pose proof (delete_where_hides root warehouse docs_store 2 docs_meta "label" labels 12 3000 []
    labels_ready docs_no_deletes) as X. exact X.
Defined.

Definition strict_config : SearchConfig := config_default.
Definition sample_query : vec32 := [F32_ONE; F32_ZERO].

Lemma docs_no_deletes' :
  ∃ ds f0, (cp_list_equality_deletes None docs_store).2 = Ret (Ok ds) ∧
    (from_files ds docs_store).2 = Ret (Ok f0) ∧
    Forall (λ d, ed_path d ≠ eq_del_path root 12 ∧ ∀ o, ed_path d ≠ obj_path root o) ds.
Proof. destruct docs_no_deletes as (ds & ? & ? & ?). eauto. Qed.

(** Four of the six stored rows are found: the first row of each file is deleted. *)
Lemma deleted_value_not_found_witness :
  let '(s1, o1) := delete_where "label" labels 12 3000 docs_store in
  let '(s2, o2) := search Whole sample_query strict_config "embedding" 2 s1 in
  o1 = Ret (Ok tt) ∧
  ∀ stats res, o2 = Ret (Ok (stats, res)) →
    Forall (λ r, ∃ tm f d batch vs,
      (cp_load_table s1).2 = Ret (Ok tm) ∧ sr_file_path r = df_path f ∧
      view s1 !! df_path f = Some d ∧ read_filled (mk_reader d "embedding") 2 tm = Ok (batch, vs) ∧
      (df_sequence_number f < commit_seq docs_meta →
        default false (column_matches batch (sr_row_id r) "label" (list_to_set
          (delete_texts (column_field (to_table_metadata docs_meta) "label").2 labels))) = false)) res.
Proof.
  pose proof (deleted_value_not_found root warehouse Whole docs_store 2 docs_meta "label" labels 12 3000
    sample_query strict_config "embedding" 2 labels_ready docs_no_deletes' eq_refl) as X. exact X.
Defined.

Definition found (o : outcome AilakeError (FlatScanStats * list SearchResult)) : list (string * Z) :=
  match o with
  | Ret (Ok (_, res)) => (λ r, (sr_file_path r, sr_row_id r)) <$> res
  | _ => []
  end.
Example search_after_delete :
  found (search Whole sample_query strict_config "embedding" 2
           (delete_where "label" labels 12 3000 docs_store).1).2 =
  [("a.parquet", 2); ("b.parquet", 2); ("a.parquet", 1); ("b.parquet", 1)].
Proof. vm_compute. reflexivity. Qed.

(* ------------------------------------------------------------------ *)
(** ** Deleting by position                                            *)
(* ------------------------------------------------------------------ *)

Definition docs_files : list DataFileEntry :=
  match (cp_list_files None docs_store).2 with Ret (Ok fs) => fs | _ => [] end.
Definition docs_target : DataFileEntry := default (new_file "" 0) (docs_files !! 1%nat).

#[local] Instance entry_typed_dec f : Decision (entry_typed f).
Proof. unfold entry_typed. destruct (df_first_row_id f); unfold fits_i64; apply _. Defined.

Lemma rows_written d off len :
  write_single_dv (foldl rb_insert rb_new [0; 2]) 12 = Ok (d, off, len) →
  Zlen d < 2 ^ 64 ∧
  commit_input (view docs_store) root warehouse docs_meta (rows_snapshot docs_meta docs_files 1 docs_target 12
    (mk_dv (dv_file_path root 12) off len (as_i64 (rb_len (foldl rb_insert rb_new [0; 2]))))).
Proof.
  intros Hw. vm_compute in Hw. injection Hw as <- <- <-. split; [by vm_compute|]. split.
  - vm_compute. intros Hin. by apply list_elem_of_singleton in Hin.
  - by vm_compute.
  - by vm_compute.
  - apply (bool_decide_unpack _). by vm_compute.
  - constructor.
  - vm_compute; reflexivity.
  - vm_compute; reflexivity.
  - vm_compute; reflexivity.
  - vm_compute; reflexivity.
  - vm_compute; reflexivity.
  - vm_compute; reflexivity.
Qed.

Lemma rows_ready_docs :
  rows_ready root warehouse docs_store 2 docs_meta "b.parquet" [0; 2] 12 docs_files 1 docs_target rb_new.
Proof.
  split.
  - exact I.
  - apply docs_table.
  - vm_compute. reflexivity.
  - by vm_compute.
  - done.
  - vm_compute. reflexivity.
  - vm_compute. reflexivity.
  - vm_compute. reflexivity.
  - apply rows_written.
  - by vm_compute.
  - apply mem_lock_works.
  - apply mem_puts_succeed.
Qed.

Lemma delete_rows_hides_witness :
  let '(s', o) := delete_rows "b.parquet" [0; 2] 12 3000 docs_store in
  o = Ret (Ok tt) ∧
  ∃ fs' dv b', (cp_list_files None s').2 = Ret (Ok fs') ∧
    file_key <$> fs' = <[1%nat := (df_path (absolute_file warehouse docs_target), Some dv)]>
                         (file_key ∘ absolute_file warehouse <$> docs_files) ∧
    (load_deletion_vector dv s').2 = Ret (Ok b') ∧
    ∀ x, rb_contains b' x = bool_decide (x ∈ [0; 2]) || rb_contains rb_new x.
Proof.
  pose proof (delete_rows_hides root warehouse docs_store 2 docs_meta "b.parquet" [0; 2] 12 3000 docs_files 1
    docs_target rb_new rows_ready_docs) as X. exact X.
Defined.

(** The same file again, which now has a deletion vector of its first row. *)
Definition marked_store : MemStore := (delete_rows "b.parquet" [0] 12 3000 docs_store).1.
Definition marked_meta : IcebergMetadata := meta_of marked_store.
Definition marked_files : list DataFileEntry :=
  match (cp_list_files None marked_store).2 with Ret (Ok fs) => fs | _ => [] end.
Definition marked_target : DataFileEntry := default (new_file "" 0) (marked_files !! 1%nat).
Definition marked_bitmap : Bitmap := rb_insert rb_new 0.

Lemma marked_written d off len :
  write_single_dv (foldl rb_insert marked_bitmap [2]) 13 = Ok (d, off, len) →
  Zlen d < 2 ^ 64 ∧
  commit_input (view marked_store) root warehouse marked_meta (rows_snapshot marked_meta marked_files 1 marked_target 13
    (mk_dv (dv_file_path root 13) off len (as_i64 (rb_len (foldl rb_insert marked_bitmap [2]))))).
Proof.
  intros Hw. vm_compute in Hw. injection Hw as <- <- <-. split; [by vm_compute|]. split.
  - vm_compute. intros Hin. repeat (apply elem_of_cons in Hin as [Hin|Hin]; [by injection Hin|]).
    by apply elem_of_nil in Hin.
  - by vm_compute.
  - by vm_compute.
  - apply (bool_decide_unpack _). by vm_compute.
  - constructor.
  - vm_compute; reflexivity.
  - vm_compute; reflexivity.
  - vm_compute; reflexivity.
  - vm_compute; reflexivity.
  - vm_compute; reflexivity.
  - vm_compute; reflexivity.
Qed.

Lemma rows_ready_marked :
  rows_ready root warehouse marked_store 3 marked_meta "b.parquet" [2] 13 marked_files 1 marked_target marked_bitmap.
Proof.
  split.
  - exact I.
  - apply published_table. vm_compute. reflexivity.
  - vm_compute. reflexivity.
  - by vm_compute.
  - done.
  - vm_compute. reflexivity.
  - vm_compute. reflexivity.
  - vm_compute. reflexivity.
  - apply marked_written.
  - by vm_compute.
  - apply mem_lock_works.
  - apply mem_puts_succeed.
Qed.

Lemma marked_paths : (λ f, df_path (absolute_file warehouse f)) <$> marked_files = ["a.parquet"; "b.parquet"].
Proof. vm_compute. reflexivity. Qed.
Lemma target_path : df_path (absolute_file warehouse marked_target) = "b.parquet".
Proof. vm_compute. reflexivity. Qed.

Lemma marked_paths_differ j f :
  j ≠ 1%nat → marked_files !! j = Some f →
  df_path (absolute_file warehouse f) ≠ df_path (absolute_file warehouse marked_target).
Proof.
  intros Hj Hf. rewrite target_path. pose proof (f_equal (.!! j) marked_paths) as E.
  rewrite list_lookup_fmap, Hf in E. cbn [fmap option_fmap option_map] in E. clear Hf.
  generalize dependent (df_path (absolute_file warehouse f)). intros p E.
  destruct j as [|[|j]]; [by injection E as ->|by destruct Hj|discriminate].
Qed.

(** The target has an earlier vector, of its first row. *)
Lemma deleted_row_not_found_witness :
  (∃ dv, df_deletion_vector marked_target = Some dv) ∧
  rb_contains marked_bitmap 0 = true ∧
  let '(s1, o1) := delete_rows "b.parquet" [2] 13 4000 marked_store in
  let '(s2, o2) := search Whole sample_query strict_config "embedding" 2 s1 in
  o1 = Ret (Ok tt) ∧
  ∀ stats res, o2 = Ret (Ok (stats, res)) →
    Forall (λ r, sr_file_path r = df_path (absolute_file warehouse marked_target) →
      wrap 32 (sr_row_id r) ∉ [2] ∧ rb_contains marked_bitmap (wrap 32 (sr_row_id r)) = false) res.
Proof.
  split; [eexists; vm_compute; reflexivity|]. split; [vm_compute; reflexivity|].
  pose proof (deleted_row_not_found root warehouse Whole marked_store 3 marked_meta "b.parquet" [2] 13 4000
    marked_files 1 marked_target marked_bitmap sample_query strict_config "embedding" 2
    rows_ready_marked eq_refl marked_paths_differ) as X. exact X.
Defined.

Example search_after_both :
  found (search Whole sample_query strict_config "embedding" 2
           (delete_rows "b.parquet" [2] 13 4000 marked_store).1).2 =
  [("a.parquet", 0); ("a.parquet", 2); ("a.parquet", 1); ("b.parquet", 1)].
Proof. vm_compute. reflexivity. Qed.

Example search_after_delete_rows :
  found (search Whole sample_query strict_config "embedding" 2
           (delete_rows "b.parquet" [0; 2] 12 3000 docs_store).1).2 =
  [("a.parquet", 0); ("a.parquet", 2); ("a.parquet", 1); ("b.parquet", 1)].
Proof. vm_compute. reflexivity. Qed.

Lemma delete_rows_revives_witness :
  let '(s', o) := delete_rows "b.parquet" [0; 2] 12 3000 docs_store in
  ∃ ds f, (cp_list_equality_deletes None s').2 = Ret (Ok ds) ∧ (from_files ds s').2 = Ret (Ok f) ∧
    ∀ b row seq, deleted_by_value f b row seq = false.
Proof.
  pose proof (delete_rows_revives root warehouse docs_store 2 docs_meta "b.parquet" [0; 2] 12 3000 docs_files 1
    docs_target rb_new rows_ready_docs) as X. exact X.
Defined.

(** What [delete_where] deleted is found again after an unrelated [delete_rows]. *)
Example revived :
  let s1 := (delete_where "label" labels 12 3000 docs_store).1 in
  let s2 := (delete_rows "b.parquet" [1] 13 4000 s1).1 in
  bool_decide (("a.parquet", 0) ∈ found (search Whole sample_query strict_config "embedding" 2 s1).2) = false ∧
  bool_decide (("a.parquet", 0) ∈ found (search Whole sample_query strict_config "embedding" 2 s2).2) = true.
Proof. split; vm_compute; reflexivity. Qed.

(* ------------------------------------------------------------------ *)
(** ** Searches                                                        *)
(* ------------------------------------------------------------------ *)

Lemma docs_listing : files_in (view docs_store) docs_meta None = Ok docs_files.
Proof. vm_compute. reflexivity. Qed.
Lemma docs_deletes : deletes_in (view docs_store) docs_meta None = Ok [].
Proof. vm_compute. reflexivity. Qed.

Lemma docs_catalog_at :
  catalog_at (view docs_store) (to_table_metadata docs_meta) docs_files [].
Proof. exact (hadoop_catalog_at root warehouse _ 2 docs_meta docs_files [] docs_table docs_listing docs_deletes). Qed.

Lemma search_hides_deleted_witness :
  let '(s', o) := search Whole sample_query strict_config "embedding" 2 docs_store in
  view s' = view docs_store ∧
  ∀ stats res, o = Ret (Ok (stats, res)) →
    ∃ flt, filter_in (view docs_store) [] = Ok flt ∧
      Forall (visible_result (view docs_store) (to_table_metadata docs_meta) "embedding" 2 flt docs_files) res.
Proof.
  pose proof (search_hides_deleted Whole docs_store (to_table_metadata docs_meta) docs_files [] sample_query
    strict_config "embedding" 2 I docs_catalog_at eq_refl) as X. exact X.
Defined.

Definition one_hit (row d : Z) : FileSearchOutcome := mk_outcome [mk_result row d "f"] [] None 0.
Lemma incremental_topk_witness :
  let outcomes := [one_hit 1 F32_ONE; one_hit 2 F32_ZERO; one_hit 3 F32_INFINITY] in
  let '(_, results, _) := foldl (aggregate 2 false) (mk_scan_stats 0 0 0, [], []) outcomes in
  (∃ rest, mjoin (fo_results <$> outcomes) ≡ₚ select_search_top_k results 2 ++ rest) ∧
  result_key <$> select_search_top_k results 2 =
    take 2 (merge_sort Z.le (result_key <$> mjoin (fo_results <$> outcomes))).
Proof.
  pose proof (incremental_topk [one_hit 1 F32_ONE; one_hit 2 F32_ZERO; one_hit 3 F32_INFINITY] 2) as X. exact X.
Defined.

Lemma search_budget_bounds_witness :
  1 ≤ file_search_budget_units 40000000 ≤ PROCESS_FILE_SEARCH_BUDGET_UNITS ∧
  estimate_file_search_budget_bytes [1; 40000000] = 4 * FILE_SEARCH_BUDGET_QUANTUM_BYTES.
Proof.
  destruct (search_budget_bounds 40000000 [1; 40000000]) as (Hu & _ & He).
  - by vm_compute.
  - repeat constructor; by vm_compute.
  - split; [exact Hu|]. rewrite He. vm_compute. reflexivity.
Defined.

Lemma flat_search_exact_witness :
  ∃ res, flat_search (Fork 1 Whole Whole) sample_vectors sample_query 2 Euclidean = Some res ∧
    (λ row, f32_key row.2) <$> res = [0; F32_ONE].
Proof.
  destruct (flat_search_exact (Fork 1 Whole Whole) sample_vectors sample_query 2 Euclidean
    [F32_ZERO; 1068827891; F32_ONE]) as (res & E & _ & K).
  - vm_compute. reflexivity.
  - repeat constructor.
  - exists res. split; [exact E|]. rewrite K. vm_compute. reflexivity.
Defined.

(** The sample vectors and one that is not a number. *)
Definition poisoned_vectors : list vec32 := [F32_NAN; F32_ONE] :: sample_vectors.
Definition poisoned_centroid : Centroid :=
  default (mk_Centroid [] F32_NAN Euclidean) (Vec.compute_centroid_and_radius poisoned_vectors Euclidean).

Lemma radius_covers_witness :
  let finite := filter (λ v, forallb is_finite v = true) poisoned_vectors in
  let r := centroid_radius poisoned_centroid in
  length finite = 3%nat ∧
  Vec.compute_centroid_and_radius finite Euclidean = Some poisoned_centroid ∧ is_finite r = true ∧
  (r = F32_ZERO ∨ ∃ v, v ∈ finite ∧ exact_distance Euclidean (centroid_values poisoned_centroid) v = Some r) ∧
  ∀ v d, v ∈ finite → exact_distance Euclidean (centroid_values poisoned_centroid) v = Some d →
    is_finite d = true → f32_le d r = true.
Proof.
  cbv zeta. split; [vm_compute; reflexivity|].
  assert (E : Vec.compute_centroid_and_radius poisoned_vectors Euclidean = Some poisoned_centroid) by (vm_compute; reflexivity).
  pose proof (radius_covers poisoned_vectors Euclidean poisoned_centroid E) as X. exact X.
Defined.

Lemma merge_batch_counts_witness :
  let st' := merge_batch idf_default ["the cat"; "the dog the end"; "a b"] in
  doc_count st' = 3 ∧ term_df st' !! "the" = Some 2 ∧ term_df st' !! "cat" = Some 1.
Proof.
  destruct (merge_batch_counts idf_default ["the cat"; "the dog the end"; "a b"]) as (E & _ & Hc).
  - done.
  - by vm_compute.
  - by vm_compute.
  - intros term. cbn. unfold df_of. by rewrite lookup_empty.
  - split; [exact E|]. split; [|vm_compute; reflexivity].
    specialize (Hc "the"). destruct (term_df _ !! "the") as [n|] eqn:En; [|by vm_compute in En].
    rewrite Hc. vm_compute. reflexivity.
Defined.

Lemma bloom_prune_keeps_witness :
  ∃ bs, build_bloom_for_file 64 [Some "the cat"; None] = Some bs ∧ bytes_ok bs ∧
    ∃ kept, bloom_prune [new_file "b" 1; new_file "a" 1] "cat food" (bloom_map_of [mk_bloom "b" [1]; mk_bloom "a" bs]) = Some kept ∧
      sublist kept [new_file "b" 1; new_file "a" 1] ∧ new_file "a" 1 ∈ kept.
Proof.
  destruct (bloom_prune_keeps 64 [Some "the cat"; None] ltac:(lia) ltac:(lia)) as (bs & E & Hb & Hk).
  exists bs. split; [exact E|]. split; [exact Hb|].
  destruct (Hk [mk_bloom "b" [1]; mk_bloom "a" bs] [new_file "b" 1; new_file "a" 1] "cat food") as (kept & Ek & Hsub & Hin).
  { constructor; [|constructor; [exact Hb|constructor]]. constructor; [split; vm_compute; done|constructor]. }
  exists kept. split; [exact Ek|]. split; [exact Hsub|].
  apply (Hin [mk_bloom "b" [1]] [] (new_file "a" 1) "the cat" "cat").
  - reflexivity.
  - apply not_elem_of_nil.
  - right. by left.
  - by left.
  - apply (bool_decide_unpack _). by vm_compute.
  - apply (bool_decide_unpack _). by vm_compute.
Defined.

(** A shard whose centroid has two values. *)
Definition two_dim_shard : LoadedShard :=
  mk_shard (mk_file "s" 1 1 (Some "AAAAAAAA") None None None None None [] Ready None None None None None None None 0)
    None (Some sample_vectors).
Lemma search_query_panics_witness :
  search_query Whole (mk_session [two_dim_shard] Euclidean) [F32_ONE; F32_ZERO; F32_ZERO] strict_config = None.
Proof.
  apply (search_query_panics Whole (mk_session [two_dim_shard] Euclidean) [F32_ONE; F32_ZERO; F32_ZERO]
    strict_config two_dim_shard (mk_Centroid [1094795585; 1094795585] 0 Euclidean)).
  - by left.
  - vm_compute. reflexivity.
  - done.
Defined.

(** A catalog with one file and a catalog that forgot its vector. *)
Definition one_file_catalog (f : DataFileEntry) : CatalogProvider MemStore := {|
  cp_load_table := mret (mk_table "" 3 "" ∅ None None [] [] None);
  cp_list_files _ := mret [f];
  cp_list_equality_deletes _ := mret [];
  cp_commit_snapshot _ _ := mret 0;
  cp_retires_files_physically := true;
  cp_create_table _ _ _ := mret tt;
  cp_supports_in_place_rewrite := true;
|}.
Definition deleted_file : DataFileEntry := sample_file "a.parquet" None.
Lemma search_text_ignores_vectors_witness :
  search_text_with_options (CatalogProvider0 := one_file_catalog (strip_vector deleted_file))
    "spam" ["label"] 10 None true docs_store =
  search_text_with_options (CatalogProvider0 := one_file_catalog deleted_file)
    "spam" ["label"] 10 None true docs_store.
Proof.
  apply (search_text_ignores_vectors (one_file_catalog deleted_file) (one_file_catalog (strip_vector deleted_file))
    "spam" ["label"] 10 None true docs_store); reflexivity.
Defined.
