(* ===== verification/Frames.v ===== *)
(** * Frames

    Batches of typed columns of text cells: concrete Parquet, Arrow and array libraries
    that meet the laws of their interfaces, for the examples. *)

From S2P Require Import Prelude Core Footer IvfPq FileFormat FileTheorems FileExamples Store Effects.
From S2P Require Import Avro Manifest ManifestTheorems ManifestExamples Json Puffin Catalog CatalogTheorems.
From S2P Require Import HadoopTheorems HadoopExamples ArrowSchema Arrow Arrays Deletes DeletesTheorems Floats Ranking Bm25 Search.
From S2P Require Import QueryExamples CompactionRows Cdc CdcRows.

(* ------------------------------------------------------------------ *)
(** ** Frames                                                          *)
(* ------------------------------------------------------------------ *)

Record FrameArray : Type := mk_array { fa_type : ArrowTy.t; fa_cells : list (option string) }.

(** Rows, and columns that are cut or filled to them. *)
Record Frame : Type := mk_frame { fr_rows : nat; fr_cols : list (ArrowField * list (option string)) }.

Definition not_null (c : option string) : option string := Some (default "" c).
Definition fit (n : nat) (f : ArrowField) (cells : list (option string)) : list (option string) :=
  (λ i, let c := c ← cells !! i; c in if af_nullable f then c else not_null c) <$> seq 0 n.
#[local] Arguments fit : simpl never.
Definition frame_column (b : Frame) (i : nat) : FrameArray :=
  match fr_cols b !! i with
  | Some (f, cells) => mk_array (af_type f) (fit (fr_rows b) f cells)
  | None => mk_array (ArrowTy.Other 0) []
  end.
Definition fa_null (a : FrameArray) (row : Z) : bool :=
  bool_decide ((c ← fa_cells a !! Z.to_nat row; c) = None).
Definition fa_text (a : FrameArray) (row : Z) : string := default "" (c ← fa_cells a !! Z.to_nat row; c).

(** What is stored of a frame: rows, names and cells. *)
Definition stored_frame (b : Frame) : Z * list (string * list (option string)) :=
  (Z.of_nat (fr_rows b), (λ fc, (af_name fc.1, fit (fr_rows b) fc.1 fc.2)) <$> fr_cols b).
Definition frame_bytes (b : Frame) (e : list vec32) : bytes := serialize (stored_frame b, e).
Definition frame_footer (b : Frame) (e : list vec32) (kv : list (string * string)) : bytes :=
  serialize (kv, (Z.of_nat (fr_rows b), Zlen (frame_bytes b e))).
Definition frame_parse (f : bytes) : AilakeResult (list (string * string) * (Z * Z)) :=
  start ← parquet_footer_start f;
  ok_or (t ← slice f start (Zlen f - 8); deserialize t) ParquetError.

Definition frame_parquet : ParquetLib := {|
  RecordBatch := Frame;
  num_rows b := Z.of_nat (fr_rows b);
  arrow_write _ b e kv :=
    if decide (fits 32 (Zlen (frame_footer b e kv))) then
      Ok (frame_bytes b e ++ frame_footer b e kv ++ to_le 4 (Zlen (frame_footer b e kv)) ++ PARQUET_MAGIC)
    else Err ParquetError;
  parquet_kvs f := fst <$> frame_parse f;
  parquet_num_rows f := (fst ∘ snd) <$> frame_parse f;
|}.

Definition type_of_arrow (t : ArrowTy.t) : DataType :=
  match t with
  | ArrowTy.Boolean => Boolean | ArrowTy.Int32 => Int32 | ArrowTy.Int64 => Int64
  | ArrowTy.Float32 => Float32 | ArrowTy.Float64 => Float64 | ArrowTy.Date32 => Date32
  | ArrowTy.Time64 => Time64Micro | ArrowTy.Timestamp tz => TimestampMicro (bool_decide (is_Some tz))
  | ArrowTy.Utf8 => Utf8 | ArrowTy.LargeUtf8 => LargeUtf8 | ArrowTy.Binary => Binary
  | ArrowTy.Other tag => OtherType tag
  | _ => OtherType 0
  end.
Definition arrow_of_type (t : DataType) : ArrowTy.t :=
  match t with
  | Boolean => ArrowTy.Boolean | Int32 => ArrowTy.Int32 | Int64 => ArrowTy.Int64
  | Float32 => ArrowTy.Float32 | Float64 => ArrowTy.Float64 | Date32 => ArrowTy.Date32
  | Time64Micro => ArrowTy.Time64
  | TimestampMicro utc => ArrowTy.Timestamp (if (utc : bool) then Some "UTC" else None)
  | Utf8 => ArrowTy.Utf8 | LargeUtf8 => ArrowTy.LargeUtf8 | Binary => ArrowTy.Binary
  | OtherType tag => ArrowTy.Other tag
  end.
Lemma type_of_arrow_of t : type_of_arrow (arrow_of_type t) = t.
Proof. by destruct t as [| | | | | | |[]| | | |]. Qed.

(** A value of a declared column: nullable so that its nulls stay. *)
Definition added (n : nat) (c : NewColumn) : ArrowField * list (option string) :=
  (mk_afield (nc_name c) (arrow_of_type (nc_type c)) true, (λ _, scalar_text (nc_value c)) <$> seq 0 n).

Definition frame_arrow : @ArrowLib frame_parquet := {|
  field_names (b : @RecordBatch frame_parquet) := (λ fc, af_name fc.1) <$> fr_cols b;
  column_type (b : @RecordBatch frame_parquet) i := type_of_arrow (fa_type (frame_column b i));
  is_null (b : @RecordBatch frame_parquet) i row := fa_null (frame_column b i) row;
  has_nulls _ _ := true;
  value_text (b : @RecordBatch frame_parquet) i row := fa_text (frame_column b i) row;
  filter_record_batch (b : @RecordBatch frame_parquet) mask :=
    if decide (length mask = fr_rows b) then
      Ok (mk_frame (length (kept_rows 0 mask))
        ((λ fc : ArrowField * list (option string), (fc.1, (λ k, c ← fit (fr_rows b) fc.1 fc.2 !! Z.to_nat k; c) <$> kept_rows 0 mask))
          <$> fr_cols b) : @RecordBatch frame_parquet)
    else Err ArrowError;
  with_columns (b : @RecordBatch frame_parquet) cols :=
    if decide (Forall (column_valid (Z.of_nat (fr_rows b))) cols) then
      Ok (mk_frame (fr_rows b) (fr_cols b ++ (added (fr_rows b) <$> cols)) : @RecordBatch frame_parquet)
    else Err ArrowError;
  json_f64 _ := None;
  f64_as_f32 _ := 0;
|}.
#[local] Existing Instances frame_parquet frame_arrow.

Lemma fit_lookup n f cells i :
  fit n f cells !! i = if decide (i < n)%nat then Some (let c := c ← cells !! i; c in if af_nullable f then c else not_null c) else None.
Proof.
  unfold fit. rewrite list_lookup_fmap. case_decide; [by rewrite lookup_seq_lt|]. by rewrite lookup_seq_ge by lia.
Qed.

Lemma kept_in mask k row : kept_rows 0 mask !! k = Some row → 0 ≤ row < Zlen mask.
Proof.
  assert (Hin : ∀ i, row ∈ kept_rows i mask → i ≤ row < i + Zlen mask).
  { induction mask as [|b mask IH]; intros i; cbn [kept_rows length]; [by intros ?%elem_of_nil|].
    destruct b; [intros [->|Hr]%elem_of_cons; [lia|]|intros Hr]; apply IH in Hr; lia. }
  intros Hk%list_elem_of_lookup_2. by apply Hin in Hk.
Qed.

#[local] Instance frame_arrow_laws : ArrowLaws.
Proof.
  constructor; cbn.
  - intros b. lia.
  - intros b cols Hv. rewrite decide_True by done. eexists. split; [done|]. cbn. split; [done|].
    split; [by rewrite fmap_app, <- list_fmap_compose|]. rewrite length_fmap. split.
    + intros i Hi. unfold same_column. cbn. unfold frame_column. cbn. by rewrite lookup_app_l.
    + intros i c Hc. unfold frame_column. cbn. rewrite lookup_app_r by lia.
      replace (length (fr_cols b) + i - length (fr_cols b))%nat with i by lia. rewrite list_lookup_fmap, Hc. cbn.
      split; [apply type_of_arrow_of|]. intros row Hrow. unfold fa_null, fa_text. cbn.
      rewrite fit_lookup, decide_True by lia. cbn. rewrite list_lookup_fmap, lookup_seq_lt by lia. cbn.
      by destruct (nc_value c) as [[]|].
  - intros b cols Hv. rewrite decide_False by done. eauto.
  - intros b mask Hm. rewrite decide_True by lia. eexists. split; [done|]. cbn.
    split; [by rewrite <- list_fmap_compose|]. split; [done|]. intros i k row Hk.
    unfold frame_column. cbn. rewrite list_lookup_fmap. destruct (fr_cols b !! i) as [[f cells]|]; [|done]. cbn.
    split; [done|]. pose proof (kept_in _ _ _ Hk) as Hr.
    assert (E : (c ← fit (length (kept_rows 0 mask)) f ((λ k, c ← fit (fr_rows b) f cells !! Z.to_nat k; c) <$> kept_rows 0 mask) !! k; c) =
      (c ← fit (fr_rows b) f cells !! Z.to_nat row; c)).
    { rewrite fit_lookup, decide_True by (by eapply lookup_lt_Some). rewrite list_lookup_fmap, Hk.
      cbn. rewrite !fit_lookup, !decide_True by lia. cbn. by destruct (af_nullable f). }
    unfold fa_null, fa_text. cbn. rewrite Nat2Z.id. by rewrite E.
Qed.

(** [chunk k] of the values of a fixed-size list. *)
Definition list_text (size : Z) (values : FrameArray) (k : nat) : string :=
  String.concat "," (default "" <$> take (Z.to_nat size) (drop (k * Z.to_nat size) (fa_cells values))).

#[local] Instance frame_arrays : @ArrayLib frame_parquet := {|
  ArrayRef := FrameArray;
  array_len a := Zlen (fa_cells a);
  array_type := fa_type;
  array_is_null := fa_null;
  array_text := fa_text;
  array_debug a := String.concat "," (default "null" <$> fa_cells a);
  schema_of (b : @RecordBatch frame_parquet) := (fr_cols b).*1;
  column (b : @RecordBatch frame_parquet) i := frame_column b i;
  schema_eq _ _ := false;
  batch_new fs cols :=
    match cols with
    | [] => Err ArrowError
    | a :: _ => Ok (mk_frame (length (fa_cells a)) (zip fs (fa_cells <$> cols)) : @RecordBatch frame_parquet)
    end;
  batch_new_empty fs := mk_frame 0 ((λ f, (f, [])) <$> fs) : @RecordBatch frame_parquet;
  take_array a rows :=
    if decide (Forall (λ r, 0 ≤ r < Zlen (fa_cells a)) rows) then
      Ret (Ok (mk_array (fa_type a) ((λ r, c ← fa_cells a !! Z.to_nat r; c) <$> rows)))
    else Panic;
  concat_arrays arrs :=
    match arrs with
    | [] => Err ArrowError
    | a :: _ => Ok (mk_array (fa_type a) (mjoin (fa_cells <$> arrs)))
    end;
  f32_array l := mk_array ArrowTy.Float32 (Some ∘ to_string <$> l);
  string_array l := mk_array ArrowTy.Utf8 (Some <$> l);
  int64_array l := mk_array ArrowTy.Int64 (Some ∘ to_string <$> l);
  typed_nulls t n := mk_array t (replicate (Z.to_nat n) None);
  null_array n := mk_array (ArrowTy.Other 1) (replicate (Z.to_nat n) None);
  fixed_size_list t nullable size values :=
    if decide (0 < size) then
      Ret (Ok (mk_array (ArrowTy.ListOf (ArrowTy.FixedList size) t nullable)
        ((λ k, Some (list_text size values k)) <$> seq 0 (Z.to_nat (Zlen (fa_cells values) / size)))))
    else Panic;
  empty_lists k t nullable n values := mk_array (ArrowTy.ListOf k t nullable) (replicate (Z.to_nat n) (Some ""));
|}.

Lemma frame_cells (a : FrameArray) : array_cells a = fa_cells a.
Proof.
  apply list_eq. intros k. rewrite array_cells_lookup. cbn [array_len frame_arrays].
  destruct (fa_cells a !! k) as [c|] eqn:Ek.
  - rewrite decide_True by (apply lookup_lt_Some in Ek; lia). f_equal. unfold array_cell. cbn. unfold fa_null, fa_text.
    rewrite Nat2Z.id, Ek. cbn. by destruct c.
  - rewrite decide_False; [done|]. apply lookup_ge_None in Ek. lia.
Qed.

Lemma frame_cell (a : FrameArray) row : array_cell a row = (c ← fa_cells a !! Z.to_nat row; c).
Proof. unfold array_cell. cbn. unfold fa_null, fa_text. by destruct (fa_cells a !! Z.to_nat row) as [[c|]|]. Qed.

Lemma fit_id n f cells : length cells = n → (af_nullable f = false → None ∉ cells) → fit n f cells = cells.
Proof.
  intros Hl Hn. apply list_eq. intros k. rewrite fit_lookup. destruct (cells !! k) as [c|] eqn:Ek.
  - rewrite decide_True by (apply lookup_lt_Some in Ek; lia). cbn. destruct (af_nullable f) eqn:Ef; [done|].
    destruct c as [t|]; [done|]. exfalso. apply (Hn eq_refl). by eapply list_elem_of_lookup_2.
  - rewrite decide_False; [done|]. apply lookup_ge_None in Ek. lia.
Qed.

Lemma fit_length n f cells : length (fit n f cells) = n.
Proof. unfold fit. by rewrite length_fmap, length_seq. Qed.

#[local] Instance frame_array_laws : ArrayLaws.
Proof.
  constructor.
  - intros a. cbn. lia.
  - intros b. cbn. by rewrite <- list_fmap_compose.
  - intros b i f. cbn [schema_of frame_arrays column]. rewrite list_lookup_fmap. unfold frame_column.
    destruct (fr_cols b !! i) as [[g cells]|] eqn:Ei; [|done]. cbn. intros [= ->].
    split; [|split].
    + split; [done|]. split; [cbn; by rewrite fit_length|]. intros Hnn. rewrite frame_cells. cbn.
      intros [k Hk]%list_elem_of_lookup. rewrite fit_lookup, Hnn in Hk. by case_decide.
    + intros k Hk. unfold frame_column. rewrite Ei. cbn. by destruct (af_type f); try done; injection Hk as <-.
    + intros row. cbn. unfold frame_column. by rewrite Ei.
  - by intros b fs.
  - intros fs cols n Hne Hf. destruct cols as [|a0 cols]; [done|]. cbn [batch_new frame_arrays]. set (all := a0 :: cols) in *.
    assert (Hn : n = Zlen (fa_cells a0)) by (destruct (Forall2_cons_inv_r _ _ _ _ Hf) as (f0 & fs0 & (_ & Hl & _) & _ & _); by rewrite <- Hl).
    pose proof (Forall2_length _ _ _ Hf) as Hlen. eexists. split; [done|]. split; [|split].
    + cbn [schema_of frame_arrays fr_cols]. apply fst_zip. rewrite length_fmap. apply Nat.eq_le_incl, Hlen.
    + by rewrite Hn.
    + intros i a Ha. cbn [column frame_arrays]. unfold frame_column. cbn [fr_cols fr_rows]. destruct (Forall2_lookup_r _ _ _ _ _ Hf Ha) as (f & Hfi & Ht & Hl & Hnull).
      assert (zip fs (fa_cells <$> all) !! i = Some (f, fa_cells a)) as ->.
      { apply lookup_zip_Some. split; [done|]. rewrite list_lookup_fmap. exact (f_equal (fmap fa_cells) Ha). }
      rewrite frame_cells in Hnull. cbn in Hl. rewrite fit_id by (done || lia). cbn in Ht. rewrite <- Ht. by destruct a.
  - intros fs. cbn. split; [|done]. rewrite <- list_fmap_compose. apply list_fmap_id.
  - intros a rows Hr. cbn. rewrite decide_True by done. eexists. split; [done|]. split; [done|]. cbn.
    split; [by rewrite length_fmap|]. rewrite frame_cells. cbn. apply list_fmap_ext. intros k r _. by rewrite frame_cell.
  - intros t arrs Hne Ht. destruct arrs as [|a arrs]; [done|]. cbn [concat_arrays frame_arrays]. eexists. split; [done|].
    split; [by inversion Ht|]. rewrite frame_cells. cbn [fa_cells]. f_equal. apply list_fmap_ext. intros k x _. by rewrite frame_cells.
  - intros l. rewrite frame_cells. cbn. by rewrite length_fmap.
  - intros l. rewrite frame_cells. cbn. by rewrite length_fmap.
  - intros l. rewrite frame_cells. cbn. rewrite length_fmap. repeat split; [done..|]. by intros (? & ? & _)%list_elem_of_fmap.
  - intros t nullable size values n Hs Ht Hl _. cbn. rewrite decide_True by done. eexists. split; [done|]. split; [done|].
    cbn in Hl. rewrite Hl, Z.div_mul by lia. rewrite frame_cells. cbn. rewrite length_fmap, length_seq.
    split; [|by intros (? & ? & _)%list_elem_of_fmap]. assert (0 ≤ n) by (destruct (Z_lt_le_dec n 0); [nia|done]). lia.
Qed.

(* ------------------------------------------------------------------ *)
(** ** Files of frames                                                 *)
(* ------------------------------------------------------------------ *)

Lemma frame_parse_tail body (b : Frame) e kv :
  fits 32 (Zlen (frame_footer b e kv)) →
  frame_parse (body ++ frame_footer b e kv ++ to_le 4 (Zlen (frame_footer b e kv)) ++ PARQUET_MAGIC) =
    Ok (kv, (Z.of_nat (fr_rows b), Zlen (frame_bytes b e))).
Proof.
  intros Hf. unfold frame_parse. rewrite parquet_footer_start_tail by done.
  cbn [mbind result_bind]. rewrite slice_mid.
  - cbn [mbind option_bind]. unfold frame_footer. by rewrite deserialize_serialize.
  - done.
  - unfold PARQUET_MAGIC. len.
Qed.

#[local] Instance frame_laws : ParquetLaws frame_parquet.
Proof.
  refine {| row_groups _ b e := frame_bytes b e; footer_thrift _ b e kv := frame_footer b e kv |}.
  - intros p b e kv f. cbn. case_decide; [|done]. by intros [= <-].
  - intros body p b e kv Hf. cbn [parquet_kvs frame_parquet]. rewrite frame_parse_tail by done. eauto.
  - intros body p b e kv Hf. cbn [parquet_num_rows frame_parquet]. by rewrite frame_parse_tail.
Defined.

(** A stored frame is read with nullable text columns. *)
Definition read_frame (x : Z * list (string * list (option string))) : Frame :=
  mk_frame (Z.to_nat x.1) ((λ nc : string * list (option string), (mk_afield nc.1 ArrowTy.Utf8 true, nc.2)) <$> x.2).
Definition frame_read (f : bytes) : AilakeResult (Frame * list vec32) :=
  '(_, (_, len)) ← frame_parse f;
  '(x, e) ← ok_or (deserialize (A := Z * list (string * list (option string)) * list vec32) (take (Z.to_nat len) f)) ParquetError;
  Ok (read_frame x, e).

Definition frame_index : @IndexLib frame_parquet := {|
  IvfPqCodebook := unit; HnswIndex := bytes; PQCodebook := unit;
  normalize_l2 v := v;
  compute_centroid_and_radius vs m := mk_Centroid [] 0 m;
  HnswConfig_default := mk_HnswConfig 16 200 1000;
  recommend_ivf_pq _ := false;
  hnsw_build_bytes _ _ _ vs := Ok (serialize vs);
  hnsw_to_bytes i := Ok i;
  ivf_train_bytes _ _ _ _ := Err BincodeError;
  ivf_codebook_bytes _ _ _ := Err BincodeError;
  hnsw_from_bytes b := Ok b;
  quantize_to_f16 i := i;
  ivf_deserialize_from b :=
    Ok (mk_ivf_core 16 4 1 256 25 1 0 [] tt [b] [], Zlen b);
  hnsw_node_count i := Zlen i;
  build_fts_blob_from_batch _ (_ : @RecordBatch frame_parquet) := Err FtsError;
|}.
#[local] Existing Instance frame_index.

Definition stored_frames : QueryLib := {|
  ColumnFilter := unit;
  read_parquet r _ := frame_read (r_bytes r);
  matching_row_ids _ _ := Ok ∅;
  hnsw_search _ _ _ _ := [];
  ivf_search _ _ _ := [];
  batch_slice b _ _ := b;
  FtsSearcher := unit;
  fts_from_blob _ := Err FtsError;
  fts_search _ _ _ := Ok [];
|}.
#[local] Existing Instance stored_frames.

(** Names and cells are those that were stored. *)
Lemma read_frame_rows (b : RecordBatch) : named_rows (read_frame (stored_frame b) : RecordBatch) = named_rows b.
Proof.
  unfold named_rows. cbn [num_rows frame_parquet read_frame stored_frame fst fr_rows]. rewrite Nat2Z.id.
  apply list_fmap_ext. intros k row Hrow. rewrite !named_row_fields. cbn [schema_of frame_arrays].
  apply list_eq. intros i. rewrite !list_lookup_imap, !list_lookup_fmap. cbn [read_frame stored_frame fst snd fr_cols].
  rewrite !list_lookup_fmap. cbn [column frame_arrays]. rewrite !frame_cell. unfold frame_column.
  cbn [read_frame stored_frame fst snd fr_cols fr_rows]. rewrite !list_lookup_fmap, Nat2Z.id.
  destruct (fr_cols b !! i) as [[f cells]|]; [|done]. cbn. do 2 f_equal. rewrite fit_lookup. apply lookup_seqZ in Hrow as [-> Hk].
  rewrite decide_True by lia. cbn. by rewrite fit_lookup, decide_True by lia.
Qed.

#[local] Instance frame_read_back : ReadBackLaws.
Proof.
  refine {| stored_vector _ v := v |}. intros p b e extra body f dim Ha _ _ _ _ _.
  exists (read_frame (stored_frame b)). rewrite list_fmap_id. cbn in Ha. case_decide as Hf; [|done].
  split; [|split; [apply read_frame_rows|cbn; by rewrite Nat2Z.id]].
  unfold read_parquet, stored_frames, frame_read. cbn [r_bytes]. unfold parquet_tail.
  change (footer_thrift p b e ?kv) with (frame_footer b e kv). rewrite app_assoc, frame_parse_tail by done.
  cbn [mbind result_bind]. rewrite <- app_assoc.
  change (row_groups p b e) with (frame_bytes b e). rewrite Nat2Z.id, take_app_length.
  unfold frame_bytes. by rewrite deserialize_serialize.
Defined.
