(* ===== verification/CompactionExamples.v ===== *)
(** * Compaction on a concrete table

    A columnar container whose files hold typed columns of text cells and the vectors of
    the rows; it meets the laws of the Parquet and Arrow interfaces.  With it the merges
    and whole passes run on an in-memory table: the witnesses of the compaction theorems,
    and the passes that revive deleted rows or give a row id twice. *)

From S2P Require Import Prelude Core Footer FileFormat FileTheorems FileExamples Store Effects.
From S2P Require Import Avro Manifest ManifestTheorems ManifestExamples Json Puffin Catalog CatalogTheorems.
From S2P Require Import HadoopTheorems HadoopExamples Arrow Deletes DeletesTheorems Floats Ranking Bm25 Search.
From S2P Require Import QueryExamples ColumnStats Compaction CompactionTheorems CompactionRows CompactionSafety.

(* ------------------------------------------------------------------ *)
(** ** Sheets                                                          *)
(* ------------------------------------------------------------------ *)

#[local] Instance tree_type : Tree DataType.
Proof.
  refine (tree_iso
    (λ t, match t with
          | Boolean => (0, 0) | Int32 => (1, 0) | Int64 => (2, 0) | Float32 => (3, 0) | Float64 => (4, 0)
          | Date32 => (5, 0) | Time64Micro => (6, 0) | TimestampMicro b => (7, if b then 1 else 0)
          | Utf8 => (8, 0) | LargeUtf8 => (9, 0) | Binary => (10, 0) | OtherType t => (11, t)
          end)
    (λ '(k, x), nth_error [Boolean; Int32; Int64; Float32; Float64; Date32; Time64Micro;
                          TimestampMicro (x =? 1); Utf8; LargeUtf8; Binary; OtherType x] (Z.to_nat k)) _).
  by intros [| | | | | | |[]| | | |].
Defined.

(** Columns and rows. *)
Definition Sheet : Type := list (string * DataType) * list (list (option string)).
Definition sheet_cell (b : Sheet) (i : nat) (row : Z) : option string :=
  r ← b.2 !! Z.to_nat row; c ← r !! i; c.

Definition sheet_bytes (b : Sheet) (e : list vec32) : bytes := serialize (b, e).

(** Metadata, row count and length of the row groups. *)
Definition sheet_footer (b : Sheet) (e : list vec32) (kv : list (string * string)) : bytes :=
  serialize (kv, (Zlen b.2, Zlen (sheet_bytes b e))).
Definition sheet_parse (f : bytes) : AilakeResult (list (string * string) * (Z * Z)) :=
  start ← parquet_footer_start f;
  ok_or (t ← slice f start (Zlen f - 8); deserialize t) ParquetError.

Definition sheet_parquet : ParquetLib := {|
  RecordBatch := Sheet;
  num_rows (b : Sheet) := Zlen b.2;
  arrow_write _ b e kv :=
    if decide (fits 32 (Zlen (sheet_footer b e kv))) then
      Ok (sheet_bytes b e ++ sheet_footer b e kv ++ to_le 4 (Zlen (sheet_footer b e kv)) ++ PARQUET_MAGIC)
    else Err ParquetError;
  parquet_kvs f := fst <$> sheet_parse f;
  parquet_num_rows f := (fst ∘ snd) <$> sheet_parse f;
|}.
#[local] Existing Instance sheet_parquet.

Lemma sheet_parse_tail body (b : Sheet) e kv :
  fits 32 (Zlen (sheet_footer b e kv)) →
  sheet_parse (body ++ sheet_footer b e kv ++ to_le 4 (Zlen (sheet_footer b e kv)) ++ PARQUET_MAGIC) =
    Ok (kv, (Zlen b.2, Zlen (sheet_bytes b e))).
Proof.
  intros Hf. unfold sheet_parse. rewrite parquet_footer_start_tail by done.
  cbn [mbind result_bind]. rewrite slice_mid.
  - cbn [mbind option_bind]. unfold sheet_footer. by rewrite deserialize_serialize.
  - done.
  - unfold PARQUET_MAGIC. len.
Qed.

#[local] Instance sheet_laws : ParquetLaws sheet_parquet.
Proof.
  refine {| row_groups _ b e := sheet_bytes b e; footer_thrift _ b e kv := sheet_footer b e kv |}.
  - intros p b e kv f. cbn. case_decide; [|done]. by intros [= <-].
  - intros body p b e kv Hf. cbn [parquet_kvs sheet_parquet]. rewrite sheet_parse_tail by done. eauto.
  - intros body p b e kv Hf. cbn [parquet_num_rows sheet_parquet]. by rewrite sheet_parse_tail.
Defined.

Definition pad_row (n : nat) (r : list (option string)) : list (option string) :=
  (λ i, c ← r !! i; c) <$> seq 0 n.
Fixpoint keep_by {A} (mask : list bool) (l : list A) : list A :=
  match mask, l with
  | k :: mask, x :: l => if (k : bool) then x :: keep_by mask l else keep_by mask l
  | _, _ => []
  end.

Definition sheet_arrow : @ArrowLib sheet_parquet := {|
  field_names (b : @RecordBatch sheet_parquet) := b.1.*1;
  column_type (b : @RecordBatch sheet_parquet) i := from_option snd (OtherType 0) (b.1 !! i);
  is_null (b : @RecordBatch sheet_parquet) i row := bool_decide (sheet_cell b i row = None);
  has_nulls _ _ := true;
  value_text (b : @RecordBatch sheet_parquet) i row := default "" (sheet_cell b i row);
  filter_record_batch (b : @RecordBatch sheet_parquet) mask :=
    if decide (length mask = length b.2) then Ok ((b.1, keep_by mask b.2) : @RecordBatch sheet_parquet)
    else Err ArrowError;
  with_columns (b : @RecordBatch sheet_parquet) cols :=
    if decide (Forall (column_valid (Zlen b.2)) cols) then
      Ok ((b.1 ++ ((λ c, (nc_name c, nc_type c)) <$> cols),
           (λ r, pad_row (length b.1) r ++ (scalar_text ∘ nc_value <$> cols)) <$> b.2) : @RecordBatch sheet_parquet)
    else Err ArrowError;
  json_f64 _ := None;
  f64_as_f32 _ := 0;
|}.
#[local] Existing Instance sheet_arrow.

Lemma kept_rows_shift i mask : kept_rows (i + 1) mask = Z.succ <$> kept_rows i mask.
Proof.
  revert i. induction mask as [|k mask IH]; intros i; [done|]. cbn [kept_rows]. rewrite IH.
  destruct k; [|done]. rewrite fmap_cons. f_equal.
Qed.

Lemma keep_by_lookup {A} mask (l : list A) k row :
  length mask = length l → kept_rows 0 mask !! k = Some row →
  0 ≤ row ∧ keep_by mask l !! k = l !! Z.to_nat row.
Proof.
  revert l k row. induction mask as [|b mask IH]; intros [|x l] k row Hl Hk; try done.
  injection Hl as Hl. cbn [kept_rows keep_by] in *. rewrite kept_rows_shift in Hk.
  assert (Hs : ∀ j, (Z.succ <$> kept_rows 0 mask) !! j = Some row →
    0 ≤ row ∧ keep_by mask l !! j = (x :: l) !! Z.to_nat row).
  { intros j Hj. rewrite list_lookup_fmap in Hj. destruct (kept_rows 0 mask !! j) as [r|] eqn:Ej; [|done].
    injection Hj as <-. destruct (IH l j r Hl Ej) as [Hr ->]. split; [lia|].
    by replace (Z.to_nat (Z.succ r)) with (Datatypes.S (Z.to_nat r)) by lia. }
  destruct b; [|by apply Hs]. destruct k as [|k]; [injection Hk as <-; done|]. cbn in Hk |- *. by apply Hs.
Qed.

Lemma keep_by_length {A} mask (l : list A) :
  length mask = length l → length (keep_by mask l) = length (kept_rows 0 mask).
Proof.
  revert l. induction mask as [|b mask IH]; intros [|x l] Hl; try done. injection Hl as Hl.
  cbn [kept_rows keep_by]. rewrite kept_rows_shift. destruct b; cbn [length]; rewrite length_fmap, IH by done; done.
Qed.

#[local] Instance sheet_arrow_laws : ArrowLaws.
Proof.
  constructor; cbn.
  - intros b. lia.
  - intros b cols Hv. rewrite decide_True by done. eexists. split; [done|]. cbn.
    split; [by rewrite length_fmap|]. split; [by rewrite fmap_app, <- list_fmap_compose|]. rewrite length_fmap. split.
    + intros i Hi. unfold same_column. cbn. rewrite lookup_app_l by done. split; [done|]. intros row.
      assert (E : sheet_cell (b.1 ++ ((λ c, (nc_name c, nc_type c)) <$> cols),
        (λ r, pad_row (length b.1) r ++ (scalar_text ∘ nc_value <$> cols)) <$> b.2) i row = sheet_cell b i row); [|by rewrite E].
      unfold sheet_cell. cbn. rewrite list_lookup_fmap. destruct (b.2 !! Z.to_nat row) as [r|]; [|done]. cbn.
      unfold pad_row. rewrite lookup_app_l by (rewrite length_fmap, length_seq; lia).
      rewrite list_lookup_fmap, lookup_seq_lt by lia. cbn. done.
    + intros i c Hc. rewrite lookup_app_r by lia. replace (length b.1 + i - length b.1)%nat with i by lia.
      rewrite list_lookup_fmap, Hc. cbn. split; [done|]. intros row Hrow.
      assert (E : sheet_cell (b.1 ++ ((λ c, (nc_name c, nc_type c)) <$> cols),
        (λ r, pad_row (length b.1) r ++ (scalar_text ∘ nc_value <$> cols)) <$> b.2) (length b.1 + i) row =
        scalar_text (nc_value c)).
      { unfold sheet_cell. cbn. rewrite list_lookup_fmap.
        destruct (lookup_lt_is_Some_2 b.2 (Z.to_nat row)) as [r ->]; [lia|]. cbn.
        rewrite lookup_app_r by (unfold pad_row; rewrite length_fmap, length_seq; lia).
        unfold pad_row. rewrite length_fmap, length_seq. replace (length b.1 + i - length b.1)%nat with i by lia.
        by rewrite list_lookup_fmap, Hc. }
      rewrite E. by destruct (nc_value c) as [[]|].
  - intros b cols Hv. rewrite decide_False by done. eauto.
  - intros b mask Hm. rewrite decide_True by lia. eexists. split; [done|]. cbn.
    split; [done|]. split; [by rewrite keep_by_length by lia|]. intros i k row Hk. split; [done|].
    assert (E : sheet_cell (b.1, keep_by mask b.2) i (Z.of_nat k) = sheet_cell b i row); [|by rewrite E].
    unfold sheet_cell. cbn. rewrite Nat2Z.id. destruct (keep_by_lookup mask b.2 k row) as [_ ->]; [lia|done|done].
Qed.
#[local] Existing Instances insertion_sort insertion_laws set_bitmap set_bitmap_laws entry_typed_dec.

(** An index is its numbered vectors. *)
#[local] Instance tree_vectors : Tree (list (Z * vec32)) := tree_list.
Definition sheet_index : @IndexLib sheet_parquet := {|
  IvfPqCodebook := unit; HnswIndex := list (Z * vec32); PQCodebook := unit;
  normalize_l2 v := v;
  compute_centroid_and_radius vs m := mk_Centroid (wrap 32 <$> default [] (head vs)) 7 m;
  HnswConfig_default := mk_HnswConfig 16 200 1000;
  recommend_ivf_pq _ := false;
  hnsw_build_bytes _ _ _ vs := Ok (serialize vs);
  hnsw_to_bytes i := Ok (serialize i);
  ivf_train_bytes _ _ _ _ := Err BincodeError;
  ivf_codebook_bytes _ _ _ := Err BincodeError;
  hnsw_from_bytes b := ok_or (deserialize b) BincodeError;
  quantize_to_f16 i := i;
  ivf_deserialize_from _ := Err BincodeError;
  hnsw_node_count i := Zlen i;
  build_fts_blob_from_batch _ (_ : @RecordBatch sheet_parquet) := Err FtsError;
|}.
#[local] Existing Instance sheet_index.

Definition sheet_read (f : bytes) : AilakeResult (Sheet * list vec32) :=
  '(_, (_, len)) ← sheet_parse f; ok_or (deserialize (take (Z.to_nat len) f)) ParquetError.
#[local] Instance sheet_query : QueryLib := {|
  ColumnFilter := unit;
  read_parquet r _ := sheet_read (r_bytes r);
  matching_row_ids _ _ := Ok ∅;
  hnsw_search _ _ _ _ := [];
  ivf_search _ _ _ := [];
  batch_slice b _ _ := b;
  FtsSearcher := unit;
  fts_from_blob _ := Err FtsError;
  fts_search _ _ _ := Ok [];
|}.

#[local] Instance sheet_compact : CompactLib := {|
  concat_batches (first : @RecordBatch sheet_parquet) bs :=
    Ret (if decide (Forall (λ b : Sheet, b.1 = first.1) bs) then Ok (first.1, mjoin ((λ b : Sheet, b.2) <$> bs))
         else Err ArrowError);
  hnsw_insert_node h id v := h ++ [(id, v)];
  compact_stats := {| parquet_metadata _ := None; stats_to_string _ := None |};
|}.

(** The named rows of a sheet, row by row. *)
Definition sheet_row (columns : list (string * DataType)) (r : list (option string)) : list (string * option string) :=
  imap (λ i name, (name, c ← r !! i; c)) columns.*1.
Lemma sheet_rows (b : RecordBatch) : named_rows b = sheet_row b.1 <$> b.2.
Proof.
  unfold named_rows. apply list_eq. intros k. rewrite !list_lookup_fmap.
  change (num_rows b) with (Zlen b.2). destruct (b.2 !! k) as [r|] eqn:Er.
  - rewrite lookup_seqZ_lt by (apply lookup_lt_Some in Er; lia). cbn. f_equal. unfold named_row, sheet_row.
    change (field_names b) with b.1.*1. apply imap_ext. intros i name _. f_equal. unfold cell. cbn.
    assert (sheet_cell b i (0 + Z.of_nat k) = (c ← r !! i; c)) as ->; [|by destruct (r !! i) as [[]|]].
    unfold sheet_cell. by rewrite Z.add_0_l, Nat2Z.id, Er.
  - rewrite lookup_seqZ_ge; [done|]. apply lookup_ge_None in Er. lia.
Qed.

#[local] Instance sheet_compact_laws : CompactLaws.
Proof.
  refine {| same_schema (b b' : @RecordBatch sheet_parquet) := b'.1 = b.1 |}.
  - intros b mask b'. cbn. case_decide; [|done]. by intros [= <-].
  - done.
  - done.
  - intros b1 b2 b3 -> ->. done.
  - intros b b' E. cbn. by rewrite E.
  - intros first bs b Hs. cbn. intros [= E]. rewrite decide_True in E by done. injection E as <-. split; [done|].
    rewrite sheet_rows. cbn [fst snd]. induction Hs as [|b bs Hb _ IH]; [done|].
    rewrite !fmap_cons, !mjoin_cons, fmap_app, IH, sheet_rows, Hb. done.
Defined.

#[local] Instance sheet_read_back : ReadBackLaws.
Proof.
  refine {| stored_vector _ v := v |}. intros p b e extra body f dim Ha _ _ _ _ _. exists b.
  rewrite list_fmap_id. split; [|done]. cbn in Ha. case_decide as Hf; [|done].
  unfold read_parquet, sheet_query, sheet_read. cbn [r_bytes]. unfold parquet_tail.
  change (footer_thrift p b e ?kv) with (sheet_footer b e kv). rewrite app_assoc, sheet_parse_tail by done.
  cbn [mbind result_bind]. rewrite <- app_assoc.
  change (row_groups p b e) with (sheet_bytes b e). rewrite Nat2Z.id, take_app_length.
  unfold sheet_bytes. by rewrite deserialize_serialize.
Defined.

(* ------------------------------------------------------------------ *)
(** ** A table of three files                                          *)
(* ------------------------------------------------------------------ *)

Definition sheet_of (labels : list string) : Sheet := ([("label", Utf8)], (λ l, [Some l]) <$> labels).
Definition data_file (labels : list string) (vs : list vec32) : bytes :=
  ok_value (write (writer_new policy) (sheet_of labels) vs).
Definition file_a : bytes := Eval vm_compute in data_file ["x"; "y"; "u"] [[1; 2]; [3; 4]; [5; 6]].
Definition file_b : bytes := Eval vm_compute in data_file ["z"; "w"] [[7; 8]; [9; 1]].
Definition file_c : bytes := Eval vm_compute in data_file ["v"] [[9; 9]].

(** The first row of [b] is deleted by position. *)
Definition dv_parts : bytes * Z * Z :=
  Eval vm_compute in default ([], 0, 0) (to_option (write_single_dv (foldl rb_insert rb_new [0]) 5)).
Definition entry_b : DataFileEntry :=
  set_deletion_vector (mk_dv "b.puffin" dv_parts.1.2 dv_parts.2 1) (new_file "b.parquet" 2).
(** Too large for the planner. *)
Definition entry_c : DataFileEntry :=
  mk_file "c.parquet" 1 5000 (Some "AAAA") (Some 1065353216) (Some 512) (Some 900) (Some "embedding")
    (Some 2) [] Ready None None None None None None (Some "{}") 0.

(** A deletion by value. *)
Definition label_delete : EqualityDeleteFile := mk_eqdel "label.delete" [1] 1 100 (Some ("label", ["x"])) 0.

Definition sheets_store : MemStore :=
  let s := (commit_snapshot root warehouse
    (new_snapshot 11 Append [new_file "a.parquet" 3; entry_c; entry_b] [label_delete] None) 2000 table_store).1 in
  mk_mem (<["a.parquet" := file_a]> (<["b.parquet" := file_b]> (<["c.parquet" := file_c]>
           (<["b.puffin" := dv_parts.1.1]> (mem_objects s))))) (mem_clock s) (mem_latency s).
Definition sheets_meta : IcebergMetadata := meta_of sheets_store.
#[local] Instance sheets_catalog : CatalogProvider MemStore := hadoop_provider root warehouse.

Definition sheets_files : list DataFileEntry :=
  match (cp_list_files None sheets_store).2 with Ret (Ok fs) => fs | _ => [] end.
Definition sheets_deletes : list EqualityDeleteFile :=
  match (cp_list_equality_deletes None sheets_store).2 with Ret (Ok ds) => ds | _ => [] end.
Definition two_smallest : CompactionConfig := mk_compaction 2 4000 Auto 2.
Definition executor : CompactionExecutor := executor_new policy.
Definition sheets_rows : list Row := default [] (rows_left_by_dvs (view sheets_store) policy sheets_files).

Lemma compaction_is_ready :
  compaction_ready root warehouse sheets_store 2 sheets_meta executor two_smallest "out" 77 12 sheets_files sheets_rows.
Proof.
  split.
  - exact I.
  - apply published_table. vm_compute. reflexivity.
  - vm_compute. reflexivity.
  - vm_compute. reflexivity.
  - apply (bool_decide_unpack _). by vm_compute.
  - assert (Hp : ∀ p, p ∈ ["a.parquet"; "b.parquet"; "c.parquet"; "b.puffin"] →
      data_path root (compacted_path "out" 77) p).
    { intros p Hp. split; [|set_unfold in Hp; destruct_or! Hp; subst; by vm_compute].
      intros o E. set_unfold in Hp. destruct o; destruct_or! Hp; subst; by vm_compute in E. }
    assert (Hf : ∀ f, f ∈ sheets_files → (df_path f ∈ ["a.parquet"; "b.parquet"; "c.parquet"; "b.puffin"]) ∧
      ∀ dv, df_deletion_vector f = Some dv → dv_path dv = "b.puffin").
    { apply Forall_forall. vm_compute.
      repeat constructor; try (by intros ? [= <-]); repeat (by left || right). }
    apply Forall_forall. intros f Hin. destruct (Hf f Hin) as [Hpath Hdv]. split; [by right|].
    split; [by apply Hp|]. intros dv Hd. rewrite (Hdv dv Hd). split; [apply Hp; by do 3 right; left|].
    apply (bool_decide_unpack _). by vm_compute.
  - split; [|by right]. intros []; by vm_compute.
  - exists (sheet_of []). split; [apply (bool_decide_unpack _); by vm_compute|].
    assert (E : plan two_smallest sheets_files = [default entry_c (sheets_files !! 0%nat); default entry_c (sheets_files !! 2%nat)])
      by (vm_compute; reflexivity).
    rewrite E. repeat constructor; intros d b e Hd Hr; vm_compute in Hd; injection Hd as <-;
      vm_compute in Hr; by injection Hr as <- <-.
  - by vm_compute.
  - apply Forall_forall. intros r _. done.
  - intros _ E. by vm_compute in E.
  - intros tc merged E. vm_compute in E. injection E as <- <-. split.
    + vm_compute. intros Hin. by apply list_elem_of_singleton in Hin.
    + by vm_compute.
    + by vm_compute.
    + apply (bool_decide_unpack _). by vm_compute.
    + constructor.
    + vm_compute; reflexivity.
    + vm_compute; reflexivity.
    + vm_compute; reflexivity.
    + vm_compute; reflexivity.
    + vm_compute; reflexivity.
    + vm_compute; reflexivity.
  - by vm_compute.
Qed.

(* ------------------------------------------------------------------ *)
(** ** Compacting it                                                   *)
(* ------------------------------------------------------------------ *)

Definition two_small : list DataFileEntry := [new_file "a.parquet" 3; new_file "b.parquet" 2].

Lemma plan_selects_witness :
  ∃ left, plan two_smallest sheets_files ++ left ≡ₚ sheets_files ∧
    Zlen (plan two_smallest sheets_files) ≤ Z.max 0 (max_files_per_pass two_smallest) ∧
    (∀ f, f ∈ plan two_smallest sheets_files → is_foreign f = true ∨
       df_file_size_bytes f < target_file_size_bytes two_smallest ∧
       min_files_to_compact two_smallest ≤ Zlen (native_candidates two_smallest sheets_files)) ∧
    ∀ f g, f ∈ plan two_smallest sheets_files → g ∈ left →
      (is_foreign g = true → is_foreign f = true) ∧
      (is_foreign f = is_foreign g → df_file_size_bytes f ≤ df_file_size_bytes g).
Proof. pose proof (plan_selects two_smallest sheets_files) as X. exact X. Defined.

Lemma compaction_converges_witness :
  plan two_smallest (passes (length sheets_files + foreign_count sheets_files) two_smallest
    (λ _, new_file "merged.parquet" 9) sheets_files) = [].
Proof. apply compaction_converges; [done|done|]. intros _. reflexivity. Defined.

Definition keyed_files : list DataFileEntry :=
  [with_lineage (new_file "a.parquet" 3) None (Some "k1") None; new_file "b.parquet" 2;
   with_lineage (new_file "c.parquet" 2) None (Some "k2") None].
Definition keyed_merged : DataFileEntry :=
  with_lineage (new_file "m.parquet" 5) None (merge_batch_ids (take 2 keyed_files)) None.

Lemma merge_keeps_keys_witness :
  already_written (next_files (take 2 keyed_files) keyed_merged keyed_files) "k1" = already_written keyed_files "k1".
Proof.
  apply (merge_keeps_keys keyed_files (take 2 keyed_files) (drop 2 keyed_files)).
  - apply (bool_decide_unpack _). by vm_compute.
  - by rewrite take_drop.
  - reflexivity.
Defined.


(** The merged file of the pass. *)
Definition sheets_after : MemStore * outcome AilakeError (option DataFileEntry) :=
  run executor two_smallest "out" 77 12 3000 sheets_store.
Definition sheets_merged : DataFileEntry :=
  match sheets_after.2 with Ret (Ok (Some f)) => f | _ => new_file "" 0 end.

Lemma compaction_replaces_witness :
  let '(s', o) := run executor two_smallest "out" 77 12 3000 sheets_store in
  o = Ret (Ok (Some sheets_merged)) →
  ∃ fs', (cp_list_files None s').2 = Ret (Ok fs') ∧
    file_key <$> fs' = file_key <$> next_files (plan two_smallest sheets_files) sheets_merged sheets_files ∧
    (cp_list_equality_deletes None s').2 = Ret (Ok []) ∧
    ∀ pv f, f ∈ in_partition (Some pv) fs' → df_path f ≠ df_path sheets_merged.
Proof.
  pose proof (compaction_replaces root warehouse sheets_store 2 sheets_meta executor two_smallest "out" 77 12
    3000 sheets_files sheets_rows sheets_merged compaction_is_ready) as X. exact X.
Defined.

(** Paths, first row ids and row counts of a listing. *)
Definition listing (s : MemStore) : list (string * option Z * Z) :=
  match (cp_list_files None s).2 with
  | Ret (Ok fs) => (λ f, (df_path f, df_first_row_id f, df_record_count f)) <$> fs
  | _ => []
  end.

(** The pass succeeds; the untouched file starts at row id 3, which the merged file,
    four rows from id 0, has given to its last row as well. *)
Example compaction_runs :
  (sheets_after.2, listing sheets_after.1) =
  (Ret (Ok (Some sheets_merged)), [("c.parquet", Some 3, 1); ("out/compacted-77.parquet", Some 0, 4)]).
Proof. vm_compute. reflexivity. Qed.

(** A deletion committed while the files are being merged is lost: the row it hid is
    in the merged file. *)
Definition delete_during_merge : MemStore * option (list DataFileEntry * DataFileEntry) * outcome AilakeError unit :=
  let '(s1, o1) := run_merge executor two_smallest "out" 77 sheets_store in
  let '(s2, o2) := delete_rows "a.parquet" [1] 21 2500 s1 in
  match o1 with
  | Ret (Ok (Some (tc, merged))) => ((run_commit tc merged 12 3000 s2).1, Some (tc, merged), o2)
  | _ => (s2, None, o2)
  end.
Definition rows_of (s : MemStore) : option (list Row) :=
  match (cp_list_files None s).2 with Ret (Ok fs) => rows_left_by_dvs (view s) policy fs | _ => None end.

Definition has_row (r : Row) (s : MemStore) : bool :=
  existsb (λ r', bool_decide (r' = r)) (default [] (rows_of s)).

Example deleted_during_merge_revived :
  let y : Row := ([("label", Some "y")], [3; 4]) in
  (delete_during_merge.2, has_row y (delete_rows "a.parquet" [1] 21 2500 sheets_store).1,
   has_row y delete_during_merge.1.1) = (Ret (Ok tt), false, true).
Proof. vm_compute. reflexivity. Qed.
