(* ===== verification/WriterExamples.v ===== *)
(** * Writing sessions on a concrete table

    Sessions and index jobs on the in-memory table of sheets: the witnesses of the
    theorems about the writer and the jobs, and runs that show what goes wrong. *)

From S2P Require Import Prelude Core Footer FileFormat FileTheorems FileExamples Store Effects.
From S2P Require Import Avro Manifest ManifestTheorems ManifestExamples Json Puffin Catalog CatalogTheorems.
From S2P Require Import HadoopTheorems HadoopExamples ArrowSchema Arrow Deletes DeletesTheorems Floats Ranking Bloom Bm25 Search.
From S2P Require Import QueryExamples Compaction Jobs Writer Deferred CompactionTheorems CompactionRows CompactionSafety.
From S2P Require Import LocalWp WriterTheorems WriterSafety JobTheorems CompactionExamples.

#[local] Existing Instances sheet_parquet sheet_laws sheet_arrow sheet_arrow_laws sheet_index sheet_query sheet_compact
  sheet_compact_laws sheet_read_back ascii_text no_ln insertion_sort insertion_laws set_bitmap set_bitmap_laws
  entry_typed_dec.

#[local] Instance sheet_writer : WriterLib := {|
  batch_schema (b : @RecordBatch sheet_parquet) := (λ c, mk_afield c.1 ArrowTy.Utf8 true) <$> (b.1 : list (string * DataType));
  train_codebook _ _ _ := Err BincodeError;
  bloom_bits n := n;
|}.

(** A record without several columns is its serialized fields. *)
#[local] Instance tree_algorithm : Tree IndexAlgorithm.
Proof.
  refine (tree_iso (λ a, match a with Hnsw => 0 | IvfPq => 1 | MultiHnsw => 2 end)
    (λ x, Some (if x =? 0 then Hnsw else if x =? 1 then IvfPq else MultiHnsw)) _).
  by intros [].
Defined.

#[local] Instance plain_jobs : JobSerde := {|
  record_to_vec r :=
    match jr_ivf_config r, jr_multi_policies r with
    | None, None => Some (serialize
        ((jr_id r, jr_table r, jr_file_path r, jr_algorithm r, jr_status r, jr_progress r, jr_attempts r),
         (jr_created_at r, jr_updated_at r, jr_error r, if jr_cancel_requested r then 1 else 0, jr_payload_path r)))
    | _, _ => None
    end;
  record_from_slice b :=
    '((i, t, f, a, s, p, n), (c, u, e, x, y)) ← deserialize b;
    Some (mk_job i t f a None s p n c u e (x =? 1) None y);
  payload_to_vec _ := None;
  payload_from_slice _ := None;
  error_text _ := "failed";
|}.
#[local] Instance plain_jobs_laws : JobSerdeLaws.
Proof.
  split; [|done]. intros r b Hb. unfold record_to_vec, plain_jobs in Hb.
  destruct (jr_ivf_config r) as [c|] eqn:Ec; [done|]. destruct (jr_multi_policies r) eqn:Em; [done|].
  injection Hb as <-. unfold record_from_slice, plain_jobs. rewrite deserialize_serialize.
  destruct r; cbn in *; subst. by destruct jr_cancel_requested.
Qed.

#[local] Instance sessions_catalog : CatalogProvider MemStore := hadoop_provider root warehouse.
#[local] Instance memory_fences : FencedLocks MemStore := fenced_defaults.
#[local] Instance anywhere : LocationCheck := {| validate_location _ := Ok tt |}.

(* ------------------------------------------------------------------ *)
(** ** Sessions                                                        *)
(* ------------------------------------------------------------------ *)

Definition a_table : TableIdent := mk_ident "db" "docs".
Definition new_writer (session : string) : TableWriter :=
  with_parent_snapshot (im_current_snapshot_id sheets_meta) (tw_new policy a_table session).
Definition more_labels : RecordBatch := sheet_of ["p"; "q"].
Definition more_vectors : list vec32 := [[2; 1]; [4; 3]].
Definition a_call (labels : list string) (vs : list vec32) (mode : WriteMode)
    : RecordBatch * list vec32 * WriteMode := (sheet_of labels : RecordBatch, vs, mode).
Definition two_calls : list (RecordBatch * list vec32 * WriteMode) :=
  [(more_labels, more_vectors, Indexed None); a_call ["r"] [[6; 5]] (Background "j")].

Definition a_session : TableWriter * list IndexTask * MemStore * outcome AilakeError Z :=
  write_session root warehouse two_calls 12 3000 (new_writer "s", [], sheets_store).

Lemma under_root o : ∃ q, obj_path root o = String (Ascii.ascii_of_nat 119) q.
Proof. rewrite obj_path_parts. change root with "wh/ns/docs". by eexists. Qed.

(** The paths of a session are not the catalog's. *)
Lemma session_paths_apart session q : session_path session q → ∀ o, q ≠ obj_path root o.
Proof. intros Hq o E. destruct (under_root o) as [q' Hq']. rewrite Hq' in E. destruct Hq as [->|[[n ->]|[n ->]]]; by vm_compute in E. Qed.

(** The paths and vectors of a listing are these. *)
Definition listed_paths (ps : list string) (fs : list DataFileEntry) : Prop :=
  Forall (λ f, (df_path f ∈ ps) ∧ ∀ dv, df_deletion_vector f = Some dv → dv_path dv ∈ ps) fs.

Lemma clear_by session ps fs :
  Forall (λ q, ¬ session_path session q ∧ ∀ o, q ≠ obj_path root o) ps → listed_paths ps fs →
  Forall (clear_of root session) fs.
Proof.
  rewrite Forall_forall. intros Hps Hfs. eapply Forall_impl; [exact Hfs|].
  intros f [Hp Hdv] q [->|(dv & Hd & ->)]; apply Hps; [done|]. by apply Hdv.
Qed.

Ltac apart :=
  repeat (apply Forall_cons; split; [split;
    [intros [E|[[n E]|[n E]]]; by vm_compute in E
    |intros o E; destruct (under_root o) as [q' Hq']; rewrite Hq' in E; by vm_compute in E]|]); by apply Forall_nil.
Ltac listed :=
  vm_compute;
  repeat (apply Forall_cons; split; [split;
    [repeat ((by left) || right)
    |intros ? E; first [discriminate E | injection E as <-; cbn; repeat ((by left) || right)]]|]); by apply Forall_nil.

Definition sheet_paths : list string := ["a.parquet"; "b.parquet"; "c.parquet"; "b.puffin"].
Lemma sheets_clear session : Forall (clear_of root session) sheets_files.
Proof. apply (clear_by _ sheet_paths); [apart|listed]. Qed.

(** The fields of [commit_input] by evaluation. *)
Ltac session_input :=
  split; [ vm_compute; repeat (apply not_elem_of_cons; split; [done|]); apply not_elem_of_nil | by vm_compute | by vm_compute
         | apply (bool_decide_unpack _); by vm_compute | constructor | vm_compute; reflexivity.. ].

Lemma schema_checked meta sn :
  match ns_iceberg_schema sn with
  | None => true
  | Some u => forallb json_wf (su_fields u) && negb (is_none (schema_patch_of meta u)) &&
      negb (is_none (patch_first_schema (su_fields u) (im_schemas meta)))
  end = true → schema_update_ok meta sn.
Proof.
  unfold schema_update_ok. destruct (ns_iceberg_schema sn) as [u|]; [|done].
  intros [[Hf Hp]%andb_prop Hs]%andb_prop. split; [|split].
  - apply Forall_forall. intros j Hj. rewrite forallb_forall in Hf. by apply Hf, list_elem_of_In.
  - by destruct (schema_patch_of meta u).
  - by destruct (patch_first_schema _ _).
Qed.

(** [session_ready] by evaluation, on the snapshot [sn] that the session commits. *)
Ltac session_checked clear sn snap :=
  split; [exact I|apply published_table; vm_compute; reflexivity|vm_compute; reflexivity..
         |reflexivity|by vm_compute|exact clear|apply session_paths_apart|reflexivity|done
         |apply (bool_decide_unpack _); by vm_compute
         |let m := fresh "m" in let Hm := fresh "Hm" in let w' := fresh "w" in let Hrun := fresh "Hrun" in
          intros [m ? ?] ? w' ? ? [_ Hm] Hrun _; cbn in Hm; subst m;
          assert (commit_snapshot_of w' snap = sn) as -> by
            (apply (f_equal (λ x, x.1.1.1)) in Hrun; cbn [fst] in Hrun; rewrite <- Hrun; vm_compute; reflexivity);
          clear Hrun; split; [session_input|apply schema_checked; by vm_compute]
         |by vm_compute].

Lemma two_calls_ready :
  session_ready root warehouse sheets_store 2 sheets_meta (new_writer "s") two_calls 12 sheets_files sheets_deletes sheets_rows.
Proof. session_checked (sheets_clear "s") (commit_snapshot_of a_session.1.1.1 12) 12. Qed.

Lemma session_adds_rows_witness :
  session_ready root warehouse sheets_store 2 sheets_meta (new_writer "s") two_calls 12 sheets_files sheets_deletes sheets_rows ∧
  let '((_, s'), o) := write_session root warehouse two_calls 12 3000 (new_writer "s", [], sheets_store) in
  let added := sheets_rows ++ new_rows policy two_calls in
  ∃ fs' rows', (cp_list_files None s').2 = Ret (Ok fs') ∧
    rows_left_by_dvs (view s') policy fs' = Some rows' ∧
    (rows' = sheets_rows ∨ rows' = added) ∧ (∀ r, o = Ret (Ok r) → rows' = added) ∧
    (cp_list_equality_deletes None s').2 = Ret (Ok sheets_deletes) ∧
    ∀ sid, sid ∈ snap_ids sheets_meta → (cp_list_files (Some sid) s').2 = (cp_list_files (Some sid) sheets_store).2.
Proof.
  split; [exact two_calls_ready|].
  pose proof (session_adds_rows root warehouse sheets_store 2 sheets_meta (new_writer "s") two_calls 12 3000
    sheets_files sheets_deletes sheets_rows two_calls_ready) as X. exact X.
Defined.

(** The session returns. *)
Example session_returns : a_session.2 = Ret (Ok 12).
Proof. vm_compute. reflexivity. Qed.

(* ------------------------------------------------------------------ *)
(** ** Retries                                                         *)
(* ------------------------------------------------------------------ *)

Definition keyed_call : list (RecordBatch * list vec32 * WriteMode) := [(more_labels, more_vectors, Indexed (Some "k"))].

Definition keyed_snapshot : NewSnapshot :=
  commit_snapshot_of (io_map (write_call root warehouse) keyed_call (new_writer "s", [], sheets_store)).1.1.1 12.

Lemma keyed_ready : session_ready root warehouse sheets_store 2 sheets_meta (new_writer "s") keyed_call 12 sheets_files sheets_deletes sheets_rows.
Proof. session_checked (sheets_clear "s") keyed_snapshot 12. Qed.

(** The table after the first session, and a second one on it. *)
Definition first_try : TableWriter * list IndexTask * MemStore * outcome AilakeError Z :=
  idempotent_session root warehouse more_labels more_vectors "k" 12 3000 (new_writer "s", [], sheets_store).
Definition tried_store : MemStore := first_try.1.2.
Definition tried_meta : IcebergMetadata := meta_of tried_store.
Definition tried_files : list DataFileEntry :=
  match (cp_list_files None tried_store).2 with Ret (Ok fs) => fs | _ => [] end.
Definition tried_rows : list Row := default [] (rows_left_by_dvs (view tried_store) policy tried_files).
Definition next_writer : TableWriter := with_parent_snapshot (Some 12) (tw_new policy a_table "t").
Definition retried_snapshot : NewSnapshot :=
  commit_snapshot_of (io_map (write_call root warehouse) keyed_call (next_writer, [], tried_store)).1.1.1 13.

Lemma tried_clear : Forall (clear_of root "t") tried_files.
Proof. apply (clear_by _ (sheet_paths ++ ["data/part-s-00000.parquet"])); [apart|listed]. Qed.

Lemma tried_ready : session_ready root warehouse tried_store 3 tried_meta next_writer keyed_call 13 tried_files sheets_deletes tried_rows.
Proof. session_checked tried_clear retried_snapshot 13. Qed.

Lemma three_parts {A B C} (x : A * B * C) : x = (x.1.1, x.1.2, x.2).
Proof. by destruct x as [[]]. Qed.

Lemma retry_writes_once_witness :
  session_ready root warehouse sheets_store 2 sheets_meta (new_writer "s") keyed_call 12 sheets_files sheets_deletes sheets_rows ∧
  session_ready root warehouse tried_store 3 tried_meta next_writer keyed_call 13 tried_files sheets_deletes tried_rows ∧
  let '(_, s2, o2) := idempotent_session root warehouse more_labels more_vectors "k" 13 4000 (next_writer, [], tried_store) in
  ∀ r, o2 = Ret (Ok r) →
  ∃ fs2, (cp_list_files None s2).2 = Ret (Ok fs2) ∧
    rows_left_by_dvs (view s2) policy fs2 = Some (sheets_rows ++ call_rows policy (more_labels, more_vectors, Indexed (Some "k"))).
Proof.
  split; [exact keyed_ready|]. split; [exact tried_ready|].
  pose proof (retry_writes_once root warehouse sheets_store 2 sheets_meta (new_writer "s") more_labels more_vectors "k"
    12 3000 sheets_files sheets_deletes sheets_rows tried_store first_try.1.1 first_try.2 3 tried_meta next_writer 13 4000
    tried_files sheets_deletes tried_rows keyed_ready ltac:(vm_compute; reflexivity) ltac:(vm_compute; reflexivity)
    (three_parts first_try) tried_ready eq_refl) as X.
  exact X.
Defined.

(** Both sessions return, and the rows of the batch are there once. *)
Example retried : first_try.2 = Ret (Ok 12) ∧ Zlen tried_rows = Zlen sheets_rows + 2 ∧
  (idempotent_session root warehouse more_labels more_vectors "k" 13 4000 (next_writer, [], tried_store)).2 = Ret (Ok 12).
Proof. vm_compute. done. Qed.

(* ------------------------------------------------------------------ *)
(** ** What a session gets wrong                                       *)
(* ------------------------------------------------------------------ *)

Lemma later_column_takes_vector_id_witness :
  let u := arrow_schema_to_iceberg_update
    (merge_schema (Some [mk_afield "label" ArrowTy.Utf8 true]) [mk_afield "label" ArrowTy.Utf8 true; mk_afield "lang" ArrowTy.Utf8 true])
    policy [] in
  (2, "embedding") ∈ stamped_fields [mk_afield "label" ArrowTy.Utf8 true] policy ∧ (JInt 2, JStr "lang") ∈ field_pairs (su_fields u).
Proof.
  pose proof (later_column_takes_vector_id [mk_afield "label" ArrowTy.Utf8 true]
    [mk_afield "label" ArrowTy.Utf8 true; mk_afield "lang" ArrowTy.Utf8 true] (mk_afield "lang" ArrowTy.Utf8 true)
    policy [] [] eq_refl ltac:(vm_compute; reflexivity) ltac:(vm_compute; reflexivity)) as X. exact X.
Defined.

(** Two vector columns of their own. *)
Definition image_policy : VectorStoragePolicy :=
  {| column_name := "image"; policy_dim := 2; policy_metric := Cosine; policy_precision := F16;
     pq := None; keep_raw_for_reranking := true; pre_normalize := false; hnsw_m := Some 16;
     hnsw_ef_construction := None; ivf_residual := false; embedding_model := None;
     modality := None; partition_by := None; partition_value := None;
     partition_column_type := None; partition_fields := [] |}.
Definition two_columns : list MultiVectorBatch := [mk_multi policy [[1; 2]; [3; 4]]; mk_multi image_policy [[7; 8]; [9; 9]]].
Definition multi_write : TableWriter * list IndexTask * MemStore * outcome AilakeError unit :=
  write_batch_multi more_labels two_columns (new_writer "s", [], sheets_store).

Lemma multi_extra_centroids_witness :
  multi_write.2 = Ret (Ok tt) ∧
  ∃ f, tw_pending_files multi_write.1.1.1 = tw_pending_files (new_writer "s") ++ [f] ∧
    evi_column <$> df_extra_vector_indexes f = (column_name ∘ mb_policy) <$> tail two_columns ∧
    Forall (λ x, evi_centroid_b64 x = df_centroid_b64 f ∧ evi_radius x = df_radius f) (df_extra_vector_indexes f).
Proof.
  assert (E : multi_write.2 = Ret (Ok tt)) by (vm_compute; reflexivity). split; [exact E|].
  pose proof (multi_extra_centroids sheets_store (new_writer "s") [] more_labels two_columns I) as X.
  change (write_batch_multi more_labels two_columns (new_writer "s", [], sheets_store)) with multi_write in X.
  rewrite (three_parts multi_write), (surjective_pairing multi_write.1.1) in X. exact (X E).
Defined.

(** The centroid that the deferred write records for the second column is another. *)
Definition extra_centroids (w : TableWriter) : list (list (option string)) :=
  (λ f, evi_centroid_b64 <$> df_extra_vector_indexes f) <$> tw_pending_files w.
Example deferred_centroid_differs :
  let centroid vs := Some (encode_centroid_b64 (compute_centroid_and_radius vs Cosine)) in
  extra_centroids multi_write.1.1.1 = [[centroid [[1; 2]; [3; 4]]]] ∧
  extra_centroids (write_batch_multi_deferred more_labels two_columns "j" (new_writer "s", [], sheets_store)).1.1.1 =
    [[centroid [[7; 8]; [9; 9]]]].
Proof. vm_compute. done. Qed.

(** A write that fails at the statistics has staged its file: the commit adds the rows. *)
Definition failing_write : TableWriter * list IndexTask * MemStore * outcome AilakeError unit :=
  tw_write_batch more_labels more_vectors (with_bm25 "label" (new_writer "s"), [], sheets_store).
Example failed_write_is_committed :
  failing_write.2 = Ret (Err BincodeError) ∧
  (tw_commit failing_write.1.1.1 12 3000 failing_write.1.2).2 = Ret (Ok 12) ∧
  Zlen (default [] (rows_of (tw_commit failing_write.1.1.1 12 3000 failing_write.1.2).1)) = Zlen sheets_rows + 2.
Proof. vm_compute. done. Qed.

(** Within a session an idempotent write is not: the pending files are not looked at. *)
Example twice_in_a_session :
  let twice := write_batch_idempotent more_labels more_vectors "k";; write_batch_idempotent more_labels more_vectors "k";;
               w ← this; on_store (tw_commit w 12 3000) in
  let '(_, s, o) := twice (new_writer "s", [], sheets_store) in
  o = Ret (Ok 12) ∧ Zlen (default [] (rows_of s)) = Zlen sheets_rows + 4.
Proof. vm_compute. done. Qed.

(* ------------------------------------------------------------------ *)
(** ** Index jobs                                                      *)
(* ------------------------------------------------------------------ *)

Definition deferred_write : TableWriter * list IndexTask * MemStore * outcome AilakeError unit :=
  write_batch_deferred more_labels more_vectors "j1" (new_writer "s", [], sheets_store).
Definition deferred_task : IndexTask :=
  default (mk_task "" policy "" Hnsw None None) (head deferred_write.1.1.2).
Definition committed_store : MemStore := (tw_commit deferred_write.1.1.1 12 3000 deferred_write.1.2).1.
Definition to_string_nat (n : nat) : string := to_string (Z.of_nat n).
Definition outcome_unit {A} (o : outcome AilakeError A) : outcome AilakeError unit := _ ← o; Ret (Ok tt).
Definition build_ids (round n : nat) : Z := 100 + Z.of_nat (round * 1000 + n).

#[local] Instance memory_fence_laws : FencedLaws MemStore.
Proof. by apply fenced_defaults_laws. Qed.

(** The record of a job is not an object of the catalog. *)
#[local] Instance job_frame id : CatalogFrame (S := MemStore) (no_fewer id).
Proof.
  apply hadoop_frame; [apply _|]. intros m m' Hag. apply no_fewer_same, Hag. intros [o E].
  destruct (under_root o) as [q Hq]. rewrite Hq in E. by vm_compute in E.
Qed.

(** Three rounds are enough. *)
Lemma worker_stops_witness :
  attempts_at committed_store.(mem_objects) (it_job deferred_task) = Some 0 ∧
  let '(s', o) := run_task 3 build_ids deferred_task None committed_store in
  store_inv s' ∧ ((∃ cell', o = Ret (Ok (true, cell'))) ∨ o = Panic).
Proof.
  assert (E : attempts_at committed_store.(mem_objects) (it_job deferred_task) = Some 0) by (vm_compute; reflexivity).
  split; [exact E|].
  pose proof (worker_stops deferred_task ltac:(by vm_compute) 3 build_ids committed_store None I ltac:(lia)
    ltac:(intros n Hn; change (view committed_store) with (mem_objects committed_store) in Hn; rewrite E in Hn;
          injection Hn as <-; lia)) as X. exact X.
Defined.

(** The state of the files of a listing. *)
Definition statuses (s : MemStore) : list (string * IndexStatus) :=
  match (cp_list_files None s).2 with Ret (Ok fs) => (λ f, (df_path f, df_index_status f)) <$> fs | _ => [] end.

(** A deferred build after the commit makes the file ready. *)
Example deferred_build :
  let '(s', o) := run_task 4 build_ids deferred_task None committed_store in
  o = Ret (Ok (true, None)) ∧
  statuses s' = [("a.parquet", Ready); ("c.parquet", Ready); ("b.parquet", Ready); ("data/part-s-00000.parquet", Ready)].
Proof. vm_compute. done. Qed.

(** A build that is done before the writer commits finds a table with a snapshot, so it
    does not wait; its patches change nothing, and it counts as succeeded. *)
Example patch_before_commit :
  let '(s', o) := patch_ready 2 (build_ids 0) "data/part-s-00000.parquet" (mark_ready 0 0) deferred_write.1.2 in
  o = Ret (Ok tt) ∧ statuses s' = [("a.parquet", Ready); ("c.parquet", Ready); ("b.parquet", Ready)].
Proof. vm_compute. done. Qed.

(** Then the commit lists the file as being indexed, and no reopening builds it. *)
Definition succeeded_early : MemStore :=
  (with_handle (try_claim "j1";; succeed "j1";; release_claim "j1") deferred_write.1.2).1.
Example stranded_file :
  let s := (tw_commit deferred_write.1.1.1 12 3000 succeeded_early).1 in
  let '(tasks, s', o) := create_or_open policy a_table 3 "t" "u" to_string_nat ([], s) in
  length tasks = 0%nat ∧ outcome_unit o = Ret (Ok tt) ∧
  statuses s' = [("a.parquet", Ready); ("c.parquet", Ready); ("b.parquet", Ready); ("data/part-s-00000.parquet", Indexing)].
Proof. vm_compute. done. Qed.

(* ------------------------------------------------------------------ *)
(** ** A lost payload                                                  *)
(* ------------------------------------------------------------------ *)

(** The deferred write of two columns fails at its payload, after its record. *)
Definition lost_payload : TableWriter * list IndexTask * MemStore * outcome AilakeError unit :=
  write_batch_multi_deferred more_labels two_columns "j2" (new_writer "s", [], sheets_store).
Definition lost_record : IndexJobRecord :=
  default (mk_job "" "" "" Hnsw None "" 0 0 0 0 None false None None) (stored_job (mem_objects lost_payload.1.2) "j2").

Lemma lost_payload_blocks_witness :
  stored_job (view lost_payload.1.2) (jr_id lost_record) = Some lost_record ∧
  let '(_, s', o) := resume_job policy lost_record ([], lost_payload.1.2) in
  view s' = view lost_payload.1.2 ∧ ∃ e, o = Ret (Err e).
Proof.
  assert (E : stored_job (view lost_payload.1.2) (jr_id lost_record) = Some lost_record).
  { assert (jr_id lost_record = "j2") as -> by (vm_compute; reflexivity).
    assert (Hs : is_none (stored_job (mem_objects lost_payload.1.2) "j2") = false) by (vm_compute; reflexivity).
    unfold lost_record. change (view lost_payload.1.2) with (mem_objects lost_payload.1.2).
    by destruct (stored_job (mem_objects lost_payload.1.2) "j2"). }
  split; [exact E|].
  pose proof (lost_payload_blocks lost_payload.1.2 policy lost_record [] I E ltac:(vm_compute; reflexivity)
    ltac:(vm_compute; reflexivity) ltac:(by intros p Hp; vm_compute in Hp)) as X. exact X.
Defined.

(** The table can no longer be opened. *)
Example table_blocked :
  lost_payload.2 = Ret (Err StoreError) ∧
  outcome_unit (create_or_open policy a_table 3 "t" "u" to_string_nat ([], lost_payload.1.2)).2 = Ret (Err StoreError).
Proof. vm_compute. done. Qed.
