(* ===== verification/MemTableExamples.v ===== *)
(** * Buffers on a concrete table

    The buffers of [MemTable] on the in-memory table of sheets: the witnesses of their
    theorems, and a run that loses rows. *)

From Stdlib Require Import Sorting.Sorted.
From S2P Require Import Prelude Core Footer FileFormat FileTheorems FileExamples Store Effects.
From S2P Require Import Avro Manifest ManifestTheorems ManifestExamples Json Puffin Catalog CatalogTheorems.
From S2P Require Import HadoopTheorems HadoopExamples ArrowSchema Arrow Deletes DeletesTheorems Floats Ranking Bloom Bm25 Search.
From S2P Require Import QueryExamples Compaction Jobs Writer Deferred CompactionTheorems CompactionRows CompactionSafety.
From S2P Require Import LocalWp WriterTheorems WriterSafety JobTheorems CompactionExamples WriterExamples MemTable MemTableTheorems.

#[local] Existing Instances sheet_parquet sheet_laws sheet_arrow sheet_arrow_laws sheet_index sheet_query sheet_compact
  sheet_compact_laws sheet_read_back ascii_text no_ln insertion_sort insertion_laws set_bitmap set_bitmap_laws
  entry_typed_dec sheet_writer plain_jobs sessions_catalog.

(** A buffer that flushes at three rows, with a micro-batch of two waiting. *)
Definition three_rows : MemTableConfig := mk_mtconfig (2 ^ 40) 3 30000.
Definition waiting : MemTableWriter := push_rows policy more_labels more_vectors (mt_new 0).
Definition the_ids : FlushIds := mk_flush_ids "s" "j" 12 5 3000.
Definition third_batch : RecordBatch := sheet_of ["r"].
Definition third_vectors : list vec32 := [[6; 5]].
Definition third_op : BufferOp := Insert third_batch third_vectors.
Definition filled : MemTableWriter := pushed policy third_op waiting.

Definition all_merged : RecordBatch :=
  match merged_batch filled with Ret (Ok b) => b | _ => more_labels end.
Definition all_calls : list (RecordBatch * list vec32 * WriteMode) := [flush_call filled the_ids all_merged].
Definition all_snapshot : NewSnapshot :=
  commit_snapshot_of (io_map (write_call root warehouse) all_calls (tw_new policy a_table "s", [], sheets_store)).1.1.1 12.

Lemma all_ready :
  session_ready root warehouse sheets_store 2 sheets_meta (tw_new policy a_table "s") all_calls 12 sheets_files sheets_deletes sheets_rows.
Proof. session_checked (sheets_clear "s") all_snapshot 12. Qed.

Lemma third_ready :
  flush_ready root warehouse policy a_table sheets_store 2 sheets_meta filled the_ids sheets_files sheets_deletes sheets_rows.
Proof.
  split; [vm_compute; reflexivity|vm_compute; reflexivity| |].
  - apply Forall_cons; split; [reflexivity|]. apply Forall_cons; split; [reflexivity|]. by apply Forall_nil.
  - intros b Hb. assert (b = all_merged) as ->; [|exact all_ready]. unfold all_merged. by rewrite Hb.
Qed.

Definition third_insert : MemTableWriter * list IndexTask * MemStore * outcome AilakeError (option Z) :=
  run_op root warehouse three_rows policy a_table third_op the_ids (waiting, [], sheets_store).

Lemma buffer_accounts_witness :
  flush_ready root warehouse policy a_table sheets_store 2 sheets_meta filled the_ids sheets_files sheets_deletes sheets_rows ∧
  let '((mt', _, s'), o) := third_insert in accounted root warehouse policy sheets_rows filled s' mt' o.
Proof.
  split; [exact third_ready|].
  pose proof (buffer_accounts root warehouse three_rows policy a_table third_op sheets_store 2 sheets_meta waiting []
    the_ids sheets_files sheets_deletes sheets_rows third_ready) as X. exact X.
Defined.

(** The third row makes it flush: the table has all three, the buffer none. *)
Example third_insert_flushes :
  let '((mt', ts', s'), o) := third_insert in
  o = Ret (Ok (Some 12)) ∧ buffered_rows mt' = 0 ∧ length ts' = 1%nat ∧
  Zlen (default [] (rows_of s')) = Zlen sheets_rows + 3.
Proof. vm_compute. done. Qed.

(** A vector of three numbers where the table has two. *)
Definition bad_buffer : MemTableWriter := push_rows policy third_batch [[6; 5; 4]] waiting.

Lemma bad_vector_loses_buffer_witness :
  merged_batch bad_buffer = Ret (Ok all_merged) ∧
  ∃ e, flush policy a_table the_ids ((bad_buffer, []), sheets_store) = (((emptied the_ids, []), sheets_store), Ret (Err e)).
Proof.
  assert (E : merged_batch bad_buffer = Ret (Ok all_merged)) by (vm_compute; reflexivity). split; [exact E|].
  apply (bad_vector_loses_buffer root warehouse policy a_table sheets_store bad_buffer [] the_ids all_merged [6; 5; 4] E).
  - right. right. left.
  - vm_compute. discriminate.
Defined.

(** The numbers 1, 2 and 3 on one axis and 1 on the other. *)
Definition memories : WorkingMemoryBuffer :=
  push_all [("one", [1065353216; 0], 0); ("two", [1073741824; 1065353216], 0); ("three", [0; 1077936128], 1082130432)] (wm_new 2).

Lemma working_memory_search_witness :
  let scored := (λ e, (wm_distance [1065353216; 0] e, e)) <$> wm_entries memories in
  (∃ rest, scored ≡ₚ wm_search [1065353216; 0] 1 memories ++ rest) ∧
  (λ p, f32_key p.1) <$> wm_search [1065353216; 0] 1 memories = take 1 (merge_sort Z.le ((λ p, f32_key p.1) <$> scored)).
Proof.
  apply (working_memory_search [1065353216; 0] 1 memories).
  assert (F : forallb (λ p : f32bits * WorkingMemoryEntry, negb (is_nan p.1))
    ((λ e, (wm_distance [1065353216; 0] e, e)) <$> wm_entries memories) = true) by (vm_compute; reflexivity).
  apply Forall_forall. intros p Hp. apply negb_true_iff. rewrite forallb_forall in F. apply F. by apply list_elem_of_In.
Defined.

(** The oldest is gone, the importance is clamped, the nearest is found. *)
Example memories_kept :
  wm_text <$> wm_entries memories = ["two"; "three"] ∧ wm_importance <$> wm_entries memories = [0; F32_ONE] ∧
  (λ p : f32bits * WorkingMemoryEntry, wm_text p.2) <$> wm_search [1065353216; 0] 1 memories = ["two"].
Proof. vm_compute. done. Qed.
