(* ===== verification/CdcExamples.v ===== *)
(** * Change capture on a concrete table

    On the frames of [Frames], the change reader runs on a table to which a file was added and from which
    rows were deleted by position and by value. *)

From S2P Require Import Prelude Core Footer FileFormat FileTheorems FileExamples Store Effects.
From S2P Require Import Avro Manifest ManifestTheorems ManifestExamples Json Puffin Catalog CatalogTheorems.
From S2P Require Import HadoopTheorems HadoopExamples ArrowSchema Arrow Arrays Deletes DeletesTheorems Floats Ranking Bm25 Search.
From S2P Require Import QueryExamples CompactionRows Cdc CdcRows CdcTheorems CdcUpdates Frames.

#[local] Existing Instances frame_parquet frame_arrow frame_arrow_laws frame_arrays frame_array_laws.
#[local] Arguments fit : simpl never.

(* ------------------------------------------------------------------ *)
(** ** A table that changed                                            *)
(* ------------------------------------------------------------------ *)

#[local] Existing Instances set_bitmap set_bitmap_laws scalar_writer no_floats.
#[local] Instance set_bitmap_ops : BitmapOps := {|
  rb_eqb (a b : Bitmap) := bool_decide (a = b :> gset Z);
  rb_sub (a b : Bitmap) := (a : gset Z) ∖ b;
  rb_iter (b : Bitmap) := merge_sort Z.le (elements (b : gset Z));
|}.
#[local] Instance set_bitmap_ops_laws : BitmapOpsLaws.
Proof.
  constructor; cbn.
  - intros a b. rewrite bool_decide_eq_true. split; [by intros ->|]. intros Hx. apply set_eq. intros x.
    specialize (Hx x). rewrite <- (bool_decide_eq_true (x ∈ a)), Hx, bool_decide_eq_true. done.
  - intros b. rewrite merge_sort_Permutation. apply NoDup_elements.
  - intros b x. rewrite merge_sort_Permutation, elem_of_elements. by rewrite bool_decide_eq_true.
  - intros a b x. apply eq_bool_prop_intro. rewrite andb_True, negb_True, !bool_decide_spec. set_solver.
Qed.

#[local] Existing Instance frame_index.

Definition label_frame (rows : list (option string * string)) : Frame :=
  mk_frame (length rows)
    [(mk_afield "label" ArrowTy.Utf8 true, rows.*1); (mk_afield "doc" ArrowTy.Int64 false, Some <$> rows.*2)].
(** The file whose only byte is 1, 2 or 3. *)
Definition frame_file (b : bytes) : option (list (option string * string)) :=
  match b with
  | [1] => Some [(Some "spam", "10"); (Some "ham", "11"); (None, "12")]
  | [2] => Some [(Some "ham", "20"); (Some "spam", "21")]
  | [3] => Some [(Some "spam", "30")]
  | _ => None
  end.
#[local] Instance frame_query : QueryLib := {|
  ColumnFilter := unit;
  read_parquet r dim :=
    match frame_file (r_bytes r) with
    | Some rows => Ok (label_frame rows : @RecordBatch frame_parquet, (λ _, [1; 2]) <$> rows)
    | None => Err ParquetError
    end;
  matching_row_ids _ _ := Ok ∅;
  hnsw_search _ _ _ _ := [];
  ivf_search _ _ _ := [];
  batch_slice b _ _ := b;
  FtsSearcher := unit;
  fts_from_blob _ := Err FtsError;
  fts_search _ _ _ := Ok [];
|}.

Definition with_objects (s : MemStore) (l : list (string * bytes)) : MemStore :=
  mk_mem (list_to_map l ∪ mem_objects s) (mem_clock s) (mem_latency s).
#[local] Instance notes_catalog : CatalogProvider MemStore := hadoop_provider root warehouse.

(** Two files; then a deletion by value; then a third file. *)
Definition notes_start : MemStore :=
  with_objects (commit_snapshot root warehouse
    (new_snapshot 11 Append [new_file "a.parquet" 3; new_file "b.parquet" 2] [] None) 2000 table_store).1
    [("a.parquet", [1]); ("b.parquet", [2]); ("c.parquet", [3])].
Definition notes_end : MemStore :=
  Eval vm_compute in
  (commit_snapshot root warehouse (new_snapshot 13 Append [new_file "c.parquet" 1] [] None) 4000
    (delete_where "label" ["spam"] 12 3000 notes_start).1).1.
Definition since_first : ChangeReaderConfig := mk_reader_config (Some 11) None ["doc"] false true.

Definition table_rows (o : outcome AilakeError RecordBatch) : list (list (option string)) :=
  match o with
  | Ret (Ok b) => (λ k, (λ n, cell_of b n k) <$> ["label"; "doc"; "_change_type"; "_sequence_number"]) <$> seqZ 0 (num_rows b)
  | _ => []
  end.
Example notes_changes :
  table_rows (read_changes (load_raw_metadata root) id since_first notes_end).2 =
  [[Some "spam"; Some "30"; Some "insert"; Some "3"];
   [Some "spam"; Some "10"; Some "delete"; Some "3"];
   [Some "spam"; Some "21"; Some "delete"; Some "3"]].
Proof. vm_compute. reflexivity. Qed.

(** What the files of two snapshots of a store hold, with the metadata read once. *)
Definition ok_or_nil {A} (r : AilakeResult (list A)) : list A := match r with Ok l => l | Err _ => [] end.
Definition batch_in (s : MemStore) (fields : list SchemaField) (f : DataFileEntry) : Frame :=
  match file_batch (view s) "embedding" 2 fields f with
  | Ret (Ok b) => b
  | _ => mk_frame 0 []
  end.
Definition note_types : gmap string ArrowTy.t :=
  {["label" := ArrowTy.Utf8; "doc" := ArrowTy.Int64;
    "embedding" := ArrowTy.ListOf (ArrowTy.FixedList 2) ArrowTy.Float32 false]}.
Definition change_data (s : MemStore) (meta : IcebergMetadata) (start_files end_files : list DataFileEntry)
    (fS fE : EqualityDeleteFilter) (predicates : list (string * string * Z)) : ChangeData := {|
  cd_types := note_types;
  cd_batch := batch_in s (tm_schema_fields (to_table_metadata meta));
  cd_bitmap f := default None (dv_in (view s) f);
  cd_start := start_files;
  cd_end := end_files;
  cd_start_filter := fS;
  cd_end_filter := fE;
  cd_predicates := predicates;
|}.

(** A frame of the notes has the three columns. *)
Lemma note_shaped (b : Frame) :
  af_name <$> (fr_cols b).*1 = ["label"; "doc"; "embedding"] →
  af_type <$> (fr_cols b).*1 = [ArrowTy.Utf8; ArrowTy.Int64; ArrowTy.ListOf (ArrowTy.FixedList 2) ArrowTy.Float32 false] →
  shaped note_types (b : RecordBatch).
Proof.
  cbn. set (fs := (fr_cols b).*1). intros Hn Ht. split; cbn; fold fs; [rewrite Hn; apply (bool_decide_unpack _); by vm_compute|].
  destruct fs as [|f1 [|f2 [|f3 [|f4 fs]]]]; try done. injection Hn as N1 N2 N3. injection Ht as T1 T2 T3.
  intros n t. unfold note_types. rewrite !lookup_insert_Some, lookup_singleton_Some. split.
  - intros [[<- <-]|[_ [[<- <-]|[_ [<- <-]]]]]; [exists f1|exists f2|exists f3]; repeat split; try done; set_solver.
  - intros (f & Hf & <- & <-). rewrite !elem_of_cons in Hf. destruct Hf as [->|[->|[->|Hf]]]; [..|by apply elem_of_nil in Hf].
    + rewrite N1, T1. tauto.
    + rewrite N2, T2. right. split; [done|]. tauto.
    + rewrite N3, T3. right. split; [done|]. right. done.
Qed.

Ltac frame_checked :=
  constructor; [vm_compute; reflexivity|vm_compute; reflexivity|apply note_shaped; vm_compute; reflexivity
    |vm_compute; lia|vm_compute; reflexivity].

Lemma notes_load s v meta : published (view s) root = Some (v, meta) →
  ∀ Q, Q (Ret (Ok meta)) (view s) → wp (view s) (load_raw_metadata root) Q.
Proof. intros Hp Q HQ. eapply wp_load; [|exact HQ]. apply (t_stored _ _ _ _ (published_table _ _ _ _ Hp)). Qed.

(** [clean] as a check, the listing of the delete files apart. *)
Section CleanCheck.
Context (cd : ChangeData) (new : list (string * list string * Z)).
Definition hides_b (f : DataFileEntry) (i : Z) : bool := dv_hides (cd_bitmap cd f) i.
Definition deletes_b (flt : EqualityDeleteFilter) (f : DataFileEntry) (i : Z) : bool :=
  deleted_by_value flt (cd_batch cd f) i (df_sequence_number f).
Definition shown_b (flt : EqualityDeleteFilter) (f : DataFileEntry) (i : Z) : bool :=
  negb (hides_b f i) && negb (deletes_b flt f i).
Definition plain_b (b : RecordBatch) (d : string * list string * Z) : bool :=
  match field_index (schema_of b) d.1.1 with
  | Some i => match schema_of b !! i with
              | Some f => match readable_kind (af_type f) with Some _ => true | None => false end
              | None => false
              end && bool_decide ("NULL" ∉ d.1.2)
  | None => true
  end.
Definition kept_check (f g : DataFileEntry) : bool :=
  forallb (plain_b (cd_batch cd f)) new && (df_sequence_number f =? df_sequence_number g) &&
  forallb (λ i, implb (hides_b g i) (hides_b f i) &&
      implb (hides_b f i && negb (hides_b g i) || deletes_b (filter_of new) f i) (shown_b (cd_start_filter cd) g i))
    (rows_of (cd_batch cd) f) &&
  (bool_decide (length new = 0%nat) || rb_eqb (dv_bitmap (cd_bitmap cd g)) (dv_bitmap (cd_bitmap cd f))).
Definition clean_check : bool :=
  bool_decide (NoDup (df_path <$> cd_start cd)) && bool_decide (NoDup (df_path <$> cd_end cd)) &&
  forallb (λ f, match file_map (cd_start cd) !! df_path f with
                | None => forallb (λ i, negb (deletes_b (cd_end_filter cd) f i)) (rows_of (cd_batch cd) f)
                | Some g => kept_check f g
                end) (cd_end cd) &&
  forallb (λ g, bool_decide (df_path g ∈ df_path <$> cd_end cd) ||
                forallb (shown_b (cd_start_filter cd) g) (rows_of (cd_batch cd) g)) (cd_start cd).

Lemma forallb_elem {A} (p : A → bool) l x : forallb p l = true → x ∈ l → p x = true.
Proof. rewrite List.forallb_forall. intros Hp Hx. by apply Hp, list_elem_of_In. Qed.

Lemma shown_b_spec flt f i : shown_b flt f i = true → shown (cd_batch cd) (cd_bitmap cd) flt f i.
Proof. unfold shown_b. by intros [?%negb_true_iff ?%negb_true_iff]%andb_prop. Qed.

Lemma plain_b_spec b d : plain_b b d = true → plain b d.
Proof.
  unfold plain_b, plain. intros Hb i Hi. rewrite Hi in Hb. apply andb_prop in Hb as [Hf Hn%bool_decide_eq_true].
  split; [|by left]. destruct (schema_of b !! i) as [f|]; [|done]. exists f. split; [done|].
  by destruct (readable_kind (af_type f)).
Qed.

Lemma clean_check_spec m meta start_id end_id :
  (∃ ds added, deletes_in m meta (Some start_id) = Ok ds ∧
    deletes_in m meta (Some end_id) = Ok (ds ++ added) ∧
    Forall (λ ed, ed_path ed ∉ ed_path <$> ds) added ∧ Forall2 (delete_holds m) added new) →
  clean_check = true → clean m meta start_id end_id cd new.
Proof.
  intros Hdels. unfold clean_check. intros [[[Hns Hne]%andb_prop Hend]%andb_prop Hstart]%andb_prop.
  apply bool_decide_eq_true in Hns, Hne.
  assert (Hk : ∀ f g, kept (cd_start cd) (cd_end cd) f g → kept_check f g = true).
  { intros f g [Hf Hg]. pose proof (forallb_elem _ _ _ Hend Hf) as Hx. cbn in Hx. by rewrite Hg in Hx. }
  unfold kept_check in Hk. constructor; try done.
  - intros f g Hfg. apply Hk in Hfg as [[[Hx _]%andb_prop _]%andb_prop _]%andb_prop.
    apply Forall_forall. intros d Hd. by apply plain_b_spec, (forallb_elem _ _ _ Hx).
  - intros f g Hfg. apply Hk in Hfg as [[[_ Hx%Z.eqb_eq]%andb_prop _]%andb_prop _]%andb_prop. done.
  - intros f g i Hfg Hi Hh. apply Hk in Hfg as [[_ Hx]%andb_prop _]%andb_prop.
    apply (forallb_elem _ _ i) in Hx as [Hx _]%andb_prop; [|done]. unfold hides_b in Hx. by rewrite Hh in Hx.
  - intros f i Hf Hn Hi. pose proof (forallb_elem _ _ _ Hend Hf) as Hx. cbn in Hx.
    rewrite <- file_map_known, <- eq_None_not_Some in Hn. rewrite Hn in Hx.
    by apply negb_true_iff, (forallb_elem _ _ _ Hx).
  - intros g i Hg Hn Hi. pose proof (forallb_elem _ _ _ Hstart Hg) as Hx. cbn in Hx.
    rewrite bool_decide_eq_false_2 in Hx by done. by apply shown_b_spec, (forallb_elem _ _ _ Hx).
  - intros f g i Hfg Hi Hd. apply Hk in Hfg as [[_ Hx]%andb_prop _]%andb_prop.
    apply (forallb_elem _ _ i) in Hx as [_ Hx]%andb_prop; [|done]. apply shown_b_spec.
    assert (hides_b f i && negb (hides_b g i) || deletes_b (filter_of new) f i = true) as E; [|by rewrite E in Hx].
    unfold hides_b, deletes_b. destruct Hd as [[-> ->]| ->]; [done|apply orb_true_r].
  - destruct new as [|d ds] eqn:En; [by left|right]. intros f g Hfg.
    apply Hk in Hfg as [_ Hx]%andb_prop. done.
Qed.

(** [positions_exist] as a check. *)
Definition positions_check : bool :=
  forallb (λ f, match file_map (cd_start cd) !! df_path f with
                | None => true
                | Some g => bool_decide (Forall (λ i, 0 ≤ i < num_rows (cd_batch cd f)) (diff_of (cd_bitmap cd) g f))
                end) (cd_end cd).
Lemma positions_check_spec : positions_check = true → positions_exist (cd_batch cd) (cd_bitmap cd) (cd_start cd) (cd_end cd).
Proof.
  intros Hp f g Hf Hg. pose proof (forallb_elem _ _ _ Hp Hf) as Hx. cbn in Hx. rewrite Hg in Hx.
  by apply bool_decide_eq_true in Hx.
Qed.
End CleanCheck.

Definition notes_meta : IcebergMetadata := Eval vm_compute in meta_of notes_end.
Definition notes_before : list DataFileEntry := Eval vm_compute in ok_or_nil (files_in (view notes_end) notes_meta (Some 11)).
Definition notes_after : list DataFileEntry := Eval vm_compute in ok_or_nil (files_in (view notes_end) notes_meta (Some 13)).
Definition notes_deletes : list EqualityDeleteFile :=
  Eval vm_compute in ok_or_nil (deletes_in (view notes_end) notes_meta (Some 13)).
Definition notes_filter : EqualityDeleteFilter := Eval vm_compute in ok_or_nil (filter_in (view notes_end) notes_deletes).
Definition notes_predicates : list (string * string * Z) :=
  Eval vm_compute in ok_or_nil (predicates_in (view notes_end) [] notes_deletes).
Definition notes_last : IcebergSnapshot :=
  Eval vm_compute in default (mk_snap 0 None 0 0 "" ∅ None) (im_snapshots notes_meta !! 2%nat).
Definition notes_data : ChangeData :=
  change_data notes_end notes_meta notes_before notes_after [] notes_filter notes_predicates.
Definition note_columns : list string := ["label"; "doc"].

Ltac names_checked := repeat constructor; apply (bool_decide_unpack _); by vm_compute.

Lemma notes_replayable : replayable (view notes_end) notes_meta since_first 11 13 notes_last notes_data.
Proof.
  constructor.
  - vm_compute. reflexivity.
  - vm_compute. reflexivity.
  - vm_compute. reflexivity.
  - vm_compute. reflexivity.
  - vm_compute. reflexivity.
  - exists [], notes_deletes. repeat split; vm_compute; reflexivity.
  - cbn [cd_start cd_end notes_data change_data]. unfold notes_before, notes_after. cbn [app].
    repeat (apply Forall_cons; split; [frame_checked|]). constructor.
  - apply positions_check_spec. vm_compute. reflexivity.
  - repeat constructor; vm_compute; reflexivity.
  - done.
Qed.

(** The one delete file of the step, as listed. *)
Definition notes_new : list (string * list string * Z) := [("label", ["spam"], 2)].

Lemma notes_clean : clean (view notes_end) notes_meta 11 13 notes_data notes_new.
Proof.
  apply clean_check_spec; [|vm_compute; reflexivity].
  exists [], notes_deletes. split; [vm_compute; reflexivity|]. split; [vm_compute; reflexivity|].
  split; [apply Forall_true; intros ed Hed; by apply elem_of_nil in Hed|].
  constructor; [|constructor]. split_and!; [done|vm_compute; reflexivity|vm_compute; reflexivity|done].
Qed.


(* ------------------------------------------------------------------ *)
(** ** Rows hidden twice                                               *)
(* ------------------------------------------------------------------ *)

(** The second row of the first file is deleted by position, then all spam by value. *)
Definition hidden_end : MemStore :=
  Eval vm_compute in
  (delete_where "label" ["spam"] 14 4000 (delete_rows "a.parquet" [1] 12 3000 notes_start).1).1.
Definition hidden_meta : IcebergMetadata := Eval vm_compute in meta_of hidden_end.
Definition hidden_before : list DataFileEntry := Eval vm_compute in ok_or_nil (files_in (view hidden_end) hidden_meta (Some 11)).
Definition hidden_after : list DataFileEntry := Eval vm_compute in ok_or_nil (files_in (view hidden_end) hidden_meta (Some 14)).
Definition hidden_deletes : list EqualityDeleteFile :=
  Eval vm_compute in ok_or_nil (deletes_in (view hidden_end) hidden_meta (Some 14)).
Definition hidden_filter : EqualityDeleteFilter := Eval vm_compute in ok_or_nil (filter_in (view hidden_end) hidden_deletes).
Definition hidden_predicates : list (string * string * Z) :=
  Eval vm_compute in ok_or_nil (predicates_in (view hidden_end) [] hidden_deletes).
Definition hidden_last : IcebergSnapshot :=
  Eval vm_compute in default (mk_snap 0 None 0 0 "" ∅ None) (im_snapshots hidden_meta !! 2%nat).
Definition hidden_data : ChangeData :=
  change_data hidden_end hidden_meta hidden_before hidden_after [] hidden_filter hidden_predicates.

Example hidden_changes :
  table_rows (read_changes (load_raw_metadata root) id since_first hidden_end).2 =
  [[Some "ham"; Some "11"; Some "delete"; Some "3"];
   [Some "spam"; Some "10"; Some "delete"; Some "3"];
   [Some "ham"; Some "11"; Some "delete"; Some "3"];
   [Some "spam"; Some "21"; Some "delete"; Some "3"]].
Proof. vm_compute. reflexivity. Qed.

Lemma hidden_replayable : replayable (view hidden_end) hidden_meta since_first 11 14 hidden_last hidden_data.
Proof.
  constructor.
  - vm_compute. reflexivity.
  - vm_compute. reflexivity.
  - vm_compute. reflexivity.
  - vm_compute. reflexivity.
  - vm_compute. reflexivity.
  - exists [], hidden_deletes. repeat split; vm_compute; reflexivity.
  - cbn [cd_start cd_end hidden_data change_data]. unfold hidden_before, hidden_after. cbn [app].
    repeat (apply Forall_cons; split; [frame_checked|]). constructor.
  - apply positions_check_spec. vm_compute. reflexivity.
  - repeat constructor; vm_compute; reflexivity.
  - done.
Qed.

Definition hidden_file : DataFileEntry := Eval vm_compute in default (new_file "" 0) (hidden_after !! 0%nat).
Definition hidden_start_file : DataFileEntry := Eval vm_compute in default (new_file "" 0) (hidden_before !! 0%nat).

Lemma dv_delete_reported_twice_witness :
  ∃ b rest, (read_changes (load_raw_metadata root) id since_first hidden_end).2 = Ret (Ok b) ∧
    change_rows note_columns ChangeType.Delete b ≡ₚ
      named_cells note_columns (cd_batch hidden_data hidden_file) 1 ::
      named_cells note_columns (cd_batch hidden_data hidden_file) 1 :: rest.
Proof.
  pose proof (dv_delete_reported_twice hidden_end (load_raw_metadata root) hidden_meta id since_first 11 14 hidden_last
    hidden_data note_columns hidden_file hidden_start_file 1 I
    (notes_load hidden_end 4 hidden_meta ltac:(vm_compute; reflexivity)) hidden_replayable eq_refl
    ltac:(names_checked) ltac:(done) ltac:(by left) ltac:(vm_compute; reflexivity)
    ltac:(apply (bool_decide_unpack _); by vm_compute)) as X.
  exact X.
Defined.

(* ------------------------------------------------------------------ *)
(** ** Two updates                                                     *)
(* ------------------------------------------------------------------ *)

Definition note (c : ChangeType.t) (label doc : string) : ChangeRecord :=
  mk_change (label_frame [(Some label, doc)] : RecordBatch) c 13 3 4000.
(** Two documents are relabelled. *)
Definition relabelled : list ChangeRecord :=
  [note ChangeType.Insert "new" "10"; note ChangeType.Insert "new" "11";
   note ChangeType.Delete "old" "10"; note ChangeType.Delete "old" "11"].

(** A map that yields the documents in ascending order, and one that does not. *)
Definition ascending (l : list string) : list string := if bool_decide (l ≡ₚ ["10"; "11"]) then ["10"; "11"] else l.
Definition descending (l : list string) : list string := if bool_decide (l ≡ₚ ["10"; "11"]) then ["11"; "10"] else l.

Lemma coalesce_loses_update_witness :
  coalesce_updates descending relabelled ["doc"] =
    Ret (Ok [note ChangeType.UpdateBefore "old" "11"; note ChangeType.UpdateAfter "new" "11"]).
Proof.
  pose proof (coalesce_loses_update descending (note ChangeType.Delete "old" "10") (note ChangeType.Delete "old" "11")
    (note ChangeType.Insert "new" "10") (note ChangeType.Insert "new" "11") ["doc"] "10" "11" ltac:(done)
    ltac:(vm_compute; reflexivity) ltac:(vm_compute; reflexivity) ltac:(vm_compute; reflexivity)
    ltac:(vm_compute; reflexivity) eq_refl eq_refl eq_refl eq_refl
    ltac:(intros l Hl; unfold descending; by rewrite bool_decide_eq_true_2)) as X.
  exact X.
Defined.

Lemma coalesce_keeps_rows_witness :
  ∃ out, coalesce_updates ascending relabelled ["doc"] = Ret (Ok out) ∧
    record_rows note_columns ChangeType.Delete out ++ record_rows note_columns ChangeType.UpdateBefore out ≡ₚ
      record_rows note_columns ChangeType.Delete relabelled ∧
    record_rows note_columns ChangeType.Insert out ++ record_rows note_columns ChangeType.UpdateAfter out ≡ₚ
      record_rows note_columns ChangeType.Insert relabelled.
Proof.
  apply (coalesce_keeps_rows note_columns ascending relabelled ["doc"] ["10"; "11"; "10"; "11"]
    (pairs_found ascending ["10"; "11"; "10"; "11"] relabelled).1 [(2%nat, 0%nat); (3%nat, 1%nat)]).
  - repeat (apply Forall_cons; split; [vm_compute; tauto|]). constructor.
  - vm_compute. reflexivity.
  - vm_compute. reflexivity.
  - repeat constructor.
Defined.
