(* ===== verification/DecayExamples.v ===== *)
(** * Memory decay on a concrete table

    The job of [Decay] on two stored frames, one with access times and a deletion
    vector, one without: the witness of its theorem, and what the rows become. *)

From S2P Require Import Prelude Core Footer FileFormat FileTheorems FileExamples Store Effects.
From S2P Require Import Avro Manifest ManifestTheorems ManifestExamples Json Puffin Catalog CatalogTheorems.
From S2P Require Import HadoopTheorems HadoopExamples ArrowSchema Arrow Arrays Deletes DeletesTheorems Floats Ranking Bm25 Search.
From S2P Require Import QueryExamples ColumnStats Compaction CompactionRows CompactionSafety Cdc CdcRows Writer Decay DecayTheorems Frames.

#[local] Existing Instances frame_parquet frame_arrow frame_arrow_laws frame_arrays frame_array_laws frame_laws frame_index
  stored_frames frame_read_back insertion_sort insertion_laws set_bitmap set_bitmap_laws entry_typed_dec.

(** Times are texts; the weight is what the exponential is taken of. *)
#[local] Instance text_times : DecayLib := {| timestamp_unit _ := None; timestamp_value _ _ := 0; f32_exp x := x |}.
#[local] Instance frame_compact : CompactLib := {|
  concat_batches (first : @RecordBatch frame_parquet) bs := Ret (Ok first);
  hnsw_insert_node h id v := h;
  compact_stats := {| parquet_metadata _ := None; stats_to_string _ := None |};
|}.

Definition text_column (name : string) (cells : list string) : ArrowField * list (option string) :=
  (mk_afield name ArrowTy.Utf8 true, Some <$> cells).
Definition memory_frame : Frame :=
  mk_frame 2 [text_column "note" ["x"; "y"]; text_column "last_accessed_at" ["1970-01-03T00:00"; "1970-01-01T00:00"];
              text_column "recency_weight" ["7"; "7"]].
Definition plain_frame : Frame := mk_frame 1 [text_column "note" ["z"]].

Definition ok_value {A} (d : A) (r : AilakeResult A) : A := match r with Ok a => a | Err _ => d end.
Definition memory_file : bytes := Eval vm_compute in ok_value [] (write (writer_new policy) memory_frame [[1; 2]; [3; 4]]).
Definition plain_file : bytes := Eval vm_compute in ok_value [] (write (writer_new policy) plain_frame [[5; 6]]).

(** The first row of the notes is deleted by position. *)
Definition note_vector : bytes * Z * Z :=
  Eval vm_compute in default ([], 0, 0) (to_option (write_single_dv (foldl rb_insert rb_new [0]) 5)).
Definition memory_entry : DataFileEntry :=
  set_deletion_vector (mk_dv "a.puffin" note_vector.1.2 note_vector.2 1) (new_file "a.parquet" 2).

(** A deletion by value. *)
Definition note_delete : EqualityDeleteFile := mk_eqdel "note.delete" [1] 1 100 (Some ("note", ["x"])) 0.

Definition memories_store : MemStore :=
  Eval vm_compute in
  let s := (commit_snapshot root warehouse
    (new_snapshot 11 Append [memory_entry; new_file "b.parquet" 1] [note_delete] None) 2000 table_store).1 in
  mk_mem (<["a.parquet" := memory_file]> (<["b.parquet" := plain_file]> (<["a.puffin" := note_vector.1.1]> (mem_objects s))))
    (mem_clock s) (mem_latency s).
Definition memories_meta : IcebergMetadata := Eval vm_compute in meta_of memories_store.
#[local] Instance memories_catalog : CatalogProvider MemStore := hadoop_provider root warehouse.
Definition memories_files : list DataFileEntry :=
  Eval vm_compute in match (cp_list_files None memories_store).2 with Ret (Ok fs) => fs | _ => [] end.
Definition memories_deletes : list EqualityDeleteFile :=
  Eval vm_compute in match (cp_list_equality_deletes None memories_store).2 with Ret (Ok ds) => ds | _ => [] end.
Definition memories_rows : list Row := Eval vm_compute in default [] (rows_left_by_dvs (view memories_store) policy memories_files).

(** On the fourth of January 1970, with lambda 0.5; two files of one clock tick. *)
Definition clock (i : Z) : Z := 4.
Definition decayed : MemStore * outcome AilakeError Z := decay_run policy 1056964608 (3 * 86400) clock 12 3000 memories_store.

Example decay_runs :
  decayed.2 = Ret (Ok 1) ∧ memories_rows ≠ [].
Proof. vm_compute. done. Qed.

Lemma fresh_starts q : fresh_path clock q → ∃ t, q = String (Ascii.ascii_of_nat 100) t.
Proof. intros (i & _ & ->). by eexists. Qed.
Lemma catalog_starts o : ∃ t, obj_path root o = String (Ascii.ascii_of_nat 119) t.
Proof. rewrite obj_path_parts. change root with "wh/ns/docs". by eexists. Qed.

(** What decay commits. *)
Definition decayed_entries : list DataFileEntry :=
  Eval vm_compute in
  match (decay_files policy 1056964608 3 clock ([], [], 0) memories_files memories_store).2 with
  | Ret (Ok st) => st.1.1
  | _ => []
  end.

(** [rewritable], as a test. *)
Definition rewritable_file (f : DataFileEntry) : bool :=
  match view memories_store !! df_path f with
  | Some d =>
      match read_parquet (mk_reader d (column_name policy)) (policy_dim policy) with
      | Ok (b, e) => bool_decide (column_name policy ∉ field_names b) && (0 <? num_rows b) &&
          bool_decide (Forall (λ v, stored_vector policy v = v) e)
      | Err _ => true
      end
  | None => true
  end.
Lemma rewritable_file_ok f : rewritable_file f = true → rewritable policy (view memories_store) f.
Proof.
  unfold rewritable_file. intros E d b e Hd Hr. rewrite Hd, Hr in E.
  apply andb_prop in E as [[E1 E2]%andb_prop E3]. split; [by apply bool_decide_eq_true_1 in E1|].
  split; [lia|by apply bool_decide_eq_true_1 in E3].
Qed.

Lemma decay_is_ready :
  decay_ready root warehouse policy 1056964608 memories_store 2 memories_meta (3 * 86400) clock 12 memories_files memories_rows.
Proof.
  split.
  - exact I.
  - apply published_table. vm_compute. reflexivity.
  - vm_compute. reflexivity.
  - vm_compute. reflexivity.
  - apply (bool_decide_unpack _). by vm_compute.
  - done.
  - assert (Hp : ∀ p, p ∈ ["a.parquet"; "b.parquet"; "a.puffin"] → ¬ fresh_path clock p ∧ ∀ o, p ≠ obj_path root o).
    { intros p Hp. split.
      - intros [t E]%fresh_starts. set_unfold in Hp. destruct_or! Hp; subst; discriminate E.
      - intros o E. destruct (catalog_starts o) as [t Et]. rewrite Et in E. set_unfold in Hp. destruct_or! Hp; subst; discriminate E. }
    apply Forall_forall. intros f Hin. split; [by right|].
    assert (Hf : (df_path f ∈ ["a.parquet"; "b.parquet"; "a.puffin"]) ∧ ∀ dv, df_deletion_vector f = Some dv → dv_path dv = "a.puffin").
    { assert (Hall : forallb (λ f, bool_decide (df_path f ∈ ["a.parquet"; "b.parquet"; "a.puffin"]) &&
        match df_deletion_vector f with Some dv => bool_decide (dv_path dv = "a.puffin") | None => true end) memories_files = true)
        by (vm_compute; reflexivity).
      rewrite forallb_forall in Hall. specialize (Hall f (proj1 (list_elem_of_In _ _) Hin)).
      apply andb_prop in Hall as [E1 E2]. split; [by apply bool_decide_eq_true_1 in E1|].
      intros dv Hd. rewrite Hd in E2. by apply bool_decide_eq_true_1 in E2. }
    destruct Hf as [Hpath Hdv]. split.
    + intros q [->|(dv & Hd & ->)]; [by apply Hp|]. rewrite (Hdv dv Hd). apply Hp. do 2 right. by left.
    + intros dv Hd. rewrite (Hdv dv Hd). apply (bool_decide_unpack _). by vm_compute.
  - intros q Hq. split; [by right|]. intros o E. destruct (fresh_starts q Hq) as [t Et]. destruct (catalog_starts o) as [t' Et'].
    rewrite Et, Et' in E. discriminate E.
  - apply (Forall_impl (λ f, rewritable_file f = true)); [|intros f; apply rewritable_file_ok].
    apply Forall_forall. intros f Hin. eapply forallb_forall; [|by apply list_elem_of_In]. vm_compute. reflexivity.
  - by vm_compute.
  - done.
  - intros s1 s2 st [_ Hs1] Hrun.
    assert (E : st.1.1 = decayed_entries).
    { destruct s1 as [objs clk lat]. cbn in Hs1. subst objs. vm_compute in Hrun. injection Hrun as _ <-. vm_compute. reflexivity. }
    rewrite E. clear. split.
    + vm_compute. intros Hin. by apply list_elem_of_singleton in Hin.
    + by vm_compute.
    + by vm_compute.
    + apply (bool_decide_unpack _). by vm_compute.
    + constructor.
    + vm_compute; reflexivity.
    + vm_compute; reflexivity.
    + vm_compute; reflexivity.
    + vm_compute; reflexivity.
    + vm_compute; reflexivity.
    + vm_compute; reflexivity.
  - by vm_compute.
Qed.

Lemma decay_keeps_rows_witness :
  decay_ready root warehouse policy 1056964608 memories_store 2 memories_meta (3 * 86400) clock 12 memories_files memories_rows ∧
  (cp_list_equality_deletes None memories_store).2 = Ret (Ok memories_deletes) ∧
  let '(s', o) := decayed in
  ∃ fs' rows' ds', (cp_list_files None s').2 = Ret (Ok fs') ∧ rows_left_by_dvs (view s') policy fs' = Some rows' ∧
    Forall2 same_row memories_rows rows' ∧
    (cp_list_equality_deletes None s').2 = Ret (Ok ds') ∧ (ds' = memories_deletes ∨ ds' = []) ∧
    ∀ n, o = Ret (Ok n) → n ≠ 0 → ds' = [].
Proof.
  assert (E : (cp_list_equality_deletes None memories_store).2 = Ret (Ok memories_deletes)) by (vm_compute; reflexivity).
  split; [exact decay_is_ready|]. split; [exact E|].
  pose proof (decay_keeps_rows root warehouse policy 1056964608 memories_store 2 memories_meta (3 * 86400) clock 12 3000
    memories_files memories_rows memories_deletes decay_is_ready E) as X. exact X.
Defined.
