(* ===== verification/MigrationExamples.v ===== *)
(** * A migration and a backfill on a concrete table

    The table of [DecayExamples] (two files, a note deleted by position) is given another
    embedding column, file by file, and a second vector column: the witnesses of the
    theorems of [MigrationTheorems], and what the table shows afterwards. *)

From S2P Require Import Prelude Core Footer FileFormat FileTheorems FileExamples Store Effects.
From S2P Require Import Avro Manifest ManifestTheorems ManifestExamples Json Puffin Catalog CatalogTheorems.
From S2P Require Import HadoopTheorems HadoopExamples ArrowSchema Arrow Arrays Deletes DeletesTheorems Floats Ranking Bm25 Search.
From S2P Require Import QueryExamples ColumnStats Compaction CompactionRows CompactionSafety Cdc CdcRows Writer Decay DecayTheorems.
From S2P Require Import Frames DecayExamples Migration MigrationTheorems.

#[local] Existing Instances frame_parquet frame_arrow frame_arrow_laws frame_arrays frame_array_laws frame_laws frame_index
  stored_frames frame_read_back insertion_sort insertion_laws set_bitmap set_bitmap_laws entry_typed_dec memories_catalog.

(** A model whose vectors are the length of the text and a constant. *)
Definition length_model (t : string) : vec32 := [f32_of_int (Z.of_nat (String.length t)); F32_ONE].
Definition embed_lengths (texts : list string) : AilakeResult (list vec32) := Ok (length_model <$> texts).
Lemma embeds_lengths : embeds embed_lengths length_model.
Proof. by intros texts vecs [= <-]. Qed.

Definition to_lengths (strategy : MigrationStrategy) : MigrationJob :=
  mk_migration "embedding" "lengths" "note" embed_lengths strategy 2 (Some (mk_EmbeddingModelInfo "lengths" None None None)).
Definition job_clock : RunClock := mk_clock (λ _, 7) (λ i, 20 + Z.of_nat i) (λ i, 5000 + Z.of_nat i).

Definition lengths_policy : VectorStoragePolicy :=
  Eval vm_compute in
  match new_policy_from_metadata (im_properties memories_meta) "lengths" (Some (mk_EmbeddingModelInfo "lengths" None None None)) with
  | Ok p => p | Err _ => policy end.

Definition migrated (strategy : MigrationStrategy) : MemStore * outcome AilakeError unit :=
  migration_run (to_lengths strategy) job_clock memories_store.
Definition listing_of (s : MemStore) : list DataFileEntry :=
  match (cp_list_files None s).2 with Ret (Ok fs) => fs | _ => [] end.

(** The rows of the table, with their cells left out. *)
Definition note_vectors (s : MemStore) (p : VectorStoragePolicy) : option (list (string * vec32)) :=
  (λ rows : list Row, (λ r : Row, (cell_text "note" r.1, r.2)) <$> rows) <$> rows_left_by_dvs (view s) p (listing_of s).

Example rows_migrated :
  note_vectors memories_store policy = Some [("y", [3; 4]); ("z", [5; 6])] ∧
  (migrated AtomicReplace).2 = Ret (Ok tt) ∧
  note_vectors (migrated AtomicReplace).1 lengths_policy = Some [("y", length_model "y"); ("z", length_model "z")] ∧
  (migrated DualWriteThenCutover).2 = Ret (Ok tt) ∧
  note_vectors (migrated DualWriteThenCutover).1 lengths_policy = Some [("y", length_model "y"); ("z", length_model "z")].
Proof. by vm_compute. Qed.

(** The cutover replaces the table as it was listed: a file appended while the new ones
    were written is no longer listed afterwards. *)
Example cutover_drops_append :
  let '(s1, o) := write_all (to_lengths DualWriteThenCutover) job_clock lengths_policy 0 memories_files memories_store in
  let es := match o with Ret (Ok es) => es | _ => [] end in
  let s2 := (commit_snapshot root warehouse (new_snapshot 15 Append [new_file "c.parquet" 3] [] None) 4000 s1).1 in
  let s3 := (commit_snapshot root warehouse
               (migration_snapshot lengths_policy 20 (im_current_snapshot_id memories_meta) es) 5000 s2).1 in
  df_path <$> listing_of s2 = ["a.parquet"; "b.parquet"; "c.parquet"] ∧
  df_path <$> listing_of s3 = ["data/migrated-7-00000.parquet"; "data/migrated-7-00001.parquet"].
Proof. by vm_compute. Qed.

Definition lengths_column : VectorColSpec := mk_colspec "lengths" 2 Euclidean F32 false None None.
Definition add_lengths : BackfillJob := mk_backfill "note" lengths_column embed_lengths 2.
Definition primary : VectorStoragePolicy :=
  Eval vm_compute in match primary_policy_from_props (im_properties memories_meta) with Ok p => p | Err _ => policy end.
Definition backfilled : MemStore * outcome AilakeError unit := backfill_run add_lengths job_clock memories_store.

Example rows_backfilled :
  backfilled.2 = Ret (Ok tt) ∧ note_vectors backfilled.1 primary = Some [("y", [3; 4]); ("z", [5; 6])] ∧
  (backfill_run add_lengths job_clock backfilled.1).2 = Ret (Ok tt) ∧
  view (backfill_run add_lengths job_clock backfilled.1).1 = view backfilled.1.
Proof. split_and!; [by vm_compute..|]. apply (bool_decide_unpack _). by vm_compute. Qed.

(* ------------------------------------------------------------------ *)
(** ** The hypotheses                                                  *)
(* ------------------------------------------------------------------ *)

(** A commit of a table that is published as stored. *)
Definition commit_input_b (m : gmap string bytes) (meta : IcebergMetadata) (sn : NewSnapshot) : bool :=
  bool_decide (ns_snapshot_id sn ∉ snap_ids meta) &&
  bool_decide (fits_i64 (ns_snapshot_id sn)) && bool_decide (fits_i64 (im_next_row_id meta)) &&
  bool_decide (Forall entry_typed (ns_files sn)) && bool_decide (ns_equality_delete_files sn = []) &&
  is_none (commit_spec meta) &&
  (Zlen (manifest_bytes warehouse meta sn) <? 2 ^ 63) && (Zlen (delete_bytes root meta sn) <? 2 ^ 63) &&
  (Zlen (list_bytes root warehouse meta sn m) <? 2 ^ 63).
Definition next_commit_b (m : gmap string bytes) (sn : NewSnapshot) : bool :=
  match published m root with
  | Some (v, meta) => commit_input_b m meta sn && bool_decide (fits 32 (v + 1))
  | None => false
  end.

Lemma schemas_parse :
  parse_schema (build_manifest_entry_schema None) = Some (manifest_entry_schema None) ∧
  parse_schema MANIFEST_ENTRY_SCHEMA_STR = Some (manifest_entry_schema None) ∧
  parse_schema MANIFEST_LIST_SCHEMA_STR = Some manifest_list_schema.
Proof. by split_and!; vm_compute. Qed.

Lemma is_none_spec {A} (o : option A) : is_none o = true → o = None.
Proof. by destruct o. Qed.

Lemma commit_input_b_spec m meta sn : commit_input_b m meta sn = true → commit_input m root warehouse meta sn.
Proof.
  unfold commit_input_b. rewrite !andb_true_iff, !bool_decide_eq_true, !Z.ltb_lt.
  intros ((((((((Hfresh & Hid) & Hrow) & Hfiles) & Ed) & Es%is_none_spec) & Hm) & Hd) & Hl).
  destruct schemas_parse as (He & Hde & Hli).
  constructor; [exact Hfresh|exact Hid|exact Hrow|exact Hfiles| | |exact Hde|exact Hli|exact Hm|exact Hd|exact Hl].
  - rewrite Ed. constructor.
  - rewrite Es. exact He.
Qed.

Lemma next_commit_b_spec m sn :
  next_commit_b m sn = true → ∀ v meta, table m root v meta → commit_input m root warehouse meta sn ∧ fits 32 (v + 1).
Proof.
  unfold next_commit_b. intros Hb v meta Ht. destruct (published m root) as [[v' meta']|] eqn:Ep; [|done].
  apply published_table in Ep. destruct (stored_fun _ _ _ _ _ _ (t_stored _ _ _ _ Ht) (t_stored _ _ _ _ Ep)) as [-> ->].
  apply andb_prop in Hb as [Hb Hv%bool_decide_eq_true]. split; [by apply commit_input_b_spec|done].
Qed.

(** [commits_fit], as a test. *)
Fixpoint commits_fit_b (rewrite : nat → DataFileEntry → IO MemStore (option DataFileEntry))
    (snapshot : nat → option Z → list DataFileEntry → NewSnapshot) (now : nat → Z)
    (idx : nat) (todo current : list DataFileEntry) (parent : option Z) (s : MemStore) : bool :=
  match todo with
  | [] => true
  | f :: todo =>
      match rewrite idx f s with
      | (s1, Ret (Ok (Some g))) =>
          let current := <[idx := g]> current in
          let snap := snapshot idx parent current in
          next_commit_b (view s1) snap &&
          match cp_commit_snapshot snap (now idx) s1 with
          | (s2, Ret (Ok _)) => commits_fit_b rewrite snapshot now (S idx) todo current (Some (ns_snapshot_id snap)) s2
          | _ => true
          end
      | (s1, Ret (Ok None)) => commits_fit_b rewrite snapshot now (S idx) todo current parent s1
      | _ => true
      end
  end.

Lemma commits_fit_spec rewrite snapshot now idx todo current parent s :
  commits_fit_b rewrite snapshot now idx todo current parent s = true →
  commits_fit root warehouse rewrite snapshot now idx todo current parent s.
Proof.
  revert idx current parent s. induction todo as [|f todo IH]; intros idx current parent s; [done|].
  cbn [commits_fit_b commits_fit]. destruct (rewrite idx f s) as [s1 [[[g|]|]|]]; [|by apply IH|done..].
  intros [Hn Hrest]%andb_prop. split; [by apply next_commit_b_spec|].
  change (cp_commit_snapshot (CatalogProvider := job_catalog root warehouse)) with (cp_commit_snapshot (CatalogProvider := memories_catalog)).
  destruct (cp_commit_snapshot _ _ s1) as [s2 [[id|]|]]; [by apply IH|done..].
Qed.

(** New paths start with [data/], the catalog's with [wh/], and the files lie elsewhere. *)
Definition own_places (path : nat → string) : Prop :=
  (∀ i, ∃ q, path i = String (Ascii.ascii_of_nat 100) q) →
  rewrite_ready root warehouse memories_store 2 memories_meta memories_files memories_deletes path.
Lemma places_apart path : own_places path.
Proof.
  intros Hpath. split.
  - exact I.
  - apply published_table. vm_compute. reflexivity.
  - vm_compute. reflexivity.
  - vm_compute. reflexivity.
  - assert (Hq : ∀ q, q ∈ ["a.parquet"; "b.parquet"; "a.puffin"] → (∀ i, q ≠ path i) ∧ ∀ o, q ≠ obj_path root o).
    { intros q Hq. split.
      - intros i E. destruct (Hpath i) as [t Et]. rewrite Et in E. set_unfold in Hq. destruct_or! Hq; subst; discriminate E.
      - intros o E. destruct (catalog_starts o) as [t Et]. rewrite Et in E. set_unfold in Hq. destruct_or! Hq; subst; discriminate E. }
    apply Forall_forall. intros f Hin. split; [by right|]. intros q Ho. apply Hq.
    assert (Hall : forallb (λ f, bool_decide (df_path f ∈ ["a.parquet"; "b.parquet"; "a.puffin"]) &&
      match df_deletion_vector f with Some dv => bool_decide (dv_path dv = "a.puffin") | None => true end) memories_files = true)
      by (vm_compute; reflexivity).
    rewrite forallb_forall in Hall. specialize (Hall f (proj1 (list_elem_of_In _ _) Hin)).
    apply andb_prop in Hall as [E1%bool_decide_eq_true_1 E2]. destruct Ho as [->|(dv & Hd & ->)]; [done|].
    rewrite Hd in E2. apply bool_decide_eq_true_1 in E2 as ->. do 2 right. by left.
  - intros i. destruct (Hpath i) as [t Et]. rewrite Et. split; [by right|]. intros o E.
    destruct (catalog_starts o) as [t' Et']. rewrite Et' in E. discriminate E.
Qed.

(** Every file shows rows, and its columns have other names than the new one. *)
Definition file_ready_b (p : VectorStoragePolicy) (column : string) (f : DataFileEntry) : bool :=
  match left_by_dv (view memories_store) p (file_key f) with Some (_ :: _) => true | _ => false end &&
  match view memories_store !! df_path f with
  | Some d =>
      match read_parquet (mk_reader d (column_name p)) (policy_dim p) with
      | Ok (b, e) => bool_decide (column ∉ field_names b)
      | Err _ => true
      end
  | None => true
  end.
Lemma files_ready p column :
  forallb (file_ready_b p column) memories_files = true →
  all_shown (view memories_store) p memories_files ∧
  Forall (λ f, ∀ d b e, view memories_store !! df_path f = Some d →
    read_parquet (mk_reader d (column_name p)) (policy_dim p) = Ok (b, e) → column ∉ field_names b) memories_files.
Proof.
  intros Hall. rewrite forallb_forall in Hall. unfold all_shown. rewrite !Forall_forall.
  split; intros f Hf; specialize (Hall f (proj1 (list_elem_of_In _ _) Hf)); apply andb_prop in Hall as [Hv Hn].
  - destruct (left_by_dv _ _ _) as [[|r rs]|]; [done| |done]. by exists (r :: rs).
  - intros d b e Hd Hr. rewrite Hd, Hr in Hn. by apply bool_decide_eq_true_1 in Hn.
Qed.

Lemma lengths_ready :
  migration_ready root warehouse (to_lengths AtomicReplace) job_clock memories_store 2 memories_meta memories_files memories_deletes
    policy lengths_policy memories_rows.
Proof.
  destruct (files_ready policy "lengths") as [Hsh Hname]; [by vm_compute|].
  split; [apply places_apart; intros i; by eexists|done|by vm_compute|done|done|done|exact Hname|by vm_compute|exact Hsh|].
  apply commits_fit_spec. vm_compute. reflexivity.
Qed.


Lemma backfill_is_ready :
  backfill_ready root warehouse add_lengths job_clock memories_store 2 memories_meta memories_files memories_deletes primary memories_rows.
Proof.
  destruct (files_ready primary "lengths") as [Hsh _]; [by vm_compute|].
  split; [apply places_apart; intros i; by eexists|done|by vm_compute|done|done| |by vm_compute|exact Hsh|].
  - apply (Forall_impl (λ f, rewritable_file f = true)); [|intros f; apply rewritable_file_ok].
    apply Forall_forall. intros f Hin. eapply forallb_forall; [|by apply list_elem_of_In]. vm_compute. reflexivity.
  - apply commits_fit_spec. vm_compute. reflexivity.
Qed.

